(* ===== verification/_CoqProject ===== *)
-Q . S2P
Prelude.v
Effects.v
Bytes.v
Base64.v
Cdid.v
Url.v
KeyUri.v
Tags.v
Ccuri.v
Documents.v
Verify.v
JobQueue.v
JobQueueFacts.v
JobQueueLive.v
DeadLetters.v
Numbers.v
Jwt.v
PolicyValues.v
Policy.v
GlobalPolicy.v
PolicyService.v
Heap.v
Chunkline.v
ChunklineFacts.v
Store.v
Client.v
ResourceBatch.v
Gateway.v
GatewayFacts.v
GatewayWorld.v
ClientFacts.v
ResourceBatchFacts.v
ClientSafe.v
Server.v
StoreFacts.v
StoreInv.v
StoreRecords.v
Queries.v
QueriesFacts.v
Counts.v
Usecase.v
ChunkStore.v
Commit.v
CommitSafe.v
CommitFacts.v
CommitReplay.v
Auth.v
Proxy.v
WellKnown.v
Residence.v
Subscriber.v
SubscriberFacts.v
SubscriberSafe.v
Cluster.v
ClusterFacts.v
Sessions.v
Health.v
Rest.v
Batch.v
BatchFacts.v
Notification.v
NotificationFacts.v
Authority.v
CommitWorld.v
Replication.v
RestFacts.v
AuthWorld.v
Account.v
Operation.v
OperationFacts.v
Ledger.v
OperationSafe.v
Transfer.v
TransferFacts.v
Repair.v
RepairLoop.v
RepairFacts.v
RepairOwners.v
Migrate.v
MigrateFacts.v
