(* ===== verification/Prelude.v ===== *)
(** * Concrnt: a verification library

    Concrnt is a federated record server: users sign documents, servers verify
    them, store them under URIs and forward them to each other.  This library
    models the server - identifiers, URIs, documents, signatures, tokens,
    policies, the record store and the record use case, the job queue, the
    client of other servers, the timelines with their cache and the realtime
    subscriptions that keep it fresh, leader election, notifications and the
    HTTP handlers - as executable definitions that follow the Go code function
    by function, and proves what makes each part correct.

    ** The parts and their files

    Foundations
    - [Prelude] (this file): [error] and [result] for Go's errors and panics,
      [Str] for package [strings], character classes, the tactic [by_class] and
      the hint databases, generic lemmas.
    - [Effects]: the state monad with errors and panics that the stateful
      parts share.
    - [Bytes], [Base64], [Numbers]: digits in a base, byte strings,
      [encoding/base32] and [encoding/base64], [strconv].
    - [Cdid]: document identifiers, [src/cdid/cdid.go].
    - [Url], [KeyUri], [Ccuri]: what the program uses of [net/url]; record keys
      as paths; [src/utils.go].
    - [Documents], [Tags]: [src/types.go], [src/schemas], the operations on
      documents and events; [src/impl/tags].

    Trust and authorisation
    - [Verify]: [src/verify.go] and [src/crypto.go].  [verify] is the code with
      its depth counter, [authorised] the specification.
    - [Jwt]: [src/jwt].
    - [PolicyValues], [Policy]: [src/policy], the expression evaluator and the
      combination of policy layers.
    - [GlobalPolicy]: the policy built into [src/cmd/concrnt/defaultPolicy.go].
    - [PolicyService]: [src/internal/service/policy.go], which fetches, rewrites
      and enforces the policies of a record's hierarchy.
    - [Auth], [AuthWorld]: the authentication middleware and the identity
      headers between services ([src/internal/present/rest/middleware],
      [src/impl/interop]).
    - [Proxy]: the routes to the services behind the server ([proxy.go]).
    - [Authority]: who may write where no policy is declared.

    Storage ([src/internal/infra/repository/postgres], tables of
    [src/internal/infra/database/models])
    - [Store]: the tables and every repository operation that writes them.
    - [StoreFacts], [StoreInv], [StoreRecords]: their theorems.
    - [Queries], [QueriesFacts]: the list queries and their pagination;
      [Replication]: a follower of the commit log.
    - [Counts]: association counts by variant.

    The record use case ([src/internal/usecase/record])
    - [Usecase]: the server's state, the monad of its handlers, entity
      resolution ([entity.go]), reads ([read.go]), queries ([query.go]),
      replication ([replication.go]).
    - [Commit]: [commit.go] with its handlers [saveEntity], [createRecord],
      [createAssociation], [processAck], [deleteRecord]; [deliver.go] and
      [commitlog.go].
    - [CommitSafe], [CommitFacts], [CommitReplay], [Ledger]: their theorems.
      [CommitSafe] follows a commit through every write for any preorder the
      repository's steps respect and any property of the documents that are
      logged; [Ledger] and [OperationSafe] instantiate it.
    - [CommitWorld]: a concrete server that runs the model and carries the
      witnesses of the use-case theorems.

    Other servers and their users
    - [Client], [ClientFacts]: [src/client/client.go].
    - [ResourceBatch], [ResourceBatchFacts]: many resources in few requests,
      [src/client/resource_batch.go] and [batch.go].
    - [ClientSafe]: every operation of the client uses its cache at its types.
    - [Server]: the table of known servers, [src/internal/usecase/server].
    - [Residence]: registration, [src/internal/usecase/residence].
    - [JobQueue], [JobQueueFacts], [JobQueueLive]:
      [src/internal/infra/jobqueue/redis.go], a step relation over redis with
      faults per command; [DeadLetters]:
      [conctl]'s [dump-dlq] and [purge-dlq].

    Timelines
    - [Heap], [Chunkline], [ChunklineFacts]: the merge of timelines,
      [src/chunkline].
    - [ChunkStore]: the chunks of a server's own timelines
      ([postgres/chunkline.go]).
    - [Gateway], [GatewayFacts], [GatewayWorld]: the cache of chunks
      ([src/internal/infra/gateway/chunkline_gateway.go]).
    - [Subscriber], [SubscriberFacts], [SubscriberSafe]: the leader's
      subscriptions to other servers ([src/internal/worker/LeaderSubscriber.go])
      as a step relation over interleaved tasks.
    - [Cluster], [ClusterFacts]: election and followers
      ([src/internal/infra/cluster], [src/cmd/k8s-elector],
      [WorkerSubscriber.go]).
    - [Sessions]: websocket sessions and the demand of a replica
      ([src/internal/usecase/subscription]).

    Notifications and HTTP
    - [Notification], [NotificationFacts]: push subscriptions, counters, and
      the reactor that turns events into pushes.
    - [Rest], [RestFacts]: the handlers of [src/internal/present/rest] and its
      presenter.
    - [Batch], [BatchFacts]: batch requests.
    - [WellKnown]: the table of routes, the advertised endpoints of the server
      and its services ([src/internal/service/modules.go]), the documents under
      [/.well-known/].
    - [Health]: the watchdog, the readiness sweep and the probes.

    The operator's commands ([src/cmd/conctl])
    - [Operation], [OperationFacts], [OperationSafe]: [gc-commitlog] and
      [delete-user], with [backup.go]: what is selected, the snapshot and its
      upload, the batches with their cascades, and what is left when a statement
      fails.
    - [Transfer], [TransferFacts]: [dump-commitlog], [filter-commitlog] and
      [import-commitlog], with the handler the import posts to.
    - [Repair], [RepairLoop], [RepairFacts], [RepairOwners]:
      [repair-single-owner] with its batches, any of which may fail.
      [RepairLoop] is about any pass in batches over rows in key order.
    - [Account]: [create-account], the identities it makes, and [generate token].
    - [Migrate], [MigrateFacts]: [migrate v1-to-v2], with what it uses of
      [src/legacy]: the conversion of every kind of document of version 1, and
      the pages in which they are sent.

    ** How the parts interact

    A component is used through an interface where the program has one, or
    where the code is outside the repository; theorems are proved against the
    class and the witnesses instantiate it.
    - Encodings: [Json], [StoreCodec], [LogCodec], [TimeFormat], [TimeParse],
      [JwtJson], [JobJson], [ClientJson], [GatewayJson], [ClusterJson],
      [HeadCodec], [MetaCodec], [AccountJson], [YamlJson], [V1Json],
      [UriTemplate].
    - Functions of libraries: [Keccak], [Secp256k1], [Sha256], [XXH3], [Bip39],
      [NetIP]; [MapOrder], the order of a Go map.
    - [Orm], [ScanCounts], [SaveSubscription]: what the object-relational mapper
      does with zero values, columns without a field, and saved rows;
      [LimitRows], the rows a [LIMIT] without an order keeps.
    - [Resolver] (an argument of [Verify.verify]): the program's
      [DocumentResolver]; the use case passes its own.
    - [PolicyNetwork]: fetching policy texts; [PolicyEval]: what the use case
      asks of the policy service.  [CommitWorld] derives the second from the
      model of the service.
    - [Web], [BatchWeb], [ServerClient], [TimelineClient]: the answers of other
      servers; [ServiceWeb]: those of the services behind this one.
    - [ChunkResolver], with its promise [Serves]: a source of chunks.
      [Chunkline] merges any; [ChunkStore] and [Gateway] are instances, and
      [GatewayFacts] discharges the promise from a coherent cache.
    - [Memcached]: a cache that may lose entries but not invent them.
    - [AnswersAlone]: a custom batch handler answers as the plain one would.
    - [Env]: the server's configuration, the clock, DNS and the answers of other
      servers.
    A handler of the use case is a function [St -> result A * St].  [st_db] is
    the committed database, [st_tx] the writes of the open transaction in
    order, [st_out] what was sent out; a committed transaction replays its
    writes on the database, an abandoned one drops them.  Resolving an unknown
    entity commits the document a hinted server returns, in a transaction of
    its own, so the handlers take the commit function as an argument and
    [Commit.Commit] ties the knot.  The HTTP handlers of [Rest] are functions
    over the same state, with the table of servers beside it.

    Where goroutines of one or several replicas interleave - the job queue, the
    leader's subscriber, notifications - the model is a step function on a
    world that holds the tasks under way; a label names who moves and what
    failed, and the theorems are about every run of labels.

    ** What the theorems show

    - Signatures: [Verify_iff] (the verifier accepts exactly what the rules
      authorise, within the depth), [Verify_master_signed] (every accepted chain
      ends in the author's own signature), [revoked_subkey_rejected],
      [Verify_acked], [verify_depth_mono]; tokens: [Validate_iff].
    - Requests: [IdentifyIdentity_sound] and [request_admitted] carry a token
      through to the commit it admits; [forward_receive] is the round trip of
      identity headers.
    - Policies: the evaluator against its specification ([EvaluateStack_spec],
      [EvaluatePolicy_spec], [Or_dominance], [key_matches_iff],
      [opAnd_opOr_spec]), the built-in policy as a decision table
      ([GlobalPolicy_table]), the service on top of both ([Eval_decides],
      [resolvePolicyStack_total], [rewrite_key_scope]), and what they mean for
      writes ([undeclared_writes]).
    - Storage: the schema is invariant under every sequence of operations
      ([reachable_wf]); accept-if-newer for records, entities and acks
      ([CreateRecord_accepts], [entities_converge], [acks_mirror]);
      [hierarchy_prefixes], [subtree_query], [variant_counts_exact]; a follower
      of the commit log reads all of it, unless more was received at one instant
      than a page holds ([replication_pages]).
    - The use case: nothing happens for a document that is not admitted
      ([Commit_guarded]); a document is applied once ([commit_once]); every row of
      the log was put there by one commit, as a document filed under its own
      digest and, unless the system account made that commit, verified during it
      ([ledger_signed]); a delete is all or nothing ([delete_all_or_nothing]) and
      addresses the same keys everywhere ([range_agrees],
      [parseRangeDeleteTarget_sound]); a query lists what may be read
      ([Query_readable]); an event shows to the public what the public may read
      ([public_events]).
    - The job queue: an accepted job is handled, a dead letter, or brought into
      a consumer's hands by the loops, as long as retries and dead letters can be
      written and nothing is trimmed or purged ([at_least_once]); attempts and
      their delays are bounded ([attempts_bounded], [backoffDuration_spec]);
      a dump shows every dead letter once ([dump_letters]) and a dry run of a
      purge counts what the purge deletes ([purge_dry_run]).
    - The client: what it hands out verified was verified
      ([GetSignedRecord_verified]); its cache is typed, in any order of its
      operations ([client_typed]); the results of a batch are never exchanged
      ([batch_results]), and a domain that fails only loses its own requests
      ([BatchGet_keys], [client_batch_online]).
    - Timelines: a page of any source that keeps its promise is a page of the
      newest items, as long as no timeline is hidden behind its newest chunk
      ([QueryDescending_page]); a server's own timelines ([own_page_complete])
      and the gateway's cache, when the origins answer ([gateway_page]), keep it;
      the update for the event of an item of the latest chunk preserves coherence
      ([event_followed]).
    - Subscriptions: as long as listen requests are not overtaken, a cached chunk
      that misses an event has its purge due, and there is none when nothing is
      under way ([no_stale_chunk]); a connection has its entry, or is about to be
      closed, and what its entry lists is served or being asked for
      ([no_lost_connection]); a keeper pass leaves what is demanded
      ([deleteExcess_exact]); two replicas lead at once only for seconds after a
      lease that was not renewed changed hands ([leaders_handover]), terms alternate
      ([one_term_at_a_time]); the demand is what the sessions ask for
      ([demand_exact]).
    - Notifications: at most one push while claims are answered and last
      ([push_once]), one
      worker per subscription ([sync_exact]), counters ([counter_exact]), and
      endpoints that touch the requester's own ([own_only]).
    - Operator deletions: the tables without a set of documents ([erased]) are
      the reference for the cascades; a collection deletes what it selects
      ([gc_exact]) and, whatever fails, nothing unflagged, young or not backed up
      ([gc_accounted]); it does not reopen the replay hole for the commits the
      backdate window applies to ([replay_window]); a user's deletion stays with
      the user ([user_accounted]), saves everything before anything goes and
      takes the registration last ([registration_last]).
    - Dumps: a dump holds what its window says ([dump_exact], [dump_window]); an
      import sends every line once, entities first ([import_complete],
      [import_batches]); importing a server's dump into it, in posts within its
      limits, changes nothing ([reimport_noop]).
    - Repair: a run that failed anywhere can be repeated and ends where an
      undisturbed one does ([repair_resumes]); what it leaves
      ([repair_outcome]); the owner it derives from a document is the one the
      server recorded when it committed it ([owner_recovered]).
    - Migration: a run that is cut off goes on with the page it did not finish
      ([migration_resumes]); what it sends is for local owners
      ([converted_local]), and a delete goes where its message went
      ([message_deleted]); local entities are registered first
      ([local_registered]).
    - Accounts: what [create-account] reports is registered, with an entity
      document every server verifies ([account_created]); a generated token is
      its service account's until it expires ([generated_token]).
    - HTTP: pages are bounded ([listing_bounded]), a denied record looks like a
      missing one ([denied_looks_missing]), a batch is its requests
      ([batch_answers], [batch_refused]); every advertised endpoint is a route
      ([endpoints_routed]), the endpoint of a service leads to the path the
      service gave ([advertised_path_arrives], [proxied_path]), the configuration
      is served as it is or refused ([RenderWellKnown_exact], [reserved_name]);
      the probes report exactly the stalled
      loops and failing checks ([stalled_exact], [ready_exact]).
    - Identifiers and views: round trips and order of [Cdid], round trip and
      soundness of [Ccuri], [PublicView_exact], [PublicView_MarkAllPublic],
      [StripInternalFlags_flagless].
    - Limits of the code, as theorems about it: [unack_first_stays_valid],
      [reference_time_unbounded], [Commit_never_ends], [Resolve_takes_over],
      [failed_retry_loses], [busy_chunk_hides], [future_lookup_hides],
      [empty_body_poisons], [listen_overtaken], [event_during_fetch],
      [leaders_overlap], [worker_answer_old], [variants_unordered],
      [reference_unhidden], [batch_copy_survives], [unack_revived],
      [subprofile_delete_hits_main], [entity_between_lost].

    ** Fuel and bounds

    [Verify.verify] counts down from [maxVerifyDepth] (4), which is the code's
    own bound.  The walks up a key's path take [Store.key_fuel] steps, the
    length of the URI plus two; [key_fuel_enough] shows that a key has fewer
    segments, and [hierarchy_prefixes] and [CreateRecord_accepts] are stated
    with it.  [GetEntity] redirects an alias once, which is
    all the code's recursion can do ([GetEntity_equation]); the client's
    [GetResource] is entered at most twice for the same reason.
    [Commit.Commit] counts the commits nested in one another through entity
    resolution.  The code has no bound there: no fuel is enough in general
    ([Commit_never_ends]), and the safety theorems hold for every fuel.
    The merge of timelines has the code's own bound of a thousand turns
    ([itrlimit]); sifting in the heap takes its length; the job queue's scan of
    dead letters takes the length of the stream; a deletion in batches takes the
    number of rows it selects ([delete_batches_ok]) and so do the pages of a
    snapshot ([snapshot_ends]); a dump takes one more than the number of logs
    ([dump_exact] shows it ends), and a pass of the repair one more than the
    number of rows, since every page but the last moves its cursor
    ([in_batches_gone]); so do the pages of a migration ([migration_resumes]).
    Identifiers carry 48-bit timestamps with the code's clamping; sizes in
    bytes are compared as the code compares them; times are nanoseconds in [Z]
    and are cut to 64 bits where the code takes [UnixNano].

    ** What is not modelled

    - The throttle of the entity recheck (an argument), and expiry of caches (a
      dropped entry is one the cache lacks).
    - The body of a redirect error, and error texts beyond the message the code
      inspects or the user sees first.
    - Concurrent transactions: one commit runs at a time, except for commits
      nested in it, whose writes the outer transaction sees at its end.  Jobs
      and published events of a commit are recorded in [st_out] in the order
      the code sends them.
    - PostgreSQL's microsecond rounding and its collation (texts are ordered by
      bytes), and connection failures.
    - Of the job queue: the commands of one message's processing interleave
      with nothing else; metrics.  Of the subscriber: failures of a purge, ping
      and read deadlines.  Of notifications: the encryption and the transport of
      web push, which are outcomes of a step, and a subscription whose keys do
      not decode, whose worker returns at once.
    - Pattern matching of redis pub/sub, the websocket itself, the matching of
      routes and the binding of requests, static files, the transport of the
      reverse proxy, loading of the configuration, and wiring.
    - Of the operator's deletions: failing reads and temporary files, which end
      a command before it deletes, and commits of the live server between two
      statements.
    - Of the repair: failing reads, and a live server beside it.  Of a dump and an
      import: failing files, and the wire between them.
    - Of the migration: failing statements on the new database, the renewal of
      its token, and the wire.
    - The migration of the bridge to ActivityPub and of the 1.11 beta
      ([migrate-ap-v1-to-v2], [repair-anchored-acks]), which translate tables of
      other programs; the rest of the legacy code, which nothing calls; the
      lookup commands, which only print. *)

From stdpp Require Import prelude strings gmap list sorting.
From Stdlib Require Import ZArith Lia Ascii.
From Stdlib Require String.

(** ** Errors and results

    A Go function of the program returns a value and an [error], or panics.
    [error] has one constructor per error type of [internal/domain/errors.go],
    one per sentinel of [verify.go], [GoError] for [errors.New]/[fmt.Errorf]
    texts and [Joined] for [errors.Join]. *)

Inductive error : Type :=
| NotFoundError (resource message code : string)
| PermissionError (reason : string)
| RedirectError (location : string)
| ValidationError (field message : string)
| ErrSignatureVerificationFailed
| ErrNoneProofNotAllowed
| ErrUnsupportedProofType
| ErrProofTypeNotAllowed
| GoError (msg : string)
| Joined (e1 e2 : error)
| OutOfFuel.

Inductive result (A : Type) : Type :=
| Ok (a : A)
| Err (e : error)
| Panic.
Arguments Ok {A} a.
Arguments Err {A} e.
Arguments Panic {A}.

Definition rbind {A B} (r : result A) (f : A → result B) : result B :=
  match r with
  | Ok a => f a
  | Err e => Err e
  | Panic => Panic
  end.

(** [x ← r; k]: run [r], stop at its error or panic. *)
#[export] Instance result_ret : MRet result := λ A a, Ok a.
#[export] Instance result_bind : MBind result := λ A B f r, rbind r f.

(** A loop that collects results and stops at the first failure. *)
Fixpoint traverse {A B} (f : A → result B) (l : list A) : result (list B) :=
  match l with
  | [] => Ok []
  | a :: l => rbind (f a) (λ b, rbind (traverse f l) (λ bs, Ok (b :: bs)))
  end.

Definition is_ok {A} (r : result A) : bool :=
  match r with Ok _ => true | _ => false end.

Definition of_option {A} (e : error) (o : option A) : result A :=
  match o with Some a => Ok a | None => Err e end.

(** [errors.Is] against each sentinel: a joined error matches when either side does. *)
Fixpoint is_not_found (e : error) : bool :=
  match e with
  | NotFoundError _ _ _ => true
  | Joined a b => is_not_found a || is_not_found b
  | _ => false
  end.

Fixpoint is_permission_denied (e : error) : bool :=
  match e with
  | PermissionError _ => true
  | Joined a b => is_permission_denied a || is_permission_denied b
  | _ => false
  end.

Fixpoint is_proof_type_not_allowed (e : error) : bool :=
  match e with
  | ErrProofTypeNotAllowed => true
  | Joined a b => is_proof_type_not_allowed a || is_proof_type_not_allowed b
  | _ => false
  end.

Fixpoint is_none_proof_not_allowed (e : error) : bool :=
  match e with
  | ErrNoneProofNotAllowed => true
  | Joined a b => is_none_proof_not_allowed a || is_none_proof_not_allowed b
  | _ => false
  end.

Fixpoint is_unsupported_proof_type (e : error) : bool :=
  match e with
  | ErrUnsupportedProofType => true
  | Joined a b => is_unsupported_proof_type a || is_unsupported_proof_type b
  | _ => false
  end.

#[global] Instance error_eq_dec : EqDecision error.
Proof. solve_decision. Defined.

Section ResultLemmas.
Context {A B : Type}.
Implicit Types (r : result A) (f : A → result B).

Lemma rbind_ok_inv r f b :
  rbind r f = Ok b → ∃ a, r = Ok a ∧ f a = Ok b.
Proof. destruct r; cbn; naive_solver. Qed.

Lemma rbind_panic_inv r f :
  rbind r f = Panic → r = Panic ∨ ∃ a, r = Ok a ∧ f a = Panic.
Proof. destruct r; cbn; naive_solver. Qed.

Lemma is_ok_spec r : is_ok r = true ↔ ∃ a, r = Ok a.
Proof. destruct r; cbn; naive_solver. Qed.
End ResultLemmas.

Lemma traverse_ok {A B} (f : A → result B) l bs :
  traverse f l = Ok bs → Forall2 (λ a b, f a = Ok b) l bs.
Proof.
  revert bs. induction l as [|a l IH]; cbn; intros bs Hr; [by simplify_eq|].
  apply rbind_ok_inv in Hr as (b & Hb & Hr). apply rbind_ok_inv in Hr as (bs' & Hbs & Hr).
  simplify_eq. constructor; auto.
Qed.

(** Inverts every successful bind in the context. *)
Ltac inv_result :=
  repeat match goal with
  | H : rbind _ _ = Ok _ |- _ => apply rbind_ok_inv in H as (? & ? & ?)
  | H : mbind _ _ = Ok _ |- _ => apply rbind_ok_inv in H as (? & ? & ?)
  | H : Ok _ = Ok _ |- _ => injection H as H
  | H : mret _ = Ok _ |- _ => injection H as H
  | H : Err _ = Ok _ |- _ => discriminate H
  | H : Ok _ = Err _ |- _ => discriminate H
  | H : Panic = _ |- _ => discriminate H
  | H : _ = Panic |- _ => discriminate H
  end.

(** Identifies the values of two runs of the same computation. *)
Ltac same_result :=
  repeat match goal with
  | H1 : ?x = Ok ?a, H2 : ?x = Ok ?b |- _ =>
      lazymatch a with b => fail | _ => idtac end;
      rewrite H1 in H2; injection H2 as H2; try subst
  end.

(** ** Filtering by a boolean *)

Section Filter.
Context {A : Type}.
Implicit Types (P Q : A → bool) (l : list A).

Lemma elem_of_filter_b P l x : x ∈ List.filter P l ↔ x ∈ l ∧ P x = true.
Proof. by rewrite !list_elem_of_In, List.filter_In. Qed.

Lemma length_filter_le P l : (length (List.filter P l) <= length l)%nat.
Proof. induction l as [|x l IH]; cbn; [done|]. destruct (P x); cbn; lia. Qed.

Lemma length_filter_sub P Q l :
  (∀ x, x ∈ l → P x = true → Q x = true) → (length (List.filter P l) <= length (List.filter Q l))%nat.
Proof.
  induction l as [|x l IH]; cbn; [done|]. intros Hpq.
  assert (length (List.filter P l) <= length (List.filter Q l))%nat by (apply IH; intros; apply Hpq; [by right|done]).
  pose proof (Hpq x ltac:(by left)). destruct (P x), (Q x); cbn; lia.
Qed.

Lemma filter_none P l : (∀ x, x ∈ l → P x = false) → List.filter P l = [].
Proof.
  induction l as [|x l IH]; cbn; [done|]. intros HP. rewrite (HP x) by (by left). apply IH. intros; apply HP; by right.
Qed.

Lemma filter_all P l : (∀ x, x ∈ l → P x = true) → List.filter P l = l.
Proof.
  induction l as [|x l IH]; cbn; [done|]. intros HP. rewrite (HP x) by (by left). f_equal. apply IH.
  intros; apply HP; by right.
Qed.

Lemma filter_filter_sub P Q l :
  (∀ x, x ∈ l → P x = true → Q x = true) → List.filter P (List.filter Q l) = List.filter P l.
Proof.
  induction l as [|x l IH]; cbn; [done|]. intros Hpq. pose proof (Hpq x ltac:(by left)) as Hx.
  assert (List.filter P (List.filter Q l) = List.filter P l) as E by (apply IH; intros; apply Hpq; [by right|done]).
  destruct (Q x); cbn; [by rewrite E|]. destruct (P x); [by discriminate Hx|done].
Qed.

Lemma filter_filter_and P Q l : List.filter P (List.filter Q l) = List.filter (λ x, Q x && P x) l.
Proof. induction l as [|x l IH]; cbn; [done|]. destruct (Q x); cbn; [|done]. destruct (P x); by rewrite IH. Qed.

Lemma StronglySorted_filter_b (R : relation A) P l : StronglySorted R l → StronglySorted R (List.filter P l).
Proof.
  induction l as [|x l IH]; cbn; [done|]. intros [Hs Hf]%StronglySorted_inv. destruct (P x); [|by apply IH].
  constructor; [by apply IH|]. rewrite Forall_forall in *. intros y [Hy _]%elem_of_filter_b. by apply Hf.
Qed.

Lemma filter_fmap_b {B} (f : A → B) (P : B → bool) Q l :
  (∀ x, x ∈ l → P (f x) = Q x) → List.filter P (f <$> l) = f <$> List.filter Q l.
Proof.
  induction l as [|x l IH]; [done|]. intros HP. rewrite fmap_cons. cbn [List.filter]. rewrite (HP x) by (by left).
  rewrite IH by (intros; apply HP; by right). by destruct (Q x).
Qed.

Lemma filter_ext_b P Q l : (∀ x, x ∈ l → P x = Q x) → List.filter P l = List.filter Q l.
Proof.
  induction l as [|x l IH]; cbn; [done|]. intros HP. rewrite (HP x) by (by left).
  rewrite IH; [done|]. intros; apply HP; by right.
Qed.

(** A list sorted by a key falls in two at any value of it. *)
Lemma filter_split (key : A → Z) c l : StronglySorted (λ x y, key y <= key x)%Z l →
  l = List.filter (λ x, c <=? key x)%Z l ++ List.filter (λ x, key x <? c)%Z l.
Proof.
  induction l as [|x l IH]; cbn; [done|]. intros [Hs Hf]%StronglySorted_inv. rewrite Forall_forall in Hf.
  destruct (Z.leb_spec c (key x)) as [Hc|Hc].
  - rewrite (proj2 (Z.ltb_ge _ _)) by done. cbn. by rewrite <- IH.
  - rewrite (proj2 (Z.ltb_lt _ _)) by done. rewrite filter_none, filter_all; [done|..];
      intros y Hy; specialize (Hf y Hy); (apply Z.ltb_lt || apply Z.leb_gt); lia.
Qed.

#[export] Instance filter_b_Permutation P : Proper ((≡ₚ) ==> (≡ₚ)) (List.filter P).
Proof.
  induction 1 as [|x l k _ IH|x y l|l k m _ IH1 _ IH2]; cbn; [done| | |by etrans].
  - destruct (P x); [by constructor|done].
  - destruct (P x), (P y); done || constructor.
Qed.
End Filter.

(** A map of the keys of a list for which there is a value. *)
Definition map_of {A} (f : string → option A) (l : list string) : gmap string A :=
  foldr (λ k m, match f k with Some a => <[k := a]> m | None => m end) ∅ l.

Lemma lookup_map_of {A} (f : string → option A) l k : map_of f l !! k = if decide (k ∈ l) then f k else None.
Proof.
  unfold map_of. induction l as [|x l IH]; cbn [foldr].
  - rewrite lookup_empty. case_decide as Hk; [by apply elem_of_nil in Hk|done].
  - destruct (decide (k = x)) as [->|Hne].
    + rewrite decide_True by (by left). destruct (f x) as [a|] eqn:Hfx; [by rewrite lookup_insert_eq|].
      rewrite IH. by case_decide.
    + assert ((if decide (k ∈ x :: l) then f k else None) = if decide (k ∈ l) then f k else None) as ->
        by (repeat case_decide; set_solver).
      destruct (f x); [by rewrite lookup_insert_ne|done].
Qed.

(** ** Go strings

    A Go string is a byte sequence: [string] (a list of 8-bit [ascii]).  The
    functions below are the ones of packages [strings] and [slices] the program
    uses, on single-byte separators where the program only has those. *)

Module Str.
Fixpoint drop (n : nat) (s : string) : string :=
  match n, s with
  | S n, String _ s => drop n s
  | _, _ => s
  end.

Fixpoint take (n : nat) (s : string) : string :=
  match n, s with
  | S n, String c s => String c (take n s)
  | _, _ => ""
  end.

Definition len (s : string) : nat := String.length s.

Definition has_prefix (s p : string) : bool := String.prefix p s.

Definition trim_prefix (s p : string) : string :=
  if has_prefix s p then drop (len p) s else s.

Definition has_suffix (s p : string) : bool :=
  (len p <=? len s)%nat && String.eqb (drop (len s - len p) s) p.

Definition trim_suffix (s p : string) : string :=
  if has_suffix s p then take (len s - len p) s else s.

Fixpoint contains_char (s : string) (c : ascii) : bool :=
  match s with
  | EmptyString => false
  | String d s => Ascii.eqb d c || contains_char s c
  end.

(** [strings.Cut] at the first occurrence of a byte. *)
Fixpoint cut (s : string) (c : ascii) : string * string * bool :=
  match s with
  | EmptyString => ("", "", false)
  | String d s' =>
      if Ascii.eqb d c then ("", s', true)
      else let '(a, b, ok) := cut s' c in (String d a, b, ok)
  end.

(** Cut at the last occurrence of a byte ([strings.LastIndex]). *)
Fixpoint cut_last (s : string) (c : ascii) : option (string * string) :=
  match s with
  | EmptyString => None
  | String d s' =>
      match cut_last s' c with
      | Some (a, b) => Some (String d a, b)
      | None => if Ascii.eqb d c then Some ("", s') else None
      end
  end.

(** [strings.Split] on a one-byte separator: never empty. *)
Fixpoint split (s : string) (c : ascii) : list string :=
  match s with
  | EmptyString => [""]
  | String d s' =>
      if Ascii.eqb d c then "" :: split s' c
      else match split s' c with
           | [] => [String d ""]
           | x :: xs => String d x :: xs
           end
  end.

Definition join (l : list string) (sep : string) : string := String.concat sep l.

Fixpoint count_char (s : string) (c : ascii) : nat :=
  match s with
  | EmptyString => 0
  | String d s => (if Ascii.eqb d c then 1 else 0) + count_char s c
  end.

(** Byte order, Go's [<] on strings. *)
Definition ltb (s t : string) : bool := String.ltb s t.

Fixpoint forallb (f : ascii → bool) (s : string) : bool :=
  match s with
  | EmptyString => true
  | String c s => f c && forallb f s
  end.

Fixpoint map (f : ascii → ascii) (s : string) : string :=
  match s with
  | EmptyString => ""
  | String c s => String (f c) (map f s)
  end.
End Str.

Definition in_list (l : list string) (s : string) : bool :=
  existsb (String.eqb s) l.

Lemma in_list_elem l s : in_list l s = true ↔ s ∈ l.
Proof.
  unfold in_list. rewrite existsb_exists. split.
  - intros (x & Hx & Heq). apply String.eqb_eq in Heq. subst. by apply list_elem_of_In.
  - intros H. exists s. split; [by apply list_elem_of_In | apply String.eqb_refl].
Qed.

#[global] Arguments String.append !_ _ / : simpl nomatch.

Lemma str_app_assoc (a b c : string) : (a +:+ b) +:+ c = a +:+ (b +:+ c).
Proof. induction a as [|x a IH]; [done|]. cbn. by f_equal. Qed.

Lemma str_app_nil_r (a : string) : a +:+ "" = a.
Proof. induction a as [|x a IH]; [done|]. cbn. by f_equal. Qed.

Lemma str_len_app (a b : string) : Str.len (a +:+ b) = (Str.len a + Str.len b)%nat.
Proof. unfold Str.len. induction a as [|x a IH]; [done|]. cbn. by f_equal. Qed.

Lemma has_prefix_app p s : Str.has_prefix (p +:+ s) p = true.
Proof.
  unfold Str.has_prefix. induction p as [|x p IH]; [by destruct s|].
  cbn. destruct (ascii_dec x x); [apply IH | done].
Qed.

(** A one-byte prefix is the first byte. *)
Lemma has_prefix_char s c :
  Str.has_prefix s (String c "") = true → ∃ t, s = String c t.
Proof.
  unfold Str.has_prefix. destruct s as [|d s]; cbn; [done|].
  destruct (ascii_dec c d) as [<-|]; [by eauto | done].
Qed.

Lemma drop_app p s : Str.drop (Str.len p) (p +:+ s) = s.
Proof. unfold Str.len. induction p as [|x p IH]; [done|]. cbn. apply IH. Qed.

Lemma trim_prefix_app p s : Str.trim_prefix (p +:+ s) p = s.
Proof. unfold Str.trim_prefix. rewrite has_prefix_app. apply drop_app. Qed.

Create HintDb concrnt.
#[export] Hint Resolve has_prefix_app drop_app trim_prefix_app : concrnt.
#[export] Hint Rewrite str_app_assoc str_app_nil_r str_len_app : concrnt.

(** ** Character classes

    [Str.forallb f s] is how the development says that a text stays inside a
    class of bytes; facts about single bytes are decided by enumeration. *)

Definition all_ascii : list ascii := map (λ n, ascii_of_nat n) (seq 0 256).

Lemma ascii_all (P : ascii → bool) : forallb P all_ascii = true → ∀ c, P c = true.
Proof.
  intros H c. rewrite forallb_forall in H. apply H.
  unfold all_ascii. apply in_map_iff. exists (nat_of_ascii c).
  split; [apply ascii_nat_embedding|].
  apply in_seq. pose proof (nat_ascii_bounded c). lia.
Qed.

Lemma ascii_impl (P Q : ascii → bool) :
  forallb (λ c, negb (P c) || Q c) all_ascii = true → ∀ c, P c = true → Q c = true.
Proof. intros H c HP. pose proof (ascii_all _ H c) as HQ. cbn in HQ. by rewrite HP in HQ. Qed.

Lemma str_forallb_impl (P Q : ascii → bool) s :
  (∀ c, P c = true → Q c = true) → Str.forallb P s = true → Str.forallb Q s = true.
Proof.
  intros HPQ. induction s as [|c s IH]; cbn; [done|].
  rewrite !andb_true_iff. intros [Hc Hs]. auto.
Qed.

Lemma str_forallb_app (P : ascii → bool) a b :
  Str.forallb P (a +:+ b) = Str.forallb P a && Str.forallb P b.
Proof. induction a as [|c a IH]; [done|]. cbn. by rewrite IH, andb_assoc. Qed.

Lemma str_forallb_drop (P : ascii → bool) n s :
  Str.forallb P s = true → Str.forallb P (Str.drop n s) = true.
Proof.
  revert s. induction n as [|n IH]; intros [|c s]; cbn; try done.
  rewrite andb_true_iff. intros [_ Hs]. auto.
Qed.

(** The byte [c] does not occur in [s]. *)
Definition lacks (c : ascii) (s : string) : Prop := Str.forallb (λ d, negb (Ascii.eqb d c)) s = true.
#[export] Instance lacks_dec c s : Decision (lacks c s).
Proof. unfold lacks. apply _. Defined.

Lemma str_take_app a b : Str.take (Str.len a) (a +:+ b) = a.
Proof. unfold Str.len. induction a as [|c a IH]; cbn; [by destruct b|]. by rewrite IH. Qed.

Lemma cut_lacks s c : lacks c s → Str.cut s c = (s, "", false).
Proof.
  unfold lacks. induction s as [|d s IH]; cbn; [done|].
  rewrite andb_true_iff, negb_true_iff. intros [-> Hs]. by rewrite IH.
Qed.

Lemma cut_app a b c : lacks c a → Str.cut (a +:+ String c b) c = (a, b, true).
Proof.
  unfold lacks. induction a as [|d a IH]; cbn.
  - by rewrite Ascii.eqb_refl.
  - rewrite andb_true_iff, negb_true_iff. intros [-> Hs]. by rewrite IH.
Qed.

Lemma cut_last_lacks s c : lacks c s → Str.cut_last s c = None.
Proof.
  unfold lacks. induction s as [|d s IH]; cbn; [done|].
  rewrite andb_true_iff, negb_true_iff. intros [-> Hs]. by rewrite IH.
Qed.

Lemma cut_last_app a b c : lacks c b → Str.cut_last (a +:+ String c b) c = Some (a, b).
Proof.
  intros Hb. induction a as [|d a IH]; cbn.
  - by rewrite cut_last_lacks, Ascii.eqb_refl.
  - by rewrite IH.
Qed.

Lemma contains_lacks s c : lacks c s → Str.contains_char s c = false.
Proof.
  unfold lacks. induction s as [|d s IH]; cbn; [done|].
  rewrite andb_true_iff, negb_true_iff. intros [-> Hs]. by rewrite IH.
Qed.

Lemma split_lacks s c : lacks c s → Str.split s c = [s].
Proof.
  unfold lacks. induction s as [|d s IH]; cbn; [done|].
  rewrite andb_true_iff, negb_true_iff. intros [-> Hs]. by rewrite IH.
Qed.

Lemma split_app a b c : lacks c a → Str.split (a +:+ String c b) c = a :: Str.split b c.
Proof.
  unfold lacks. induction a as [|d a IH]; cbn.
  - by rewrite Ascii.eqb_refl.
  - rewrite andb_true_iff, negb_true_iff. intros [-> Hs]. by rewrite IH.
Qed.

Lemma split_nonempty s c : Str.split s c ≠ [].
Proof. destruct s as [|d s]; cbn; [done|]. destruct (Ascii.eqb d c); [done|]. by destruct (Str.split s c). Qed.

Lemma split_cons_inv s c a l : Str.split s c = a :: l →
  lacks c a ∧ (l = [] ∧ s = a ∨ ∃ b, s = a +:+ String c b ∧ Str.split b c = l).
Proof.
  unfold lacks. revert a l. induction s as [|d s IH]; intros a l; cbn.
  - intros [= <- <-]. auto.
  - destruct (Ascii.eqb_spec d c) as [->|Hd]; [intros [= <- <-]; split; [done|right; by exists s]|].
    destruct (Str.split s c) as [|x xs] eqn:Hs; [by destruct (split_nonempty s c)|]. intros [= <- <-].
    destruct (IH x xs eq_refl) as (Hx & Hrest). cbn. apply Ascii.eqb_neq in Hd. rewrite Hd, Hx. split; [done|].
    destruct Hrest as [[-> ->]|(b & -> & Hb)]; [by left|right; by exists b].
Qed.

(** Joining and splitting at a byte the parts do not hold. *)
Lemma str_join_app a b l sep : Str.join ((a +:+ b) :: l) sep = a +:+ Str.join (b :: l) sep.
Proof. unfold Str.join. destruct l as [|x l]; cbn [String.concat]; [done|]. by rewrite !str_app_assoc. Qed.

Lemma split_join_lacks l c :
  l ≠ [] → Forall (lacks c) l → Str.split (Str.join l (String c "")) c = l.
Proof.
  intros Hne Hl. destruct l as [|a l]; [done|]. clear Hne. revert a Hl.
  induction l as [|b l IH]; intros a [Ha Hl]%Forall_cons.
  - unfold Str.join. cbn. by apply split_lacks.
  - change (Str.join (a :: b :: l) (String c "")) with (a +:+ String c (Str.join (b :: l) (String c ""))).
    by rewrite split_app, IH.
Qed.

Lemma has_suffix_lacks s c : lacks c s → Str.has_suffix s (String c "") = false.
Proof.
  unfold lacks, Str.has_suffix. intros H.
  apply (str_forallb_drop _ (Str.len s - Str.len (String c ""))) in H.
  destruct (String.eqb _ _) eqn:E; [|by rewrite andb_false_r].
  apply String.eqb_eq in E. rewrite E in H. cbn in H. by rewrite Ascii.eqb_refl in H.
Qed.

Lemma take_app s t : Str.take (Str.len s) (s +:+ t) = s.
Proof. unfold Str.len. induction s as [|x s IH]; cbn; [by destruct t|]. by rewrite IH. Qed.

Lemma has_suffix_app s t : Str.has_suffix (s +:+ t) t = true.
Proof.
  unfold Str.has_suffix. rewrite str_len_app.
  replace (Str.len s + Str.len t - Str.len t)%nat with (Str.len s) by lia.
  rewrite drop_app, String.eqb_refl, andb_true_r. apply Nat.leb_le. lia.
Qed.

Lemma trim_suffix_app s t : Str.trim_suffix (s +:+ t) t = s.
Proof.
  unfold Str.trim_suffix. rewrite has_suffix_app, str_len_app.
  replace (Str.len s + Str.len t - Str.len t)%nat with (Str.len s) by lia. apply take_app.
Qed.

(** Proves [lacks c s] (or any class fact) from a stronger class of [s]. *)
Ltac by_class :=
  unfold lacks in *;
  rewrite ?str_forallb_app, ?andb_true_iff; repeat split; try reflexivity;
  match goal with
  | H : Str.forallb ?P ?s = true |- Str.forallb ?Q ?s = true =>
      refine (str_forallb_impl P Q s _ H); apply ascii_impl; vm_compute; reflexivity
  end.
