(* ===== verification/Effects.v ===== *)
(** * Effects: state and errors

    The stateful parts of the program are functions of their state that return
    a [result] and a new state: an error or a panic keeps what was changed
    before it.  The operators and the facts about them are shared by every
    component with a state. *)

From S2P Require Import Prelude.
From stdpp Require Import prelude strings gmap list.

Definition SM (S A : Type) : Type := S → result A * S.

Section Operators.
Context {S : Type}.

Definition retM {A} (a : A) : SM S A := λ st, (Ok a, st).
Definition failM {A} (e : error) : SM S A := λ st, (Err e, st).
Definition panicM {A} : SM S A := λ st, (Panic, st).
Definition liftM {A} (r : result A) : SM S A := λ st, (r, st).
Definition getsM {A} (f : S → A) : SM S A := λ st, (Ok (f st), st).
Definition modifyM (f : S → S) : SM S unit := λ st, (Ok tt, f st).

Definition bindM {A B} (m : SM S A) (k : A → SM S B) : SM S B := λ st,
  match m st with
  | (Ok a, st) => k a st
  | (Err e, st) => (Err e, st)
  | (Panic, st) => (Panic, st)
  end.

(** [err] handled by the caller: the result as a value. *)
Definition tryM {A} (m : SM S A) : SM S (result A) := λ st,
  match m st with
  | (Panic, st) => (Panic, st)
  | (r, st) => (Ok r, st)
  end.

(** A guard that returns early with an error. *)
Definition checkM (ok : bool) (e : error) : SM S unit := if ok then retM tt else failM e.

(** A loop. *)
Fixpoint forM {A B} (f : A → SM S B) (l : list A) : SM S (list B) :=
  match l with
  | [] => retM []
  | a :: l => bindM (f a) (λ b, bindM (forM f l) (λ bs, retM (b :: bs)))
  end.

(** A loop that fills a map, skipping what gives nothing. *)
Fixpoint collectM {A} (f : string → SM S (option A)) (l : list string) (m : gmap string A) : SM S (gmap string A) :=
  match l with
  | [] => retM m
  | k :: l => bindM (f k) (λ r, collectM f l (match r with Some a => <[k := a]> m | None => m end))
  end.
End Operators.

Declare Scope uc_scope.
Delimit Scope uc_scope with uc.
Notation "'let*' x := m 'in' k" := (bindM m (λ x, k))
  (at level 200, x name, m at level 100, k at level 200) : uc_scope.
Notation "'let*' ' p := m 'in' k" := (bindM m (λ x, match x with p => k end))
  (at level 200, p pattern, m at level 100, k at level 200) : uc_scope.
Notation "m ';;' k" := (bindM m (λ _, k)) (at level 100, k at level 200, right associativity) : uc_scope.

(** ** Runs *)

Section Facts.
Context {S : Type}.

Lemma bindM_ok {A B} (m : SM S A) (k : A → SM S B) st a st1 : m st = (Ok a, st1) → bindM m k st = k a st1.
Proof. intros E. unfold bindM. by rewrite E. Qed.

Lemma bindM_inv {A B} (m : SM S A) (k : A → SM S B) st b st' :
  bindM m k st = (Ok b, st') → ∃ a st1, m st = (Ok a, st1) ∧ k a st1 = (Ok b, st').
Proof. unfold bindM. destruct (m st) as [[a| |] st1]; [|done..]. eauto. Qed.

Lemma bindM_lift {A B} (r : result A) (k : A → SM S B) st :
  bindM (liftM r) k st = match r with Ok a => k a st | Err e => (Err e, st) | Panic => (Panic, st) end.
Proof. unfold bindM, liftM. by destruct r. Qed.

Lemma bindM_gets {A B} (f : S → A) (k : A → SM S B) st : bindM (getsM f) k st = k (f st) st.
Proof. done. Qed.

Lemma bindM_modify {B} f (k : unit → SM S B) st : bindM (modifyM f) k st = k tt (f st).
Proof. done. Qed.

Lemma bindM_check {B} ok e (k : unit → SM S B) st :
  bindM (checkM ok e) k st = if ok then k tt st else (Err e, st).
Proof. by destruct ok. Qed.

(** Handlers that agree on every state, part by part. *)
Lemma bindM_ext {A B} (m1 m2 : SM S A) (k1 k2 : A → SM S B) st :
  (∀ st, m1 st = m2 st) → (∀ a st, k1 a st = k2 a st) → bindM m1 k1 st = bindM m2 k2 st.
Proof. intros Hm Hk. unfold bindM. rewrite Hm. by destruct (m2 st) as [[] ?]. Qed.

(** A loop of steps that succeed in every state of [I] with [good] results. *)
Lemma collectM_rel {A} (I : S → Prop) (f : string → SM S (option A)) (good : string → option A → Prop) l m st :
  I st → (∀ k st, k ∈ l → I st → ∃ r st', f k st = (Ok r, st') ∧ good k r ∧ I st') →
  ∃ m' st', collectM f l m st = (Ok m', st') ∧ I st' ∧
    ∀ j, if decide (j ∈ l) then ∃ r, good j r ∧ m' !! j = match r with Some a => Some a | None => m !! j end
         else m' !! j = m !! j.
Proof.
  revert m st. induction l as [|k l IH]; intros m st Hst Hf; cbn [collectM].
  - eexists m, st. split; [done|]. split; [done|]. intros j. case_decide as Hj; [by apply elem_of_nil in Hj|done].
  - destruct (Hf k st ltac:(by left) Hst) as (r & st1 & Hk & Hr & Hst1). rewrite (bindM_ok _ _ _ _ _ Hk).
    set (m1 := match r with Some a => <[k:=a]> m | None => m end).
    assert (∀ j, m1 !! j = if decide (j = k) then match r with Some a => Some a | None => m !! j end else m !! j) as Hm1.
    { intros j. unfold m1. destruct (decide (j = k)) as [->|Hne]; destruct r; by rewrite ?lookup_insert_eq, ?lookup_insert_ne. }
    destruct (IH m1 st1 Hst1) as (m' & st' & Hrun & Hst' & Hm').
    { intros k' st2 Hin. apply Hf. by right. }
    exists m', st'. split; [done|]. split; [done|]. intros j. specialize (Hm' j). rewrite Hm1 in Hm'.
    destruct (decide (j ∈ l)) as [Hin|Hnin].
    + rewrite decide_True by (by right). destruct Hm' as (r' & Hr' & ->).
      destruct (decide (j = k)) as [->|]; [|by exists r']. destruct r'; [by eexists|]. by exists r.
    + destruct (decide (j = k)) as [->|Hne].
      * rewrite decide_True by by left. by exists r.
      * rewrite decide_False; [done|]. by intros [?|?]%elem_of_cons.
Qed.

Lemma collectM_run {A} (I : S → Prop) (f : string → SM S (option A)) (g : string → option A) l m st :
  I st → (∀ k st, k ∈ l → I st → ∃ st', f k st = (Ok (g k), st') ∧ I st') →
  ∃ m' st', collectM f l m st = (Ok m', st') ∧ I st' ∧
    ∀ j, m' !! j = if decide (j ∈ l) then match g j with Some a => Some a | None => m !! j end else m !! j.
Proof.
  intros Hst Hf. destruct (collectM_rel I f (λ k r, r = g k) l m st Hst) as (m' & st' & Hrun & Hst' & Hm').
  { intros k st1 Hin Hst1. destruct (Hf k st1 Hin Hst1) as (st2 & ? & ?). by exists (g k), st2. }
  exists m', st'. split; [done|]. split; [done|]. intros j. specialize (Hm' j). case_decide; [|done].
  by destruct Hm' as (r & -> & ?).
Qed.
End Facts.

(** ** Invariants

    [keeps I m]: whatever [m] returns, it leaves a state in [I]. *)
Definition keeps {S A} (I : S → Prop) (m : SM S A) : Prop := ∀ st, I st → I (snd (m st)).

Section Keeps.
Context {S : Type} (I : S → Prop).

Lemma keeps_bind {A B} (m : SM S A) (k : A → SM S B) : keeps I m → (∀ a, keeps I (k a)) → keeps I (bindM m k).
Proof.
  intros Hm Hk st Hst. unfold bindM. specialize (Hm st Hst). destruct (m st) as [[a| |] st']; [|done..].
  by apply Hk.
Qed.

Lemma keeps_try {A} (m : SM S A) : keeps I m → keeps I (tryM m).
Proof. intros Hm st Hst. unfold tryM. specialize (Hm st Hst). by destruct (m st) as [[] ?]. Qed.

Lemma keeps_pure {A} (m : SM S A) : (∀ st, snd (m st) = st) → keeps I m.
Proof. intros Hm st Hst. by rewrite Hm. Qed.

Lemma keeps_check b e : keeps I (checkM b e).
Proof. intros st Hst. by destruct b. Qed.

Lemma keeps_modify f : (∀ st, I st → I (f st)) → keeps I (modifyM f).
Proof. intros Hf st Hst. by apply Hf. Qed.

Lemma keeps_for {A B} (f : A → SM S B) l : (∀ a, keeps I (f a)) → keeps I (forM f l).
Proof.
  intros Hf. induction l as [|a l IH]; cbn; [by apply keeps_pure|].
  apply keeps_bind; [done|]. intros b. apply keeps_bind; [done|]. intros bs. by apply keeps_pure.
Qed.

Lemma keeps_collect {A} (f : string → SM S (option A)) l m : (∀ k, keeps I (f k)) → keeps I (collectM f l m).
Proof.
  intros Hf. revert m. induction l as [|k l IH]; intros m; cbn; [by apply keeps_pure|]. apply keeps_bind; auto.
Qed.
End Keeps.

Create HintDb keeps.
#[export] Hint Resolve keeps_check : keeps.
#[export] Hint Extern 5 (keeps _ _) => (apply keeps_pure; reflexivity) : keeps.

(** Walks through a handler: binds, branches, known parts. *)
Ltac keeps_walk :=
  repeat match goal with
  | |- keeps _ (bindM _ _) => apply keeps_bind; [|intros ?]
  | |- keeps _ (tryM _) => apply keeps_try
  | |- keeps _ (forM _ _) => apply keeps_for; intros ?
  | |- keeps _ (collectM _ _ _) => apply keeps_collect; intros ?
  | |- keeps _ (match ?x with _ => _ end) => destruct x
  | |- _ => progress eauto with keeps
  end.
