(* ===== verification/Bytes.v ===== *)
(** * Bytes: big-endian digits, byte strings and base32

    The generic part ([to_digits]/[of_digits] in any base, their round trips
    and the lexicographic order they preserve) is shared by the 48-bit
    timestamp of [Cdid] and by the base32 text encoding.  [Base32] follows
    package [encoding/base32] without padding: quanta of five bytes and eight
    characters, the last quantum zero-extended on the right. *)

From S2P Require Import Prelude.
From stdpp Require Import prelude strings list.
From Stdlib Require Import ZArith Lia Ascii.
Open Scope Z_scope.

(** ** Digits in base [B], most significant first *)

Fixpoint to_digits (B : Z) (n : nat) (v : Z) : list Z :=
  match n with
  | O => []
  | S n => (v `div` B ^ Z.of_nat n) `mod` B :: to_digits B n v
  end.

Definition of_digits (B : Z) (l : list Z) : Z :=
  fold_left (λ acc d, acc * B + d) l 0.

Definition digit (B d : Z) : Prop := 0 ≤ d < B.

(** Lexicographic order of digit lists. *)
Fixpoint lex (l1 l2 : list Z) : Prop :=
  match l1, l2 with
  | [], _ :: _ => True
  | x :: l1, y :: l2 => x < y ∨ (x = y ∧ lex l1 l2)
  | _, [] => False
  end.

Section Digits.
Context (B : Z) (HB : 1 < B).
Implicit Types (l : list Z) (v : Z) (n : nat).

Lemma length_to_digits n v : length (to_digits B n v) = n.
Proof using. induction n; cbn; auto. Qed.

Lemma to_digits_digit n v : Forall (digit B) (to_digits B n v).
Proof.
  induction n; cbn; constructor; auto.
  unfold digit. apply Z.mod_pos_bound. lia.
Qed.

Lemma of_digits_acc l acc :
  fold_left (λ a d, a * B + d) l acc = acc * B ^ Z.of_nat (length l) + of_digits B l.
Proof using.
  unfold of_digits. revert acc. induction l as [|d l IH]; intros acc; cbn [fold_left length].
  - lia.
  - rewrite (IH (acc * B + d)), (IH (0 * B + d)), Nat2Z.inj_succ, Z.pow_succ_r by lia. lia.
Qed.

Lemma of_digits_cons d l :
  of_digits B (d :: l) = d * B ^ Z.of_nat (length l) + of_digits B l.
Proof using. unfold of_digits at 1. cbn. apply of_digits_acc. Qed.

Lemma of_digits_app l1 l2 :
  of_digits B (l1 ++ l2) = of_digits B l1 * B ^ Z.of_nat (length l2) + of_digits B l2.
Proof using. unfold of_digits at 1. rewrite fold_left_app. apply of_digits_acc. Qed.

Lemma pow_pos n : 0 < B ^ Z.of_nat n.
Proof. apply Z.pow_pos_nonneg; lia. Qed.

Lemma of_digits_bound l :
  Forall (digit B) l → 0 ≤ of_digits B l < B ^ Z.of_nat (length l).
Proof.
  induction 1 as [|d l Hd Hl IH]; [cbn; lia|].
  rewrite of_digits_cons. cbn [length]. rewrite Nat2Z.inj_succ, Z.pow_succ_r by lia.
  unfold digit in Hd. pose proof (pow_pos (length l)). nia.
Qed.

Lemma to_digits_add n a v :
  to_digits B n (a * B ^ Z.of_nat n + v) = to_digits B n v.
Proof.
  revert a. induction n as [|n IH]; intros a; cbn -[Z.of_nat Z.pow]; [done|].
  rewrite Nat2Z.inj_succ, Z.pow_succ_r by lia.
  pose proof (pow_pos n).
  replace (a * (B * B ^ Z.of_nat n) + v) with ((a * B) * B ^ Z.of_nat n + v) by lia.
  f_equal; [|apply IH].
  rewrite Z.div_add_l by lia. rewrite Z.add_comm, Z.mod_add by lia. done.
Qed.

Lemma to_of_digits l :
  Forall (digit B) l → to_digits B (length l) (of_digits B l) = l.
Proof.
  induction 1 as [|d l Hd Hl IH]; [done|].
  cbn -[of_digits]. rewrite of_digits_cons. pose proof (of_digits_bound l Hl).
  f_equal.
  - rewrite Z.div_add_l by lia. rewrite (Z.div_small (of_digits B l)) by lia.
    rewrite Z.add_0_r. apply Z.mod_small. apply Hd.
  - by rewrite to_digits_add.
Qed.

Lemma of_to_digits n v :
  0 ≤ v < B ^ Z.of_nat n → of_digits B (to_digits B n v) = v.
Proof.
  revert v. induction n as [|n IH]; intros v Hv; cbn -[of_digits Z.of_nat].
  - cbn in *. lia.
  - rewrite of_digits_cons, length_to_digits. rewrite Nat2Z.inj_succ, Z.pow_succ_r in Hv by lia.
    pose proof (pow_pos n) as Hp. set (P := B ^ Z.of_nat n) in *.
    rewrite (Z.mod_small (v `div` P)).
    2:{ split; [apply Z.div_pos; lia | apply Z.div_lt_upper_bound; lia]. }
    pose proof (Z.div_mod v P ltac:(lia)) as Hdm.
    assert (to_digits B n v = to_digits B n (v `mod` P)) as ->.
    { rewrite Hdm at 1. rewrite (Z.mul_comm P). apply to_digits_add. }
    rewrite IH; [lia | apply Z.mod_pos_bound; done].
Qed.

Lemma to_digits_app n m v :
  to_digits B (n + m) v = to_digits B n (v `div` B ^ Z.of_nat m) ++ to_digits B m v.
Proof.
  induction n as [|n IH]; [done|].
  cbn -[Z.of_nat Z.pow]. rewrite IH. f_equal.
  rewrite Nat2Z.inj_add, Z.pow_add_r by lia.
  rewrite (Z.mul_comm (B ^ Z.of_nat n)), Z.div_div; [done| |]; pose proof (pow_pos m); pose proof (pow_pos n); lia.
Qed.

(** On lists of the same length the lexicographic order is the numeric one. *)
Lemma lex_of_digits l1 l2 :
  length l1 = length l2 → Forall (digit B) l1 → Forall (digit B) l2 →
  lex l1 l2 ↔ of_digits B l1 < of_digits B l2.
Proof.
  revert l2. induction l1 as [|x l1 IH]; intros [|y l2] Hlen H1 H2; try done.
  apply Forall_cons in H1 as [Hx H1]. apply Forall_cons in H2 as [Hy H2].
  cbn [length] in Hlen. injection Hlen as Hlen.
  rewrite !of_digits_cons, Hlen. cbn [lex]. rewrite (IH l2 Hlen H1 H2).
  pose proof (of_digits_bound l1 H1) as Hb1. pose proof (of_digits_bound l2 H2) as Hb2.
  rewrite Hlen in Hb1. pose proof (pow_pos (length l2)).
  split; [intros [?|[-> ?]]; nia|].
  intros Hlt. destruct (Z.lt_trichotomy x y) as [?|[->|?]]; [by left | right; lia | nia].
Qed.
End Digits.

Lemma lex_app_prefix l a b : lex (l ++ a) (l ++ b) ↔ lex a b.
Proof. induction l as [|x l IH]; [done|]. cbn. rewrite IH. intuition lia. Qed.

Lemma lex_app_lt a b l1 l2 : length a = length b → lex a b → lex (a ++ l1) (b ++ l2).
Proof.
  revert b. induction a as [|x a IH]; intros [|y b] Hlen Hl; try done.
  cbn in *. destruct Hl as [|[-> Hl]]; [by left | right; split; [done|]].
  apply IH; [by injection Hlen | done].
Qed.

Lemma lex_asym l1 l2 : lex l1 l2 → lex l2 l1 → False.
Proof.
  revert l2. induction l1 as [|x l1 IH]; intros [|y l2]; cbn; try done.
  intros [?|[-> ?]] [?|[? ?]]; [lia..|]. eauto.
Qed.

(** ** Byte strings *)

Definition byte_val (c : ascii) : Z := Z.of_N (N_of_ascii c).
Definition byte_chr (z : Z) : ascii := ascii_of_N (Z.to_N z).

(** [lo <= c && c <= hi] on bytes. *)
Definition char_in (lo hi c : ascii) : bool :=
  (byte_val lo <=? byte_val c) && (byte_val c <=? byte_val hi).

Definition bytes_of (s : string) : list Z := map byte_val (String.list_ascii_of_string s).
Definition string_of (l : list Z) : string := String.string_of_list_ascii (map byte_chr l).

Lemma byte_val_chr z : digit 256 z → byte_val (byte_chr z) = z.
Proof.
  unfold digit, byte_val, byte_chr. intros Hz.
  rewrite N_ascii_embedding by lia. lia.
Qed.

Lemma byte_chr_val c : byte_chr (byte_val c) = c.
Proof. unfold byte_val, byte_chr. rewrite N2Z.id. apply ascii_N_embedding. Qed.

Lemma byte_val_digit c : digit 256 (byte_val c).
Proof. unfold digit, byte_val. pose proof (N_ascii_bounded c). lia. Qed.

Lemma string_of_bytes_of s : string_of (bytes_of s) = s.
Proof.
  unfold string_of, bytes_of. rewrite map_map.
  rewrite (map_ext _ id) by apply byte_chr_val. rewrite map_id.
  apply String.string_of_list_ascii_of_string.
Qed.

Lemma bytes_of_string_of l : Forall (digit 256) l → bytes_of (string_of l) = l.
Proof.
  intros Hl. unfold string_of, bytes_of.
  rewrite String.list_ascii_of_string_of_list_ascii, map_map.
  induction Hl as [|x l Hx Hl IH]; cbn; [done|]. by rewrite byte_val_chr, IH.
Qed.

Lemma bytes_of_digit s : Forall (digit 256) (bytes_of s).
Proof.
  unfold bytes_of. apply Forall_forall. intros x Hx.
  apply list_elem_of_fmap in Hx as (c & -> & _). apply byte_val_digit.
Qed.

Lemma length_bytes_of s : length (bytes_of s) = Str.len s.
Proof. unfold bytes_of, Str.len. rewrite length_map. induction s; cbn; auto. Qed.

(** ** Base32 without padding *)

Module Base32.
(** Characters written for [k] input bytes, bytes read from [d] characters. *)
Definition enc_len (k : nat) : nat :=
  match k with 0%nat => 0 | 1%nat => 2 | 2%nat => 4 | 3%nat => 5 | 4%nat => 7 | _ => 8 end.

Definition dec_len (d : nat) : nat :=
  match d with 8%nat => 5 | 7%nat => 4 | 5%nat => 3 | 4%nat => 2 | 2%nat => 1 | _ => 0 end.

Definition quantum_encode (l : list Z) : list Z :=
  take (enc_len (length l))
    (to_digits 32 8 (of_digits 256 l * 256 ^ Z.of_nat (5 - length l))).

Definition quantum_decode (l : list Z) : list Z :=
  take (dec_len (length l))
    (to_digits 256 5 (of_digits 32 l * 32 ^ Z.of_nat (8 - length l))).

Fixpoint encode (l : list Z) : list Z :=
  match l with
  | [] => []
  | b0 :: b1 :: b2 :: b3 :: b4 :: rest => quantum_encode [b0; b1; b2; b3; b4] ++ encode rest
  | tail => quantum_encode tail
  end.

Fixpoint decode (l : list Z) : list Z :=
  match l with
  | [] => []
  | c0 :: c1 :: c2 :: c3 :: c4 :: c5 :: c6 :: c7 :: rest =>
      quantum_decode [c0; c1; c2; c3; c4; c5; c6; c7] ++ decode rest
  | tail => quantum_decode tail
  end.

Fixpoint char_index (alphabet : string) (c : ascii) : option Z :=
  match alphabet with
  | EmptyString => None
  | String d alphabet =>
      if Ascii.eqb c d then Some 0 else Z.succ <$> char_index alphabet c
  end.

Definition char_at (alphabet : string) (d : Z) : ascii :=
  default "000"%char (String.get (Z.to_nat d) alphabet).

(** [Encoding.EncodeToString] *)
Definition EncodeToString (alphabet : string) (b : list Z) : string :=
  String.string_of_list_ascii (map (char_at alphabet) (encode b)).

(** [Encoding.DecodeString]: newlines are stripped first, a character outside
    the alphabet is a [CorruptInputError]. *)
Definition is_newline (c : ascii) : bool := Ascii.eqb c "010" || Ascii.eqb c "013".

Definition DecodeString (alphabet : string) (s : string) : result (list Z) :=
  match mapM (char_index alphabet)
          (List.filter (λ c, negb (is_newline c)) (String.list_ascii_of_string s)) with
  | Some ds => Ok (decode ds)
  | None => Err (GoError "illegal base32 data")
  end.
End Base32.

Module Base32Facts.
Import Base32.

(** The factor by which [k] bytes are shifted left to fill whole characters. *)
Definition pad (k : nat) : Z :=
  match k with 1%nat => 4 | 2%nat => 16 | 3%nat => 2 | 4%nat => 8 | _ => 1 end.

Lemma take_to_digits B n m k v :
  1 < B → k = (n + m)%nat → take n (to_digits B k v) = to_digits B n (v `div` B ^ Z.of_nat m).
Proof.
  intros HB ->. rewrite to_digits_app by done.
  rewrite <- (length_to_digits B n (v `div` B ^ Z.of_nat m)) at 1. apply take_app_length.
Qed.

Lemma nat_1_to_5 k : (1 ≤ k ≤ 5)%nat → k = 1%nat ∨ k = 2%nat ∨ k = 3%nat ∨ k = 4%nat ∨ k = 5%nat.
Proof. lia. Qed.

(** Evaluates the powers of numerals left by a case analysis. *)
Ltac pow_consts :=
  repeat match goal with
  | |- context [Z.pow ?a ?b] => let v := eval vm_compute in (Z.pow a b) in change (Z.pow a b) with v
  end.

Ltac div_lia := Z.to_euclidean_division_equations; lia.

Ltac quantum_cases k Hk :=
  destruct (nat_1_to_5 k Hk) as [->|[->|[->|[->| ->]]]].

(** The encoder of one quantum is a base change of a padded number. *)
Lemma quantum_encode_digits l :
  (1 ≤ length l ≤ 5)%nat →
  quantum_encode l = to_digits 32 (enc_len (length l)) (of_digits 256 l * pad (length l)).
Proof.
  intros Hk. unfold quantum_encode. remember (length l) as k eqn:Ek. clear Ek.
  generalize (of_digits 256 l). intros x.
  quantum_cases k Hk; cbn [enc_len pad].
  - rewrite (take_to_digits 32 2 6) by lia. f_equal. pow_consts. div_lia.
  - rewrite (take_to_digits 32 4 4) by lia. f_equal. pow_consts. div_lia.
  - rewrite (take_to_digits 32 5 3) by lia. f_equal. pow_consts. div_lia.
  - rewrite (take_to_digits 32 7 1) by lia. f_equal. pow_consts. div_lia.
  - rewrite (take_to_digits 32 8 0) by lia. f_equal. pow_consts. div_lia.
Qed.

Lemma pad_bound l :
  (1 ≤ length l ≤ 5)%nat → Forall (digit 256) l →
  0 ≤ of_digits 256 l * pad (length l) < 32 ^ Z.of_nat (enc_len (length l)).
Proof.
  intros Hk Hl. pose proof (of_digits_bound 256 ltac:(lia) l Hl) as Hb. revert Hb.
  generalize (of_digits 256 l). intros x.
  remember (length l) as k eqn:Ek. clear Ek.
  quantum_cases k Hk; cbn [enc_len pad];
    intros Hb; revert Hb; pow_consts; lia.
Qed.

Lemma length_quantum_encode l :
  (1 ≤ length l ≤ 5)%nat → length (quantum_encode l) = enc_len (length l).
Proof. intros Hk. rewrite quantum_encode_digits by done. apply length_to_digits. Qed.

Lemma quantum_roundtrip l :
  (1 ≤ length l ≤ 5)%nat → Forall (digit 256) l → quantum_decode (quantum_encode l) = l.
Proof.
  intros Hk Hl. unfold quantum_decode. rewrite length_quantum_encode by done.
  rewrite quantum_encode_digits, of_to_digits by (done || lia || by apply pad_bound).
  pose proof (to_of_digits 256 ltac:(lia) l Hl) as Hid.
  remember (length l) as k eqn:Ek. clear Ek. revert Hid.
  generalize (of_digits 256 l). intros x Hid. rewrite <- Hid. clear Hid Hl.
  quantum_cases k Hk; cbn [enc_len dec_len pad].
  - rewrite (take_to_digits 256 1 4) by lia. f_equal. pow_consts. div_lia.
  - rewrite (take_to_digits 256 2 3) by lia. f_equal. pow_consts. div_lia.
  - rewrite (take_to_digits 256 3 2) by lia. f_equal. pow_consts. div_lia.
  - rewrite (take_to_digits 256 4 1) by lia. f_equal. pow_consts. div_lia.
  - rewrite (take_to_digits 256 5 0) by lia. f_equal. pow_consts. div_lia.
Qed.

(** Encoding one quantum preserves the lexicographic order. *)
Lemma quantum_lex l1 l2 :
  (1 ≤ length l1 ≤ 5)%nat → length l1 = length l2 →
  Forall (digit 256) l1 → Forall (digit 256) l2 →
  lex l1 l2 → lex (quantum_encode l1) (quantum_encode l2).
Proof.
  intros Hk Hlen H1 H2 Hlex.
  apply (lex_of_digits 256) in Hlex; [|lia|done..].
  rewrite !quantum_encode_digits by lia.
  apply (lex_of_digits 32); [lia| |apply to_digits_digit; lia..|].
  { by rewrite !length_to_digits, Hlen. }
  rewrite !of_to_digits by (lia || (apply pad_bound; [lia|done])).
  rewrite <- Hlen. remember (length l1) as k eqn:Ek. clear Ek Hlen.
  quantum_cases k Hk; cbn [pad]; lia.
Qed.

(** Induction that follows the five-byte quanta of [encode]. *)
Lemma quantum_ind (P : list Z → Prop) :
  P [] →
  (∀ q, (1 ≤ length q < 5)%nat → P q) →
  (∀ q rest, length q = 5%nat → P rest → P (q ++ rest)) →
  ∀ l, P l.
Proof.
  intros Hnil Htail Hfull l.
  remember (length l) as n eqn:En. revert l En.
  induction (lt_wf n) as [n _ IH]. intros l ->.
  destruct l as [|b0 [|b1 [|b2 [|b3 [|b4 rest]]]]]; [done|apply Htail; cbn; lia..|].
  apply (Hfull [b0; b1; b2; b3; b4] rest); [done|].
  apply (IH (length rest)); cbn; [lia|done].
Qed.

Lemma encode_full q rest :
  length q = 5%nat → encode (q ++ rest) = quantum_encode q ++ encode rest.
Proof. intros Hq. by destruct q as [|? [|? [|? [|? [|? []]]]]]. Qed.

Lemma encode_tail q : (1 ≤ length q < 5)%nat → encode q = quantum_encode q.
Proof. intros Hq. destruct q as [|? [|? [|? [|? [|? ?]]]]]; cbn in Hq; first [done | lia]. Qed.

Lemma decode_full q rest :
  length q = 8%nat → decode (q ++ rest) = quantum_decode q ++ decode rest.
Proof. intros Hq. by destruct q as [|? [|? [|? [|? [|? [|? [|? [|? []]]]]]]]]. Qed.

Lemma decode_tail q : (1 ≤ length q < 8)%nat → decode q = quantum_decode q.
Proof.
  intros Hq. destruct q as [|? [|? [|? [|? [|? [|? [|? [|? ?]]]]]]]]; cbn in Hq; first [done | lia].
Qed.

Lemma decode_encode l : Forall (digit 256) l → decode (encode l) = l.
Proof.
  induction l as [|q Hq|q rest Hq IH] using quantum_ind; intros Hl; [done|..].
  - rewrite encode_tail by done. rewrite decode_tail.
    + apply quantum_roundtrip; [lia|done].
    + rewrite length_quantum_encode by lia.
      destruct (length q) as [|[|[|[|[|?]]]]]; cbn; lia.
  - apply Forall_app in Hl as [Hlq Hrest].
    rewrite encode_full, decode_full by (rewrite ?length_quantum_encode, ?Hq; [done|lia] || done).
    rewrite IH by done. f_equal. apply quantum_roundtrip; [lia|done].
Qed.

Lemma encode_digit l : Forall (digit 32) (encode l).
Proof.
  induction l as [|q Hq|q rest Hq IH] using quantum_ind; [constructor|..].
  - rewrite encode_tail, quantum_encode_digits by lia. apply to_digits_digit. lia.
  - rewrite encode_full, quantum_encode_digits by lia.
    apply Forall_app. split; [apply to_digits_digit; lia | done].
Qed.

Lemma encode_lex l1 l2 :
  length l1 = length l2 → Forall (digit 256) l1 → Forall (digit 256) l2 →
  lex l1 l2 → lex (encode l1) (encode l2).
Proof.
  revert l2. induction l1 as [|q Hq|q rest Hq IH] using quantum_ind; intros l2 Hlen H1 H2 Hlex.
  - by destruct l2.
  - rewrite !encode_tail by lia. apply quantum_lex; (done || lia).
  - assert (l2 = take 5 l2 ++ drop 5 l2) as E by by rewrite take_drop.
    rewrite length_app, Hq in Hlen.
    assert (length (take 5 l2) = 5%nat) as Hq2 by (rewrite length_take; lia).
    assert (length rest = length (drop 5 l2)) as Hr2 by (rewrite length_drop; lia).
    rewrite E in H2, Hlex |- *. clear E.
    generalize dependent (drop 5 l2). generalize dependent (take 5 l2). clear l2 Hlen.
    intros q2 Hq2 r2 H2 Hlex Hr2.
    apply Forall_app in H1 as [Hd1 Hdr1]. apply Forall_app in H2 as [Hd2 Hdr2].
    rewrite !encode_full by done.
    assert (of_digits 256 q < of_digits 256 q2 ∨ of_digits 256 q = of_digits 256 q2
            ∨ of_digits 256 q2 < of_digits 256 q) as [Hlt|[Heq|Hgt]] by lia.
    + apply lex_app_lt; [by rewrite !length_quantum_encode, Hq, Hq2 by lia|].
      apply quantum_lex; [lia|by rewrite Hq2|done|done|].
      apply (lex_of_digits 256); [lia|by rewrite Hq2|done..].
    + assert (q = q2) as ->.
      { rewrite <- (to_of_digits 256 ltac:(lia) q Hd1), <- (to_of_digits 256 ltac:(lia) q2 Hd2).
        by rewrite Heq, Hq, Hq2. }
      apply lex_app_prefix. apply lex_app_prefix in Hlex. by apply IH.
    + apply (lex_of_digits 256) in Hgt; [|lia|by rewrite Hq2|done..].
      exfalso. eapply lex_app_lt in Hgt; [|by rewrite Hq2].
      eapply lex_asym; [exact Hlex | exact Hgt].
Qed.
End Base32Facts.
