(* ===== verification/Base64.v ===== *)
(** * Base64: package [encoding/base64], the URL alphabet without padding

    Tokens are base64 of JSON and of signatures ([base64.RawURLEncoding]).  A
    quantum is three bytes and four characters; a last quantum of one or two
    bytes is extended with zeros.  A single left-over character is corrupt;
    the unused bits of a last quantum are not checked. *)

From S2P Require Import Prelude Bytes.
From stdpp Require Import prelude strings list.
From Stdlib Require Import ZArith Lia Ascii.
Open Scope Z_scope.

Module Base64.
Definition alphabet : string := "ABCDEFGHIJKLMNOPQRSTUVWXYZabcdefghijklmnopqrstuvwxyz0123456789-_".

Fixpoint encode (l : list Z) : list Z :=
  match l with
  | [] => []
  | [a] => take 2 (to_digits 64 4 (of_digits 256 [a; 0; 0]))
  | [a; b] => take 3 (to_digits 64 4 (of_digits 256 [a; b; 0]))
  | a :: b :: c :: rest => to_digits 64 4 (of_digits 256 [a; b; c]) ++ encode rest
  end.

Fixpoint decode (l : list Z) : option (list Z) :=
  match l with
  | [] => Some []
  | [_] => None
  | [a; b] => Some (take 1 (to_digits 256 3 (of_digits 64 [a; b; 0; 0])))
  | [a; b; c] => Some (take 2 (to_digits 256 3 (of_digits 64 [a; b; c; 0])))
  | a :: b :: c :: d :: rest => (λ t, to_digits 256 3 (of_digits 64 [a; b; c; d]) ++ t) <$> decode rest
  end.

(** [RawURLEncoding.EncodeToString] *)
Definition EncodeToString (b : list Z) : string :=
  String.string_of_list_ascii (map (Base32.char_at alphabet) (encode b)).

Definition corrupt : error := GoError "illegal base64 data".

(** [RawURLEncoding.DecodeString]: newlines are skipped. *)
Definition DecodeString (s : string) : result (list Z) :=
  of_option corrupt
    (mapM (Base32.char_index alphabet)
       (List.filter (λ c, negb (Base32.is_newline c)) (String.list_ascii_of_string s)) ≫= decode).
End Base64.

Module Base64Facts.
Import Base64.

(** ** Quanta *)

(** One quantum of [n + 1] bytes, its missing bytes zero. *)
Ltac quantum := cbn; Z.to_euclidean_division_equations; lia.

Lemma sextets_roundtrip l : Forall (digit 256) l → decode (encode l) = Some l.
Proof.
  induction l as [l IH] using (induction_ltof1 _ length). intros Hl.
  destruct l as [|a [|b [|c rest]]]; [done| | |].
  - apply Forall_cons in Hl as [Ha _]. unfold digit in Ha. cbn. do 2 f_equal. quantum.
  - apply Forall_cons in Hl as [Ha Hl]. apply Forall_cons in Hl as [Hb _]. unfold digit in *. cbn.
    f_equal. f_equal; [quantum|]. f_equal. quantum.
  - apply (Forall_app _ [a; b; c]) in Hl as [Hq Hrest]. specialize (IH rest ltac:(unfold ltof; cbn; lia) Hrest).
    change (encode (a :: b :: c :: rest)) with (to_digits 64 4 (of_digits 256 [a; b; c]) ++ encode rest).
    pose proof (of_digits_bound 256 ltac:(lia) _ Hq) as Hv. pose proof (to_of_digits 256 ltac:(lia) _ Hq) as Hid.
    pose proof (of_to_digits 64 ltac:(lia) 4 _ Hv) as Hback. cbn [length] in Hid. revert Hback Hid.
    generalize (of_digits 256 [a; b; c]). intros v Hback Hid.
    assert (∃ w x y z, to_digits 64 4 v = [w; x; y; z]) as (w & x & y & z & Hd) by (cbn; eauto).
    rewrite Hd in Hback |- *. cbn [app decode]. rewrite Hback, IH, Hid. reflexivity.
Qed.

Lemma encode_sextets l : Forall (digit 64) (encode l).
Proof.
  induction l as [l IH] using (induction_ltof1 _ length).
  destruct l as [|a [|b [|c rest]]]; [constructor|..]; cbn [encode].
  1-2: apply Forall_take, to_digits_digit; lia.
  apply Forall_app. split; [apply to_digits_digit; lia|]. apply IH. unfold ltof. cbn. lia.
Qed.

(** ** The alphabet *)

Lemma digit64_forallb (P : Z → bool) : forallb P (seqZ 0 64) = true → ∀ d, digit 64 d → P d = true.
Proof.
  intros H d Hd. rewrite forallb_forall in H. apply H.
  apply list_elem_of_In, elem_of_seqZ. unfold digit in Hd. lia.
Qed.

Definition url_char (c : ascii) : bool := bool_decide (is_Some (Base32.char_index alphabet c)).

Lemma url_alphabet_char d : digit 64 d →
  Base32.char_index alphabet (Base32.char_at alphabet d) = Some d ∧
  Base32.is_newline (Base32.char_at alphabet d) = false ∧ Base32.char_at alphabet d ≠ "."%char.
Proof.
  intros Hd.
  apply (digit64_forallb (λ d, bool_decide (Base32.char_index alphabet (Base32.char_at alphabet d) = Some d) &&
    (negb (Base32.is_newline (Base32.char_at alphabet d)) && negb (Ascii.eqb (Base32.char_at alphabet d) ".")))) in Hd;
    [|by vm_compute].
  apply andb_true_iff in Hd as [Hi%bool_decide_eq_true [Hn%negb_true_iff Hdot%negb_true_iff]%andb_true_iff].
  split_and!; [done..|]. by apply Ascii.eqb_neq.
Qed.

Lemma decode_chars ds : Forall (digit 64) ds →
  mapM (Base32.char_index alphabet)
    (List.filter (λ c, negb (Base32.is_newline c)) (map (Base32.char_at alphabet) ds)) = Some ds.
Proof.
  intros Hds. apply mapM_Some. induction Hds as [|d ds Hd Hds IH]; [constructor|]. cbn [map List.filter].
  destruct (url_alphabet_char d Hd) as (Hi & -> & _). cbn [negb]. by constructor.
Qed.

Lemma url_text_roundtrip b : Forall (digit 256) b → DecodeString (EncodeToString b) = Ok b.
Proof.
  intros Hb. unfold DecodeString, EncodeToString.
  rewrite String.list_ascii_of_string_of_list_ascii, decode_chars by apply encode_sextets.
  cbn. by rewrite sextets_roundtrip.
Qed.

Lemma EncodeToString_lacks b : lacks "." (EncodeToString b).
Proof.
  unfold lacks, EncodeToString. induction (encode_sextets b) as [|d ds Hd _ IH]; [done|].
  cbn -[Base32.char_at Ascii.eqb]. destruct (url_alphabet_char d Hd) as (_ & _ & Hdot). apply Ascii.eqb_neq in Hdot as ->. exact IH.
Qed.
End Base64Facts.
