(* ===== verification/Cdid.v ===== *)
(** * Cdid: concrnt document identifiers ([src/cdid/cdid.go])

    A CDID is either a 48-bit millisecond timestamp followed by ten payload
    bytes, or fifteen bytes of a hash.  Its text form is base32 over an
    alphabet that leaves out ['x'], the prefix of the hash form.  The theorems:
    the text form round trips, the timestamp survives as the clamp of the
    input, and the text order follows the time order. *)

From S2P Require Import Prelude Bytes.
From stdpp Require Import prelude strings list list_numbers.
From Stdlib Require Import ZArith Lia Ascii.
Open Scope Z_scope.

Definition encoding : string := "0123456789abcdefghjkmnpqrstuvwyz".

Inductive Kind : Set := KindTime | KindHash.

(** The byte arrays of the struct, as lists of byte values. *)
Record CDID : Set := mkCDID {
  kind : Kind;
  time : list Z;
  data : list Z;
  hash : list Z;
}.

Definition zero_bytes (n : nat) : list Z := replicate n 0.

(** [CDID{}] *)
Definition zero_CDID : CDID := mkCDID KindTime (zero_bytes 6) (zero_bytes 10) (zero_bytes 15).

Definition max_ms : Z := 2 ^ 48 - 1.

(** [t.UnixMilli()] of an instant given in nanoseconds since the epoch. *)
Definition unix_milli (t : Z) : Z := t `div` 1000000.

Definition byte_trunc (z : Z) : Z := z `mod` 256.

Definition setTime (c : CDID) (t : Z) : CDID :=
  match kind c with
  | KindHash => c
  | KindTime =>
      let m := Z.min (Z.max (unix_milli t) 0) max_ms in
      mkCDID (kind c)
        [byte_trunc (Z.shiftr m 40); byte_trunc (Z.shiftr m 32); byte_trunc (Z.shiftr m 24);
         byte_trunc (Z.shiftr m 16); byte_trunc (Z.shiftr m 8); byte_trunc m]
        (data c) (hash c)
  end.

Definition New (data : list Z) (t : Z) : CDID :=
  setTime (mkCDID KindTime (zero_bytes 6) data (zero_bytes 15)) t.

Definition NewFromHash (data : list Z) : CDID :=
  mkCDID KindHash (zero_bytes 6) (zero_bytes 10) data.

Section MakeHash.
(** [sha3.NewLegacyKeccak256] of golang.org/x/crypto. *)
Context (keccak256 : list Z → list Z).

Definition MakeHash (b : list Z) : CDID := NewFromHash (take 15 (keccak256 b)).
End MakeHash.

(** [time.Time{}], January 1 of year 1 UTC, in unix nanoseconds. *)
Definition zero_time : Z := -62135596800 * 1000000000.

Definition byte_at (l : list Z) (i : nat) : Z := nth i l 0.

Definition GetTime (c : CDID) : Z :=
  match kind c with
  | KindHash => zero_time
  | KindTime =>
      let b := byte_at (time c) in
      let m :=
        Z.lor (Z.lor (Z.lor (Z.lor (Z.lor (Z.shiftl (b 0%nat) 40) (Z.shiftl (b 1%nat) 32))
          (Z.shiftl (b 2%nat) 24)) (Z.shiftl (b 3%nat) 16)) (Z.shiftl (b 4%nat) 8)) (b 5%nat) in
      let s := Z.quot m 1000 in
      let n := Z.rem m 1000 * 1000000 in
      s * 1000000000 + n
  end.

Definition Bytes (c : CDID) : list Z :=
  match kind c with
  | KindHash => hash c
  | KindTime => time c ++ data c
  end.

Definition String (c : CDID) : string :=
  match kind c with
  | KindHash => "x" +:+ Base32.EncodeToString encoding (hash c)
  | KindTime => Base32.EncodeToString encoding (Bytes c)
  end.

(** [Parse] indexes [s[0]] before anything else: the empty string panics. *)
Definition Parse (s : string) : result CDID :=
  match s with
  | EmptyString => Panic
  | String.String c rest =>
      if Ascii.eqb c "x" then
        b ← Base32.DecodeString encoding rest;
        if negb (length b =? 15)%nat then Ok zero_CDID
        else Ok (mkCDID KindHash (zero_bytes 6) (zero_bytes 10) b)
      else
        b ← Base32.DecodeString encoding s;
        if negb (length b =? 16)%nat then Ok zero_CDID
        else Ok (mkCDID KindTime (take 6 b) (drop 6 b) (zero_bytes 15))
  end.

Definition IsHashCDID (s : string) : bool :=
  match s with String.String c _ => Ascii.eqb c "x" | EmptyString => false end.

Definition IsTimeCDID (s : string) : bool :=
  match s with String.String c _ => negb (Ascii.eqb c "x") | EmptyString => false end.

Definition IsCDIDChar (c : ascii) : bool :=
  (char_in "0" "9" c || char_in "a" "z" c) &&
  negb (Ascii.eqb c "i") && negb (Ascii.eqb c "l") &&
  negb (Ascii.eqb c "o") && negb (Ascii.eqb c "x").

(** ** The alphabet *)

Lemma digit32_forallb (P : Z → bool) :
  forallb P (seqZ 0 32) = true → ∀ d, digit 32 d → P d = true.
Proof.
  intros H d Hd. rewrite forallb_forall in H. apply H.
  apply list_elem_of_In, elem_of_seqZ. unfold digit in Hd. lia.
Qed.

Lemma alphabet_roundtrip d :
  digit 32 d → Base32.char_index encoding (Base32.char_at encoding d) = Some d.
Proof.
  intros Hd.
  apply (digit32_forallb (λ d, bool_decide (Base32.char_index encoding (Base32.char_at encoding d) = Some d)))
    in Hd; [by apply bool_decide_eq_true in Hd | by vm_compute].
Qed.

(** Every character written is a CDID character: neither a newline nor ['x']. *)
Lemma alphabet_char d :
  digit 32 d →
  IsCDIDChar (Base32.char_at encoding d) = true ∧
  Base32.is_newline (Base32.char_at encoding d) = false.
Proof.
  intros Hd.
  apply (digit32_forallb (λ d, IsCDIDChar (Base32.char_at encoding d) &&
           negb (Base32.is_newline (Base32.char_at encoding d)))) in Hd; [|by vm_compute].
  apply andb_true_iff in Hd as [? ?%negb_true_iff]. done.
Qed.

Lemma alphabet_mono d1 d2 :
  digit 32 d1 → digit 32 d2 → d1 < d2 →
  Ascii.compare (Base32.char_at encoding d1) (Base32.char_at encoding d2) = Lt.
Proof.
  intros H1 H2 Hlt.
  apply (digit32_forallb (λ d1, forallb (λ d2, negb (d1 <? d2) ||
     match Ascii.compare (Base32.char_at encoding d1) (Base32.char_at encoding d2) with
     | Lt => true | _ => false end) (seqZ 0 32))) in H1; [|by vm_compute].
  apply (digit32_forallb _ H1) in H2. apply Z.ltb_lt in Hlt. rewrite Hlt in H2. cbn in H2.
  by destruct (Ascii.compare _ _).
Qed.

Lemma mapM_alphabet ds :
  Forall (digit 32) ds →
  mapM (Base32.char_index encoding) (map (Base32.char_at encoding) ds) = Some ds.
Proof.
  intros H. apply mapM_Some. induction H as [|d ds Hd Hds IH]; [constructor|].
  cbn [map]. constructor; [by apply alphabet_roundtrip | done].
Qed.

Lemma filter_newlines ds :
  Forall (digit 32) ds →
  List.filter (λ c, negb (Base32.is_newline c)) (map (Base32.char_at encoding) ds) =
  map (Base32.char_at encoding) ds.
Proof.
  induction 1 as [|d ds Hd Hds IH]; [done|]. cbn [map List.filter].
  destruct (alphabet_char d Hd) as [_ ->]. cbn [negb]. by f_equal.
Qed.

Lemma DecodeString_EncodeToString b :
  Forall (digit 256) b →
  Base32.DecodeString encoding (Base32.EncodeToString encoding b) = Ok b.
Proof.
  intros Hb. unfold Base32.DecodeString, Base32.EncodeToString.
  rewrite String.list_ascii_of_string_of_list_ascii.
  pose proof (Base32Facts.encode_digit b) as Hd.
  rewrite filter_newlines, mapM_alphabet by done.
  by rewrite Base32Facts.decode_encode.
Qed.

(** A non-empty encoding starts with a CDID character, never with ['x']. *)
Lemma EncodeToString_head b :
  b ≠ [] → ∃ c s, Base32.EncodeToString encoding b = String.String c s ∧ IsCDIDChar c = true.
Proof.
  intros Hb. unfold Base32.EncodeToString.
  pose proof (Base32Facts.encode_digit b) as Hd.
  destruct (Base32.encode b) as [|d ds] eqn:E.
  - exfalso. destruct b as [|? [|? [|? [|? [|? ?]]]]]; try done; discriminate E.
  - apply Forall_cons in Hd as [Hd _]. eexists _, _. split; [done|]. by apply alphabet_char.
Qed.

Lemma IsCDIDChar_not_x c : IsCDIDChar c = true → Ascii.eqb c "x" = false.
Proof. unfold IsCDIDChar. intros H. by destruct (Ascii.eqb c "x"); [rewrite !andb_false_r in H|]. Qed.

Lemma string_ltb_lex l1 l2 :
  Forall (digit 32) l1 → Forall (digit 32) l2 → lex l1 l2 →
  Str.ltb (String.string_of_list_ascii (map (Base32.char_at encoding) l1))
          (String.string_of_list_ascii (map (Base32.char_at encoding) l2)) = true.
Proof.
  unfold Str.ltb, String.ltb. intros H1. revert l2.
  induction H1 as [|x l1 Hx H1 IH]; intros [|y l2] H2 Hlex; try done.
  apply Forall_cons in H2 as [Hy H2].
  cbn [lex] in Hlex. cbn [map String.string_of_list_ascii String.compare].
  destruct Hlex as [Hlt|[-> Hlex]].
  - by rewrite alphabet_mono.
  - assert (Ascii.compare (Base32.char_at encoding y) (Base32.char_at encoding y) = Eq) as ->
      by (unfold Ascii.compare; apply N.compare_refl).
    by apply IH.
Qed.

(** ** The timestamp *)

(** The millisecond a timestamp stores: the 48-bit clamp of the instant. *)
Definition clamp_ms (t : Z) : Z := Z.min (Z.max (unix_milli t) 0) max_ms.

Lemma clamp_ms_range t : 0 <= clamp_ms t < 256 ^ 6.
Proof. unfold clamp_ms, max_ms. change (256 ^ 6) with (2 ^ 48). lia. Qed.

Lemma time_New d t : time (New d t) = to_digits 256 6 (clamp_ms t).
Proof.
  unfold New, setTime. cbn [kind time]. fold (clamp_ms t).
  unfold byte_trunc. rewrite !Z.shiftr_div_pow2 by lia.
  cbn [to_digits]. repeat f_equal. cbn. by rewrite Z.div_1_r.
Qed.

Lemma Bytes_New d t : Bytes (New d t) = to_digits 256 6 (clamp_ms t) ++ d.
Proof. unfold Bytes. rewrite <- (time_New d t). done. Qed.

Lemma lor_disjoint_byte a b n : 0 <= n -> 0 <= b < 2 ^ n -> Z.lor (Z.shiftl a n) b = a * 2 ^ n + b.
Proof.
  intros Hn Hb. rewrite <- Z.shiftl_mul_pow2 by done.
  rewrite <- Z.add_lor_land.
  assert (Z.land (Z.shiftl a n) b = 0) as ->; [|lia].
  apply Z.bits_inj'. intros k Hk. rewrite Z.land_spec, Z.bits_0.
  destruct (Z.ltb_spec k n).
  - by rewrite Z.shiftl_spec_low.
  - replace b with (b mod 2 ^ n) by (apply Z.mod_small; lia).
    rewrite Z.mod_pow2_bits_high by lia. apply andb_false_r.
Qed.

(** The or of six shifted bytes is their base-256 number. *)
Lemma lor_bytes b0 b1 b2 b3 b4 b5 :
  digit 256 b0 -> digit 256 b1 -> digit 256 b2 -> digit 256 b3 -> digit 256 b4 -> digit 256 b5 ->
  Z.lor (Z.lor (Z.lor (Z.lor (Z.lor (Z.shiftl b0 40) (Z.shiftl b1 32)) (Z.shiftl b2 24))
    (Z.shiftl b3 16)) (Z.shiftl b4 8)) b5 = of_digits 256 [b0; b1; b2; b3; b4; b5].
Proof.
  unfold digit. intros H0 H1 H2 H3 H4 H5.
  rewrite <- !Z.lor_assoc.
  change (2 ^ 8) with 256 in *.
  rewrite (lor_disjoint_byte b4 b5 8) by lia. change (2 ^ 8) with 256.
  rewrite (lor_disjoint_byte b3 _ 16) by (change (2 ^ 16) with 65536; lia).
  change (2 ^ 16) with 65536.
  rewrite (lor_disjoint_byte b2 _ 24) by (change (2 ^ 24) with 16777216; lia).
  change (2 ^ 24) with 16777216.
  rewrite (lor_disjoint_byte b1 _ 32) by (change (2 ^ 32) with 4294967296; lia).
  change (2 ^ 32) with 4294967296.
  rewrite (lor_disjoint_byte b0 _ 40) by (change (2 ^ 40) with 1099511627776; lia).
  change (2 ^ 40) with 1099511627776.
  unfold of_digits. cbn [fold_left]. lia.
Qed.

Lemma GetTime_digits c :
  kind c = KindTime -> length (time c) = 6%nat -> Forall (digit 256) (time c) ->
  GetTime c = of_digits 256 (time c) * 1000000.
Proof.
  intros Hk Hlen Hd. unfold GetTime. rewrite Hk.
  destruct (time c) as [|b0 [|b1 [|b2 [|b3 [|b4 [|b5 [|]]]]]]]; try discriminate Hlen.
  pose proof (of_digits_bound 256 ltac:(lia) _ Hd) as Hb.
  repeat match goal with H : Forall _ (_ :: _) |- _ => apply Forall_cons in H as [? H] end.
  unfold byte_at. cbn [nth]. rewrite lor_bytes by done.
  revert Hb. generalize (of_digits 256 [b0; b1; b2; b3; b4; b5]). intros m Hb.
  pose proof (Z.quot_rem' m 1000). lia.
Qed.

(** ** Text round trips and order *)

Lemma Parse_char c rest :
  Ascii.eqb c "x" = false ->
  Parse (String.String c rest) =
    b ← Base32.DecodeString encoding (String.String c rest);
    if negb (length b =? 16)%nat then Ok zero_CDID
    else Ok (mkCDID KindTime (take 6 b) (drop 6 b) (zero_bytes 15)).
Proof. intros H. unfold Parse. by rewrite H. Qed.

Lemma Parse_time_text b :
  length b = 16%nat -> Forall (digit 256) b ->
  Parse (Base32.EncodeToString encoding b) =
    Ok (mkCDID KindTime (take 6 b) (drop 6 b) (zero_bytes 15)).
Proof.
  intros Hlen Hd.
  destruct (EncodeToString_head b) as (c & s & E & Hc); [by intros ->|].
  rewrite E, Parse_char, <- E by by apply IsCDIDChar_not_x.
  rewrite DecodeString_EncodeToString by done. cbn. by rewrite Hlen.
Qed.

(** an identifier made of a ten-byte payload and any instant is read back
    unchanged from its text, and the instant it then carries is the input
    truncated to a millisecond and clamped to the 48-bit range. *)
Theorem Parse_String_New d t :
  length d = 10%nat -> Forall (digit 256) d ->
  Parse (String (New d t)) = Ok (New d t) /\
  GetTime (New d t) = Z.min (Z.max (t `div` 1000000) 0) (2 ^ 48 - 1) * 1000000.
Proof.
  intros Hlen Hd. split.
  - change (String (New d t)) with (Base32.EncodeToString encoding (Bytes (New d t))).
    rewrite Bytes_New, Parse_time_text.
    + assert (length (to_digits 256 6 (clamp_ms t)) = 6%nat) as E by apply length_to_digits.
      by rewrite take_app_length', drop_app_length', <- (time_New d t).
    + by rewrite length_app, length_to_digits, Hlen.
    + apply Forall_app. split; [by apply to_digits_digit | done].
  - rewrite GetTime_digits; rewrite ?time_New; [|done|done|by apply to_digits_digit].
    rewrite of_to_digits; [done|lia|apply clamp_ms_range].
Qed.

Lemma Parse_String_New_witness :
  let d := [255; 1; 2; 3; 4; 5; 6; 7; 8; 255] in
  Parse (String (New d 1784550896789000000)) = Ok (New d 1784550896789000000) /\
  GetTime (New d 1784550896789000000) =
    Z.min (Z.max (1784550896789000000 `div` 1000000) 0) (2 ^ 48 - 1) * 1000000.
Proof.
  apply (Parse_String_New [255; 1; 2; 3; 4; 5; 6; 7; 8; 255] 1784550896789000000).
  - reflexivity.
  - repeat constructor; vm_compute; congruence.
Defined.

(** fifteen bytes of a hash are read back unchanged from their text, which
    is told from a time identifier's by its first character. *)
Theorem Parse_String_NewFromHash h :
  length h = 15%nat -> Forall (digit 256) h ->
  Parse (String (NewFromHash h)) = Ok (NewFromHash h) /\
  IsHashCDID (String (NewFromHash h)) = true /\
  forall d t, IsTimeCDID (String (New d t)) = true.
Proof.
  intros Hlen Hd. split; [|split; [done|]].
  - unfold String. cbn [kind hash NewFromHash String.append].
    unfold Parse. cbn [Ascii.eqb Bool.eqb].
    rewrite DecodeString_EncodeToString by done. cbn. by rewrite Hlen.
  - intros d t. unfold String. cbn [kind New setTime]. change (Bytes _) with (Bytes (New d t)).
    destruct (EncodeToString_head (Bytes (New d t))) as (c & s & E & Hc); [by rewrite Bytes_New|].
    unfold Cdid.String. cbn [kind New setTime] in E |- *. unfold IsTimeCDID. rewrite E.
    by rewrite (IsCDIDChar_not_x c Hc).
Qed.

Lemma Parse_String_NewFromHash_witness :
  let h := [1; 2; 3; 4; 5; 6; 7; 8; 9; 10; 11; 12; 13; 14; 250] in
  Parse (String (NewFromHash h)) = Ok (NewFromHash h) /\
  IsHashCDID (String (NewFromHash h)) = true /\
  forall d t, IsTimeCDID (String (New d t)) = true.
Proof.
  apply (Parse_String_NewFromHash [1; 2; 3; 4; 5; 6; 7; 8; 9; 10; 11; 12; 13; 14; 250]).
  - reflexivity.
  - repeat constructor; vm_compute; congruence.
Defined.

(** the text of time identifiers sorts (bytewise) by their millisecond,
    whatever the payloads; instants outside the range sort at its ends. *)
Theorem String_order d1 d2 t1 t2 :
  length d1 = 10%nat -> length d2 = 10%nat ->
  Forall (digit 256) d1 -> Forall (digit 256) d2 ->
  clamp_ms t1 < clamp_ms t2 ->
  Str.ltb (String (New d1 t1)) (String (New d2 t2)) = true.
Proof.
  intros L1 L2 H1 H2 Hlt.
  change (String (New d1 t1)) with (Base32.EncodeToString encoding (Bytes (New d1 t1))).
  change (String (New d2 t2)) with (Base32.EncodeToString encoding (Bytes (New d2 t2))).
  rewrite !Bytes_New. unfold Base32.EncodeToString.
  apply string_ltb_lex; [apply Base32Facts.encode_digit..|].
  pose proof (to_digits_digit 256 ltac:(lia) 6 (clamp_ms t1)) as D1.
  pose proof (to_digits_digit 256 ltac:(lia) 6 (clamp_ms t2)) as D2.
  apply Base32Facts.encode_lex; [by rewrite !length_app, !length_to_digits, L1, L2|by apply Forall_app..|].
  apply lex_app_lt; [by rewrite !length_to_digits|].
  apply (lex_of_digits 256); [lia|by rewrite !length_to_digits|done..|].
  rewrite !of_to_digits; [done|lia|apply clamp_ms_range|lia|apply clamp_ms_range].
Qed.

Lemma String_order_witness :
  Str.ltb (String (New (replicate 10 255) 1000000)) (String (New (replicate 10 0) 2000000)) = true.
Proof.
  apply (String_order (replicate 10 255) (replicate 10 0) 1000000 2000000);
    first [reflexivity | repeat constructor; vm_compute; congruence].
Defined.

(** [Parse] does not reject every malformed text: a text of the wrong length is
    the zero identifier with no error, and the empty text panics. *)
Lemma Parse_wrong_length : Parse "0123" = Ok zero_CDID /\ Parse "x00" = Ok zero_CDID.
Proof. by vm_compute. Qed.

Lemma Parse_empty : Parse "" = Panic.
Proof. done. Qed.
