(* ===== verification/Url.v ===== *)
(** * Url: the parts of [net/url] and [path] the program uses

    [Parse], [QueryUnescape], [URL.String] and [JoinPath] of Go's standard
    library, on byte strings.  Error texts are abbreviated.  An IP literal in
    brackets is validated by package [net/netip], the parameter [ip_literal]. *)

From S2P Require Import Prelude Bytes.
From stdpp Require Import prelude strings list.
From Stdlib Require Import ZArith Lia Ascii.
Open Scope Z_scope.

(** [netip.ParseAddr] accepts the text and the address is not an IPv4 one. *)
Class NetIP := ip_literal : string → bool.

Definition is_alpha (c : ascii) : bool := char_in "a" "z" c || char_in "A" "Z" c.
Definition is_num (c : ascii) : bool := char_in "0" "9" c.
Definition one_of (l : string) (c : ascii) : bool := Str.contains_char l c.

(** The encoding modes of the package. *)
Inductive encoding : Set :=
| encodePath | encodeHost | encodeZone | encodeUserPassword | encodeQueryComponent | encodeFragment.

Definition is_host_mode (m : encoding) : bool :=
  match m with encodeHost | encodeZone => true | _ => false end.

Definition dquote : ascii := "034".

Definition shouldEscape (c : ascii) (m : encoding) : bool :=
  if is_alpha c || is_num c then false
  else if is_host_mode m && (one_of "!$&'()*+,;=:[]<>" c || Ascii.eqb c dquote) then false
  else if one_of "-_.~" c then false
  else if one_of "$&+,/:;=?@" c then
    match m with
    | encodePath => Ascii.eqb c "?"
    | encodeUserPassword => one_of "@/?:" c
    | encodeQueryComponent => true
    | encodeFragment => false
    | encodeHost | encodeZone => true
    end
  else match m with
       | encodeFragment => negb (one_of "!()*" c)
       | _ => true
       end.

Definition unhex (c : ascii) : option Z :=
  if char_in "0" "9" c then Some (byte_val c - byte_val "0")
  else if char_in "a" "f" c then Some (byte_val c - byte_val "a" + 10)
  else if char_in "A" "F" c then Some (byte_val c - byte_val "A" + 10)
  else None.

Definition hex_digit (v : Z) : ascii :=
  default "0"%char (String.get (Z.to_nat v) "0123456789ABCDEF").

Fixpoint escape (s : string) (m : encoding) : string :=
  match s with
  | EmptyString => ""
  | String c s =>
      if shouldEscape c m then
        match m with
        | encodeQueryComponent =>
            if Ascii.eqb c " " then String "+" (escape s m)
            else String "%" (String (hex_digit (byte_val c `div` 16))
                   (String (hex_digit (byte_val c `mod` 16)) (escape s m)))
        | _ => String "%" (String (hex_digit (byte_val c `div` 16))
                 (String (hex_digit (byte_val c `mod` 16)) (escape s m)))
        end
      else String c (escape s m)
  end.

(** A %-triple allowed by the mode: a host only escapes bytes outside ASCII
    (and '%' itself), a zone also bytes a host may hold, and the space. *)
Definition triple_allowed (h l : Z) (m : encoding) : bool :=
  let v := h * 16 + l in
  match m with
  | encodeHost => (8 <=? h) || (v =? 37)
  | encodeZone => (v =? 37) || (v =? 32) || negb (shouldEscape (byte_chr v) encodeHost)
  | _ => true
  end.

Definition unescape_error {A} : result A := Err (GoError "invalid URL escape").

Fixpoint unescape (s : string) (m : encoding) : result string :=
  match s with
  | EmptyString => Ok ""
  | String "%" (String a (String b rest)) =>
      match unhex a, unhex b with
      | Some h, Some l =>
          if triple_allowed h l m then
            t ← unescape rest m; Ok (String (byte_chr (h * 16 + l)) t)
          else unescape_error
      | _, _ => unescape_error
      end
  | String "%" _ => unescape_error
  | String c rest =>
      if is_host_mode m && (byte_val c <? 128) && shouldEscape c m then
        Err (GoError "invalid character in host name")
      else
        t ← unescape rest m;
        let c := match m with
                 | encodeQueryComponent => if Ascii.eqb c "+" then " "%char else c
                 | _ => c
                 end in
        Ok (String c t)
  end.

Definition QueryUnescape (s : string) : result string := unescape s encodeQueryComponent.
Definition QueryEscape (s : string) : string := escape s encodeQueryComponent.

Record Userinfo : Set := mkUserinfo { Username : string; Password : option string }.

Record URL : Set := mkURL {
  Scheme : string;
  Opaque : string;
  User : option Userinfo;
  Host : string;
  Path : string;
  RawPath : string;
  OmitHost : bool;
  ForceQuery : bool;
  RawQuery : string;
  Fragment : string;
  RawFragment : string;
}.

Definition set_path_fields (u : URL) (path raw : string) : URL :=
  mkURL (Scheme u) (Opaque u) (User u) (Host u) path raw (OmitHost u) (ForceQuery u)
    (RawQuery u) (Fragment u) (RawFragment u).

Definition set_fragment_fields (u : URL) (frag raw : string) : URL :=
  mkURL (Scheme u) (Opaque u) (User u) (Host u) (Path u) (RawPath u) (OmitHost u) (ForceQuery u)
    (RawQuery u) frag raw.

(** The decoded text and, when re-encoding differs from the input, the input. *)
Definition decode_raw (p : string) (m : encoding) : result (string * string) :=
  path ← unescape p m;
  Ok (path, if String.eqb p (escape path m) then "" else p).

Definition setPath (u : URL) (p : string) : result URL :=
  '(path, raw) ← decode_raw p encodePath; Ok (set_path_fields u path raw).

Definition setFragment (u : URL) (f : string) : result URL :=
  '(frag, raw) ← decode_raw f encodeFragment; Ok (set_fragment_fields u frag raw).

Definition is_ctl (c : ascii) : bool := (byte_val c <? 32) || (byte_val c =? 127).

(** [getScheme]: the scheme (unlowered) and the rest. *)
Fixpoint scan_scheme (raw : string) (first : bool) : result (option (string * string)) :=
  match raw with
  | EmptyString => Ok None
  | String c rest =>
      if is_alpha c || (negb first && (is_num c || one_of "+-." c)) then
        r ← scan_scheme rest false;
        Ok (match r with Some (s, t) => Some (String c s, t) | None => None end)
      else if is_num c || one_of "+-." c then Ok None
      else if Ascii.eqb c ":" then
        if first then Err (GoError "missing protocol scheme") else Ok (Some ("", rest))
      else Ok None
  end.

Definition getScheme (raw : string) : result (string * string) :=
  r ← scan_scheme raw true;
  Ok (match r with Some p => p | None => ("", raw) end).

Definition to_lower (c : ascii) : ascii :=
  if char_in "A" "Z" c then byte_chr (byte_val c + 32) else c.

Definition ToLower (s : string) : string := Str.map to_lower s.

Definition validOptionalPort (port : string) : bool :=
  match port with
  | EmptyString => true
  | String c digits => Ascii.eqb c ":" && Str.forallb is_num digits
  end.

Definition validUserinfo (s : string) : bool :=
  Str.forallb (λ c, is_alpha c || is_num c || one_of "-._:~!$&'()*+,;=%@" c) s.

(** The text before and after the first ["%25"]. *)
Fixpoint cut_zone (s : string) : string * option string :=
  if Str.has_prefix s "%25" then ("", Some s)
  else match s with
       | EmptyString => ("", None)
       | String c s => let '(a, z) := cut_zone s in (String c a, z)
       end.

Definition invalid_port {A} : result A := Err (GoError "invalid port after host").

Section Parsing.
Context `{NetIP}.

Definition parseHost (host : string) : result string :=
  match Str.cut_last host "[" with
  | Some (before, after) =>
      if negb (String.eqb before "") then Err (GoError "invalid IP-literal") else
      match Str.cut_last after "]" with
      | None => Err (GoError "missing ']' in host")
      | Some (hostname, colonPort) =>
          if negb (validOptionalPort colonPort) then invalid_port
          else
            port ← unescape colonPort encodeHost;
            let '(h, z) := cut_zone hostname in
            hostPart ← unescape h encodeHost;
            zonePart ← match z with Some z => unescape z encodeZone | None => Ok "" end;
            let name := hostPart +:+ zonePart in
            if ip_literal name then Ok ("[" +:+ name +:+ "]" +:+ port)
            else Err (GoError "invalid host")
      end
  | None =>
      let '(_, after, found) := Str.cut host ":" in
      if found && negb (Str.forallb is_num after) then invalid_port
      else unescape host encodeHost
  end.

Definition parseUser (userinfo : string) : result Userinfo :=
  if negb (validUserinfo userinfo) then Err (GoError "net/url: invalid userinfo")
  else
    let '(name, password, found) := Str.cut userinfo ":" in
    name ← unescape name encodeUserPassword;
    if found then
      password ← unescape password encodeUserPassword;
      Ok (mkUserinfo name (Some password))
    else Ok (mkUserinfo name None).

Definition parseAuthority (authority : string) : result (option Userinfo * string) :=
  match Str.cut_last authority "@" with
  | None => host ← parseHost authority; Ok (None, host)
  | Some (userinfo, h) =>
      host ← parseHost h;
      user ← parseUser userinfo;
      Ok (Some user, host)
  end.

(** [parse] without its [viaRequest] branches, which [Parse] never takes. *)
Definition parse (raw : string) : result URL :=
  if negb (Str.forallb (λ c, negb (is_ctl c)) raw) then
    Err (GoError "net/url: invalid control character in URL")
  else if String.eqb raw "*" then
    Ok (mkURL "" "" None "" "*" "" false false "" "" "")
  else
    '(scheme, rest) ← getScheme raw;
    let scheme := ToLower scheme in
    let '(rest, query, force) :=
      if Str.has_suffix rest "?" && (Str.count_char rest "?" =? 1)%nat
      then (Str.trim_suffix rest "?", "", true)
      else let '(r, q, _) := Str.cut rest "?" in (r, q, false) in
    if negb (Str.has_prefix rest "/") && negb (String.eqb scheme "") then
      Ok (mkURL scheme rest None "" "" "" false force query "" "")
    else if negb (Str.has_prefix rest "/") &&
            (let '(segment, _, _) := Str.cut rest "/" in Str.contains_char segment ":") then
      Err (GoError "first path segment in URL cannot contain colon")
    else if (negb (String.eqb scheme "") || negb (Str.has_prefix rest "///")) &&
            Str.has_prefix rest "//" then
      let '(authority, after, found) := Str.cut (Str.drop 2 rest) "/" in
      '(user, host) ← parseAuthority authority;
      setPath (mkURL scheme "" user host "" "" false force query "" "")
        (if found then String "/" after else "")
    else
      setPath (mkURL scheme "" None "" "" ""
                 (negb (String.eqb scheme "") && Str.has_prefix rest "/") force query "" "") rest.

Definition Parse (rawURL : string) : result URL :=
  let '(u, frag, _) := Str.cut rawURL "#" in
  url ← parse u;
  if String.eqb frag "" then Ok url else setFragment url frag.

End Parsing.

(** ** Writing *)

Definition validEncoded (s : string) (m : encoding) : bool :=
  Str.forallb (λ c, one_of "!$&'()*+,;=:@[]%" c || negb (shouldEscape c m)) s.

(** The raw form is written back when it is a valid encoding of the text. *)
Definition raw_is_valid (raw text : string) (m : encoding) : bool :=
  negb (String.eqb raw "") && validEncoded raw m &&
  match unescape raw m with Ok p => String.eqb p text | _ => false end.

Definition EscapedPath (u : URL) : string :=
  if raw_is_valid (RawPath u) (Path u) encodePath then RawPath u
  else if String.eqb (Path u) "*" then "*"
  else escape (Path u) encodePath.

Definition EscapedFragment (u : URL) : string :=
  if raw_is_valid (RawFragment u) (Fragment u) encodeFragment then RawFragment u
  else escape (Fragment u) encodeFragment.

Definition user_string (u : Userinfo) : string :=
  escape (Username u) encodeUserPassword +:+
  match Password u with
  | Some p => ":" +:+ escape p encodeUserPassword
  | None => ""
  end.

Definition String_ (u : URL) : string :=
  let scheme := if String.eqb (Scheme u) "" then "" else Scheme u +:+ ":" in
  let body :=
    if negb (String.eqb (Opaque u) "") then Opaque u
    else
      let has_user := match User u with Some _ => true | None => false end in
      let authority :=
        if negb (String.eqb (Scheme u) "" && String.eqb (Host u) "" && negb has_user) &&
           negb (OmitHost u && String.eqb (Host u) "" && negb has_user)
        then
          (if negb (String.eqb (Host u) "" && String.eqb (Path u) "" && negb has_user)
           then "//" else "") +:+
          match User u with Some ui => user_string ui +:+ "@" | None => "" end +:+
          escape (Host u) encodeHost
        else "" in
      let path := EscapedPath u in
      let sep :=
        if negb (String.eqb path "") && negb (Str.has_prefix path "/") &&
           negb (String.eqb (Host u) "") then "/" else "" in
      let dot :=
        if String.eqb (scheme +:+ authority +:+ sep) "" &&
           (let '(segment, _, _) := Str.cut path "/" in Str.contains_char segment ":")
        then "./" else "" in
      authority +:+ sep +:+ dot +:+ path in
  scheme +:+ body +:+
  (if ForceQuery u || negb (String.eqb (RawQuery u) "") then "?" +:+ RawQuery u else "") +:+
  (if String.eqb (Fragment u) "" then "" else "#" +:+ EscapedFragment u).

(** [path.Clean] of a rooted path: the elements kept, innermost first. *)
Fixpoint clean_rooted (acc : list string) (segs : list string) : list string :=
  match segs with
  | [] => acc
  | s :: segs =>
      if String.eqb s "" || String.eqb s "." then clean_rooted acc segs
      else if String.eqb s ".." then clean_rooted (tail acc) segs
      else clean_rooted (s :: acc) segs
  end.

(** [path.Join(a, b)] for an [a] that starts with a slash. *)
Definition join_rooted (a b : string) : string :=
  let joined := if String.eqb b "" then a else a +:+ "/" +:+ b in
  "/" +:+ Str.join (rev (clean_rooted [] (Str.split joined "/"))) "/".

Definition join_path (u : URL) (elem : string) : result URL :=
  let p0 := EscapedPath u in
  let p :=
    if Str.has_prefix p0 "/" then join_rooted p0 elem
    else Str.drop 1 (join_rooted ("/" +:+ p0) elem) in
  let p := if Str.has_suffix elem "/" && negb (Str.has_suffix p "/") then p +:+ "/" else p in
  setPath u p.

(** [url.JoinPath(base, elem)]; [URL.JoinPath] ignores a failed [setPath]. *)
Definition JoinPath `{NetIP} (base elem : string) : result string :=
  u ← Parse base;
  Ok (String_ (match join_path u elem with Ok v => v | _ => u end)).

(** *** Relative references

    [resolvePath]: the elements of a path, one after the other onto what is
    written so far (without its leading slash). *)
Fixpoint resolve_elems (elems : list string) (dst : string) (first : bool) : string :=
  match elems with
  | [] => dst
  | elem :: rest =>
      let '(dst, first) :=
        if String.eqb elem "." then (dst, false)
        else if String.eqb elem ".." then
          match Str.cut_last dst "/" with Some (kept, _) => (kept, first) | None => ("", true) end
        else (dst +:+ (if first then "" else "/") +:+ elem, false) in
      match rest with
      | [] => if String.eqb elem "." || String.eqb elem ".." then dst +:+ "/" else dst
      | _ => resolve_elems rest dst first
      end
  end.

Definition resolvePath (base ref : string) : string :=
  let full :=
    if String.eqb ref "" then base
    else if Str.has_prefix ref "/" then ref
    else match Str.cut_last base "/" with Some (dir, _) => dir +:+ "/" +:+ ref | None => ref end in
  if String.eqb full "" then ""
  else
    let dst := resolve_elems (Str.split full "/") "" true in
    if Str.has_prefix dst "/" then dst else String "/" dst.

(** A failed [setPath] is ignored. *)
Definition try_path (u : URL) (p : string) : URL := match setPath u p with Ok v => v | _ => u end.

Definition ResolveReference (u ref : URL) : URL :=
  let scheme := if String.eqb (Scheme ref) "" then Scheme u else Scheme ref in
  let url := mkURL scheme (Opaque ref) (User ref) (Host ref) (Path ref) (RawPath ref) (OmitHost ref) (ForceQuery ref)
               (RawQuery ref) (Fragment ref) (RawFragment ref) in
  let bare := mkURL scheme (Opaque ref) None "" "" (RawPath ref) (OmitHost ref) (ForceQuery ref)
                (RawQuery ref) (Fragment ref) (RawFragment ref) in
  if negb (String.eqb (Scheme ref) "") || negb (String.eqb (Host ref) "") ||
     match User ref with Some _ => true | None => false end
  then try_path url (resolvePath (EscapedPath ref) "")
  else if negb (String.eqb (Opaque ref) "") then bare
  else
    let no_query := String.eqb (Path ref) "" && negb (ForceQuery ref) && String.eqb (RawQuery ref) "" in
    let query := if no_query then RawQuery u else RawQuery ref in
    let inherit := no_query && String.eqb (Fragment ref) "" in
    let frag := if inherit then Fragment u else Fragment ref in
    let raw_frag := if inherit then RawFragment u else RawFragment ref in
    if String.eqb (Path ref) "" && negb (String.eqb (Opaque u) "") then
      mkURL scheme (Opaque u) None "" "" (RawPath ref) (OmitHost ref) (ForceQuery ref) query frag raw_frag
    else
      try_path (mkURL scheme (Opaque ref) (User u) (Host u) (Path ref) (RawPath ref) (OmitHost ref) (ForceQuery ref)
                  query frag raw_frag)
        (resolvePath (EscapedPath u) (EscapedPath ref)).

Definition with_host (u : URL) (scheme host : string) : URL :=
  mkURL scheme (Opaque u) (User u) host (Path u) (RawPath u) (OmitHost u) (ForceQuery u)
    (RawQuery u) (Fragment u) (RawFragment u).

(** ** Clean texts

    Unreserved bytes are written and read as they are, in every mode. *)

Definition is_clean (c : ascii) : bool := is_alpha c || is_num c || one_of "-_.~" c.
Definition is_clean_path (c : ascii) : bool := is_clean c || Ascii.eqb c "/".

Definition clean (s : string) : Prop := Str.forallb is_clean s = true.
Definition clean_path (s : string) : Prop := Str.forallb is_clean_path s = true.

(** Bytes that [unescape] copies in the mode. *)
Definition copied (m : encoding) (c : ascii) : bool :=
  negb (Ascii.eqb c "%") && negb (is_host_mode m && (byte_val c <? 128) && shouldEscape c m) &&
  negb (match m with encodeQueryComponent => Ascii.eqb c "+" | _ => false end).

(** [unescape] one byte at a time. *)
Lemma unescape_other c s m :
  c ≠ "%"%char →
  unescape (String c s) m =
    if is_host_mode m && (byte_val c <? 128) && shouldEscape c m then
      Err (GoError "invalid character in host name")
    else
      t ← unescape s m;
      Ok (String (match m with
                  | encodeQueryComponent => if Ascii.eqb c "+" then " "%char else c
                  | _ => c end) t).
Proof. intros Hc. cbn [unescape]. destruct c as [[] [] [] [] [] [] [] []]; done. Qed.

Lemma unescape_no_panic s m : unescape s m ≠ Panic.
Proof.
  remember (Str.len s) as n eqn:En. revert s En.
  induction (lt_wf n) as [n _ IH]. intros s ->.
  assert (∀ t, (Str.len t < Str.len s)%nat → ∀ f : string → string, (t ← unescape t m; Ok (f t)) ≠ Panic) as Hrec.
  { intros t Ht f. specialize (IH _ Ht t eq_refl). by destruct (unescape t m). }
  destruct s as [|c s]; [done|].
  destruct (decide (c = "%"%char)) as [-> | Hc].
  - destruct s as [|a [|b s]]; try done. cbn [unescape].
    destruct (unhex a) as [h|], (unhex b) as [l|]; try done.
    destruct (triple_allowed h l m); [|done]. apply Hrec. unfold Str.len. cbn. lia.
  - rewrite unescape_other by done. destruct (_ && _); [done|]. apply Hrec. unfold Str.len. cbn. lia.
Qed.

Lemma unescape_copied s m : Str.forallb (copied m) s = true → unescape s m = Ok s.
Proof.
  induction s as [|c s IH]; [done|]. cbn [Str.forallb]. rewrite andb_true_iff. intros [Hc Hs].
  specialize (IH Hs). unfold copied in Hc.
  apply andb_true_iff in Hc as [[Hp%negb_true_iff Hh%negb_true_iff]%andb_true_iff Hq%negb_true_iff].
  rewrite unescape_other by by apply Ascii.eqb_neq. rewrite Hh, IH. cbn.
  destruct m; try done. by rewrite Hq.
Qed.

Lemma clean_copied m c : is_clean c = true → copied m c = true.
Proof. destruct m; revert c; apply ascii_impl; vm_compute; reflexivity. Qed.

Lemma unescape_clean s m : clean s → unescape s m = Ok s.
Proof. intros Hs. apply unescape_copied. refine (str_forallb_impl _ _ _ _ Hs). apply clean_copied. Qed.

Lemma escape_id s m : Str.forallb (λ c, negb (shouldEscape c m)) s = true → escape s m = s.
Proof.
  induction s as [|c s IH]; cbn; [done|].
  rewrite andb_true_iff, negb_true_iff. intros [-> Hs]. by rewrite IH.
Qed.

Lemma setPath_clean u p : clean_path p → setPath u p = Ok (set_path_fields u p "").
Proof.
  unfold clean_path. intros Hp. unfold setPath, decode_raw.
  rewrite unescape_copied by by_class. cbn.
  rewrite escape_id by by_class. by rewrite String.eqb_refl.
Qed.

(** The schemes of concrnt URIs. *)
Definition known_scheme (scheme : string) : Prop := scheme = "cckv" ∨ scheme = "ccfs".

(** The text of an authority. *)
Definition authority (user : option string) (host : string) : string :=
  match user with Some u => u +:+ "@" +:+ host | None => host end.

Definition clean_user (user : option string) : Prop :=
  match user with Some u => clean u | None => True end.

Section CleanParse.
Context `{NetIP}.

Lemma parseHost_clean host : clean host → parseHost host = Ok host.
Proof.
  unfold clean. intros Hh. unfold parseHost.
  rewrite cut_last_lacks, cut_lacks by by_class. by apply unescape_clean.
Qed.

Lemma parseAuthority_clean user host :
  clean_user user → clean host →
  parseAuthority (authority user host) = Ok ((λ u, mkUserinfo u None) <$> user, host).
Proof.
  unfold clean_user. intros Hu Hh. unfold parseAuthority. destruct user as [u|]; cbn [authority].
  - change ("@" +:+ host) with (String "@" host).
    rewrite cut_last_app by (unfold clean in *; by_class).
    rewrite parseHost_clean by done. unfold parseUser, validUserinfo.
    rewrite (str_forallb_impl is_clean) by (done || (apply ascii_impl; vm_compute; reflexivity)).
    cbn [negb]. rewrite cut_lacks by (unfold clean in *; by_class). cbn.
    by rewrite unescape_clean.
  - rewrite cut_last_lacks by (unfold clean in *; by_class). by rewrite parseHost_clean.
Qed.

Lemma clean_authority_class user host :
  clean_user user → clean host →
  Str.forallb (λ c, is_clean c || Ascii.eqb c "@") (authority user host) = true.
Proof.
  unfold clean_user, clean. intros Hu Hh. destruct user as [u|]; cbn [authority]; by_class.
Qed.

Definition parsed_clean (scheme : string) (user : option string) (host path : string) : URL :=
  mkURL scheme "" ((λ u, mkUserinfo u None) <$> user) host path "" false false "" "" "".

Lemma Parse_clean scheme user host path :
  known_scheme scheme → clean_user user → clean host → clean_path path →
  path = "" ∨ Str.has_prefix path "/" = true →
  Parse (scheme +:+ "://" +:+ authority user host +:+ path) =
    Ok (parsed_clean scheme user host path).
Proof.
  intros Hs Hu Hh Hp Hslash.
  unfold clean_path in Hp. pose proof (clean_authority_class user host Hu Hh) as Ha.
  pose proof (parseAuthority_clean user host Hu Hh) as Hpa.
  revert Ha Hpa. generalize (authority user host). intros a Ha Hpa.
  assert (Str.forallb (λ c, is_clean_path c || one_of "@:" c) ("//" +:+ a +:+ path) = true) as Hrest.
  { rewrite !str_forallb_app, !andb_true_iff. repeat split; by_class. }
  assert (Str.cut (a +:+ path) "/" = (a, Str.drop 1 path, negb (String.eqb path ""))) as Hcut.
  { destruct Hslash as [-> | (p & ->)%has_prefix_char].
    - by rewrite str_app_nil_r, cut_lacks by by_class.
    - by rewrite cut_app by by_class. }
  assert ((if negb (String.eqb path "") then String "/" (Str.drop 1 path) else "") = path) as Hback
    by by destruct Hslash as [-> | (p & ->)%has_prefix_char].
  unfold Parse.
  rewrite cut_lacks by (destruct Hs as [-> | ->]; by_class).
  assert (parse (scheme +:+ "://" +:+ a +:+ path) = Ok (parsed_clean scheme user host path)) as ->;
    [|done].
  unfold parse.
  rewrite (str_forallb_impl (λ c, is_clean_path c || one_of "@:" c));
    [|apply ascii_impl; vm_compute; reflexivity|destruct Hs as [-> | ->]; by_class].
  cbn [negb].
  assert (getScheme (scheme +:+ "://" +:+ a +:+ path) = Ok (scheme, "//" +:+ a +:+ path)) as ->
    by by destruct Hs as [-> | ->].
  assert (String.eqb (scheme +:+ "://" +:+ a +:+ path) "*" = false) as -> by by destruct Hs as [-> | ->].
  assert (ToLower scheme = scheme) as Hlow by by destruct Hs as [-> | ->].
  assert (String.eqb scheme "" = false) as Hne by by destruct Hs as [-> | ->].
  cbn [mbind result_bind rbind]. rewrite Hlow, Hne.
  rewrite has_suffix_lacks by by_class. cbn [andb].
  rewrite cut_lacks by by_class.
  assert (Str.has_prefix ("//" +:+ a +:+ path) "/" = true) as -> by by destruct (a +:+ path).
  assert (Str.has_prefix ("//" +:+ a +:+ path) "//" = true) as -> by by destruct (a +:+ path).
  cbn [negb andb orb]. change (Str.drop 2 ("//" +:+ a +:+ path)) with (a +:+ path).
  rewrite Hcut, Hpa. cbn [mbind result_bind rbind]. rewrite Hback.
  by rewrite setPath_clean.
Qed.

End CleanParse.

(** ** No parser panics *)

Lemma rbind_no_panic {A B} (r : result A) (f : A → result B) :
  r ≠ Panic → (∀ a, f a ≠ Panic) → rbind r f ≠ Panic.
Proof. destruct r; cbn; auto. Qed.

Lemma decode_raw_no_panic p m : decode_raw p m ≠ Panic.
Proof. apply rbind_no_panic; [apply unescape_no_panic | done]. Qed.

Lemma setPath_no_panic u p : setPath u p ≠ Panic.
Proof. apply rbind_no_panic; [apply decode_raw_no_panic | by intros []]. Qed.

Lemma scan_scheme_no_panic s first : scan_scheme s first ≠ Panic.
Proof.
  revert first. induction s as [|c s IH]; intros first; [done|]. cbn [scan_scheme].
  repeat match goal with |- context [if ?b then _ else _] => destruct b end; try done.
  all: apply rbind_no_panic; [apply IH | done].
Qed.

Lemma ok_no_panic {A} (a : A) : Ok a ≠ Panic.
Proof. done. Qed.

Lemma err_no_panic {A} e : @Err A e ≠ Panic.
Proof. done. Qed.

(** Splits a run into its steps, none of which panics. *)
Ltac no_panic :=
  repeat match goal with
  | |- Ok _ ≠ Panic => apply ok_no_panic
  | |- Err _ ≠ Panic => apply err_no_panic
  | |- unescape_error ≠ Panic => apply err_no_panic
  | |- unescape _ _ ≠ Panic => apply unescape_no_panic
  | |- decode_raw _ _ ≠ Panic => apply decode_raw_no_panic
  | |- setPath _ _ ≠ Panic => apply setPath_no_panic
  | |- scan_scheme _ _ ≠ Panic => apply scan_scheme_no_panic
  | |- mret _ ≠ Panic => apply ok_no_panic
  | |- mbind _ _ ≠ Panic => apply rbind_no_panic; [|intros]
  | |- (let '(_, _) := ?p in _) ≠ Panic => destruct p
  | |- (if ?b then _ else _) ≠ Panic => destruct b
  | |- match ?o with _ => _ end ≠ Panic => destruct o
  | H : ∀ x, _ ≠ Panic |- _ => apply H
  end.

Section NoPanic.
Context `{NetIP}.

Lemma parseHost_no_panic host : parseHost host ≠ Panic.
Proof. unfold parseHost, invalid_port. no_panic. Qed.

Lemma parseUser_no_panic s : parseUser s ≠ Panic.
Proof. unfold parseUser. no_panic. Qed.

Lemma parseAuthority_no_panic s : parseAuthority s ≠ Panic.
Proof.
  pose proof parseHost_no_panic. pose proof parseUser_no_panic. unfold parseAuthority. no_panic.
Qed.

Lemma Parse_no_panic s : Parse s ≠ Panic.
Proof.
  pose proof parseAuthority_no_panic. unfold Parse. destruct (Str.cut s "#") as [[u f] ?].
  assert (parse u ≠ Panic) as Hp; [|unfold setFragment; no_panic; exact Hp].
  unfold parse, getScheme. cbv zeta. no_panic.
Qed.
End NoPanic.
