(* ===== verification/KeyUri.v ===== *)
(** * KeyUri: record keys as paths

    A record key is [cckv://<owner>/<segment>/...]; its parent is
    [url.JoinPath(uri, "..")].  On keys whose segments are plain texts the
    parent is the key without its last segment. *)

From S2P Require Import Prelude Bytes Url.
From stdpp Require Import prelude strings list.
From Stdlib Require Import ZArith Lia Ascii.
Open Scope Z_scope.

Definition plain_segment (s : string) : Prop := clean s ∧ s ≠ "" ∧ s ≠ "." ∧ s ≠ "..".

Definition key_path (segs : list string) : string := "/" +:+ Str.join segs "/".
Definition key_uri (owner : string) (segs : list string) : string :=
  "cckv://" +:+ owner +:+ key_path segs.

Lemma clean_lacks_slash s : clean s → lacks "/" s.
Proof. unfold clean. intros H. by_class. Qed.

Lemma join_cons s segs : segs ≠ [] → Str.join (s :: segs) "/" = s +:+ String "/" (Str.join segs "/").
Proof. by destruct segs. Qed.

Lemma split_join segs tl :
  Forall plain_segment segs → segs ≠ [] →
  Str.split (Str.join segs "/" +:+ String "/" tl) "/" = segs ++ Str.split tl "/".
Proof.
  intros Hall Hne. induction Hall as [|s segs [Hc _] Hs IH]; [done|].
  apply clean_lacks_slash in Hc. destruct segs as [|s2 segs].
  - cbn [Str.join String.concat]. by rewrite split_app.
  - rewrite join_cons, str_app_assoc by done. cbn [String.append].
    rewrite split_app by done. by rewrite IH.
Qed.

Lemma clean_rooted_plain acc segs rest :
  Forall plain_segment segs → clean_rooted acc (segs ++ rest) = clean_rooted (rev segs ++ acc) rest.
Proof.
  revert acc. induction segs as [|s segs IH]; intros acc Hall; [done|].
  inversion Hall as [|?? (_ & H1 & H2 & H3) Hs]; subst. cbn [app clean_rooted].
  apply String.eqb_neq in H1, H2, H3. rewrite H1, H2, H3. cbn. rewrite IH by done.
  by rewrite <- app_assoc.
Qed.

Lemma clean_path_join segs : Forall plain_segment segs → clean_path (Str.join segs "/").
Proof.
  unfold clean_path. induction segs as [|s segs IH]; intros Hall; [done|].
  inversion Hall as [|?? [Hc _] Hs]; subst. unfold clean in Hc. destruct segs as [|s2 segs].
  - cbn [Str.join String.concat]. by_class.
  - rewrite join_cons by done. specialize (IH Hs). rewrite str_forallb_app. cbn [Str.forallb].
    rewrite IH. apply andb_true_iff. split; [by_class | done].
Qed.

Lemma clean_key_path segs : Forall plain_segment segs → clean_path (key_path segs).
Proof.
  intros Hs. pose proof (clean_path_join segs Hs) as H. unfold clean_path, key_path in *.
  rewrite str_forallb_app, H. done.
Qed.

Lemma key_path_slash segs : Str.has_prefix (key_path segs) "/" = true.
Proof. apply (has_prefix_app "/"). Qed.

Lemma Forall_removelast {A} (P : A → Prop) l : Forall P l → Forall P (removelast l).
Proof.
  intros H. induction H as [|x l Hx Hl IH]; [constructor|]. cbn. destruct l; [constructor|].
  by constructor.
Qed.

Lemma rev_tail_rev {A} (l : list A) : rev (tail (rev l)) = removelast l.
Proof.
  destruct l as [|x l _] using rev_ind; [done|].
  rewrite rev_app_distr. cbn. by rewrite rev_involutive, removelast_last.
Qed.

Section Parent.
Context `{NetIP}.

Lemma Parse_key owner segs :
  clean owner → Forall plain_segment segs →
  Parse (key_uri owner segs) = Ok (parsed_clean "cckv" None owner (key_path segs)).
Proof.
  intros Ho Hs. apply (Parse_clean "cckv" None owner (key_path segs));
    [by left | exact I | done | by apply clean_key_path | right; apply key_path_slash].
Qed.

Lemma join_rooted_parent segs :
  Forall plain_segment segs → join_rooted (key_path segs) ".." = key_path (removelast segs).
Proof.
  intros Hs. unfold join_rooted, key_path. cbn [String.eqb]. cbn -[Str.split Str.join clean_rooted].
  f_equal. destruct segs as [|s segs]; [done|].
  change (Str.split (String "/" ?s) "/") with ("" :: Str.split s "/").
  rewrite split_join by done. cbn [clean_rooted]. cbn -[clean_rooted Str.join app].
  rewrite clean_rooted_plain by done. rewrite app_nil_r. cbn -[rev Str.join removelast].
  by rewrite rev_tail_rev.
Qed.

Lemma EscapedPath_clean u p : clean_path p → Path u = p → RawPath u = "" → Str.has_prefix p "/" = true →
  EscapedPath u = p.
Proof.
  intros Hp Hu Hr Hs. unfold EscapedPath, raw_is_valid. rewrite Hu, Hr. cbn [negb andb String.eqb].
  assert (escape p encodePath = p) as -> by (apply escape_id; unfold clean_path in Hp; by_class).
  by apply has_prefix_char in Hs as (q & ->).
Qed.

Lemma String_parsed owner p :
  clean owner → owner ≠ "" → clean_path p → Str.has_prefix p "/" = true →
  String_ (parsed_clean "cckv" None owner p) = "cckv://" +:+ owner +:+ p.
Proof.
  intros Ho Hne Hp Hs. unfold String_, parsed_clean. cbn [Opaque Scheme Host User Path OmitHost ForceQuery
    RawQuery Fragment String.eqb negb andb orb fmap option_fmap option_map].
  apply String.eqb_neq in Hne. rewrite Hne. cbn [negb andb].
  rewrite (EscapedPath_clean _ p) by done. rewrite Hs. cbn [negb andb].
  assert (escape owner encodeHost = owner) as ->.
  { apply escape_id. unfold clean in Ho. by_class. }
  rewrite andb_false_r. cbn. by rewrite !str_app_nil_r.
Qed.

(** The parent of a key: the key without its last segment. *)
Lemma JoinPath_parent owner segs :
  clean owner → owner ≠ "" → Forall plain_segment segs →
  JoinPath (key_uri owner segs) ".." = Ok (key_uri owner (removelast segs)).
Proof.
  intros Ho Hne Hs. unfold JoinPath. rewrite Parse_key by done. cbn [mbind result_bind rbind].
  pose proof (Forall_removelast _ _ Hs) as Hs'.
  unfold join_path. rewrite (EscapedPath_clean _ (key_path segs));
    [|by apply clean_key_path|done|done|apply key_path_slash].
  rewrite key_path_slash, join_rooted_parent by done.
  change (Str.has_suffix ".." "/") with false. cbn [andb].
  rewrite setPath_clean by by apply clean_key_path.
  change (set_path_fields _ _ _) with (parsed_clean "cckv" None owner (key_path (removelast segs))).
  rewrite String_parsed; [done..|by apply clean_key_path|apply key_path_slash].
Qed.
End Parent.
