(* ===== verification/Tags.v ===== *)
(** * Tags: the tags of users and servers ([src/impl/tags/tag.go])

    A tag string is a comma-separated list of names, each with an optional
    value.  Operators mark entities and servers with them ([_blocked]), and the
    gateway hands a requester's tags on to the services behind it. *)

From S2P Require Import Prelude KeyUri.
From stdpp Require Import prelude strings gmap list.
From Stdlib Require Import ZArith Lia Ascii.

Definition tag_pair (tag : string) (m : gmap string string) : gmap string string :=
  match Str.split tag ":" with
  | [k] => <[k := ""]> m
  | [k; v] => <[k := v]> m
  | _ => m
  end.

Definition ParseTags (input : string) : gmap string string :=
  foldl (λ m tag, tag_pair tag m) ∅ (Str.split input ",").

Definition Has (t : gmap string string) (key : string) : bool := bool_decide (is_Some (t !! key)).

Definition Add (t : gmap string string) (key value : string) : gmap string string := <[key := value]> t.
Definition Remove (t : gmap string string) (key : string) : gmap string string := delete key t.
Definition Get (t : gmap string string) (key : string) : string := default "" (t !! key).

(** One entry; an empty value is left out. *)
Definition tag_text (p : string * string) : string :=
  fst p +:+ (if String.eqb (snd p) "" then "" else ":" +:+ snd p).

(** The loop of [ToString]: a comma goes before an entry when there is text. *)
Definition add_tag (result : string) (p : string * string) : string :=
  (if String.eqb result "" then result else result +:+ ",") +:+ tag_text p.

Definition ToString (t : gmap string string) : string := foldl add_tag "" (map_to_list t).

(** ** Round trip *)

(** Names and values without separators, names not empty. *)
Definition plain_tag (p : string * string) : Prop :=
  fst p ≠ "" ∧ lacks ":" (fst p) ∧ lacks "," (fst p) ∧ lacks ":" (snd p) ∧ lacks "," (snd p).
Definition plain_tags (t : gmap string string) : Prop := map_Forall (λ k v, plain_tag (k, v)) t.

Lemma tag_text_nonempty p : plain_tag p → tag_text p ≠ "".
Proof. intros (Hk & _). unfold tag_text. destruct (fst p); [done|]. discriminate. Qed.

Lemma tag_text_lacks p : plain_tag p → lacks "," (tag_text p).
Proof.
  intros (_ & _ & Hk & _ & Hv). unfold tag_text, lacks in *. rewrite str_forallb_app, Hk. cbn.
  destruct (String.eqb (snd p) ""); [done|]. exact Hv.
Qed.

Lemma tag_pair_text p m : plain_tag p → tag_pair (tag_text p) m = <[fst p := snd p]> m.
Proof.
  intros (_ & Hk & _ & Hv & _). unfold tag_pair, tag_text. destruct (String.eqb_spec (snd p) "") as [->|].
  - rewrite str_app_nil_r. by rewrite split_lacks.
  - cbn [String.append]. by rewrite split_app, split_lacks.
Qed.

Lemma add_tags_join a l : a ≠ "" → Forall plain_tag l → foldl add_tag a l = Str.join (a :: map tag_text l) ",".
Proof.
  intros Ha Hl. revert a Ha. induction Hl as [|p l Hp Hl IH]; intros a Ha; [done|].
  cbn [foldl map]. unfold add_tag at 2. apply String.eqb_neq in Ha. rewrite Ha, str_app_assoc. rewrite IH.
  - rewrite str_join_app. rewrite (str_join_app "," (tag_text p)). reflexivity.
  - destruct a; [done|discriminate].
Qed.

Lemma ToString_join l : Forall plain_tag l → foldl add_tag "" l = Str.join (map tag_text l) ",".
Proof.
  intros Hl. destruct Hl as [|p l Hp Hl]; [done|]. cbn [foldl map]. unfold add_tag at 2. cbn [String.eqb String.append].
  apply add_tags_join; [by apply tag_text_nonempty|done].
Qed.

Lemma insert_all_fresh (l : list (string * string)) (m : gmap string string) :
  NoDup (fst <$> l) → (∀ k, k ∈ fst <$> l → m !! k = None) →
  foldl (λ m p, <[fst p := snd p]> m) m l = list_to_map l ∪ m.
Proof.
  revert m. induction l as [|[k v] l IH]; intros m Hnd Hm; cbn; [by rewrite (left_id_L ∅ (∪))|].
  apply NoDup_cons in Hnd as [Hk Hnd]. rewrite IH.
  - rewrite <- insert_union_r by by apply not_elem_of_list_to_map. by rewrite insert_union_l.
  - done.
  - intros k' Hk'. rewrite lookup_insert_ne by (intros ->; done). apply Hm. by right.
Qed.

(** tags survive the text they are handed on in, unless there are none. *)
Theorem ToString_Parse t : t ≠ ∅ → plain_tags t → ParseTags (ToString t) = t.
Proof.
  intros Hne Ht. assert (Forall plain_tag (map_to_list t)) as Hl.
  { apply Forall_forall. intros [k v] Hkv%elem_of_map_to_list. by apply Ht. }
  unfold ToString, ParseTags. rewrite ToString_join by done. rewrite split_join_lacks.
  - transitivity (foldl (λ (m : gmap string string) p, <[fst p := snd p]> m) ∅ (map_to_list t)).
    + clear Hne. generalize (∅ : gmap string string). induction Hl as [|p l Hp Hl IH]; intros m; [done|].
      cbn [map foldl]. rewrite tag_pair_text by done. apply IH.
    + rewrite insert_all_fresh.
      * rewrite (right_id_L ∅ (∪)). apply list_to_map_to_list.
      * apply NoDup_fst_map_to_list.
      * intros k _. apply lookup_empty.
  - intros Hnil%map_eq_nil%map_to_list_empty_iff. done.
  - apply Forall_forall. intros s (p & -> & Hp)%list_elem_of_fmap. apply tag_text_lacks.
    by eapply Forall_forall in Hp.
Qed.

Lemma ToString_Parse_witness :
  ToString {["_blocked" := ""; "quota" := "3"]} = "_blocked,quota:3" ∧
  ParseTags (ToString {["_blocked" := ""; "quota" := "3"]}) = {["_blocked" := ""; "quota" := "3"]}.
Proof.
  split; [vm_compute; reflexivity|]. apply ToString_Parse; [done|].
  intros k v. rewrite lookup_insert_Some. intros [[<- <-]|[_ Hl]].
  - split_and!; [done|reflexivity..].
  - apply lookup_singleton_Some in Hl as [<- <-]. split_and!; [done|reflexivity..].
Defined.
