(* ===== verification/Ccuri.v ===== *)
(** * Ccuri: concrnt URIs and identifier tests ([src/utils.go])

    A concrnt URI names a record by owner and key ([cckv]) or an immutable
    object by owner, type and hash ([ccfs]).  The theorems: composing and
    parsing are inverse on clean components, and what [ParseCCURI] accepts
    as a [ccfs] URI always carries a known type and a well-formed blob hash. *)

From S2P Require Import Prelude Bytes Url.
From stdpp Require Import prelude strings list.
From Stdlib Require Import ZArith Lia Ascii.
Open Scope Z_scope.

Definition CCFSTypeConcrnt : string := "concrnt".
Definition CCFSTypeBlob : string := "blob".

Record CCURI : Set := mkCCURI {
  Scheme : string;
  Owner : string;
  Key : string;
  Type_ : string;
  CDID : string;
  Hint : option string;
  Raw : string;
}.

#[global] Instance CCURI_eq_dec : EqDecision CCURI.
Proof. solve_decision. Defined.

Definition String (c : CCURI) : string :=
  if String.eqb (Scheme c) "cckv" then
    let result :=
      match Hint c with
      | Some h => "cckv://" +:+ Owner c +:+ "@" +:+ h +:+ "/" +:+ Key c
      | None => "cckv://" +:+ Owner c +:+ "/" +:+ Key c
      end in
    if String.eqb (Key c) "" then Str.trim_suffix result "/" else result
  else if String.eqb (Scheme c) "ccfs" then
    match Hint c with
    | Some h => "ccfs://" +:+ Owner c +:+ "@" +:+ h +:+ "/" +:+ Type_ c +:+ "/" +:+ CDID c
    | None => "ccfs://" +:+ Owner c +:+ "/" +:+ Type_ c +:+ "/" +:+ CDID c
    end
  else Raw c.

Definition is_hex_char (c : ascii) : bool :=
  char_in "0" "9" c || char_in "a" "f" c || char_in "A" "F" c.

Definition isSha256Hex (s : string) : bool :=
  (Str.len s =? 64)%nat && Str.forallb is_hex_char s.

Definition hasChar (s : string) (c : ascii) : bool := Str.contains_char s c.

Definition is_address (hrp keyID : string) : bool :=
  (Str.len keyID =? 42)%nat && String.eqb (Str.take 3 keyID) hrp && negb (hasChar keyID ".").

Definition IsCCID (keyID : string) : bool := is_address "con" keyID.
Definition IsCSID (keyID : string) : bool := is_address "ccs" keyID.
Definition IsCKID (keyID : string) : bool := is_address "cck" keyID.

(** The type and hash of a [ccfs] path: the flat form names a concrnt object. *)
Definition ccfs_parts (key : string) : result (string * string) :=
  match Str.split key "/" with
  | [p0] =>
      if negb (String.eqb p0 "") && negb (String.eqb p0 CCFSTypeConcrnt) &&
         negb (String.eqb p0 CCFSTypeBlob)
      then Ok (CCFSTypeConcrnt, p0)
      else Err (GoError "invalid ccfs uri: expected ccfs://<owner>/<type>/<hash>")
  | [p0; p1] =>
      if negb (String.eqb p0 "") && negb (String.eqb p1 "") then
        if negb (String.eqb p0 CCFSTypeConcrnt) && negb (String.eqb p0 CCFSTypeBlob) then
          Err (GoError ("invalid ccfs type: " +:+ p0))
        else if String.eqb p0 CCFSTypeBlob && negb (isSha256Hex p1) then
          Err (GoError "invalid ccfs blob hash: expected 64 hex characters")
        else Ok (p0, p1)
      else Err (GoError "invalid ccfs uri: expected ccfs://<owner>/<type>/<hash>")
  | _ => Err (GoError "invalid ccfs uri: expected ccfs://<owner>/<type>/<hash>")
  end.

(** The owner and hint of the authority: [owner@hint], [@alias] or [owner]. *)
Definition owner_hint (uri : Url.URL) : string * option string :=
  match Url.User uri with
  | Some u =>
      if negb (String.eqb (Url.Username u) "") then (Url.Username u, Some (Url.Host uri))
      else ("@" +:+ Url.Host uri, None)
  | None => (Url.Host uri, None)
  end.

Definition map_err {A} (e : error) (r : result A) : result A :=
  match r with Err _ => Err e | r => r end.

Definition ParseCCURI `{Url.NetIP} (escaped : string) : result CCURI :=
  uriString ← map_err (GoError "invalid uri encoding") (Url.QueryUnescape escaped);
  uri ← map_err (GoError "invalid uri") (Url.Parse uriString);
  let path := Url.Path uri in
  let key := Str.trim_prefix path "/" in
  let '(owner, hint) := owner_hint uri in
  owner ← map_err (GoError "invalid owner encoding") (Url.QueryUnescape owner);
  let scheme := Url.Scheme uri in
  if String.eqb scheme "cckv" then Ok (mkCCURI "cckv" owner key "" "" hint uriString)
  else if String.eqb scheme "ccfs" then
    '(ccfsType, hash) ← ccfs_parts key;
    Ok (mkCCURI "ccfs" owner "" ccfsType hash hint uriString)
  else if String.eqb scheme "http" || String.eqb scheme "https" then
    Ok (mkCCURI "http" "" "" "" "" None uriString)
  else if String.eqb scheme "" then Ok (mkCCURI "cckv" path "" "" "" None uriString)
  else Err (GoError ("unsupported uri scheme: " +:+ scheme)).

Definition ComposeCCURI (scheme owner key : string) : string :=
  Url.String_ (Url.mkURL scheme "" None owner key "" false false "" "" "").

Definition ComposeCCFSURI (owner ccfsType hash : string) : string :=
  ComposeCCURI "ccfs" owner (ccfsType +:+ "/" +:+ hash).

(** ** Round trip *)

(** Components that need no escaping: unreserved bytes, and '/' in keys. *)
Definition clean_ccuri (c : CCURI) : Prop :=
  Url.clean (Owner c) ∧ Owner c ≠ "" ∧
  match Hint c with Some h => Url.clean h | None => True end ∧
  ((Scheme c = "cckv" ∧ Url.clean_path (Key c) ∧ Type_ c = "" ∧ CDID c = "") ∨
   (Scheme c = "ccfs" ∧ Key c = "" ∧ Url.clean (CDID c) ∧ CDID c ≠ "" ∧
    (Type_ c = CCFSTypeConcrnt ∨ (Type_ c = CCFSTypeBlob ∧ isSha256Hex (CDID c) = true)))).

Definition with_raw (c : CCURI) (raw : string) : CCURI :=
  mkCCURI (Scheme c) (Owner c) (Key c) (Type_ c) (CDID c) (Hint c) raw.

(** The path part of the text, and the authority's user and host. *)
Definition text_path (c : CCURI) : string :=
  if String.eqb (Scheme c) "ccfs" then "/" +:+ Type_ c +:+ "/" +:+ CDID c
  else if String.eqb (Key c) "" then "" else "/" +:+ Key c.

Definition text_user (c : CCURI) : option string :=
  match Hint c with Some _ => Some (Owner c) | None => None end.

Definition text_host (c : CCURI) : string := default (Owner c) (Hint c).

Lemma String_parts c :
  clean_ccuri c →
  String c = Scheme c +:+ "://" +:+ Url.authority (text_user c) (text_host c) +:+ text_path c.
Proof.
  destruct c as [scheme owner key type_ cdid hint raw].
  unfold clean_ccuri, String, text_path, text_user, text_host. cbn -[String.append Str.trim_suffix].
  intros (_ & _ & _ & [(-> & _ & -> & ->) | (-> & -> & _ & _ & _)]); destruct hint as [h|];
    cbn -[String.append Str.trim_suffix]; rewrite ?str_app_assoc; try done.
  all: destruct (String.eqb key "") eqn:E; [apply String.eqb_eq in E as ->|done].
  all: rewrite !str_app_nil_r, <- !str_app_assoc, trim_suffix_app; by rewrite ?str_app_assoc.
Qed.

Lemma ccuri_parse `{Url.NetIP} c :
  clean_ccuri c →
  Url.QueryUnescape (String c) = Ok (String c) ∧
  Url.Parse (String c) =
    Ok (Url.parsed_clean (Scheme c) (text_user c) (text_host c) (text_path c)).
Proof.
  intros Hc. rewrite (String_parts c Hc).
  destruct Hc as (Ho & _ & Hh & Hk).
  assert (Url.known_scheme (Scheme c)) as Hs by (destruct Hk as [(-> & _) | (-> & _)]; [by left | by right]).
  assert (Url.clean_user (text_user c)) as Hu by (unfold text_user; by destruct (Hint c)).
  assert (Url.clean (text_host c)) as Hho by (unfold text_host; by destruct (Hint c)).
  assert (Url.clean_path (text_path c)) as Hp.
  { unfold text_path, Url.clean_path, Url.clean in *.
    destruct Hk as [(-> & Hk & _) | (-> & _ & Hd & _ & [-> | [-> _]])]; cbn -[String.append];
      [destruct (String.eqb (Key c) ""); [done|]; by_class | by_class | by_class]. }
  assert (text_path c = "" ∨ Str.has_prefix (text_path c) "/" = true) as Hslash.
  { unfold text_path. destruct (String.eqb (Scheme c) "ccfs"); [right; apply has_prefix_app|].
    destruct (String.eqb (Key c) ""); [by left | right; apply has_prefix_app]. }
  split; [|by apply Url.Parse_clean].
  apply Url.unescape_copied. pose proof (Url.clean_authority_class _ _ Hu Hho) as Ha.
  unfold Url.clean_path in Hp. destruct Hs as [-> | ->]; by_class.
Qed.

Lemma owner_hint_parsed c :
  Owner c ≠ "" →
  owner_hint (Url.parsed_clean (Scheme c) (text_user c) (text_host c) (text_path c)) =
    (Owner c, Hint c).
Proof.
  intros Ho. unfold owner_hint, text_user, text_host. destruct (Hint c) as [h|]; [|done].
  cbn. by destruct (String.eqb_spec (Owner c) "").
Qed.

Lemma ccfs_parts_ok ty h :
  Url.clean h → h ≠ "" → ty = CCFSTypeConcrnt ∨ (ty = CCFSTypeBlob ∧ isSha256Hex h = true) →
  ccfs_parts (ty +:+ "/" +:+ h) = Ok (ty, h).
Proof.
  intros Hc Hne Hty. unfold ccfs_parts. change ("/" +:+ h) with (String.String "/" h).
  rewrite split_app, split_lacks by (unfold Url.clean in *; destruct Hty as [-> | [-> _]]; by_class).
  apply String.eqb_neq in Hne. rewrite Hne.
  by destruct Hty as [-> | [-> ->]].
Qed.

(** a concrnt URI with clean components is read back from its text with
    every component unchanged ([Raw] becomes the text). *)
Theorem ParseCCURI_String `{Url.NetIP} c :
  clean_ccuri c → ParseCCURI (String c) = Ok (with_raw c (String c)).
Proof.
  intros Hc. destruct (ccuri_parse c Hc) as [Hq Hp].
  unfold ParseCCURI. rewrite Hq. cbn [map_err mbind result_bind rbind]. rewrite Hp.
  cbn [map_err mbind result_bind rbind].
  destruct Hc as (Ho & Hne & _ & Hk). rewrite owner_hint_parsed by done.
  unfold Url.QueryUnescape. rewrite Url.unescape_clean by done. cbn [map_err mbind result_bind rbind].
  unfold with_raw, text_path. cbn [Url.parsed_clean Url.Path Url.Scheme].
  destruct Hk as [(-> & _ & -> & ->) | (-> & -> & Hd & Hdne & Hty)]; cbn [String.eqb Ascii.eqb Bool.eqb].
  - destruct (String.eqb_spec (Key c) "") as [->|]; [done|]. by rewrite trim_prefix_app.
  - rewrite trim_prefix_app, ccfs_parts_ok by done. done.
Qed.

Lemma ParseCCURI_String_witness :
  let c := mkCCURI "ccfs" "con1qabc" "" "concrnt" "0r1s2t" (Some "example.com") "" in
  @ParseCCURI (λ _, false) (String c) = Ok (with_raw c (String c)).
Proof.
  apply (@ParseCCURI_String (λ _, false)
    (mkCCURI "ccfs" "con1qabc" "" "concrnt" "0r1s2t" (Some "example.com") "")).
  unfold clean_ccuri. cbn [Owner Hint Scheme Key CDID Type_].
  split; [reflexivity|]. split; [discriminate|]. split; [reflexivity|].
  right. split; [reflexivity|]. split; [reflexivity|]. split; [reflexivity|].
  split; [discriminate|]. left. reflexivity.
Defined.

(** whatever text [ParseCCURI] accepts, the result has one of the three
    schemes, and a [ccfs] result has a known type, a non-empty hash and, for a
    blob, 64 hexadecimal characters. *)
Theorem ParseCCURI_sound `{Url.NetIP} s c :
  ParseCCURI s = Ok c →
  (Scheme c = "cckv" ∧ Type_ c = "" ∧ CDID c = "") ∨
  (Scheme c = "http" ∧ Owner c = "" ∧ Key c = "" ∧ CDID c = "") ∨
  (Scheme c = "ccfs" ∧ Key c = "" ∧ CDID c ≠ "" ∧
   (Type_ c = CCFSTypeConcrnt ∨ (Type_ c = CCFSTypeBlob ∧ isSha256Hex (CDID c) = true))).
Proof.
  unfold ParseCCURI. intros Hp. apply rbind_ok_inv in Hp as (u & _ & Hp).
  apply rbind_ok_inv in Hp as (uri & _ & Hp).
  destruct (owner_hint uri) as [owner hint].
  apply rbind_ok_inv in Hp as (o & _ & Hp).
  destruct (String.eqb (Url.Scheme uri) "cckv"); [injection Hp as <-; auto|].
  destruct (String.eqb (Url.Scheme uri) "ccfs").
  - apply rbind_ok_inv in Hp as ([ty h] & Hparts & Hp). injection Hp as <-.
    right. right. cbn. revert Hparts. unfold ccfs_parts.
    destruct (Str.split _ "/") as [|p0 [|p1 [|? ?]]]; try done.
    + destruct (String.eqb_spec p0 ""); cbn; [done|].
      destruct (String.eqb p0 CCFSTypeConcrnt), (String.eqb p0 CCFSTypeBlob); cbn; try done.
      intros [= <- <-]. auto.
    + destruct (String.eqb_spec p0 ""), (String.eqb_spec p1 ""); cbn; try done.
      destruct (String.eqb_spec p0 CCFSTypeConcrnt) as [->|]; cbn; [intros [= <- <-]; auto|].
      destruct (String.eqb_spec p0 CCFSTypeBlob) as [->|]; cbn; [|done].
      destruct (isSha256Hex p1) eqn:E; cbn; [|done]. intros [= <- <-]. auto 7.
  - repeat case_match; simplify_eq; cbn; auto 7.
Qed.

Lemma ParseCCURI_sound_witness :
  let c := mkCCURI "ccfs" "con1qabc" "" "concrnt" "0r1s2t" None "ccfs://con1qabc/0r1s2t" in
  (Scheme c = "cckv" ∧ Type_ c = "" ∧ CDID c = "") ∨
  (Scheme c = "http" ∧ Owner c = "" ∧ Key c = "" ∧ CDID c = "") ∨
  (Scheme c = "ccfs" ∧ Key c = "" ∧ CDID c ≠ "" ∧
   (Type_ c = CCFSTypeConcrnt ∨ (Type_ c = CCFSTypeBlob ∧ isSha256Hex (CDID c) = true))).
Proof.
  apply (@ParseCCURI_sound (λ _, false) "ccfs://con1qabc/0r1s2t"). vm_compute. reflexivity.
Defined.

Lemma map_err_no_panic {A} e (r : result A) : r ≠ Panic → map_err e r ≠ Panic.
Proof. by destruct r. Qed.

Lemma ParseCCURI_no_panic `{Url.NetIP} s : ParseCCURI s ≠ Panic.
Proof.
  unfold ParseCCURI, Url.QueryUnescape.
  apply Url.rbind_no_panic; [apply map_err_no_panic, Url.unescape_no_panic|]. intros t.
  apply Url.rbind_no_panic; [apply map_err_no_panic, Url.Parse_no_panic|]. intros u.
  destruct (owner_hint u) as [owner hint]. apply Url.rbind_no_panic; [apply map_err_no_panic, Url.unescape_no_panic|]. intros ow.
  unfold ccfs_parts. Url.no_panic.
Qed.

(** The owner a text names, when it parses. *)
Definition owner_of `{Url.NetIP} (s : string) : option string :=
  match ParseCCURI s with Ok c => Some (Owner c) | _ => None end.
