(* ===== verification/Documents.v ===== *)
(** * Documents: documents, proofs, events and domain values

    The data types of [src/types.go], [src/schemas] and [src/internal/domain],
    and the operations of [types.go] on them.  JSON encoding and decoding is
    the class [Json]; hashing is the class [Keccak].  [any_] is Go's dynamic
    [any] as the JSON decoder and the policy evaluator produce it. *)

From S2P Require Import Prelude Bytes Url Ccuri Cdid.
From stdpp Require Import prelude strings gmap list.
From Stdlib Require Import ZArith Lia Ascii SpecFloat.
Open Scope Z_scope.

(** ** Dynamic values *)

Inductive any_ : Type :=
| ANil
| ABool (b : bool)
| AStr (s : string)
| ANum (f : spec_float)
| AList (l : list any_)
| AMap (m : gmap string any_).

(** [==] on two interface values: different dynamic types are different;
    comparing two slices or two maps panics ([None]). *)
Definition any_eq (a b : any_) : option bool :=
  match a, b with
  | ANil, ANil => Some true
  | ABool x, ABool y => Some (Bool.eqb x y)
  | AStr x, AStr y => Some (String.eqb x y)
  | ANum x, ANum y => Some (SFeqb x y)
  | AList _, AList _ => None
  | AMap _, AMap _ => None
  | _, _ => Some false
  end.

(** ** [src/types.go] *)

Definition ProofTypeEcrecover : string := "concrnt-ecrecover-direct".
Definition ProofTypeDocumentReference : string := "document-reference".
Definition ProofTypeDocumentDirect : string := "document-direct".
Definition ProofTypeSubkey : string := "concrnt-ecrecover-subkey".
Definition ProofTypeNone : string := "none".

Record PolicyEntry : Type := mkPolicyEntry {
  pe_URL : option string;
  pe_Params : option (gmap string any_);
  pe_Defaults : option (gmap string string);
  pe_Errored : bool;
}.

Record Policy : Type := mkPolicy {
  pol_Entries : list PolicyEntry;
  pol_VirtualParents : option (list string);
  pol_Source : string;
}.

Record Document (T : Type) : Type := mkDocument {
  Kind : string;
  Key : string;
  Value : T;
  Author : string;
  Schema : string;
  CreatedAt : Z;
  OnUpdate : option string;
  Distributes : option (list string);
  Associate : option string;
  AssociationVariant : option string;
  doc_Policy : option Policy;
}.
Arguments mkDocument {T}.
Arguments Kind {T}. Arguments Key {T}. Arguments Value {T}. Arguments Author {T}.
Arguments Schema {T}. Arguments CreatedAt {T}. Arguments OnUpdate {T}.
Arguments Distributes {T}. Arguments Associate {T}. Arguments AssociationVariant {T}.
Arguments doc_Policy {T}.

Definition with_kind {T} (d : Document T) (k : string) : Document T :=
  mkDocument k (Key d) (Value d) (Author d) (Schema d) (CreatedAt d) (OnUpdate d)
    (Distributes d) (Associate d) (AssociationVariant d) (doc_Policy d).

Definition with_value {T U} (d : Document T) (v : U) : Document U :=
  mkDocument (Kind d) (Key d) v (Author d) (Schema d) (CreatedAt d) (OnUpdate d)
    (Distributes d) (Associate d) (AssociationVariant d) (doc_Policy d).

Inductive Proof_ : Type := mkProof {
  pr_Type : string;
  pr_Signature : option string;
  pr_Href : option string;
  pr_Key : option string;
  pr_Document : option string;
  pr_Proof : option Proof_;
}.

Inductive SignedDocument : Type := mkSignedDocument {
  CCKV : option string;
  CCFS : option string;
  sd_Document : string;
  sd_Proof : Proof_;
  References : gmap string SignedDocument;
  IsPublic : option bool;
}.

(** [Proof{}], [SignedDocument{}] and a document with only its proof. *)
Definition zero_proof : Proof_ := mkProof "" None None None None None.
Definition signed (doc : string) (proof : Proof_) : SignedDocument :=
  mkSignedDocument None None doc proof ∅ None.
Definition zero_signed_document : SignedDocument := signed "" zero_proof.

Definition with_public (sd : SignedDocument) (p : option bool) : SignedDocument :=
  mkSignedDocument (CCKV sd) (CCFS sd) (sd_Document sd) (sd_Proof sd) (References sd) p.

Definition with_references (sd : SignedDocument) (refs : gmap string SignedDocument) : SignedDocument :=
  mkSignedDocument (CCKV sd) (CCFS sd) (sd_Document sd) (sd_Proof sd) refs (IsPublic sd).

Record QueryResult : Type := mkQueryResult {
  Items : list SignedDocument;
  Prev : option string;
  Next : option string;
}.

Record Event : Type := mkEvent {
  ev_Type : string;
  ev_Source : string;
  ev_URI : string;
  ev_Association : option string;
  ev_References : gmap string SignedDocument;
  ev_Timestamp : Z;
}.

Definition with_event_references (e : Event) (refs : gmap string SignedDocument) : Event :=
  mkEvent (ev_Type e) (ev_Source e) (ev_URI e) (ev_Association e) refs (ev_Timestamp e).

(** ** [src/schemas] *)

Definition EntityURL : string := "https://schema.concrnt.net/entity.json".
Definition SubkeyURL : string := "https://schema.concrnt.net/subkey.json".
Definition RevokedSubkeyURL : string := "https://schema.concrnt.net/revoked-subkey.json".
Definition ReferenceURL : string := "https://schema.concrnt.net/reference.json".

Record Reference : Type := mkReference {
  ref_Href : string;
  ref_Schema : option string;
  ref_CreatedAt : option Z;
}.

Record Subkey : Type := mkSubkey { CKID : string }.

Record EntityValue : Type := mkEntityValue {
  ent_Domain : string;
  ent_Alias : option string;
  ent_AliasProofType : option string;
}.

(** ** Encoding and hashing

    [unmarshal_document] is [json.Unmarshal] into a [Document[any]];
    decoding into a document with a typed value also decodes the value. *)

Class Json := {
  unmarshal_document : string → result (Document any_);
  marshal_document : Document any_ → result string;
  decode_subkey : any_ → result Subkey;
  decode_reference : any_ → result Reference;
  decode_signed_document : any_ → result SignedDocument;
  decode_entity : any_ → result EntityValue;
  decode_delete : any_ → result string;
}.

Definition unmarshal_typed `{Json} {T} (dec : any_ → result T) (s : string) : result (Document T) :=
  d ← unmarshal_document s;
  v ← dec (Value d);
  Ok (with_value d v).

(** [GetHash]: Keccak-256 of golang.org/x/crypto. *)
Class Keccak := keccak256 : string → list Z.

Definition GetHash `{Keccak} (bytes : string) : list Z := keccak256 bytes.

(** [hash10] and [cdid.New(hash10, t)] of a document's text. *)
Definition document_cdid `{Keccak} (doc : string) (createdAt : Z) : string :=
  Cdid.String (Cdid.New (take 10 (GetHash doc)) createdAt).

Definition ParsedDocument `{Json} (sd : SignedDocument) : result (Document any_) :=
  unmarshal_document (sd_Document sd).

Definition CDID_ `{Json} `{Keccak} (sd : SignedDocument) : result string :=
  doc ← ParsedDocument sd;
  Ok (document_cdid (sd_Document sd) (CreatedAt doc)).

Definition acked_kind (kind : string) : option string :=
  if String.eqb kind "ack" then Some "acked"
  else if String.eqb kind "unack" then Some "unacked"
  else None.

Definition DeriveAcked `{Json} (sd : SignedDocument) : result SignedDocument :=
  doc ← ParsedDocument sd;
  match acked_kind (Kind doc) with
  | None => Err (GoError "acked documents can only be derived from ack/unack documents")
  | Some k =>
      derived ← marshal_document (with_kind doc k);
      Ok (signed derived
            (mkProof ProofTypeDocumentDirect None None None (Some (sd_Document sd)) (Some (sd_Proof sd))))
  end.

(** ** Public views of events *)

Definition is_public (sd : SignedDocument) : bool := bool_decide (IsPublic sd = Some true).

(** A nested document that is kept: flags and deeper references removed. *)
Definition nested_view (sd : SignedDocument) : option SignedDocument :=
  if is_public sd then Some (with_references (with_public sd None) ∅) else None.

Definition public_view (sd : SignedDocument) : option SignedDocument :=
  if is_public sd then
    Some (with_references (with_public sd None) (omap nested_view (References sd)))
  else None.

Definition PublicView (e : Event) : Event :=
  if decide (ev_References e = ∅) then e
  else with_event_references e (omap public_view (ev_References e)).

Definition MarkAllPublic (e : Event) : Event :=
  if decide (ev_References e = ∅) then e
  else with_event_references e
    ((λ sd, with_references (with_public sd (Some true))
        ((λ n, with_public n (Some true)) <$> References sd)) <$> ev_References e).

Fixpoint StripInternalFlags (sd : SignedDocument) : SignedDocument :=
  match sd with
  | mkSignedDocument cckv ccfs doc proof refs _ =>
      mkSignedDocument cckv ccfs doc proof (StripInternalFlags <$> refs) None
  end.

(** ** Depth and flags

    [unflagged n] says that no document of the tree, down to [n] levels of
    references, carries the internal flag; [flagless] says it of every level. *)

Inductive flagless : SignedDocument → Prop :=
| flagless_intro cckv ccfs doc proof refs :
    (∀ uri sd, refs !! uri = Some sd → flagless sd) →
    flagless (mkSignedDocument cckv ccfs doc proof refs None).

(** Induction over the reference tree. *)
Definition refs_size (size : SignedDocument → nat) (refs : gmap string SignedDocument) : nat :=
  map_fold (λ _ sd n, size sd + n)%nat 0%nat refs.

Fixpoint sd_size (sd : SignedDocument) : nat :=
  match sd with
  | mkSignedDocument _ _ _ _ refs _ => S (map_fold (λ _ sd n, sd_size sd + n)%nat 0%nat refs)
  end.

Lemma refs_size_lookup (size : SignedDocument → nat) refs uri sd :
  refs !! uri = Some sd →
  refs_size size refs = (size sd + refs_size size (delete uri refs))%nat.
Proof. intros Hl. unfold refs_size. apply (map_fold_delete_L (λ _ sd n, size sd + n)%nat); [lia | done]. Qed.

Lemma sd_ind (P : SignedDocument → Prop) :
  (∀ cckv ccfs doc proof refs pub,
    (∀ uri sd, refs !! uri = Some sd → P sd) →
    P (mkSignedDocument cckv ccfs doc proof refs pub)) →
  ∀ sd, P sd.
Proof.
  intros Hstep sd. remember (sd_size sd) as n eqn:En. revert sd En.
  induction (lt_wf n) as [n _ IH]. intros [cckv ccfs doc proof refs pub] ->.
  apply Hstep. intros uri sd Hl. apply (IH (sd_size sd)); [|done].
  pose proof (refs_size_lookup sd_size refs uri sd Hl). cbn [sd_size].
  unfold refs_size in *. lia.
Qed.

(** What a reader of the public view sees of a document. *)
Definition public_at (refs : gmap string SignedDocument) (uri : string) (sd : SignedDocument) : Prop :=
  refs !! uri = Some sd ∧ IsPublic sd = Some true.

Lemma lookup_public_view e uri sd' :
  ev_References (PublicView e) !! uri = Some sd' ↔
  ∃ sd, public_at (ev_References e) uri sd ∧
    sd' = with_references (with_public sd None) (omap nested_view (References sd)).
Proof.
  unfold PublicView, public_at. case_decide as He.
  - rewrite He. split; [by rewrite lookup_empty|]. intros (sd & [H _] & _). by rewrite lookup_empty in H.
  - cbn. rewrite lookup_omap_Some. unfold public_view, is_public. split.
    + intros (sd & Hv & Hl). exists sd. case_bool_decide; naive_solver.
    + intros (sd & [Hl Hp] & ->). exists sd. by rewrite bool_decide_true.
Qed.

Lemma lookup_nested_view refs uri n' :
  omap nested_view refs !! uri = Some n' ↔
  ∃ n, public_at refs uri n ∧ n' = with_references (with_public n None) ∅.
Proof.
  rewrite lookup_omap_Some. unfold nested_view, is_public, public_at. split.
  - intros (n & Hv & Hl). exists n. case_bool_decide; naive_solver.
  - intros (n & [Hl Hp] & ->). exists n. by rewrite bool_decide_true.
Qed.

(** the public view of an event fails closed and is complete: a document
    appears exactly when it was marked public, a nested one exactly when it and
    its parent were, nothing appears below that, texts and proofs are those
    of the event, and no flag is left anywhere. *)
Theorem PublicView_exact e :
  (∀ uri, (∃ sd', ev_References (PublicView e) !! uri = Some sd') ↔
          ∃ sd, public_at (ev_References e) uri sd) ∧
  (∀ uri sd', ev_References (PublicView e) !! uri = Some sd' →
     flagless sd' ∧
     ∃ sd, public_at (ev_References e) uri sd ∧
       sd_Document sd' = sd_Document sd ∧ sd_Proof sd' = sd_Proof sd ∧
       ∀ nested, (∃ n', References sd' !! nested = Some n') ↔
                 ∃ n, public_at (References sd) nested n) ∧
  (∀ uri sd' nested n', ev_References (PublicView e) !! uri = Some sd' →
     References sd' !! nested = Some n' →
     References n' = ∅ ∧
     ∃ sd n, public_at (ev_References e) uri sd ∧ public_at (References sd) nested n ∧
       sd_Document n' = sd_Document n ∧ sd_Proof n' = sd_Proof n).
Proof.
  split; [|split].
  - intros uri. setoid_rewrite lookup_public_view. naive_solver.
  - intros uri sd' (sd & Hp & ->)%lookup_public_view. split.
    + constructor. intros nested n' (n & _ & ->)%lookup_nested_view.
      constructor. intros u s Hl. by rewrite lookup_empty in Hl.
    + exists sd. split; [done|]. split; [done|]. split; [done|].
      intros nested. cbn. setoid_rewrite lookup_nested_view. naive_solver.
  - intros uri sd' nested n' (sd & Hp & ->)%lookup_public_view (n & Hn & ->)%lookup_nested_view.
    split; [done|]. by exists sd, n.
Qed.

Definition example_proof : Proof_ := mkProof ProofTypeNone None None None None None.

Lemma PublicView_exact_witness :
  let private := mkSignedDocument None None "private" example_proof ∅ (Some false) in
  let public := mkSignedDocument None None "public" example_proof {["n" := private]} (Some true) in
  let e := mkEvent "created" "" "cckv://a/k" None {["p" := public; "q" := private]} 0 in
  map_to_list (sd_Document <$> ev_References (PublicView e)) = [("p", "public")] ∧
  (∃ sd', ev_References (PublicView e) !! "p" = Some sd' ∧ References sd' = ∅) ∧
  ((∃ sd', ev_References (PublicView e) !! "q" = Some sd') ↔
   ∃ sd, public_at (ev_References e) "q" sd).
Proof.
  intros private public e. split; [reflexivity|]. split.
  - eexists. split; reflexivity.
  - apply (PublicView_exact e).
Defined.

(** marking every document public and taking the public view keeps the whole
    event down to two levels: exactly its documents, with their texts. *)
Theorem PublicView_MarkAllPublic e :
  sd_Document <$> ev_References (PublicView (MarkAllPublic e)) = sd_Document <$> ev_References e ∧
  ∀ uri sd sd',
    ev_References e !! uri = Some sd →
    ev_References (PublicView (MarkAllPublic e)) !! uri = Some sd' →
    sd_Document <$> References sd' = sd_Document <$> References sd.
Proof.
  assert (∀ uri, ev_References (PublicView (MarkAllPublic e)) !! uri =
    (λ sd, with_references (with_public sd None)
       ((λ n, with_references (with_public n None) ∅) <$> References sd)) <$> (ev_References e !! uri)) as Hl.
  { intros uri. apply option_eq. intros sd'. rewrite lookup_public_view. unfold public_at, MarkAllPublic.
    assert (∀ refs : gmap string SignedDocument,
      omap nested_view ((λ n, with_public n (Some true)) <$> refs) =
      (λ n, with_references (with_public n None) ∅) <$> refs) as Hn.
    { intros refs. apply map_eq. intros k. rewrite lookup_omap, !lookup_fmap.
      by destruct (refs !! k). }
    case_decide as He.
    - rewrite He. setoid_rewrite lookup_empty. naive_solver.
    - cbn. setoid_rewrite lookup_fmap. destruct (ev_References e !! uri) as [sd|]; cbn.
      + split.
        * intros (? & [[= <-] _] & ->). cbn. by rewrite Hn.
        * intros [= <-]. eexists. split; [done|]. cbn. by rewrite Hn.
      + naive_solver. }
  split.
  { apply map_eq. intros uri. rewrite !lookup_fmap, Hl. by destruct (ev_References e !! uri). }
  intros uri sd sd' Hsd. rewrite Hl, Hsd. intros [= <-]. cbn.
  apply map_eq. intros k. rewrite !lookup_fmap. by destruct (References sd !! k).
Qed.

Lemma PublicView_MarkAllPublic_witness :
  let sd := mkSignedDocument None None "doc" example_proof ∅ None in
  let e := mkEvent "created" "" "cckv://a/k" None {["p" := sd]} 0 in
  sd_Document <$> ev_References (PublicView (MarkAllPublic e)) = {["p" := "doc"]}.
Proof.
  intros sd e. rewrite (proj1 (PublicView_MarkAllPublic e)). reflexivity.
Defined.

(** stripping leaves no internal flag at any depth, changes nothing in a
    document that has none, and keeps the text and proof. *)
Theorem StripInternalFlags_flagless sd :
  flagless (StripInternalFlags sd) ∧
  (flagless sd → StripInternalFlags sd = sd) ∧
  StripInternalFlags (StripInternalFlags sd) = StripInternalFlags sd ∧
  sd_Document (StripInternalFlags sd) = sd_Document sd ∧
  sd_Proof (StripInternalFlags sd) = sd_Proof sd.
Proof.
  assert (∀ s, flagless (StripInternalFlags s)) as Hfl.
  { intros s. induction s as [cckv ccfs doc proof refs pub IH] using sd_ind.
    constructor. intros uri s. rewrite lookup_fmap_Some. intros (s0 & <- & Hl). by eapply IH. }
  assert (∀ s, flagless s → StripInternalFlags s = s) as Hid.
  { induction 1 as [cckv ccfs doc proof refs _ IH]. cbn. f_equal.
    apply map_eq. intros uri. rewrite lookup_fmap.
    destruct (refs !! uri) as [s|] eqn:E; [|done]. cbn. by rewrite (IH uri). }
  split; [done|]. split; [apply Hid|]. split; [apply Hid, Hfl|]. by destruct sd.
Qed.

Lemma StripInternalFlags_flagless_witness :
  let sd := mkSignedDocument None None "doc" example_proof ∅ None in
  StripInternalFlags sd = sd.
Proof.
  intros sd. apply (proj1 (proj2 (StripInternalFlags_flagless sd))).
  constructor. intros uri s Hl. by rewrite lookup_empty in Hl.
Defined.
