(* ===== verification/Verify.v ===== *)
(** * Verify: signatures and proof chains ([src/crypto.go], [src/verify.go])

    A signed document is accepted by a recoverable signature of its author, by
    a subkey the author enacted, by reference to an accepted document of the
    same author, or (for acked documents) by embedding the accepted original.
    [verify] follows the code with its depth counter; [authorised] is the
    specification, one rule per way of being accepted.  Signature recovery,
    key compression and bech32 are the class [Secp256k1]. *)

From S2P Require Import Prelude Bytes Url Ccuri Cdid Documents.
From stdpp Require Import prelude strings gmap list.
From Stdlib Require Import ZArith Lia Ascii.
Open Scope Z_scope.

(** ** [src/crypto.go] *)

Class Secp256k1 := {
  (** [crypto.Ecrecover] of go-ethereum: hash and signature to public key. *)
  Ecrecover : list Z → list Z → result (list Z);
  (** [secec.NewPublicKey] and [CompressedBytes]; [None] is its error. *)
  compress : list Z → option (list Z);
  (** [secp256k1.PubKey.Address] of cosmos-sdk. *)
  pubkey_address : list Z → list Z;
  (** [Bech32Codec.BytesToString]. *)
  bech32_encode : string → list Z → result string;
}.

(** [hex.DecodeString]: pairs of hexadecimal characters. *)
Fixpoint hex_decode (s : string) : result (list Z) :=
  match s with
  | EmptyString => Ok []
  | String a (String b rest) =>
      match Url.unhex a, Url.unhex b with
      | Some h, Some l => t ← hex_decode rest; Ok (h * 16 + l :: t)
      | _, _ => Err (GoError "encoding/hex: invalid byte")
      end
  | String _ EmptyString => Err (GoError "encoding/hex: odd length hex string")
  end.

Section Crypto.
Context `{Keccak} `{Secp256k1}.

Definition wrap {A} (text : string) (r : result A) : result A :=
  match r with Err e => Err (Joined (GoError text) e) | r => r end.

Definition PubkeyBytesToAddr (pubkeyBytes : list Z) (hrp : string) : result string :=
  wrap "failed to convert address" (bech32_encode hrp (pubkey_address pubkeyBytes)).

(** A recovered key that does not parse makes the function panic. *)
Definition VerifySignature (message : string) (signature : list Z) (address : string) : result unit :=
  if negb (Str.len address =? 42)%nat then Err (GoError "invalid address length")
  else
    let hashed := GetHash message in
    recoveredPub ← wrap "failed to recover public key" (Ecrecover hashed signature);
    match compress recoveredPub with
    | None => Panic
    | Some compressed =>
        let hrp := Str.take 3 address in
        sigaddr ← wrap "failed to convert public key to address" (PubkeyBytesToAddr compressed hrp);
        if negb (String.eqb sigaddr address)
        then Err (GoError "signature is not matched with address")
        else Ok tt
    end.

Definition PubkeyToAddr (pubkeyHex hrp : string) : result string :=
  pubKeyBytes ← wrap "failed to decode public key" (hex_decode pubkeyHex);
  PubkeyBytesToAddr pubKeyBytes hrp.

End Crypto.

(** What a holder of a private key computes with it. *)
Class Signer := {
  PrivateKey : Type;
  (** [crypto.HexToECDSA] and [crypto.Sign] of go-ethereum. *)
  HexToECDSA : string → result PrivateKey;
  Sign : list Z → PrivateKey → result (list Z);
  (** [secp256k1.PrivKey.PubKey], its bytes. *)
  privkey_pubkey : list Z → list Z;
}.

Section Signing.
Context `{Keccak} `{Secp256k1} `{Signer}.

Definition SignBytes (bytes : string) (privatekey : string) : result (list Z) :=
  key ← wrap "failed to convert private key" (HexToECDSA privatekey);
  wrap "failed to sign message" (Sign (GetHash bytes) key).

Definition PrivKeyToAddr (privKeyHex hrp : string) : result string :=
  if negb (Str.len privKeyHex =? 64)%nat then Err (GoError "invalid private key length")
  else
    privKeyBytes ← wrap "failed to decode private key" (hex_decode privKeyHex);
    PubkeyBytesToAddr (privkey_pubkey privKeyBytes) hrp.

End Signing.

(** ** [src/verify.go] *)

Definition maxVerifyDepth : nat := 4.

(** [DocumentResolver]; [None] is the nil interface. *)
Definition Resolver : Type := option (string → result SignedDocument).

Definition required {A} (text : string) (o : option A) : result A :=
  of_option (GoError text) o.

Definition guard (b : bool) (e : error) : result unit := if b then Ok tt else Err e.

Section Verify.
Context `{Url.NetIP} `{Json} `{Keccak} `{Secp256k1} (resolver : Resolver).

Definition resolve (sd : SignedDocument) (uri : string) : result SignedDocument :=
  match References sd !! uri with
  | Some ref => Ok ref
  | None =>
      match resolver with
      | None => Err (GoError "no resolver available to fetch referenced document")
      | Some f => f uri
      end
  end.

Section Body.
(** The recursive call, one level deeper. *)
Context (rec : SignedDocument → option (list string) → result unit).

Definition verify_hex_signature (text : string) (signature : string) (address : string) : result unit :=
  signatureBytes ← wrap "invalid signature format" (hex_decode signature);
  match VerifySignature text signatureBytes address with
  | Err e => Err (Joined ErrSignatureVerificationFailed e)
  | r => r
  end.

Definition verify_ecrecover (sd : SignedDocument) (doc : Document any_) : result unit :=
  sig ← required "signature is required for ecrecover proof" (pr_Signature (sd_Proof sd));
  verify_hex_signature (sd_Document sd) sig (Author doc).

(** The enact document a subkey proof rests on, and the end of its validity. *)
Definition subkey_enact (subKeySD : SignedDocument) (doc : Document any_) : result (Document Subkey * option Z) :=
  keyDoc ← wrap "failed to decode subkey document" (unmarshal_document (sd_Document subKeySD));
  if String.eqb (Schema keyDoc) SubkeyURL then
    enactDoc ← wrap "failed to decode subkey enact document"
                 (unmarshal_typed decode_subkey (sd_Document subKeySD));
    Ok (enactDoc, None)
  else if String.eqb (Schema keyDoc) RevokedSubkeyURL then
    revokedDoc ← wrap "failed to decode revoked-subkey document"
                   (unmarshal_typed decode_signed_document (sd_Document subKeySD));
    _ ← guard (String.eqb (Author revokedDoc) (Author doc))
          (GoError "revoked-subkey document author does not match signed document author");
    let enactSD := Value revokedDoc in
    _ ← wrap "enact document embedded in revoked-subkey failed verification"
          (rec enactSD (Some [ProofTypeEcrecover]));
    enactDoc ← wrap "failed to decode enact document embedded in revoked-subkey"
                 (unmarshal_typed decode_subkey (sd_Document enactSD));
    _ ← guard (String.eqb (Schema enactDoc) SubkeyURL)
          (GoError "revoked-subkey document does not embed a subkey enact document");
    Ok (enactDoc, Some (CreatedAt revokedDoc))
  else Err (GoError "subkey proof requires a subkey enact document").

Definition verify_subkey (sd : SignedDocument) (doc : Document any_) : result unit :=
  sig ← required "signature is required for subkey proof" (pr_Signature (sd_Proof sd));
  key ← required "key is required for subkey proof" (pr_Key (sd_Proof sd));
  fetch ← required "no resolver available to fetch subkey document" resolver;
  subKeySD ← wrap "failed to fetch subkey document" (fetch key);
  _ ← wrap "subkey document failed verification" (rec subKeySD (Some [ProofTypeEcrecover]));
  '(enactDoc, validUntil) ← subkey_enact subKeySD doc;
  _ ← guard (String.eqb (Author enactDoc) (Author doc))
        (GoError "subkey document author does not match signed document author");
  _ ← guard (negb (CreatedAt doc <? CreatedAt enactDoc))
        (GoError "signed document predates the subkey enact document");
  _ ← guard (match validUntil with Some u => negb (u <? CreatedAt doc) | None => true end)
        (GoError "signed document postdates the subkey revocation");
  verify_hex_signature (sd_Document sd) sig (CKID (Value enactDoc)).

(** The owner a ccfs href of the target must name. *)
Definition expected_owner (targetDoc : Document any_) : result string :=
  if negb (String.eqb (Key targetDoc) "") then
    targetKey ← wrap "referenced document key is not a valid cc uri" (ParseCCURI (Key targetDoc));
    Ok (Owner targetKey)
  else
    match Associate targetDoc with
    | Some a =>
        if String.eqb (Kind targetDoc) "association" then
          targetAssociate ← wrap "referenced document associate is not a valid cc uri" (ParseCCURI a);
          Ok (Owner targetAssociate)
        else Ok (Author targetDoc)
    | None => Ok (Author targetDoc)
    end.

(** The target is the document the href names. *)
Definition href_matches (hrefURI : CCURI) (targetSD : SignedDocument) (targetDoc : Document any_) : result unit :=
  if String.eqb (Scheme hrefURI) "cckv" && negb (String.eqb (Ccuri.Key hrefURI) "") then
    match ParseCCURI (Key targetDoc) with
    | Panic => Panic
    | Err _ => Err (GoError "referenced document key is not a keyed cckv uri")
    | Ok targetKey =>
        _ ← guard (String.eqb (Scheme targetKey) "cckv" && negb (String.eqb (Ccuri.Key targetKey) ""))
              (GoError "referenced document key is not a keyed cckv uri");
        guard (String.eqb (Owner targetKey) (Owner hrefURI) &&
               String.eqb (Ccuri.Key targetKey) (Ccuri.Key hrefURI))
          (GoError "referenced document key does not match proof href")
    end
  else if String.eqb (Scheme hrefURI) "cckv" then
    _ ← guard (String.eqb (Kind targetDoc) "entity")
          (GoError "referenced document for entity href is not an entity document");
    guard (String.eqb (Author targetDoc) (Owner hrefURI))
      (GoError "referenced document author does not match entity href owner")
  else if String.eqb (Scheme hrefURI) "ccfs" && String.eqb (Type_ hrefURI) CCFSTypeConcrnt then
    _ ← guard (String.eqb (document_cdid (sd_Document targetSD) (CreatedAt targetDoc)) (Ccuri.CDID hrefURI))
          (GoError "referenced document cdid does not match proof href");
    expectedOwner ← expected_owner targetDoc;
    guard (String.eqb expectedOwner (Owner hrefURI))
      (GoError "referenced document owner does not match proof href owner")
  else Err (GoError "document-reference proof href must be a cckv or ccfs concrnt uri").

Definition verify_reference (sd : SignedDocument) (doc : Document any_) : result unit :=
  href ← required "href is required for document-reference proof" (pr_Href (sd_Proof sd));
  _ ← guard (String.eqb (Schema doc) ReferenceURL)
        (GoError "document-reference proof is only allowed for reference documents");
  refDoc ← wrap "invalid reference document" (unmarshal_typed decode_reference (sd_Document sd));
  _ ← guard (String.eqb (ref_Href (Value refDoc)) href)
        (GoError "proof href does not match reference document href");
  targetSD ← wrap "failed to fetch referenced document" (resolve sd href);
  _ ← wrap "referenced document failed verification" (rec targetSD None);
  targetDoc ← wrap "failed to decode referenced document" (unmarshal_document (sd_Document targetSD));
  _ ← guard (String.eqb (Author targetDoc) (Author doc))
        (GoError "referenced document author does not match signed document author");
  hrefURI ← wrap "invalid href for document-reference proof" (ParseCCURI href);
  href_matches hrefURI targetSD targetDoc.

Definition verify_direct (sd : SignedDocument) : result unit :=
  match pr_Document (sd_Proof sd), pr_Proof (sd_Proof sd) with
  | Some document, Some proof =>
      let embedded := signed document proof in
      _ ← wrap "embedded document failed verification"
            (rec embedded (Some [ProofTypeEcrecover; ProofTypeSubkey]));
      self ← wrap "failed to parse signed document for document-direct proof" (ParsedDocument sd);
      if String.eqb (Kind self) "acked" || String.eqb (Kind self) "unacked" then
        expected ← wrap "embedded document is not an ack/unack document for document-direct proof"
                     (DeriveAcked embedded);
        guard (String.eqb (sd_Document sd) (sd_Document expected))
          (GoError "signed document does not match the derivation of the embedded document")
      else Err ErrProofTypeNotAllowed
  | _, _ => Err (GoError "embedded document and proof are required for document-direct proof")
  end.

Definition verify_body (sd : SignedDocument) (allowed : option (list string)) : result unit :=
  let type := pr_Type (sd_Proof sd) in
  _ ← guard (match allowed with Some l => in_list l type | None => true end) ErrProofTypeNotAllowed;
  doc ← wrap "failed to decode document for signature verification" (unmarshal_document (sd_Document sd));
  if String.eqb type ProofTypeEcrecover then verify_ecrecover sd doc
  else if String.eqb type ProofTypeSubkey then verify_subkey sd doc
  else if String.eqb type ProofTypeDocumentReference then verify_reference sd doc
  else if String.eqb type ProofTypeDocumentDirect then verify_direct sd
  else if String.eqb type ProofTypeNone then Err ErrNoneProofNotAllowed
  else Err ErrUnsupportedProofType.

End Body.

Fixpoint verify (depth : nat) (sd : SignedDocument) (allowed : option (list string)) : result unit :=
  match depth with
  | O => Err (GoError "proof chain is too deep")
  | S depth => verify_body (verify depth) sd allowed
  end.

Definition Verify (sd : SignedDocument) : result unit := verify maxVerifyDepth sd None.

Definition VerifyWithProofTypes (sd : SignedDocument) (allowed : option (list string)) : result unit :=
  verify maxVerifyDepth sd allowed.

End Verify.

(** ** Inversion of the checks *)

Lemma wrap_ok {A} text (r : result A) a : wrap text r = Ok a ↔ r = Ok a.
Proof. by destruct r. Qed.

Lemma guard_ok b e u : guard b e = Ok u ↔ b = true.
Proof. destruct b, u; cbn; naive_solver. Qed.

Lemma required_ok {A} text (o : option A) a : required text o = Ok a ↔ o = Some a.
Proof. destruct o; cbn; naive_solver. Qed.

(** Turns a successful run into the facts its steps checked. *)
Ltac inv_checks :=
  repeat match goal with
  | H : mbind _ _ = Ok _ |- _ => apply rbind_ok_inv in H as (? & ? & ?)
  | H : wrap _ _ = Ok _ |- _ => apply wrap_ok in H
  | H : guard _ _ = Ok _ |- _ => apply guard_ok in H
  | H : required _ _ = Ok _ |- _ => apply required_ok in H
  | H : String.eqb _ _ = true |- _ => apply String.eqb_eq in H
  | H : String.eqb _ _ = false |- _ => apply String.eqb_neq in H
  | H : _ && _ = true |- _ => apply andb_true_iff in H as [? ?]
  | H : negb _ = true |- _ => apply negb_true_iff in H
  | H : (_ <? _) = false |- _ => apply Z.ltb_ge in H
  | H : Ok _ = Ok _ |- _ => injection H as H
  | H : Err _ = Ok _ |- _ => discriminate H
  | H : Panic = Ok _ |- _ => discriminate H
  end.

(** Replays a run from the facts in the context. *)
Ltac run_checks :=
  repeat first
    [ progress cbn [mbind result_bind rbind wrap guard required of_option fst snd negb andb orb]
    | match goal with
      | H : ?x = Some _ |- context [?x] => rewrite H
      | H : ?x = Ok _ |- context [?x] => rewrite H
      | H : ?x = true |- context [?x] => rewrite H
      | H : ?x = false |- context [?x] => rewrite H
      | |- context [String.eqb ?x ?x] => rewrite (String.eqb_refl x)
      end ].

Lemma unmarshal_typed_ok `{Json} {T} (dec : any_ → result T) s d :
  unmarshal_typed dec s = Ok d →
  ∃ d0, unmarshal_document s = Ok d0 ∧ dec (Value d0) = Ok (Value d) ∧ d = with_value d0 (Value d).
Proof.
  intros Hd. apply rbind_ok_inv in Hd as (d0 & Hd0 & Hd).
  apply rbind_ok_inv in Hd as (v & Hv & [= <-]). by exists d0.
Qed.

Section Spec.
Context `{Url.NetIP} `{Json} `{Keccak} `{Secp256k1} (resolver : Resolver).

(** ** The specification: what makes a document acceptable *)

Definition signed_by (text signature address : string) : Prop :=
  ∃ bytes, hex_decode signature = Ok bytes ∧ VerifySignature text bytes address = Ok tt.

(** [authorised n sd]: accepted through a proof chain of at most [n] documents. *)
Inductive authorised : nat → SignedDocument → Prop :=
| by_author n sd doc sig :
    pr_Type (sd_Proof sd) = ProofTypeEcrecover →
    unmarshal_document (sd_Document sd) = Ok doc →
    pr_Signature (sd_Proof sd) = Some sig →
    signed_by (sd_Document sd) sig (Author doc) →
    authorised (S n) sd
| by_subkey n sd doc sig key fetch keySD enact :
    pr_Type (sd_Proof sd) = ProofTypeSubkey →
    unmarshal_document (sd_Document sd) = Ok doc →
    pr_Signature (sd_Proof sd) = Some sig →
    pr_Key (sd_Proof sd) = Some key →
    resolver = Some fetch → fetch key = Ok keySD →
    authorised n keySD → pr_Type (sd_Proof keySD) = ProofTypeEcrecover →
    unmarshal_typed decode_subkey (sd_Document keySD) = Ok enact →
    Schema enact = SubkeyURL →
    Author enact = Author doc →
    CreatedAt enact <= CreatedAt doc →
    signed_by (sd_Document sd) sig (CKID (Value enact)) →
    authorised (S n) sd
| by_revoked_subkey n sd doc sig key fetch keySD revoked enact :
    pr_Type (sd_Proof sd) = ProofTypeSubkey →
    unmarshal_document (sd_Document sd) = Ok doc →
    pr_Signature (sd_Proof sd) = Some sig →
    pr_Key (sd_Proof sd) = Some key →
    resolver = Some fetch → fetch key = Ok keySD →
    authorised n keySD → pr_Type (sd_Proof keySD) = ProofTypeEcrecover →
    unmarshal_typed decode_signed_document (sd_Document keySD) = Ok revoked →
    Schema revoked = RevokedSubkeyURL →
    Author revoked = Author doc →
    authorised n (Value revoked) → pr_Type (sd_Proof (Value revoked)) = ProofTypeEcrecover →
    unmarshal_typed decode_subkey (sd_Document (Value revoked)) = Ok enact →
    Schema enact = SubkeyURL →
    Author enact = Author doc →
    CreatedAt enact <= CreatedAt doc <= CreatedAt revoked →
    signed_by (sd_Document sd) sig (CKID (Value enact)) →
    authorised (S n) sd
| by_reference n sd doc href refDoc target targetDoc hrefURI :
    pr_Type (sd_Proof sd) = ProofTypeDocumentReference →
    unmarshal_document (sd_Document sd) = Ok doc →
    pr_Href (sd_Proof sd) = Some href →
    Schema doc = ReferenceURL →
    unmarshal_typed decode_reference (sd_Document sd) = Ok refDoc →
    ref_Href (Value refDoc) = href →
    resolve resolver sd href = Ok target →
    authorised n target →
    unmarshal_document (sd_Document target) = Ok targetDoc →
    Author targetDoc = Author doc →
    ParseCCURI href = Ok hrefURI →
    href_matches hrefURI target targetDoc = Ok tt →
    authorised (S n) sd
| by_derivation n sd doc document proof derived :
    pr_Type (sd_Proof sd) = ProofTypeDocumentDirect →
    unmarshal_document (sd_Document sd) = Ok doc →
    Kind doc = "acked" ∨ Kind doc = "unacked" →
    pr_Document (sd_Proof sd) = Some document →
    pr_Proof (sd_Proof sd) = Some proof →
    authorised n (signed document proof) →
    pr_Type proof = ProofTypeEcrecover ∨ pr_Type proof = ProofTypeSubkey →
    DeriveAcked (signed document proof) = Ok derived →
    sd_Document sd = sd_Document derived →
    authorised (S n) sd.

Definition type_allowed (allowed : option (list string)) (sd : SignedDocument) : Prop :=
  match allowed with Some l => pr_Type (sd_Proof sd) ∈ l | None => True end.

Lemma type_allowed_iff allowed sd :
  match allowed with Some l => in_list l (pr_Type (sd_Proof sd)) | None => true end = true ↔
  type_allowed allowed sd.
Proof. destruct allowed; cbn; [apply in_list_elem | done]. Qed.

Lemma verify_hex_ok text sig addr u :
  verify_hex_signature text sig addr = Ok u ↔ signed_by text sig addr.
Proof.
  unfold verify_hex_signature, signed_by. split.
  - intros Hv. inv_checks. eexists. split; [done|]. by destruct (VerifySignature _ _ _) as [[]| |].
  - intros (b & Hb & Hs). run_checks. by destruct u.
Qed.

Lemma ecrecover_only l sd : type_allowed (Some [l]) sd ↔ pr_Type (sd_Proof sd) = l.
Proof. cbn. apply list_elem_of_singleton. Qed.
End Spec.

Section Correct.
Context `{Url.NetIP} `{Json} `{Keccak} `{Secp256k1} (resolver : Resolver).
Context (n : nat) (rec : SignedDocument → option (list string) → result unit).
Context (rec_spec : ∀ sd a, rec sd a = Ok tt ↔ authorised resolver n sd ∧ type_allowed a sd).

Lemma rec_unit sd a (u : unit) : rec sd a = Ok u → authorised resolver n sd ∧ type_allowed a sd.
Proof using rec_spec. destruct u. apply rec_spec. Qed.

Lemma rec_only sd t (u : unit) :
  rec sd (Some [t]) = Ok u ↔ authorised resolver n sd ∧ pr_Type (sd_Proof sd) = t.
Proof using rec_spec. destruct u. by rewrite rec_spec, ecrecover_only. Qed.

(** A typed decoding has the fields of the untyped one. *)
Lemma typed_schema {T} (dec : any_ → result T) s d0 d :
  unmarshal_document s = Ok d0 → unmarshal_typed dec s = Ok d → Schema d = Schema d0.
Proof using. intros Hd0 (d1 & Hd1 & _ & ->)%unmarshal_typed_ok. by same_result. Qed.

Lemma subkey_enact_inv keySD doc enact until :
  subkey_enact rec keySD doc = Ok (enact, until) →
  Schema enact = SubkeyURL ∧
  ((unmarshal_typed decode_subkey (sd_Document keySD) = Ok enact ∧ until = None) ∨
   (∃ revoked,
      unmarshal_typed decode_signed_document (sd_Document keySD) = Ok revoked ∧
      Schema revoked = RevokedSubkeyURL ∧ Author revoked = Author doc ∧
      authorised resolver n (Value revoked) ∧
      pr_Type (sd_Proof (Value revoked)) = ProofTypeEcrecover ∧
      unmarshal_typed decode_subkey (sd_Document (Value revoked)) = Ok enact ∧
      until = Some (CreatedAt revoked))).
Proof using rec_spec.
  unfold subkey_enact. intros Hv. apply rbind_ok_inv in Hv as (k & Hk%wrap_ok & Hv).
  destruct (String.eqb_spec (Schema k) SubkeyURL) as [Hs|_].
  - inv_checks. simplify_eq. split; [|by left].
    by erewrite typed_schema.
  - destruct (String.eqb_spec (Schema k) RevokedSubkeyURL) as [Hs|_]; [|done].
    inv_checks. simplify_eq.
    match goal with H : rec _ _ = Ok _ |- _ => apply rec_only in H as [? ?] end.
    split; [done|]. right. eexists. split; [done|]. split; [by erewrite typed_schema|]. done.
Qed.

Lemma verify_subkey_sound sd doc u :
  pr_Type (sd_Proof sd) = ProofTypeSubkey → unmarshal_document (sd_Document sd) = Ok doc →
  verify_subkey resolver rec sd doc = Ok u → authorised resolver (S n) sd.
Proof using rec_spec.
  intros Ht Hd Hv. unfold verify_subkey in Hv. inv_checks.
  match goal with H : subkey_enact _ _ _ = Ok ?p |- _ => destruct p as [enact until] end. inv_checks.
  repeat match goal with
  | H : rec _ _ = Ok _ |- _ => apply rec_only in H as [? ?]
  | H : subkey_enact _ _ _ = Ok _ |- _ => apply subkey_enact_inv in H as [? [[? ->] | (? & ? & ? & ? & ? & ? & ? & ->)]]
  | H : verify_hex_signature _ _ _ = Ok _ |- _ => apply verify_hex_ok in H
  end; inv_checks.
  - by eapply by_subkey.
  - by eapply by_revoked_subkey.
Qed.

Lemma verify_reference_sound sd doc u :
  pr_Type (sd_Proof sd) = ProofTypeDocumentReference → unmarshal_document (sd_Document sd) = Ok doc →
  verify_reference resolver rec sd doc = Ok u → authorised resolver (S n) sd.
Proof using rec_spec.
  intros Ht Hd Hv. unfold verify_reference in Hv. inv_checks. destruct u.
  match goal with H : rec _ _ = Ok _ |- _ => apply rec_unit in H as [? _] end.
  by eapply by_reference.
Qed.

Lemma verify_direct_sound sd doc u :
  pr_Type (sd_Proof sd) = ProofTypeDocumentDirect → unmarshal_document (sd_Document sd) = Ok doc →
  verify_direct rec sd = Ok u → authorised resolver (S n) sd.
Proof using rec_spec.
  intros Ht Hd Hv. unfold verify_direct in Hv.
  destruct (pr_Document (sd_Proof sd)) as [document|] eqn:Ed; [|done].
  destruct (pr_Proof (sd_Proof sd)) as [proof|] eqn:Ep; [|done]. inv_checks.
  match goal with H : rec _ _ = Ok _ |- _ => apply rec_unit in H as [? Hal] end.
  destruct (_ || _) eqn:Ek in *; [|done]. inv_checks.
  match goal with H : ParsedDocument sd = Ok _ |- _ => unfold ParsedDocument in H end; same_result.
  eapply by_derivation; try done.
  - apply orb_true_iff in Ek as [?%String.eqb_eq | ?%String.eqb_eq]; auto.
  - cbn in Hal. set_solver.
Qed.

Lemma verify_body_sound sd allowed u :
  verify_body resolver rec sd allowed = Ok u →
  authorised resolver (S n) sd ∧ type_allowed allowed sd.
Proof using rec_spec.
  intros Hv. unfold verify_body in Hv.
  apply rbind_ok_inv in Hv as (? & Ha%guard_ok%type_allowed_iff & Hv).
  apply rbind_ok_inv in Hv as (doc & Hd%wrap_ok & Hv). split; [|done].
  repeat match type of Hv with
  | (if String.eqb ?a ?b then _ else _) = _ => destruct (String.eqb_spec a b)
  end; try done.
  - unfold verify_ecrecover in Hv. inv_checks. apply verify_hex_ok in H4. by eapply by_author.
  - by eapply verify_subkey_sound.
  - by eapply verify_reference_sound.
  - by eapply verify_direct_sound.
Qed.

(** Each rule of the specification is a run of the code. *)
Lemma rec_run sd t : authorised resolver n sd → pr_Type (sd_Proof sd) = t → rec sd (Some [t]) = Ok tt.
Proof using rec_spec. intros ? ?. by apply rec_only. Qed.

Lemma typed_untyped {T} (dec : any_ → result T) s d :
  unmarshal_typed dec s = Ok d → ∃ d0, unmarshal_document s = Ok d0 ∧ Schema d0 = Schema d.
Proof using. intros (d0 & Hd0 & _ & ->)%unmarshal_typed_ok. by exists d0. Qed.

Lemma hex_run text sig addr :
  signed_by text sig addr → verify_hex_signature text sig addr = Ok tt.
Proof using. apply verify_hex_ok. Qed.

Lemma verify_body_complete sd allowed :
  authorised resolver (S n) sd → type_allowed allowed sd → verify_body resolver rec sd allowed = Ok tt.
Proof using rec_spec.
  intros Ha Hal%type_allowed_iff. pose proof rec_run as Hrun. pose proof rec_spec as Hspec. unfold verify_body. rewrite Hal.
  inversion Ha as
    [? ? doc sig Ht Hd Hsig Hs
    |? ? doc sig key fetch keySD enact Ht Hd Hsig Hkey Hr Hf Hk Hkt He Hes Hea Hle Hs
    |? ? doc sig key fetch keySD revoked enact Ht Hd Hsig Hkey Hr Hf Hk Hkt Hrv Hrs Hra Hv Hvt He Hes Hea Hle Hs
    |? ? doc href refDoc target targetDoc hrefURI Ht Hd Hh Hsc Href Hhref Hres Hat Htd Hau Hpu Hm
    |? ? doc document proof derived Ht Hd Hk Hdoc Hp Hae Hpt Hder Heq]; subst; rewrite Ht, Hd;
    cbn [mbind result_bind rbind wrap guard String.eqb Ascii.eqb Bool.eqb ProofTypeEcrecover ProofTypeSubkey
         ProofTypeDocumentReference ProofTypeDocumentDirect].
  - unfold verify_ecrecover. run_checks. by apply hex_run.
  - pose proof (Hrun _ _ Hk Hkt) as Hrec. pose proof (hex_run _ _ _ Hs).
    destruct (typed_untyped _ _ _ He) as (d0 & Hd0 & Hsd0).
    unfold verify_subkey, subkey_enact. run_checks. rewrite Hsd0, Hes. run_checks.
    rewrite Hea. run_checks. by rewrite (proj2 (Z.ltb_ge _ _) Hle).
  - pose proof (Hrun _ _ Hk Hkt) as Hrec. pose proof (Hrun _ _ Hv Hvt) as Hrec2.
    pose proof (hex_run _ _ _ Hs). destruct (typed_untyped _ _ _ Hrv) as (d0 & Hd0 & Hsd0).
    destruct Hle as [Hle1%Z.ltb_ge Hle2%Z.ltb_ge].
    unfold verify_subkey, subkey_enact. run_checks. rewrite Hsd0, Hrs.
    change (String.eqb RevokedSubkeyURL SubkeyURL) with false. run_checks.
    rewrite Hra. run_checks. rewrite Hes. run_checks. rewrite Hea. run_checks. done.
  - assert (rec target None = Ok tt) as Hrec by by apply Hspec.
    unfold verify_reference. run_checks. rewrite Hsc. run_checks. rewrite Hau. run_checks. done.
  - assert (rec (signed document proof) (Some [ProofTypeEcrecover; ProofTypeSubkey]) = Ok tt) as Hrec.
    { apply Hspec. split; [done|]. cbn. set_solver. }
    unfold verify_direct, ParsedDocument. run_checks.
    assert (String.eqb (Kind doc) "acked" || String.eqb (Kind doc) "unacked" = true) as ->
      by by destruct Hk as [-> | ->].
    rewrite Heq. run_checks. done.
Qed.

End Correct.

Lemma verify_spec `{Url.NetIP} `{Json} `{Keccak} `{Secp256k1} resolver depth sd allowed :
  verify resolver depth sd allowed = Ok tt ↔ authorised resolver depth sd ∧ type_allowed allowed sd.
Proof.
  revert sd allowed. induction depth as [|n IH]; intros sd allowed; cbn.
  - split; [done|]. intros [Ha _]. inversion Ha.
  - split; [by apply verify_body_sound | intros [? ?]; by eapply verify_body_complete].
Qed.

Lemma authorised_mono `{Url.NetIP} `{Json} `{Keccak} `{Secp256k1} resolver n m sd :
  (n ≤ m)%nat → authorised resolver n sd → authorised resolver m sd.
Proof.
  intros Hle Ha. revert m Hle. induction Ha; intros [|m] Hle; try lia; apply le_S_n in Hle.
  - by eapply by_author.
  - eapply by_subkey; eauto.
  - eapply by_revoked_subkey; eauto.
  - eapply by_reference; eauto.
  - eapply by_derivation; eauto.
Qed.

(** Closes a case whose proof type is not the one the context gives. *)
Ltac other_type :=
  match goal with
  | H : pr_Type ?p = _, H' : pr_Type ?p = _ |- _ => rewrite H in H'; discriminate H'
  end.

(** ** Properties *)

(** C1: [Verify] accepts exactly the documents the specification authorises
    through a chain of at most four documents; [VerifyWithProofTypes] adds the
    restriction on the outer proof type, and unsigned documents never pass. *)
Theorem Verify_iff `{Url.NetIP} `{Json} `{Keccak} `{Secp256k1} resolver sd :
  (Verify resolver sd = Ok tt ↔ authorised resolver 4 sd) ∧
  (∀ l, VerifyWithProofTypes resolver sd (Some l) = Ok tt ↔
        authorised resolver 4 sd ∧ pr_Type (sd_Proof sd) ∈ l) ∧
  (∀ allowed, pr_Type (sd_Proof sd) = ProofTypeNone →
        VerifyWithProofTypes resolver sd allowed ≠ Ok tt).
Proof.
  unfold Verify, VerifyWithProofTypes, maxVerifyDepth. split; [|split].
  - rewrite verify_spec. cbn. naive_solver.
  - intros l. apply verify_spec.
  - intros allowed Ht [Ha _]%verify_spec. inversion Ha; other_type.
Qed.

(** a larger depth bound never rejects what a smaller one accepts, so the
    bound of four only cuts chains that are really longer. *)
Theorem verify_depth_mono `{Url.NetIP} `{Json} `{Keccak} `{Secp256k1} resolver n m sd allowed :
  (n ≤ m)%nat → verify resolver n sd allowed = Ok tt → verify resolver m sd allowed = Ok tt.
Proof. rewrite !verify_spec. intros Hle [? ?]. split; [by eapply authorised_mono | done]. Qed.

(** A text signed by the master key of its own author. *)
Definition master_signed `{Json} `{Keccak} `{Secp256k1} (author : string) : Prop :=
  ∃ text doc sig, unmarshal_document text = Ok doc ∧ Author doc = author ∧ signed_by text sig author.

(** Re-encoding a decoded document under another kind keeps it readable. *)
Definition reencodes `{Json} : Prop :=
  ∀ s d k s', unmarshal_document s = Ok d → marshal_document (with_kind d k) = Ok s' →
    unmarshal_document s' = Ok (with_kind d k).

Lemma ecrecover_signed `{Url.NetIP} `{Json} `{Keccak} `{Secp256k1} resolver n sd doc :
  authorised resolver n sd → pr_Type (sd_Proof sd) = ProofTypeEcrecover →
  unmarshal_document (sd_Document sd) = Ok doc → master_signed (Author doc).
Proof.
  intros Ha Ht Hd. inversion Ha; try other_type. same_result.
  eexists _, _, _. split; [done|]. by split.
Qed.

Lemma DeriveAcked_ok `{Json} text proof derived :
  DeriveAcked (signed text proof) = Ok derived →
  ∃ d k, unmarshal_document text = Ok d ∧ acked_kind (Kind d) = Some k ∧
         marshal_document (with_kind d k) = Ok (sd_Document derived).
Proof.
  intros Hd. apply rbind_ok_inv in Hd as (d & Hd & Hk). exists d.
  destruct (acked_kind (Kind d)) as [k|] eqn:Ek; [|done].
  apply rbind_ok_inv in Hk as (s & Hs & [= <-]). by exists k.
Qed.

(** C9: every accepted document of an author rests on a text signed with that
    author's own master key: neither a subkey, nor a reference, nor a derived
    document can introduce an author who signed nothing. *)
Theorem Verify_master_signed `{Url.NetIP} `{Json} `{Keccak} `{Secp256k1} resolver sd doc :
  reencodes → Verify resolver sd = Ok tt → unmarshal_document (sd_Document sd) = Ok doc →
  master_signed (Author doc).
Proof.
  intros Hre [Ha _]%verify_spec Hd. revert doc Hd.
  induction Ha as [n sd doc sig Ht Hd Hsig Hs
    |n sd doc sig key fetch keySD enact Ht Hd Hsig Hkey Hr Hf Hk IH Hkt He Hes Hea Hle Hs
    |n sd doc sig key fetch keySD revoked enact Ht Hd Hsig Hkey Hr Hf Hk _ Hkt Hrv Hrs Hra Hv IH Hvt He Hes Hea Hle Hs
    |n sd doc href refDoc target targetDoc hrefURI Ht Hd Hh Hsc Href Hhref Hres Hat IH Htd Hau Hpu Hm
    |n sd doc document proof derived Ht Hd Hk Hdoc Hp Hae IH Hpt Hder Heq]; intros doc' Hd'; same_result.
  - eexists _, _, _. split; [done|]. by split.
  - apply unmarshal_typed_ok in He as (d0 & Hd0 & _ & Hw). rewrite <- Hea, Hw. by apply IH.
  - apply unmarshal_typed_ok in He as (d0 & Hd0 & _ & Hw). rewrite <- Hea, Hw. by apply IH.
  - rewrite <- Hau. by apply IH.
  - apply DeriveAcked_ok in Hder as (d & k & Hd0 & _ & Hm). rewrite <- Heq in Hm.
    pose proof (Hre _ _ _ _ Hd0 Hm). same_result. cbn. by apply IH.
Qed.

(** once the authoritative server answers a subkey's key with a revocation,
    no document created after it passes with that subkey, whatever copies the
    submitter inlines and whatever depth is allowed. *)
Theorem revoked_subkey_rejected `{Url.NetIP} `{Json} `{Keccak} `{Secp256k1}
    fetch sd doc key keySD revocation refs depth allowed :
  pr_Type (sd_Proof sd) = ProofTypeSubkey → pr_Key (sd_Proof sd) = Some key →
  fetch key = Ok keySD →
  unmarshal_document (sd_Document keySD) = Ok revocation → Schema revocation = RevokedSubkeyURL →
  unmarshal_document (sd_Document sd) = Ok doc → CreatedAt revocation < CreatedAt doc →
  verify (Some fetch) depth (with_references sd refs) allowed ≠ Ok tt.
Proof.
  intros Ht Hkey Hf Hrev Hs Hd Hlt [Ha _]%verify_spec. destruct sd as [? ? text proof ? ?]. cbn in *.
  inversion Ha as [| |? ? d ? k f kSD rv en _ Hd' _ Hk' Hf' Hfk _ _ Hrv _ _ _ _ _ _ _ Hle _| |];
    cbn in *; subst; try other_type; simplify_eq; same_result.
  - match goal with H : unmarshal_typed _ _ = Ok _ |- _ =>
      apply unmarshal_typed_ok in H as (d0 & Hd0 & _ & Hw) end.
    same_result. rewrite Hw in *. cbn in *.
    match goal with H : Schema ?d = _, H' : Schema ?d = _ |- _ => rewrite H in H'; discriminate H' end.
  - apply unmarshal_typed_ok in Hrv as (d0 & Hd0 & _ & Hw). same_result.
    rewrite Hw in Hle. cbn in Hle. lia.
Qed.

(** an accepted acked (unacked) document is its embedded ack (unack) with
    only the kind replaced, and the embedded original is itself accepted. *)
Theorem Verify_acked `{Url.NetIP} `{Json} `{Keccak} `{Secp256k1} resolver sd doc :
  reencodes → Verify resolver sd = Ok tt →
  pr_Type (sd_Proof sd) = ProofTypeDocumentDirect → unmarshal_document (sd_Document sd) = Ok doc →
  ∃ document proof original,
    Verify resolver (signed document proof) = Ok tt ∧
    unmarshal_document document = Ok original ∧
    doc = with_kind original (Kind doc) ∧
    ((Kind original = "ack" ∧ Kind doc = "acked") ∨ (Kind original = "unack" ∧ Kind doc = "unacked")).
Proof.
  intros Hre [Ha _]%verify_spec Ht Hd.
  inversion Ha as [| | | |n ? d document proof derived _ Hd' Hk Hdoc Hp Hae Hpt Hder Heq]; try other_type.
  subst. same_result.
  apply DeriveAcked_ok in Hder as (o & k & Ho & Hok & Hm). rewrite <- Heq in Hm.
  pose proof (Hre _ _ _ _ Ho Hm). same_result.
  exists document, proof, o. split; [|split; [done|split; [done|]]].
  - apply verify_spec. split; [|done]. eapply authorised_mono; [|exact Hae]. unfold maxVerifyDepth. lia.
  - cbn. unfold acked_kind in Hok.
    destruct (String.eqb_spec (Kind o) "ack"); [injection Hok as <-; auto|].
    destruct (String.eqb_spec (Kind o) "unack"); [injection Hok as <-; auto | done].
Qed.

(** ** Witnesses

    A small concrete world: a codec for five texts, a signature scheme in which
    a signature is the body of the address, one author and one subkey. *)

Module World.

Fixpoint repeat_str (n : nat) (s : string) : string :=
  match n with O => "" | S n => s +:+ repeat_str n s end.

Definition author : string := "con" +:+ repeat_str 39 "a".
Definition subkey : string := "cck" +:+ repeat_str 39 "b".
Definition author_sig : string := repeat_str 39 "61".
Definition subkey_sig : string := repeat_str 39 "62".

#[local] Instance netip : Url.NetIP := λ _, false.
#[local] Instance keccak : Keccak := bytes_of.
#[local] Instance secp : Secp256k1 := {|
  Ecrecover := λ _ sig, Ok sig;
  compress := λ pub, Some pub;
  pubkey_address := λ pub, pub;
  bech32_encode := λ hrp l, Ok (hrp +:+ string_of l);
|}.

Definition doc (kind schema : string) (value : any_) (at_ : Z) (associate : option string) : Document any_ :=
  mkDocument kind "" value author schema at_ None None associate None None.

Definition post := doc "record" "note" ANil 10 None.
Definition enact := doc "record" SubkeyURL (AStr subkey) 5 None.
Definition revoke := doc "record" RevokedSubkeyURL (AStr "enact") 7 None.
Definition ack := doc "ack" "like" ANil 20 (Some "x").
Definition acked := doc "acked" "like" ANil 20 (Some "x").

Definition table : list (string * Document any_) :=
  [("post", post); ("enact", enact); ("revoke", revoke); ("ack", ack); ("acked", acked)].

Definition by_key (sig : string) : Proof_ := mkProof ProofTypeEcrecover (Some sig) None None None None.
Definition by_subkey_ (key : string) : Proof_ :=
  mkProof ProofTypeSubkey (Some subkey_sig) None (Some key) None None.

Definition lookup_text (s : string) : result (Document any_) :=
  of_option (GoError "invalid") (snd <$> List.find (λ p, String.eqb (fst p) s) table).

#[local] Instance json : Json := {|
  unmarshal_document := lookup_text;
  marshal_document := λ d,
    if String.eqb (Kind d) "acked" && bool_decide (Associate d = Some "x")
    then Ok "acked" else Err (GoError "unsupported");
  decode_subkey := λ v, match v with AStr s => Ok (mkSubkey s) | _ => Err (GoError "value") end;
  decode_reference := λ _, Err (GoError "value");
  decode_signed_document := λ v,
    match v with AStr s => Ok (signed s (by_key author_sig)) | _ => Err (GoError "value") end;
  decode_entity := λ _, Err (GoError "value");
  decode_delete := λ _, Err (GoError "value");
|}.

(** The server that holds the keys: the live enact, and its revocation. *)
Definition server (uri : string) : result SignedDocument :=
  if String.eqb uri "key" then Ok (signed "enact" (by_key author_sig))
  else if String.eqb uri "revoked" then Ok (signed "revoke" (by_key author_sig))
  else Err (NotFoundError "record" "" "").

Definition acked_sd : SignedDocument :=
  signed "acked" (mkProof ProofTypeDocumentDirect None None None (Some "ack") (Some (by_key author_sig))).

Lemma lookup_text_ok s d :
  lookup_text s = Ok d →
  d = post ∨ d = enact ∨ d = revoke ∨ d = ack ∨ d = acked.
Proof.
  unfold lookup_text, table. cbn [List.find fst].
  repeat (case_match; [cbn; intros [= <-]; tauto|]). done.
Qed.

Lemma reencodes_json : @reencodes json.
Proof.
  intros s d k s' Hd Hm. cbn in Hm. destruct (String.eqb_spec k "acked") as [->|]; [|done].
  apply lookup_text_ok in Hd as [-> | [-> | [-> | [-> | ->]]]]; cbn in Hm; try done;
    injection Hm as <-; reflexivity.
Qed.

End World.

Lemma Verify_iff_witness :
  let sd := signed "post" (World.by_subkey_ "key") in
  @authorised World.netip World.json World.keccak World.secp (Some World.server) 4 sd.
Proof.
  apply (proj1 (@Verify_iff World.netip World.json World.keccak World.secp (Some World.server)
    (signed "post" (World.by_subkey_ "key")))).
  vm_compute. reflexivity.
Defined.

Lemma verify_depth_mono_witness :
  let sd := signed "post" (World.by_key World.author_sig) in
  @verify World.netip World.json World.keccak World.secp None 1 sd None = Ok tt ∧
  @verify World.netip World.json World.keccak World.secp None 9 sd None = Ok tt.
Proof.
  split; [vm_compute; reflexivity|].
  apply (@verify_depth_mono World.netip World.json World.keccak World.secp None 1 9); [lia|].
  vm_compute. reflexivity.
Defined.

Lemma Verify_master_signed_witness :
  @master_signed World.json World.keccak World.secp World.author.
Proof.
  apply (@Verify_master_signed World.netip World.json World.keccak World.secp (Some World.server)
    World.acked_sd World.acked World.reencodes_json); vm_compute; reflexivity.
Defined.

Lemma revoked_subkey_rejected_witness :
  let sd := signed "post" (World.by_subkey_ "revoked") in
  let enact := signed "enact" (World.by_key World.author_sig) in
  @verify World.netip World.json World.keccak World.secp (Some World.server) 4
    (with_references sd {["revoked" := enact]}) None ≠ Ok tt.
Proof.
  intros sd enact.
  apply (@revoked_subkey_rejected World.netip World.json World.keccak World.secp World.server
    sd World.post "revoked" (signed "revoke" (World.by_key World.author_sig)) World.revoke);
    vm_compute; reflexivity.
Defined.

Lemma Verify_acked_witness :
  ∃ document proof original,
    @Verify World.netip World.json World.keccak World.secp (Some World.server) (signed document proof) = Ok tt ∧
    @unmarshal_document World.json document = Ok original ∧
    World.acked = with_kind original (Kind World.acked) ∧
    ((Kind original = "ack" ∧ Kind World.acked = "acked") ∨
     (Kind original = "unack" ∧ Kind World.acked = "unacked")).
Proof.
  apply (@Verify_acked World.netip World.json World.keccak World.secp (Some World.server)
    World.acked_sd World.acked World.reencodes_json); vm_compute; reflexivity.
Defined.
