(* ===== verification/JobQueue.v ===== *)
(** * JobQueue: background jobs on Redis ([src/internal/infra/jobqueue/redis.go])

    A job is added to a stream; a consumer reads it, runs the handler of its
    type and removes it, or schedules a retry in a sorted set, or gives it up
    to a dead-letter stream.  The state is what Redis holds - streams, the
    consumer group's pending entries, the retry set - and the messages
    consumers hold in memory.  Any command may fail: [Faults] says which of a
    step's commands take effect. *)

From S2P Require Import Prelude Effects Documents.
From stdpp Require Import prelude strings gmap list sorting.
From Stdlib Require Import ZArith Lia Ascii.
Open Scope Z_scope.

(** ** Jobs *)

Record Job : Type := mkJob {
  job_ID : string;
  job_Type : string;
  job_Payload : string;
  job_Attempt : Z;
  job_CreatedAt : Z;
  job_LastError : string;
}.

(** [json.Marshal] and [json.Unmarshal] of the envelope, [json.Valid], and
    [%q]. *)
Class JobJson := {
  encode_job : Job → result string;
  decode_job : string → result Job;
  json_valid : string → bool;
  quote : string → string;
}.

Record Config : Type := mkConfig {
  maxAttempts : Z;
  baseBackoff : Z;
  backoffCap : Z;
  streamMaxLen : nat;
}.

Definition sec : Z := 1000000000.
Definition default_config : Config := mkConfig 8 (10 * sec) (3600 * sec) 100000.

(** ** Redis *)

(** An entry id is [<ms>-<seq>], ordered; here the number [ms * 2^64 + seq]. *)
Definition id_of_ms (ms : Z) : Z := ms * 2 ^ 64.

Record Stream : Type := mkStream { entries : list (Z * string); last_id : Z }.

Definition next_id (s : Stream) (ms : Z) : Z := Z.max (last_id s + 1) (id_of_ms ms).

(** [XADD MAXLEN ~ n]: trimming drops old entries, never below [n]. *)
Definition XADD (maxlen trim : nat) (ms : Z) (payload : string) (s : Stream) : Stream :=
  let l := entries s ++ [(next_id s ms, payload)] in
  mkStream (drop (min trim (length l - maxlen)) l) (next_id s ms).

Definition XDEL (id : Z) (s : Stream) : Stream :=
  mkStream (List.filter (λ e, negb (fst e =? id)) (entries s)) (last_id s).

(** [XRANGE (after + COUNT n]. *)
Definition XRANGE (after : Z) (n : nat) (s : Stream) : list (Z * string) :=
  take n (List.filter (λ e, after <? fst e) (entries s)).

(** [XTRIM MINID]: how many are removed, and the rest. *)
Definition XTRIM_MINID (min : Z) (s : Stream) : nat * Stream :=
  let kept := List.filter (λ e, min <=? fst e) (entries s) in
  ((length (entries s) - length kept)%nat, mkStream kept (last_id s)).

Definition score_le (p q : string * Z) : Prop :=
  snd p < snd q ∨ snd p = snd q ∧ String.leb (fst p) (fst q) = true.
#[export] Instance score_le_dec : RelDecision score_le.
Proof. intros p q. unfold score_le. apply _. Defined.

(** [delivered] and [pending] are the consumer group's; [held] are messages in
    the hands of consumers; [handled] records the jobs that succeeded. *)
Record Redis : Type := mkRedis {
  stream : Stream;
  delivered : Z;
  pending : gmap Z Z;
  retry : gmap string Z;
  dlq : Stream;
  held : list (Z * string);
  handled : gset string;
}.

Definition set_stream (r : Redis) s := mkRedis s (delivered r) (pending r) (retry r) (dlq r) (held r) (handled r).
Definition set_pending (r : Redis) p := mkRedis (stream r) (delivered r) p (retry r) (dlq r) (held r) (handled r).
Definition set_delivered (r : Redis) d := mkRedis (stream r) d (pending r) (retry r) (dlq r) (held r) (handled r).
Definition set_retry (r : Redis) z := mkRedis (stream r) (delivered r) (pending r) z (dlq r) (held r) (handled r).
Definition set_dlq (r : Redis) s := mkRedis (stream r) (delivered r) (pending r) (retry r) s (held r) (handled r).
Definition set_held (r : Redis) h := mkRedis (stream r) (delivered r) (pending r) (retry r) (dlq r) h (handled r).
Definition set_handled (r : Redis) h := mkRedis (stream r) (delivered r) (pending r) (retry r) (dlq r) (held r) h.

Definition empty_redis : Redis := mkRedis (mkStream [] 0) 0 ∅ ∅ (mkStream [] 0) [] ∅.

(** Which commands take effect, and how much the stream trims. *)
Record Faults : Type := mkFaults {
  f_add : bool;
  f_retry : bool;
  f_dlq : bool;
  f_ack : bool;
  f_del : bool;
  f_rem : bool;
  f_trim : nat;
}.
Definition no_faults : Faults := mkFaults true true true true true true 0.

(** ** Backoff *)

Definition wrap64 (z : Z) : Z := (z + 2 ^ 63) `mod` 2 ^ 64 - 2 ^ 63.

(** The loop of [backoffDuration], [n] iterations left. *)
Fixpoint backoff_loop (n : nat) (d capD : Z) : Z :=
  match n with
  | O => if capD <? d then capD else d
  | S n => if capD <=? d then capD else backoff_loop n (wrap64 (d * 3)) capD
  end.

Definition backoffDuration (attempt base capD : Z) : Z :=
  let attempt := if attempt <? 1 then 1 else attempt in
  backoff_loop (Z.to_nat (attempt - 1)) base capD.

Section Queue.
Context `{JobJson} (cfg : Config).

(** ** Producing *)

(** [now] in nanoseconds; [uuid] is the fresh id. *)
Definition ms_of (now : Z) : Z := now / 1000000.

Definition enqueueRaw (f : Faults) (now : Z) (job : Job) (r : Redis) : result unit * Redis :=
  match encode_job job with
  | Ok payload =>
      if f_add f
      then (Ok tt, set_stream r (XADD (streamMaxLen cfg) (f_trim f) (ms_of now) payload (stream r)))
      else (Err (GoError "redis"), r)
  | Err e => (Err e, r)
  | Panic => (Panic, r)
  end.

(** [raw] is the marshalled payload. *)
Definition Enqueue (f : Faults) (now : Z) (uuid jobType raw : string) (r : Redis) : result unit * Redis :=
  enqueueRaw f now (mkJob uuid jobType raw 0 now "") r.

(** ** Reading *)

(** [XREADGROUP > COUNT 1]: the first entry past the last delivered one. *)
Definition read_new (now : Z) (r : Redis) : Redis :=
  match XRANGE (delivered r) 1 (stream r) with
  | [] => r
  | (id, raw) :: _ =>
      set_held (set_pending (set_delivered r id) (<[id := ms_of now]> (pending r))) ((id, raw) :: held r)
  end.

(** [XAUTOCLAIM]: pending entries idle long enough are delivered again; ids
    whose entry is gone do not count. Redis's own bound on the entries one call
    scans is not modelled: a claim looks at the whole pending list. *)
Definition claimable (minIdle now : Z) (r : Redis) (e : Z * string) : bool :=
  match pending r !! fst e with Some t => minIdle <=? ms_of now - t | None => false end.

Definition reclaim (minIdle now : Z) (r : Redis) : Redis :=
  let messages := take 100 (List.filter (claimable minIdle now r) (entries (stream r))) in
  set_held (set_pending r (foldl (λ p e, <[fst e := ms_of now]> p) (pending r) messages)) (messages ++ held r).

(** A consumer that dies forgets what it held. *)
Definition crash (msg : Z * string) (r : Redis) : Redis :=
  set_held r (List.filter (λ e, negb (fst e =? fst msg)) (held r)).

(** ** Processing *)

Definition ackAndDel (f : Faults) (id : Z) (r : Redis) : Redis :=
  let r := if f_ack f then set_pending r (delete id (pending r)) else r in
  if f_del f then set_stream r (XDEL id (stream r)) else r.

Definition deadLetterRaw (f : Faults) (now : Z) (payload : string) (r : Redis) : Redis :=
  if f_dlq f then set_dlq r (XADD (streamMaxLen cfg) (f_trim f) (ms_of now) payload (dlq r)) else r.

Definition deadLetterJob (f : Faults) (now : Z) (job : Job) (r : Redis) : Redis :=
  match encode_job job with Ok payload => deadLetterRaw f now payload r | _ => r end.

Definition scheduleRetry (f : Faults) (now : Z) (job : Job) (r : Redis) : Redis :=
  match encode_job job with
  | Ok payload =>
      let nextAttempt := now + backoffDuration (job_Attempt job) (baseBackoff cfg) (backoffCap cfg) in
      if f_retry f then set_retry r (<[payload := ms_of nextAttempt]> (retry r)) else r
  | _ => r
  end.

(** A handler's error, if any. *)
Definition Handlers : Type := gmap string (string → option error).

Definition run_handler (handlers : Handlers) (job : Job) : option error :=
  match handlers !! job_Type job with
  | Some handler => handler (job_Payload job)
  | None => Some (GoError ("job queue: no handler registered for job type " +:+ quote (job_Type job)))
  end.

Definition failed_job (job : Job) (text : string) : Job :=
  mkJob (job_ID job) (job_Type job) (job_Payload job) (job_Attempt job + 1) (job_CreatedAt job) text.

(** One claimed message; [text] renders an error, [stopping] is [ctx.Err() != nil]. *)
Definition process (f : Faults) (now : Z) (handlers : Handlers) (text : error → string) (stopping : bool)
    (msg : Z * string) (r : Redis) : Redis :=
  let '(id, raw) := msg in
  match decode_job raw with
  | Ok job =>
      match run_handler handlers job with
      | None => ackAndDel f id (set_handled r ({[job_ID job]} ∪ handled r))
      | Some err =>
          if (stopping : bool) then r
          else
            let job := failed_job job (text err) in
            if maxAttempts cfg <=? job_Attempt job
            then ackAndDel f id (deadLetterJob f now job r)
            else ackAndDel f id (scheduleRetry f now job r)
      end
  | _ => ackAndDel f id (deadLetterRaw f now raw r)
  end.

(** ** Moving due retries back *)

Definition move_member (f : Faults) (now : Z) (member : string) (r : Redis) : Redis :=
  if f_add f then
    let r := set_stream r (XADD (streamMaxLen cfg) (f_trim f) (ms_of now) member (stream r)) in
    if f_rem f then set_retry r (delete member (retry r)) else r
  else r.

(** [ZRANGEBYSCORE -inf now LIMIT 0 100]: by score, then by member. *)
Definition due_members (now : Z) (r : Redis) : list string :=
  fst <$> take 100 (List.filter (λ p, snd p <=? ms_of now) (merge_sort score_le (map_to_list (retry r)))).

Definition moveDueRetries (fs : string → Faults) (now : Z) (r : Redis) : Redis :=
  foldl (λ r member, move_member (fs member) now member r) r (due_members now r).

(** ** Dead letters *)

(** [DeadLetter]: an envelope, or the raw payload when it is not JSON. *)
Record DeadLetter : Type := mkDeadLetter { dl_StreamID : Z; dl_Job : string; dl_Raw : string }.

Definition dead_letter (e : Z * string) : DeadLetter :=
  if json_valid (snd e) then mkDeadLetter (fst e) (snd e) "" else mkDeadLetter (fst e) "" (snd e).

Definition dlqScanBatch : nat := 1000.

(** The callback may fail, and keeps a state. *)
Fixpoint scan_batch {A} (fn : DeadLetter → SM A unit) (l : list (Z * string)) : SM A unit :=
  match l with
  | [] => retM tt
  | e :: l => bindM (fn (dead_letter e)) (λ _, scan_batch fn l)
  end.

Fixpoint ScanDLQ (fuel : nat) {A} (fn : DeadLetter → SM A unit) (s : Stream) (start : Z) : SM A unit :=
  match fuel with
  | O => failM OutOfFuel
  | S fuel =>
      let batch := XRANGE start dlqScanBatch s in
      match last batch with
      | None => retM tt
      | Some final => bindM (scan_batch fn batch) (λ _, ScanDLQ fuel fn s (fst final))
      end
  end.

Definition PurgeDLQ (before : Z) (r : Redis) : nat * Redis :=
  let '(n, s) := XTRIM_MINID (id_of_ms (ms_of before)) (dlq r) in (n, set_dlq r s).

Definition fresh_attempts (job : Job) : Job :=
  mkJob (job_ID job) (job_Type job) (job_Payload job) 0 (job_CreatedAt job) "".

(** One entry of [ReinjectDLQ]: skipped, failed, or moved. *)
Definition reinject_entry (f : Faults) (now : Z) (e : Z * string) (r : Redis) : result bool * Redis :=
  match decode_job (snd e) with
  | Ok job =>
      match enqueueRaw f now (fresh_attempts job) r with
      | (Ok _, r) => (Ok true, if f_del f then set_dlq r (XDEL (fst e) (dlq r)) else r)
      | (Err err, r) => (Err err, r)
      | (Panic, r) => (Panic, r)
      end
  | _ => (Ok false, r)
  end.

(** How many were moved, and the error that stopped it. *)
Fixpoint reinject (fs : Z → Faults) (now : Z) (l : list (Z * string)) (count : nat) (r : Redis)
    : nat * result unit * Redis :=
  match l with
  | [] => (count, Ok tt, r)
  | e :: l =>
      match reinject_entry (fs (fst e)) now e r with
      | (Ok b, r) => reinject fs now l (if (b : bool) then S count else count) r
      | (Err err, r) => (count, Err err, r)
      | (Panic, r) => (count, Panic, r)
      end
  end.

Definition ReinjectDLQ (fs : Z → Faults) (now : Z) (r : Redis) : nat * result unit * Redis :=
  reinject fs now (entries (dlq r)) 0 r.

(** ** Executions *)

(** The queue's goroutines, the producers and the operator, one command group
    at a time.  [harmless] bounds the faults a step may have. *)
Inductive step (harmless : Faults → Prop) : Redis → Redis → Prop :=
| StepEnqueue f now uuid ty raw r : harmless f → step harmless r (snd (Enqueue f now uuid ty raw r))
| StepRead now r : step harmless r (read_new now r)
| StepReclaim minIdle now r : step harmless r (reclaim minIdle now r)
| StepCrash msg r : step harmless r (crash msg r)
| StepProcess f now handlers text stopping msg r :
    harmless f → msg ∈ held r →
    step harmless r (crash msg (process f now handlers text stopping msg r))
| StepMove fs now r : (∀ m, harmless (fs m)) → step harmless r (moveDueRetries fs now r)
| StepReinject fs now r : (∀ i, harmless (fs i)) → step harmless r (snd (ReinjectDLQ fs now r)).

End Queue.
