(* ===== verification/JobQueueFacts.v ===== *)
(** * JobQueueFacts: no job is lost, no job is tried for ever

    As long as the writes of retries and dead letters succeed and nothing is
    trimmed, a job that was enqueued is in the stream, waiting for a retry, a
    dead letter, or was handled - whatever other commands fail and whichever
    consumers die.  A job is tried at most [maxAttempts] times. *)

From S2P Require Import Prelude Effects Documents JobQueue.
From stdpp Require Import prelude strings gmap list relations sorting.
From Stdlib Require Import ZArith Lia Ascii.
Open Scope Z_scope.

(** ** Backoff *)

Definition max_int64 : Z := 2 ^ 63 - 1.

Lemma wrap64_small z : - 2 ^ 63 <= z <= max_int64 → wrap64 z = z.
Proof. unfold wrap64, max_int64. intros Hz. rewrite Z.mod_small by lia. lia. Qed.

Lemma backoff_loop_spec n d cap :
  0 <= d <= max_int64 → 0 <= cap → 3 * cap <= max_int64 → backoff_loop n d cap = Z.min cap (d * 3 ^ Z.of_nat n).
Proof.
  revert d. induction n as [|n IH]; intros d Hd Hc Hm; cbn [backoff_loop].
  - rewrite Z.mul_1_r. destruct (Z.ltb_spec cap d); lia.
  - rewrite Nat2Z.inj_succ, Z.pow_succ_r by lia. pose proof (Z.pow_pos_nonneg 3 (Z.of_nat n) ltac:(lia) ltac:(lia)).
    destruct (Z.leb_spec cap d); [nia|].
    rewrite wrap64_small by (unfold max_int64 in *; lia). rewrite IH by lia. f_equal. lia.
Qed.

(** the backoff is [base * 3^(attempt-1)] up to the cap and never
    overflows, as long as three times the cap is a [time.Duration]. *)
Theorem backoffDuration_spec attempt base cap :
  0 <= base <= max_int64 → 0 <= cap → 3 * cap <= max_int64 →
  backoffDuration attempt base cap = Z.min cap (base * 3 ^ (Z.max attempt 1 - 1)) ∧
  0 <= backoffDuration attempt base cap <= backoffDuration (attempt + 1) base cap ∧
  backoffDuration (attempt + 1) base cap <= cap.
Proof.
  intros Hb Hc Hm.
  assert (∀ a, backoffDuration a base cap = Z.min cap (base * 3 ^ (Z.max a 1 - 1))) as Hspec.
  { intros a. unfold backoffDuration. rewrite backoff_loop_spec by done. do 3 f_equal.
    destruct (Z.ltb_spec a 1); lia. }
  split; [done|]. rewrite !Hspec.
  assert (3 ^ (Z.max attempt 1 - 1) <= 3 ^ (Z.max (attempt + 1) 1 - 1)) by (apply Z.pow_le_mono_r; lia).
  pose proof (Z.pow_pos_nonneg 3 (Z.max attempt 1 - 1) ltac:(lia) ltac:(lia)). nia.
Qed.

Lemma backoffDuration_spec_witness :
  map (λ a, backoffDuration a (baseBackoff default_config) (backoffCap default_config) / sec) [1; 2; 3; 4; 5; 6; 7] =
    [10; 30; 90; 270; 810; 2430; 3600] ∧
  backoffDuration 3 (10 * sec) (3600 * sec) = Z.min (3600 * sec) (10 * sec * 3 ^ (Z.max 3 1 - 1)) ∧
  0 <= backoffDuration 3 (10 * sec) (3600 * sec) <= backoffDuration (3 + 1) (10 * sec) (3600 * sec) ∧
  backoffDuration (3 + 1) (10 * sec) (3600 * sec) <= 3600 * sec.
Proof.
  split; [vm_compute; reflexivity|].
  apply (backoffDuration_spec 3 (10 * sec) (3600 * sec)); unfold sec, max_int64; lia.
Defined.

(** ** Streams *)

Definition ordered (s : Stream) : Prop :=
  StronglySorted Z.lt (fst <$> entries s) ∧ Forall (λ e, fst e <= last_id s) (entries s).

Lemma next_id_fresh s ms : last_id s < next_id s ms.
Proof. unfold next_id. lia. Qed.

Lemma XADD_entries maxlen ms payload s :
  entries (XADD maxlen 0 ms payload s) = entries s ++ [(next_id s ms, payload)].
Proof. unfold XADD. cbn. by rewrite drop_0. Qed.

Lemma sorted_filter (P : Z * string → bool) l :
  StronglySorted Z.lt (fst <$> l) → StronglySorted Z.lt (fst <$> List.filter P l).
Proof.
  induction l as [|e l IH]; cbn; [done|]. intros [Hs Hf]%StronglySorted_inv. destruct (P e); [|by apply IH].
  cbn. constructor; [by apply IH|]. apply Forall_forall. intros x (y & -> & Hy)%list_elem_of_fmap.
  apply list_elem_of_In, filter_In in Hy as [Hy _]. rewrite Forall_forall in Hf. apply Hf.
  apply list_elem_of_fmap_2. by apply list_elem_of_In.
Qed.

(** ** The invariant *)

Lemma sorted_snoc l id payload :
  StronglySorted Z.lt (fst <$> l) → Forall (λ e : Z * string, fst e < id) l →
  StronglySorted Z.lt (fst <$> l ++ [(id, payload)]).
Proof.
  induction l as [|e l IH]; cbn; [by repeat constructor|].
  intros [Hs Hf]%StronglySorted_inv [He Hl]%Forall_cons. constructor; [by apply IH|].
  rewrite fmap_app. apply Forall_app. split; [done|by repeat constructor].
Qed.

Lemma ordered_XADD maxlen ms payload s : ordered s → ordered (XADD maxlen 0 ms payload s).
Proof.
  intros [Hs Hb]. pose proof (next_id_fresh s ms) as Hn. split; rewrite XADD_entries.
  - apply sorted_snoc; [done|]. eapply Forall_impl; [exact Hb|]. cbn. lia.
  - apply Forall_app. split; [|by repeat constructor; cbn].
    eapply Forall_impl; [exact Hb|]. unfold XADD. cbn. lia.
Qed.

Lemma ordered_XDEL id s : ordered s → ordered (XDEL id s).
Proof.
  intros [Hs Hb]. split; [by apply sorted_filter|]. apply Forall_forall. intros e He.
  apply list_elem_of_In, filter_In in He as [He _]. apply list_elem_of_In in He.
  by eapply Forall_forall in Hb.
Qed.

(** An id names one entry. *)
Lemma ordered_unique s id a b : ordered s → (id, a) ∈ entries s → (id, b) ∈ entries s → a = b.
Proof.
  intros [Hs _]. induction (entries s) as [|[i c] l IH]; [by intros ?%elem_of_nil|].
  apply StronglySorted_inv in Hs as [Hs Hf]. rewrite Forall_forall in Hf.
  assert (∀ x, (i, x) ∈ l → False) as Hi.
  { intros x Hx. assert (i < i); [|lia]. apply Hf. by apply (list_elem_of_fmap_2 fst) in Hx. }
  intros [Ha|Ha]%elem_of_cons [Hb|Hb]%elem_of_cons; simplify_eq; auto; exfalso; eauto.
Qed.

Lemma elem_of_XDEL id e s : e ∈ entries (XDEL id s) ↔ e ∈ entries s ∧ fst e ≠ id.
Proof.
  unfold XDEL. cbn. rewrite !list_elem_of_In, filter_In, negb_true_iff, Z.eqb_neq. done.
Qed.

Lemma elem_of_XADD maxlen ms payload e s :
  e ∈ entries (XADD maxlen 0 ms payload s) ↔ e ∈ entries s ∨ e = (next_id s ms, payload).
Proof. rewrite XADD_entries, elem_of_app, list_elem_of_singleton. done. Qed.

(** The oldest entry past a point: nothing lies between. *)
Lemma XRANGE_first s after e l x :
  ordered s → XRANGE after 1 s = e :: l → e ∈ entries s ∧ after < fst e ∧
    (x ∈ entries s → after < fst x → x = e ∨ fst e < fst x).
Proof.
  intros [Hs _] He. unfold XRANGE in He.
  destruct (List.filter (λ e, after <? fst e) (entries s)) as [|y ys] eqn:Hf; [done|]. injection He as <- _.
  assert (y ∈ entries s ∧ after < fst y) as [Hy Hl].
  { assert (y ∈ List.filter (λ e, after <? fst e) (entries s)) as Hin by (rewrite Hf; by left).
    apply list_elem_of_In, filter_In in Hin as [? ?%Z.ltb_lt]. by rewrite list_elem_of_In. }
  split_and!; [done..|]. intros Hx Hxl.
  assert (x ∈ y :: ys) as Hxf.
  { rewrite <- Hf. apply list_elem_of_In, filter_In. split; [by apply list_elem_of_In|by apply Z.ltb_lt]. }
  apply elem_of_cons in Hxf as [->|Hxf]; [by left|right].
  apply (sorted_filter (λ e, after <? fst e)) in Hs. rewrite Hf in Hs. cbn in Hs.
  apply StronglySorted_inv in Hs as [_ Hall]. rewrite Forall_forall in Hall. apply Hall.
  by apply list_elem_of_fmap_2.
Qed.

Record ok (r : Redis) : Prop := {
  ok_stream : ordered (stream r);
  ok_dlq : ordered (dlq r);
  ok_delivered : delivered r <= last_id (stream r);
  ok_held : ∀ id raw, (id, raw) ∈ held r → id <= last_id (stream r) ∧
    ∀ raw', (id, raw') ∈ entries (stream r) → raw' = raw;
}.

Section Conservation.
Context `{JobJson} (cfg : Config).

(** A stream entry that some consumer will still be given. *)
Definition deliverable (r : Redis) (raw : string) : Prop :=
  ∃ id, (id, raw) ∈ entries (stream r) ∧ (delivered r < id ∨ is_Some (pending r !! id)).

(** Where a payload is kept. *)
Definition kept (r : Redis) (raw : string) : Prop :=
  deliverable r raw ∨ is_Some (retry r !! raw) ∨ ∃ id, (id, raw) ∈ entries (dlq r).

Definition of_job (raw j : string) : Prop := ∃ job, decode_job raw = Ok job ∧ job_ID job = j.

(** The job was handled, or the queue still has it. *)
Definition alive (r : Redis) (j : string) : Prop := j ∈ handled r ∨ ∃ raw, of_job raw j ∧ kept r raw.

(** The writes that must succeed; every other command may fail. *)
Definition durable (f : Faults) : Prop := f_retry f = true ∧ f_dlq f = true ∧ f_trim f = 0%nat.

(** JSON of an envelope reads back, and an envelope that was read can be
    written again with other bookkeeping. *)
Context (decode_encode : ∀ job s, encode_job job = Ok s → decode_job s = Ok job).
Context (reencode : ∀ raw job attempt text, decode_job raw = Ok job →
  is_ok (encode_job (mkJob (job_ID job) (job_Type job) (job_Payload job) attempt (job_CreatedAt job) text)) = true).

(** ** What only adds *)

Lemma alive_mono r r' j :
  handled r ⊆ handled r' → (∀ raw, kept r raw → kept r' raw) → alive r j → alive r' j.
Proof. intros Hh Hk [Hj|(raw & Hj & Hr)]; [left; set_solver|right; eauto]. Qed.

Lemma add_ok trim ms payload r : trim = 0%nat → ok r → ok (set_stream r (XADD (streamMaxLen cfg) trim ms payload (stream r))).
Proof.
  intros -> [Hs Hd Hdel Hh]. pose proof (next_id_fresh (stream r) ms) as Hn. split; cbn -[XADD].
  - by apply ordered_XADD.
  - done.
  - unfold XADD. cbn. lia.
  - intros id raw Hin. destruct (Hh id raw Hin) as [Hle Hu]. split; [unfold XADD; cbn; lia|].
    intros raw' [Hr|[= -> _]]%elem_of_XADD; [by apply Hu|lia].
Qed.

Lemma add_kept trim ms payload r raw : trim = 0%nat → ok r →
  kept r raw ∨ raw = payload → kept (set_stream r (XADD (streamMaxLen cfg) trim ms payload (stream r))) raw.
Proof.
  intros -> Hok [[(id & Hid & Hd)|Hr]| ->]; [left; exists id|by right|left; exists (next_id (stream r) ms)].
  - split; [|done]. apply elem_of_XADD. by left.
  - split; [apply elem_of_XADD; by right|]. left. cbn -[XADD next_id].
    pose proof (next_id_fresh (stream r) ms). pose proof (ok_delivered r Hok). lia.
Qed.

(** Elsewhere than in the stream. *)
Definition safe (r : Redis) (j : string) : Prop :=
  j ∈ handled r ∨ ∃ raw, of_job raw j ∧ (is_Some (retry r !! raw) ∨ ∃ id, (id, raw) ∈ entries (dlq r)).

Lemma ack_ok f id r : ok r → ok (ackAndDel f id r).
Proof.
  intros [Hs Hd Hdel Hh]. unfold ackAndDel. destruct (f_ack f), (f_del f); split; cbn -[XDEL]; try done.
  1,3: by apply ordered_XDEL.
  all: intros i raw Hin; destruct (Hh i raw Hin) as [Hle Hu]; split; [done|];
    intros raw' [Hr _]%elem_of_XDEL; by apply Hu.
Qed.

(** Removing a message whose job is safe. *)
Lemma ack_alive f id raw r j :
  (∀ raw', (id, raw') ∈ entries (stream r) → raw' = raw) → (of_job raw j → safe r j) →
  alive r j → alive (ackAndDel f id r) j.
Proof.
  intros Hu Hsafe Ha. assert (safe r j → alive (ackAndDel f id r) j) as Hlift.
  { unfold ackAndDel. intros [Hh|(raw' & Hj & Hk)]; [left|right; exists raw'; split; [done|right]];
      by destruct (f_ack f), (f_del f). }
  destruct Ha as [Hh|(raw0 & Hj & [(i & Hi & Hd)|Hk])]; [apply Hlift; by left| |apply Hlift; right; eauto].
  destruct (decide (i = id)) as [->|Hne]; [apply Hlift, Hsafe; by rewrite <- (Hu raw0 Hi)|].
  right. exists raw0. split; [done|]. left. exists i. unfold ackAndDel.
  destruct (f_ack f), (f_del f); cbn -[XDEL]; rewrite ?elem_of_XDEL, ?lookup_delete_ne by done; auto.
Qed.

Lemma dead_letter_ok f now payload r : durable f → ok r → ok (deadLetterRaw cfg f now payload r).
Proof.
  intros (_ & Hq & Ht) [Hs Hd Hdel Hh]. unfold deadLetterRaw. rewrite Hq, Ht. split; try done. by apply ordered_XADD.
Qed.

Lemma dead_letter_alive f now payload r j : durable f →
  (alive r j → alive (deadLetterRaw cfg f now payload r) j) ∧
  (of_job payload j → safe (deadLetterRaw cfg f now payload r) j).
Proof.
  intros (_ & Hq & Ht). unfold deadLetterRaw. rewrite Hq, Ht. split.
  - apply alive_mono; [done|]. intros raw [Hd|[Hr|(i & Hi)]]; [by left|right; by left|].
    right; right. exists i. apply elem_of_XADD. by left.
  - intros Hj. right. exists payload. split; [done|right]. eexists. apply elem_of_XADD. by right.
Qed.

Lemma retry_ok f now job r : ok r → ok (scheduleRetry cfg f now job r).
Proof.
  intros [Hs Hd Hdel Hh]. unfold scheduleRetry. destruct (encode_job job); [|done..]. by destruct (f_retry f).
Qed.

Lemma retry_alive f now job r j : durable f →
  (alive r j → alive (scheduleRetry cfg f now job r) j) ∧
  (is_ok (encode_job job) = true → job_ID job = j → safe (scheduleRetry cfg f now job r) j).
Proof.
  intros (Hz & _). unfold scheduleRetry. destruct (encode_job job) as [s| |] eqn:He; [|by split..]. rewrite Hz. split.
  - apply alive_mono; [done|]. intros raw [Hd|[Hr|Hq]]; [by left|right; left|right; by right].
    cbn. destruct (decide (raw = s)) as [->|]; [by rewrite lookup_insert_eq|by rewrite lookup_insert_ne].
  - intros _ Hj. right. exists s. split; [exists job; auto|]. left. cbn. by rewrite lookup_insert_eq.
Qed.

Lemma handled_alive id r j :
  (alive r j → alive (set_handled r ({[id]} ∪ handled r)) j) ∧
  (id = j → safe (set_handled r ({[id]} ∪ handled r)) j).
Proof.
  split; [apply alive_mono; cbn; [set_solver|done]|].
  intros ->. left. cbn. set_solver.
Qed.

Lemma handled_ok id r : ok r → ok (set_handled r ({[id]} ∪ handled r)).
Proof. by intros [Hs Hd Hdel Hh]. Qed.

(** ** The queue's operations *)

Lemma crash_ok msg r : ok r → ok (crash msg r).
Proof.
  intros [Hs Hd Hdel Hh]. split; try done. intros id raw Hin.
  apply list_elem_of_In, filter_In in Hin as [Hin _]. apply Hh. by apply list_elem_of_In.
Qed.

Lemma process_ok f now handlers text stopping msg r :
  durable f → ok r → ok (process cfg f now handlers text stopping msg r).
Proof.
  intros Hf Hok. destruct msg as [id raw]. unfold process, deadLetterJob.
  destruct (decode_job raw) as [job| |]; [|by apply ack_ok, dead_letter_ok..].
  destruct (run_handler handlers job) as [err|]; [|by apply ack_ok, handled_ok].
  destruct stopping; [done|]. destruct (_ <=? _); apply ack_ok; [|by apply retry_ok].
  destruct (encode_job _); [by apply dead_letter_ok|done..].
Qed.

Lemma process_alive f now handlers text stopping id raw r j :
  durable f → ok r → (id, raw) ∈ held r → alive r j →
  alive (process cfg f now handlers text stopping (id, raw) r) j.
Proof.
  intros Hf Hok Hin Ha. destruct (ok_held r Hok id raw Hin) as [_ Hu].
  assert (∀ r' : Redis, stream r' = stream r → (alive r j → alive r' j) ∧ (of_job raw j → safe r' j) →
    alive (ackAndDel f id r') j) as Hack.
  { intros r' Hs [Hm Hsafe]. apply (ack_alive f id raw); [by rewrite Hs|done|auto]. }
  unfold process, deadLetterJob. destruct (decode_job raw) as [job| |] eqn:Hd.
  - assert (of_job raw j → job_ID job = j) as Hj by (intros (? & ? & ?); congruence).
    destruct (run_handler handlers job) as [err|].
    + destruct stopping; [done|]. pose proof (reencode raw job (job_Attempt job + 1) (text err) Hd) as Hre.
      destruct (_ <=? _); apply Hack.
      * destruct (encode_job _); [unfold deadLetterRaw; by destruct (f_dlq f)|done..].
      * fold (failed_job job (text err)) in Hre.
        destruct (encode_job (failed_job job (text err))) as [s| |] eqn:He; [|done..].
        destruct (dead_letter_alive f now s r j Hf) as [Hm Hs]. split; [done|].
        intros Hr. apply Hs. exists (failed_job job (text err)). eauto using Hj.
      * unfold scheduleRetry. destruct (encode_job _); [by destruct (f_retry f)|done..].
      * destruct (retry_alive f now (failed_job job (text err)) r j Hf) as [Hm Hs].
        split; [done|]. intros Hr. apply Hs; [done|]. by apply Hj.
    + apply Hack; [done|]. destruct (handled_alive (job_ID job) r j) as [Hm Hs]. split; [done|]. auto.
  - apply Hack; [unfold deadLetterRaw; by destruct (f_dlq f)|].
    split; [by apply dead_letter_alive|]. intros (? & ? & ?); congruence.
  - apply Hack; [unfold deadLetterRaw; by destruct (f_dlq f)|].
    split; [by apply dead_letter_alive|]. intros (? & ? & ?); congruence.
Qed.

Lemma crash_alive msg r j : alive r j → alive (crash msg r) j.
Proof. apply alive_mono; done. Qed.

(** A message handed to a consumer becomes pending; the entries it jumps over
    were delivered before. *)
Lemma read_ok now r : ok r → ok (read_new now r).
Proof.
  intros [Hs Hd Hdel Hh]. unfold read_new. destruct (XRANGE _ _ _) as [|[id raw] l] eqn:Hx; [done|].
  destruct (XRANGE_first _ _ _ _ (id, raw) Hs Hx) as [Hin _].
  assert (id <= last_id (stream r)) as Hle by (destruct Hs as [_ Hb]; by apply Forall_forall with (x := (id, raw)) in Hb).
  split; try done. cbn. intros i x [[= -> ->]|Hi]%elem_of_cons; [|by apply Hh].
  split; [done|]. intros raw'. intros Hr. by apply (ordered_unique (stream r) id).
Qed.

Lemma read_alive now r j : ok r → alive r j → alive (read_new now r) j.
Proof.
  intros Hok. unfold read_new. destruct (XRANGE _ _ _) as [|[id raw] l] eqn:Hx; [done|].
  apply alive_mono; [done|]. intros raw0 [(i & Hi & Hd)|Hr]; [left; exists i|by right]. split; [done|]. cbn.
  destruct (XRANGE_first _ _ _ _ (i, raw0) (ok_stream r Hok) Hx) as (_ & _ & Hlt). cbn in Hlt.
  destruct Hd as [Hd|Hp]; [destruct (Hlt Hi Hd) as [[= -> ->]|]|].
  - right. by rewrite lookup_insert_eq.
  - by left.
  - right. destruct (decide (i = id)) as [->|]; [by rewrite lookup_insert_eq|by rewrite lookup_insert_ne].
Qed.

Lemma foldl_insert_lookup (t : Z) (l : list (Z * string)) (p : gmap Z Z) i :
  is_Some (p !! i) → is_Some (foldl (λ p e, <[fst e := t]> p) p l !! i).
Proof.
  revert p. induction l as [|e l IH]; intros p Hp; [done|]. apply IH.
  destruct (decide (fst e = i)) as [->|]; [by rewrite lookup_insert_eq|by rewrite lookup_insert_ne].
Qed.

Lemma reclaim_ok minIdle now r : ok r → ok (reclaim minIdle now r).
Proof.
  intros [Hs Hd Hdel Hh]. unfold reclaim. split; try done. cbn. intros id raw [Hin|Hin]%elem_of_app; [|by apply Hh].
  apply elem_of_take in Hin as (n & Hin%list_elem_of_lookup_2 & _).
  apply list_elem_of_In, filter_In in Hin as [Hin _].
  apply list_elem_of_In in Hin. split.
  - destruct Hs as [_ Hb]. by apply Forall_forall with (x := (id, raw)) in Hb.
  - intros raw' Hr. by apply (ordered_unique (stream r) id).
Qed.

Lemma reclaim_alive minIdle now r j : alive r j → alive (reclaim minIdle now r) j.
Proof.
  apply alive_mono; [done|]. intros raw [(id & Hi & [Hd|Hp])|Hr]; [left; exists id; by split; [|left]| |by right].
  left. exists id. split; [done|]. right. by apply foldl_insert_lookup.
Qed.

Lemma enqueueRaw_alive f now job r j : durable f → ok r →
  (alive r j → alive (snd (enqueueRaw cfg f now job r)) j) ∧
  (fst (enqueueRaw cfg f now job r) = Ok tt →
   ∃ s, decode_job s = Ok job ∧ deliverable (snd (enqueueRaw cfg f now job r)) s).
Proof.
  intros (_ & _ & Ht) Hok. unfold enqueueRaw. destruct (encode_job job) as [s| |] eqn:He; [|by split..].
  destruct (f_add f); [|by split]. cbn [fst snd]. split.
  - apply alive_mono; [done|]. intros raw Hr. apply add_kept; auto.
  - intros _. exists s. split; [by apply decode_encode|]. rewrite Ht. exists (next_id (stream r) (ms_of now)).
    split; [apply elem_of_XADD; by right|left]. cbn -[XADD next_id].
    pose proof (next_id_fresh (stream r) (ms_of now)). pose proof (ok_delivered r Hok). lia.
Qed.

Lemma enqueueRaw_ok f now job r : durable f → ok r → ok (snd (enqueueRaw cfg f now job r)).
Proof.
  intros (_ & _ & Ht) Hok. unfold enqueueRaw. destruct (encode_job job); [|done..].
  destruct (f_add f); [by apply add_ok|done].
Qed.

Lemma move_member_ok f now member r : durable f → ok r → ok (move_member cfg f now member r).
Proof.
  intros (_ & _ & Ht) Hok. unfold move_member. destruct (f_add f); [|done].
  pose proof (add_ok _ (ms_of now) member r Ht Hok) as [Hs Hd Hdel Hh]. destruct (f_rem f); by split.
Qed.

Lemma move_member_alive f now member r j : durable f → ok r → alive r j → alive (move_member cfg f now member r) j.
Proof.
  intros (_ & _ & Ht) Hok. unfold move_member. destruct (f_add f); [|done].
  apply alive_mono; [by destruct (f_rem f)|]. intros raw Hr.
  assert (deliverable (set_stream r (XADD (streamMaxLen cfg) (f_trim f) (ms_of now) member (stream r))) member) as Hm.
  { rewrite Ht. exists (next_id (stream r) (ms_of now)). split; [apply elem_of_XADD; by right|left].
    cbn -[XADD next_id]. pose proof (next_id_fresh (stream r) (ms_of now)). pose proof (ok_delivered r Hok). lia. }
  assert (kept (set_stream r (XADD (streamMaxLen cfg) (f_trim f) (ms_of now) member (stream r))) raw) as Hk
    by (apply add_kept; auto).
  destruct (f_rem f); [|done]. destruct (decide (raw = member)) as [->|Hne]; [by left|].
  destruct Hk as [Hk|[Hk|Hk]]; [by left|right; left|by right; right].
  cbn. by rewrite lookup_delete_ne.
Qed.

Lemma moveDueRetries_safe fs now r j : (∀ m, durable (fs m)) → ok r →
  ok (moveDueRetries cfg fs now r) ∧ (alive r j → alive (moveDueRetries cfg fs now r) j).
Proof.
  intros Hfs. unfold moveDueRetries. generalize (due_members now r) as l. intros l. revert r.
  induction l as [|m l IH]; intros r Hok; [done|]. cbn [foldl].
  destruct (IH _ (move_member_ok _ now m r (Hfs m) Hok)) as [Ho Ha].
  split; [done|]. intros Hj. apply Ha. by apply move_member_alive.
Qed.

(** An entry of the dead letters being walked is still itself, or gone. *)
Definition walked (l : list (Z * string)) (r : Redis) : Prop :=
  ∀ e x, e ∈ l → (fst e, x) ∈ entries (dlq r) → x = snd e.

Lemma reinject_entry_safe f now e r j : durable f → ok r →
  (∀ x, (fst e, x) ∈ entries (dlq r) → x = snd e) →
  let r' := snd (reinject_entry cfg f now e r) in
  ok r' ∧ entries (dlq r') ⊆ entries (dlq r) ∧ (alive r j → alive r' j).
Proof.
  intros Hf Hok Hu. unfold reinject_entry. destruct (decode_job (snd e)) as [job| |] eqn:Hd; [|by split_and!..].
  pose proof (enqueueRaw_ok f now (fresh_attempts job) r Hf Hok) as Ho.
  pose proof (enqueueRaw_alive f now (fresh_attempts job) r j Hf Hok) as [Ha Hnew].
  assert (dlq (snd (enqueueRaw cfg f now (fresh_attempts job) r)) = dlq r) as Hq
    by (unfold enqueueRaw; destruct (encode_job _); [by destruct (f_add f)|done..]).
  destruct (enqueueRaw cfg f now (fresh_attempts job) r) as [[[]| |] r1]; cbn [fst snd] in *.
  2, 3: split_and!; [done|by rewrite Hq|done].
  destruct (f_del f); [|split_and!; [done|by rewrite Hq|done]].
  split_and!.
  - destruct Ho as [? ? ? ?]. split; try done. by apply ordered_XDEL.
  - cbn -[XDEL]. rewrite Hq. intros x [Hx _]%elem_of_XDEL. done.
  - intros Hj. destruct (Hnew eq_refl) as (s & Hs & Hdel).
    destruct (Ha Hj) as [Hh|(raw & Hraw & Hk)]; [by left|right].
    destruct Hk as [Hk|[Hk|(i & Hi)]]; [exists raw; split; [done|]; by left|exists raw; split; [done|]; by right; left|].
    destruct (decide (i = fst e)) as [->|Hne].
    + rewrite Hq in Hi. pose proof (Hu raw Hi) as ->. exists s. split; [|by left].
      destruct Hraw as (job' & Hd' & <-). exists (fresh_attempts job). split; [done|]. cbn. congruence.
    + exists raw. split; [done|]. right; right. exists i. apply elem_of_XDEL. auto.
Qed.

Lemma reinject_safe fs now l n r j : (∀ i, durable (fs i)) → ok r → walked l r →
  ok (snd (reinject cfg fs now l n r)) ∧ (alive r j → alive (snd (reinject cfg fs now l n r)) j).
Proof.
  intros Hfs. revert n r. induction l as [|e l IH]; intros n r Hok Hw; [done|]. cbn [reinject].
  destruct (reinject_entry_safe (fs (fst e)) now e r j (Hfs _) Hok) as (Ho & Hsub & Ha).
  { intros x. apply Hw. by left. }
  destruct (reinject_entry cfg (fs (fst e)) now e r) as [[b| |] r1]; cbn [snd] in *; [|done..].
  destruct (IH (if b then S n else n) r1 Ho) as [Ho' Ha']; [|auto].
  intros e' x He' Hx. apply Hw; [by right|]. by apply Hsub.
Qed.

(** One step of the queue. *)
Lemma step_safe r r' j : step cfg durable r r' → ok r → ok r' ∧ (alive r j → alive r' j).
Proof.
  intros Hstep Hok. destruct Hstep as [f now uuid ty raw r Hf|now r|minIdle now r|msg r
    |f now handlers text stopping [id raw] r Hf Hin|fs now r Hf|fs now r Hf].
  - split; [by apply enqueueRaw_ok|by apply enqueueRaw_alive].
  - split; [by apply read_ok|by apply read_alive].
  - split; [by apply reclaim_ok|by apply reclaim_alive].
  - split; [by apply crash_ok|by apply crash_alive].
  - split; [by apply crash_ok, process_ok|]. intros Ha. by apply crash_alive, process_alive.
  - by apply moveDueRetries_safe.
  - apply reinject_safe; [done..|]. intros [i y] x He Hx. cbn in *.
    by apply (ordered_unique (dlq r) i); [apply ok_dlq|..].
Qed.

Lemma steps_safe r r' j : rtc (step cfg durable) r r' → ok r → alive r j → ok r' ∧ alive r' j.
Proof.
  induction 1 as [r|r r1 r' Hs _ IH]; intros Hok Ha; [done|].
  destruct (step_safe r r1 j Hs Hok) as [Ho Hal]. auto.
Qed.

(** the writes conservation asks for are necessary: when [ZADD] fails,
    [process] still acknowledges and deletes the message, and a job
    the queue keeps nowhere else is lost. *)
Theorem failed_retry_loses f now handlers text id raw job err r :
  decode_job raw = Ok job → run_handler handlers job = Some err → job_Attempt job + 1 < maxAttempts cfg →
  f_retry f = false → f_ack f = true → f_del f = true →
  (id, raw) ∈ held r → job_ID job ∉ handled r →
  (∀ raw', of_job raw' (job_ID job) → retry r !! raw' = None ∧ (∀ i, (i, raw') ∉ entries (dlq r)) ∧
    (∀ i, (i, raw') ∈ entries (stream r) → i = id)) →
  ¬ alive (process cfg f now handlers text false (id, raw) r) (job_ID job).
Proof.
  intros Hd Hh Hm Hr Ha Hdel _ Hnot Honly. unfold process. rewrite Hd, Hh.
  destruct (Z.leb_spec (maxAttempts cfg) (job_Attempt (failed_job job (text err)))); [cbn in *; lia|].
  unfold scheduleRetry, ackAndDel. rewrite Hr, Ha, Hdel.
  intros Hal. assert (alive (set_stream (set_pending r (delete id (pending r)))
    (XDEL id (stream r))) (job_ID job)) as [Hd'|(raw' & Hj & Hk)].
  { destruct (encode_job _); exact Hal. }
  - by apply Hnot.
  - destruct (Honly raw' Hj) as (H1 & H2 & H3). destruct Hk as [(i & Hi & _)|[[? Hk]|(i & Hi)]].
    + apply elem_of_XDEL in Hi as [Hi Hne]. by apply Hne, H3.
    + cbn in Hk. congruence.
    + by apply (H2 i).
Qed.

(** ** No job is tried for ever *)

(** An envelope still to be tried has attempts left; a dead letter has used
    at most all of them. *)
Definition attempts_left (bound : Z) (raw : string) : Prop :=
  ∀ job, decode_job raw = Ok job → job_Attempt job <= bound.

Record bounded (r : Redis) : Prop := {
  bd_stream : ∀ e, e ∈ entries (stream r) → attempts_left (maxAttempts cfg - 1) (snd e);
  bd_held : ∀ e, e ∈ held r → attempts_left (maxAttempts cfg - 1) (snd e);
  bd_retry : ∀ raw, is_Some (retry r !! raw) → attempts_left (maxAttempts cfg - 1) raw;
  bd_dlq : ∀ e, e ∈ entries (dlq r) → attempts_left (maxAttempts cfg) (snd e);
}.

Lemma XADD_sub maxlen trim ms payload s e :
  e ∈ entries (XADD maxlen trim ms payload s) → e ∈ entries s ∨ snd e = payload.
Proof.
  unfold XADD. cbn. intros [i He]%list_elem_of_lookup. rewrite lookup_drop in He. apply list_elem_of_lookup_2 in He.
  apply elem_of_app in He as [He|He%list_elem_of_singleton]; [by left|right]. by rewrite He.
Qed.

Lemma ack_bounded f id r : bounded r → bounded (ackAndDel f id r).
Proof.
  intros [Hs Hh Hr Hq]. unfold ackAndDel.
  destruct (f_ack f), (f_del f); split; try done; cbn -[XDEL]; intros e [He _]%elem_of_XDEL; auto.
Qed.

Lemma dead_letter_bounded f now payload r :
  attempts_left (maxAttempts cfg) payload → bounded r → bounded (deadLetterRaw cfg f now payload r).
Proof.
  intros Hp [Hs Hh Hr Hq]. unfold deadLetterRaw. destruct (f_dlq f); split; try done.
  cbn -[XADD]. intros e [He|He]%XADD_sub; [auto|by rewrite He].
Qed.

Lemma encoded_attempts job s bound : encode_job job = Ok s → job_Attempt job <= bound → attempts_left bound s.
Proof. intros He Hb job' Hd. apply decode_encode in He. congruence. Qed.

Lemma retry_bounded f now job r :
  job_Attempt job <= maxAttempts cfg - 1 → bounded r → bounded (scheduleRetry cfg f now job r).
Proof.
  intros Hj [Hs Hh Hr Hq]. unfold scheduleRetry. destruct (encode_job job) as [s| |] eqn:He; [|done..].
  destruct (f_retry f); split; try done. cbn. intros raw. destruct (decide (raw = s)) as [->|Hne].
  - intros _. by apply (encoded_attempts job).
  - rewrite lookup_insert_ne by done. apply Hr.
Qed.

Lemma process_bounded f now handlers text stopping msg r :
  msg ∈ held r → bounded r → bounded (process cfg f now handlers text stopping msg r).
Proof.
  intros Hin Hb. destruct msg as [id raw]. unfold process, deadLetterJob.
  pose proof (bd_held r Hb _ Hin) as Hraw. cbn in Hraw.
  assert (attempts_left (maxAttempts cfg) raw) as Hraw' by (intros job' Hd; specialize (Hraw job' Hd); lia).
  destruct (decode_job raw) as [job| |] eqn:Hd; [|by apply ack_bounded, dead_letter_bounded..].
  pose proof (Hraw job Hd) as Hj.
  destruct (run_handler handlers job) as [err|]; [|apply ack_bounded; by destruct Hb].
  destruct stopping; [done|]. destruct (Z.leb_spec (maxAttempts cfg) (job_Attempt (failed_job job (text err)))).
  - apply ack_bounded. destruct (encode_job _) as [s| |] eqn:He; [|done..].
    apply dead_letter_bounded; [|done]. eapply encoded_attempts; [exact He|]. cbn. lia.
  - apply ack_bounded, retry_bounded; [lia|done].
Qed.

Lemma crash_bounded msg r : bounded r → bounded (crash msg r).
Proof.
  intros [Hs Hh Hr Hq]. split; try done. intros e He.
  apply list_elem_of_In, filter_In in He as [He _]. apply Hh. by apply list_elem_of_In.
Qed.

Lemma add_bounded trim ms payload r : attempts_left (maxAttempts cfg - 1) payload → bounded r →
  bounded (set_stream r (XADD (streamMaxLen cfg) trim ms payload (stream r))).
Proof.
  intros Hp [Hs Hh Hr Hq]. split; try done. cbn -[XADD]. intros e [He|He]%XADD_sub; [auto|by rewrite He].
Qed.

Lemma enqueueRaw_bounded f now job r : job_Attempt job <= maxAttempts cfg - 1 → bounded r →
  bounded (snd (enqueueRaw cfg f now job r)).
Proof.
  intros Hj Hb. unfold enqueueRaw. destruct (encode_job job) as [s| |] eqn:He; [|done..].
  destruct (f_add f); [|done]. apply add_bounded; [by apply (encoded_attempts job)|done].
Qed.

Lemma read_bounded now r : bounded r → bounded (read_new now r).
Proof.
  intros [Hs Hh Hr Hq]. unfold read_new, XRANGE. destruct (List.filter _ _) as [|[id raw] l] eqn:Hx; [done|].
  assert ((id, raw) ∈ entries (stream r)) as Hin.
  { apply list_elem_of_In. eapply (proj1 (filter_In _ _ _)). rewrite Hx. by left. }
  split; try done. cbn. intros e [->|He]%elem_of_cons; [by apply (Hs (id, raw))|auto].
Qed.

Lemma reclaim_bounded minIdle now r : bounded r → bounded (reclaim minIdle now r).
Proof.
  intros [Hs Hh Hr Hq]. split; try done. unfold reclaim. cbn. intros e [He|He]%elem_of_app; [|auto].
  apply elem_of_take in He as (n & He%list_elem_of_lookup_2 & _).
  apply list_elem_of_In, filter_In in He as [He _]. apply Hs. by apply list_elem_of_In.
Qed.

Lemma move_bounded fs now l r : (∀ m, m ∈ l → attempts_left (maxAttempts cfg - 1) m) → bounded r →
  bounded (foldl (λ r m, move_member cfg (fs m) now m r) r l).
Proof.
  revert r. induction l as [|m l IH]; intros r Hl Hb; [done|]. apply IH; [intros; apply Hl; by right|].
  unfold move_member. destruct (f_add (fs m)); [|done].
  pose proof (add_bounded (f_trim (fs m)) (ms_of now) m r (Hl m ltac:(by left)) Hb) as [Hs Hh Hr Hq].
  destruct (f_rem (fs m)); split; try done. cbn. intros raw [x [_ Hx]%lookup_delete_Some]. eauto.
Qed.

Lemma due_members_retry now r m : m ∈ due_members now r → is_Some (retry r !! m).
Proof.
  unfold due_members. intros ((m' & t) & -> & Hm)%list_elem_of_fmap.
  apply elem_of_take in Hm as (n & Hm%list_elem_of_lookup_2 & _).
  apply list_elem_of_In, filter_In in Hm as [Hm%list_elem_of_In _].
  rewrite merge_sort_Permutation in Hm. apply elem_of_map_to_list in Hm. cbn. eauto.
Qed.

Lemma reinject_bounded fs now l n r : 0 < maxAttempts cfg → bounded r →
  bounded (snd (reinject cfg fs now l n r)).
Proof.
  intros Hmax. revert n r. induction l as [|e l IH]; intros n r Hb; [done|]. cbn [reinject].
  assert (bounded (snd (reinject_entry cfg (fs (fst e)) now e r))) as Hb'.
  { unfold reinject_entry. destruct (decode_job (snd e)) as [job| |]; [|done..].
    pose proof (enqueueRaw_bounded (fs (fst e)) now (fresh_attempts job) r ltac:(cbn; lia) Hb) as Hb1.
    destruct (enqueueRaw _ _ _ _ _) as [[[]| |] r1]; cbn [snd] in *; [|done..].
    destruct (f_del _); [|done]. destruct Hb1 as [Hs Hh Hr Hq]. split; try done.
    cbn -[XDEL]. intros x [Hx _]%elem_of_XDEL. auto. }
  destruct (reinject_entry _ _ _ _ _) as [[b| |] r1]; cbn [snd] in *; [by apply IH|done..].
Qed.

Lemma empty_bounded : bounded empty_redis.
Proof. split; cbn; try (intros ? []%elem_of_nil). intros raw [? Hr]. by rewrite lookup_empty in Hr. Qed.

(** whatever commands fail, and however the stream is trimmed, an
    envelope waiting to be tried has made fewer than [maxAttempts] attempts,
    and a dead letter at most that many. *)
Theorem attempts_bounded harmless r :
  0 < maxAttempts cfg → rtc (step cfg harmless) empty_redis r → bounded r.
Proof.
  intros Hmax Hr. remember empty_redis as r0 eqn:H0. assert (bounded r0) as Hb by (subst; apply empty_bounded).
  clear H0. induction Hr as [|r0 r1 r2 Hstep _ IH]; [done|]. apply IH. clear IH.
  destruct Hstep as [f now uuid ty raw r Hf|now r|minIdle now r|msg r
    |f now handlers text stopping msg r Hf Hin|fs now r Hf|fs now r Hf].
  - apply enqueueRaw_bounded; [cbn; lia|done].
  - by apply read_bounded.
  - by apply reclaim_bounded.
  - by apply crash_bounded.
  - by apply crash_bounded, process_bounded.
  - apply move_bounded; [|done]. intros m Hm. by apply (bd_retry r Hb), (due_members_retry now).
  - by apply reinject_bounded.
Qed.

End Conservation.

(** ** Walking the dead letters *)

Lemma scan_batch_app `{JobJson} {A} (fn : DeadLetter → SM A unit) l k acc :
  scan_batch fn (l ++ k) acc = bindM (scan_batch fn l) (λ _, scan_batch fn k) acc.
Proof.
  revert acc. induction l as [|e l IH]; intros acc; [done|]. cbn. unfold bindM in *. destruct (fn _ acc) as [[[]| |] acc']; [apply IH|done..].
Qed.

(** Past the last entry of a batch lies what the batch left. *)
Lemma filter_past (b d : list (Z * string)) f :
  StronglySorted Z.lt (fst <$> b ++ d) → last b = Some f → List.filter (λ e, fst f <? fst e) (b ++ d) = d.
Proof.
  intros Hs (b' & ->)%last_Some. rewrite fmap_app in Hs. rewrite List.filter_app, filter_none, filter_all; [done|..].
  - intros e He. apply Z.ltb_lt. apply (StronglySorted_app_1_elem_of Z.lt _ _ _ _ Hs).
    + rewrite fmap_app. apply elem_of_app. right. by left.
    + by apply list_elem_of_fmap_2.
  - intros e [He| ->%list_elem_of_singleton]%elem_of_app; apply Z.ltb_ge; [|done]. apply Z.lt_le_incl.
    apply StronglySorted_app_1_l in Hs. rewrite fmap_app in Hs.
    apply (StronglySorted_app_1_elem_of Z.lt _ _ _ _ Hs); [by apply list_elem_of_fmap_2|by left].
Qed.

Lemma scan_from `{JobJson} {A} (fn : DeadLetter → SM A unit) s fuel start acc :
  ordered s → (length (List.filter (λ e, (start <? fst e)%Z) (entries s)) < fuel)%nat →
  ScanDLQ fuel fn s start acc = scan_batch fn (List.filter (λ e, start <? fst e) (entries s)) acc.
Proof.
  intros [Hs _]. revert start acc. induction fuel as [|fuel IH]; intros start acc Hf; [lia|].
  cbn [ScanDLQ]. unfold XRANGE. pose proof (sorted_filter (λ e, start <? fst e) _ Hs) as Hr.
  assert (∀ e, e ∈ List.filter (λ e, start <? fst e) (entries s) → start < fst e) as Habove
    by (intros e [_ He%Z.ltb_lt]%elem_of_filter_b; done).
  assert (∀ c, start <= c → List.filter (λ e, c <? fst e) (List.filter (λ e, start <? fst e) (entries s)) =
    List.filter (λ e, c <? fst e) (entries s)) as Hff
    by (intros c Hc; apply filter_filter_sub; intros e _ He%Z.ltb_lt; apply Z.ltb_lt; lia).
  set (rem := List.filter (λ e, start <? fst e) (entries s)) in *.
  rewrite <- (take_drop dlqScanBatch rem) in Hr. destruct (last (take dlqScanBatch rem)) as [f|] eqn:Hl.
  - assert (f ∈ rem) as Hin.
    { apply last_Some_elem_of in Hl. rewrite <- (take_drop dlqScanBatch rem). apply elem_of_app. by left. }
    assert (List.filter (λ e, fst f <? fst e) (entries s) = drop dlqScanBatch rem) as Hd.
    { rewrite <- (Hff (fst f)) by (apply Habove in Hin; lia). rewrite <- (take_drop dlqScanBatch rem) at 1.
      by apply filter_past. }
    rewrite <- (take_drop dlqScanBatch rem) at 2. rewrite scan_batch_app. unfold bindM.
    destruct (scan_batch fn (take dlqScanBatch rem) acc) as [[[]| |] acc']; cbn; [|done..].
    rewrite IH; rewrite Hd; [done|]. rewrite length_drop. unfold dlqScanBatch.
    destruct rem; [by apply elem_of_nil in Hin|]. cbn [length] in *. lia.
  - apply last_None in Hl. by destruct rem.
Qed.

(** [ScanDLQ] reads the stream in batches of a thousand, yet calls back
    on every dead letter exactly once, oldest first, and stops at the first
    error of the callback; with as much fuel as there are entries it ends. *)
Theorem ScanDLQ_visits `{JobJson} {A} (fn : DeadLetter → SM A unit) s fuel acc :
  ordered s → Forall (λ e, 0 <= fst e) (entries s) → (length (entries s) < fuel)%nat →
  ScanDLQ fuel fn s (-1) acc = scan_batch fn (entries s) acc.
Proof.
  intros Hs Hp Hf. assert (List.filter (λ e, -1 <? fst e) (entries s) = entries s) as Hall.
  { apply filter_all. intros e He. rewrite Forall_forall in Hp. specialize (Hp e He). apply Z.ltb_lt. lia. }
  by rewrite scan_from; rewrite ?Hall.
Qed.

(** ** A concrete queue *)

Module Envelopes.

(** Envelopes written as the binary numeral that codes their fields. *)
Fixpoint bits (p : positive) : string :=
  match p with
  | xH => ""
  | xO p => String "0" (bits p)
  | xI p => String "1" (bits p)
  end.

Fixpoint unbits (s : string) : option positive :=
  match s with
  | EmptyString => Some xH
  | String c s =>
      if ascii_dec c "0" then xO <$> unbits s else if ascii_dec c "1" then xI <$> unbits s else None
  end.

Lemma unbits_bits p : unbits (bits p) = Some p.
Proof. induction p as [p IH|p IH|]; cbn; [by rewrite IH|by rewrite IH|done]. Qed.

Definition fields : Type := string * string * string * Z * Z * string.
Definition fields_of (j : Job) : fields :=
  (job_ID j, job_Type j, job_Payload j, job_Attempt j, job_CreatedAt j, job_LastError j).
Definition of_fields '((i, t, p, a, c, e) : fields) : Job := mkJob i t p a c e.

#[export] Instance envelopes : JobJson := {|
  encode_job := λ job, Ok (bits (encode (fields_of job)));
  decode_job := λ s, match unbits s ≫= decode (A := fields) with
                     | Some v => Ok (of_fields v)
                     | None => Err (GoError "invalid character")
                     end;
  json_valid := λ s, bool_decide (is_Some (unbits s));
  quote := λ s, s;
|}.

Lemma envelopes_read job s : encode_job job = Ok s → decode_job s = Ok job.
Proof. cbn. intros [= <-]. rewrite unbits_bits. cbn. rewrite decode_encode. by destruct job. Qed.

Lemma envelopes_write raw job attempt text : decode_job raw = Ok job →
  is_ok (encode_job (mkJob (job_ID job) (job_Type job) (job_Payload job) attempt (job_CreatedAt job) text)) = true.
Proof. done. Qed.

Definition cfg : Config := mkConfig 2 10 100 100.
Definition failing : Handlers := {[ "mail" := λ _, Some (GoError "refused") ]}.
Definition text (e : error) : string := "refused".

Definition enqueued : Redis := snd (Enqueue cfg no_faults 0 "j1" "mail" "{}" empty_redis).
Definition message : Z * string := (1, bits (encode ("j1", "mail", "{}", 0, 0, ""))).
Definition taken : Redis := read_new 0 enqueued.

(** No acknowledgement gets through, and the consumer dies. *)
Definition lossy : Faults := mkFaults true true true false true true 0.
Definition retried : Redis := crash message (process cfg lossy 0 failing text false message taken).

Lemma empty_ok : ok empty_redis.
Proof. split; cbn; [by repeat constructor..|done|]. intros id raw []%elem_of_nil. Qed.

Lemma retried_steps : rtc (step cfg durable) enqueued retried.
Proof.
  eapply rtc_l; [apply (StepRead cfg durable 0)|].
  eapply rtc_l; [|apply rtc_refl].
  apply (StepProcess cfg durable lossy 0 failing text false message); [done|vm_compute; left].
Qed.

End Envelopes.
#[local] Existing Instance Envelopes.envelopes.


Lemma attempts_bounded_witness :
  map (λ m, job_Attempt <$> (match decode_job (fst m) with Ok j => Some j | _ => None end))
    (map_to_list (retry Envelopes.retried)) = [Some 1] ∧
  bounded Envelopes.cfg Envelopes.retried.
Proof.
  split; [vm_compute; reflexivity|].
  refine (attempts_bounded Envelopes.cfg Envelopes.envelopes_read durable Envelopes.retried eq_refl _).
  eapply rtc_l; [|exact Envelopes.retried_steps].
  exact (StepEnqueue Envelopes.cfg durable no_faults 0 "j1" "mail" "{}" empty_redis (conj eq_refl (conj eq_refl eq_refl))).
Defined.

Lemma failed_retry_loses_witness :
  alive Envelopes.taken "j1" ∧
  ¬ alive (process Envelopes.cfg (mkFaults true false true true true true 0) 0 Envelopes.failing Envelopes.text false
             Envelopes.message Envelopes.taken) "j1".
Proof.
  split.
  - right. exists (snd Envelopes.message). split; [vm_compute; eauto|]. left. exists 1. split; [vm_compute; left|].
    right. vm_compute. eauto.
  - refine (failed_retry_loses Envelopes.cfg _ 0 Envelopes.failing Envelopes.text 1 (snd Envelopes.message)
      (mkJob "j1" "mail" "{}" 0 0 "") (GoError "refused") Envelopes.taken _ _ _ _ _ _ _ _ _);
      [vm_compute; reflexivity..|vm_compute; left| |].
    + vm_compute. discriminate.
    + intros raw' _. split; [vm_compute; reflexivity|]. split; [intros i []%elem_of_nil|].
      intros i. vm_compute. intros Hi. inversion Hi as [|? ? ? Hn]; simplify_eq; [done|inversion Hn].
Defined.

Lemma ScanDLQ_visits_witness :
  let s := XADD 10 0 5 "b" (XADD 10 0 3 "a" (mkStream [] 0)) in
  let collect d := modifyM (λ acc, acc ++ [dl_Raw d]) in
  ScanDLQ 3 collect s (-1) [] = (Ok tt, ["a"; "b"]) ∧ ScanDLQ 3 collect s (-1) [] = scan_batch collect (entries s) [].
Proof.
  split; [vm_compute; reflexivity|].
  refine (ScanDLQ_visits _ (XADD 10 0 5 "b" (XADD 10 0 3 "a" (mkStream [] 0))) 3 [] _ _ _).
  - do 2 apply ordered_XADD. split; cbn; constructor.
  - vm_compute. repeat constructor; discriminate.
  - vm_compute. lia.
Defined.
