(* ===== verification/JobQueueLive.v ===== *)
(** * JobQueueLive: a job that was accepted reaches a consumer again

    [JobQueueFacts] shows that the queue keeps a job somewhere.  Here: from
    every such place but the dead letters, the queue's own loops - the readers,
    the reclaimer and the mover - bring it into a consumer's hands, even if every
    consumer forgot what it held. *)

From S2P Require Import Prelude Effects Documents JobQueue JobQueueFacts.
From stdpp Require Import prelude strings gmap list relations sorting.
From Stdlib Require Import ZArith Lia Ascii.
Open Scope Z_scope.

(** ** Counting what is left *)

Lemma filter_fewer {A} (f g : A → bool) (l : list A) e :
  (∀ x, g x = true → f x = true) → e ∈ l → f e = true → g e = false →
  (length (List.filter g l) < length (List.filter f l))%nat.
Proof.
  intros Hgf. assert (∀ l, (length (List.filter g l) <= length (List.filter f l))%nat) as Hle.
  { intros k. induction k as [|x k IH]; cbn; [done|]. specialize (Hgf x).
    destruct (g x); [rewrite Hgf by done; cbn; lia|destruct (f x); cbn; lia]. }
  induction l as [|x l IH]; [by intros ?%elem_of_nil|]. intros [->|He]%elem_of_cons Hf Hg; cbn.
  - rewrite Hf, Hg. cbn. specialize (Hle l). lia.
  - specialize (IH He Hf Hg). specialize (Hgf x). destruct (g x); [rewrite Hgf by done; cbn; lia|destruct (f x); cbn; lia].
Qed.

Lemma elem_of_List_filter {A} (f : A → bool) (l : list A) x : x ∈ List.filter f l ↔ x ∈ l ∧ f x = true.
Proof. by rewrite !list_elem_of_In, filter_In. Qed.

Section Live.
Context `{JobJson} (cfg : Config).

(** ** The loops *)

(** One turn of a loop at a time, with the reclaimer's idle time. *)
Inductive loop_step (minIdle now : Z) : Redis → Redis → Prop :=
| LoopRead r : loop_step minIdle now r (read_new now r)
| LoopReclaim r : loop_step minIdle now r (reclaim minIdle now r)
| LoopMove r : loop_step minIdle now r (moveDueRetries cfg (λ _, no_faults) now r).

(** The loops put the payload into a consumer's hands. *)
Definition reaches (minIdle now : Z) (r : Redis) (raw : string) : Prop :=
  ∃ r2 id, rtc (loop_step minIdle now) r r2 ∧ (id, raw) ∈ held r2.

Lemma reaches_step minIdle now r r1 raw :
  loop_step minIdle now r r1 → reaches minIdle now r1 raw → reaches minIdle now r raw.
Proof. intros Hs (r2 & id & Hr & Hin). exists r2, id. split; [by eapply rtc_l|done]. Qed.

(** *** Reading *)

Definition undelivered (r : Redis) (raw : string) : Prop :=
  ∃ id, (id, raw) ∈ entries (stream r) ∧ delivered r < id.

Lemma undelivered_reaches minIdle now r raw : ok r → undelivered r raw → reaches minIdle now r raw.
Proof.
  remember (length (List.filter (λ e, delivered r <? fst e) (entries (stream r)))) as n eqn:Hn.
  revert r Hn. induction n as [n IH] using lt_wf_ind. intros r Hn Hok (id & Hin & Hd).
  apply (reaches_step _ _ _ (read_new now r)); [constructor|].
  destruct (XRANGE (delivered r) 1 (stream r)) as [|[i x] l] eqn:Hx.
  { exfalso. unfold XRANGE in Hx. assert ((id, raw) ∈ List.filter (λ e, delivered r <? fst e) (entries (stream r))) as Hf
      by (apply elem_of_List_filter; split; [done|by apply Z.ltb_lt]).
    destruct (List.filter _ _); [by apply elem_of_nil in Hf|done]. }
  destruct (XRANGE_first _ _ _ _ (id, raw) (ok_stream r Hok) Hx) as (He & Hlt & Hfirst). cbn in Hlt.
  pose proof (read_ok now r Hok) as Hok'. unfold read_new in *. rewrite Hx in *.
  destruct (Hfirst Hin Hd) as [[= -> ->]|Hl].
  - eexists _, _. split; [apply rtc_refl|]. cbn. by left.
  - eapply IH; [|reflexivity|done|by exists id]. rewrite Hn. cbn [stream delivered set_held set_pending set_delivered].
    apply (filter_fewer _ _ _ (i, x)); [|done|by apply Z.ltb_lt|apply Z.ltb_irrefl].
    intros e. rewrite !Z.ltb_lt. cbn. lia.
Qed.

(** *** Reclaiming *)

Lemma foldl_claimed (t : Z) (l : list (Z * string)) (p : gmap Z Z) i :
  foldl (λ p e, <[fst e := t]> p) p l !! i = if bool_decide (i ∈ fst <$> l) then Some t else p !! i.
Proof.
  revert p. induction l as [|e l IH]; intros p; [done|]. cbn [foldl fmap list_fmap]. rewrite IH.
  destruct (decide (i ∈ fst <$> l)) as [Hi|Hi].
  - by rewrite !bool_decide_true by (try apply elem_of_cons; auto).
  - rewrite (bool_decide_false (i ∈ _ <$> _)) by done. destruct (decide (i = fst e)) as [->|Hne].
    + rewrite lookup_insert_eq, bool_decide_true; [done|]. by left.
    + rewrite lookup_insert_ne, bool_decide_false; [done| |done]. by intros [|]%elem_of_cons.
Qed.

Lemma claimable_reaches minIdle now r id raw : 0 < minIdle → ok r → (id, raw) ∈ entries (stream r) →
  claimable minIdle now r (id, raw) = true → reaches minIdle now r raw.
Proof.
  intros Hidle. remember (length (List.filter (claimable minIdle now r) (entries (stream r)))) as n eqn:Hn.
  revert r Hn. induction n as [n IH] using lt_wf_ind. intros r Hn Hok Hin Hc.
  apply (reaches_step _ _ _ (reclaim minIdle now r)); [constructor|].
  pose proof (reclaim_ok minIdle now r Hok) as Hok'. unfold reclaim in *.
  set (L := List.filter (claimable minIdle now r) (entries (stream r))) in *.
  set (r1 := set_held _ _) in *.
  assert (∀ e, claimable minIdle now r1 e = true → claimable minIdle now r e = true ∧ fst e ∉ fst <$> take 100 L) as Hless.
  { intros e. unfold claimable, r1. cbn [pending set_held set_pending]. rewrite foldl_claimed.
    case_bool_decide; [|done]. rewrite Z.sub_diag. intros ?%Z.leb_le. lia. }
  assert ((id, raw) ∈ L) as HL by (by apply elem_of_List_filter).
  destruct (decide ((id, raw) ∈ take 100 L)) as [Ht|Ht].
  { exists r1, id. split; [apply rtc_refl|]. apply elem_of_app. by left. }
  destruct L as [|e L'] eqn:EL; [by apply elem_of_nil in HL|].
  assert (e ∈ entries (stream r) ∧ claimable minIdle now r e = true) as [He Hce].
  { apply elem_of_List_filter. fold L. rewrite EL. by left. }
  eapply IH; [|reflexivity|exact Hok'|exact Hin|].
  - rewrite Hn. rewrite <- EL. subst L. apply (filter_fewer _ _ _ e); [intros x Hx; by apply Hless|done|done|].
    apply not_true_is_false. intros Hx. apply Hless in Hx as [_ []]. cbn. by left.
  - unfold claimable, r1. cbn [pending set_held set_pending]. rewrite foldl_claimed. case_bool_decide as Hi; [|exact Hc].
    exfalso. apply Ht. apply list_elem_of_fmap in Hi as ([i x] & Hi & Hx). cbn in Hi. subst i.
    assert ((id, x) ∈ List.filter (claimable minIdle now r) (entries (stream r))) as Hf.
    { fold L. rewrite EL. apply elem_of_take in Hx as (k & Hk & _). by apply list_elem_of_lookup_2 in Hk. }
    apply elem_of_List_filter in Hf as [Hf _]. by rewrite (ordered_unique _ _ _ _ (ok_stream r Hok) Hin Hf).
Qed.

(** *** Moving due retries *)

Lemma move_member_moves now m r : ok r →
  let r' := move_member cfg no_faults now m r in
  ok r' ∧ retry r' = delete m (retry r) ∧ undelivered r' m ∧ (∀ x, undelivered r x → undelivered r' x).
Proof.
  intros Hok r'. split; [by apply move_member_ok|]. subst r'. unfold move_member. cbn [no_faults f_add f_rem f_trim].
  pose proof (next_id_fresh (stream r) (ms_of now)) as Hn. pose proof (ok_delivered r Hok) as Hd.
  split; [done|]. split.
  - exists (next_id (stream r) (ms_of now)). cbn [set_retry set_stream stream delivered].
    split; [apply elem_of_XADD; by right|lia].
  - intros x (i & Hi & Hl). exists i. cbn [set_retry set_stream stream delivered]. split; [|done]. apply elem_of_XADD. by left.
Qed.

Lemma moves_all now l r : ok r →
  let r' := foldl (λ r m, move_member cfg no_faults now m r) r l in
  ok r' ∧ (∀ m, m ∉ l → retry r' !! m = retry r !! m) ∧ retry r' ⊆ retry r ∧
  (∀ m, m ∈ l → undelivered r' m ∧ retry r' !! m = None) ∧ (∀ m, undelivered r m → undelivered r' m).
Proof.
  revert r. induction l as [|m l IH]; intros r Hok; cbn [foldl].
  { split_and!; [done..| |done]. intros m []%elem_of_nil. }
  destruct (move_member_moves now m r Hok) as (Hok1 & Hr1 & Hm & Hmono).
  destruct (IH _ Hok1) as (Hok2 & Hr2 & Hsub & Hl & Hmono2). rewrite Hr1 in Hsub.
  split_and!; [done| |by etrans; [exact Hsub|apply delete_subseteq]| |auto].
  - intros x [Hx Hxl]%not_elem_of_cons. rewrite (Hr2 x Hxl), Hr1. by apply lookup_delete_ne.
  - intros x [->|Hx]%elem_of_cons; [|by apply Hl]. split; [by apply Hmono2|].
    destruct (foldl _ _ _) as [s d p rt q h hd]; cbn in *. destruct (rt !! m) as [v|] eqn:E; [|done].
    apply (lookup_weaken _ _ _ _ E) in Hsub. by rewrite lookup_delete_eq in Hsub.
Qed.

Lemma due_nonempty now r raw score : retry r !! raw = Some score → score <= ms_of now → due_members now r ≠ [].
Proof.
  intros Hr Hs. unfold due_members.
  set (l := List.filter _ _).
  assert ((raw, score) ∈ l) as Hin.
  { apply elem_of_List_filter. split; [|by apply Z.leb_le]. rewrite merge_sort_Permutation. by apply elem_of_map_to_list. }
  destruct l; [by apply elem_of_nil in Hin|done].
Qed.

Lemma retry_reaches minIdle now r raw score : ok r → retry r !! raw = Some score → score <= ms_of now →
  reaches minIdle now r raw.
Proof.
  remember (size (retry r)) as n eqn:Hn. revert r Hn. induction n as [n IH] using lt_wf_ind. intros r Hn Hok Hr Hs.
  apply (reaches_step _ _ _ (moveDueRetries cfg (λ _, no_faults) now r)); [constructor|].
  unfold moveDueRetries. destruct (moves_all now (due_members now r) r Hok) as (Hok' & Hout & Hsub & Hall & _).
  set (r1 := foldl _ _ _) in *. destruct (decide (raw ∈ due_members now r)) as [Hd|Hd].
  { apply undelivered_reaches; [done|]. by apply Hall. }
  eapply (IH (size (retry r1))); [|done|done|by rewrite Hout|done].
  destruct (due_members now r) as [|m l] eqn:E; [by apply (due_nonempty now r raw score) in Hr|].
  destruct (Hall m) as [_ Hm]; [by left|].
  assert (is_Some (retry r !! m)) as [v Hv] by (apply (due_members_retry now); rewrite E; by left).
  rewrite Hn. apply map_subset_size. split; [done|]. intros Hsub'.
  apply (lookup_weaken _ _ _ _ Hv) in Hsub'. congruence.
Qed.

(** *** Wherever the queue keeps it *)

Lemma ms_of_scaled t : ms_of (t * 1000000) = t.
Proof. unfold ms_of. by apply Z.div_mul. Qed.

Lemma ms_of_mono a b : a <= b → ms_of a <= ms_of b.
Proof. intros Hab. unfold ms_of. apply Z.div_le_mono; lia. Qed.

Lemma kept_reaches minIdle from r raw : 0 < minIdle → ok r → kept r raw →
  (∃ id, (id, raw) ∈ entries (dlq r)) ∨ ∃ now, from <= now ∧ reaches minIdle now r raw.
Proof.
  intros Hidle Hok [(id & Hin & [Hd|[t Ht]])|[[score Hr]|Hq]]; [| | |by left]; right.
  - exists from. split; [done|]. apply undelivered_reaches; [done|]. by exists id.
  - exists (Z.max from ((t + minIdle) * 1000000)). split; [lia|]. apply (claimable_reaches _ _ _ id); [done..|].
    unfold claimable. cbn [fst]. rewrite Ht. apply Z.leb_le.
    pose proof (ms_of_mono ((t + minIdle) * 1000000) (Z.max from ((t + minIdle) * 1000000)) ltac:(lia)).
    rewrite ms_of_scaled in *. lia.
  - exists (Z.max from (score * 1000000)). split; [lia|]. apply (retry_reaches _ _ _ _ score); [done..|].
    pose proof (ms_of_mono (score * 1000000) (Z.max from (score * 1000000)) ltac:(lia)). by rewrite ms_of_scaled in *.
Qed.

Lemma forget_ok r : ok r → ok (set_held r []).
Proof. intros [Hs Hq Hd _]. split; [done..|]. intros id raw []%elem_of_nil. Qed.

Lemma alive_reaches minIdle from r j : 0 < minIdle → ok r → alive r j →
  j ∈ handled r ∨ (∃ raw id, of_job raw j ∧ (id, raw) ∈ entries (dlq r)) ∨
  ∃ raw now, of_job raw j ∧ from <= now ∧ reaches minIdle now (set_held r []) raw.
Proof.
  intros Hidle Hok [Hj|(raw & Hj & Hk)]; [by left|right].
  destruct (kept_reaches minIdle from (set_held r []) raw Hidle (forget_ok r Hok) Hk) as [(id & Hq)|(now & Hle & Hr)].
  - left. by exists raw, id.
  - right. by exists raw, now.
Qed.

(** JSON of an envelope reads back, and an envelope that was read can be
    written again with other bookkeeping. *)
Context (decode_encode : ∀ job s, encode_job job = Ok s → decode_job s = Ok job).
Context (reencode : ∀ raw job attempt text, decode_job raw = Ok job →
  is_ok (encode_job (mkJob (job_ID job) (job_Type job) (job_Payload job) attempt (job_CreatedAt job) text)) = true).

(** C7: a job [Enqueue] accepted is never lost as long as the writes of retries
    and of dead letters succeed, streams are not trimmed and nobody purges the
    dead letters.  After any such execution of the queue - in which additions,
    acknowledgements, deletions and consumers may fail at any point, and dead
    letters may be reinjected - the job was handled, or is a dead letter, or,
    even if every consumer now forgets what it holds, turns of the readers, the
    reclaimer and the mover, at a time as late as one likes and without a further
    fault, put it into a consumer's hands again. *)
Theorem at_least_once f now uuid ty raw r r1 r' minIdle from :
  ok r → durable f → 0 < minIdle → Enqueue cfg f now uuid ty raw r = (Ok tt, r1) → rtc (step cfg durable) r1 r' →
  uuid ∈ handled r' ∨
  (∃ raw' id, of_job raw' uuid ∧ (id, raw') ∈ entries (dlq r')) ∨
  ∃ raw' now' r2 id, of_job raw' uuid ∧ from <= now' ∧
    rtc (loop_step minIdle now') (set_held r' []) r2 ∧ (id, raw') ∈ held r2.
Proof.
  intros Hok Hf Hidle He Hr. unfold Enqueue in He.
  pose proof (enqueueRaw_ok cfg f now (mkJob uuid ty raw 0 now "") r Hf Hok) as Ho.
  destruct (enqueueRaw_alive cfg decode_encode reencode f now (mkJob uuid ty raw 0 now "") r uuid Hf Hok) as [_ Hnew].
  rewrite He in Ho, Hnew. cbn [fst snd] in *. destruct (Hnew eq_refl) as (s & Hs & Hd).
  destruct (steps_safe cfg decode_encode reencode r1 r' uuid Hr Ho) as [Hok' Ha].
  { right. exists s. split; [eexists; eauto|by left]. }
  destruct (alive_reaches minIdle from r' uuid Hidle Hok' Ha) as [|[|(raw' & now' & Hj & Hle & r2 & id & Hsteps & Hin)]];
    [by left|by right; left|]. right; right. by exists raw', now', r2, id.
Qed.
End Live.

(** ** Example *)

Section Witness.
#[local] Existing Instance Envelopes.envelopes.

(** The job failed once, its acknowledgement was lost and the consumer died: it
    is neither handled nor a dead letter, and comes back. *)
Lemma at_least_once_witness :
  ("j1" ∉ handled Envelopes.retried ∧ entries (dlq Envelopes.retried) = []) ∧
  ("j1" ∈ handled Envelopes.retried ∨
   (∃ raw' id, of_job raw' "j1" ∧ (id, raw') ∈ entries (dlq Envelopes.retried)) ∨
   ∃ raw' now' r2 id, of_job raw' "j1" ∧ 500 <= now' ∧
     rtc (loop_step Envelopes.cfg 300000 now') (set_held Envelopes.retried []) r2 ∧ (id, raw') ∈ held r2).
Proof.
  split; [split; [vm_compute; discriminate|vm_compute; reflexivity]|].
  exact (at_least_once Envelopes.cfg Envelopes.envelopes_read Envelopes.envelopes_write
    no_faults 0 "j1" "mail" "{}" empty_redis Envelopes.enqueued Envelopes.retried 300000 500
    Envelopes.empty_ok (conj eq_refl (conj eq_refl eq_refl)) eq_refl eq_refl Envelopes.retried_steps).
Defined.
End Witness.
