(* ===== verification/DeadLetters.v ===== *)
(** * DeadLetters: the operator's view of the dead letters
      ([src/cmd/conctl/dump-dlq.go], [purge-dlq.go])

    [dump-dlq] writes every dead letter as a line; [purge-dlq] deletes those
    older than an age, or only counts them. *)

From S2P Require Import Prelude Effects Documents JobQueue JobQueueFacts.
From stdpp Require Import prelude strings gmap list sorting.
From Stdlib Require Import ZArith Lia Ascii.
Open Scope Z_scope.

Section Commands.
Context `{JobJson}.

(** JSON of a dead letter. *)
Context (marshal_dead_letter : DeadLetter → result string).

(** The scan reads until a batch is empty: once more than there are batches. *)
Definition scan_fuel (s : Stream) : nat := S (length (entries s)).

Definition write_letter (dl : DeadLetter) : SM (list string) unit :=
  bindM (liftM (marshal_dead_letter dl)) (λ line, modifyM (λ lines, lines ++ [line])).

(** Whether it failed, and the lines written so far. *)
Definition dumpDLQ (s : Stream) : result unit * list string := ScanDLQ (scan_fuel s) write_letter s (-1) [].

Definition stop : error := GoError "cutoff reached".

(** The time part of a stream id. *)
Definition id_ms (id : Z) : Z := id / 2 ^ 64.

Definition count_letter (cutoff : Z) (dl : DeadLetter) : SM nat unit := λ count,
  if cutoff <=? id_ms (dl_StreamID dl) then (Err stop, count) else (Ok tt, S count).

(** How many are, or would be, deleted. *)
Definition purgeDLQ (olderThan : Z) (dryRun : bool) (now : Z) (r : Redis) : result nat * Redis :=
  if olderThan <=? 0 then (Err (GoError "--older-than must be positive"), r)
  else
    let before := now - olderThan in
    if dryRun then
      match ScanDLQ (scan_fuel (dlq r)) (count_letter (ms_of before)) (dlq r) (-1) O with
      | (Ok _, count) => (Ok count, r)
      | (Err (GoError text), count) =>
          (if String.eqb text "cutoff reached" then Ok count else Err (GoError "failed to read dead-letter stream"), r)
      | (Err _, _) => (Err (GoError "failed to read dead-letter stream"), r)
      | (Panic, _) => (Panic, r)
      end
    else let '(deleted, r) := PurgeDLQ before r in (Ok deleted, r).

(** Entries have the time they were added in their ids. *)
Definition timed (s : Stream) : Prop := ordered s ∧ Forall (λ e, 0 <= fst e) (entries s).

Lemma id_ms_cutoff cutoff id : (id_of_ms cutoff <=? id) = (cutoff <=? id_ms id).
Proof.
  unfold id_of_ms, id_ms. apply eq_true_iff_eq. rewrite !Z.leb_le. pose proof (Z.pow_pos_nonneg 2 64 ltac:(lia) ltac:(lia)).
  split; intros Hc; [by apply Z.div_le_lower_bound; [|lia]|]. pose proof (Z.mul_div_le id (2 ^ 64) ltac:(lia)). nia.
Qed.

Lemma letter_id e : dl_StreamID (dead_letter e) = fst e.
Proof. unfold dead_letter. by destruct (json_valid _). Qed.

(** A dump is the dead letters, each once, oldest first. *)
Theorem dump_letters s lines : timed s → Forall2 (λ e line, marshal_dead_letter (dead_letter e) = Ok line) (entries s) lines →
  dumpDLQ s = (Ok tt, lines).
Proof.
  intros [Ho Hp] Hl. unfold dumpDLQ. rewrite ScanDLQ_visits by (done || unfold scan_fuel; lia). clear Ho Hp. change lines with ([] ++ lines) at 1.
  generalize (@nil string). induction Hl as [|e line l lines He _ IH]; intros acc; cbn [scan_batch]; [by rewrite app_nil_r|].
  unfold write_letter at 1. unfold bindM. cbn. rewrite He. cbn. rewrite IH. by rewrite <- app_assoc.
Qed.

(** Oldest first, so what is counted is what is below the cutoff. *)
Lemma count_below cutoff l count : StronglySorted Z.lt (fst <$> l) →
  let below := List.filter (λ e, negb (cutoff <=? id_ms (fst e))) l in
  snd (scan_batch (count_letter cutoff) l count) = (count + length below)%nat ∧
  (fst (scan_batch (count_letter cutoff) l count) = Ok tt ∨ fst (scan_batch (count_letter cutoff) l count) = Err stop).
Proof.
  revert count. induction l as [|e l IH]; intros count; cbn [fmap list_fmap scan_batch List.filter]; [cbn; split; [lia|by left]|].
  intros [Hs Hall]%StronglySorted_inv. unfold bindM, count_letter at 1 3 5. rewrite letter_id.
  destruct (Z.leb_spec cutoff (id_ms (fst e))) as [Hc|Hc]; cbn [negb].
  - assert (List.filter (λ e, negb (cutoff <=? id_ms (fst e))) l = []) as ->; [|cbn; split; [lia|by right]].
    apply filter_none. intros e' He'. apply negb_false_iff, Z.leb_le. rewrite Forall_forall in Hall.
    specialize (Hall (fst e') ltac:(by apply list_elem_of_fmap_2)). unfold id_ms in *.
    pose proof (Z.div_le_mono (fst e) (fst e') (2 ^ 64) ltac:(lia) ltac:(lia)). lia.
  - destruct (IH (S count) Hs) as [IH1 IH2]. rewrite IH1. split; [cbn [length]; lia|done].
Qed.

(** [--dry-run] tells the truth: it counts what the purge then deletes, and
    deletes nothing; what the purge leaves is what is younger. *)
Theorem purge_dry_run olderThan now r : timed (dlq r) →
  purgeDLQ olderThan true now r = (fst (purgeDLQ olderThan false now r), r) ∧
  (0 < olderThan → ∀ e, e ∈ entries (dlq (snd (purgeDLQ olderThan false now r))) ↔
     e ∈ entries (dlq r) ∧ ms_of (now - olderThan) <= id_ms (fst e)).
Proof.
  intros [Ho Hp]. unfold purgeDLQ. destruct (Z.leb_spec olderThan 0) as [Hn|Hn]; [split; [done|lia]|].
  set (cutoff := ms_of (now - olderThan)). rewrite ScanDLQ_visits by (done || unfold scan_fuel; lia).
  destruct (count_below cutoff (entries (dlq r)) 0 (proj1 Ho)) as [Hcount Hres]. unfold PurgeDLQ, XTRIM_MINID. cbn [fst snd]. fold cutoff.
  split.
  - destruct (scan_batch _ _ _) as [res count]. cbn [fst snd] in *. subst count.
    assert ((length (entries (dlq r)) - length (List.filter (λ e, (id_of_ms cutoff <=? fst e)%Z) (entries (dlq r))))%nat =
      length (List.filter (λ e, negb (cutoff <=? id_ms (fst e))) (entries (dlq r)))) as ->.
    { rewrite <- (List.filter_length (λ e, id_of_ms cutoff <=? fst e) (entries (dlq r))).
      assert (List.filter (λ e, negb (cutoff <=? id_ms (fst e))) (entries (dlq r)) = List.filter (λ e, negb (id_of_ms cutoff <=? fst e)) (entries (dlq r))) as ->.
      { apply List.filter_ext. intros e. by rewrite id_ms_cutoff. }
      lia. }
    by destruct Hres as [-> | ->].
  - intros _ e. cbn. rewrite elem_of_filter_b, id_ms_cutoff, Z.leb_le. done.
Qed.
End Commands.

(** ** Three dead letters *)

Module Letters.
#[export] Instance json : JobJson := Envelopes.envelopes.
Definition letters : Stream := XADD 10 0 9000 "c" (XADD 10 0 5000 "b" (XADD 10 0 3000 "a" (mkStream [] 0))).
Definition marshal (dl : DeadLetter) : result string := Ok (dl_Raw dl).
Definition redis : Redis := set_dlq empty_redis letters.
End Letters.
Import Letters.

Lemma letters_timed : timed letters.
Proof. split; [do 3 apply ordered_XADD; split; cbn; constructor|]. vm_compute. repeat constructor; discriminate. Defined.

Lemma dump_letters_witness : dumpDLQ marshal letters = (Ok tt, ["a"; "b"; "c"]).
Proof. apply (dump_letters marshal letters ["a"; "b"; "c"] letters_timed). vm_compute. repeat constructor. Defined.

Lemma purge_dry_run_witness : fst (purgeDLQ (4 * sec) false (10 * sec) redis) = Ok 2%nat ∧
  purgeDLQ (4 * sec) true (10 * sec) redis = (fst (purgeDLQ (4 * sec) false (10 * sec) redis), redis) ∧
  (0 < 4 * sec → ∀ e, e ∈ entries (dlq (snd (purgeDLQ (4 * sec) false (10 * sec) redis))) ↔
     e ∈ entries (dlq redis) ∧ ms_of (10 * sec - 4 * sec) <= id_ms (fst e)).
Proof. split; [vm_compute; reflexivity|]. exact (purge_dry_run (4 * sec) (10 * sec) redis letters_timed). Defined.
