(* ===== verification/Numbers.v ===== *)
(** * Numbers: machine integers and their texts ([strconv])

    [ParseInt(s, 10, 64)] and [FormatInt(n, 10)], of the tokens' expiry and
    the chunk iterators of timelines, and the width of [int64]. *)

From S2P Require Import Prelude Bytes.
From stdpp Require Import prelude strings pretty.
From Stdlib Require Import ZArith Lia Ascii.
Open Scope Z_scope.

(** ** [strconv.ParseInt(s, 10, 64)] *)

Definition digit_of (c : ascii) : option Z :=
  if char_in "0" "9" c then Some (byte_val c - byte_val "0") else None.

Definition syntax_error : error := GoError "invalid syntax".

Fixpoint parse_digits (acc : Z) (s : string) : result Z :=
  match s with
  | EmptyString => Ok acc
  | String c s =>
      match digit_of c with Some d => parse_digits (acc * 10 + d) s | None => Err syntax_error end
  end.

(** Digits after an optional sign; a value outside [int64] is an error. *)
Definition ParseInt (s : string) : result Z :=
  let '(neg, digits) :=
    match s with
    | String "+" rest => (false, rest)
    | String "-" rest => (true, rest)
    | _ => (false, s)
    end in
  if String.eqb digits "" then Err syntax_error
  else
    un ← parse_digits 0 digits;
    let n := if (neg : bool) then - un else un in
    if (- 2 ^ 63 <=? n) && (n <? 2 ^ 63) then Ok n else Err (GoError "value out of range").

Definition FormatInt (n : Z) : string := pretty n.

(** Arithmetic on [int64] wraps around. *)
Definition int64 (z : Z) : Z := (z + 2 ^ 63) mod 2 ^ 64 - 2 ^ 63.

Lemma int64_id z : - 2 ^ 63 <= z < 2 ^ 63 → int64 z = z.
Proof. intros Hz. unfold int64. rewrite Z.mod_small by lia. lia. Qed.

Lemma digits_all d : (d < 10)%N → d ∈ [0; 1; 2; 3; 4; 5; 6; 7; 8; 9]%N.
Proof.
  intros Hd. apply list_elem_of_In. apply in_map_iff with (f := N.of_nat) (l := seq 0 10). exists (N.to_nat d).
  split; [apply N2Nat.id|]. apply in_seq. lia.
Qed.

Ltac each_digit Hd :=
  apply digits_all in Hd; repeat (apply elem_of_cons in Hd as [->|Hd]; [reflexivity|]); by apply elem_of_nil in Hd.

Lemma digit_of_char d : (d < 10)%N → digit_of (pretty_N_char d) = Some (Z.of_N d).
Proof. intros Hd. each_digit Hd. Qed.

(** A digit is no sign. *)
Lemma ParseInt_digit d rest : (d < 10)%N →
  ParseInt (String (pretty_N_char d) rest) =
  rbind (parse_digits 0 (String (pretty_N_char d) rest)) (λ un,
    if (- 2 ^ 63 <=? un) && (un <? 2 ^ 63) then Ok un else Err (GoError "value out of range")).
Proof. intros Hd. each_digit Hd. Qed.

(** The digits of a number are its value. *)
Lemma parse_digits_go x s : (0 < x)%N → parse_digits 0 (pretty_N_go x s) = parse_digits (Z.of_N x) s.
Proof.
  revert s. induction x as [x IH] using (well_founded_induction N.lt_wf_0). intros s Hx.
  rewrite pretty_N_go_step by done.
  assert (∀ y, parse_digits y (String (pretty_N_char (x `mod` 10)) s) = parse_digits (y * 10 + Z.of_N (x `mod` 10)) s) as Hstep
    by (intros y; cbn [parse_digits]; by rewrite digit_of_char by (by apply N.mod_lt)).
  pose proof (N.div_mod x 10 ltac:(done)) as Hdm. destruct (decide (x / 10 = 0)%N) as [Hz|Hz].
  - rewrite Hz, pretty_N_go_0, Hstep. f_equal. lia.
  - assert (x / 10 < x)%N as Hlt by (by apply N.div_lt). rewrite (IH _ Hlt) by (by apply N.neq_0_lt_0). rewrite Hstep. f_equal. lia.
Qed.

Lemma pretty_N_go_head x s : (0 < x)%N → ∃ d rest, (d < 10)%N ∧ pretty_N_go x s = String (pretty_N_char d) rest.
Proof.
  revert s. induction x as [x IH] using (well_founded_induction N.lt_wf_0). intros s Hx.
  rewrite pretty_N_go_step by done. destruct (decide (x / 10 = 0)%N) as [Hz|Hz].
  - rewrite Hz, pretty_N_go_0. exists (x `mod` 10)%N, s. split; [by apply N.mod_lt|done].
  - apply IH; [by apply N.div_lt|by apply N.neq_0_lt_0].
Qed.

(** A natural number of 63 bits is read back. *)
Lemma ParseInt_FormatInt n : 0 <= n < 2 ^ 63 → ParseInt (FormatInt n) = Ok n.
Proof.
  intros Hn. destruct n as [|p|p]; [reflexivity| |lia].
  change (FormatInt (Z.pos p)) with (pretty_N_go (N.pos p) "").
  destruct (pretty_N_go_head (N.pos p) "" ltac:(done)) as (d & rest & Hd & Hgo).
  pose proof (parse_digits_go (N.pos p) "" ltac:(done)) as Hp. rewrite Hgo in Hp |- *.
  rewrite ParseInt_digit by done.
  rewrite Hp. cbn [parse_digits rbind].
  rewrite (proj2 (Z.leb_le _ _)), (proj2 (Z.ltb_lt _ _)) by lia. done.
Qed.

Lemma pretty_N_go_lacks c x s : (∀ d, (d < 10)%N → pretty_N_char d ≠ c) → lacks c s → lacks c (pretty_N_go x s).
Proof.
  intros Hc. revert s. induction x as [x IH] using (well_founded_induction N.lt_wf_0). intros s Hs.
  destruct (decide (x = 0)%N) as [->|Hx]; [by rewrite pretty_N_go_0|]. apply N.neq_0_lt_0 in Hx.
  rewrite pretty_N_go_step by done. apply IH; [by apply N.div_lt|]. unfold lacks in *. cbn. rewrite Hs, andb_true_r.
  apply negb_true_iff, Ascii.eqb_neq. apply Hc. by apply N.mod_lt.
Qed.

Lemma FormatInt_lacks c n : (∀ d, (d < 10)%N → pretty_N_char d ≠ c) → c ≠ "-"%char → lacks c (FormatInt n).
Proof.
  intros Hc Hm. destruct n as [|p|p].
  - change (FormatInt 0) with (String (pretty_N_char 0) ""). unfold lacks. cbn [Str.forallb]. rewrite andb_true_r.
    apply negb_true_iff, Ascii.eqb_neq. by apply Hc.
  - by apply pretty_N_go_lacks.
  - change (FormatInt (Z.neg p)) with (String "-" (pretty_N_go (N.pos p) "")). unfold lacks. cbn [Str.forallb].
    rewrite andb_true_iff. split; [by apply negb_true_iff, Ascii.eqb_neq|]. by apply pretty_N_go_lacks.
Qed.

Lemma digit_no_colon d : (d < 10)%N → pretty_N_char d ≠ ":"%char.
Proof. intros Hd. apply digits_all in Hd. repeat (apply elem_of_cons in Hd as [->|Hd]; [discriminate|]). by apply elem_of_nil in Hd. Qed.

Lemma FormatInt_no_colon n : lacks ":" (FormatInt n).
Proof. apply FormatInt_lacks; [apply digit_no_colon|done]. Qed.

Lemma FormatInt_inj a b : FormatInt a = FormatInt b → a = b.
Proof. apply pretty_Z_inj. Qed.
