(* ===== verification/Jwt.v ===== *)
(** * Jwt: signed tokens ([src/jwt])

    A token is base64 of a header, a dot, base64 of the claims, a dot, base64
    of a signature over the text before the last dot.  [Validate] checks type,
    expiry and signature against the expected signer; who that signer must be
    is the middleware's business ([Auth]). *)

From S2P Require Import Prelude Bytes Base64 Numbers Documents Verify.
From stdpp Require Import prelude strings list.
From Stdlib Require Import ZArith Lia Ascii.
Open Scope Z_scope.

(** ** [src/jwt/types.go] *)

Record Header : Type := mkHeader {
  Algorithm : string;
  Typ : string;
  KeyID : string;
}.

Record Claims : Type := mkClaims {
  Issuer : string;
  Subject : string;
  Audience : string;
  ExpirationTime : string;
  IssuedAt : string;
  JWTID : string;
}.

Class JwtJson := {
  marshal_header : Header → result string;
  marshal_claims : Claims → result string;
  unmarshal_header : string → result Header;
  unmarshal_claims : string → result Claims;
}.

(** ** [src/jwt/functions.go] *)

Section Tokens.
Context `{JwtJson} `{Keccak} `{Secp256k1}.

Definition format_error : error := GoError "invalid jwt format".

Definition Parse (jwt : string) : result (Header * Claims) :=
  match Str.split jwt "." with
  | [h; p; _] =>
      headerBytes ← Base64.DecodeString h;
      header ← unmarshal_header (string_of headerBytes);
      payloadBytes ← Base64.DecodeString p;
      claims ← unmarshal_claims (string_of payloadBytes);
      Ok (header, claims)
  | _ => Err format_error
  end.

Definition supported (header : Header) : bool :=
  String.eqb (Typ header) "JWT" && String.eqb (Algorithm header) "CONCRNT".

(** [unix] is [time.Now().Unix()]. *)
Definition check_expiry (unix : Z) (claims : Claims) : result unit :=
  if String.eqb (ExpirationTime claims) "" then Ok tt
  else
    exp ← ParseInt (ExpirationTime claims);
    Verify.guard (negb (exp <? unix)) (GoError "jwt is already expired").

Definition Validate (unix : Z) (jwt expectedSigner : string) : result unit :=
  '(header, claims) ← Parse jwt;
  _ ← Verify.guard (supported header) (GoError "Unsupported JWT type");
  _ ← check_expiry unix claims;
  match Str.split jwt "." with
  | [h; p; s] =>
      signatureBytes ← Base64.DecodeString s;
      VerifySignature (h +:+ "." +:+ p) signatureBytes expectedSigner
  | _ => Err format_error
  end.

(** [Header{Type: "JWT", Algorithm: "CONCRNT"}] *)
Definition own_header : Header := mkHeader "CONCRNT" "JWT" "".

Definition Create `{Signer} (claims : Claims) (privatekey : string) : result string :=
  headerStr ← marshal_header own_header;
  payloadStr ← marshal_claims claims;
  let target := Base64.EncodeToString (bytes_of headerStr) +:+ "." +:+ Base64.EncodeToString (bytes_of payloadStr) in
  signatureBytes ← SignBytes target privatekey;
  Ok (target +:+ "." +:+ Base64.EncodeToString signatureBytes).

(** ** Validation *)

(** What a token says: its three parts and their contents. *)
Record token (jwt h p s : string) (header : Header) (claims : Claims) : Prop := {
  tk_text : jwt = h +:+ "." +:+ p +:+ "." +:+ s;
  tk_dots : lacks "." h ∧ lacks "." p ∧ lacks "." s;
  tk_header : ∃ b, Base64.DecodeString h = Ok b ∧ unmarshal_header (string_of b) = Ok header;
  tk_claims : ∃ b, Base64.DecodeString p = Ok b ∧ unmarshal_claims (string_of b) = Ok claims;
}.

(** Its expiry, if it has one, is a number not before [unix]. *)
Definition alive (unix : Z) (claims : Claims) : Prop :=
  ExpirationTime claims = "" ∨ ∃ exp, ParseInt (ExpirationTime claims) = Ok exp ∧ unix <= exp.

Lemma split_three jwt h p s :
  Str.split jwt "." = [h; p; s] ↔
  jwt = h +:+ "." +:+ p +:+ "." +:+ s ∧ lacks "." h ∧ lacks "." p ∧ lacks "." s.
Proof.
  split.
  - intros Hs. apply split_cons_inv in Hs as (Hh & [[[=] _]|(b & -> & Hs)]).
    apply split_cons_inv in Hs as (Hp & [[[=] _]|(t & -> & Hs)]).
    apply split_cons_inv in Hs as (Hq & [[_ ->]|(u & -> & Hs)]); [done|].
    by destruct (split_nonempty u ".").
  - intros (-> & Hh & Hp & Hs). cbn [String.append]. by rewrite !split_app, split_lacks.
Qed.

Lemma Parse_token jwt header claims :
  Parse jwt = Ok (header, claims) ↔ ∃ h p s, token jwt h p s header claims.
Proof.
  unfold Parse. split.
  - destruct (Str.split jwt ".") as [|h [|p [|s []]]] eqn:Hs; try done.
    apply split_three in Hs as (-> & Hh & Hp & Hd). intros Hr. inv_checks. subst.
    exists h, p, s. split; eauto.
  - intros (h & p & s & [-> Hd (hb & Hhb & Hh) (pb & Hpb & Hp)]).
    rewrite (proj2 (split_three _ h p s)) by done. run_checks. reflexivity.
Qed.

Lemma check_expiry_alive unix claims : check_expiry unix claims = Ok tt ↔ alive unix claims.
Proof.
  unfold check_expiry, alive. destruct (String.eqb_spec (ExpirationTime claims) "") as [|Hne]; [by intuition|].
  split.
  - intros Hr. inv_checks. right. eauto.
  - intros [|(exp & -> & Hle)]; [done|]. cbn. by replace (exp <? unix) with false by (symmetry; apply Z.ltb_ge; lia).
Qed.

(** C36: a token is valid for a signer exactly when it has three parts, its
    header says a concrnt token, it has not expired, and its last part is a
    signature of the signer over the text of the first two. *)
Theorem Validate_iff unix jwt signer :
  Validate unix jwt signer = Ok tt ↔
  ∃ h p s header claims sig, token jwt h p s header claims ∧
    Typ header = "JWT" ∧ Algorithm header = "CONCRNT" ∧ alive unix claims ∧
    Base64.DecodeString s = Ok sig ∧ VerifySignature (h +:+ "." +:+ p) sig signer = Ok tt.
Proof.
  unfold Validate, supported. split.
  - intros Hr. apply rbind_ok_inv in Hr as ([header claims] & Ht & Hr).
    apply Parse_token in Ht as (h & p & s & Ht). rewrite (tk_text _ _ _ _ _ _ Ht) in Hr.
    rewrite (proj2 (split_three _ h p s)) in Hr by (split; [done|apply Ht]).
    inv_checks.
    match goal with He : check_expiry _ _ = Ok ?u |- _ => destruct u; apply check_expiry_alive in He end. exists h, p, s, header, claims. eauto 10.
  - intros (h & p & s & header & claims & sig & Ht & Hty & Hal & He & Hs & Hv).
    rewrite (proj2 (Parse_token jwt header claims)) by eauto.
    apply check_expiry_alive in He. cbn [mbind result_bind rbind]. rewrite Hty, Hal. cbn [String.eqb andb].
    rewrite (tk_text _ _ _ _ _ _ Ht), (proj2 (split_three _ h p s)) by (split; [done|apply Ht]).
    run_checks. done.
Qed.

(** ** Round trip *)

(** The key of [privatekey] signs for [address]. *)
Definition signs_for `{Signer} (privatekey address : string) : Prop := ∀ text sig,
  SignBytes text privatekey = Ok sig → Forall (digit 256) sig ∧ VerifySignature text sig address = Ok tt.

Lemma decode_text s : Base64.DecodeString (Base64.EncodeToString (bytes_of s)) = Ok (bytes_of s).
Proof. apply Base64Facts.url_text_roundtrip, bytes_of_digit. Qed.

Lemma Create_token `{Signer} claims privatekey address jwt :
  Create claims privatekey = Ok jwt → signs_for privatekey address →
  (∀ s, marshal_header own_header = Ok s → unmarshal_header s = Ok own_header) →
  (∀ s, marshal_claims claims = Ok s → unmarshal_claims s = Ok claims) →
  ∃ h p s sig, token jwt h p s own_header claims ∧
    Base64.DecodeString s = Ok sig ∧ VerifySignature (h +:+ "." +:+ p) sig address = Ok tt.
Proof.
  intros Hc Hsign Hh Hp. unfold Create in Hc. inv_checks. subst jwt.
  match goal with Hs : SignBytes _ _ = Ok _ |- _ => apply Hsign in Hs as [Hd Hv] end.
  eexists _, _, _, _. split; [|split; [by apply Base64Facts.url_text_roundtrip|exact Hv]].
  split.
  - by rewrite !str_app_assoc.
  - split_and!; apply Base64Facts.EncodeToString_lacks.
  - eexists. split; [apply decode_text|]. rewrite string_of_bytes_of. by apply Hh.
  - eexists. split; [apply decode_text|]. rewrite string_of_bytes_of. by apply Hp.
Qed.

(** a token the server creates reads back as its claims, and is valid for
    the address its key signs for exactly as long as it has not expired. *)
Theorem Create_Validate `{Signer} unix claims privatekey address jwt :
  Create claims privatekey = Ok jwt → signs_for privatekey address →
  (∀ s, marshal_header own_header = Ok s → unmarshal_header s = Ok own_header) →
  (∀ s, marshal_claims claims = Ok s → unmarshal_claims s = Ok claims) →
  Parse jwt = Ok (own_header, claims) ∧ (Validate unix jwt address = Ok tt ↔ alive unix claims).
Proof.
  intros Hc Hsign Hh Hp. destruct (Create_token claims privatekey address jwt Hc Hsign Hh Hp)
    as (h & p & s & sig & Ht & Hs & Hv).
  assert (Parse jwt = Ok (own_header, claims)) as Hparse by (apply Parse_token; eauto).
  split; [done|]. unfold Validate. rewrite Hparse. cbn [mbind result_bind rbind supported Typ Algorithm].
  rewrite <- check_expiry_alive. destruct (check_expiry unix claims) as [[]| |]; cbn; [|by split..].
  rewrite (tk_text _ _ _ _ _ _ Ht), (proj2 (split_three _ h p s)) by (split; [done|apply Ht]).
  run_checks. done.
Qed.
End Tokens.

(** ** A concrete token *)

Module TokenWorld.
#[export] Existing Instance World.keccak.
#[export] Existing Instance World.secp.

(** JSON of a header without a key, and of claims about the author. *)
Definition claims : Claims := mkClaims ("cckv://" +:+ World.author) "concrnt" "host" "200" "" "".
#[export] Instance json : JwtJson := {|
  marshal_header _ := Ok "h";
  marshal_claims _ := Ok "p";
  unmarshal_header s := if String.eqb s "h" then Ok own_header else Err (GoError "json");
  unmarshal_claims s := if String.eqb s "p" then Ok claims else Err (GoError "json");
|}.

(** The author's key: its signature is the account part of the address. *)
#[export] Instance signer : Signer := {|
  PrivateKey := unit;
  HexToECDSA _ := Ok tt;
  Sign _ _ := Ok (bytes_of (World.repeat_str 39 "a"));
  privkey_pubkey l := l;
|}.

Definition jwt : string := match Create claims "00" with Ok t => t | _ => "" end.
End TokenWorld.
Import TokenWorld.

Lemma Create_Validate_witness :
  Parse TokenWorld.jwt = Ok (own_header, TokenWorld.claims) ∧
  (Validate 200 TokenWorld.jwt World.author = Ok tt ↔ alive 200 TokenWorld.claims) ∧
  Validate 200 TokenWorld.jwt World.author = Ok tt.
Proof.
  apply and_assoc. split; [|vm_compute; reflexivity].
  apply (Create_Validate 200 TokenWorld.claims "00" World.author TokenWorld.jwt).
  - vm_compute. reflexivity.
  - intros text sig Hs. vm_compute in Hs. injection Hs as <-. split; [|vm_compute; reflexivity].
    apply Forall_forall. intros x Hx. repeat (apply elem_of_cons in Hx as [->|Hx]; [unfold digit; lia|]).
    by apply elem_of_nil in Hx.
  - intros s Hs. vm_compute in Hs. injection Hs as <-. vm_compute. reflexivity.
  - intros s Hs. vm_compute in Hs. injection Hs as <-. vm_compute. reflexivity.
Defined.
