(* ===== verification/PolicyValues.v ===== *)
(** * PolicyValues: Go values as policy data ([src/policy/utils.go])

    A policy expression reads the request by dotted paths; the evaluator turns
    the Go structs of the request into nested string-keyed maps by reflection.
    [gval] is a Go value as package [reflect] shows it; [toAny] is the
    conversion, [resolveDotNotation] the path lookup.  Maps with keys other
    than strings do not occur in a request and are not represented. *)

From S2P Require Import Prelude Bytes Url Ccuri Documents.
From stdpp Require Import prelude strings gmap list.
From Stdlib Require Import ZArith Lia Ascii.
Open Scope Z_scope.

(** ** Reflected values *)

(** A struct field's [Name], [PkgPath] (empty when exported), json [Tag] and
    [Anonymous] flag. *)
Record StructField : Set := mkField {
  sf_Name : string;
  sf_PkgPath : string;
  sf_Tag : string;
  sf_Anonymous : bool;
}.

Inductive gval : Type :=
| GInvalid
| GInterface (v : option gval)
| GPointer (v : option gval)
| GStruct (fields : list (StructField * gval))
| GStrMap (entries : gmap string gval)
| GSlice (elems : list gval)
| GScalar (a : any_).

Definition jsonFieldName (sf : StructField) : string * bool :=
  if String.eqb (sf_Tag sf) "" then ("", true)
  else if String.eqb (sf_Tag sf) "-" then ("", false)
  else (hd "" (Str.split (sf_Tag sf) ","), true).

(** One iteration of the loop of [structValueToMap]; [value] is [toAny] of the field. *)
Definition add_field (out : gmap string any_) (sf : StructField) (value : any_) : gmap string any_ :=
  if negb (String.eqb (sf_PkgPath sf) "") then out
  else
    let '(name, ok) := jsonFieldName sf in
    if negb ok then out
    else if sf_Anonymous sf && String.eqb name "" then
      match value with
      | AMap m => m ∪ out
      | _ => <[sf_Name sf := value]> out
      end
    else <[(if String.eqb name "" then sf_Name sf else name) := value]> out.

Fixpoint toAny (v : gval) : any_ :=
  match v with
  | GInvalid => ANil
  | GInterface None => ANil
  | GInterface (Some v) => toAny v
  | GPointer None => ANil
  | GPointer (Some v) => toAny v
  | GStruct fields =>
      AMap ((fix go (fields : list (StructField * gval)) (out : gmap string any_) :=
               match fields with
               | [] => out
               | (sf, fv) :: fields => go fields (add_field out sf (toAny fv))
               end) fields ∅)
  | GStrMap entries => AMap (toAny <$> entries)
  | GSlice elems => AList (map toAny elems)
  | GScalar a => a
  end.

(** [structValueToMap] on a struct's fields. *)
Fixpoint structValueToMap (fields : list (StructField * gval)) (out : gmap string any_) : gmap string any_ :=
  match fields with
  | [] => out
  | (sf, fv) :: fields => structValueToMap fields (add_field out sf (toAny fv))
  end.

Lemma toAny_struct fields : toAny (GStruct fields) = AMap (structValueToMap fields ∅).
Proof. reflexivity. Qed.

Definition structToMap (obj : gval) : gmap string any_ :=
  match toAny obj with AMap m => m | _ => ∅ end.

(** The loop of [resolveDotNotation] over the split key. *)
Fixpoint resolve_keys (current : gmap string any_) (keys : list string) : option any_ :=
  match keys with
  | [] => None
  | [k] => current !! k
  | k :: keys =>
      match current !! k with
      | Some (AMap next) => resolve_keys next keys
      | _ => None
      end
  end.

Definition resolveDotNotation (obj : gmap string any_) (key : string) : option any_ :=
  resolve_keys obj (Str.split key ".").

(** ** The structs of a request *)

Definition field (name tag : string) (v : gval) : StructField * gval :=
  (mkField name "" tag false, v).

Definition gstr (s : string) : gval := GScalar (AStr s).
Definition gstr_ptr (s : option string) : gval := GPointer (gstr <$> s).
Definition gany (a : any_) : gval := GInterface (Some (GScalar a)).

(** [time.Time]: only unexported fields. *)
Definition gtime : gval :=
  GStruct [(mkField "wall" "time" "" false, GInvalid); (mkField "ext" "time" "" false, GInvalid);
           (mkField "loc" "time" "" false, GInvalid)].

Definition gval_of_entry (e : PolicyEntry) : gval :=
  GStruct [field "URL" "url" (gstr_ptr (pe_URL e));
           field "Params" "params,omitempty" (GPointer ((λ m, GStrMap (gany <$> m)) <$> pe_Params e));
           field "Defaults" "defaults,omitempty" (GPointer ((λ m, GStrMap (gstr <$> m)) <$> pe_Defaults e));
           field "Errored" "-" (GScalar (ABool (pe_Errored e)))].

Definition gval_of_policy (p : Policy) : gval :=
  GStruct [field "Entries" "entries" (GSlice (map gval_of_entry (pol_Entries p)));
           field "VirtualParents" "-" (GPointer ((λ l, GSlice (map gstr l)) <$> pol_VirtualParents p));
           field "Source" "-" (gstr (pol_Source p))].

Definition gval_of_document (d : Document any_) : gval :=
  GStruct [field "Kind" "kind" (gstr (Kind d));
           field "Key" "key" (gstr (Key d));
           field "Value" "value" (gany (Value d));
           field "Author" "author" (gstr (Author d));
           field "Schema" "schema,omitempty" (gstr (Schema d));
           field "CreatedAt" "createdAt" gtime;
           field "OnUpdate" "onUpdate,omitempty" (gstr_ptr (OnUpdate d));
           field "Distributes" "distributes,omitempty"
             (GPointer ((λ l, GSlice (map gstr l)) <$> Distributes d));
           field "Associate" "associate,omitempty" (gstr_ptr (Associate d));
           field "AssociationVariant" "associationVariant,omitempty" (gstr_ptr (AssociationVariant d));
           field "Policy" "policy,omitempty" (GPointer (gval_of_policy <$> doc_Policy d))].

(** [domain.Entity]. *)
Record Entity : Type := mkEntity {
  e_ID : string;
  e_Alias : option string;
  e_Domain : string;
  e_TagString : string;
  e_SignedDocument : option SignedDocument;
}.

Definition gval_of_entity (e : Entity) : gval :=
  GStruct [field "ID" "ccid" (gstr (e_ID e));
           field "Alias" "alias,omitempty" (gstr_ptr (e_Alias e));
           field "Domain" "domain" (gstr (e_Domain e));
           field "TagString" "tag,omitempty" (gstr (e_TagString e));
           field "SignedDocument" "-" GInvalid].

(** The [Requester] of a request: a [domain.Entity] stored in an interface by
    value, or nothing. *)
Definition gval_of_requester (e : option Entity) : gval := GInterface (gval_of_entity <$> e).

(** [service.GlobalParameters]. *)
Definition gval_of_globals (fqdn : string) : gval :=
  GInterface (Some (GStruct [field "FQDN" "fqdn" (gstr fqdn)])).

(** ** Lookups *)

Lemma split_path a b : lacks "." a → Str.split (a +:+ "." +:+ b) "." = a :: Str.split b ".".
Proof. intros Ha. change ("." +:+ b) with (String "." b). by apply split_app. Qed.

Lemma resolve_step m a b next :
  lacks "." a → m !! a = Some (AMap next) →
  resolveDotNotation m (a +:+ "." +:+ b) = resolveDotNotation next b.
Proof.
  intros Ha Hm. unfold resolveDotNotation. rewrite split_path by done. cbn. rewrite Hm.
  destruct (Str.split b ".") eqn:E; [|done].
  exfalso. revert E. clear. destruct b as [|c b]; cbn; [done|]. destruct (Ascii.eqb c "."); [done|].
  by destruct (Str.split b ".").
Qed.

Lemma resolve_stop m a b :
  lacks "." a → (∀ next, m !! a ≠ Some (AMap next)) →
  resolveDotNotation m (a +:+ "." +:+ b) = None.
Proof.
  intros Ha Hm. unfold resolveDotNotation. rewrite split_path by done. cbn.
  destruct (Str.split b ".") eqn:E.
  - exfalso. revert E. clear. destruct b as [|c b]; cbn; [done|]. destruct (Ascii.eqb c "."); [done|].
    by destruct (Str.split b ".").
  - destruct (m !! a) as [[]|] eqn:Em; try done. by destruct (Hm m0).
Qed.

Lemma resolve_last m a : lacks "." a → resolveDotNotation m a = m !! a.
Proof. intros Ha. unfold resolveDotNotation. by rewrite split_lacks. Qed.
