(* ===== verification/Policy.v ===== *)
(** * Policy: the policy evaluator ([src/policy])

    Conclusions and their combination, expressions and operators, statement
    matching, and the evaluation of a stack of policy layers.  Tracing and the
    evaluation trees kept only for tracing on the error side are left out;
    error texts are abbreviated. *)

From S2P Require Import Prelude Bytes Url Ccuri Documents PolicyValues.
From stdpp Require Import prelude strings gmap list.
From Stdlib Require Import ZArith Lia Ascii.
Open Scope Z_scope.

(** ** [types.go] *)

(** A conclusion is any string of a policy document; five are known. *)
Definition Conclusion : Type := string.
Definition UNSET : Conclusion := "unset".
Definition OK : Conclusion := "ok".
Definition NG : Conclusion := "ng".
Definition ALLOW : Conclusion := "allow".
Definition DENY : Conclusion := "deny".

Definition ParseConclusion (s : string) : Conclusion :=
  if String.eqb s "allow" then ALLOW
  else if String.eqb s "deny" then DENY
  else if String.eqb s "ok" then OK
  else if String.eqb s "ng" then NG
  else UNSET.

Definition Or (c other : Conclusion) : Conclusion :=
  if String.eqb c UNSET then other
  else if String.eqb other UNSET then c
  else if (String.eqb c DENY && String.eqb other ALLOW) || (String.eqb c ALLOW && String.eqb other DENY) then UNSET
  else if String.eqb c DENY || String.eqb other DENY then DENY
  else if String.eqb c ALLOW || String.eqb other ALLOW then ALLOW
  else if (String.eqb c OK && String.eqb other NG) || (String.eqb c NG && String.eqb other OK) then UNSET
  else if String.eqb c OK || String.eqb other OK then OK
  else if String.eqb c NG || String.eqb other NG then NG
  else UNSET.

(** [ConcrntCaller.ConcrntCall]: resolver, api and parameters. *)
Definition ConcrntCaller : Type := string → string → gmap string string → result any_.

Record RequestContext : Type := mkRequestContext {
  Requester : gval;
  Self : gval;
  Params : gmap string any_;
  Globals : gval;
  Caller : option ConcrntCaller;
}.

(** The request as [structToMap] sees it. *)
Definition gval_of_request (r : RequestContext) : gval :=
  GStruct [field "Requester" "requester" (Requester r);
           field "Self" "self" (Self r);
           field "Params" "params" (GStrMap (gany <$> Params r));
           field "Globals" "globals" (Globals r);
           field "Caller" "-" GInvalid].

Inductive Expr : Type := mkExpr {
  Operator : string;
  Args : list Expr;
  Const : any_;
}.

Record Statement : Type := mkStatement {
  Action : string;
  st_Key : string;
  Emit : Conclusion;
  Condition : Expr;
  Reason : option string;
}.

(** [policy.Policy]; a nil map of defaults is the empty one. *)
Record PolicyBody : Type := mkPolicyBody {
  Statements : list Statement;
  Defaults : gmap string Conclusion;
}.

Record EvaluationSet : Type := mkEvaluationSet {
  es_Policy : PolicyBody;
  es_Params : option (gmap string any_);
  es_Errored : bool;
}.

Definition PolicyStack : Type := list (list EvaluationSet).

Inductive EvalResult : Type := mkEvalResult {
  res_Operator : string;
  res_Args : list EvalResult;
  Result : any_;
}.

(** ** [operators.go]

    An operator maps the evaluated arguments to a value, an error or a panic. *)

Definition bad_type {A} (op : string) : result A := Err (GoError ("bad argument type for " +:+ op)).
Definition bad_length {A} (op : string) : result A := Err (GoError ("bad argument length for " +:+ op)).

Fixpoint opAnd (args : list any_) : result any_ :=
  match args with
  | [] => Ok (ABool true)
  | ABool evaluated :: args => if evaluated then opAnd args else Ok (ABool false)
  | _ => bad_type "AND"
  end.

Fixpoint opOr (args : list any_) : result any_ :=
  match args with
  | [] => Ok (ABool false)
  | ABool evaluated :: args => if evaluated then Ok (ABool true) else opOr args
  | _ => bad_type "OR"
  end.

Definition opNot (args : list any_) : result any_ :=
  match args with
  | [ABool evaluated] => Ok (ABool (negb evaluated))
  | [_] => bad_type "NOT"
  | _ => bad_length "NOT"
  end.

(** [args[0] == args[1]] panics on two slices or two maps. *)
Definition opEq (args : list any_) : result any_ :=
  match args with
  | [a; b] => match any_eq a b with Some r => Ok (ABool r) | None => Panic end
  | _ => bad_length "EQ"
  end.

(** [slices.Contains]: compares in order, so it panics only if it gets there. *)
Fixpoint slices_contains (l : list any_) (v : any_) : option bool :=
  match l with
  | [] => Some false
  | x :: l =>
      match any_eq v x with
      | None => None
      | Some true => Some true
      | Some false => slices_contains l v
      end
  end.

Definition opContains (args : list any_) : result any_ :=
  match args with
  | [AList arg0; arg1] =>
      match slices_contains arg0 arg1 with Some r => Ok (ABool r) | None => Panic end
  | [_; _] => bad_type "CONTAINS"
  | _ => bad_length "CONTAINS"
  end.

Definition opCCUriOwner `{Url.NetIP} (args : list any_) : result any_ :=
  match args with
  | [AStr arg0] => parsed ← ParseCCURI arg0; Ok (AStr (Owner parsed))
  | [_] => bad_type "CCUriOwner"
  | _ => bad_length "CCUriOwner"
  end.

Definition opLoad (rctx : RequestContext) (args : list any_) : result any_ :=
  match args with
  | [AStr key] =>
      of_option (GoError ("key not found: " +:+ key))
        (resolveDotNotation (structToMap (gval_of_request rctx)) key)
  | [_] => bad_type "Load"
  | _ => bad_length "Load"
  end.

(** The key/value pairs after resolver and api. *)
Fixpoint call_params (args : list any_) (params : gmap string string) : result (gmap string string) :=
  match args with
  | [] => Ok params
  | AStr key :: AStr value :: args => call_params args (<[key := value]> params)
  | _ => bad_type "ConcrntCall param"
  end.

Definition opConcrntCall (rctx : RequestContext) (args : list any_) : result any_ :=
  match Caller rctx with
  | None => Err (GoError "no concrnt caller available in this evaluation context")
  | Some call =>
      if (length args <? 2)%nat || negb ((length args - 2) mod 2 =? 0)%nat then bad_length "ConcrntCall"
      else
        match args with
        | AStr resolver :: AStr api :: rest =>
            params ← call_params rest ∅;
            call resolver api params
        | _ => bad_type "ConcrntCall"
        end
  end.

Definition opIsNotEmpty (args : list any_) : result any_ :=
  match args with
  | [ANil] => Ok (ABool false)
  | [AList l] => Ok (ABool (negb (length l =? 0)%nat))
  | [AStr s] => Ok (ABool (negb (String.eqb s "")))
  | [AMap m] => Ok (ABool (negb (size m =? 0)%nat))
  | [_] => bad_type "IsNotEmpty"
  | _ => bad_length "IsNotEmpty"
  end.

(** The [operators] table. *)
Definition operators `{Url.NetIP} (rctx : RequestContext) (name : string) : option (list any_ → result any_) :=
  if String.eqb name "And" then Some opAnd
  else if String.eqb name "Or" then Some opOr
  else if String.eqb name "Not" then Some opNot
  else if String.eqb name "Eq" then Some opEq
  else if String.eqb name "Contains" then Some opContains
  else if String.eqb name "CCUriOwner" then Some opCCUriOwner
  else if String.eqb name "Load" then Some (opLoad rctx)
  else if String.eqb name "ConcrntCall" then Some (opConcrntCall rctx)
  else if String.eqb name "IsNotEmpty" then Some opIsNotEmpty
  else None.

(** ** [functions.go] *)

Section Eval.
Context `{Url.NetIP} (rctx : RequestContext).

Definition apply_operator (name : string) (args : list EvalResult) : result EvalResult :=
  match operators rctx name with
  | Some f => v ← f (map Result args); Ok (mkEvalResult name args v)
  | None => Err (GoError ("unknown operator: " +:+ name))
  end.

(** Arguments are all evaluated, left to right, before the operator; a constant
    on another operator is its first argument. *)
Fixpoint Eval (expr : Expr) : result EvalResult :=
  match expr with
  | mkExpr op args const =>
      if String.eqb op "Const" then Ok (mkEvalResult "Const" [] const)
      else
        let first := match const with ANil => [] | c => [mkEvalResult "Const" [] c] end in
        rest ← (fix go (l : list Expr) : result (list EvalResult) :=
                  match l with
                  | [] => Ok []
                  | e :: l => r ← Eval e; rs ← go l; Ok (r :: rs)
                  end) args;
        apply_operator op (first ++ rest)
  end.
End Eval.

(** A continuation byte of UTF-8, and a byte in a narrower range. *)
Definition cont (c : ascii) : bool := char_in "128" "191" c.

(** [regexp] refuses to compile a pattern that is not UTF-8. *)
Fixpoint utf8_valid (s : string) : bool :=
  match s with
  | EmptyString => true
  | String a s1 =>
      if byte_val a <? 128 then utf8_valid s1
      else match s1 with
      | EmptyString => false
      | String b s2 =>
          if char_in "194" "223" a then cont b && utf8_valid s2
          else match s2 with
          | EmptyString => false
          | String c s3 =>
              if char_in "224" "239" a then
                cont b && cont c &&
                negb (Ascii.eqb a "224" && (byte_val b <? 160)) &&
                negb (Ascii.eqb a "237" && (159 <? byte_val b)) && utf8_valid s3
              else match s3 with
              | EmptyString => false
              | String d s4 =>
                  char_in "240" "244" a && cont b && cont c && cont d &&
                  negb (Ascii.eqb a "240" && (byte_val b <? 144)) &&
                  negb (Ascii.eqb a "244" && (143 <? byte_val b)) && utf8_valid s4
              end
          end
      end
  end.

Definition newline : ascii := "010".

(** The regular expression built from a statement key: every byte is quoted
    except '*', which becomes [.*] (a run without newlines), anchored at both
    ends.  Keys are UTF-8 texts, so bytes and runes match alike. *)
Fixpoint glob_match (pat : string) (key : string) : bool :=
  match pat with
  | EmptyString => String.eqb key ""
  | String p pat =>
      if Ascii.eqb p "*" then
        (fix star (k : string) : bool :=
           glob_match pat k ||
           match k with
           | EmptyString => false
           | String c k => negb (Ascii.eqb c newline) && star k
           end) key
      else match key with
           | EmptyString => false
           | String c key => Ascii.eqb p c && glob_match pat key
           end
  end.

(** A pattern that does not compile skips the statement. *)
Definition key_matches (pat key : string) : bool := utf8_valid pat && glob_match pat key.

Section EvaluatePolicy.
Context `{Url.NetIP}.

Definition is_true (v : any_) : bool := match v with ABool b => b | _ => false end.

(** The second loop of [EvaluatePolicy]. *)
Fixpoint eval_statements (rctx : RequestContext) (stmts : list Statement) (conclusion : Conclusion)
    (reason : string) : result (Conclusion * string) :=
  match stmts with
  | [] => Ok (conclusion, reason)
  | stmt :: stmts =>
      match Eval rctx (Condition stmt) with
      | Panic => Panic
      | Err _ => eval_statements rctx stmts conclusion reason
      | Ok r =>
          if is_true (Result r) then
            eval_statements rctx stmts (Or conclusion (Emit stmt))
              (match Reason stmt with Some s => reason +:+ s +:+ "; " | None => reason end)
          else eval_statements rctx stmts conclusion reason
      end
  end.

Definition selected (action key : string) (stmt : Statement) : bool :=
  String.eqb (Action stmt) action && key_matches (st_Key stmt) key.

Definition EvaluatePolicy (policy : PolicyBody) (req : RequestContext) (action key : string)
    : result (Conclusion * string) :=
  '(conclusion, reason) ← eval_statements req (List.filter (selected action key) (Statements policy)) UNSET "";
  let conclusion :=
    if String.eqb conclusion UNSET then
      let def := default "" (Defaults policy !! action) in
      if negb (String.eqb def "") then def else conclusion
    else conclusion in
  Ok (conclusion, reason).

Definition with_params (r : RequestContext) (p : gmap string any_) : RequestContext :=
  mkRequestContext (Requester r) (Self r) p (Globals r) (Caller r).

(** The inner loop of [EvaluateStack] over one layer. *)
Fixpoint eval_layer (req : RequestContext) (layer : list EvaluationSet) (action key : string)
    (conclusion : Conclusion) (reason : string) : result (Conclusion * string) :=
  match layer with
  | [] => Ok (conclusion, reason)
  | evalSet :: layer =>
      let dflt := default UNSET (Defaults (es_Policy evalSet) !! action) in
      if es_Errored evalSet then eval_layer req layer action key (Or conclusion dflt) reason
      else
        let reqCtx := match es_Params evalSet with Some p => with_params req p | None => req end in
        '(r, evalReason) ← EvaluatePolicy (es_Policy evalSet) reqCtx action key;
        eval_layer req layer action key (Or conclusion r) (reason +:+ evalReason)
  end.

(** The outer loop: DENY and ALLOW are final, any other set conclusion is
    kept for the layers below to replace. *)
Fixpoint eval_stack (req : RequestContext) (stack : PolicyStack) (action key : string)
    (conclusion : Conclusion) (reason : string) : result (Conclusion * string) :=
  match stack with
  | [] => Ok (conclusion, reason)
  | layer :: stack =>
      '(layerConclusion, layerReason) ← eval_layer req layer action key UNSET "";
      let reason := reason +:+ "[" +:+ layerReason +:+ "] " in
      if String.eqb layerConclusion DENY then Ok (DENY, reason)
      else if String.eqb layerConclusion ALLOW then Ok (ALLOW, reason)
      else if String.eqb layerConclusion UNSET then eval_stack req stack action key conclusion reason
      else eval_stack req stack action key layerConclusion reason
  end.

Definition EvaluateStack (req : RequestContext) (stack : PolicyStack) (action key : string)
    : result (Conclusion * string) :=
  eval_stack req stack action key UNSET "".

End EvaluatePolicy.

(** ** Combining conclusions *)

Definition combine_all (l : list Conclusion) (c : Conclusion) : Conclusion := fold_left Or l c.

(** Case analysis on which of the known conclusions a string is. *)
Ltac conclusion_cases :=
  unfold Or, UNSET, OK, NG, ALLOW, DENY in *;
  repeat match goal with
  | |- context [String.eqb ?a ?b] => destruct (String.eqb_spec a b); subst; cbn [orb andb]
  end.

Lemma Or_comm a b : Or a b = Or b a.
Proof. conclusion_cases; congruence. Qed.

Lemma Or_deny a b : a = DENY ∨ b = DENY → a ≠ ALLOW → b ≠ ALLOW → Or a b = DENY.
Proof. conclusion_cases; naive_solver. Qed.

Lemma Or_allow a b : a = ALLOW ∨ b = ALLOW → a ≠ DENY → b ≠ DENY → Or a b = ALLOW.
Proof. conclusion_cases; naive_solver. Qed.

Lemma Or_not_strong a b x : x = DENY ∨ x = ALLOW → a ≠ x → b ≠ x → Or a b ≠ x.
Proof. intros [-> | ->]; conclusion_cases; naive_solver. Qed.

Lemma combine_strong (Strong Other : Conclusion) l c :
  (Strong = DENY ∧ Other = ALLOW) ∨ (Strong = ALLOW ∧ Other = DENY) →
  Other ∉ l → c ≠ Other → c = Strong ∨ Strong ∈ l → combine_all l c = Strong.
Proof.
  intros Hso. unfold combine_all. revert c. induction l as [|x l IH]; intros c Hl Hc Hs; cbn.
  - set_solver.
  - apply not_elem_of_cons in Hl as [Hx Hl].
    assert (Or c x ≠ Other) as Hn by (apply Or_not_strong; naive_solver).
    apply IH; [done..|].
    destruct Hs as [-> | Hs]; [left | apply elem_of_cons in Hs as [-> | Hs]; [left | by right]].
    all: destruct Hso as [[-> ->] | [-> ->]]; (apply Or_deny || apply Or_allow); auto.
Qed.

(** combining conclusions in any order, a DENY with no ALLOW gives DENY and
    an ALLOW with no DENY gives ALLOW; UNSET is neutral and a pair commutes. *)
Theorem Or_dominance l :
  (DENY ∈ l → ALLOW ∉ l → combine_all l UNSET = DENY) ∧
  (ALLOW ∈ l → DENY ∉ l → combine_all l UNSET = ALLOW) ∧
  (∀ a b, Or a b = Or b a) ∧ (∀ a, Or UNSET a = a ∧ Or a UNSET = a).
Proof.
  split; [|split; [|split]].
  - intros. eapply combine_strong; [by left| |done|by right]; done.
  - intros. eapply combine_strong; [by right| |done|by right]; done.
  - apply Or_comm.
  - intros a. split; [done|]. rewrite Or_comm. done.
Qed.

Lemma Or_dominance_witness : combine_all [OK; NG; DENY; UNSET; OK] UNSET = DENY.
Proof.
  apply (proj1 (Or_dominance [OK; NG; DENY; UNSET; OK])).
  - apply list_elem_of_In. cbn. tauto.
  - intros H. apply list_elem_of_In in H. cbn in H. unfold OK, NG, DENY, UNSET, ALLOW in H.
    intuition discriminate.
Defined.

(** A DENY and an ALLOW cancel, so the result of three or more conclusions
    depends on their order: the combination is not associative. *)
Lemma Or_order_dependent :
  combine_all [DENY; ALLOW; OK] UNSET = OK ∧ combine_all [DENY; OK; ALLOW] UNSET = UNSET ∧
  Or (Or DENY ALLOW) OK ≠ Or DENY (Or ALLOW OK).
Proof. split; [done|]. split; [done|]. done. Qed.

(** ** Key patterns *)

(** [glob pat key]: '*' stands for a run of bytes other than a newline. *)
Inductive glob : string → string → Prop :=
| glob_nil : glob "" ""
| glob_char c pat key : c ≠ "*"%char → glob pat key → glob (String c pat) (String c key)
| glob_star pat run key : lacks newline run → glob pat key → glob (String "*" pat) (run +:+ key).

Lemma glob_match_star pat key :
  glob_match (String "*" pat) key = true ↔
  ∃ run rest, key = run +:+ rest ∧ lacks newline run ∧ glob_match pat rest = true.
Proof.
  cbn [glob_match]. change (Ascii.eqb "*" "*") with true. cbn [negb].
  induction key as [|c key IH].
  - rewrite orb_false_r. split.
    + intros H. by exists "", "".
    + intros (run & rest & E & _ & H). destruct run; [|done]. cbn in E. by subst.
  - rewrite orb_true_iff, andb_true_iff, IH. split.
    + intros [H | [Hc (run & rest & -> & Hr & H)]].
      * by exists "", (String c key).
      * exists (String c run), rest. split; [done|]. split; [|done]. unfold lacks. cbn. by rewrite Hc, Hr.
    + intros (run & rest & E & Hr & H). destruct run as [|d run]; cbn in E.
      * left. by subst.
      * right. injection E as <- ->. unfold lacks in Hr. cbn in Hr.
        apply andb_true_iff in Hr as [Hc Hr]. split; [done|]. by exists run, rest.
Qed.

Lemma glob_match_char c pat key :
  c ≠ "*"%char →
  glob_match (String c pat) key = true ↔ ∃ k, key = String c k ∧ glob_match pat k = true.
Proof.
  intros Hc%Ascii.eqb_neq. cbn [glob_match]. rewrite Hc. destruct key as [|d key].
  - naive_solver.
  - rewrite andb_true_iff, Ascii.eqb_eq. naive_solver.
Qed.

Lemma glob_match_spec pat key : glob_match pat key = true ↔ glob pat key.
Proof.
  split.
  - revert key. induction pat as [|c pat IH]; intros key.
    + cbn. intros ->%String.eqb_eq. constructor.
    + destruct (decide (c = "*"%char)) as [-> | Hc].
      * intros (run & rest & -> & Hr & H)%glob_match_star. constructor; auto.
      * intros (k & -> & H)%glob_match_char; [|done]. constructor; auto.
  - induction 1 as [|c pat key Hc _ IH|pat run key Hr _ IH].
    + done.
    + apply glob_match_char; eauto.
    + apply glob_match_star; eauto.
Qed.

(** A pattern without '*' followed by '*' selects the keys it is a prefix of. *)
Lemma glob_prefix p key :
  lacks "*" p → glob (p +:+ "*") key ↔ ∃ rest, key = p +:+ rest ∧ lacks newline rest.
Proof.
  unfold lacks. revert key. induction p as [|c p IH]; intros key Hp; cbn.
  - split.
    + intros H. inversion H as [| |? run k Hr Hk]; subst; [done|]. inversion Hk. subst.
      exists run. by rewrite str_app_nil_r.
    + intros (rest & -> & Hr). rewrite <- (str_app_nil_r rest). constructor; [done | constructor].
  - cbn in Hp. apply andb_true_iff in Hp as [Hc%negb_true_iff%Ascii.eqb_neq Hp]. split.
    + intros H. inversion H as [|? ? k _ Hk|]; subst; [|done].
      apply IH in Hk as (rest & -> & Hr); [|done]. by exists rest.
    + intros (rest & -> & Hr). constructor; [done|]. apply IH; eauto.
Qed.

Lemma glob_exact p key : lacks "*" p → glob p key ↔ key = p.
Proof.
  unfold lacks. revert key. induction p as [|c p IH]; intros key Hp; cbn in Hp.
  - split; [by inversion 1 | intros ->; constructor].
  - apply andb_true_iff in Hp as [Hc%negb_true_iff%Ascii.eqb_neq Hp]. split.
    + inversion 1 as [|? ? k _ Hk|]; subst; [|done]. f_equal. by apply IH.
    + intros ->. constructor; [done|]. by apply IH.
Qed.

(** a statement applies to a key exactly when the key matches its pattern,
    with '*' for any run without newlines; a pattern [p] followed by '*' then
    selects the keys that extend [p], and a plain pattern only itself. *)
Theorem key_matches_iff pat key :
  utf8_valid pat = true →
  (key_matches pat key = true ↔ glob pat key) ∧
  (∀ p, lacks "*" p → pat = p +:+ "*" →
     (key_matches pat key = true ↔ ∃ rest, key = p +:+ rest ∧ lacks newline rest)) ∧
  (lacks "*" pat → (key_matches pat key = true ↔ key = pat)).
Proof.
  intros Hu. unfold key_matches. rewrite Hu. cbn [andb].
  split; [apply glob_match_spec|]. split.
  - intros p Hp ->. rewrite glob_match_spec. by apply glob_prefix.
  - intros Hp. rewrite glob_match_spec. by apply glob_exact.
Qed.

Lemma key_matches_iff_witness :
  key_matches "cckv://a/t/*" "cckv://a/t/x/y" = true ∧
  (key_matches "cckv://a/t/*" "cckv://a/u" = true ↔
   ∃ rest, "cckv://a/u" = "cckv://a/t/" +:+ rest ∧ lacks newline rest).
Proof.
  split; [reflexivity|].
  apply (key_matches_iff "cckv://a/t/*" "cckv://a/u"); reflexivity.
Defined.

(** ** Operators *)

Definition negate (v : any_) : any_ := match v with ABool b => ABool (negb b) | v => v end.

(** And and Or read their arguments left to right and stop at the first
    that decides: And is true exactly when all are true, false exactly when a
    false follows only trues, an error exactly when a non-boolean does; Or is
    its dual under negation. *)
Theorem opAnd_opOr_spec args :
  (opAnd args = Ok (ABool true) ↔ Forall (λ a, a = ABool true) args) ∧
  (opAnd args = Ok (ABool false) ↔
     ∃ pre post, args = pre ++ ABool false :: post ∧ Forall (λ a, a = ABool true) pre) ∧
  (is_ok (opAnd args) = false ↔
     ∃ pre v post, args = pre ++ v :: post ∧ Forall (λ a, a = ABool true) pre ∧ ∀ b, v ≠ ABool b) ∧
  (∀ b, opOr args = Ok (ABool b) ↔ opAnd (map negate args) = Ok (ABool (negb b))) ∧
  is_ok (opOr args) = is_ok (opAnd (map negate args)).
Proof.
  split; [|split; [|split; [|split]]].
  - induction args as [|[|[]| | | |] args IH]; cbn; try (rewrite Forall_cons; naive_solver).
    + split; [constructor | done].
  - induction args as [|a args IH]; cbn.
    { split; [done|]. by intros ([] & ? & ? & _). }
    destruct a as [|[]| | | |]; cbn.
    2:{ rewrite IH. split.
        - intros (pre & post & -> & H). exists (ABool true :: pre), post. by split; [|constructor].
        - intros (pre & post & E & H). destruct pre as [|x pre]; cbn in E; [done|].
          injection E as <- ->. apply Forall_cons in H as [_ H]. eauto. }
    2:{ split; [|done]. intros _. by exists [], args. }
    all: split; [done|]; intros (pre & post & E & H); destruct pre as [|x pre]; cbn in E; [done|];
      injection E as <- ->; apply Forall_cons in H as [? _]; done.
  - induction args as [|a args IH]; cbn.
    { split; [done|]. by intros ([] & ? & ? & ? & _). }
    destruct a as [|[]| | | |]; cbn.
    2:{ rewrite IH. split.
        - intros (pre & v & post & -> & H & Hv). exists (ABool true :: pre), v, post.
          split; [done|]. by split; [constructor|].
        - intros (pre & v & post & E & H & Hv). destruct pre as [|x pre]; cbn in E.
          + injection E as <- _. by destruct (Hv true).
          + injection E as <- ->. apply Forall_cons in H as [_ H]. eauto 6. }
    2:{ split; [done|]. intros (pre & v & post & E & H & Hv). destruct pre as [|x pre]; cbn in E.
        - injection E as <- _. by destruct (Hv false).
        - injection E as <- ->. by apply Forall_cons in H as [? _]. }
    all: split; [|done]; intros _; eexists [], _, args; split; [done|]; by split.
  - intros b. induction args as [|a args IH]; cbn; [by destruct b|].
    destruct a as [|[]| | | |]; cbn; try done; by destruct b.
  - induction args as [|a args IH]; cbn; [done|].
    by destruct a as [|[]| | | |].
Qed.

(** ** Policies and stacks *)

Section Semantics.
Context `{Url.NetIP}.

(** The condition of a statement holds. *)
Definition holds (req : RequestContext) (stmt : Statement) : bool :=
  match Eval req (Condition stmt) with Ok r => is_true (Result r) | _ => false end.

Definition panics (req : RequestContext) (stmt : Statement) : Prop :=
  (Eval req (Condition stmt)) = Panic.

(** The conclusions emitted by the statements that apply and hold. *)
Definition emitted (req : RequestContext) (p : PolicyBody) (action key : string) : list Conclusion :=
  map Emit (List.filter (holds req) (List.filter (selected action key) (Statements p))).

Definition with_default (p : PolicyBody) (action : string) (c : Conclusion) : Conclusion :=
  if String.eqb c UNSET then
    let def := default "" (Defaults p !! action) in
    if String.eqb def "" then UNSET else def
  else c.

Lemma eval_statements_spec req stmts c r :
  Forall (λ s, ¬ panics req s) stmts →
  ∃ r', eval_statements req stmts c r = Ok (combine_all (map Emit (List.filter (holds req) stmts)) c, r').
Proof.
  intros Hp. revert c r. induction Hp as [|s stmts Hs _ IH]; intros c r; cbn; [by eexists|].
  unfold panics in Hs. unfold holds at 1. destruct (Eval req (Condition s)) as [v|e|]; [|apply IH|done].
  destruct (is_true (Result v)); apply IH.
Qed.

Lemma EvaluatePolicy_emitted p req action key :
  Forall (λ s, ¬ panics req s) (List.filter (selected action key) (Statements p)) →
  ∃ reason, EvaluatePolicy p req action key =
    Ok (with_default p action (combine_all (emitted req p action key) UNSET), reason).
Proof.
  intros Hp. unfold EvaluatePolicy.
  destruct (eval_statements_spec req _ UNSET "" Hp) as [r' ->]. cbn. exists r'. unfold with_default.
  fold (emitted req p action key). repeat f_equal.
  destruct (String.eqb_spec (combine_all (emitted req p action key) UNSET) UNSET) as [->|]; [|done].
  by destruct (String.eqb _ "").
Qed.

(** the conclusion of a policy is the combination of what the applicable
    statements with a true condition emit, in order, and the action's default
    when that is UNSET; so a statement whose condition is false, not boolean or
    fails to evaluate could as well be absent. *)
Theorem EvaluatePolicy_spec p req action key :
  Forall (λ s, ¬ panics req s) (List.filter (selected action key) (Statements p)) →
  (∃ reason, EvaluatePolicy p req action key =
     Ok (with_default p action (combine_all (emitted req p action key) UNSET), reason)) ∧
  (∀ pre s post, Statements p = pre ++ s :: post → holds req s = false →
     emitted req (mkPolicyBody (pre ++ post) (Defaults p)) action key = emitted req p action key).
Proof.
  intros Hp. split; [by apply EvaluatePolicy_emitted|].
  intros pre s post E Hs. unfold emitted. rewrite E. cbn [Statements].
  rewrite !Stdlib.Lists.List.filter_app. cbn [List.filter]. destruct (selected action key s); [|done].
  cbn [List.filter]. by rewrite Hs.
Qed.

(** The conclusion one evaluation set contributes to its layer. *)
Definition set_conclusion (req : RequestContext) (action key : string) (s : EvaluationSet) : result Conclusion :=
  if es_Errored s then Ok (default UNSET (Defaults (es_Policy s) !! action))
  else
    r ← EvaluatePolicy (es_Policy s)
          (match es_Params s with Some p => with_params req p | None => req end) action key;
    Ok (fst r).

(** A layer evaluates to a conclusion when all its sets do. *)
Definition layer_conclusion (req : RequestContext) (action key : string) (layer : list EvaluationSet)
    (c : Conclusion) : Prop :=
  ∃ cs, Forall2 (λ s c, set_conclusion req action key s = Ok c) layer cs ∧ c = combine_all cs UNSET.

Definition strong (c : Conclusion) : Prop := c = DENY ∨ c = ALLOW.

(** The last conclusion that is set. *)
Definition last_set (cs : list Conclusion) : Conclusion :=
  fold_left (λ acc c, if String.eqb c UNSET then acc else c) cs UNSET.

Lemma eval_layer_combine req layer action key cs c r :
  Forall2 (λ s c, set_conclusion req action key s = Ok c) layer cs →
  ∃ r', eval_layer req layer action key c r = Ok (combine_all cs c, r').
Proof.
  intros Hl. revert c r. induction Hl as [|s d layer cs Hs _ IH]; intros c r; cbn; [by eexists|].
  unfold set_conclusion in Hs. destruct (es_Errored s).
  - injection Hs as <-. apply IH.
  - destruct (EvaluatePolicy _ _ _ _) as [[x y]| |]; cbn in *; [|done..].
    injection Hs as <-. apply IH.
Qed.

Lemma eval_stack_weak req pre post action key cs c r :
  Forall2 (layer_conclusion req action key) pre cs → Forall (λ c, ¬ strong c) cs →
  ∃ r', eval_stack req (pre ++ post) action key c r =
        eval_stack req post action key
          (fold_left (λ acc c, if String.eqb c UNSET then acc else c) cs c) r'.
Proof.
  intros Hl. revert c r. induction Hl as [|layer x pre cs (ds & Hds & Hx) _ IH]; intros c r Hw.
  { by exists r. }
  apply Forall_cons in Hw as [Hw Hws]. cbn.
  destruct (eval_layer_combine _ _ _ _ _ UNSET "" Hds) as [lr ->]. cbn [mbind result_bind rbind].
  rewrite <- Hx. unfold strong in Hw.
  destruct (String.eqb_spec x DENY); [tauto|]. destruct (String.eqb_spec x ALLOW); [tauto|].
  destruct (String.eqb_spec x UNSET); by apply IH.
Qed.

End Semantics.

(** a stack is decided by its first layer that concludes DENY or ALLOW,
    whatever the layers below contain; when no layer does, by the last layer
    whose conclusion is set.  A layer's conclusion is the combination of its
    sets' conclusions, an errored set counting as its default. *)
Theorem EvaluateStack_spec `{Url.NetIP} req pre action key cs :
  Forall2 (layer_conclusion req action key) pre cs → Forall (λ c, ¬ strong c) cs →
  (∀ layer c post, layer_conclusion req action key layer c → strong c →
     ∃ reason, EvaluateStack req (pre ++ layer :: post) action key = Ok (c, reason)) ∧
  (∃ reason, EvaluateStack req pre action key = Ok (last_set cs, reason)).
Proof.
  intros Hl Hw. unfold EvaluateStack. split.
  - intros layer c post (ds & Hds & ->) Hs.
    destruct (eval_stack_weak req pre (layer :: post) action key cs UNSET "" Hl Hw) as [r ->].
    cbn. destruct (eval_layer_combine _ _ _ _ _ UNSET "" Hds) as [lr ->].
    cbn [mbind result_bind rbind]. destruct Hs as [-> | ->]; by eexists.
  - destruct (eval_stack_weak req pre [] action key cs UNSET "" Hl Hw) as [r E].
    rewrite app_nil_r in E. rewrite E. by eexists.
Qed.

Definition constant_policy (c : Conclusion) : PolicyBody := mkPolicyBody [] {["record:read" := c]}.
Definition empty_request : RequestContext := mkRequestContext GInvalid GInvalid ∅ GInvalid None.

Lemma EvaluateStack_spec_witness :
  let set c := mkEvaluationSet (constant_policy c) None false in
  ∃ reason, @EvaluateStack (λ _, false) empty_request
    [[set OK]; [set NG; set OK]; [set DENY]; [set ALLOW]] "record:read" "k" = Ok (DENY, reason).
Proof.
  intros set. apply (proj1 (@EvaluateStack_spec (λ _, false) empty_request [[set OK]; [set NG; set OK]]
    "record:read" "k" [OK; UNSET]
    ltac:(constructor; [exists [OK]; split; [repeat constructor|reflexivity]
         |constructor; [exists [NG; OK]; split; [repeat constructor|reflexivity]|constructor]])
    ltac:(constructor; [intros [? | ?]; discriminate | constructor; [intros [? | ?]; discriminate | constructor]]))
    [set DENY] DENY [[set ALLOW]]).
  - exists [DENY]. split; [repeat constructor | reflexivity].
  - left. reflexivity.
Defined.

Lemma EvaluatePolicy_spec_witness :
  let p := mkPolicyBody
    [mkStatement "a" "*" NG (mkExpr "Load" [] (AStr "missing")) None;
     mkStatement "a" "*" ALLOW (mkExpr "Const" [] (ABool true)) None] ∅ in
  emitted (H := λ _, false) empty_request p "a" "k" = [ALLOW] ∧
  ∃ reason, @EvaluatePolicy (λ _, false) p empty_request "a" "k" =
    Ok (with_default p "a" (combine_all (emitted (H := λ _, false) empty_request p "a" "k") UNSET), reason).
Proof.
  intros p. split; [reflexivity|].
  apply (@EvaluatePolicy_spec (λ _, false) p empty_request "a" "k").
  constructor; [vm_compute; discriminate|]. constructor; [vm_compute; discriminate | constructor].
Defined.

(** The comparison operators panic on two lists or two maps: a policy can make
    the evaluation of any request whose value is a list panic. *)
Lemma Eq_panics_on_lists :
  let self := GStruct [field "Value" "value" (GSlice [])] in
  let req := mkRequestContext GInvalid self ∅ GInvalid None in
  let load := mkExpr "Load" [] (AStr "self.value") in
  @Eval (λ _, false) req (mkExpr "Eq" [load; load] ANil) = Panic.
Proof. reflexivity. Qed.
