(* ===== verification/GlobalPolicy.v ===== *)
(** * GlobalPolicy: the server's built-in policy ([src/cmd/concrnt/defaultPolicy.go])

    The embedded JSON text as the value [json.Unmarshal] gives, one definition
    per statement, and the decision table it implements for a request of an
    entity (or of nobody) on a document. *)

From S2P Require Import Prelude Bytes Url Ccuri Documents PolicyValues Policy.
From stdpp Require Import prelude strings gmap list.
From Stdlib Require Import ZArith Lia Ascii.
Open Scope Z_scope.

Definition load (path : string) : Expr := mkExpr "Load" [] (AStr path).
Definition eq_ (a b : Expr) : Expr := mkExpr "Eq" [a; b] ANil.
Definition owner_expr (path : string) : Expr := mkExpr "CCUriOwner" [load path] ANil.

(** The condition shared by update, delete and association delete: the author,
    or the owner of the URI at the path. *)
Definition author_or_owner (path : string) : Expr :=
  mkExpr "Or" [eq_ (load "requester.ccid") (load "self.author");
               eq_ (load "requester.ccid") (owner_expr path)] ANil.

Definition create_own : Statement :=
  mkStatement "record:create" "*" ALLOW
    (mkExpr "And" [eq_ (load "requester.domain") (load "globals.fqdn");
                   eq_ (load "requester.ccid") (owner_expr "self.key")] ANil)
    (Some "ALLOW if the record is created under the namespace of the requester").

Definition create_server : Statement :=
  mkStatement "record:create" "*" OK
    (mkExpr "And" [eq_ (load "requester.domain") (load "globals.fqdn");
                   eq_ (owner_expr "self.key") (load "globals.fqdn")] ANil)
    (Some "OK if the record is created under the namespace of this server").

Definition read_own : Statement :=
  mkStatement "record:read" "*" ALLOW (eq_ (load "requester.ccid") (owner_expr "self.key"))
    (Some "ALLOW if the record is in the namespace of the requester").

Definition update_own : Statement :=
  mkStatement "record:update" "*" ALLOW (author_or_owner "self.key")
    (Some "ALLOW if the requester is the author of the record or the record is in the namespace of the requester").

Definition delete_own : Statement :=
  mkStatement "record:delete" "*" ALLOW (author_or_owner "self.key")
    (Some "ALLOW if the requester is the author of the record or the record is in the namespace of the requester").

Definition association_delete_own : Statement :=
  mkStatement "association:delete" "*" ALLOW (author_or_owner "self.associate")
    (Some "ALLOW if the requester is the author of the association or the parent of the association is in the namespace of the requester").

Definition global_defaults : gmap string Conclusion :=
  list_to_map [("record:create", NG); ("record:read", OK); ("record:update", NG); ("record:delete", NG);
               ("association:create", OK); ("association:read", OK); ("association:delete", NG)].

Definition GetGlobalPolicy : PolicyBody :=
  mkPolicyBody [create_own; create_server; read_own; update_own; delete_own; association_delete_own]
    global_defaults.

(** ** What the conditions compute *)

Section Conditions.
Context `{Url.NetIP}.
Context (r : option Entity) (d : Document any_) (params : gmap string any_) (fqdn : string)
  (caller : option ConcrntCaller).

(** A request as [PolicyService.Eval] builds it. *)
Definition request : RequestContext :=
  mkRequestContext (gval_of_requester r) (GInterface (Some (gval_of_document d))) params
    (gval_of_globals fqdn) caller.

(** The value of an expression, if it evaluates. *)
Definition value (e : Expr) : result any_ := match Eval request e with
                                             | Ok v => Ok (Result v) | Err e => Err e | Panic => Panic end.

Definition err {A} (x : result A) : Prop := ∃ e, x = Err e.

Lemma value_load path :
  value (load path) =
    of_option (GoError ("key not found: " +:+ path)) (resolveDotNotation (structToMap (gval_of_request request)) path).
Proof.
  unfold value, load. cbn -[structToMap resolveDotNotation]. by destruct (resolveDotNotation _ path).
Qed.

Lemma load_self_key : value (load "self.key") = Ok (AStr (Key d)).
Proof. rewrite value_load. reflexivity. Qed.
Lemma load_self_author : value (load "self.author") = Ok (AStr (Author d)).
Proof. rewrite value_load. reflexivity. Qed.
Lemma load_self_associate :
  value (load "self.associate") = Ok (match Associate d with Some a => AStr a | None => ANil end).
Proof. rewrite value_load. unfold request. destruct d as [? ? ? ? ? ? ? ? [a|] ? ?]; reflexivity. Qed.
Lemma load_fqdn : value (load "globals.fqdn") = Ok (AStr fqdn).
Proof. rewrite value_load. reflexivity. Qed.
Lemma load_ccid e : r = Some e → value (load "requester.ccid") = Ok (AStr (e_ID e)).
Proof. intros E. rewrite value_load. unfold request. rewrite E. reflexivity. Qed.
Lemma load_domain e : r = Some e → value (load "requester.domain") = Ok (AStr (e_Domain e)).
Proof. intros E. rewrite value_load. unfold request. rewrite E. reflexivity. Qed.
Lemma load_nobody path : r = None → path = "requester.ccid" ∨ path = "requester.domain" → err (value (load path)).
Proof. intros E [-> | ->]; rewrite value_load; unfold request; rewrite E; eexists; reflexivity. Qed.

Lemma value_op1 op f a :
  operators request op = Some f → op ≠ "Const" →
  value (mkExpr op [a] ANil) = (va ← value a; f [va]).
Proof.
  intros Hf Hop%String.eqb_neq. unfold value. cbn [Eval]. rewrite Hop.
  destruct (Eval request a) as [ra| |]; [|done..]. cbn [mbind result_bind rbind app].
  unfold apply_operator. rewrite Hf. cbn [map]. by destruct (f [Result ra]).
Qed.

Lemma value_op2 op f a b :
  operators request op = Some f → op ≠ "Const" →
  value (mkExpr op [a; b] ANil) = (va ← value a; vb ← value b; f [va; vb]).
Proof.
  intros Hf Hop%String.eqb_neq. unfold value. cbn [Eval]. rewrite Hop.
  destruct (Eval request a) as [ra| |]; [|done..]. cbn [mbind result_bind rbind app].
  destruct (Eval request b) as [rb| |]; [|done..]. cbn [mbind result_bind rbind app].
  unfold apply_operator. rewrite Hf. cbn [map]. by destruct (f [Result ra; Result rb]).
Qed.

Lemma value_eq a b x y :
  value a = Ok (AStr x) → value b = Ok (AStr y) → value (eq_ a b) = Ok (ABool (String.eqb x y)).
Proof. intros Ha Hb. unfold eq_. erewrite value_op2 by done. by rewrite Ha, Hb. Qed.

Lemma value_eq_err a b : err (value a) ∨ (is_ok (value a) = true ∧ err (value b)) → err (value (eq_ a b)).
Proof.
  intros Hab. unfold eq_. erewrite value_op2 by done.
  destruct Hab as [[e ->] | [Ha [e ->]]]; [by eexists|]. destruct (value a); [|done..]. by eexists.
Qed.

(** The owner of a loaded URI: an error when the text does not parse. *)
Lemma value_owner path k :
  value (load path) = Ok (AStr k) →
  match owner_of k with
  | Some o => value (owner_expr path) = Ok (AStr o)
  | None => err (value (owner_expr path))
  end.
Proof.
  intros Hk. unfold owner_expr. erewrite value_op1 by done. rewrite Hk. cbn.
  pose proof (ParseCCURI_no_panic k) as Hnp. unfold owner_of.
  destruct (ParseCCURI k); [done| |done]. by eexists.
Qed.

(** What a condition contributes: true, or nothing. *)
Definition true_of (v : result any_) : bool := match v with Ok v => is_true v | _ => false end.

Lemma holds_value stmt : holds request stmt = true_of (value (Condition stmt)).
Proof. unfold holds, value. by destruct (Eval request (Condition stmt)). Qed.

Lemma panics_value stmt : panics request stmt ↔ value (Condition stmt) = Panic.
Proof. unfold panics, value. by destruct (Eval request (Condition stmt)). Qed.

(** The truth of a condition that evaluates to a boolean or fails. *)
Definition decides (e : Expr) (b : bool) : Prop := value e = Ok (ABool b) ∨ (err (value e) ∧ b = false).

Lemma decides_holds stmt b : decides (Condition stmt) b → holds request stmt = b ∧ ¬ panics request stmt.
Proof.
  rewrite holds_value, panics_value. intros [-> | [[e ->] ->]]; [by destruct b | done].
Qed.

Lemma decides_and a b x y : decides a x → decides b y → decides (mkExpr "And" [a; b] ANil) (x && y).
Proof.
  unfold decides. erewrite value_op2 by done.
  intros [-> | [[e ->] ->]]; [|right; split; [by eexists|done]].
  intros [-> | [[e ->] ->]]; [by left; destruct x, y|].
  right. split; [by eexists | by rewrite andb_false_r].
Qed.

Definition owner_is (k id : string) : bool := match owner_of k with Some o => String.eqb id o | None => false end.
Definition requester_is (f : Entity → bool) : bool := match r with Some e => f e | None => false end.

Lemma decides_domain :
  decides (eq_ (load "requester.domain") (load "globals.fqdn")) (requester_is (λ e, String.eqb (e_Domain e) fqdn)).
Proof.
  unfold decides, requester_is. destruct r as [e|] eqn:E.
  - left. erewrite value_eq; [done| |apply load_fqdn]. by apply load_domain.
  - right. split; [|done]. apply value_eq_err. left. apply load_nobody; auto.
Qed.

Lemma decides_owner path k :
  value (load path) = Ok (AStr k) →
  decides (eq_ (load "requester.ccid") (owner_expr path)) (requester_is (λ e, owner_is k (e_ID e))).
Proof.
  intros Hk%value_owner. unfold decides, requester_is, owner_is.
  destruct r as [e|] eqn:E.
  - pose proof (load_ccid e E) as He. destruct (owner_of k) as [o|].
    + left. by erewrite value_eq.
    + right. split; [|done]. apply value_eq_err. right. by rewrite He.
  - right. split; [|by destruct (owner_of k)]. apply value_eq_err. left. apply load_nobody; auto.
Qed.

Lemma decides_server_owner :
  decides (eq_ (owner_expr "self.key") (load "globals.fqdn")) (owner_is (Key d) fqdn).
Proof.
  pose proof (value_owner _ _ load_self_key) as Hk. unfold decides, owner_is.
  destruct (owner_of (Key d)) as [o|].
  - left. erewrite value_eq; [|done|apply load_fqdn]. by rewrite String.eqb_sym.
  - right. split; [|done]. apply value_eq_err. by left.
Qed.

(** Or evaluates both sides: an unparsable URI hides the author's own right. *)
Lemma decides_author_or_owner path k :
  value (load path) = Ok (AStr k) →
  decides (author_or_owner path)
    (requester_is (λ e, match owner_of k with
                        | Some o => String.eqb (e_ID e) (Author d) || String.eqb (e_ID e) o
                        | None => false end)).
Proof.
  intros Hk%value_owner. unfold decides, requester_is, author_or_owner. erewrite value_op2 by done.
  destruct r as [e|] eqn:E.
  - pose proof (load_ccid e E) as He. rewrite (value_eq _ _ _ _ He load_self_author).
    cbn [mbind result_bind rbind]. destruct (owner_of k) as [o|].
    + left. erewrite value_eq by done. cbn. by destruct (String.eqb (e_ID e) (Author d)), (String.eqb (e_ID e) o).
    + right. split; [|done].
      assert (err (value (eq_ (load "requester.ccid") (owner_expr path)))) as [x Hx].
      { apply value_eq_err. right. by rewrite He. }
      rewrite Hx. by eexists.
  - right. split; [|done].
    assert (err (value (eq_ (load "requester.ccid") (load "self.author")))) as [x Hx].
    { apply value_eq_err. left. apply load_nobody; auto. }
    rewrite Hx. by eexists.
Qed.

Lemma decides_no_associate :
  Associate d = None → decides (author_or_owner "self.associate") false.
Proof.
  intros Ha. right. split; [|done]. unfold author_or_owner. erewrite value_op2 by done.
  assert (err (value (owner_expr "self.associate"))) as Ho.
  { unfold owner_expr. erewrite value_op1 by done. rewrite load_self_associate, Ha. by eexists. }
  destruct r as [e|] eqn:E.
  - pose proof (load_ccid e E) as He. rewrite (value_eq _ _ _ _ He load_self_author).
    assert (err (value (eq_ (load "requester.ccid") (owner_expr "self.associate")))) as [x Hx].
    { apply value_eq_err. right. by rewrite He. }
    cbn [mbind result_bind rbind]. rewrite Hx. by eexists.
  - assert (err (value (eq_ (load "requester.ccid") (load "self.author")))) as [x Hx].
    { apply value_eq_err. left. apply load_nobody; auto. }
    rewrite Hx. by eexists.
Qed.

End Conditions.

(** ** The decision table *)

Section Table.
Context `{Url.NetIP}.

Definition owns (k : string) (e : Entity) : bool := owner_is k (e_ID e).

(** The requester wrote the document, or owns the URI [k]; neither holds when
    [k] has no owner. *)
Definition author_or_owns (d : Document any_) (k : string) (e : Entity) : bool :=
  match owner_of k with
  | Some o => String.eqb (e_ID e) (Author d) || String.eqb (e_ID e) o
  | None => false
  end.

Definition allow_if (b : bool) (otherwise : Conclusion) : Conclusion := if b then ALLOW else otherwise.

(** The conclusion of the built-in policy for a requester on a document. *)
Definition global_table (fqdn : string) (r : option Entity) (d : Document any_) (action : string) : Conclusion :=
  if String.eqb action "record:create" then
    match r with
    | Some e =>
        if negb (String.eqb (e_Domain e) fqdn) then NG
        else allow_if (owns (Key d) e) (if owner_is (Key d) fqdn then OK else NG)
    | None => NG
    end
  else if String.eqb action "record:read" then
    allow_if (match r with Some e => owns (Key d) e | None => false end) OK
  else if String.eqb action "record:update" || String.eqb action "record:delete" then
    allow_if (match r with Some e => author_or_owns d (Key d) e | None => false end) NG
  else if String.eqb action "association:delete" then
    allow_if (match r, Associate d with Some e, Some a => author_or_owns d a e | _, _ => false end) NG
  else if String.eqb action "association:create" || String.eqb action "association:read" then OK
  else UNSET.

Lemma star_matches key : lacks newline key → key_matches "*" key = true.
Proof.
  intros Hk. unfold key_matches. cbn [utf8_valid]. apply andb_true_iff. split; [done|].
  apply glob_match_spec. rewrite <- (str_app_nil_r key). by constructor; [|constructor].
Qed.

Lemma selected_star action key a e c reason :
  lacks newline key → selected action key (mkStatement a "*" e c reason) = String.eqb a action.
Proof. intros Hk. unfold selected. cbn [Action st_Key]. by rewrite star_matches, andb_true_r. Qed.

Context (r : option Entity) (d : Document any_) (params : gmap string any_) (fqdn : string)
  (caller : option ConcrntCaller).
Notation req := (request r d params fqdn caller).

(** A statement evaluates without panicking, and holds when [b]. *)
Definition settles (s : Statement) (b : bool) : Prop := holds req s = b ∧ ¬ panics req s.

Lemma settles_create_own :
  settles create_own (requester_is r (λ e, String.eqb (e_Domain e) fqdn) && requester_is r (owns (Key d))).
Proof.
  apply decides_holds, decides_and; [apply decides_domain|]. apply decides_owner, load_self_key.
Qed.

Lemma settles_create_server :
  settles create_server (requester_is r (λ e, String.eqb (e_Domain e) fqdn) && owner_is (Key d) fqdn).
Proof. apply decides_holds, decides_and; [apply decides_domain | apply decides_server_owner]. Qed.

Lemma settles_read_own : settles read_own (requester_is r (owns (Key d))).
Proof. apply decides_holds, decides_owner, load_self_key. Qed.

Lemma settles_update_own : settles update_own (requester_is r (author_or_owns d (Key d))).
Proof. apply decides_holds, decides_author_or_owner, load_self_key. Qed.

Lemma settles_delete_own : settles delete_own (requester_is r (author_or_owns d (Key d))).
Proof. apply decides_holds, decides_author_or_owner, load_self_key. Qed.

Lemma settles_association_delete_own :
  settles association_delete_own
    (match Associate d with Some a => requester_is r (author_or_owns d a) | None => false end).
Proof.
  pose proof (load_self_associate r d params fqdn caller) as Ha.
  destruct (Associate d) as [a|] eqn:Ea.
  - apply decides_holds. by apply decides_author_or_owner.
  - apply decides_holds. by apply decides_no_associate.
Qed.

(** The conclusion of an action, from what its statements settle to. *)
Lemma conclude action key stmts bs :
  List.filter (selected action key) (Statements GetGlobalPolicy) = stmts →
  Forall2 settles stmts bs →
  ∃ reason, EvaluatePolicy GetGlobalPolicy req action key =
    Ok (with_default GetGlobalPolicy action
          (combine_all (map snd (List.filter fst (zip bs (map Emit stmts)))) UNSET), reason).
Proof.
  intros Hs Hb.
  assert (Forall (λ s, ¬ panics req s) stmts) as Hp by (clear Hs; induction Hb as [|???? []]; by constructor).
  rewrite <- Hs in Hp. destruct (EvaluatePolicy_emitted _ _ _ _ Hp) as [reason ->]. exists reason.
  unfold emitted. rewrite Hs. do 4 f_equal. clear Hs Hp.
  induction Hb as [|s b stmts bs [Hh _] _ IH]; [done|]. cbn. rewrite Hh.
  destruct b; cbn; by rewrite IH.
Qed.

Lemma selected_own action key :
  lacks newline key →
  List.filter (selected action key) (Statements GetGlobalPolicy) =
  List.filter (λ s, String.eqb (Action s) action) (Statements GetGlobalPolicy).
Proof.
  intros Hk. cbn [Statements GetGlobalPolicy]. apply filter_ext_in. intros s Hs.
  repeat (destruct Hs as [<- | Hs]; [by apply selected_star|]). done.
Qed.

End Table.

Lemma global_table_evaluates `{Url.NetIP} r d params fqdn caller action key :
  lacks newline key →
  ∃ reason, EvaluatePolicy GetGlobalPolicy (request r d params fqdn caller) action key =
    Ok (global_table fqdn r d action, reason).
Proof.
  intros Hk. pose proof (selected_own action key Hk) as Hs. unfold global_table.
  destruct (String.eqb_spec action "record:create") as [->|].
  { edestruct conclude as [x ->]; [exact Hs|constructor; [apply settles_create_own|
      constructor; [apply settles_create_server|constructor]]|]. exists x.
    unfold requester_is. destruct r as [e|]; [|done].
    by destruct (String.eqb (e_Domain e) fqdn), (owns (Key d) e), (owner_is (Key d) fqdn). }
  destruct (String.eqb_spec action "record:read") as [->|].
  { edestruct conclude as [x ->]; [exact Hs|constructor; [apply settles_read_own|constructor]|]. exists x.
    unfold requester_is. destruct r as [e|]; [|done]. by destruct (owns (Key d) e). }
  destruct (String.eqb_spec action "record:update") as [->|].
  { edestruct conclude as [x ->]; [exact Hs|constructor; [apply settles_update_own|constructor]|]. exists x.
    unfold requester_is. destruct r as [e|]; [|done]. by destruct (author_or_owns d (Key d) e). }
  destruct (String.eqb_spec action "record:delete") as [->|].
  { edestruct conclude as [x ->]; [exact Hs|constructor; [apply settles_delete_own|constructor]|]. exists x.
    unfold requester_is. destruct r as [e|]; [|done]. by destruct (author_or_owns d (Key d) e). }
  destruct (String.eqb_spec action "association:delete") as [->|].
  { edestruct conclude as [x ->]; [exact Hs|constructor; [apply settles_association_delete_own|constructor]|].
    exists x. unfold requester_is. destruct r as [e|], (Associate d) as [a|]; try done.
    by destruct (author_or_owns d a e). }
  assert (List.filter (λ s, String.eqb (Action s) action) (Statements GetGlobalPolicy) = []) as Hn.
  { cbn [List.filter Statements GetGlobalPolicy Action create_own create_server read_own update_own
      delete_own association_delete_own].
    by repeat rewrite (proj2 (String.eqb_neq _ _)) by congruence. }
  rewrite Hn in Hs. edestruct conclude as [x ->]; [exact Hs|constructor|].
  exists x. do 2 f_equal.
  change (with_default GetGlobalPolicy action UNSET =
    if String.eqb action "association:create" || String.eqb action "association:read" then OK else UNSET).
  unfold with_default. change (Defaults GetGlobalPolicy) with global_defaults.
  destruct (String.eqb_spec action "association:create") as [->|]; [done|].
  destruct (String.eqb_spec action "association:read") as [->|]; [done|].
  match goal with |- context [default "" ?o] => assert (o = None) as ->; [|done] end.
  unfold global_defaults. apply not_elem_of_list_to_map. cbn. set_solver.
Qed.

(** C32: the built-in policy implements its table: only users of this server
    create records, freely under their own name and, unless a lower policy
    objects, under the server's; anyone reads unless a lower policy objects,
    owners always; authors and owners update and delete; deleting an
    association takes its author or the target's owner; every other action is
    left to the layers below.  So an ALLOW always goes to an identified
    requester who wrote the document or owns its key or target. *)
Theorem GlobalPolicy_table `{Url.NetIP} r d params fqdn caller action key :
  lacks newline key →
  (∃ reason, EvaluatePolicy GetGlobalPolicy (request r d params fqdn caller) action key =
     Ok (global_table fqdn r d action, reason)) ∧
  (global_table fqdn r d action = ALLOW →
     ∃ e, r = Some e ∧
       (e_ID e = Author d ∨ owner_of (Key d) = Some (e_ID e) ∨
        ∃ a, Associate d = Some a ∧ owner_of a = Some (e_ID e))).
Proof.
  intros Hk. split; [by apply global_table_evaluates|].
  unfold global_table, allow_if, owns, owner_is, author_or_owns.
  destruct r as [e|]; [|repeat case_match; done]. intros Ht. exists e. split; [done|].
  destruct (owner_of (Key d)) as [o|], (Associate d) as [a|];
    try destruct (owner_of a) as [oa|] eqn:Ea;
    repeat match type of Ht with context [String.eqb ?x ?y] =>
      destruct (String.eqb_spec x y); cbn in Ht; try discriminate Ht end;
    subst; eauto 7.
Qed.

Lemma GlobalPolicy_table_witness :
  let e := mkEntity "con1" None "host" "" None in
  let d := mkDocument "record" "cckv://con1/x" ANil "con2" "" 0 None None None None None in
  (∃ reason, @EvaluatePolicy (λ _, false) GetGlobalPolicy (@request (Some e) d ∅ "host" None)
     "record:create" "x" = Ok (ALLOW, reason)) ∧
  (∃ reason, @EvaluatePolicy (λ _, false) GetGlobalPolicy (@request None d ∅ "host" None)
     "record:create" "x" = Ok (NG, reason)).
Proof.
  intros e d. split.
  - exact (proj1 (@GlobalPolicy_table (λ _, false) (Some e) d ∅ "host" None "record:create" "x" eq_refl)).
  - exact (proj1 (@GlobalPolicy_table (λ _, false) None d ∅ "host" None "record:create" "x" eq_refl)).
Defined.
