(* ===== verification/PolicyService.v ===== *)
(** * PolicyService: resolving and enforcing policy stacks ([src/internal/service/policy.go])

    A record's hierarchy declares policies by URL; the service fetches them
    (through a cache of the raw texts), rewrites their relative keys, inserts a
    layer for the destinations a record is distributed to, puts the built-in
    policy on top and asks the evaluator.  HTTP, the remote client and the JSON
    codec of policies are the class [PolicyNetwork].  The cache drops entries
    after ten minutes; a dropped entry is one the cache argument lacks. *)

From S2P Require Import Prelude Bytes Url Ccuri Documents PolicyValues Policy GlobalPolicy.
From stdpp Require Import prelude strings gmap list.
From Stdlib Require Import ZArith Lia Ascii.
Open Scope Z_scope.

Class PolicyNetwork := {
  (** [http.Get] of a policy URL and decoding of its [PolicyDocument]: the versions. *)
  http_get_versions : string → result (gmap string any_);
  marshal_any : any_ → result string;
  (** [json.Unmarshal] into a [policy.Policy]. *)
  unmarshal_policy_body : string → result PolicyBody;
  (** [client.GetRecord] of a virtual parent, unverified. *)
  get_record : string → result (Document any_);
  (** [client.Call] of a named API on a resolver. *)
  client_call : string → string → gmap string string → result any_;
}.

Definition policyAllowedAPIs : list string := ["net.concrnt.core.acknowledges"].

(** The text cache: policy URL to the JSON of the known version. *)
Notation Cache := (gmap string string) (only parsing).

Section Service.
Context `{Url.NetIP} `{PolicyNetwork}.

(** An envelope's item list stands for the envelope. *)
Definition ConcrntCall : ConcrntCaller := λ resolver api params,
  if negb (in_list policyAllowedAPIs api) then
    Err (GoError ("api " +:+ api +:+ " is not allowed in policy evaluation"))
  else
    r ← client_call resolver api params;
    Ok (match r with
        | AMap envelope => match envelope !! "items" with Some items => items | None => r end
        | _ => r
        end).

Definition version : string := "2025-12-23".

Definition ResolvePolicyURL (cache : Cache) (policyURL : string) : result PolicyBody * Cache :=
  match cache !! policyURL with
  | Some bytes =>
      match unmarshal_policy_body bytes with
      | Ok p => (Ok p, cache)
      | Err e => (Err e, delete policyURL cache)
      | Panic => (Panic, cache)
      end
  | None =>
      match http_get_versions policyURL with
      | Ok versions =>
          match versions !! version with
          | None => (Err (GoError ("unsupported policy version in " +:+ policyURL)), cache)
          | Some policyAny =>
              match marshal_any policyAny with
              | Ok bytes =>
                  match unmarshal_policy_body bytes with
                  | Ok p => (Ok p, <[policyURL := bytes]> cache)
                  | r => (r, cache)
                  end
              | Err e => (Err e, cache)
              | Panic => (Panic, cache)
              end
          end
      | Err e => (Err e, cache)
      | Panic => (Panic, cache)
      end
  end.

(** The entries one virtual parent contributes: an errored entry when it cannot
    be fetched, none when it declares no policy. *)
Definition virtual_entries (parent : string) : list PolicyEntry :=
  match get_record parent with
  | Ok doc => match doc_Policy doc with Some p => pol_Entries p | None => [] end
  | _ => [mkPolicyEntry None None None true]
  end.

(** The path of the layer above: all but the last segment. *)
Definition parent_path (source : string) : string :=
  Str.join (removelast (Str.split source "/")) "/".

(** The layers one declared layer stands for: its virtual parents' entries, if
    there are any, as a layer of their own just above it. *)
Definition expand_layer (layer : Documents.Policy) : list Documents.Policy :=
  match pol_VirtualParents layer with
  | Some (p :: ps) =>
      let entries := concat (map virtual_entries (p :: ps)) in
      match entries with
      | [] => [layer]
      | _ => [mkPolicy entries None (parent_path (pol_Source layer)); layer]
      end
  | _ => [layer]
  end.

Definition expand_virtual_parents (stack : list Documents.Policy) : list Documents.Policy :=
  concat (map expand_layer stack).

(** Relative statement keys become patterns on the layer's source. *)
Definition rewrite_key (source key : string) : string :=
  if String.eqb key "." then source
  else if String.eqb key "" || String.eqb key "*" then source +:+ "*"
  else if String.eqb key "./*" then source +:+ "/*"
  else key.

Definition rewrite_statement (source : string) (s : Statement) : Statement :=
  mkStatement (Action s) (rewrite_key source (st_Key s)) (Emit s) (Condition s) (Reason s).

Definition entryDefaults (p : PolicyEntry) : option (gmap string Conclusion) := pe_Defaults p.

Definition erroredEvaluationSet (p : PolicyEntry) : EvaluationSet :=
  mkEvaluationSet (mkPolicyBody [] (default ∅ (entryDefaults p))) None true.

(** The evaluation set of a fetched policy: the entry's defaults override. *)
Definition resolved_set (source : string) (p : PolicyEntry) (pol : PolicyBody) : EvaluationSet :=
  mkEvaluationSet
    (mkPolicyBody (map (rewrite_statement source) (Statements pol))
       (default ∅ (entryDefaults p) ∪ Defaults pol))
    (pe_Params p) false.

Fixpoint resolve_entries (cache : Cache) (source : string) (entries : list PolicyEntry)
    : result (list EvaluationSet) * Cache :=
  match entries with
  | [] => (Ok [], cache)
  | p :: entries =>
      let '(set, cache) :=
        if pe_Errored p then (Ok [erroredEvaluationSet p], cache)
        else match pe_URL p with
             | None => (Ok [], cache)
             | Some url =>
                 let '(pol, cache) := ResolvePolicyURL cache url in
                 (match pol with
                  | Ok pol => Ok [resolved_set source p pol]
                  | Err _ => Ok [erroredEvaluationSet p]
                  | Panic => Panic
                  end, cache)
             end in
      let '(rest, cache) := resolve_entries cache source entries in
      (s ← set; r ← rest; Ok (s ++ r), cache)
  end.

Fixpoint resolve_layers (cache : Cache) (layers : list Documents.Policy) : result PolicyStack * Cache :=
  match layers with
  | [] => (Ok [], cache)
  | layer :: layers =>
      let '(sets, cache) := resolve_entries cache (pol_Source layer) (pol_Entries layer) in
      let '(rest, cache) := resolve_layers cache layers in
      (s ← sets; r ← rest; Ok (s :: r), cache)
  end.

Definition resolvePolicyStack (cache : Cache) (stack : list Documents.Policy) : result PolicyStack * Cache :=
  resolve_layers cache (expand_virtual_parents stack).

(** [PolicyService]: the built-in policy and the server's name. *)
Record PolicyService : Type := mkPolicyService {
  globalPolicy : PolicyBody;
  globalParameters_FQDN : string;
}.

Definition NewPolicyService (globalPolicy : PolicyBody) (fqdn : string) : PolicyService :=
  mkPolicyService globalPolicy fqdn.

(** The request the evaluator sees. *)
Definition service_request (s : PolicyService) (requester self : gval) (params : gmap string any_) : RequestContext :=
  mkRequestContext requester self params (gval_of_globals (globalParameters_FQDN s)) (Some ConcrntCall).

Definition permits (c : Conclusion) : bool := String.eqb c ALLOW || String.eqb c OK.

Definition Eval_ (s : PolicyService) (cache : Cache) (requester self : gval) (params : gmap string any_)
    (stack : list Documents.Policy) (action key : string) : result unit * Cache :=
  let '(additionalStack, cache) := resolvePolicyStack cache stack in
  (additional ← additionalStack;
   '(conclusion, reason) ←
     EvaluateStack (service_request s requester self params)
       ([mkEvaluationSet (globalPolicy s) None false] :: additional) action key;
   if permits conclusion then Ok tt
   else Err (PermissionError ("action denied by policy: " +:+ reason)), cache).

End Service.

(** ** Deciding a stack *)

Definition is_strong (c : Conclusion) : bool := String.eqb c DENY || String.eqb c ALLOW.

(** The first strong conclusion, else the last one set. *)
Definition decide_stack (cs : list Conclusion) : Conclusion :=
  match List.find is_strong cs with Some c => c | None => last_set cs end.

Lemma is_strong_spec c : is_strong c = true ↔ strong c.
Proof. unfold is_strong, strong. rewrite orb_true_iff, !String.eqb_eq. done. Qed.

Lemma find_split {A} (f : A → bool) l a :
  List.find f l = Some a →
  ∃ pre post, l = pre ++ a :: post ∧ f a = true ∧ Forall (λ x, f x = false) pre.
Proof.
  induction l as [|x l IH]; cbn; [done|]. destruct (f x) eqn:E.
  - intros [= ->]. by exists [], l.
  - intros (pre & post & -> & Ha & Hp)%IH. exists (x :: pre), post. split; [done|]. split; [done|].
    by constructor.
Qed.

Lemma EvaluateStack_decide `{Url.NetIP} req stack action key cs :
  Forall2 (layer_conclusion req action key) stack cs →
  ∃ reason, EvaluateStack req stack action key = Ok (decide_stack cs, reason).
Proof.
  intros Hl. unfold decide_stack, EvaluateStack. destruct (List.find is_strong cs) as [c|] eqn:E.
  - apply find_split in E as (pre & post & -> & Hc & Hw).
    apply Forall2_app_inv_r in Hl as (lpre & lrest & Hpre & Hrest & ->).
    inversion Hrest as [|layer ? lpost ? (ds & Hds & Ed) _]; subst.
    assert (Forall (λ c, ¬ strong c) pre) as Hweak.
    { eapply Forall_impl; [exact Hw|]. cbn. intros x Hx Hs. apply is_strong_spec in Hs. congruence. }
    destruct (eval_stack_weak req lpre (layer :: lpost) action key pre UNSET "" Hpre Hweak) as [r ->].
    cbn. destruct (eval_layer_combine _ _ _ _ _ UNSET "" Hds) as [lr ->].
    cbn [mbind result_bind rbind]. apply is_strong_spec in Hc.
    destruct Hc as [Hc | Hc]; rewrite Hc; by eexists.
  - assert (Forall (λ c, ¬ strong c) cs) as Hweak.
    { apply Forall_forall. intros x Hx Hs%is_strong_spec.
      apply list_elem_of_In in Hx. pose proof (List.find_none _ _ E x Hx). congruence. }
    destruct (eval_stack_weak req stack [] action key cs UNSET "" Hl Hweak) as [r Er].
    rewrite app_nil_r in Er. rewrite Er. by eexists.
Qed.

(** ** Resolution *)

Section Resolution.
Context `{Url.NetIP} `{PolicyNetwork}.

(** The text a fetch of a URL would cache. *)
Definition fetched (url bytes : string) : Prop :=
  ∃ versions v p, http_get_versions url = Ok versions ∧ versions !! version = Some v ∧
    marshal_any v = Ok bytes ∧ unmarshal_policy_body bytes = Ok p.

Definition consistent (cache : Cache) : Prop := ∀ url bytes, cache !! url = Some bytes → fetched url bytes.

Lemma ResolvePolicyURL_consistent cache url :
  consistent cache →
  fst (ResolvePolicyURL cache url) = fst (ResolvePolicyURL ∅ url) ∧
  consistent (snd (ResolvePolicyURL cache url)).
Proof.
  intros Hc. unfold ResolvePolicyURL. rewrite lookup_empty.
  destruct (cache !! url) as [bytes|] eqn:E.
  - destruct (Hc _ _ E) as (vs & v & p & Hg & Hv & Hm & Hp). by rewrite Hg, Hv, Hm, Hp.
  - destruct (http_get_versions url) as [vs| |] eqn:Hg; [|done..].
    destruct (vs !! version) as [v|] eqn:Hv; [|done].
    destruct (marshal_any v) as [bytes| |] eqn:Hm; [|done..].
    destruct (unmarshal_policy_body bytes) as [p| |] eqn:Hp; [|done..].
    split; [done|]. cbn. intros u b Hl. destruct (decide (u = url)) as [->|Hne].
    + rewrite lookup_insert_eq in Hl. injection Hl as <-. by exists vs, v, p.
    + rewrite lookup_insert_ne in Hl by done. by apply Hc.
Qed.

Lemma consistent_empty : consistent ∅.
Proof. intros u b Hl. by rewrite lookup_empty in Hl. Qed.

Lemma resolve_entries_consistent source entries cache cache' :
  consistent cache → consistent cache' →
  fst (resolve_entries cache source entries) = fst (resolve_entries cache' source entries) ∧
  consistent (snd (resolve_entries cache source entries)).
Proof.
  revert cache cache'. induction entries as [|p entries IH]; intros cache cache' Hc Hc'; cbn; [done|].
  destruct (pe_Errored p); [|destruct (pe_URL p) as [url|]].
  - destruct (IH cache cache' Hc Hc') as [E1 E2].
    destruct (resolve_entries cache source entries), (resolve_entries cache' source entries); cbn in *.
    by subst.
  - destruct (ResolvePolicyURL_consistent cache url Hc) as [F1 F2].
    destruct (ResolvePolicyURL_consistent cache' url Hc') as [G1 G2].
    rewrite <- G1 in F1. destruct (ResolvePolicyURL cache url) as [x c1], (ResolvePolicyURL cache' url) as [y c2].
    cbn in *. subst y. destruct (IH c1 c2 F2 G2) as [E1 E2].
    destruct (resolve_entries c1 source entries), (resolve_entries c2 source entries); cbn in *. by subst.
  - destruct (IH cache cache' Hc Hc') as [E1 E2].
    destruct (resolve_entries cache source entries), (resolve_entries cache' source entries); cbn in *.
    by subst.
Qed.

Lemma resolve_layers_consistent layers cache cache' :
  consistent cache → consistent cache' →
  fst (resolve_layers cache layers) = fst (resolve_layers cache' layers) ∧
  consistent (snd (resolve_layers cache layers)).
Proof.
  revert cache cache'. induction layers as [|l layers IH]; intros cache cache' Hc Hc'; cbn; [done|].
  destruct (resolve_entries_consistent (pol_Source l) (pol_Entries l) cache cache' Hc Hc') as [F1 F2].
  destruct (resolve_entries_consistent (pol_Source l) (pol_Entries l) cache' cache Hc' Hc) as [_ G2].
  destruct (resolve_entries cache _ _) as [x c1], (resolve_entries cache' _ _) as [y c2]. cbn in *. subst y.
  destruct (IH c1 c2 F2 G2) as [E1 E2].
  destruct (resolve_layers c1 layers), (resolve_layers c2 layers); cbn in *. by subst.
Qed.

(** A policy text that fails to parse is an error, never a panic. *)
Definition no_codec_panic : Prop :=
  (∀ u, http_get_versions u ≠ Panic) ∧ (∀ v, marshal_any v ≠ Panic) ∧ (∀ b, unmarshal_policy_body b ≠ Panic).

Lemma ResolvePolicyURL_no_panic cache url : no_codec_panic → fst (ResolvePolicyURL cache url) ≠ Panic.
Proof.
  intros (Hh & Hm & Hu). unfold ResolvePolicyURL.
  destruct (cache !! url) as [b|].
  - specialize (Hu b). by destruct (unmarshal_policy_body b).
  - specialize (Hh url). destruct (http_get_versions url) as [vs| |]; [|done..].
    destruct (vs !! version) as [v|]; [|done].
    specialize (Hm v). destruct (marshal_any v) as [b| |]; [|done..].
    specialize (Hu b). by destruct (unmarshal_policy_body b).
Qed.

Lemma resolve_entries_ok source entries cache :
  no_codec_panic → ∃ sets, fst (resolve_entries cache source entries) = Ok sets.
Proof.
  intros Hn. revert cache. induction entries as [|p entries IH]; intros cache; cbn; [by eexists|].
  destruct (pe_Errored p); [|destruct (pe_URL p) as [url|]].
  - destruct (IH cache) as [s Hs]. destruct (resolve_entries cache source entries). cbn in *. subst. by eexists.
  - pose proof (ResolvePolicyURL_no_panic cache url Hn) as Hp.
    destruct (ResolvePolicyURL cache url) as [x c1]. destruct (IH c1) as [s Hs].
    destruct (resolve_entries c1 source entries). cbn in *. subst. destruct x; [by eexists..|done].
  - destruct (IH cache) as [s Hs]. destruct (resolve_entries cache source entries). cbn in *. subst. by eexists.
Qed.

Lemma resolve_layers_ok layers cache :
  no_codec_panic → ∃ stack, fst (resolve_layers cache layers) = Ok stack.
Proof.
  intros Hn. revert cache. induction layers as [|l layers IH]; intros cache; cbn; [by eexists|].
  destruct (resolve_entries_ok (pol_Source l) (pol_Entries l) cache Hn) as [s Hs].
  destruct (resolve_entries cache _ _) as [x c1]. cbn in *. subst.
  destruct (IH c1) as [t Ht]. destruct (resolve_layers c1 layers). cbn in *. subst. by eexists.
Qed.

End Resolution.

(** resolving a stack never fails: an unreachable or unreadable policy only
    turns its entry into its declared defaults; and the result does not depend
    on what a cache of earlier answers holds, which stays such a cache. *)
Theorem resolvePolicyStack_total `{PolicyNetwork} cache stack :
  no_codec_panic → consistent cache →
  (∃ resolved, fst (resolvePolicyStack cache stack) = Ok resolved ∧
     fst (resolvePolicyStack ∅ stack) = Ok resolved) ∧
  consistent (snd (resolvePolicyStack cache stack)).
Proof.
  intros Hn Hc. unfold resolvePolicyStack.
  destruct (resolve_layers_consistent (expand_virtual_parents stack) cache ∅ Hc consistent_empty) as [E1 E2].
  split; [|done]. destruct (resolve_layers_ok (expand_virtual_parents stack) cache Hn) as [r Hr].
  exists r. split; [done|]. by rewrite <- E1.
Qed.

(** on a source without '*', the relative keys of a fetched policy select the
    declaring resource itself ("."), every key its URI is a prefix of ("" and
    "*"), or every key under it ("./*"); other keys are left as written. *)
Theorem rewrite_key_scope source key :
  utf8_valid source = true → lacks "*" source → utf8_valid (source +:+ "*") = true →
  utf8_valid (source +:+ "/*") = true →
  (key_matches (rewrite_key source ".") key = true ↔ key = source) ∧
  (∀ rel, rel = "" ∨ rel = "*" →
     (key_matches (rewrite_key source rel) key = true ↔ ∃ rest, key = source +:+ rest ∧ lacks newline rest)) ∧
  (key_matches (rewrite_key source "./*") key = true ↔
     ∃ rest, key = source +:+ "/" +:+ rest ∧ lacks newline rest) ∧
  (∀ rel, rel ∉ ["."; ""; "*"; "./*"] → rewrite_key source rel = rel).
Proof.
  intros Hu Hs Hu1 Hu2. unfold key_matches. split; [|split; [|split]].
  - unfold rewrite_key. cbn. rewrite Hu. cbn. rewrite glob_match_spec. by apply glob_exact.
  - intros rel Hrel. assert (rewrite_key source rel = source +:+ "*") as -> by by destruct Hrel as [-> | ->].
    rewrite Hu1. cbn. rewrite glob_match_spec. by apply glob_prefix.
  - change (rewrite_key source "./*") with (source +:+ "/*"). rewrite Hu2. cbn [andb].
    change "/*" with ("/" +:+ "*"). rewrite glob_match_spec, <- str_app_assoc, glob_prefix.
    + by setoid_rewrite str_app_assoc.
    + unfold lacks in *. by rewrite str_forallb_app, Hs.
  - intros rel Hrel. unfold rewrite_key.
    destruct (String.eqb_spec rel "."), (String.eqb_spec rel ""), (String.eqb_spec rel "*"),
      (String.eqb_spec rel "./*"); subst; cbn; set_solver.
Qed.

Lemma rewrite_key_scope_witness :
  let s := "cckv://con1/timeline" in
  key_matches (rewrite_key s "./*") "cckv://con1/timeline/a" = true ∧
  (key_matches (rewrite_key s ".") "cckv://con1/timeline/a" = true ↔ "cckv://con1/timeline/a" = s).
Proof.
  intros s. split; [reflexivity|].
  apply (proj1 (rewrite_key_scope s "cckv://con1/timeline/a" eq_refl eq_refl eq_refl eq_refl)).
Defined.

Lemma global_layer `{Url.NetIP} r d params fqdn caller action key :
  lacks newline key →
  layer_conclusion (request r d params fqdn caller) action key
    [mkEvaluationSet GetGlobalPolicy None false] (global_table fqdn r d action).
Proof.
  intros Hk. exists [global_table fqdn r d action]. split.
  - constructor; [|constructor]. unfold set_conclusion. cbn [es_Errored es_Params es_Policy].
    destruct (global_table_evaluates r d params fqdn caller action key Hk) as [reason ->]. done.
  - cbn. done.
Qed.

(** C30: with the built-in policy, a request passes exactly when the first strong
    conclusion among its table and the resolved layers is ALLOW or, when none
    is strong, the last one set is OK; it is refused with a permission error
    otherwise; and what the table allows no layer below can refuse, whether or
    not that layer can be evaluated. *)
Theorem Eval_decides `{Url.NetIP} `{PolicyNetwork} s cache r d params stack action key additional :
  globalPolicy s = GetGlobalPolicy → lacks newline key →
  fst (resolvePolicyStack cache stack) = Ok additional →
  let run := fst (Eval_ s cache (gval_of_requester r) (GInterface (Some (gval_of_document d)))
                    params stack action key) in
  let table := global_table (globalParameters_FQDN s) r d action in
  (∀ cs, Forall2 (layer_conclusion (service_request s (gval_of_requester r)
                    (GInterface (Some (gval_of_document d))) params) action key) additional cs →
     (run = Ok tt ↔ permits (decide_stack (table :: cs)) = true) ∧
     (permits (decide_stack (table :: cs)) = false → ∃ reason, run = Err (PermissionError reason))) ∧
  (table = ALLOW → run = Ok tt).
Proof.
  intros Hg Hk Hr run table. unfold run, Eval_.
  destruct (resolvePolicyStack cache stack) as [a c]. cbn in Hr. subst a. cbn [fst mbind result_bind rbind].
  rewrite Hg. unfold service_request.
  pose proof (global_layer r d params (globalParameters_FQDN s) (Some ConcrntCall) action key Hk) as Hl.
  fold table in Hl. unfold request in Hl. split.
  - intros cs Hcs. pose proof (EvaluateStack_decide _ _ _ _ _ (List.Forall2_cons _ _ Hl Hcs)) as [reason E].
    rewrite E. cbn. destruct (permits _); [|split; [done|by eexists]]. by split.
  - intros Ht. destruct Hl as (ds & Hds & Ed). unfold EvaluateStack. cbn [eval_stack].
    destruct (eval_layer_combine _ _ _ _ _ UNSET "" Hds) as [lr ->].
    cbn [mbind result_bind rbind]. rewrite <- Ed, Ht. done.
Qed.

(** ** Witnesses *)

Module Net.

#[local] Instance netip : Url.NetIP := λ _, false.

(** One policy is reachable: it denies reading. *)
Definition deny_read : PolicyBody :=
  mkPolicyBody [mkStatement "record:read" "*" DENY (mkExpr "Const" [] (ABool true)) None] ∅.

#[local] Instance network : PolicyNetwork := {|
  http_get_versions := λ u, if String.eqb u "https://p" then Ok {["2025-12-23" := AStr "deny"]}
                            else Err (GoError "unreachable");
  marshal_any := λ v, match v with AStr s => Ok s | _ => Err (GoError "value") end;
  unmarshal_policy_body := λ b, if String.eqb b "deny" then Ok deny_read else Err (GoError "json");
  get_record := λ _, Err (GoError "unreachable");
  client_call := λ _ _ _, Err (GoError "unreachable");
|}.

Definition service : PolicyService := NewPolicyService GetGlobalPolicy "host".

Definition entry (url : string) : PolicyEntry :=
  mkPolicyEntry (Some url) None (Some {["record:read" := "ng"]}) false.

Definition layer (url source : string) : Documents.Policy := mkPolicy [entry url] None source.

Definition stack : list Documents.Policy := [layer "https://p" "cckv://con1/x"; layer "https://gone" "cckv://con1/x"].

Definition doc : Document any_ :=
  mkDocument "record" "cckv://con1/x" ANil "con1" "" 0 None None None None None.

Lemma no_panic : @no_codec_panic network.
Proof.
  split; [|split].
  - intros u. cbn. by destruct (String.eqb u "https://p").
  - by intros [].
  - intros b. cbn. by destruct (String.eqb b "deny").
Qed.

End Net.

Lemma resolvePolicyStack_total_witness :
  (∃ resolved, fst (@resolvePolicyStack Net.network ∅ Net.stack) = Ok resolved ∧
     fst (@resolvePolicyStack Net.network ∅ Net.stack) = Ok resolved) ∧
  @consistent Net.network (snd (@resolvePolicyStack Net.network ∅ Net.stack)).
Proof.
  exact (@resolvePolicyStack_total Net.network ∅ Net.stack Net.no_panic (@consistent_empty Net.network)).
Defined.

Lemma Eval_decides_witness :
  let owner := mkEntity "con1" None "host" "" None in
  fst (@Eval_ Net.netip Net.network Net.service ∅ (gval_of_requester (Some owner))
         (GInterface (Some (gval_of_document Net.doc))) ∅ Net.stack "record:read" "cckv://con1/x") = Ok tt ∧
  ∃ reason, fst (@Eval_ Net.netip Net.network Net.service ∅ (gval_of_requester None)
         (GInterface (Some (gval_of_document Net.doc))) ∅ [Net.layer "https://gone" "cckv://con1/x"]
         "record:read" "cckv://con1/x") = Err (PermissionError reason).
Proof.
  intros owner. split.
  - refine (proj2 (@Eval_decides Net.netip Net.network Net.service ∅ (Some owner) Net.doc ∅ Net.stack
      "record:read" "cckv://con1/x" _ eq_refl eq_refl eq_refl) _). vm_compute. reflexivity.
  - refine (proj2 (proj1 (@Eval_decides Net.netip Net.network Net.service ∅ None Net.doc ∅
      [Net.layer "https://gone" "cckv://con1/x"] "record:read" "cckv://con1/x" _ eq_refl eq_refl eq_refl)
      [NG] _) _); [|vm_compute; reflexivity].
    constructor; [|constructor]. exists [NG]. split; [|reflexivity]. constructor; [reflexivity|constructor].
Defined.
