(* ===== verification/Heap.v ===== *)
(** * Heap: Go's [container/heap] on a slice

    The binary heap of the standard library, over a list and a key: the
    element with the greatest key is on top ([Less] of the timeline reader's
    queue is "later").  [Push] and [Pop] keep the heap, [Pop] takes an element
    no other exceeds, and neither loses or invents one. *)

From S2P Require Import Prelude.
From stdpp Require Import prelude list.
From Stdlib Require Import ZArith Lia.
Open Scope Z_scope.

Section Heap.
Context {A : Type} (key : A → Z).

Definition at_ (l : list A) (i : nat) : Z := from_option key 0 (l !! i).

Definition less (l : list A) (i j : nat) : bool := at_ l j <? at_ l i.

Definition swap (i j : nat) (l : list A) : list A :=
  match l !! i, l !! j with
  | Some x, Some y => <[i := y]> (<[j := x]> l)
  | _, _ => l
  end.

Definition parent (j : nat) : nat := ((j - 1) / 2)%nat.

(** [fuel] counts the levels left; the index is enough. *)
Fixpoint up (fuel j : nat) (l : list A) : list A :=
  match fuel with
  | O => l
  | S fuel =>
      let i := parent j in
      if (i =? j)%nat || negb (less l j i) then l else up fuel i (swap i j l)
  end.

Definition greater_child (i n : nat) (l : list A) : nat :=
  let j1 := (2 * i + 1)%nat in
  let j2 := (j1 + 1)%nat in
  if (j2 <? n)%nat && less l j2 j1 then j2 else j1.

Fixpoint down (fuel i n : nat) (l : list A) : list A :=
  match fuel with
  | O => l
  | S fuel =>
      if (n <=? 2 * i + 1)%nat then l
      else
        let j := greater_child i n l in
        if negb (less l j i) then l else down fuel j n (swap i j l)
  end.

Definition Push (x : A) (l : list A) : list A := up (length l) (length l) (l ++ [x]).

(** [None] where Go would index an empty slice. *)
Definition Pop (l : list A) : option (A * list A) :=
  let n := (length l - 1)%nat in
  let l := down n 0 n (swap 0 n l) in
  match l !! n with Some x => Some (x, take n l) | None => None end.

(** ** Swapping *)

Lemma length_swap i j l : length (swap i j l) = length l.
Proof. unfold swap. destruct (l !! i), (l !! j); by rewrite ?length_insert. Qed.

Lemma lookup_swap i j l m : (i < length l)%nat → (j < length l)%nat →
  swap i j l !! m = l !! (if decide (m = i) then j else if decide (m = j) then i else m).
Proof.
  intros [x Hx]%lookup_lt_is_Some [y Hy]%lookup_lt_is_Some. unfold swap. rewrite Hx, Hy.
  pose proof (lookup_lt_Some _ _ _ Hx). pose proof (lookup_lt_Some _ _ _ Hy).
  destruct (decide (m = i)) as [->|Hi].
  - by rewrite list_lookup_insert_eq by (by rewrite length_insert).
  - rewrite list_lookup_insert_ne by done. destruct (decide (m = j)) as [->|Hj].
    + by rewrite list_lookup_insert_eq.
    + by rewrite list_lookup_insert_ne.
Qed.

Lemma at_swap i j l m : (i < length l)%nat → (j < length l)%nat →
  at_ (swap i j l) m = at_ l (if decide (m = i) then j else if decide (m = j) then i else m).
Proof. intros Hi Hj. unfold at_. by rewrite lookup_swap. Qed.

Lemma swap_perm i j l : swap i j l ≡ₚ l.
Proof.
  destruct (decide (i < length l)%nat) as [Hi|Hi]; [destruct (decide (j < length l)%nat) as [Hj|Hj]|].
  - apply Permutation_inj. split; [apply length_swap|].
    exists (λ m, if decide (m = i) then j else if decide (m = j) then i else m). split.
    + intros m m'. repeat case_decide; congruence.
    + intros m. by apply lookup_swap.
  - unfold swap. rewrite (lookup_ge_None_2 l j) by lia. by destruct (l !! i).
  - unfold swap. by rewrite (lookup_ge_None_2 l i) by lia.
Qed.

(** ** Order *)

Definition heap (n : nat) (l : list A) : Prop :=
  ∀ j, (0 < j < n)%nat → at_ l j <= at_ l (parent j).

Lemma parent_lt j : (0 < j)%nat → (parent j < j)%nat.
Proof. intros Hj. unfold parent. apply Nat.div_lt_upper_bound; lia. Qed.

Lemma parent_left i : parent (2 * i + 1) = i.
Proof. unfold parent. replace (2 * i + 1 - 1)%nat with (i * 2)%nat by lia. by rewrite Nat.div_mul. Qed.

Lemma parent_right i : parent (2 * i + 2) = i.
Proof. unfold parent. replace (2 * i + 2 - 1)%nat with (1 + i * 2)%nat by lia. by rewrite Nat.div_add. Qed.

Lemma parent_child j i : (0 < j)%nat → parent j = i → j = (2 * i + 1)%nat ∨ j = (2 * i + 2)%nat.
Proof.
  unfold parent. intros Hj Hp. pose proof (Nat.div_mod (j - 1) 2 ltac:(lia)).
  pose proof (Nat.mod_upper_bound (j - 1) 2 ltac:(lia)). lia.
Qed.

(** The top exceeds nothing less. *)
Lemma heap_top n l j : heap n l → (j < n)%nat → at_ l j <= at_ l 0.
Proof.
  intros Hh. induction j as [j IH] using lt_wf_ind. intros Hj. destruct (decide (j = 0%nat)) as [->|Hne]; [lia|].
  pose proof (parent_lt j ltac:(lia)). specialize (IH (parent j) ltac:(lia) ltac:(lia)).
  specialize (Hh j ltac:(lia)). lia.
Qed.

(** A heap but for the edge above [j], whose children fit below its parent. *)
Definition sprouting (n j : nat) (l : list A) : Prop :=
  (∀ m, (0 < m < n)%nat → m ≠ j → at_ l m <= at_ l (parent m)) ∧
  (∀ m, (0 < m < n)%nat → parent m = j → (0 < j)%nat → at_ l m <= at_ l (parent j)).

Lemma up_heap fuel j l : (j <= fuel)%nat → (j < length l)%nat →
  sprouting (length l) j l → heap (length l) (up fuel j l).
Proof.
  revert j l. induction fuel as [|fuel IH]; intros j l Hf Hj [H1 H2]; cbn [up].
  - intros m Hm. apply H1; lia.
  - destruct (Nat.eqb_spec (parent j) j) as [Hr|Hr]; cbn [orb].
    + assert (j = 0%nat) as -> by (destruct (decide (j = 0%nat)); [done|pose proof (parent_lt j ltac:(lia)); lia]).
      intros m Hm. apply H1; lia.
    + assert (0 < j)%nat as Hj0 by (destruct j; [done|lia]). pose proof (parent_lt j Hj0) as Hp.
      unfold less. destruct (Z.ltb_spec (at_ l (parent j)) (at_ l j)) as [Hlt|Hge]; cbn [negb].
      * rewrite <- (length_swap (parent j) j). apply IH; [lia|rewrite length_swap; lia|].
        assert (∀ m, at_ (swap (parent j) j l) m =
          at_ l (if decide (m = parent j) then j else if decide (m = j) then parent j else m)) as Hs
          by (intros m; apply at_swap; lia).
        rewrite length_swap. split.
        -- intros m Hm Hne. rewrite !Hs. rewrite decide_False by done.
           destruct (decide (m = j)) as [->|Hmj]; [rewrite decide_True by done; lia|].
           destruct (decide (parent m = parent j)) as [Hpp|Hpp]; [specialize (H1 m Hm Hmj); rewrite Hpp in H1; lia|].
           destruct (decide (parent m = j)) as [Hpm|Hpm]; [by apply H2|by apply H1].
        -- intros m Hm Hpm Hp0. rewrite !Hs. pose proof (parent_lt (parent j) Hp0).
           rewrite (decide_False (P := parent (parent j) = parent j)), (decide_False (P := parent (parent j) = j)) by lia.
           assert (at_ l (parent j) <= at_ l (parent (parent j))) by (apply H1; lia).
           destruct (decide (m = parent j)) as [->|]; [lia|]. destruct (decide (m = j)) as [->|Hmj]; [lia|].
           specialize (H1 m Hm Hmj). rewrite Hpm in H1. lia.
      * intros m Hm. destruct (decide (m = j)) as [->|Hmj]; [lia|by apply H1].
Qed.

Lemma up_perm fuel j l : up fuel j l ≡ₚ l.
Proof.
  revert j l. induction fuel as [|fuel IH]; intros j l; cbn [up]; [done|]. destruct (_ || _); [done|].
  by rewrite IH, swap_perm.
Qed.

Lemma Push_perm x l : Push x l ≡ₚ x :: l.
Proof. unfold Push. rewrite up_perm. symmetry. apply Permutation_cons_append. Qed.

Lemma Push_heap x l : heap (length l) l → heap (length (Push x l)) (Push x l).
Proof.
  intros Hh. rewrite (Permutation_length (Push_perm x l)). cbn [length].
  replace (S (length l)) with (length (l ++ [x])) by (rewrite length_app; cbn; lia).
  apply up_heap; [done|rewrite length_app; cbn; lia|]. rewrite length_app. cbn [length]. split.
  - intros m Hm Hne. pose proof (parent_lt m ltac:(lia)).
    unfold at_. rewrite !lookup_app_l by lia. apply Hh. lia.
  - intros m Hm Hp _. pose proof (parent_lt m ltac:(lia)). lia.
Qed.

(** A heap but for the edges below [i]. *)
Definition sinking (n i : nat) (l : list A) : Prop :=
  (∀ m, (0 < m < n)%nat → parent m ≠ i → at_ l m <= at_ l (parent m)) ∧
  (∀ m, (0 < m < n)%nat → parent m = i → (0 < i)%nat → at_ l m <= at_ l (parent i)).

Lemma greater_child_spec i n l : (2 * i + 1 < n)%nat →
  let j := greater_child i n l in
  (j < n)%nat ∧ parent j = i ∧ (0 < j)%nat ∧
  ∀ m, (0 < m < n)%nat → parent m = i → at_ l m <= at_ l j.
Proof.
  intros Hn. unfold greater_child, less. replace (2 * i + 1 + 1)%nat with (2 * i + 2)%nat by lia.
  destruct (Nat.ltb_spec (2 * i + 2) n) as [H2|H2]; cbn [andb].
  - destruct (Z.ltb_spec (at_ l (2 * i + 1)) (at_ l (2 * i + 2))).
    + split_and!; [lia|apply parent_right|lia|]. intros m Hm [->| ->]%parent_child; lia.
    + split_and!; [lia|apply parent_left|lia|]. intros m Hm [->| ->]%parent_child; lia.
  - split_and!; [lia|apply parent_left|lia|]. intros m Hm [->| ->]%parent_child; lia.
Qed.

Lemma down_heap fuel i n l : (n <= fuel + i)%nat → (n <= length l)%nat → sinking n i l → heap n (down fuel i n l).
Proof.
  revert i l. induction fuel as [|fuel IH]; intros i l Hf Hn [H1 H2]; cbn [down].
  - intros m Hm. apply H1; [done|]. pose proof (parent_lt m ltac:(lia)). lia.
  - destruct (Nat.leb_spec n (2 * i + 1)) as [Hle|Hlt].
    { intros m Hm. apply H1; [done|]. intros [->| ->]%parent_child; lia. }
    destruct (greater_child_spec i n l Hlt) as (Hjn & Hpj & Hj0 & Hmax).
    set (j := greater_child i n l) in *. pose proof (parent_lt j Hj0) as Hij. rewrite Hpj in Hij.
    unfold less. destruct (Z.ltb_spec (at_ l i) (at_ l j)) as [Hs|Hs]; cbn [negb].
    + apply IH; [lia|by rewrite length_swap|].
      assert (∀ m, at_ (swap i j l) m = at_ l (if decide (m = i) then j else if decide (m = j) then i else m)) as Hsw
        by (intros m; apply at_swap; lia).
      split.
      * intros m Hm Hpm. rewrite !Hsw. rewrite (decide_False (P := parent m = j)) by done.
        pose proof (parent_lt m ltac:(lia)).
        destruct (decide (m = i)) as [->|Hmi].
        -- rewrite decide_False by lia. apply H2; [lia|done|lia].
        -- destruct (decide (parent m = i)) as [Hp|Hp].
           ++ case_decide; [lia|]. by apply Hmax.
           ++ rewrite decide_False by (intros ->; done). by apply H1.
      * intros m Hm Hpm _. pose proof (parent_lt m ltac:(lia)). rewrite !Hsw, Hpj.
        rewrite (decide_True (P := i = i)) by done. rewrite !decide_False by lia.
        rewrite <- Hpm. apply H1; [done|lia].
    + intros m Hm. destruct (decide (parent m = i)) as [Hp|Hp]; [|by apply H1].
      rewrite Hp. specialize (Hmax m Hm Hp). lia.
Qed.

Lemma down_perm fuel i n l : down fuel i n l ≡ₚ l.
Proof.
  revert i l. induction fuel as [|fuel IH]; intros i l; cbn [down]; [done|].
  destruct (_ <=? _)%nat; [done|]. destruct (negb _); [done|]. by rewrite IH, swap_perm.
Qed.

(** Nothing at [n] or beyond moves. *)
Lemma down_lookup fuel i n l m : (i < n)%nat → (n <= m)%nat → (n <= length l)%nat → down fuel i n l !! m = l !! m.
Proof.
  revert i l. induction fuel as [|fuel IH]; intros i l Hi Hm Hl; cbn [down]; [done|].
  destruct (Nat.leb_spec n (2 * i + 1)) as [Hle|Hlt]; [done|].
  destruct (greater_child_spec i n l Hlt) as (Hjn & _). destruct (negb _); [done|].
  rewrite IH by (rewrite ?length_swap; lia). rewrite lookup_swap by lia. by rewrite !decide_False by lia.
Qed.

(** [Pop] takes an element nothing exceeds and leaves the others, a heap. *)
Lemma Pop_spec l : l ≠ [] → heap (length l) l →
  ∃ x l', Pop l = Some (x, l') ∧ l ≡ₚ x :: l' ∧ heap (length l') l' ∧ ∀ y, y ∈ l' → key y <= key x.
Proof.
  intros Hne Hh. assert (0 < length l)%nat as Hlen by (destruct l; [done|cbn; lia]).
  unfold Pop. set (n := (length l - 1)%nat). set (s := swap 0 n l). set (d := down n 0 n s).
  assert (length s = length l) as Hs by apply length_swap.
  assert (d ≡ₚ l) as Hp by (unfold d, s; by rewrite down_perm, swap_perm).
  pose proof (Permutation_length Hp) as Hd.
  assert (d !! n = l !! 0%nat) as Hdn.
  { destruct (decide (n = 0%nat)) as [Hn|Hn].
    - unfold d, s. rewrite Hn. cbn [down]. rewrite lookup_swap by lia. by rewrite decide_True.
    - unfold d. rewrite down_lookup by lia. unfold s. rewrite lookup_swap by lia.
      rewrite decide_False by lia. by rewrite decide_True. }
  destruct (l !! 0%nat) as [x|] eqn:Hx; [|apply lookup_ge_None_1 in Hx; lia].
  exists x, (take n d). assert (d = take n d ++ [x]) as Happ.
  { rewrite <- (take_drop n d) at 1. f_equal. rewrite (drop_S d x n Hdn). f_equal. apply drop_ge. lia. }
  assert (l ≡ₚ x :: take n d) as Hperm by (rewrite <- Hp, Happ at 1; symmetry; apply Permutation_cons_append).
  split; [by rewrite Hdn|]. split; [done|]. split.
  - rewrite length_take, Hd. replace (n `min` length l)%nat with n by lia.
    assert (heap n d) as Hhd.
    { apply down_heap; [lia|lia|]. split; [|lia]. intros m Hm Hpm. unfold s. rewrite !at_swap by lia.
      pose proof (parent_lt m ltac:(lia)). rewrite !decide_False by lia. apply Hh. lia. }
    intros j Hj. pose proof (parent_lt j ltac:(lia)). specialize (Hhd j Hj).
    unfold at_ in *. by rewrite !lookup_take_lt by lia.
  - intros y Hy. assert (y ∈ l) as [j Hj]%list_elem_of_lookup by (rewrite Hperm; by right).
    pose proof (lookup_lt_Some _ _ _ Hj). pose proof (heap_top (length l) l j Hh ltac:(lia)) as Htop.
    unfold at_ in Htop. by rewrite Hx, Hj in Htop.
Qed.

Lemma Pop_nil : Pop [] = None.
Proof. done. Qed.

End Heap.
