(* ===== verification/Chunkline.v ===== *)
(** * Chunkline: reading timelines ([src/chunkline])

    A timeline is served in chunks of a fixed number of seconds, newest item
    first.  The reader merges several timelines: it queues the newest item of
    each that is older than a given time, takes the newest of the queue again
    and again, and fetches older chunks as it runs out of items.  Where chunks
    come from is the interface [ChunkResolver], over a state of its own. *)

From S2P Require Import Prelude Effects Numbers Documents Heap.
From stdpp Require Import prelude strings gmap list.
From Stdlib Require Import ZArith Lia Ascii.
Open Scope Z_scope.
Open Scope uc_scope.

(** ** Data ([types.go]) *)

Record Endpoint : Type := mkEndpoint { Iterator : string; Body : string }.

Record Manifest : Type := mkManifest {
  mf_Version : string;
  ChunkSize : Z;
  FirstChunk : option Z;
  LastChunk : option Z;
  Ascending : option Endpoint;
  Descending : option Endpoint;
  Removed : string;
  Metadata : any_;
}.

(** What Go reads from a map that has no such timeline. *)
Definition zero_manifest : Manifest := mkManifest "" 0 None None None None "" ANil.

(** A [time.Time] is its nanoseconds; [Unix] rounds down. *)
Definition billion : Z := 1000000000.
Definition Unix (t : Z) : Z := t / billion.

(** Integer division rounds towards zero and panics on zero. *)
Definition Time2Chunk (m : Manifest) (t : Z) : result Z :=
  if ChunkSize m =? 0 then Panic else Ok (Z.quot (Unix t) (ChunkSize m)).

Definition Chunk2Time (m : Manifest) (c : Z) : Z := int64 (c * ChunkSize m) * billion.

Record BodyItem : Type := mkBodyItem {
  Timestamp : Z;
  Content : string;
  ContentType : string;
  Href : string;
}.

Record BodyChunk : Type := mkBodyChunk { bc_URI : string; ChunkID : Z; Items : list BodyItem }.
Definition zero_chunk : BodyChunk := mkBodyChunk "" 0 [].

Record BodyItemWithSource : Type := mkSourced { bs_Item : BodyItem; Source : string }.

(** [xxh3.HashString], in hexadecimal. *)
Class XXH3 := HashString : string → string.

Definition ID `{XXH3} (b : BodyItem) : string :=
  if negb (String.eqb (Href b) "") then Href b else "urn:xxh3:" +:+ HashString (Content b).

(** ** Where chunks come from ([interface.go]) *)

Class ChunkResolver (State : Type) := {
  ResolveTimelines : list string → SM State (gmap string Manifest);
  GetRemovedItems : list string → SM State (gmap string (list string));
  LookupChunkItrs : list string → Z → SM State (gmap string string);
  LoadChunkBodies : gmap string string → SM State (gmap string BodyChunk);
}.

(** The order in which [range] visits a map: some order. *)
Class MapOrder := {
  range : gmap string BodyChunk → list (string * BodyChunk);
  range_all m : range m ≡ₚ map_to_list m;
}.

(** ** [sort.Search]

    Binary search for the first index at which [f] holds; [fuel] bounds the
    halvings. *)
Fixpoint search (fuel : nat) (f : nat → bool) (i j : nat) : nat :=
  match fuel with
  | O => i
  | S fuel =>
      if (i <? j)%nat then
        let h := ((i + j) / 2)%nat in
        if negb (f h) then search fuel f (h + 1) j else search fuel f i h
      else i
  end.
Definition Search (n : nat) (f : nat → bool) : nat := search n f 0 n.

(** ** The reader ([client.go]) *)

Record QueueItem : Type := mkQueueItem { qi_Timeline : string; qi_Item : BodyItem; qi_Index : nat }.

(** The priority queue: a later timestamp is taken first. *)
Definition qi_key (q : QueueItem) : Z := Timestamp (qi_Item q).
Definition PriorityQueue : Type := list QueueItem.

Section Reader.
Context {State : Type} `{ChunkResolver State} `{XXH3} `{MapOrder}.

Definition getChunks (uris : list string) (until : Z) : SM State (gmap string BodyChunk) :=
  let* query := LookupChunkItrs uris until in
  LoadChunkBodies query.

Definition before (until : Z) (l : list BodyItem) (i : nat) : bool :=
  match l !! i with Some item => Timestamp item <? until | None => false end.

(** One timeline's first entry of the queue. *)
Definition start (until : Z) (pq : PriorityQueue) (tc : string * BodyChunk) : PriorityQueue :=
  let '(timeline, chunk) := tc in
  let items := Items chunk in
  if (length items <=? 0)%nat then pq
  else
    let index := Search (length items) (before until items) in
    match items !! index with
    | None => pq
    | Some item => Push qi_key (mkQueueItem timeline item index) pq
    end.

(** What follows an item that was taken: the next of its chunk, or the first
    of an older chunk.  A chunk that cannot be fetched ends its timeline. *)
Definition advance (manifests : gmap string Manifest) (smallest : QueueItem)
    (chunks : gmap string BodyChunk) (pq : PriorityQueue) : SM State (gmap string BodyChunk * PriorityQueue) :=
  let timeline := qi_Timeline smallest in
  let chunk := default zero_chunk (chunks !! timeline) in
  let manifest := default zero_manifest (manifests !! timeline) in
  let nextIndex := (qi_Index smallest + 1)%nat in
  match Items chunk !! nextIndex with
  | Some item => retM (chunks, Push qi_key (mkQueueItem timeline item nextIndex) pq)
  | None =>
      let* found := liftM (Time2Chunk manifest (Timestamp (qi_Item smallest))) in
      let prevChunkId := if found =? ChunkID chunk then found - 1 else found in
      let* r := tryM (getChunks [timeline] (Chunk2Time manifest prevChunkId)) in
      retM (match r with
            | Ok prevChunks =>
                match prevChunks !! timeline with
                | Some prevChunk =>
                    match Items prevChunk with
                    | [] => (chunks, pq)
                    | first :: _ =>
                        (<[timeline := prevChunk]> chunks, Push qi_key (mkQueueItem timeline first 0) pq)
                    end
                | None => (chunks, pq)
                end
            | _ => (chunks, pq)
            end)
  end.

Definition retracted (cancelMap : gmap string (list string)) (q : QueueItem) : bool :=
  match cancelMap !! qi_Timeline q with
  | Some cancelList => in_list cancelList (ID (qi_Item q))
  | None => false
  end.

(** What taking an item adds to the result, and to the set of ids taken. *)
Definition take_item (cancelMap : gmap string (list string)) (q : QueueItem)
    (result : list BodyItemWithSource) (uniq : gset string) : list BodyItemWithSource * gset string :=
  if negb (bool_decide (ID (qi_Item q) ∈ uniq)) && negb (retracted cancelMap q)
  then (result ++ [mkSourced (qi_Item q) (qi_Timeline q)], {[ID (qi_Item q)]} ∪ uniq)
  else (result, uniq).

Fixpoint merge_loop (itrlimit : nat) (limit : Z) (manifests : gmap string Manifest) (cancelMap : gmap string (list string))
    (chunks : gmap string BodyChunk) (pq : PriorityQueue) (result : list BodyItemWithSource) (uniq : gset string)
    : SM State (list BodyItemWithSource) :=
  match itrlimit with
  | O => retM result
  | S itrlimit =>
      if Z.of_nat (length result) <? limit then
        match Pop qi_key pq with
        | None => retM result
        | Some (smallest, pq) =>
            let '(result, uniq) := take_item cancelMap smallest result uniq in
            let* '(chunks, pq) := advance manifests smallest chunks pq in
            merge_loop itrlimit limit manifests cancelMap chunks pq result uniq
        end
      else retM result
  end.

Definition itrlimit : nat := 1000.

Definition QueryDescending (uris : list string) (until limit : Z) : SM State (list BodyItemWithSource) :=
  let* manifests := ResolveTimelines uris in
  let* cancelMap := GetRemovedItems uris in
  let* chunks := getChunks uris until in
  let pq := foldl (start until) [] (range chunks) in
  merge_loop itrlimit limit manifests cancelMap chunks pq [] ∅.

End Reader.
