(* ===== verification/ChunklineFacts.v ===== *)
(** * ChunklineFacts: merged timelines lose nothing

    Read from a source that serves the timelines' chunks, the merge of several
    timelines is the newest of their items: in descending order, without
    repetitions or removed items, and without gaps. *)

From S2P Require Import Prelude Effects Numbers Documents Heap Chunkline.
From stdpp Require Import prelude strings gmap list sorting.
From Stdlib Require Import ZArith Lia Ascii.
Open Scope Z_scope.
Open Scope uc_scope.

(** ** Binary search *)

Lemma search_spec (f : nat → bool) fuel i j :
  (∀ a b, (a <= b)%nat → f a = true → f b = true ∨ (j <= b)%nat) →
  (i <= j)%nat → (j - i <= fuel)%nat →
  let r := search fuel f i j in
  (i <= r <= j)%nat ∧ (∀ m, (i <= m < r)%nat → f m = false) ∧ ((r < j)%nat → f r = true).
Proof.
  intros Hmono Hij Hf. cbn zeta.
  assert (∀ fuel i j', (j' <= j)%nat → (i <= j')%nat → (j' - i <= fuel)%nat → (j' < j → f j' = true)%nat →
    let r := search fuel f i j' in
    (i <= r <= j')%nat ∧ (∀ m, (i <= m < r)%nat → f m = false) ∧ ((r < j)%nat → f r = true)) as Hgen.
  { clear i Hij Hf fuel. induction fuel as [|fuel IH]; intros i j' Hj Hij Hf Hj'; cbn [search].
    - replace i with j' by lia. split_and!; [lia|lia|lia|done].
    - destruct (Nat.ltb_spec i j') as [Hlt|Hge].
      + pose proof (Nat.div_mod (i + j') 2 ltac:(lia)). pose proof (Nat.mod_upper_bound (i + j') 2 ltac:(lia)).
        set (h := ((i + j') / 2)%nat) in *. destruct (f h) eqn:Hh; cbn [negb].
        * destruct (IH i h ltac:(lia) ltac:(lia) ltac:(lia) ltac:(done)) as (H1 & H2 & H3).
          split_and!; [lia|lia|done|done].
        * destruct (IH (h + 1)%nat j' Hj ltac:(lia) ltac:(lia) Hj') as (H1 & H2 & H3).
          split_and!; [lia|lia| |done]. intros m Hm. destruct (decide (h + 1 <= m)%nat) as [?|?]; [apply H2; lia|].
          destruct (f m) eqn:Hfm; [|done]. destruct (Hmono m h ltac:(lia) Hfm); [congruence|lia].
      + replace i with j' by lia. split_and!; [lia|lia|lia|done]. }
  apply Hgen; lia.
Qed.

(** ** Lists by time *)

Definition newer (a b : BodyItem) : Prop := Timestamp b <= Timestamp a.

#[export] Instance newer_trans : Transitive newer.
Proof. intros a b c. unfold newer. lia. Qed.

(** ** Timelines and their chunks *)

Section Timelines.
Context (timeline : string → list BodyItem) (manifest_of : string → Manifest).

Notation size tl := (ChunkSize (manifest_of tl)).

(** A timeline's items, newest first, and a chunk size; seconds are [int64]. *)
Record timeline_ok (tl : string) : Prop := {
  tk_size : 0 < size tl;
  tk_int64 : size tl < 2 ^ 63;
  tk_sorted : StronglySorted newer (timeline tl);
  tk_epoch : Forall (λ x, 0 <= Timestamp x) (timeline tl);
  tk_last : Forall (λ x, Unix (Timestamp x) < 2 ^ 63) (timeline tl);
}.

Definition chunk_no (tl : string) (t : Z) : Z := Z.quot (Unix t) (size tl).

(** What the timeline holds up to the end of a chunk. *)
Definition upto (tl : string) (q : Z) : list BodyItem :=
  List.filter (λ x, Timestamp x <? (q + 1) * size tl * billion) (timeline tl).

(** A chunk begins with the newest item up to its end, which lies in the
    chunk itself, goes on without gaps and holds at least the items of its
    own time. *)
Record chunk_ok (tl : string) (c : BodyChunk) : Prop := {
  ck_items : Items c ≠ [];
  ck_covers : ∃ post, upto tl (ChunkID c) = Items c ++ post ∧
    Forall (λ x, chunk_no tl (Timestamp x) < ChunkID c) post;
  ck_newest : ∀ x, head (Items c) = Some x → chunk_no tl (Timestamp x) = ChunkID c;
}.

(** The answer to "the chunk at [q]". *)
Definition answers (tl : string) (q : Z) (answer : option BodyChunk) : Prop :=
  match answer with
  | Some c => chunk_ok tl c ∧ ChunkID c <= q ∧ upto tl (ChunkID c) = upto tl q
  | None => upto tl q = []
  end.

Lemma chunk_no_le tl t q : 0 < size tl → 0 <= t → chunk_no tl t <= q ↔ t < (q + 1) * size tl * billion.
Proof.
  intros Hs Ht. unfold chunk_no, Unix. pose proof (Z.div_pos t billion Ht ltac:(done)).
  rewrite Z.quot_div_nonneg by lia. set (s := t / billion) in *.
  pose proof (Z.div_mod t billion ltac:(done)). pose proof (Z.mod_pos_bound t billion ltac:(done)).
  pose proof (Z.div_mod s (size tl) ltac:(lia)). pose proof (Z.mod_pos_bound s (size tl) ltac:(lia)).
  fold s in H0. set (k := s / size tl) in *. unfold billion in *. nia.
Qed.

Lemma chunk_no_Chunk2Time tl p : 0 < size tl → - 2 ^ 63 <= p * size tl < 2 ^ 63 →
  chunk_no tl (Chunk2Time (manifest_of tl) p) = p.
Proof.
  intros Hs Hp. unfold chunk_no, Chunk2Time, Unix. rewrite int64_id by done. rewrite Z.div_mul by done. apply Z.quot_mul. lia.
Qed.

(** The chunk of an item and the one before begin at a time of 64 bits. *)
Lemma chunk_start tl x p : timeline_ok tl → x ∈ timeline tl →
  p = chunk_no tl (Timestamp x) ∨ p = chunk_no tl (Timestamp x) - 1 → - 2 ^ 63 <= p * size tl < 2 ^ 63.
Proof.
  intros [Hs Hmax _ He Hl] Hx Hp. rewrite Forall_forall in He, Hl. specialize (He x Hx). specialize (Hl x Hx).
  unfold chunk_no in Hp. assert (0 <= Unix (Timestamp x)) as Hu by (apply Z.div_pos; [lia|done]).
  rewrite Z.quot_div_nonneg in Hp by lia. pose proof (Z.div_pos _ _ Hu Hs).
  pose proof (Z.mul_div_le (Unix (Timestamp x)) _ Hs). nia.
Qed.

Lemma chunk_no_mono tl a b : 0 < size tl → a <= b → chunk_no tl a <= chunk_no tl b.
Proof. intros Hs Hab. apply Z.quot_le_mono; [done|]. by apply Z.div_le_mono. Qed.

Lemma elem_of_upto tl q x : timeline_ok tl → x ∈ upto tl q ↔ x ∈ timeline tl ∧ chunk_no tl (Timestamp x) <= q.
Proof.
  intros Ht. unfold upto. rewrite elem_of_filter_b, Z.ltb_lt. split; intros [Hx Hq]; (split; [done|]);
    pose proof (tk_epoch tl Ht) as He; rewrite Forall_forall in He; specialize (He x Hx);
    by apply (chunk_no_le tl (Timestamp x) q (tk_size tl Ht) He).
Qed.

Lemma upto_sorted tl q : timeline_ok tl → StronglySorted newer (upto tl q).
Proof. intros Ht. apply StronglySorted_filter_b, Ht. Qed.

(** The newest item up to a chunk fixes what is up to it. *)
Lemma upto_newest tl q x l : timeline_ok tl → upto tl q = x :: l →
  chunk_no tl (Timestamp x) <= q ∧ upto tl (chunk_no tl (Timestamp x)) = upto tl q.
Proof.
  intros Ht Hup. assert (x ∈ upto tl q) as Hx by (rewrite Hup; by left). apply elem_of_upto in Hx as [Hx Hq]; [|done].
  split; [done|]. apply filter_ext_b. intros y Hy. apply Bool.eq_iff_eq_true. rewrite !Z.ltb_lt.
  pose proof (tk_epoch tl Ht) as He. rewrite Forall_forall in He.
  rewrite <- !chunk_no_le by (apply Ht || by apply He). split; [lia|]. intros Hyq.
  assert (y ∈ upto tl q) as Hin by (by apply elem_of_upto). rewrite Hup in Hin.
  pose proof (upto_sorted tl q Ht) as Hs. rewrite Hup in Hs. apply StronglySorted_inv in Hs as [_ Hf].
  apply chunk_no_mono; [apply Ht|]. apply elem_of_cons in Hin as [->|Hin]; [done|].
  rewrite Forall_forall in Hf. by apply Hf.
Qed.

(** ** The promise of a source

    What the reader needs of its resolver: in every state of [ok], the answers
    are those of the timelines, up to the time [until]; the lists of removed
    items may lag behind, within [removable]. *)
Class Serves {State} `{ChunkResolver State} (uris : list string) (removable : string → list string → Prop) (until : Z)
    (ok : State → Prop) : Prop := {
  serves_manifests st : ok st → ∃ ms st',
    ResolveTimelines uris st = (Ok ms, st') ∧ ok st' ∧ ∀ tl, tl ∈ uris → ms !! tl = Some (manifest_of tl);
  serves_removed st : ok st → ∃ gone st',
    GetRemovedItems uris st = (Ok gone, st') ∧ ok st' ∧ ∀ tl, tl ∈ uris → removable tl (default [] (gone !! tl));
  serves_chunks tls t st :
    ok st → (∀ tl, tl ∈ tls → tl ∈ uris ∧ chunk_no tl t <= chunk_no tl until) → ∃ cs st',
    getChunks tls t st = (Ok cs, st') ∧ ok st' ∧
    ∀ tl, if decide (tl ∈ tls) then answers tl (chunk_no tl t) (cs !! tl) else cs !! tl = None;
}.

(** ** Merging *)

Section Merge.
Context `{XXH3} (uris : list string) (removed : string → list string) (removable : string → list string → Prop) (until : Z).
Context (timelines_ok : ∀ tl, tl ∈ uris → timeline_ok tl).

(** The items a query is about. *)
Definition eligible (tl : string) : list BodyItem := List.filter (λ x, Timestamp x <? until) (timeline tl).

Lemma elem_of_eligible tl x : x ∈ eligible tl ↔ x ∈ timeline tl ∧ Timestamp x < until.
Proof. unfold eligible. by rewrite elem_of_filter_b, Z.ltb_lt. Qed.

(** Taken, or never to be taken from this timeline. *)
Definition handled (uniq : gset string) (tl : string) (x : BodyItem) : Prop :=
  ID x ∈ uniq ∨ ID x ∈ removed tl.

#[local] Instance handled_dec uniq tl x : Decision (handled uniq tl x).
Proof. unfold handled. apply _. Defined.

Definition chunk_of (chunks : gmap string BodyChunk) (tl : string) : BodyChunk := default zero_chunk (chunks !! tl).

(** What a queued timeline still holds: its item and all that follows. *)
Definition remaining (chunks : gmap string BodyChunk) (q : QueueItem) : list BodyItem :=
  drop (qi_Index q) (upto (qi_Timeline q) (ChunkID (chunk_of chunks (qi_Timeline q)))).

Record live (chunks : gmap string BodyChunk) (q : QueueItem) : Prop := {
  lv_uri : qi_Timeline q ∈ uris;
  lv_chunk : chunk_ok (qi_Timeline q) (chunk_of chunks (qi_Timeline q));
  lv_item : Items (chunk_of chunks (qi_Timeline q)) !! qi_Index q = Some (qi_Item q);
  lv_until : ChunkID (chunk_of chunks (qi_Timeline q)) <= chunk_no (qi_Timeline q) until;
  lv_older : Forall (λ x, Timestamp x < until) (remaining chunks q);
}.

(** The state of the merge; [pend] are items in the reader's hands. *)
Record merging (chunks : gmap string BodyChunk) (pq : list QueueItem) (pend : string → BodyItem → Prop)
    (result : list BodyItemWithSource) (uniq : gset string) : Prop := {
  mg_heap : heap qi_key (length pq) pq;
  mg_once : NoDup (qi_Timeline <$> pq);
  mg_live : ∀ q, q ∈ pq → live chunks q;
  mg_all : ∀ tl x, tl ∈ uris → x ∈ eligible tl → handled uniq tl x ∨ pend tl x ∨
    ∃ q, q ∈ pq ∧ qi_Timeline q = tl ∧ x ∈ remaining chunks q;
  mg_uniq : ∀ i, i ∈ uniq ↔ i ∈ (λ r, ID (bs_Item r)) <$> result;
  mg_nodup : NoDup ((λ r, ID (bs_Item r)) <$> result);
  mg_sound : ∀ r, r ∈ result → Source r ∈ uris ∧ bs_Item r ∈ eligible (Source r) ∧ ID (bs_Item r) ∉ removed (Source r);
  mg_sorted : StronglySorted newer (bs_Item <$> result);
  mg_newest : ∀ r tl x, r ∈ result → tl ∈ uris → x ∈ eligible tl → handled uniq tl x ∨ newer (bs_Item r) x;
}.

(** *** What a queued timeline holds *)

Lemma remaining_item chunks q : live chunks q →
  remaining chunks q = qi_Item q :: drop 1 (remaining chunks q).
Proof.
  intros [Hu Hc Hi _ _]. destruct (ck_covers _ _ Hc) as (post & Hp & _). unfold remaining. rewrite Hp, drop_drop.
  pose proof (lookup_lt_Some _ _ _ Hi) as Hlt. rewrite (drop_S _ (qi_Item q) (qi_Index q)) by by rewrite lookup_app_l.
  by rewrite Nat.add_1_r.
Qed.

Lemma remaining_timeline chunks q x : live chunks q → x ∈ remaining chunks q → x ∈ eligible (qi_Timeline q).
Proof.
  intros [Hu Hc Hi _ Ho] Hx. apply elem_of_eligible. rewrite Forall_forall in Ho. split; [|by apply Ho].
  unfold remaining in Hx. apply list_elem_of_lookup in Hx as [j Hj]. rewrite lookup_drop in Hj.
  apply list_elem_of_lookup_2 in Hj. by apply elem_of_upto in Hj as [? _]; [|apply timelines_ok].
Qed.

Lemma remaining_newest chunks q x : live chunks q → x ∈ remaining chunks q → newer (qi_Item q) x.
Proof.
  intros Hl Hx. pose proof (remaining_item chunks q Hl) as Hr. rewrite Hr in Hx.
  apply elem_of_cons in Hx as [->|Hx]; [unfold newer; lia|].
  assert (StronglySorted newer (remaining chunks q)) as Hs.
  { pose proof (upto_sorted (qi_Timeline q) (ChunkID (chunk_of chunks (qi_Timeline q)))
      (timelines_ok _ (lv_uri _ _ Hl))) as Hs.
    rewrite <- (take_drop (qi_Index q)) in Hs. by apply StronglySorted_app_1_r in Hs. }
  rewrite Hr in Hs. apply StronglySorted_inv in Hs as [_ Hf]. rewrite Forall_forall in Hf. by apply Hf.
Qed.

(** *** Taking an item *)

Lemma retracted_iff gone q : default [] (gone !! qi_Timeline q) = removed (qi_Timeline q) →
  retracted gone q = true ↔ ID (qi_Item q) ∈ removed (qi_Timeline q).
Proof.
  intros <-. unfold retracted. destruct (gone !! qi_Timeline q) as [l|]; cbn [default]; [apply in_list_elem|].
  split; [done|by intros ?%elem_of_nil].
Qed.

Lemma take_ok gone chunks pq q pq' result uniq result' uniq' :
  merging chunks pq (λ _ _, False) result uniq →
  pq ≡ₚ q :: pq' → heap qi_key (length pq') pq' → (∀ q', q' ∈ pq' → qi_key q' <= qi_key q) →
  default [] (gone !! qi_Timeline q) = removed (qi_Timeline q) →
  take_item gone q result uniq = (result', uniq') →
  merging chunks pq' (λ tl x, tl = qi_Timeline q ∧ x ∈ drop 1 (remaining chunks q)) result' uniq' ∧
  qi_Timeline q ∉ qi_Timeline <$> pq' ∧ handled uniq' (qi_Timeline q) (qi_Item q).
Proof.
  intros [_ Hone Hlive Hall Huniq Hnd Hsound Hsort Hnew] Hp Hheap Hmax Hgone Htake.
  assert (q ∈ pq) as Hq by (rewrite Hp; by left). pose proof (Hlive q Hq) as Hl.
  rewrite Hp in Hone. apply NoDup_cons in Hone as [Hnin Hone].
  pose proof (remaining_item chunks q Hl) as Hrem.
  (* nothing unhandled is newer than the item *)
  assert (∀ tl x, tl ∈ uris → x ∈ eligible tl → handled uniq tl x ∨ newer (qi_Item q) x) as Hbest.
  { intros tl x Hu Hx. destruct (Hall tl x Hu Hx) as [?|[[]|(q' & Hq' & <- & Hr)]]; [by left|right].
    pose proof (remaining_newest chunks q' x (Hlive q' Hq') Hr) as Hn.
    rewrite Hp in Hq'. apply elem_of_cons in Hq' as [->|Hq']; [done|].
    specialize (Hmax q' Hq'). unfold newer, qi_key in *. lia. }
  assert (qi_Item q ∈ eligible (qi_Timeline q)) as Hel
    by (apply (remaining_timeline chunks q); [done|rewrite Hrem; by left]).
  assert (∀ uniq2, uniq ⊆ uniq2 → handled uniq2 (qi_Timeline q) (qi_Item q) → ∀ tl x, tl ∈ uris → x ∈ eligible tl →
    handled uniq2 tl x ∨ (tl = qi_Timeline q ∧ x ∈ drop 1 (remaining chunks q)) ∨
    ∃ q', q' ∈ pq' ∧ qi_Timeline q' = tl ∧ x ∈ remaining chunks q') as Hall'.
  { intros uniq2 Hsub Hhq tl x Hu Hx. destruct (Hall tl x Hu Hx) as [[?|?]|[[]|(q' & Hq' & <- & Hr)]].
    - left; left. set_solver.
    - by left; right.
    - rewrite Hp in Hq'. apply elem_of_cons in Hq' as [->|Hq']; [|right; right; eauto].
      rewrite Hrem in Hr. apply elem_of_cons in Hr as [->|Hr]; [by left|by right; left]. }
  assert (∀ q', q' ∈ pq' → live chunks q') as Hlive' by (intros q' Hq'; apply Hlive; rewrite Hp; by right).
  unfold take_item in Htake.
  destruct (bool_decide_reflect (ID (qi_Item q) ∈ uniq)) as [Hin|Hin]; cbn [negb andb] in Htake.
  { injection Htake as <- <-. split; [|split; [done|by left]]. split; try done. apply Hall'; [done|by left]. }
  destruct (retracted gone q) eqn:Hret; cbn [negb] in Htake; injection Htake as <- <-.
  { apply (retracted_iff gone q Hgone) in Hret. split; [|split; [done|by right]]. split; try done.
    apply Hall'; [done|by right]. }
  assert (ID (qi_Item q) ∉ removed (qi_Timeline q)) as Hnr
    by (intros Hr; apply (retracted_iff gone q Hgone) in Hr; congruence).
  split; [|split; [done|left; set_solver]]. split; try done.
  - apply Hall'; [set_solver|left; set_solver].
  - intros i. rewrite fmap_app, elem_of_app, elem_of_union, elem_of_singleton, Huniq. cbn.
    rewrite list_elem_of_singleton. tauto.
  - rewrite fmap_app. cbn. apply NoDup_app. split; [done|]. split; [|apply NoDup_singleton].
    intros i Hi ->%list_elem_of_singleton. by apply Hin, Huniq.
  - intros r [Hr| ->%list_elem_of_singleton]%elem_of_app; [by apply Hsound|]. cbn. by split_and!; [apply Hl| |].
  - rewrite fmap_app. apply StronglySorted_app_2; [|done|by repeat constructor].
    intros a b (r & -> & Hr)%list_elem_of_fmap ->%list_elem_of_singleton. cbn.
    destruct (Hnew r _ _ Hr (lv_uri _ _ Hl) Hel) as [[?|?]|?]; [done|done|done].
  - intros r tl x [Hr| ->%list_elem_of_singleton]%elem_of_app Hu Hx.
    + destruct (Hnew r tl x Hr Hu Hx) as [[?|?]|?]; [left; left; set_solver|by left; right|by right].
    + destruct (Hbest tl x Hu Hx) as [[?|?]|?]; [left; left; set_solver|by left; right|by right].
Qed.

(** *** Going on *)

Lemma pend_done chunks pq pend result uniq :
  (∀ tl x, pend tl x → handled uniq tl x) →
  merging chunks pq pend result uniq → merging chunks pq (λ _ _, False) result uniq.
Proof.
  intros Hp [? ? ? Hall ? ? ? ? ?]. split; try done. intros tl x Hu Hx.
  destruct (Hall tl x Hu Hx) as [?|[?|?]]; [by left|left; auto|by right; right].
Qed.

Lemma push_ok chunks chunks' pq pend result uniq q :
  merging chunks pq pend result uniq → qi_Timeline q ∉ qi_Timeline <$> pq →
  (∀ tl, tl ≠ qi_Timeline q → chunk_of chunks' tl = chunk_of chunks tl) → live chunks' q →
  (∀ tl x, pend tl x → tl = qi_Timeline q ∧ x ∈ remaining chunks' q) →
  merging chunks' (Push qi_key q pq) (λ _ _, False) result uniq.
Proof.
  intros [Hheap Hone Hlive Hall Huniq Hnd Hsound Hsort Hnew] Hnin Hother Hl Hpend.
  assert (∀ q', q' ∈ pq → qi_Timeline q' ≠ qi_Timeline q) as Hne.
  { intros q' Hq' Heq. apply Hnin. rewrite <- Heq. by apply list_elem_of_fmap_2. }
  split; try done.
  - by apply Push_heap.
  - rewrite Push_perm. by apply NoDup_cons.
  - intros q' Hq'. rewrite Push_perm in Hq'. apply elem_of_cons in Hq' as [->|Hq']; [done|].
    pose proof (Hother _ (Hne q' Hq')) as Ho. destruct (Hlive q' Hq') as [? ? ? ? ?].
    split; unfold remaining; rewrite ?Ho; done.
  - intros tl x Hu Hx. destruct (Hall tl x Hu Hx) as [?|[Hp|(q' & Hq' & <- & Hr)]]; [by left|right; right..].
    + destruct (Hpend tl x Hp) as [-> Hr]. exists q. rewrite Push_perm. split_and!; [by left|done|done].
    + exists q'. rewrite Push_perm. split_and!; [by right|done|].
      unfold remaining. by rewrite (Hother _ (Hne q' Hq')).
Qed.

(** How much work a queued timeline is: each of its items is taken at most
    twice, because chunks overlap by at most one. *)
Definition older_chunks (tl : string) (k : Z) : list BodyItem :=
  List.filter (λ x, chunk_no tl (Timestamp x) <? k) (timeline tl).

Definition weight (chunks : gmap string BodyChunk) (q : QueueItem) : nat :=
  length (remaining chunks q) + length (older_chunks (qi_Timeline q) (ChunkID (chunk_of chunks (qi_Timeline q)))).

Definition work (chunks : gmap string BodyChunk) (pq : list QueueItem) : nat := sum_list_with (weight chunks) pq.

Lemma work_perm chunks pq pq' : pq ≡ₚ pq' → work chunks pq = work chunks pq'.
Proof. unfold work. by intros ->. Qed.

Lemma work_other chunks chunks' tl pq : tl ∉ qi_Timeline <$> pq →
  (∀ tl', tl' ≠ tl → chunk_of chunks' tl' = chunk_of chunks tl') → work chunks' pq = work chunks pq.
Proof.
  intros Hn Ho. unfold work. induction pq as [|q pq IH]; cbn; [done|]. cbn in Hn. apply not_elem_of_cons in Hn as [Hq Hn].
  rewrite IH by done. unfold weight, remaining. by rewrite Ho.
Qed.

Lemma work_push chunks q pq : work chunks (Push qi_key q pq) = (weight chunks q + work chunks pq)%nat.
Proof. by rewrite (work_perm _ _ _ (Push_perm qi_key q pq)). Qed.

(** The last item of a chunk: what is left of the timeline, and where the next
    chunk is looked for. *)
Lemma chunk_end chunks q : live chunks q →
  Items (chunk_of chunks (qi_Timeline q)) !! (qi_Index q + 1)%nat = None →
  let tl := qi_Timeline q in
  let k := ChunkID (chunk_of chunks tl) in
  let e := chunk_no tl (Timestamp (qi_Item q)) in
  let p := if e =? k then e - 1 else e in
  p < k ∧
  (∀ y, y ∈ drop 1 (remaining chunks q) → y ∈ upto tl p) ∧
  (∀ k', k' <= p → (length (older_chunks tl k') <= length (drop 1 (remaining chunks q)))%nat) ∧
  (length (upto tl p) <= length (older_chunks tl k))%nat ∧
  (∀ y, y ∈ upto tl p → Timestamp y < until).
Proof.
  intros [Hu Hc Hi Hk Ho] Hnone tl k e p. pose proof (timelines_ok tl Hu) as Ht. pose proof (tk_size tl Ht) as Hs.
  destruct (ck_covers tl _ Hc) as (post & Hup & Hpost). fold tl k in Hup, Hpost, Hk, Hi, Hnone.
  set (items := Items (chunk_of chunks tl)) in *.
  apply lookup_ge_None_1 in Hnone. pose proof (lookup_lt_Some _ _ _ Hi) as Hlt.
  assert (items = take (qi_Index q) items ++ [qi_Item q]) as Hitems.
  { rewrite <- (take_drop (qi_Index q) items) at 1. f_equal.
    rewrite (drop_S _ (qi_Item q) (qi_Index q)) by done. f_equal. apply drop_ge. lia. }
  assert (drop 1 (remaining chunks q) = post) as Hdrop.
  { unfold remaining. fold tl k. rewrite drop_drop, Hup. rewrite drop_app_length'; [done|lia]. }
  rewrite Hdrop. pose proof (upto_sorted tl k Ht) as Hsort. rewrite Hup in Hsort.
  assert (∀ y, y ∈ upto tl k → y ∈ timeline tl ∧ chunk_no tl (Timestamp y) <= k) as Hk'
    by (intros y Hy; by apply elem_of_upto in Hy).
  assert (qi_Item q ∈ upto tl k) as Hqin by (rewrite Hup; apply elem_of_app; left; by eapply list_elem_of_lookup_2).
  assert (e <= k) as Hek by apply (Hk' _ Hqin).
  assert (p < k ∧ p <= e) as [Hpk Hpe] by (unfold p; destruct (Z.eqb_spec e k); lia).
  assert (∀ y, y ∈ post → chunk_no tl (Timestamp y) <= p) as Hpp.
  { intros y Hy. rewrite Forall_forall in Hpost. specialize (Hpost y Hy).
    assert (chunk_no tl (Timestamp y) <= e).
    { apply chunk_no_mono; [done|]. apply (StronglySorted_app_1_elem_of newer _ _ (qi_Item q) y Hsort); [|done].
      rewrite Hitems. apply elem_of_app. right. by left. }
    unfold p. destruct (Z.eqb_spec e k); lia. }
  split_and!; [done|..].
  - intros y Hy. apply elem_of_upto; [done|]. split; [|by apply Hpp].
    apply Hk'. rewrite Hup. apply elem_of_app. by right.
  - intros k' Hk'p.
    assert (older_chunks tl k' = List.filter (λ x, chunk_no tl (Timestamp x) <? k') post) as ->; [|apply length_filter_le].
    assert (older_chunks tl k' = List.filter (λ x, chunk_no tl (Timestamp x) <? k') (upto tl k)) as ->.
    { unfold upto. rewrite filter_filter_sub; [done|]. intros x Hx Hxk%Z.ltb_lt. apply Z.ltb_lt.
      assert (0 <= Timestamp x) by (pose proof (tk_epoch tl Ht) as He; rewrite Forall_forall in He; by apply He).
      apply (chunk_no_le tl (Timestamp x) k Hs); lia. }
    rewrite Hup, List.filter_app, filter_none; [done|]. intros x Hx. apply Z.ltb_ge.
    assert (e <= chunk_no tl (Timestamp x)); [|lia]. apply chunk_no_mono; [done|].
    rewrite Hitems in Hx. apply elem_of_app in Hx as [Hx|Hx%list_elem_of_singleton]; [|by subst x].
    apply StronglySorted_app_1_l in Hsort. rewrite Hitems in Hsort.
    apply (StronglySorted_app_1_elem_of newer _ _ x (qi_Item q) Hsort Hx). by left.
  - unfold upto, older_chunks. apply length_filter_sub. intros x Hx Hxp%Z.ltb_lt. apply Z.ltb_lt.
    assert (0 <= Timestamp x) by (pose proof (tk_epoch tl Ht) as He; rewrite Forall_forall in He; by apply He).
    assert (chunk_no tl (Timestamp x) <= p); [by apply chunk_no_le|lia].
  - intros y Hy. apply elem_of_upto in Hy as [Hy Hyp]; [|done].
    destruct (Z.lt_ge_cases (Timestamp y) until) as [?|Hge]; [done|].
    pose proof (chunk_no_mono tl _ _ Hs Hge). lia.
Qed.

Lemma advance_ok {State} `{!ChunkResolver State} (ok : State → Prop) `{!Serves uris removable until ok}
    ms chunks q pq result uniq st :
  ok st → ms !! qi_Timeline q = Some (manifest_of (qi_Timeline q)) → live chunks q →
  qi_Timeline q ∉ qi_Timeline <$> pq →
  merging chunks pq (λ tl x, tl = qi_Timeline q ∧ x ∈ drop 1 (remaining chunks q)) result uniq →
  ∃ chunks' pq' st', advance ms q chunks pq st = (Ok (chunks', pq'), st') ∧ ok st' ∧
    merging chunks' pq' (λ _ _, False) result uniq ∧ (work chunks' pq' < weight chunks q + work chunks pq)%nat.
Proof.
  intros Hst Hms Hl Hnin Hm. pose proof Hl as [Hu Hc Hi Hk Ho]. set (tl := qi_Timeline q) in *.
  pose proof (timelines_ok tl Hu) as Ht. pose proof (tk_size tl Ht) as Hs.
  unfold advance. fold tl. change (default zero_chunk (chunks !! tl)) with (chunk_of chunks tl).
  assert (weight chunks q = S (length (drop 1 (remaining chunks q))) + length (older_chunks tl (ChunkID (chunk_of chunks tl))))%nat as Hw
    by (unfold weight; rewrite (remaining_item chunks q Hl) at 1; done).
  destruct (Items (chunk_of chunks tl) !! (qi_Index q + 1)%nat) as [item|] eqn:Hnext.
  - eexists _, _, st. split; [reflexivity|]. split; [done|].
    assert (remaining chunks (mkQueueItem tl item (qi_Index q + 1)) = drop 1 (remaining chunks q)) as Hr
      by (unfold remaining; cbn [qi_Timeline qi_Index]; by rewrite drop_drop).
    split.
    + apply (push_ok chunks chunks pq _ result uniq _ Hm); [done|done| |].
      * split; cbn [qi_Timeline qi_Index qi_Item]; try done. rewrite Hr. by apply Forall_drop.
      * intros tl' x [-> Hx]. split; [done|]. by rewrite Hr.
    + rewrite work_push. assert (weight chunks (mkQueueItem tl item (qi_Index q + 1)) < weight chunks q)%nat; [|lia].
      rewrite Hw. unfold weight. rewrite Hr. cbn [qi_Timeline]. lia.
  - destruct (chunk_end chunks q Hl Hnext) as (Hpk & Hpost & Holder & Hcount & Huntil). fold tl in Hpk, Hpost, Holder, Hcount, Huntil.
    rewrite Hms. cbn [default from_option id]. unfold Time2Chunk. rewrite (proj2 (Z.eqb_neq (size tl) 0)) by lia.
    fold (chunk_no tl (Timestamp (qi_Item q))). rewrite bindM_lift.
    set (p := if chunk_no tl (Timestamp (qi_Item q)) =? ChunkID (chunk_of chunks tl)
      then chunk_no tl (Timestamp (qi_Item q)) - 1 else chunk_no tl (Timestamp (qi_Item q))) in *.
    assert (- 2 ^ 63 <= p * size tl < 2 ^ 63) as Hp64.
    { apply (chunk_start tl (qi_Item q)); [done| |unfold p; destruct (_ =? _); auto].
      assert (qi_Item q ∈ eligible tl) as [? _]%elem_of_eligible; [|done].
      apply (remaining_timeline chunks q); [done|]. rewrite (remaining_item chunks q Hl). by left. }
    destruct (serves_chunks [tl] (Chunk2Time (manifest_of tl) p) st Hst) as (cs & st' & Hget & Hst' & Hans).
    { intros tl' ->%list_elem_of_singleton. rewrite chunk_no_Chunk2Time by done. split; [done|lia]. }
    assert (tryM (getChunks [tl] (Chunk2Time (manifest_of tl) p)) st = (Ok (Ok cs), st')) as Htry
      by (unfold tryM; by rewrite Hget).
    rewrite (bindM_ok _ _ _ _ _ Htry). specialize (Hans tl). rewrite decide_True in Hans by (by left).
    rewrite chunk_no_Chunk2Time in Hans by done. destruct (cs !! tl) as [c'|].
    + destruct Hans as (Hc' & Hid & Hup). destruct (Items c') as [|first rest] eqn:Hits; [by apply (ck_items tl c' Hc') in Hits|].
      eexists _, _, st'. split; [reflexivity|]. split; [done|].
      assert (chunk_of (<[tl:=c']> chunks) tl = c') as Hco by (unfold chunk_of; by rewrite lookup_insert_eq).
      assert (∀ tl', tl' ≠ tl → chunk_of (<[tl:=c']> chunks) tl' = chunk_of chunks tl') as Hother
        by (intros tl' Hne; unfold chunk_of; by rewrite lookup_insert_ne).
      assert (remaining (<[tl:=c']> chunks) (mkQueueItem tl first 0) = upto tl p) as Hr
        by (unfold remaining; cbn [qi_Timeline qi_Index]; by rewrite Hco, drop_0).
      split.
      * apply (push_ok chunks _ pq _ result uniq _ Hm); [done|done| |].
        -- split; cbn [qi_Timeline qi_Index qi_Item]; rewrite ?Hco, ?Hr; [done|done|by rewrite Hits|lia|].
           apply Forall_forall. exact Huntil.
        -- intros tl' x [-> Hx]. split; [done|]. rewrite Hr. by apply Hpost.
      * rewrite work_push, (work_other chunks _ tl pq Hnin Hother), Hw. unfold weight. rewrite Hr. cbn [qi_Timeline].
        rewrite Hco. specialize (Holder (ChunkID c') Hid). lia.
    + eexists _, _, st'. split; [reflexivity|]. split; [done|]. split; [|lia].
      revert Hm. apply pend_done. intros tl' x [-> Hx]. apply Hpost in Hx. rewrite Hans in Hx. by apply elem_of_nil in Hx.
Qed.

(** *** The loop *)

Lemma merge_ok {State} `{!ChunkResolver State} (ok : State → Prop) `{!Serves uris removable until ok}
    n limit ms gone chunks pq result uniq st :
  ok st → (∀ tl, tl ∈ uris → ms !! tl = Some (manifest_of tl)) →
  (∀ tl, tl ∈ uris → default [] (gone !! tl) = removed tl) →
  merging chunks pq (λ _ _, False) result uniq →
  ∃ result' uniq' chunks' pq' st',
    merge_loop n limit ms gone chunks pq result uniq st = (Ok result', st') ∧ ok st' ∧
    merging chunks' pq' (λ _ _, False) result' uniq' ∧
    (Z.of_nat (length result') <= Z.max limit (Z.of_nat (length result))) ∧
    ((work chunks pq < n)%nat → limit <= Z.of_nat (length result') ∨ pq' = []).
Proof.
  intros Hst Hms Hgone. revert chunks pq result uniq st Hst.
  induction n as [|n IH]; intros chunks pq result uniq st Hst Hm; cbn [merge_loop].
  { exists result, uniq, chunks, pq, st. split_and!; [done|done|done|lia|lia]. }
  destruct (Z.ltb_spec (Z.of_nat (length result)) limit) as [Hlim|Hlim].
  2:{ exists result, uniq, chunks, pq, st. split_and!; [done|done|done|lia|by left]. }
  destruct (decide (pq = [])) as [->|Hne].
  { exists result, uniq, chunks, [], st. split_and!; [done|done|done|lia|by right]. }
  destruct (Pop_spec qi_key pq Hne (mg_heap _ _ _ _ _ Hm)) as (q & pq1 & -> & Hp & Hheap & Hmax).
  assert (q ∈ pq) as Hq by (rewrite Hp; by left). pose proof (mg_live _ _ _ _ _ Hm q Hq) as Hl.
  destruct (take_item gone q result uniq) as [result1 uniq1] eqn:Htake.
  destruct (take_ok gone chunks pq q pq1 result uniq result1 uniq1 Hm Hp Hheap Hmax (Hgone _ (lv_uri _ _ Hl)) Htake)
    as (Hm1 & Hnin & _).
  destruct (advance_ok ok ms chunks q pq1 result1 uniq1 st Hst (Hms _ (lv_uri _ _ Hl)) Hl Hnin Hm1)
    as (chunks2 & pq2 & st2 & Hadv & Hst2 & Hm2 & Hwork).
  rewrite (bindM_ok _ _ _ _ _ Hadv).
  assert (Z.of_nat (length result1) <= Z.max limit (Z.of_nat (length result))) as Hlen.
  { unfold take_item in Htake. destruct (_ && _); injection Htake as <- <-; rewrite ?length_app; cbn; lia. }
  destruct (IH chunks2 pq2 result1 uniq1 st2 Hst2 Hm2) as (result' & uniq' & chunks' & pq' & st' & Hrun & Hst' & Hm' & Hlen' & Hdone).
  exists result', uniq', chunks', pq', st'. split_and!; [done|done|done|lia|].
  intros Hw. apply Hdone. rewrite (work_perm chunks pq (q :: pq1) Hp) in Hw. unfold work in *. cbn in Hw. lia.
Qed.

(** *** The first entries *)

(** The chunk of [until] is not all newer than [until], unless nothing older
    is left. *)
Definition reaches_back (tl : string) : Prop :=
  (∃ x, x ∈ timeline tl ∧ until <= Timestamp x ∧ chunk_no tl (Timestamp x) = chunk_no tl until) →
  eligible tl ≠ [] →
  ∃ y, y ∈ timeline tl ∧ Timestamp y < until ∧ chunk_no tl (Timestamp y) = chunk_no tl until.

(** What [start] finds in a chunk. *)
Lemma start_spec tl c : tl ∈ uris → reaches_back tl → answers tl (chunk_no tl until) (Some c) →
  let i := Search (length (Items c)) (before until (Items c)) in
  match Items c !! i with
  | Some x => Forall (λ y, Timestamp y < until) (drop i (upto tl (ChunkID c))) ∧
      ∀ y, y ∈ eligible tl → y ∈ drop i (upto tl (ChunkID c))
  | None => eligible tl = []
  end.
Proof.
  intros Hu Hback (Hc & Hid & Hup) i. pose proof (timelines_ok tl Hu) as Ht. pose proof (tk_size tl Ht) as Hs.
  destruct (ck_covers tl c Hc) as (post & Hcov & Hpost).
  pose proof (upto_sorted tl (ChunkID c) Ht) as Hsort. rewrite Hcov in Hsort.
  assert (∀ a b, (a <= b)%nat → before until (Items c) a = true →
    before until (Items c) b = true ∨ (length (Items c) <= b)%nat) as Hmono.
  { intros a b Hab Ha. destruct (decide (length (Items c) <= b)%nat) as [?|Hb]; [by right|left].
    destruct (lookup_lt_is_Some_2 (Items c) b) as [y Hy]; [lia|].
    unfold before in *. rewrite Hy. destruct (Items c !! a) as [x|] eqn:Hx; [|done].
    apply Z.ltb_lt in Ha. apply Z.ltb_lt. destruct (decide (a = b)) as [->|Hne]; [congruence|].
    apply StronglySorted_app_1_l in Hsort. rewrite <- (take_drop b) in Hsort.
    assert (newer x y) as Hn; [|unfold newer in Hn; lia].
    apply (StronglySorted_app_1_elem_of newer _ _ x y Hsort).
    - apply (list_elem_of_lookup_2 _ a). by rewrite lookup_take_lt by lia.
    - rewrite (drop_S _ y b Hy). by left. }
  destruct (search_spec _ (length (Items c)) 0 (length (Items c)) Hmono ltac:(lia) ltac:(lia)) as (Hle & Hbefore & Hat).
  fold (Search (length (Items c)) (before until (Items c))) in Hle, Hbefore, Hat. fold i in Hle, Hbefore, Hat.
  assert (∀ y, y ∈ take i (Items c) → until <= Timestamp y) as Htake.
  { intros y (m & Hm & Hmi)%elem_of_take. specialize (Hbefore m ltac:(lia)). unfold before in Hbefore. rewrite Hm in Hbefore.
    by apply Z.ltb_ge in Hbefore. }
  destruct (Items c !! i) as [x|] eqn:Hx.
  - pose proof (lookup_lt_Some _ _ _ Hx) as Hlt.
    assert (Timestamp x < until) as Hxu by (specialize (Hat Hlt); unfold before in Hat; rewrite Hx in Hat; by apply Z.ltb_lt).
    rewrite Hcov. split.
    + apply Forall_forall. intros y Hy. rewrite <- (take_drop i) in Hsort.
      apply StronglySorted_app_1_r in Hsort. rewrite (drop_S _ x i) in Hsort, Hy by by rewrite lookup_app_l.
      apply elem_of_cons in Hy as [->|Hy]; [done|]. apply StronglySorted_inv in Hsort as [_ Hf].
      rewrite Forall_forall in Hf. specialize (Hf y Hy). unfold newer in Hf. lia.
    + intros y [Hy Hyu]%elem_of_eligible. assert (y ∈ upto tl (ChunkID c)) as Hin.
      { rewrite Hup. apply elem_of_upto; [done|]. split; [done|]. apply chunk_no_mono; [done|lia]. }
      rewrite Hcov, <- (take_drop i), elem_of_app in Hin. destruct Hin as [Hin|Hin]; [|done].
      rewrite take_app_le in Hin by lia. specialize (Htake y Hin). lia.
  - assert (∀ y, y ∈ Items c → until <= Timestamp y) as Hall.
    { intros y Hy. apply Htake. apply lookup_ge_None_1 in Hx. by rewrite take_ge. }
    destruct (decide (eligible tl = [])) as [?|Hel]; [done|exfalso].
    destruct (Items c) as [|x rest] eqn:Hits; [by apply (ck_items tl c Hc)|].
    pose proof (ck_newest tl c Hc x ltac:(by rewrite Hits)) as Hkx. specialize (Hall x ltac:(by left)) as Hxu.
    assert (x ∈ upto tl (ChunkID c)) as [Hxt Hxk]%elem_of_upto by (by rewrite Hcov; left || done); [|done].
    assert (chunk_no tl until <= chunk_no tl (Timestamp x)) as Hge by (apply chunk_no_mono; done).
    destruct Hback as (y & Hyt & Hyu & Hyk); [exists x; split_and!; [done|done|lia]|done|].
    assert (y ∈ upto tl (ChunkID c)) as Hy by (apply elem_of_upto; [done|]; split; [done|lia]).
    rewrite Hcov in Hy. apply elem_of_app in Hy as [Hy|Hy]; [specialize (Hall y Hy); lia|].
    rewrite Forall_forall in Hpost. specialize (Hpost y Hy). lia.
Qed.

(** The queue after the chunks of [l]. *)
Record started (chunks : gmap string BodyChunk) (l : list (string * BodyChunk)) (pq : list QueueItem) : Prop := {
  sd_heap : heap qi_key (length pq) pq;
  sd_once : NoDup (qi_Timeline <$> pq);
  sd_from : ∀ q, q ∈ pq → qi_Timeline q ∈ fst <$> l;
  sd_live : ∀ q, q ∈ pq → live chunks q;
  sd_all : ∀ tc y, tc ∈ l → y ∈ eligible (fst tc) →
    ∃ q, q ∈ pq ∧ qi_Timeline q = fst tc ∧ y ∈ remaining chunks q;
}.

Lemma start_ok chunks l pq tl c :
  started chunks l pq → tl ∉ fst <$> l → chunks !! tl = Some c →
  tl ∈ uris → reaches_back tl → answers tl (chunk_no tl until) (Some c) →
  started chunks (l ++ [(tl, c)]) (start until pq (tl, c)).
Proof.
  intros [Hheap Hone Hfrom Hlive Hall] Hnew Hc Hu Hback Hans. pose proof Hans as (Hok & Hid & Hup).
  assert (chunk_of chunks tl = c) as Hco by (unfold chunk_of; by rewrite Hc).
  pose proof (start_spec tl c Hu Hback Hans) as Hstart. cbv zeta in Hstart. unfold start.
  rewrite (proj2 (Nat.leb_gt _ _)) by (pose proof (ck_items tl c Hok); destruct (Items c); [done|cbn; lia]).
  set (i := Search (length (Items c)) (before until (Items c))) in *.
  assert (∀ tc, tc ∈ l ++ [(tl, c)] → tc ∈ l ∨ tc = (tl, c)) as Hsplit
    by (intros tc [?|?%list_elem_of_singleton]%elem_of_app; auto).
  destruct (Items c !! i) as [x|] eqn:Hx.
  - destruct Hstart as [Hold Hcov]. set (q := mkQueueItem tl x i).
    assert (remaining chunks q = drop i (upto tl (ChunkID c))) as Hrem
      by (unfold remaining; cbn [q qi_Timeline qi_Index]; by rewrite Hco).
    assert (qi_Timeline q ∉ qi_Timeline <$> pq) as Hnin
      by (intros (q' & Heq & Hq')%list_elem_of_fmap; apply Hnew; cbn in Heq; rewrite Heq; by apply Hfrom).
    split.
    + by apply Push_heap.
    + rewrite Push_perm. by apply NoDup_cons.
    + intros q' Hq'. rewrite Push_perm in Hq'. rewrite fmap_app. apply elem_of_app.
      apply elem_of_cons in Hq' as [->|Hq']; [right; by left|left; by apply Hfrom].
    + intros q' Hq'. rewrite Push_perm in Hq'. apply elem_of_cons in Hq' as [->|Hq']; [|by apply Hlive].
      split; cbn [q qi_Timeline qi_Index qi_Item]; rewrite ?Hco; [done..|by rewrite Hrem].
    + intros tc y [Htc| ->]%Hsplit Hy.
      * destruct (Hall tc y Htc Hy) as (q' & Hq' & ? & ?). exists q'. rewrite Push_perm. split_and!; [by right|done..].
      * exists q. rewrite Push_perm, Hrem. split_and!; [by left|done|by apply Hcov].
  - split; try done.
    + intros q' Hq'. rewrite fmap_app. apply elem_of_app. left. by apply Hfrom.
    + intros tc y [Htc| ->]%Hsplit Hy; [by apply Hall|]. cbn in Hy. rewrite Hstart in Hy. by apply elem_of_nil in Hy.
Qed.

Lemma starts_ok chunks l pq l' :
  started chunks l pq → NoDup (fst <$> l ++ l') →
  (∀ tl c, (tl, c) ∈ l' → chunks !! tl = Some c ∧ tl ∈ uris ∧ reaches_back tl ∧
    answers tl (chunk_no tl until) (Some c)) →
  started chunks (l ++ l') (foldl (start until) pq l').
Proof.
  revert l pq. induction l' as [|[tl c] l' IH]; intros l pq Hs Hnd Hl'; [by rewrite app_nil_r|].
  cbn [foldl]. destruct (Hl' tl c ltac:(by left)) as (Hc & Hu & Hb & Ha).
  assert (tl ∉ fst <$> l) as Hn.
  { rewrite fmap_app in Hnd. apply NoDup_app in Hnd as (_ & Hnd & _). intros Hin. apply (Hnd tl Hin). by left. }
  replace (l ++ (tl, c) :: l') with ((l ++ [(tl, c)]) ++ l') in * by by rewrite <- app_assoc.
  apply IH; [by apply start_ok|done|]. intros tl' c' Hin. apply Hl'. by right.
Qed.

(** The queue's work at the start. *)
Lemma weight_bound chunks q : live chunks q → (weight chunks q <= 2 * length (eligible (qi_Timeline q)))%nat.
Proof.
  intros [Hu Hc Hi Hk Ho]. set (tl := qi_Timeline q) in *. set (k := ChunkID (chunk_of chunks tl)) in *.
  pose proof (timelines_ok tl Hu) as Ht. pose proof (tk_size tl Ht) as Hs. unfold weight. fold tl k.
  assert (length (older_chunks tl k) <= length (eligible tl))%nat.
  { apply length_filter_sub. intros x Hx Hxk%Z.ltb_lt. apply Z.ltb_lt.
    destruct (Z.lt_ge_cases (Timestamp x) until) as [?|Hge]; [done|].
    pose proof (chunk_no_mono tl _ _ Hs Hge). lia. }
  assert (length (remaining chunks q) <= length (eligible tl))%nat; [|lia].
  assert (remaining chunks q = List.filter (λ x, Timestamp x <? until) (remaining chunks q)) as ->.
  { induction Ho as [|x l Hx _ IH]; cbn; [done|]. apply Z.ltb_lt in Hx. by rewrite Hx, <- IH. }
  unfold remaining. fold tl k.
  assert (∀ l, (length (List.filter (λ x, (Timestamp x <? until)%Z) (drop (qi_Index q) l)) <=
    length (List.filter (λ x, (Timestamp x <? until)%Z) l))%nat) as Hdrop.
  { intros l. rewrite <- (take_drop (qi_Index q) l) at 2. rewrite List.filter_app, length_app. lia. }
  etrans; [apply Hdrop|]. unfold upto, eligible.
  generalize (timeline tl) as l. induction l as [|x l IH]; cbn; [done|].
  destruct (Timestamp x <? (k + 1) * size tl * billion); cbn; destruct (Timestamp x <? until); cbn; lia.
Qed.

Lemma work_bound chunks pq : NoDup (qi_Timeline <$> pq) → (∀ q, q ∈ pq → live chunks q) →
  (work chunks pq <= 2 * sum_list_with (λ tl, length (eligible tl)) uris)%nat.
Proof.
  intros Hnd Hl.
  assert (work chunks pq <= 2 * sum_list_with (λ tl, length (eligible tl)) (qi_Timeline <$> pq))%nat as Hw.
  { clear Hnd. unfold work. induction pq as [|q pq IH]; cbn; [done|].
    pose proof (weight_bound chunks q (Hl q ltac:(by left))). specialize (IH ltac:(intros; apply Hl; by right)).
    cbn in *. lia. }
  assert (qi_Timeline <$> pq ⊆+ uris) as [rest ->]%submseteq_Permutation; [|rewrite sum_list_with_app; lia].
  apply NoDup_submseteq; [done|]. intros tl (q & -> & Hq)%list_elem_of_fmap. apply (Hl q Hq).
Qed.

(** What a page of merged timelines is: at most [limit] items that belong to
    the timelines, none twice and none removed, newest first, with nothing
    left out that is newer than an item of the page. *)
Record page_of (limit : Z) (result : list BodyItemWithSource) : Prop := {
  pg_limit : Z.of_nat (length result) <= Z.max limit 0;
  pg_sorted : StronglySorted newer (bs_Item <$> result);
  pg_nodup : NoDup ((λ r, ID (bs_Item r)) <$> result);
  pg_sound : ∀ r, r ∈ result → Source r ∈ uris ∧ bs_Item r ∈ eligible (Source r) ∧ ID (bs_Item r) ∉ removed (Source r);
  pg_no_gap : ∀ r tl x, r ∈ result → tl ∈ uris → x ∈ eligible tl → ID x ∉ removed tl →
    ID x ∈ (λ r, ID (bs_Item r)) <$> result ∨ newer (bs_Item r) x;
}.

End Merge.

(** *** Pages *)

Section Pages.
Context `{XXH3} (uris : list string) (removable : string → list string → Prop) (until : Z).
Context (timelines_ok : ∀ tl, tl ∈ uris → timeline_ok tl).
Context {State : Type} `{!ChunkResolver State, !MapOrder} (ok : State → Prop) `{!Serves uris removable until ok}.

(** Such a page, when it is not full, holds everything that is left, as long as
    the timelines hold fewer than half a thousand items before [until]: the
    loop's bound of a thousand items taken is then out of reach. *)
Lemma merged_page limit st :
  ok st → (∀ tl, tl ∈ uris → reaches_back until tl) →
  ∃ result removed st', QueryDescending uris until limit st = (Ok result, st') ∧ ok st' ∧
    (∀ tl, tl ∈ uris → removable tl (removed tl)) ∧ page_of uris removed until limit result ∧
    ((2 * sum_list_with (λ tl, length (eligible until tl)) uris < itrlimit)%nat →
     Z.of_nat (length result) < limit →
     ∀ tl x, tl ∈ uris → x ∈ eligible until tl → ID x ∉ removed tl → ID x ∈ (λ r, ID (bs_Item r)) <$> result).
Proof.
  intros Hst Hback. unfold QueryDescending.
  destruct (serves_manifests st Hst) as (ms & st1 & Hm & Hst1 & Hms). rewrite (bindM_ok _ _ _ _ _ Hm).
  destruct (serves_removed st1 Hst1) as (gone & st2 & Hg & Hst2 & Hgone). rewrite (bindM_ok _ _ _ _ _ Hg).
  destruct (serves_chunks uris until st2 Hst2) as (chunks & st3 & Hc & Hst3 & Hans); [done|].
  rewrite (bindM_ok _ _ _ _ _ Hc). set (pq := foldl (start until) [] (range chunks)).
  set (removed := λ tl, default [] (gone !! tl)).
  assert (started uris until chunks (range chunks) pq) as Hstarted.
  { apply (starts_ok uris until timelines_ok chunks [] [] (range chunks)).
    - split; cbn; [intros j; lia|apply NoDup_nil_2|by intros ? []%elem_of_nil..|by intros ? ? []%elem_of_nil].
    - cbn [app]. rewrite range_all. apply NoDup_fst_map_to_list.
    - intros tl c Hin. rewrite range_all in Hin. apply elem_of_map_to_list in Hin. specialize (Hans tl).
      destruct (decide (tl ∈ uris)); [|congruence]. rewrite Hin in Hans. auto. }
  destruct Hstarted as [Hheap Hone Hfrom Hlive Hall].
  assert (merging uris removed until chunks pq (λ _ _, False) [] ∅) as Hmerge.
  { split; cbn; [done|done|done| |set_solver|constructor|by intros ? []%elem_of_nil|constructor|by intros ? ? ? []%elem_of_nil].
    - intros tl x Hu Hx. right; right. specialize (Hans tl). rewrite decide_True in Hans by done.
      destruct (chunks !! tl) as [c|] eqn:Hcl.
      + destruct (Hall (tl, c) x) as (q & Hq & ? & ?); [|done|by exists q].
        rewrite range_all. by apply elem_of_map_to_list.
      + exfalso. apply elem_of_eligible in Hx as [Hx Hxu]. pose proof (timelines_ok tl Hu) as Ht.
        assert (x ∈ upto tl (chunk_no tl until)) as Hin; [|rewrite Hans in Hin; by apply elem_of_nil in Hin].
        apply elem_of_upto; [done|]. split; [done|]. apply chunk_no_mono; [apply Ht|lia]. }
  destruct (merge_ok uris removed removable until timelines_ok ok itrlimit limit ms gone chunks pq [] ∅ st3 Hst3 Hms ltac:(done) Hmerge)
    as (result & uniq & chunks' & pq' & st' & Hrun & Hst' & Hfinal & Hlen & Hdone).
  exists result, removed, st'. split; [done|]. split; [done|]. split; [done|].
  destruct Hfinal as [_ _ _ Hall' Huniq Hnd Hsound Hsort Hnew]. split.
  - split; [cbn in Hlen; lia|done|done|done|]. intros r tl x Hr Hu Hx Hnr.
    destruct (Hnew r tl x Hr Hu Hx) as [[?|?]|?]; [left; by apply Huniq|done|by right].
  - intros Hsum Hshort tl x Hu Hx Hnr. pose proof (work_bound uris until timelines_ok chunks pq Hone Hlive) as Hw.
    destruct Hdone as [?| ->]; [lia|lia|].
    destruct (Hall' tl x Hu Hx) as [[?|?]|[[]|(q & []%elem_of_nil & _)]]; [by apply Huniq|done].
Qed.

(** C16: merging timelines of any source that answers as they are, none of
    which is hidden behind its newest chunk - when that chunk, the one of
    [until], holds an item as new as [until], it also holds an older one, or
    nothing older is left - gives a page: at most [limit] items of the timelines
    before [until], newest first, no id twice, none the source says is removed,
    and nothing left out that is newer than an item of the page.  When fewer than
    five hundred items are eligible, a page that is not full holds all that is
    left.  Whatever happens the query ends, and leaves the source as it promises. *)
Theorem QueryDescending_page limit st :
  ok st → (∀ tl, tl ∈ uris → reaches_back until tl) →
  ∃ result removed st', QueryDescending uris until limit st = (Ok result, st') ∧ ok st' ∧
    (∀ tl, tl ∈ uris → removable tl (removed tl)) ∧ page_of uris removed until limit result ∧
    ((2 * sum_list_with (λ tl, length (eligible until tl)) uris < itrlimit)%nat →
     Z.of_nat (length result) < limit →
     ∀ tl x, tl ∈ uris → x ∈ eligible until tl → ID x ∉ removed tl → ID x ∈ (λ r, ID (bs_Item r)) <$> result).
Proof. apply merged_page. Qed.

End Pages.
End Timelines.
