(* ===== verification/Store.v ===== *)
(** * Store: the record repository ([src/internal/infra/repository/postgres/record.go])

    The tables of [src/internal/infra/database/models/core.go] as maps on their
    primary or unique keys, and one function per repository operation.  A
    foreign key or unique violation is an error (PostgreSQL then aborts the
    transaction, so an error carries no state); [ON DELETE CASCADE] is written
    out in [delete_record].  Receipt times are an argument.  Timestamps keep
    the nanoseconds a PostgreSQL column would round to microseconds. *)

From S2P Require Import Prelude Bytes Url Cdid Ccuri Documents PolicyValues.
From stdpp Require Import prelude strings gmap list sorting.
From Stdlib Require Import ZArith Lia Ascii.
Open Scope Z_scope.

(** JSON of the proof and policy columns. *)
Class StoreCodec := {
  marshal_proof : Proof_ → result string;
  unmarshal_proof : string → result Proof_;
  unmarshal_policy : string → result Documents.Policy;
}.

(** The object-relational mapper decides what an [INSERT] stores for a boolean
    field that carries a [default] tag: [create_bool tag value]. *)
Class Orm := { create_bool : bool → bool → bool }.

(** GORM's documentation: a zero value is not saved for a field that defines a
    default; the default is stored instead. *)
Definition zero_takes_default (O : Orm) : Prop := ∀ tag value, @create_bool O tag value = value || tag.
Definition keeps_values (O : Orm) : Prop := ∀ tag value, @create_bool O tag value = value.

(** ** Tables ([models/core.go]) *)

Record CommitLog : Type := mkCommitLog {
  cl_IP : string;
  cl_Document : string;
  cl_Proof : string;
  cl_Owner : string;
  cl_GcCandidate : bool;
  cl_CDate : Z;
}.

Record RecordKey : Type := mkRecordKey {
  rk_ID : nat;
  rk_ParentID : option nat;
  rk_RecordID : option string;
  rk_RecordCreatedAt : option Z;
  rk_CleanOnUpdate : bool;
}.

Record RecordRow : Type := mkRecordRow {
  r_Owner : string;
  r_Author : string;
  r_Redirect : option string;
  r_Schema : string;
  r_Policies : option string;
  r_Distributions : list string;
  r_CreatedAt : Z;
}.

(** [Ack] and [Acked], keyed by (from, to, schema). *)
Record AckRow : Type := mkAckRow {
  ak_DocumentID : string;
  ak_Valid : bool;
  ak_CreatedAt : Z;
}.

Record AssociationRow : Type := mkAssociationRow {
  as_TargetID : nat;
  as_Owner : string;
  as_Author : string;
  as_Schema : string;
  as_Variant : option string;
  as_Unique : string;
  as_CreatedAt : Z;
}.

Record EntityRow : Type := mkEntityRow {
  er_Alias : option string;
  er_Domain : string;
  er_Tag : string;
  er_DocumentID : string;
  er_CreatedAt : Z;
}.

Notation triple := (string * string * string)%type.

Record DB : Type := mkDB {
  commit_logs : gmap string CommitLog;
  records : gmap string RecordRow;
  record_keys : gmap string RecordKey;
  next_key : nat;
  acks : gmap triple AckRow;
  ackeds : gmap triple AckRow;
  associations : gmap string AssociationRow;
  entities : gmap string EntityRow;
}.

Definition empty_db : DB := mkDB ∅ ∅ ∅ 1 ∅ ∅ ∅ ∅.

(** The join of a key with its record. *)
Definition live_record (db : DB) (rk : RecordKey) : option RecordRow :=
  match rk_RecordID rk with Some d => records db !! d | None => None end.

Definition set_commit_logs (db : DB) x :=
  mkDB x (records db) (record_keys db) (next_key db) (acks db) (ackeds db) (associations db) (entities db).
Definition set_records (db : DB) x :=
  mkDB (commit_logs db) x (record_keys db) (next_key db) (acks db) (ackeds db) (associations db) (entities db).
Definition set_keys (db : DB) x n :=
  mkDB (commit_logs db) (records db) x n (acks db) (ackeds db) (associations db) (entities db).
Definition set_acks (db : DB) x :=
  mkDB (commit_logs db) (records db) (record_keys db) (next_key db) x (ackeds db) (associations db) (entities db).
Definition set_ackeds (db : DB) x :=
  mkDB (commit_logs db) (records db) (record_keys db) (next_key db) (acks db) x (associations db) (entities db).
Definition set_associations (db : DB) x :=
  mkDB (commit_logs db) (records db) (record_keys db) (next_key db) (acks db) (ackeds db) x (entities db).
Definition set_entities (db : DB) x :=
  mkDB (commit_logs db) (records db) (record_keys db) (next_key db) (acks db) (ackeds db) (associations db) x.

Definition fk_violation {A} : result A := Err (GoError "violates foreign key constraint").
Definition unique_violation {A} : result A := Err (GoError "violates unique constraint").

(** ** Conditional upsert

    [INSERT ... ON CONFLICT (key) DO UPDATE ... WHERE old.created_at < new.created_at]:
    the row to write, if any; [merge] keeps the columns the update leaves. *)

Section Upsert.
Context {A : Type} (created : A → Z) (merge : A → A → A).

Definition upsert_row (old : option A) (row : A) : option A :=
  match old with
  | None => Some row
  | Some o => if created o <? created row then Some (merge o row) else None
  end.
End Upsert.

(** ** Entities and commit logs *)

Definition merge_entity (old row : EntityRow) : EntityRow :=
  mkEntityRow (er_Alias row) (er_Domain row) (er_Tag old) (er_DocumentID row) (er_CreatedAt row).

Definition CreateEntity (db : DB) (ccid : string) (alias : option string) (domain documentID : string)
    (createdAt : Z) : result (bool * DB) :=
  match upsert_row er_CreatedAt merge_entity (entities db !! ccid)
          (mkEntityRow alias domain "" documentID createdAt) with
  | None => Ok (false, db)
  | Some row =>
      match commit_logs db !! documentID with
      | None => fk_violation
      | Some _ => Ok (true, set_entities db (<[ccid := row]> (entities db)))
      end
  end.

Definition HasCommitLog (db : DB) (id : string) : bool :=
  match commit_logs db !! id with Some _ => true | None => false end.

Definition CreateCommitLog `{StoreCodec} (db : DB) (now : Z) (id ip document : string) (proof : Proof_)
    (owner : string) : result DB :=
  proofBytes ← marshal_proof proof;
  match commit_logs db !! id with
  | Some _ => Ok db
  | None => Ok (set_commit_logs db (<[id := mkCommitLog ip document proofBytes owner false now]> (commit_logs db)))
  end.

Definition flag_gc (c : CommitLog) : CommitLog :=
  mkCommitLog (cl_IP c) (cl_Document c) (cl_Proof c) (cl_Owner c) true (cl_CDate c).

Definition MarkCommitLogGcCandidate (db : DB) (documentID : string) : DB :=
  set_commit_logs db (alter flag_gc documentID (commit_logs db)).

(** [MarkCommitLogsGcCandidateByOwner] of [residence.go]. *)
Definition MarkCommitLogsGcCandidateByOwner (db : DB) (owner : string) : DB :=
  set_commit_logs db ((λ c, if String.eqb (cl_Owner c) owner then flag_gc c else c) <$> commit_logs db).

(** ** Acks *)

(** The table after an upsert; the document id is the primary key, so a row of
    another triple that holds it is a unique violation. *)
Definition created_ack `{Orm} (row : AckRow) : AckRow :=
  mkAckRow (ak_DocumentID row) (create_bool true (ak_Valid row)) (ak_CreatedAt row).

Definition upsert_ack `{Orm} (logs : gmap string CommitLog) (table : gmap triple AckRow) (key : triple) (row : AckRow)
    : result (bool * gmap triple AckRow) :=
  match upsert_row ak_CreatedAt (λ _ r, r) (table !! key) row with
  | None => Ok (false, table)
  | Some row =>
      if existsb (λ '(k, r), String.eqb (ak_DocumentID r) (ak_DocumentID row) && negb (bool_decide (k = key)))
           (map_to_list table) then unique_violation
      else match logs !! ak_DocumentID row with
           | None => fk_violation
           | Some _ => Ok (true, <[key := if table !! key then row else created_ack row]> table)
           end
  end.

Definition processAck `{Orm} (db : DB) (documentID from to_ schema : string) (createdAt : Z) (valid : bool)
    : result (bool * DB) :=
  '(applied, t) ← upsert_ack (commit_logs db) (acks db) (from, to_, schema) (mkAckRow documentID valid createdAt);
  Ok (applied, set_acks db t).

Definition processAcked `{Orm} (db : DB) (documentID from to_ schema : string) (createdAt : Z) (valid : bool)
    : result (bool * DB) :=
  '(applied, t) ← upsert_ack (commit_logs db) (ackeds db) (from, to_, schema) (mkAckRow documentID valid createdAt);
  Ok (applied, set_ackeds db t).

Definition Acknowledge `{Orm} (db : DB) (documentID from to_ schema : string) (createdAt : Z) := processAck db documentID from to_ schema createdAt true.
Definition UnAcknowledge `{Orm} (db : DB) (documentID from to_ schema : string) (createdAt : Z) := processAck db documentID from to_ schema createdAt false.
Definition Acknowledged `{Orm} (db : DB) (documentID from to_ schema : string) (createdAt : Z) := processAcked db documentID from to_ schema createdAt true.
Definition UnAcknowledged `{Orm} (db : DB) (documentID from to_ schema : string) (createdAt : Z) := processAcked db documentID from to_ schema createdAt false.

(** ** Record keys *)

Definition GetRecordKeyByURI (db : DB) (uri : string) : result RecordKey :=
  of_option (NotFoundError "record key" "" "") (record_keys db !! uri).

(** [INSERT] of a placeholder key that must not exist yet. *)
Definition insert_key (db : DB) (uri : string) (parent : option nat) (recordID : option string)
    (createdAt : option Z) (clean : bool) : nat * DB :=
  (next_key db,
   set_keys db (<[uri := mkRecordKey (next_key db) parent recordID createdAt clean]> (record_keys db))
     (S (next_key db))).

Section Keys.
Context `{Url.NetIP}.

Definition parent_uri (uri : string) : result string := Url.JoinPath uri "..".

(** Fuel for the walks up a key's path: one step per byte is more than
    enough ([key_fuel_enough]). *)
Definition key_fuel (uri : string) : nat := S (S (Str.len uri)).

(** The parent's key id, creating placeholder keys up to the owner's root.
    [fuel] bounds the recursion; one unit per path segment is enough. *)
Fixpoint getOrCreateParentRecordKey (fuel : nat) (db : DB) (uri : string) : result (option nat * DB) :=
  match fuel with
  | O => Err OutOfFuel
  | S fuel =>
      parentURI ← parent_uri uri;
      parsed ← Url.Parse parentURI;
      if String.eqb (Url.Path parsed) "" || String.eqb (Url.Path parsed) "/" then Ok (None, db)
      else
        match record_keys db !! parentURI with
        | Some rk => Ok (Some (rk_ID rk), db)
        | None =>
            '(pid, db) ← getOrCreateParentRecordKey fuel db parentURI;
            match record_keys db !! parentURI with
            | Some rk => Ok (Some (rk_ID rk), db)
            | None => let '(id, db) := insert_key db parentURI pid None None false in Ok (Some id, db)
            end
        end
  end.

(** The URI and its ancestors, root first. *)
Fixpoint hierarchy (fuel : nat) (currentURI : string) (acc : list string) : result (list string) :=
  match fuel with
  | O => Err OutOfFuel
  | S fuel =>
      parentURI ← parent_uri currentURI;
      if String.eqb parentURI currentURI then Ok (currentURI :: acc)
      else hierarchy fuel parentURI (currentURI :: acc)
  end.

End Keys.

(** Deleting a record cascades to the key that holds it and to the
    associations that target that key. *)
Definition key_ids (db : DB) (documentID : string) : list nat :=
  (λ p, rk_ID (snd p)) <$>
    filter (λ p, rk_RecordID (snd p) = Some documentID) (map_to_list (record_keys db)).

Definition delete_record (db : DB) (documentID : string) : DB :=
  match records db !! documentID with
  | None => db
  | Some _ =>
      let gone := key_ids db documentID in
      mkDB (commit_logs db) (delete documentID (records db))
        (filter (λ p, rk_RecordID (snd p) ≠ Some documentID) (record_keys db)) (next_key db)
        (acks db) (ackeds db)
        (filter (λ p, as_TargetID (snd p) ∉ gone) (associations db)) (entities db)
  end.

Definition DeleteRecordByDocumentID (db : DB) (documentID : string) : DB := delete_record db documentID.

Definition DeleteRecordByKey (db : DB) (targetURI : string) : DB :=
  match record_keys db !! targetURI with
  | Some rk => match rk_RecordID rk with Some d => delete_record db d | None => db end
  | None => db
  end.

Definition DeleteAssociation (db : DB) (documentID : string) : DB :=
  set_associations db (delete documentID (associations db)).

(** ** Records *)

(** Only a strictly newer document takes a key that holds one. *)
Definition key_taken (old : option RecordKey) (createdAt : Z) : bool :=
  match old with
  | Some k =>
      match rk_RecordID k, rk_RecordCreatedAt k with
      | Some _, Some c => negb (c <? createdAt)
      | _, _ => false
      end
  | None => false
  end.

(** The row is inserted unless the document has one. *)
Definition insert_record (db : DB) (documentID : string) (row : RecordRow) : result DB :=
  match records db !! documentID with
  | Some _ => Ok db
  | None =>
      match commit_logs db !! documentID with
      | None => fk_violation
      | Some _ => Ok (set_records db (<[documentID := row]> (records db)))
      end
  end.

(** The upsert of the key: another key holding the record is a violation. *)
Definition upsert_key (db : DB) (key documentID : string) (parent : option nat) (createdAt : Z) (clean : bool)
    : result (bool * DB) :=
  if key_taken (record_keys db !! key) createdAt then Ok (false, db)
  else if existsb (λ '(u, k), bool_decide (rk_RecordID k = Some documentID) && negb (String.eqb u key))
       (map_to_list (record_keys db)) then unique_violation
  else
    match record_keys db !! key with
    | None => Ok (true, snd (insert_key db key parent (Some documentID) (Some createdAt) clean))
    | Some k => Ok (true, set_keys db
          (<[key := mkRecordKey (rk_ID k) parent (Some documentID) (Some createdAt) clean]> (record_keys db))
          (next_key db))
    end.

(** The replaced document's commit log is flagged and its record removed,
    unless it asked to be retained. *)
Definition retire_old (db : DB) (old : option RecordKey) (documentID : string) : DB :=
  match old with
  | Some k =>
      match rk_RecordID k with
      | Some d =>
          if rk_CleanOnUpdate k && negb (String.eqb d documentID)
          then delete_record (MarkCommitLogGcCandidate db d) d
          else db
      | None => db
      end
  | None => db
  end.

Definition cleanOnUpdate (onUpdate : option string) : bool :=
  match onUpdate with Some s => negb (String.eqb s "retain") | None => true end.

Definition CreateRecord `{Url.NetIP} (fuel : nat) (db : DB) (documentID key owner author schema : string)
    (onUpdate policies : option string) (distributions : list string) (redirect : option string)
    (createdAt : Z) : result (bool * DB) :=
  let old := record_keys db !! key in
  if key_taken old createdAt then Ok (false, db)
  else
    db ← insert_record db documentID
           (mkRecordRow owner author redirect schema policies distributions createdAt);
    '(pid, db) ← getOrCreateParentRecordKey fuel db key;
    '(applied, db) ← upsert_key db key documentID pid createdAt (cleanOnUpdate onUpdate);
    if (applied : bool) then Ok (true, retire_old db old documentID) else Ok (false, db).

(** ** Associations *)

Definition CreateAssociation (db : DB) (documentID targetURI owner author schema : string)
    (variant : option string) (unique : string) (createdAt : Z) : result (bool * DB) :=
  targetRK ← GetRecordKeyByURI db targetURI;
  if bool_decide (is_Some (associations db !! documentID)) ||
     existsb (λ '(_, a), String.eqb (as_Unique a) unique) (map_to_list (associations db))
  then Ok (false, db)
  else
    match commit_logs db !! documentID with
    | None => fk_violation
    | Some _ =>
        Ok (true, set_associations db
          (<[documentID := mkAssociationRow (rk_ID targetRK) owner author schema variant unique createdAt]>
             (associations db)))
    end.

(** ** Reads *)

Definition not_found {A} (uri : string) : result A := Err (NotFoundError uri "" "").

Section Reads.
Context `{Url.NetIP} `{StoreCodec}.

(** A query that finds no row: the domain error joined with the driver's. *)
Definition no_row {A} (uri : string) : result A :=
  Err (Joined (NotFoundError uri "" "") (GoError "record not found")).

Definition key_with_record (db : DB) (documentID : string) : option (string * RecordKey) :=
  head (filter (λ p, rk_RecordID (snd p) = Some documentID) (map_to_list (record_keys db))).

Definition GetSignedDocument (db : DB) (uri : string) : result SignedDocument :=
  parsed ← ParseCCURI uri;
  if String.eqb (Scheme parsed) "cckv" then
    match record_keys db !! uri with
    | None => no_row uri
    | Some rk =>
        match rk_RecordID rk with
        | None => no_row uri
        | Some d =>
            (* the preloaded commit log; a missing row would be the zero value *)
            let log := default (mkCommitLog "" "" "" "" false 0) (commit_logs db !! d) in
            proof ← unmarshal_proof (cl_Proof log);
            Ok (mkSignedDocument (Some uri) (Some (ComposeCCFSURI (Owner parsed) CCFSTypeConcrnt d))
                  (cl_Document log) proof ∅ None)
        end
    end
  else if String.eqb (Scheme parsed) "ccfs" then
    if negb (String.eqb (Type_ parsed) CCFSTypeConcrnt) then not_found uri
    else
      match commit_logs db !! CDID parsed with
      | None => no_row uri
      | Some log =>
          let cckv := fst <$> key_with_record db (CDID parsed) in
          proof ← unmarshal_proof (cl_Proof log);
          Ok (mkSignedDocument cckv (Some uri) (cl_Document log) proof ∅ None)
      end
  else Err (GoError "unsupported uri scheme").

Definition GetDistributions (db : DB) (uri : string) : result (list string) :=
  parsed ← ParseCCURI uri;
  if String.eqb (Scheme parsed) "cckv" then
    match record_keys db !! uri with
    | None => no_row uri
    | Some rk =>
        Ok (match live_record db rk with Some r => r_Distributions r | None => [] end)
    end
  else if String.eqb (Scheme parsed) "ccfs" then
    if negb (String.eqb (Type_ parsed) CCFSTypeConcrnt) then not_found uri
    else match records db !! CDID parsed with Some r => Ok (r_Distributions r) | None => no_row uri end
  else Err (GoError "unsupported uri scheme").

(** The chunkline item a record occupies: its parent key and its href. *)
Definition GetTimelineRemoval (db : DB) (keyURI : string) : result (string * string) :=
  match record_keys db !! keyURI with
  | None => not_found keyURI
  | Some rk =>
      match rk_ParentID rk, rk_RecordCreatedAt rk with
      | Some pid, Some _ =>
          match List.find (λ p, (rk_ID (snd p) =? pid)%nat) (map_to_list (record_keys db)) with
          | None => Err (GoError "record not found")
          | Some (parent, _) =>
              let redirect := match live_record db rk with Some r => r_Redirect r | None => None end in
              Ok (parent, default keyURI redirect)
          end
      | _, _ => Ok ("", "")
      end
  end.

(** One level of the hierarchy: a layer when it declares a policy or
    distributes. *)
Definition policy_layer (db : DB) (uri : string) : result (option Documents.Policy) :=
  match (match record_keys db !! uri with Some rk => live_record db rk | None => None end) with
  | None => Ok None
  | Some r =>
      match r_Policies r, r_Distributions r with
      | None, [] => Ok None
      | p, dists =>
          doc ← match p with Some s => unmarshal_policy s | None => Ok (mkPolicy [] None "") end;
          Ok (Some (mkPolicy (pol_Entries doc) (Some dists) uri))
      end
  end.

Definition policy_layers (db : DB) (uris : list string) : result (list Documents.Policy) :=
  rbind (traverse (policy_layer db) uris) (λ layers : list (option Documents.Policy), Ok (omap id layers)).

Definition GetHierarchicalRecordPolicies (fuel : nat) (db : DB) (uri : string) : result (list Documents.Policy) :=
  parsed ← ParseCCURI uri;
  cckv ← (if String.eqb (Scheme parsed) "ccfs" then
            if negb (String.eqb (Type_ parsed) CCFSTypeConcrnt) then not_found uri
            else match key_with_record db (CDID parsed) with
                 | Some (u, _) => Ok u
                 | None => no_row uri
                 end
          else Ok uri);
  uris ← hierarchy fuel cckv [];
  policy_layers db uris.

(** ** Subtree queries *)

(** [likeEscaper.Replace]: the three metacharacters get a backslash. *)
Fixpoint like_escape (s : string) : string :=
  match s with
  | EmptyString => ""
  | String c s =>
      if Url.one_of "\%_" c then String "\" (String c (like_escape s)) else String c (like_escape s)
  end.

(** SQL [LIKE pat ESCAPE '\']. *)
Fixpoint like (pat : string) (s : string) : bool :=
  match pat with
  | EmptyString => String.eqb s ""
  | String "%" pat =>
      (fix any (s : string) : bool :=
         like pat s || match s with EmptyString => false | String _ s => any s end) s
  | String "_" pat => match s with EmptyString => false | String _ s => like pat s end
  | String "\" (String c pat) =>
      match s with EmptyString => false | String d s => Ascii.eqb c d && like pat s end
  | String c pat =>
      match s with EmptyString => false | String d s => Ascii.eqb c d && like pat s end
  end.

Definition in_subtree (base : string) (includeSelf : bool) (uri : string) : bool :=
  (includeSelf && String.eqb uri base) || like (like_escape base +:+ "/%") uri.

Definition uri_le (p q : string * RecordKey) : Prop := String.leb (fst p) (fst q) = true.
#[local] Instance uri_le_dec : RelDecision uri_le.
Proof. intros p q. unfold uri_le. apply _. Defined.

(** The keys with a record in the subtree, in the byte order of their URIs. *)
Definition subtree_keys (db : DB) (base : string) (includeSelf : bool) : list (string * RecordKey) :=
  merge_sort uri_le
    (List.filter (λ p, bool_decide (is_Some (live_record db (snd p))) && in_subtree base includeSelf (fst p))
       (map_to_list (record_keys db))).

Definition subtree_document (db : DB) (p : string * RecordKey) : result SignedDocument :=
  let d := default "" (rk_RecordID (snd p)) in
  let log := default (mkCommitLog "" "" "" "" false 0) (commit_logs db !! d) in
  let owner := match records db !! d with Some r => r_Owner r | None => "" end in
  proof ← unmarshal_proof (cl_Proof log);
  Ok (mkSignedDocument (Some (fst p)) (Some (ComposeCCFSURI owner CCFSTypeConcrnt d))
        (cl_Document log) proof ∅ None).

Definition QueryRecordSubtree (db : DB) (base : string) (includeSelf : bool) : result (list SignedDocument) :=
  traverse (subtree_document db) (subtree_keys db base includeSelf).

(** ** Entities ([residence.go]) *)

Definition entity_of (db : DB) (ccid : string) (row : EntityRow) : result PolicyValues.Entity :=
  match commit_logs db !! er_DocumentID row with
  | None => Err (NotFoundError "entity" "" "")
  | Some log =>
      proof ← unmarshal_proof (cl_Proof log);
      Ok (PolicyValues.mkEntity ccid (er_Alias row) (er_Domain row) (er_Tag row)
            (Some (signed (cl_Document log) proof)))
  end.

Definition GetEntityByCCID (db : DB) (ccid : string) : result PolicyValues.Entity :=
  match entities db !! ccid with
  | None => Err (NotFoundError "entity" "" "")
  | Some row => entity_of db ccid row
  end.

(** The row with the alias: aliases are not unique; the query takes one. *)
Definition GetEntityByAlias (db : DB) (alias : string) : result PolicyValues.Entity :=
  match List.find (λ p, bool_decide (er_Alias (snd p) = Some alias)) (map_to_list (entities db)) with
  | None => Err (NotFoundError "entity" "" "")
  | Some (ccid, row) => entity_of db ccid row
  end.

End Reads.
