(* ===== verification/Client.v ===== *)
(** * Client: talking to other servers ([src/client/client.go])

    The client finds the server of a resource, fetches and verifies documents,
    remembers what it fetched, and keeps away from hosts that do not answer.
    Its state is the cache, the offline tracking and the number of requests
    sent; [Web] is the outside: the answer to the n-th request and the time
    at which it is sent.  Resolving an owner fetches a record, which resolves
    a server: the recursion is tied with fuel, and [ClientFacts] shows how much
    is enough. *)

From S2P Require Import Prelude Effects Bytes Url Cdid Ccuri Documents Verify Store.
From stdpp Require Import prelude strings gmap list pretty.
From Stdlib Require Import ZArith Lia Ascii.
Open Scope Z_scope.
Open Scope uc_scope.

(** ** Data *)

(** [concrnt.WellKnownConcrnt]: what routing reads of it, and the rest as text. *)
Record WellKnown : Type := mkWellKnown {
  wk_Version : string;
  wk_Domain : string;
  wk_CSID : string;
  wk_Layer : string;
  wk_Endpoints : gmap string string;
}.

Record Options : Type := mkOptions {
  op_Resolver : string;
  op_NoCache : bool;
  op_SkipVerify : bool;
  op_AllowedProofTypes : option (list string);
}.

Definition no_options : Options := mkOptions "" false false None.
Definition at_resolver (resolver : string) : Options := mkOptions resolver false false None.

Record Request : Type := mkRequest { rq_Method : string; rq_URL : string; rq_Accept : string }.

(** [http.Client.Do]: a response, or an error that may be a timeout. *)
Inductive Exchange : Type :=
| Answered (code : Z) (body : string)
| Failed (timeout : bool) (e : error).

Class Web := {
  exchange : nat → Request → Exchange;
  (** The clock when [n] requests have been sent, in nanoseconds. *)
  clock : nat → Z;
}.

(** JSON of a type: [Decode] or [Unmarshal], and [Marshal]. *)
Record Codec (T : Type) : Type := mkCodec { dec : string → result T; enc : T → result string }.
Arguments dec {T} c. Arguments enc {T} c.

Class ClientJson := {
  server_codec : Codec WellKnown;
  signed_codec : Codec SignedDocument;
}.

(** [concrnt.RenderURITemplate], over a third-party package. *)
Class UriTemplate := RenderURITemplate : string → gmap string string → result string.

(** What the cache holds: Go values of three types. *)
Inductive Entry : Type :=
| ServerEntry (wk : WellKnown)
| BytesEntry (bytes : string)
| HashEntry (hash : list Z).

Record Client : Type := mkClient {
  cl_cache : gmap string (Entry * Z);
  cl_lastFailed : gmap string Z;
  cl_failCount : gmap string Z;
  cl_plainHosts : gmap string Z;
  cl_requests : nat;
}.

Definition set_cache (c : Client) m := mkClient m (cl_lastFailed c) (cl_failCount c) (cl_plainHosts c) (cl_requests c).
Definition set_failed (c : Client) m := mkClient (cl_cache c) m (cl_failCount c) (cl_plainHosts c) (cl_requests c).
Definition set_counts (c : Client) m := mkClient (cl_cache c) (cl_lastFailed c) m (cl_plainHosts c) (cl_requests c).
Definition set_plain (c : Client) m := mkClient (cl_cache c) (cl_lastFailed c) (cl_failCount c) m (cl_requests c).
Definition sent_one (c : Client) :=
  mkClient (cl_cache c) (cl_lastFailed c) (cl_failCount c) (cl_plainHosts c) (S (cl_requests c)).

Definition CM (A : Type) : Type := SM Client A.

Definition second : Z := 1000000000.
Definition minute : Z := 60 * second.
Definition hour_ : Z := 60 * minute.
Definition plainHostTTL : Z := hour_.
(** [cache.New(10*time.Minute, ...)] *)
Definition defaultExpiration : Z := 10 * minute.

Definition StatusOK : Z := 200.
Definition is_4xx (code : Z) : bool := (400 <=? code) && (code <? 500).

Definition offline_error : error := GoError "Domain is offline".
Definition ErrNotConcrntServer : error := GoError "not a concrnt server".
Definition ErrEndpointMissing : error := GoError "concrnt endpoint missing".

(** [fmt.Errorf("%w: ...")] and [errors.Is] for the sentinel. *)
Definition not_concrnt (domain : string) : error := Joined ErrNotConcrntServer (GoError domain).
Fixpoint is_not_concrnt (e : error) : bool :=
  match e with
  | GoError msg => String.eqb msg "not a concrnt server"
  | Joined a b => is_not_concrnt a || is_not_concrnt b
  | _ => false
  end.

Definition wrapM {S A} (text : string) (m : SM S A) : SM S A := λ st,
  match m st with (Err e, st) => (Err (Joined (GoError text) e), st) | r => r end.

Section Client.
Context `{Web} `{ClientJson} `{UriTemplate} `{Url.NetIP} `{Json} `{Keccak} `{Secp256k1} `{StoreCodec}.
Context (defaultResolver : string) (resolver : Resolver).

(** ** Time, cache, requests *)

Definition nowM : CM Z := getsM (λ c, clock (cl_requests c)).

(** [cache.Get]: an entry past its expiration is not found. *)
Definition cache_lookup (c : Client) (key : string) : option Entry :=
  match cl_cache c !! key with
  | Some (entry, expiration) => if expiration <? clock (cl_requests c) then None else Some entry
  | None => None
  end.
Definition cache_get (key : string) : CM (option Entry) := getsM (λ c, cache_lookup c key).
Definition cache_set (key : string) (entry : Entry) : CM unit :=
  modifyM (λ c, set_cache c (<[key := (entry, clock (cl_requests c) + defaultExpiration)]> (cl_cache c))).
Definition cache_delete (key : string) : CM unit := modifyM (λ c, set_cache c (delete key (cl_cache c))).

Definition do (req : Request) : CM Exchange := λ c, (Ok (exchange (cl_requests c) req), sent_one c).

(** ** Offline tracking *)

Definition plain_verdict (c : Client) (domain : string) : bool :=
  match cl_plainHosts c !! domain with
  | Some since => clock (cl_requests c) - since <? plainHostTTL
  | None => false
  end.

Definition isPlainHost (domain : string) : CM bool := getsM (λ c, plain_verdict c domain).

(** A failure time is never the zero time, which would count as none. *)
Definition online (c : Client) (domain : string) : bool :=
  if plain_verdict c domain then true
  else match cl_lastFailed c !! domain with Some t => t =? zero_time | None => true end.

Definition IsOnline (domain : string) : CM bool := getsM (λ c, online c domain).

Definition offlineHosts (c : Client) : list string :=
  omap (λ p, if snd p =? zero_time then None else Some (fst p)) (map_to_list (cl_lastFailed c)).

Definition markOffline (domain : string) : CM unit :=
  modifyM (λ c, if plain_verdict c domain then c
                else set_failed c (<[domain := clock (cl_requests c)]> (cl_lastFailed c))).

Definition markPlainHost (domain : string) : CM unit :=
  modifyM (λ c, set_counts (set_failed (set_plain c (<[domain := clock (cl_requests c)]> (cl_plainHosts c)))
                              (delete domain (cl_lastFailed c))) (delete domain (cl_failCount c))).

Definition markOfflineIfTimeout (domain : string) (timeout : bool) : CM unit :=
  if timeout then markOffline domain else retM tt.

(** *** The keeper *)

Definition maxFailCount : Z := 23.

(** [time.Duration(0.5 * 1.5^n) * time.Second], the power exact up to
    [maxFailCount]: whole seconds. *)
Definition probe_span (failCount : Z) : Z :=
  let n := Z.min failCount maxFailCount in 3 ^ n / 2 ^ (n + 1) * second.

Definition well_known_url (domain : string) : string := "https://" +:+ domain +:+ "/.well-known/concrnt".

(** [NewRequestWithContext] parses the URL. *)
Definition new_request (method url accept : string) : result Request :=
  rbind (Url.Parse url) (λ _, Ok (mkRequest method url accept)).

Definition healthCheckDomain (domain : string) : CM unit :=
  let* req := liftM (new_request "GET" (well_known_url domain) "") in
  let* r := do req in
  match r with
  | Failed _ e => failM e
  | Answered code body =>
      if is_4xx code then markPlainHost domain
      else if negb (code =? StatusOK) then
        failM (GoError ("failed to get well-known concrnt from " +:+ domain))
      else let* _ := liftM (dec server_codec body) in retM tt
  end.

(** One host of a tick; [lastFailed] is the tick's copy. *)
Definition keep_host (host : string * Z) : CM unit :=
  let '(domain, lastFailed) := host in
  let* failCount := getsM (λ c, default 0 (cl_failCount c !! domain)) in
  modifyM (λ c, set_counts c (<[domain := failCount]> (cl_failCount c))) ;;
  let* now := nowM in
  if probe_span failCount <? now - lastFailed then
    let* r := tryM (healthCheckDomain domain) in
    match r with
    | Ok _ =>
        modifyM (λ c, set_counts (set_failed c (delete domain (cl_lastFailed c))) (delete domain (cl_failCount c)))
    | _ =>
        modifyM (λ c, set_counts (set_failed c (<[domain := clock (cl_requests c)]> (cl_lastFailed c)))
                   (<[domain := default 0 (cl_failCount c !! domain) + 1]> (cl_failCount c)))
    end
  else retM tt.

(** One tick of [UpKeeper]. *)
Definition UpKeeper : CM unit :=
  let* hosts := getsM (λ c, map_to_list (cl_lastFailed c)) in
  forM keep_host hosts ;; retM tt.

(** ** Servers *)

(** Fetching a resource, one level deeper. *)
Definition Getter : Type := ∀ T, Codec T → string → string → Options → CM T.

Section Body.
Context (get : Getter).

Definition json_accept : string := "application/json".

Definition fetch_server (domain : string) : CM WellKnown :=
  let url := well_known_url domain in
  let* req := wrapM ("failed to create request for well-known concrnt at " +:+ url)
                (liftM (new_request "GET" url "")) in
  let* r := do req in
  match r with
  | Failed timeout e =>
      markOfflineIfTimeout domain timeout ;;
      failM (Joined (GoError ("failed to perform request for well-known concrnt at " +:+ url)) e)
  | Answered code body =>
      if negb (code =? StatusOK) then
        if is_4xx code then markPlainHost domain ;; failM (not_concrnt domain)
        else markOffline domain ;; failM (GoError ("failed to get well-known concrnt from " +:+ url))
      else
        wrapM ("failed to decode well-known concrnt from " +:+ url) (liftM (dec server_codec body))
  end.

Definition GetServer (domainOrCSID : string) (hint : option string) : CM WellKnown :=
  let cacheKey := "server:" +:+ domainOrCSID in
  let* x := cache_get cacheKey in
  match x with
  | Some (ServerEntry wkc) => retM wkc
  | Some _ => panicM
  | None =>
      let* wkc :=
        (if IsCSID domainOrCSID then
           wrapM ("failed to get well-known concrnt for csid " +:+ domainOrCSID)
             (get WellKnown server_codec ("cckv://" +:+ domainOrCSID) json_accept
                (at_resolver (default defaultResolver hint)))
         else
           let* plain := isPlainHost domainOrCSID in
           if (plain : bool) then failM (not_concrnt domainOrCSID)
           else
             let* up := IsOnline domainOrCSID in
             checkM up offline_error ;;
             fetch_server domainOrCSID) in
      cache_set cacheKey (ServerEntry wkc) ;;
      retM wkc
  end.

(** ** Records *)

(** [string(GetHash(append([]byte(sd.Document), proofBytes...)))] *)
Definition docHash (sd : SignedDocument) : result (list Z) :=
  rbind (marshal_proof (sd_Proof sd)) (λ proofBytes, Ok (GetHash (sd_Document sd +:+ proofBytes))).

(** The check of a fetched document, remembered by its content. *)
Definition check_record (uri : string) (opts : Options) (sd : SignedDocument) : CM unit :=
  checkM (match op_AllowedProofTypes opts with Some l => in_list l (pr_Type (sd_Proof sd)) | None => true end)
    (GoError ("proof type " +:+ pr_Type (sd_Proof sd) +:+ " is not allowed for resource " +:+ uri)) ;;
  let verifiedKey := "verified:" +:+ uri in
  let* hash := liftM (docHash sd) in
  let useCache := negb (op_NoCache opts) in
  let* x := cache_get verifiedKey in
  let verified := useCache && match x with Some (HashEntry h) => bool_decide (h = hash) | _ => false end in
  if verified then retM tt
  else
    wrapM ("signature verification failed for resource " +:+ uri) (liftM (Verify resolver sd)) ;;
    if useCache then cache_set verifiedKey (HashEntry hash) else retM tt.

(** The signed document [GetRecord] decodes. *)
Definition GetSignedRecord (uri : string) (opts : Options) : CM SignedDocument :=
  let* sd := wrapM ("failed to get signed document for resource " +:+ uri)
               (get SignedDocument signed_codec uri json_accept opts) in
  (if op_SkipVerify opts then retM tt else check_record uri opts sd) ;;
  retM sd.

Definition GetRecord {T} (decode : any_ → result T) (uri : string) (opts : Options) : CM (Document T) :=
  let* sd := GetSignedRecord uri opts in
  wrapM ("failed to decode document in signed document for resource " +:+ uri)
    (liftM (unmarshal_typed decode (sd_Document sd))).

(** ** Routing *)

(** Only a routing hint: its signature is not checked. *)
Definition entity_options : Options := mkOptions defaultResolver false true None.

Definition resolveResolver (r : string) : CM string :=
  if String.eqb r "" then retM defaultResolver
  else if IsCCID r then
    let* entity := wrapM ("failed to get entity record for ccid " +:+ r)
                     (GetRecord decode_entity (ComposeCCURI "cckv" r "") entity_options) in
    retM (ent_Domain (Value entity))
  else if IsCSID r then
    let* wkc := wrapM ("failed to get server for csid " +:+ r) (GetServer r None) in
    retM (wk_Domain wkc)
  else retM r.

Definition ResolveResourceHost (uri : string) : CM string :=
  let* parsed := wrapM ("invalid cc uri " +:+ uri) (liftM (ParseCCURI uri)) in
  resolveResolver (Ccuri.Owner parsed).

(** The server to ask for a resource. *)
Definition resource_server (parsed : CCURI) (opts : Options) : CM WellKnown :=
  if negb (String.eqb (op_Resolver opts) "") then
    wrapM ("failed to get server for resolver " +:+ op_Resolver opts) (GetServer (op_Resolver opts) None)
  else
    let* domain := wrapM ("failed to resolve default resolver for owner " +:+ Ccuri.Owner parsed)
                     (resolveResolver (Ccuri.Owner parsed)) in
    wrapM ("failed to get server for default resolver " +:+ domain) (GetServer domain None).

Definition resolve_args (parsed : CCURI) (uri : string) : gmap string string :=
  {["owner" := Ccuri.Owner parsed; "key" := Ccuri.Key parsed; "uri" := Url.QueryEscape uri]}.

Definition resolve_endpoint (info : WellKnown) (parsed : CCURI) (uri : string) : result string :=
  match wk_Endpoints info !! "net.concrnt.core.resolve" with
  | None => Err (GoError ("resource endpoint not found in server " +:+ wk_Domain info))
  | Some desc =>
      wrap ("failed to render resource endpoint template for server " +:+ wk_Domain info)
        (RenderURITemplate desc (resolve_args parsed uri))
  end.

Definition ResolveResourceURI (uri : string) (opts : Options) : CM string :=
  let* parsed := wrapM ("invalid cc uri " +:+ uri) (liftM (ParseCCURI uri)) in
  if negb (String.eqb (Ccuri.Scheme parsed) "http") then
    let* info := resource_server parsed opts in
    let* path := liftM (resolve_endpoint info parsed uri) in
    retM ("https://" +:+ wk_Domain info +:+ path)
  else retM uri.

(** [URL.Hostname]: the host without port and brackets. *)
Definition Hostname (u : Url.URL) : string :=
  let host := match Str.cut_last (Url.Host u) ":" with
              | Some (h, port) => if Url.validOptionalPort (":" +:+ port) then h else Url.Host u
              | None => Url.Host u
              end in
  if Str.has_prefix host "[" && Str.has_suffix host "]"
  then Str.trim_suffix (Str.trim_prefix host "[") "]" else host.

Definition resource_key (uri accept : string) : string := "resource:" +:+ uri +:+ ":" +:+ accept.

(** The request itself, and keeping its answer. *)
Definition fetch_resource {T} (codec : Codec T) (uri accept endpoint : string) (opts : Options) : CM T :=
  let* endpointURL := wrapM ("failed to parse endpoint for resource " +:+ uri) (liftM (Url.Parse endpoint)) in
  let domain := Hostname endpointURL in
  let* up := IsOnline domain in
  checkM (String.eqb domain "" || up) offline_error ;;
  let* req := wrapM ("failed to create request for resource " +:+ uri) (liftM (new_request "GET" endpoint accept)) in
  let* r := do req in
  match r with
  | Failed timeout e =>
      markOfflineIfTimeout domain timeout ;;
      failM (Joined (GoError ("failed to perform request for resource " +:+ uri)) e)
  | Answered code body =>
      checkM (code =? StatusOK) (GoError ("failed to get resource " +:+ uri)) ;;
      let* res := wrapM ("failed to decode resource " +:+ uri) (liftM (dec codec body)) in
      (if op_NoCache opts then retM tt
       else
         let* bytes := wrapM ("failed to marshal resource for caching for uri " +:+ uri) (liftM (enc codec res)) in
         cache_set (resource_key uri accept) (BytesEntry bytes)) ;;
      retM res
  end.

Definition get_resource {T} (codec : Codec T) (uri accept : string) (opts : Options) : CM T :=
  let* x := cache_get (resource_key uri accept) in
  match (if op_NoCache opts then None else x) with
  | Some (BytesEntry bytes) =>
      wrapM ("failed to unmarshal cached resource for uri " +:+ uri) (liftM (dec codec bytes))
  | Some _ => panicM
  | None =>
      let* endpoint := ResolveResourceURI uri opts in
      fetch_resource codec uri accept endpoint opts
  end.

End Body.

Fixpoint GetResource (fuel : nat) (T : Type) (codec : Codec T) (uri accept : string) (opts : Options) : CM T :=
  match fuel with
  | O => failM OutOfFuel
  | S fuel => get_resource (GetResource fuel) codec uri accept opts
  end.

(** ** Calls of named endpoints *)

Section Calls.
Context (fuel : nat).

(** The server a resolver names. *)
Definition target_server (r : string) : CM WellKnown :=
  let* domain := wrapM ("failed to resolve resolver " +:+ r) (resolveResolver (GetResource fuel) r) in
  checkM (negb (String.eqb domain "")) (GoError "resolver cannot be empty") ;;
  wrapM ("failed to get server for resolver " +:+ domain) (GetServer (GetResource fuel) domain None).

Definition endpoint_path (server : WellKnown) (endpoint : string) (missing : error) (args : gmap string string)
    : result string :=
  match wk_Endpoints server !! endpoint with
  | None => Err missing
  | Some desc =>
      wrap ("failed to render endpoint template for server " +:+ wk_Domain server) (RenderURITemplate desc args)
  end.

Definition ensure_online (server : WellKnown) : CM unit :=
  let* up := IsOnline (wk_Domain server) in
  checkM up offline_error.

(** One request to a server; the body of a 200 answer. *)
Definition request_server (server : WellKnown) (method url accept what : string) : CM string :=
  let* req := wrapM ("failed to create request for " +:+ what) (liftM (new_request method url accept)) in
  let* r := do req in
  match r with
  | Failed timeout e =>
      markOfflineIfTimeout (wk_Domain server) timeout ;;
      failM (Joined (GoError ("failed to perform " +:+ what)) e)
  | Answered code body => checkM (code =? StatusOK) (GoError ("failed to " +:+ what)) ;; retM body
  end.

Definition check_query (prefix parent orderBy order : string) : result unit :=
  if negb (String.eqb prefix "") && negb (String.eqb parent "") then
    Err (GoError "prefix and parent cannot be specified at the same time")
  else if negb (in_list [""; "asc"; "desc"] order) then Err (GoError ("invalid order parameter: " +:+ order))
  else if negb (in_list [""; "createdAt"; "key"] orderBy) then Err (GoError ("invalid orderby parameter: " +:+ orderBy))
  else if String.eqb orderBy "key" && negb (String.eqb prefix "") then
    Err (GoError "orderby=key is only available with parent")
  else Ok tt.

Definition set_arg (key value : string) (args : gmap string string) : gmap string string :=
  if String.eqb value "" then args else <[key := value]> args.

(** A page of a remote query; [since] and [until] are the bounds as text,
    [None] for an absent time. *)
Definition query_args (prefix parent schema author orderBy : string) (since until : option string)
    (sinceKey untilKey : string) (limit : Z) (order : string) : gmap string string :=
  let args := set_arg "author" author (set_arg "schema" schema (set_arg "parent" parent (set_arg "prefix" prefix ∅))) in
  let args :=
    if String.eqb orderBy "key" then
      set_arg "until" untilKey (set_arg "since" sinceKey (<["orderby" := orderBy]> args))
    else
      let args := set_arg "orderby" orderBy args in
      let args := match since with Some t => <["since" := t]> args | None => args end in
      match until with Some t => <["until" := t]> args | None => args end in
  let args := if 0 <? limit then <["limit" := pretty limit]> args else args in
  set_arg "order" order args.

Definition Query (r prefix parent schema author orderBy : string) (since until : option string)
    (sinceKey untilKey : string) (limit : Z) (order : string) {T} (codec : Codec T) : CM T :=
  liftM (check_query prefix parent orderBy order) ;;
  let* server := target_server r in
  let* path := liftM (endpoint_path server "net.concrnt.core.query"
                 (Joined (GoError ("query endpoint not found in server " +:+ wk_Domain server)) ErrEndpointMissing)
                 (query_args prefix parent schema author orderBy since until sinceKey untilKey limit order)) in
  let url := "https://" +:+ wk_Domain server +:+ path in
  ensure_online server ;;
  let* body := request_server server "GET" url json_accept ("query to " +:+ url) in
  wrapM ("failed to decode query response from " +:+ url) (liftM (dec codec body)).

Definition Call (r endpoint : string) (params : gmap string string) (opts : Options) {T} (codec : Codec T) : CM T :=
  let* server := target_server r in
  let* path := liftM (endpoint_path server endpoint
                 (Joined (GoError ("endpoint " +:+ endpoint +:+ " not found in server " +:+ wk_Domain server))
                    ErrEndpointMissing) params) in
  let url := "https://" +:+ wk_Domain server +:+ path in
  let cacheKey := "call:" +:+ url in
  let* x := cache_get cacheKey in
  match (if op_NoCache opts then None else x) with
  | Some (BytesEntry bytes) =>
      wrapM ("failed to unmarshal cached call response for " +:+ url) (liftM (dec codec bytes))
  | Some _ => panicM
  | None =>
      ensure_online server ;;
      let* body := request_server server "GET" url json_accept ("call to " +:+ url) in
      let* res := wrapM ("failed to decode call response from " +:+ url) (liftM (dec codec body)) in
      (if op_NoCache opts then retM tt
       else
         let* bytes := wrapM ("failed to marshal call response for caching for " +:+ url) (liftM (enc codec res)) in
         cache_set cacheKey (BytesEntry bytes)) ;;
      retM res
  end.

(** A commit to another server; [defaultResolver] is taken as it is. *)
Definition Commit (r : string) (sd : SignedDocument) : CM unit :=
  let* host := (if String.eqb r "" || String.eqb r defaultResolver then retM defaultResolver
                else wrapM ("failed to resolve resolver " +:+ r) (resolveResolver (GetResource fuel) r)) in
  checkM (negb (String.eqb host "")) (GoError "resolver cannot be empty") ;;
  let* server := wrapM ("failed to get server for resolver " +:+ host) (GetServer (GetResource fuel) host None) in
  let* path := liftM (endpoint_path server "net.concrnt.core.commit"
                 (GoError ("commit endpoint not found in server " +:+ wk_Domain server)) ∅) in
  let url := "https://" +:+ wk_Domain server +:+ path in
  ensure_online server ;;
  let* _ := wrapM ("failed to marshal signed document for commit to " +:+ url) (liftM (enc signed_codec sd)) in
  let* _ := request_server server "POST" url "" ("commit to " +:+ url) in
  retM tt.
End Calls.

Definition InvalidateResource (uri : string) : CM unit :=
  cache_delete (resource_key uri json_accept) ;;
  cache_delete ("verified:" +:+ uri).

(** ** Remapped hosts *)

(** Only a target with an http scheme and a host is installed. *)
Definition AddHostRemapping (remappings : gmap string Url.URL) (host target : string) : gmap string Url.URL :=
  match Url.Parse target with
  | Ok parsed =>
      if in_list ["http"; "https"] (Url.Scheme parsed) && negb (String.eqb (Url.Host parsed) "")
      then <[host := parsed]> remappings else remappings
  | _ => remappings
  end.

(** Scheme and host a request for [host] is sent to. *)
Definition RoundTrip (remappings : gmap string Url.URL) (scheme host : string) : string * string :=
  match remappings !! host with
  | Some remap => (Url.Scheme remap, Url.Host remap)
  | None => (scheme, host)
  end.

End Client.
