(* ===== verification/ResourceBatch.v ===== *)
(** * ResourceBatch: many requests in one ([src/client/resource_batch.go], [batch.go])

    The client asks a server for many resources in one multipart request when
    the server offers it, and one by one otherwise.  Parts are told apart by
    their Content-ID.  Writing and parsing the multipart body is the standard
    library's; the requests that run concurrently are modelled one after the
    other.  Opening a realtime feed is here as well. *)

From S2P Require Import Prelude Effects Bytes Numbers Url Cdid Ccuri Documents Verify Store Client.
From stdpp Require Import prelude strings gmap list.
From Stdlib Require Import ZArith Lia Ascii.
Open Scope Z_scope.
Open Scope uc_scope.

(** What [NextPart] and [http.ReadResponse] yield: a part with its Content-ID,
    status and body, or the error the answer ends with. *)
Inductive RawReply : Type :=
| ReplyRead (contentID : string) (response : result (Z * string))
| ReplyFailed (e : error).

(** [http.Client.Do] of a multipart request; [media] is what
    [mime.ParseMediaType] makes of the answer's type. *)
Inductive BatchExchange : Type :=
| BatchFailed (timeout : bool) (e : error)
| BatchAnswered (code : Z) (media : result (string * string)) (raw : list RawReply).

(** The answer to the n-th request, when it is a batch: by the endpoint and the
    parts under their Content-IDs. *)
Class BatchWeb := batch_exchange : nat → string → gmap string Request → BatchExchange.

Record resourceBatchItem : Type := mkItem {
  it_index : nat;
  it_uri : string;
  it_endpoint : string;
  it_batchEndpoint : string;
}.

Section Batches.
Context `{Web} `{BatchWeb} `{ClientJson} `{UriTemplate} `{Url.NetIP} `{Json} `{Keccak} `{Secp256k1} `{StoreCodec}.
Context (defaultResolver : string) (resolver : Resolver) (fuel : nat).
#[local] Notation get := (GetResource defaultResolver resolver fuel).

(** ** One batch request *)

(** [Request.Write] refuses a request without a host. *)
Definition writable (req : Request) : result unit :=
  u ← Url.Parse (rq_URL req);
  if String.eqb (Url.Host u) "" then Err (GoError "http: Request.Write on Request with no Host or URL set") else Ok tt.

(** The parts of the answer; those nobody asked for are skipped, and the last
    one of an id counts. *)
Fixpoint read_replies (requests : gmap string Request) (raw : list RawReply) (m : gmap string (Z * string))
    : result (gmap string (Z * string)) :=
  match raw with
  | [] => Ok m
  | ReplyFailed e :: _ => Err e
  | ReplyRead contentID response :: raw =>
      if decide (is_Some (requests !! contentID)) then
        r ← response; read_replies requests raw (<[contentID := r]> m)
      else read_replies requests raw m
  end.

Definition batch_replies (requests : gmap string Request) (code : Z) (media : result (string * string)) (raw : list RawReply)
    : result (gmap string (Z * string)) :=
  _ ← (if code =? StatusOK then Ok tt else Err (GoError ("batch request failed: status code " +:+ FormatInt code)));
  m ← media;
  _ ← (if String.eqb (fst m) "multipart/mixed" then Ok tt
       else Err (GoError ("expected multipart/mixed response, got " +:+ fst m)));
  _ ← (if String.eqb (snd m) "" then Err (GoError "missing multipart boundary") else Ok tt);
  read_replies requests raw ∅.

(** The answers by id, and whether a failure was a timeout. *)
Definition DoBatchRequestWithClient (endpoint : string) (requests : gmap string Request)
    : CM (gmap string (Z * string) + bool * error) :=
  match traverse (λ p, writable (snd p)) (map_to_list requests), Url.Parse endpoint with
  | Panic, _ | _, Panic => panicM
  | Err e, _ | Ok _, Err e => retM (inr (false, e))
  | Ok _, Ok _ =>
      λ c, let sent := sent_one c in
      match batch_exchange (cl_requests c) endpoint requests with
      | BatchFailed timeout e => (Ok (inr (timeout, e)), sent)
      | BatchAnswered code media raw =>
          match batch_replies requests code media raw with
          | Ok m => (Ok (inl m), sent)
          | Err e => (Ok (inr (false, e)), sent)
          | Panic => (Panic, sent)
          end
      end
  end.

(** ** Many resources *)

Definition batch_key (uri : string) : string := "resource:" +:+ uri.

Definition batch_path (info : WellKnown) (desc : string) : result string :=
  wrap ("failed to render batch endpoint template for server " +:+ wk_Domain info) (RenderURITemplate desc ∅).

(** [None] is a resource to be fetched by itself. *)
Definition resolveResourceBatchItem (index : nat) (uri : string) (opts : Options) : CM (option resourceBatchItem) :=
  let* parsed := wrapM ("invalid cc uri " +:+ uri) (liftM (ParseCCURI uri)) in
  if String.eqb (Ccuri.Scheme parsed) "http" then retM None
  else
    let* info := resource_server defaultResolver resolver get parsed opts in
    let* resolvePath := liftM (resolve_endpoint info parsed uri) in
    match wk_Endpoints info !! "net.concrnt.core.batch" with
    | None => retM None
    | Some batchDesc =>
        let* batchPath := liftM (batch_path info batchDesc) in
        retM (Some (mkItem index uri ("https://" +:+ wk_Domain info +:+ resolvePath) ("https://" +:+ wk_Domain info +:+ batchPath)))
    end.

Section Results.
Context {T : Type} (codec : Codec T) (accept : string) (opts : Options).

(** [strconv.Itoa] of the index. *)
Definition item_id (item : resourceBatchItem) : string := FormatInt (Z.of_nat (it_index item)).

Definition item_request (item : resourceBatchItem) : result (string * Request) :=
  rbind (wrap ("failed to create request for resource " +:+ it_uri item) (new_request "GET" (it_endpoint item) accept))
    (λ req, Ok (item_id item, req)).

(** The answer of one item enters the results and the cache. *)
Definition keep_reply (responses : gmap string (Z * string)) (results : list (option T)) (item : resourceBatchItem)
    : CM (list (option T)) :=
  match responses !! item_id item with
  | None => failM (GoError ("missing batch response for resource " +:+ it_uri item))
  | Some (code, body) =>
      checkM (code =? StatusOK) (GoError ("failed to get resource " +:+ it_uri item +:+ ": status code " +:+ FormatInt code)) ;;
      let* res := wrapM ("failed to decode resource " +:+ it_uri item) (liftM (dec codec body)) in
      (if op_NoCache opts then retM tt
       else
         let* bytes := wrapM ("failed to marshal resource for caching for uri " +:+ it_uri item) (liftM (enc codec res)) in
         cache_set (batch_key (it_uri item)) (BytesEntry bytes)) ;;
      retM (<[it_index item := Some res]> results)
  end.

Fixpoint keep_replies (responses : gmap string (Z * string)) (items : list resourceBatchItem) (results : list (option T))
    : CM (list (option T)) :=
  match items with
  | [] => retM results
  | item :: items => let* results := keep_reply responses results item in keep_replies responses items results
  end.

Definition getResourceBatchGroup (batchEndpoint : string) (items : list resourceBatchItem) (results : list (option T))
    : CM (list (option T)) :=
  let* endpointURL := wrapM ("failed to parse batch endpoint " +:+ batchEndpoint) (liftM (Url.Parse batchEndpoint)) in
  let domain := Hostname endpointURL in
  let* up := IsOnline domain in
  checkM (String.eqb domain "" || up) offline_error ;;
  let* requests := liftM (traverse item_request items) in
  let* r := DoBatchRequestWithClient batchEndpoint (list_to_map requests) in
  match r with
  | inr (timeout, e) =>
      markOfflineIfTimeout domain timeout ;;
      failM (Joined (GoError ("failed to perform batch request to " +:+ batchEndpoint)) e)
  | inl responses => keep_replies responses items results
  end.

(** The first pass: cached, grouped by endpoint, or left for single requests. *)
Record Sorted : Type := mkSorted {
  so_results : list (option T);
  batchGroups : gmap string (list resourceBatchItem);
  fallbackIndexes : list nat;
}.

Definition sort_item (s : Sorted) (i : nat) (uri : string) : CM Sorted :=
  let* x := cache_get (batch_key uri) in
  match (if op_NoCache opts then None else x) with
  | Some (BytesEntry bytes) =>
      let* v := wrapM ("failed to unmarshal cached resource for uri " +:+ uri) (liftM (dec codec bytes)) in
      retM (mkSorted (<[i := Some v]> (so_results s)) (batchGroups s) (fallbackIndexes s))
  | Some _ => panicM
  | None =>
      let* item := resolveResourceBatchItem i uri opts in
      retM (match item with
            | None => mkSorted (so_results s) (batchGroups s) (fallbackIndexes s ++ [i])
            | Some item =>
                mkSorted (so_results s)
                  (<[it_batchEndpoint item := default [] (batchGroups s !! it_batchEndpoint item) ++ [item]]> (batchGroups s))
                  (fallbackIndexes s)
            end)
  end.

(** [targets] says which decode targets are not nil. *)
Fixpoint sort_items (s : Sorted) (i : nat) (uris : list string) (targets : list bool) : CM Sorted :=
  match uris, targets with
  | uri :: uris, target :: targets =>
      checkM target (GoError ("nil result target for resource " +:+ uri)) ;;
      let* s := sort_item s i uri in
      sort_items s (S i) uris targets
  | _, _ => retM s
  end.

Fixpoint fetch_groups (groups : list (string * list resourceBatchItem)) (results : list (option T)) : CM (list (option T)) :=
  match groups with
  | [] => retM results
  | (batchEndpoint, items) :: groups =>
      let* results := getResourceBatchGroup batchEndpoint items results in
      fetch_groups groups results
  end.

(** Every index is fetched, whatever the others answer; the errors are joined. *)
Fixpoint fetch_singles (indexes : list nat) (uris : list string) (results : list (option T)) (err : option error)
    : CM (list (option T)) :=
  match indexes with
  | [] => match err with None => retM results | Some e => failM e end
  | i :: indexes =>
      let* r := tryM (get T codec (nth i uris "") accept opts) in
      match r with
      | Ok v => fetch_singles indexes uris (<[i := Some v]> results) err
      | Err e => fetch_singles indexes uris results (Some (match err with None => e | Some e0 => Joined e0 e end))
      | Panic => panicM
      end
  end.

Definition GetResourceBatch (uris : list string) (targets : list bool) : CM (list (option T)) :=
  checkM (length uris =? length targets)%nat (GoError "uris and results length mismatch") ;;
  let* s := sort_items (mkSorted (replicate (length uris) None) ∅ []) 0 uris targets in
  let* results := fetch_groups (map_to_list (batchGroups s)) (so_results s) in
  fetch_singles (fallbackIndexes s) uris results None.
End Results.

(** ** Requests by domain *)

(** A request that cannot be made is left out. *)
Definition plain_request (p : string * string) : option (string * Request) :=
  match new_request "GET" (snd p) "" with Ok req => Some (fst p, req) | _ => None end.

(** One request of a server without a batch endpoint. *)
Definition plain_get (domain : string) (p : string * string) (responses : gmap string (Z * string))
    : CM (gmap string (Z * string)) :=
  match new_request "GET" (snd p) "" with
  | Ok req =>
      let* r := do req in
      match r with
      | Failed timeout _ => markOfflineIfTimeout domain timeout ;; retM responses
      | Answered code body => retM (<[fst p := (code, body)]> responses)
      end
  | _ => retM responses
  end.

Fixpoint plain_gets (domain : string) (reqs : list (string * string)) (responses : gmap string (Z * string))
    : CM (gmap string (Z * string)) :=
  match reqs with
  | [] => retM responses
  | p :: reqs => let* responses := plain_get domain p responses in plain_gets domain reqs responses
  end.

(** What a host offers; one that is not a concrnt server offers nothing. *)
Definition batch_server (domain : string) : CM (option WellKnown) :=
  let* r := tryM (GetServer defaultResolver get domain None) in
  match r with
  | Ok info => retM (Some info)
  | Err e => retM (if is_not_concrnt e then Some (mkWellKnown "" "" "" "" ∅) else None)
  | Panic => panicM
  end.

(** A domain that is offline or fails loses its own keys. *)
Definition get_domain (domain : string) (reqs : gmap string string) (responses : gmap string (Z * string))
    : CM (gmap string (Z * string)) :=
  let* up := IsOnline domain in
  if negb up then retM responses
  else
    let* server := batch_server domain in
    match server with
    | None => retM responses
    | Some info =>
        match wk_Endpoints info !! "net.concrnt.core.batch" with
        | None => plain_gets domain (map_to_list reqs) responses
        | Some desc =>
            match batch_path info desc with
            | Panic => panicM
            | Err _ => retM responses
            | Ok path =>
                let* r := DoBatchRequestWithClient ("https://" +:+ wk_Domain info +:+ path)
                            (list_to_map (omap plain_request (map_to_list reqs))) in
                retM (match r with inl m => m ∪ responses | inr _ => responses end)
            end
        end
    end.

Fixpoint get_domains (domains : list (string * gmap string string)) (responses : gmap string (Z * string))
    : CM (gmap string (Z * string)) :=
  match domains with
  | [] => retM responses
  | (domain, reqs) :: domains =>
      let* responses := get_domain domain reqs responses in
      get_domains domains responses
  end.

Definition BatchGet (requests : gmap string (gmap string string)) : CM (gmap string (Z * string)) :=
  get_domains (map_to_list requests) ∅.

(** ** The realtime feed of a server *)

(** [Dialer.DialContext] as the n-th request. *)
Context (dial : nat → string → result unit).

Definition realtime_url (domain path : string) : string :=
  Url.String_ (Url.mkURL "wss" "" None domain path "" false false "" "" "").

(** A host that does not take the connection is offline. *)
Definition Realtime (fqdn : string) : CM unit :=
  let* server := wrapM ("failed to get server for realtime connection to " +:+ fqdn) (GetServer defaultResolver get fqdn None) in
  match wk_Endpoints server !! "net.concrnt.core.realtime" with
  | None => failM (GoError ("realtime endpoint not found in server " +:+ wk_Domain server))
  | Some desc =>
      let* path := liftM (wrap ("failed to render realtime endpoint template for server " +:+ wk_Domain server)
                            (RenderURITemplate desc ∅)) in
      let domain := wk_Domain server in
      let* up := IsOnline domain in
      checkM up offline_error ;;
      let* r := (λ c, (Ok (dial (cl_requests c) (realtime_url domain path)), sent_one c)) in
      match r with
      | Ok _ => retM tt
      | Err e => markOffline domain ;; failM e
      | Panic => panicM
      end
  end.
End Batches.
