(* ===== verification/Gateway.v ===== *)
(** * Gateway: timelines of other servers, through a cache
      ([gateway/chunkline_gateway.go])

    The reader's resolver.  Manifests, iterators, bodies and lists of removed
    items are kept in memcached; what is missing is fetched from the timelines'
    servers.  The latest chunk is cached only while the timeline is subscribed:
    events then keep the entry up to date. *)

From S2P Require Import Prelude Effects Bytes Url Documents Numbers Heap Chunkline Client.
From stdpp Require Import prelude strings gmap list.
From Stdlib Require Import ZArith Lia Ascii.
Open Scope Z_scope.
Open Scope uc_scope.

(** ** What the gateway stands on *)

(** memcached.  An operation's error is logged and otherwise ignored, so it is
    not part of the result; a lookup that fails is a miss. *)
Class Memcached (C : Type) := {
  mc_Get : string → C → option string;
  mc_GetMulti : list string → C → gmap string string;
  mc_Set : string → string → C → C;
  mc_Add : string → string → C → C;
  mc_Replace : string → string → C → C;
  mc_Prepend : string → string → C → C;
  mc_Delete : string → C → C;
}.

(** What every entry goes back to.  Entries may be lost at any time; a write
    takes or its entry is lost. *)
Class MemcachedLaws (C : Type) `{Memcached C} := {
  GetMulti_law ks c k v : mc_GetMulti ks c !! k = Some v → k ∈ ks ∧ mc_Get k c = Some v;
  Set_law k v c j w : mc_Get j (mc_Set k v c) = Some w → if decide (j = k) then w = v else mc_Get j c = Some w;
  Add_law k v c j w : mc_Get j (mc_Add k v c) = Some w → mc_Get j c = Some w ∨ (j = k ∧ mc_Get k c = None ∧ w = v);
  Replace_law k v c j w : mc_Get j (mc_Replace k v c) = Some w → if decide (j = k) then w = v ∧ is_Some (mc_Get k c) else mc_Get j c = Some w;
  Prepend_law k v c j w : mc_Get j (mc_Prepend k v c) = Some w →
    if decide (j = k) then ∃ old, mc_Get k c = Some old ∧ w = v +:+ old else mc_Get j c = Some w;
  Delete_law k c j w : mc_Get j (mc_Delete k c) = Some w → j ≠ k ∧ mc_Get j c = Some w;
}.

(** JSON of what is cached.  A slice may be nil. *)
Class GatewayJson := {
  manifest_codec : Codec Manifest;
  ids_codec : Codec (option (list string));
  item_text : BodyItem → result string;
  unmarshal_items : string → result (option (list BodyItem));
  (** [json.NewDecoder(r).Decode], which reads the first value only. *)
  decode_items : string → result (option (list BodyItem));
}.

Record Response : Type := mkResponse { StatusCode : Z; rs_Body : result string }.

(** The client ([src/client]): a manifest, the host of a timeline, and one
    batch of requests, answered by domain and timeline. *)
Class TimelineClient := {
  fetch_manifest : string → result Manifest;
  ResolveResourceHost : string → result string;
  BatchGet : gmap string (gmap string string) → result (gmap string Response);
}.

(** ** [strings.TrimSpace] *)

Definition spaces : list string :=
  string_of <$> [[9]; [10]; [11]; [12]; [13]; [32]; [194; 133]; [194; 160]; [225; 154; 128]; [226; 128; 128]; [226; 128; 129];
    [226; 128; 130]; [226; 128; 131]; [226; 128; 132]; [226; 128; 133]; [226; 128; 134]; [226; 128; 135]; [226; 128; 136];
    [226; 128; 137]; [226; 128; 138]; [226; 128; 168]; [226; 128; 169]; [226; 128; 175]; [226; 129; 159]; [227; 128; 128]].

Fixpoint trim_left (fuel : nat) (s : string) : string :=
  match fuel, List.find (Str.has_prefix s) spaces with
  | S fuel, Some sp => trim_left fuel (Str.drop (Str.len sp) s)
  | _, _ => s
  end.

Fixpoint trim_right (fuel : nat) (s : string) : string :=
  match fuel, List.find (Str.has_suffix s) spaces with
  | S fuel, Some sp => trim_right fuel (Str.trim_suffix s sp)
  | _, _ => s
  end.

Definition TrimSpace (s : string) : string :=
  trim_right (Str.len s) (trim_left (Str.len s) s).

(** ** Keys and values of the cache *)

Definition manifestCacheKey (timeline : string) : string := "chunkline_manifest:" +:+ timeline.
Definition itrCacheKey (timeline : string) (chunkID : Z) : string :=
  "chunkline_itr:" +:+ timeline +:+ ":" +:+ FormatInt chunkID.
Definition bodyCacheKey (timeline chunkID : string) : string :=
  "chunkline_body:" +:+ timeline +:+ ":" +:+ chunkID.
Definition removedCacheKey (timeline : string) : string := "chunkline_removed:" +:+ timeline.
Definition removedFreshKey (timeline : string) : string := "chunkline_removed_fresh:" +:+ timeline.

(** [json.Marshal] of a slice of items. *)
Definition marshal_items `{GatewayJson} (items : option (list BodyItem)) : result string :=
  match items with
  | None => Ok "null"
  | Some items =>
      texts ← traverse item_text items;
      Ok ("[" +:+ Str.join texts "," +:+ "]")
  end.

(** A body is kept without its brackets, behind a comma, so that items can be
    prepended. *)
Definition body_entry (serialized : string) : string :=
  "," +:+ Str.take (Str.len serialized - 2) (Str.drop 1 serialized).

(** [slices.SortStableFunc], newest first. *)
Fixpoint insert_item (x : BodyItem) (l : list BodyItem) : list BodyItem :=
  match l with
  | [] => [x]
  | y :: l' => if Timestamp y <=? Timestamp x then x :: l else y :: insert_item x l'
  end.
Definition newest_first (l : list BodyItem) : list BodyItem := foldr insert_item [] l.

Definition read_entry `{GatewayJson} (text : string) : result (list BodyItem) :=
  if String.eqb text "" then Panic
  else
    items ← unmarshal_items ("[" +:+ Str.drop 1 text +:+ "]");
    Ok (newest_first (default [] items)).

(** An entry written before sizes were checked counts as missing. *)
Definition cached_manifest `{GatewayJson} (text : string) : option Manifest :=
  match dec manifest_codec text with
  | Ok manifest => if 0 <? ChunkSize manifest then Some manifest else None
  | _ => None
  end.

(** ** The resolver *)

Section Gateway.
Context {C : Type} `{Memcached C} `{GatewayJson} `{TimelineClient} `{UriTemplate} `{Url.NetIP}.

(** The clock, the subscriptions in demand on this replica and, where the
    singleton workers run, the ones that are open. *)
Context (now : Z) (demand : list string) (open : option (list string)).

(** An error is logged and its timeline skipped. *)
Definition skip_error {A} (r : result A) : SM C (option A) :=
  match r with Ok a => retM (Some a) | Err _ => retM None | Panic => panicM end.

Definition fetch_timeline (timeline : string) : result Manifest :=
  manifest ← fetch_manifest timeline;
  if ChunkSize manifest <=? 0 then Err (GoError ("resource " +:+ timeline +:+ " is not a chunkline timeline"))
  else Ok manifest.

Definition cache_manifest (timeline : string) (manifest : Manifest) : SM C unit :=
  match enc manifest_codec manifest with
  | Ok bytes => modifyM (mc_Set (manifestCacheKey timeline) bytes)
  | _ => retM tt
  end.

Definition resolveTimeline (timeline : string) : SM C Manifest :=
  let* item := getsM (mc_Get (manifestCacheKey timeline)) in
  match item ≫= cached_manifest with
  | Some manifest => retM manifest
  | None =>
      let* manifest := liftM (fetch_timeline timeline) in
      cache_manifest timeline manifest ;;
      retM manifest
  end.

Definition ResolveTimelines_ (timelines : list string) : SM C (gmap string Manifest) :=
  let* items := getsM (mc_GetMulti (manifestCacheKey <$> timelines)) in
  let cached := λ tl, (items !! manifestCacheKey tl) ≫= cached_manifest in
  let remaining := List.filter (λ tl, match cached tl with Some _ => false | None => true end) timelines in
  collectM (λ tl,
    let* r := skip_error (fetch_timeline tl) in
    match r with
    | Some manifest => cache_manifest tl manifest ;; retM (Some manifest)
    | None => retM None
    end) remaining (map_of cached timelines).

(** *** Requests *)

(** The host and the address of a timeline's endpoint. *)
Definition endpoint_of (timeline template : string) (args : gmap string string) : result (string * string) :=
  relPath ← RenderURITemplate template args;
  rel ← Url.Parse relPath;
  base ← Url.Parse timeline;
  let endpoint := Url.ResolveReference base rel in
  if String.eqb (Url.Scheme endpoint) "http" || String.eqb (Url.Scheme endpoint) "https" then
    Ok (Url.Host endpoint, Url.String_ endpoint)
  else
    host ← ResolveResourceHost timeline;
    let endpoint := Url.with_host endpoint "https" host in
    Ok (host, Url.String_ endpoint).

Definition requestsByDomain (requests : gmap string (string * string)) : gmap string (gmap string string) :=
  map_fold (λ tl '(domain, url) m, <[domain := <[tl := url]> (default ∅ (m !! domain))]> m) ∅ requests.

Definition names {A} (m : gmap string A) : list string := fst <$> map_to_list m.
Definition missing {A B} (m : gmap string A) (got : gmap string B) : list string :=
  List.filter (λ k, match got !! k with Some _ => false | None => true end) (names m).

(** *** Iterators *)

(** The chunk to look up: within the timeline's first and last. *)
Definition query_chunk (manifest : Manifest) (until : Z) : result (option Z) :=
  queryChunk ← Time2Chunk manifest until;
  let queryChunk := match LastChunk manifest with Some l => if l <? queryChunk then l else queryChunk | None => queryChunk end in
  Ok (match FirstChunk manifest with
      | Some f => if queryChunk <? f then None else Some queryChunk
      | None => Some queryChunk
      end).

(** A manifest without a [descending] endpoint is a nil pointer. *)
Definition itr_query (manifests : gmap string Manifest) (until : Z) (timeline : string) : result (option Z) :=
  match manifests !! timeline with
  | None => Ok None
  | Some manifest =>
      match Descending manifest with
      | None => Panic
      | Some descending => if String.eqb (Iterator descending) "" then Ok None else query_chunk manifest until
      end
  end.

Definition descending_endpoint (manifests : gmap string Manifest) (timeline : string) (template : Endpoint → string)
    (chunk : string) : result (string * string) :=
  match manifests !! timeline with
  | None => Err (GoError ("missing chunkline manifest for timeline " +:+ timeline))
  | Some manifest =>
      match Descending manifest with
      | None => Panic
      | Some descending =>
          if String.eqb (template descending) "" then
            Err (GoError ("timeline " +:+ timeline +:+ " does not support descending iteration"))
          else endpoint_of timeline (template descending) {["chunk" := chunk]}
      end
  end.

Definition is_latest (manifests : gmap string Manifest) (timeline : string) (chunkID : Z) : result bool :=
  current ← Time2Chunk (default zero_manifest (manifests !! timeline)) now;
  Ok (chunkID =? current).

Definition answered (responses : gmap string Response) (timeline : string) : option string :=
  match responses !! timeline with
  | Some resp =>
      if StatusCode resp =? 200 then match rs_Body resp with Ok body => Some body | _ => None end else None
  | None => None
  end.

(** What a server answered, and whether it is kept. *)
Definition take_itr (manifests : gmap string Manifest) (queries : gmap string Z) (responses : gmap string Response)
    (timeline : string) : SM C (option string) :=
  match answered responses timeline, queries !! timeline with
  | Some body, Some chunkID =>
      let iterator := TrimSpace body in
      if in_list [""; "0"] iterator then retM None
      else
        let* latest := liftM (is_latest manifests timeline chunkID) in
        (if latest && negb (in_list demand timeline) then retM tt
         else modifyM (mc_Set (itrCacheKey timeline chunkID) iterator)) ;;
        retM (Some iterator)
  | _, _ => retM None
  end.

Definition LookupChunkItrs_ (timelines : list string) (until : Z) : SM C (gmap string string) :=
  let* manifests := ResolveTimelines_ timelines in
  let* queries := collectM (λ tl, liftM (itr_query manifests until tl)) timelines ∅ in
  let* items := getsM (mc_GetMulti ((λ p, itrCacheKey (fst p) (snd p)) <$> map_to_list queries)) in
  let hits := map_imap (λ tl chunkID, items !! itrCacheKey tl chunkID) queries in
  let* requests := collectM (λ tl,
    skip_error (descending_endpoint manifests tl Iterator (FormatInt (default 0 (queries !! tl)))))
    (missing queries hits) ∅ in
  if decide (requests = ∅) then retM hits
  else
    match BatchGet (requestsByDomain requests) with
    | Ok responses => collectM (take_itr manifests queries responses) (names requests) hits
    | Err _ => retM hits
    | Panic => panicM
    end.

(** *** Bodies *)

(** A chunk from its entry; an entry that does not decode is dropped. *)
Definition cached_chunk (items : gmap string string) (query : gmap string string) (timeline : string) : result (option BodyChunk) :=
  match query !! timeline with
  | Some itr =>
      match items !! bodyCacheKey timeline itr with
      | Some text =>
          match read_entry text with
          | Ok bodyItems =>
              match ParseInt itr with Ok chunkID => Ok (Some (mkBodyChunk timeline chunkID bodyItems)) | _ => Ok None end
          | Err _ => Ok None
          | Panic => Panic
          end
      | None => Ok None
      end
  | None => Ok None
  end.

(** The latest chunk is added, not set: an entry that is already there may
    have gained items since. *)
Definition cache_body (latest : bool) (timeline itr : string) (chunkID : Z) (items : option (list BodyItem)) : SM C unit :=
  match marshal_items items with
  | Ok serialized =>
      let entry := body_entry serialized in
      if latest then
        modifyM (mc_Add (bodyCacheKey timeline itr) entry) ;;
        modifyM (mc_Set (itrCacheKey timeline chunkID) itr)
      else modifyM (mc_Set (bodyCacheKey timeline itr) entry)
  | _ => retM tt
  end.

Definition take_body (manifests : gmap string Manifest) (query : gmap string string) (responses : gmap string Response)
    (timeline : string) : SM C (option BodyChunk) :=
  match answered responses timeline, query !! timeline with
  | Some body, Some itr =>
      match decode_items body, ParseInt itr with
      | Ok items, Ok chunkID =>
          let* latest := liftM (is_latest manifests timeline chunkID) in
          (if latest && negb (in_list demand timeline) then retM tt
           else cache_body latest timeline itr chunkID items) ;;
          retM (Some (mkBodyChunk timeline chunkID (default [] items)))
      | _, _ => retM None
      end
  | _, _ => retM None
  end.

Definition LoadChunkBodies_ (query : gmap string string) : SM C (gmap string BodyChunk) :=
  let* manifests := ResolveTimelines_ (names query) in
  let* items := getsM (mc_GetMulti ((λ p, bodyCacheKey (fst p) (snd p)) <$> map_to_list query)) in
  let hits := map_imap (λ tl itr, items !! bodyCacheKey tl itr) query in
  let* chunks := collectM (λ tl, liftM (cached_chunk items query tl)) (names hits) ∅ in
  let* requests := collectM (λ tl,
    skip_error (descending_endpoint manifests tl Body (default "" (query !! tl)))) (missing query hits) ∅ in
  if decide (requests = ∅) then retM chunks
  else
    match BatchGet (requestsByDomain requests) with
    | Ok responses => collectM (take_body manifests query responses) (names requests) chunks
    | Err _ => retM chunks
    | Panic => panicM
    end.

(** *** Removed items *)

(** What is cached now; [refresh_removed] runs detached, after the answer. *)
Definition GetRemovedItems_ (timelines : list string) : SM C (gmap string (list string)) :=
  let* items := getsM (mc_GetMulti (removedCacheKey <$> timelines)) in
  retM (map_of (λ tl, Some
    (match items !! removedCacheKey tl with
     | Some text => match dec ids_codec text with Ok ids => default [] ids | _ => [] end
     | None => []
     end)) timelines).

Definition removed_endpoint (manifests : gmap string Manifest) (timeline : string) : result (string * string) :=
  match manifests !! timeline with
  | None => Err (GoError "")
  | Some manifest =>
      if String.eqb (Removed manifest) "" then Err (GoError "") else endpoint_of timeline (Removed manifest) ∅
  end.

Definition take_removed (responses : gmap string Response) (timeline : string) : SM C unit :=
  match answered responses timeline with
  | Some body =>
      match dec ids_codec body with
      | Ok ids =>
          match enc ids_codec (Some (default [] ids)) with
          | Ok value =>
              modifyM (mc_Set (removedCacheKey timeline) value) ;;
              modifyM (mc_Set (removedFreshKey timeline) "1")
          | _ => retM tt
          end
      | _ => retM tt
      end
  | None => retM tt
  end.

Definition refresh_removed (timelines : list string) : SM C unit :=
  let* freshItems := getsM (mc_GetMulti (removedFreshKey <$> timelines)) in
  let stale := List.filter (λ tl, match freshItems !! removedFreshKey tl with Some _ => false | None => true end) timelines in
  if decide (stale = []) then retM tt
  else
    let* manifests := ResolveTimelines_ stale in
    let* requests := collectM (λ tl, skip_error (removed_endpoint manifests tl)) stale ∅ in
    if decide (requests = ∅) then retM tt
    else
      match BatchGet (requestsByDomain requests) with
      | Ok responses => forM (take_removed responses) (names responses) ;; retM tt
      | Err _ => retM tt
      | Panic => panicM
      end.

#[export] Instance gateway : ChunkResolver C := {|
  ResolveTimelines := ResolveTimelines_;
  GetRemovedItems := GetRemovedItems_;
  LookupChunkItrs := LookupChunkItrs_;
  LoadChunkBodies := LoadChunkBodies_;
|}.

(** ** Keeping the cache up to date *)

(** The subscriptions worth keeping for the cache's sake. *)
Definition keep_alive (timelines : gmap string Manifest) (timeline : string) : SM C (option unit) :=
  match timelines !! timeline with
  | None => retM None
  | Some manifest =>
      let* currentChunk := liftM (Time2Chunk manifest now) in
      let* latest := getsM (mc_Get (bodyCacheKey timeline (FormatInt currentChunk))) in
      match latest with
      | Some _ => retM (Some tt)
      | None =>
          let* prev := getsM (mc_Get (bodyCacheKey timeline (FormatInt (int64 (currentChunk - 1))))) in
          match prev with
          | None => retM None
          | Some _ =>
              let start := Chunk2Time manifest currentChunk in
              let duration := Chunk2Time manifest (int64 (currentChunk + 1)) - start in
              retM (if now <? start + Z.quot (duration * 8) 10 then Some tt else None)
          end
      end
  end.

Definition CurrentSubscriptions : SM C (list string) :=
  let ongoing := default demand open in
  let* timelines := ResolveTimelines_ ongoing in
  let* keep := forM (λ tl, let* k := keep_alive timelines tl in retM (tl, k)) ongoing in
  retM (fst <$> List.filter (λ p, match snd p with Some _ => true | None => false end) keep).

(** The timeline a new record entered: the parent of its key. *)
Fixpoint scheme_length (uri : string) : option nat :=
  if Str.has_prefix uri "://" then Some 0%nat
  else match uri with EmptyString => None | String _ uri => S <$> scheme_length uri end.

Definition record_timeline (uri : string) : option string :=
  match scheme_length uri, Str.cut_last uri "/" with
  | Some authority, Some (timeline, _) => if (Str.len timeline <=? authority + 2)%nat then None else Some timeline
  | _, _ => None
  end.

(** A reference record enters the timeline as its target. *)
Definition event_href `{Json} (event : Event) : string :=
  match ev_References event !! ev_URI event with
  | Some sd =>
      match unmarshal_typed decode_reference (sd_Document sd) with
      | Ok doc =>
          if String.eqb (Documents.Schema doc) ReferenceURL && negb (String.eqb (ref_Href (Documents.Value doc)) "")
          then ref_Href (Documents.Value doc) else ev_URI event
      | _ => ev_URI event
      end
  | None => ev_URI event
  end.

Definition event_item `{Json} (event : Event) : BodyItem :=
  mkBodyItem (ev_Timestamp event) "" "application/concrnt.document+json" (event_href event).

Definition applyEventToCache `{Json} (event : Event) : SM C unit :=
  match record_timeline (ev_URI event) with
  | None => retM tt
  | Some timeline =>
      let* resolved := tryM (resolveTimeline timeline) in
      match resolved with
      | Ok manifest =>
          let* epoch := liftM (Time2Chunk manifest (ev_Timestamp event)) in
          modifyM (mc_Replace (itrCacheKey timeline epoch) (FormatInt epoch)) ;;
          match item_text (event_item event) with
          | Ok serializedItem =>
              modifyM (mc_Prepend (bodyCacheKey timeline (FormatInt epoch)) ("," +:+ serializedItem))
          | _ => retM tt
          end
      | _ => retM tt
      end
  end.

(** [cacheUpdater], for one event. *)
Definition update_cache `{Json} (event : Event) : SM C unit :=
  if String.eqb (ev_Type event) "created" then applyEventToCache event else retM tt.

(** Drops the latest chunks; answers with what a close edge purges again. *)
Definition PurgeLatest (prefixes : list string) (depth : nat) : SM C (list string) :=
  if decide (prefixes = []) then retM []
  else
    let* manifests := ResolveTimelines_ prefixes in
    forM (λ tl,
      match manifests !! tl with
      | None => retM tt
      | Some manifest =>
          let* current := liftM (Time2Chunk manifest now) in
          forM (λ i,
            let chunk := int64 (current - Z.of_nat i) in
            modifyM (mc_Delete (itrCacheKey tl chunk)) ;;
            modifyM (mc_Delete (bodyCacheKey tl (FormatInt chunk)))) (seq 0 depth) ;;
          retM tt
      end) prefixes ;;
    if (depth =? 1)%nat then
      let* keys := forM (λ tl,
        match manifests !! tl with
        | None => retM []
        | Some manifest =>
            let* chunk := liftM (Time2Chunk manifest now) in
            retM [itrCacheKey tl chunk; bodyCacheKey tl (FormatInt chunk)]
        end) prefixes in
      retM (concat keys)
    else retM [].

Definition purge_replay (keys : list string) : SM C unit :=
  forM (λ key, modifyM (mc_Delete key)) keys ;; retM tt.

End Gateway.
