(* ===== verification/GatewayFacts.v ===== *)
(** * GatewayFacts: the cache answers as the servers do

    A cache is coherent when each entry is what the timeline's server answers.
    Every operation of the resolver keeps it coherent, whatever entries are
    lost; from a coherent cache the gateway keeps the reader's promise, so that
    its pages are pages of the timelines; and an event that reports a new item
    of the latest chunk carries the cache over to the timeline that has it. *)

From S2P Require Import Prelude Effects Bytes Url Documents Numbers Heap Chunkline ChunklineFacts Client Gateway.
From stdpp Require Import prelude strings gmap list sorting.
From Stdlib Require Import ZArith Lia Ascii.
Open Scope Z_scope.
Open Scope uc_scope.

(** ** Keys *)

Lemma last_colon x a y b : lacks ":" a → lacks ":" b → x +:+ ":" +:+ a = y +:+ ":" +:+ b → x = y ∧ a = b.
Proof.
  intros Ha Hb Heq. pose proof (cut_last_app x a ":" Ha) as Hx. pose proof (cut_last_app y b ":" Hb) as Hy.
  cbn [String.append] in Heq. rewrite Heq in Hx. rewrite Hy in Hx. by simplify_eq.
Qed.

Lemma itrCacheKey_inj tl q tl' q' : itrCacheKey tl q = itrCacheKey tl' q' → tl = tl' ∧ q = q'.
Proof.
  unfold itrCacheKey. intros Heq%(inj _).
  apply last_colon in Heq as [-> Heq]; [|apply FormatInt_no_colon..]. by apply FormatInt_inj in Heq.
Qed.

Lemma bodyCacheKey_inj tl k tl' k' :
  bodyCacheKey tl (FormatInt k) = bodyCacheKey tl' (FormatInt k') → tl = tl' ∧ k = k'.
Proof.
  unfold bodyCacheKey. intros Heq%(inj _).
  apply last_colon in Heq as [-> Heq]; [|apply FormatInt_no_colon..]. by apply FormatInt_inj in Heq.
Qed.

Lemma manifestCacheKey_inj tl tl' : manifestCacheKey tl = manifestCacheKey tl' → tl = tl'.
Proof. by intros Heq%(inj _). Qed.

Lemma removedCacheKey_inj tl tl' : removedCacheKey tl = removedCacheKey tl' → tl = tl'.
Proof. by intros Heq%(inj _). Qed.

(** ** Bodies in the cache *)

Lemma insert_item_perm x l : insert_item x l ≡ₚ x :: l.
Proof. induction l as [|y l IH]; cbn; [done|]. case_match; [done|]. rewrite IH. constructor. Qed.

Lemma newest_first_cons x l : newest_first (x :: l) = insert_item x (newest_first l).
Proof. done. Qed.

Lemma newest_first_perm l : newest_first l ≡ₚ l.
Proof. induction l as [|x l IH]; [done|]. rewrite newest_first_cons. by rewrite insert_item_perm, IH. Qed.

Lemma insert_item_sorted x l : StronglySorted newer l → StronglySorted newer (insert_item x l).
Proof.
  induction 1 as [|y l Hl IH Hf]; cbn; [repeat constructor|]. destruct (Z.leb_spec (Timestamp y) (Timestamp x)).
  - constructor; [by constructor|]. constructor; [done|]. eapply Forall_impl; [exact Hf|]. unfold newer. cbn. lia.
  - constructor; [done|]. rewrite insert_item_perm. constructor; [unfold newer; lia|done].
Qed.

Lemma newest_first_sorted l : StronglySorted newer (newest_first l).
Proof. induction l as [|x l IH]; cbn; [constructor|]. by apply insert_item_sorted. Qed.

(** Sorting is stable: what is in order stays as it is. *)
Lemma insert_item_head x l : Forall (newer x) l → insert_item x l = x :: l.
Proof. destruct 1 as [|y l Hy]; cbn; [done|]. unfold newer in Hy. by rewrite (proj2 (Z.leb_le _ _)). Qed.

Lemma newest_first_id l : StronglySorted newer l → newest_first l = l.
Proof. induction 1 as [|x l Hl IH Hf]; [done|]. rewrite newest_first_cons, IH. by apply insert_item_head. Qed.

(** ** Requests *)

Lemma requestsByDomain_lookup requests tl domain url :
  requests !! tl = Some (domain, url) → requestsByDomain requests !! domain ≫= (.!! tl) = Some url.
Proof.
  unfold requestsByDomain.
  apply (map_fold_weak_ind (λ m requests, requests !! tl = Some (domain, url) → m !! domain ≫= (.!! tl) = Some url)); [done|].
  intros tl' [d u] requests' m Hnew IH. destruct (decide (tl' = tl)) as [->|Hne].
  - rewrite lookup_insert_eq. intros [= -> ->]. rewrite lookup_insert_eq. cbn. by rewrite lookup_insert_eq.
  - rewrite lookup_insert_ne by done. intros Hl. specialize (IH Hl).
    destruct (decide (d = domain)) as [->|Hd]; [|by rewrite lookup_insert_ne].
    rewrite lookup_insert_eq. cbn. rewrite lookup_insert_ne by done. revert IH. by destruct (m !! domain).
Qed.

Lemma requestsByDomain_inv requests tl domain url :
  requestsByDomain requests !! domain ≫= (.!! tl) = Some url → requests !! tl = Some (domain, url).
Proof.
  unfold requestsByDomain.
  apply (map_fold_weak_ind (λ m requests, m !! domain ≫= (.!! tl) = Some url → requests !! tl = Some (domain, url)));
    [by rewrite lookup_empty|].
  intros tl' [d u] requests' m Hnew IH Hl. destruct (decide (d = domain)) as [->|Hd].
  - rewrite lookup_insert_eq in Hl. cbn in Hl. destruct (decide (tl' = tl)) as [->|Hne].
    + rewrite lookup_insert_eq in Hl. rewrite lookup_insert_eq. congruence.
    + rewrite lookup_insert_ne in Hl by done. rewrite lookup_insert_ne by done. apply IH. by destruct (m !! domain).
  - rewrite lookup_insert_ne in Hl by done. specialize (IH Hl).
    destruct (decide (tl' = tl)) as [->|Hne]; [congruence|by rewrite lookup_insert_ne].
Qed.

Lemma elem_of_names {A} (m : gmap string A) k : k ∈ names m ↔ is_Some (m !! k).
Proof.
  unfold names. rewrite list_elem_of_fmap. split.
  - intros ([j a] & -> & Hj). apply elem_of_map_to_list in Hj. eauto.
  - intros [a Ha]. exists (k, a). split; [done|]. by apply elem_of_map_to_list.
Qed.

Lemma elem_of_missing {A B} (m : gmap string A) (got : gmap string B) k : k ∈ missing m got ↔ is_Some (m !! k) ∧ got !! k = None.
Proof. unfold missing. rewrite elem_of_filter_b, elem_of_names. destruct (got !! k); naive_solver. Qed.

(** ** Texts *)

Class GatewayJsonLaws `{GatewayJson} := {
  manifest_back m text : enc manifest_codec m = Ok text → dec manifest_codec text = Ok m;
  ids_back ids text : enc ids_codec ids = Ok text → dec ids_codec text = Ok ids;
  items_back items texts : traverse item_text items = Ok texts →
    unmarshal_items ("[" +:+ Str.join texts "," +:+ "]") = Ok (Some items);
}.

Section Texts.
Context `{GatewayJson} `{!GatewayJsonLaws}.

(** An entry that holds items: a comma before each. *)
Definition holds_items (text : string) (items : list BodyItem) : Prop :=
  items ≠ [] ∧ ∃ texts, traverse item_text items = Ok texts ∧ text = "," +:+ Str.join texts ",".

Lemma read_holds text items : holds_items text items → read_entry text = Ok (newest_first items).
Proof.
  intros (_ & texts & Ht & ->). unfold read_entry. cbn [String.append String.eqb Str.drop].
  change (String "[" ?x) with ("[" +:+ x). by rewrite (items_back items texts Ht).
Qed.

Lemma body_entry_holds items serialized :
  items ≠ [] → marshal_items (Some items) = Ok serialized → holds_items (body_entry serialized) items.
Proof.
  intros Hne Hm. cbn in Hm. destruct (traverse item_text items) as [texts| |] eqn:Ht; [|done..]. injection Hm as <-.
  split; [done|]. exists texts. split; [done|]. unfold body_entry. f_equal.
  cbn [Str.drop]. change (Str.len (String "[" ?x)) with (S (Str.len x)). rewrite str_len_app.
  replace (_ - 2)%nat with (Str.len (Str.join texts ",")) by (cbn; lia). apply str_take_app.
Qed.

Lemma prepend_holds item text entry items :
  item_text item = Ok text → holds_items entry items → holds_items (("," +:+ text) +:+ entry) (item :: items).
Proof.
  intros Hi (Hne & texts & Ht & ->). split; [done|]. exists (text :: texts).
  cbn [traverse rbind]. rewrite Hi. cbn. rewrite Ht. split; [done|].
  destruct texts as [|t texts]; [by apply traverse_ok in Ht; destruct items; [|inversion Ht]|].
  cbn. by f_equal.
Qed.
End Texts.

(** ** Coherent caches *)

Section Coherence.
Context (timeline : string → list BodyItem) (manifest_of : string → Manifest).
Context (uris : list string) (removable : string → list string → Prop) (until : Z).
Context {C : Type} `{MemcachedLaws C} `{GatewayJsonLaws} `{TimelineClient} `{UriTemplate} `{Url.NetIP}.
Context (now : Z) (demand : list string).

Notation upto := (upto timeline manifest_of).
Notation chunk_no := (chunk_no manifest_of).

(** The chunk of the newest item up to a chunk. *)
Definition itr_of (tl : string) (q : Z) : option Z := (λ x, chunk_no tl (Timestamp x)) <$> head (upto tl q).

(** What an entry says of the timelines. *)
Record entry_ok (key text : string) : Prop := {
  eo_manifest tl m : tl ∈ uris → key = manifestCacheKey tl → cached_manifest text = Some m → m = manifest_of tl;
  eo_itr tl q : tl ∈ uris → key = itrCacheKey tl q → ∃ k, text = FormatInt k ∧ itr_of tl q = Some k;
  eo_body tl k : tl ∈ uris → key = bodyCacheKey tl (FormatInt k) →
    ∃ items, holds_items text items ∧ chunk_ok timeline manifest_of tl (mkBodyChunk tl k (newest_first items));
  eo_removed tl ids : tl ∈ uris → key = removedCacheKey tl → dec ids_codec text = Ok ids → removable tl (default [] ids);
}.

Definition coherent (c : C) : Prop := ∀ key text, mc_Get key c = Some text → entry_ok key text.

(** A cache that lost entries is still coherent. *)
Lemma coherent_lost c c' : (∀ j w, mc_Get j c' = Some w → mc_Get j c = Some w) → coherent c → coherent c'.
Proof. intros Hl Hc j w Hj. by apply Hc, Hl. Qed.

Lemma coherent_Set key text c : entry_ok key text → coherent c → coherent (mc_Set key text c).
Proof. intros He Hc j w Hj%Set_law. case_decide as Hk; [by subst|by apply Hc]. Qed.

Lemma coherent_Add key text c : entry_ok key text → coherent c → coherent (mc_Add key text c).
Proof. intros He Hc j w [Hj|(-> & _ & ->)]%Add_law; [by apply Hc|done]. Qed.

Lemma coherent_Delete key c : coherent c → coherent (mc_Delete key c).
Proof. apply coherent_lost. by intros j w [_ ?]%Delete_law. Qed.

(** *** Entries *)

Lemma manifest_entry tl text : enc manifest_codec (manifest_of tl) = Ok text → entry_ok (manifestCacheKey tl) text.
Proof.
  intros Ht. split; try (intros; discriminate). intros tl' m _ <-%manifestCacheKey_inj. unfold cached_manifest.
  rewrite (manifest_back _ _ Ht). case_match; congruence.
Qed.

Lemma itr_entry tl q k : itr_of tl q = Some k → entry_ok (itrCacheKey tl q) (FormatInt k).
Proof. intros Hk. split; try (intros; discriminate). intros tl' q' _ [<- <-]%itrCacheKey_inj. eauto. Qed.

Lemma body_entry_ok tl k text items : holds_items text items →
  chunk_ok timeline manifest_of tl (mkBodyChunk tl k (newest_first items)) → entry_ok (bodyCacheKey tl (FormatInt k)) text.
Proof. intros Ht Hc. split; try (intros; discriminate). intros tl' k' _ [<- <-]%bodyCacheKey_inj. eauto. Qed.

Lemma removed_entry tl text ids : dec ids_codec text = Ok ids → removable tl (default [] ids) → entry_ok (removedCacheKey tl) text.
Proof.
  intros Ht Hr. split; try (intros; discriminate). intros tl' ids' _ <-%removedCacheKey_inj. rewrite Ht. by intros [= <-].
Qed.

(** ** The timelines' servers *)

(** A request of a batch. *)
Definition asked (requests : gmap string (gmap string string)) (tl : string) (at_ : string * string) : Prop :=
  requests !! fst at_ ≫= (.!! tl) = Some (snd at_).

(** "No iterator" is no answer, another status, or one of two texts. *)
Definition itr_answer (o : option Z) (body : option string) : Prop :=
  match o with
  | Some k => ∃ text, body = Some text ∧ TrimSpace text = FormatInt k
  | None => ∀ text, body = Some text → in_list [""; "0"] (TrimSpace text) = true
  end.

(** Within the timeline's first and last chunk. *)
Definition in_range (tl : string) (q : Z) : Prop :=
  (∀ f, FirstChunk (manifest_of tl) = Some f → f <= q) ∧ (∀ l, LastChunk (manifest_of tl) = Some l → q <= l).

(** What a timeline's server does: its manifest is the timeline's, within its
    first and last chunk all requests of a batch are answered, and no item is
    of chunk 0. *)
Record origin_ok (tl : string) : Prop := {
  or_timeline : timeline_ok timeline manifest_of tl;
  or_manifest : fetch_manifest tl = Ok (manifest_of tl);
  or_first f q : FirstChunk (manifest_of tl) = Some f → q < f → upto tl q = [];
  or_last l q : LastChunk (manifest_of tl) = Some l → l < q → upto tl q = upto tl l;
  or_dated : Forall (λ x, 1 <= chunk_no tl (Timestamp x)) (timeline tl);
  or_endpoint d : Descending (manifest_of tl) = Some d → Iterator d ≠ "" ∧ Body d ≠ "";
  or_descending : is_Some (Descending (manifest_of tl));
  or_itr d q : Descending (manifest_of tl) = Some d → in_range tl q → ∃ a, endpoint_of tl (Iterator d) {["chunk" := FormatInt q]} = Ok a ∧
    ∀ requests rs, asked requests tl a → BatchGet requests = Ok rs → itr_answer (itr_of tl q) (answered rs tl);
  or_body d k : Descending (manifest_of tl) = Some d → (∃ q, itr_of tl q = Some k) →
    ∃ a, endpoint_of tl (Body d) {["chunk" := FormatInt k]} = Ok a ∧
    ∀ requests rs, asked requests tl a → BatchGet requests = Ok rs →
      ∃ body items, answered rs tl = Some body ∧ decode_items body = Ok (Some items) ∧
        chunk_ok timeline manifest_of tl (mkBodyChunk tl k items);
}.

Context (origins : ∀ tl, tl ∈ uris → origin_ok tl).
Context (online : ∀ requests, ∃ rs, BatchGet requests = Ok rs).

(** An iterator is the number of a chunk that its text gives back. *)
Lemma itr_bounds tl q k : tl ∈ uris → itr_of tl q = Some k → 1 <= k < 2 ^ 63.
Proof.
  intros Hu Hk. destruct (origins tl Hu) as [Ht _ _ _ Hd _ _ _ _]. unfold itr_of in Hk.
  destruct (upto tl q) as [|x l] eqn:Hup; [done|]. injection Hk as <-.
  assert (x ∈ upto tl q) as [Hx _]%elem_of_filter_b by (rewrite Hup; by left).
  pose proof (tk_last _ _ _ Ht) as Hl. pose proof (tk_epoch _ _ _ Ht) as He. rewrite Forall_forall in Hd, Hl, He.
  split; [by apply Hd|]. specialize (Hl x Hx). specialize (He x Hx). cbn in Hl, He. unfold ChunklineFacts.chunk_no.
  assert (0 <= Unix (Timestamp x)) as Hp by (apply Z.div_pos; [lia|done]).
  pose proof (Z.quot_le_upper_bound (Unix (Timestamp x)) (ChunkSize (manifest_of tl)) (Unix (Timestamp x))) as Hq.
  pose proof (tk_size _ _ _ Ht). specialize (Hq ltac:(lia) ltac:(nia)). lia.
Qed.

Lemma ParseInt_itr tl q k : tl ∈ uris → itr_of tl q = Some k → ParseInt (FormatInt k) = Ok k.
Proof. intros Hu Hk. pose proof (itr_bounds tl q k Hu Hk). apply ParseInt_FormatInt. lia. Qed.

(** *** Manifests *)

Lemma fetch_timeline_ok tl : tl ∈ uris → fetch_timeline tl = Ok (manifest_of tl).
Proof.
  intros Hu. pose proof (origins tl Hu) as Ho. unfold fetch_timeline. rewrite (or_manifest _ Ho). cbn.
  pose proof (tk_size _ _ _ (or_timeline _ Ho)). by rewrite (proj2 (Z.leb_gt _ _)).
Qed.

Lemma cache_manifest_ok tl c : coherent c → ∃ c', cache_manifest tl (manifest_of tl) c = (Ok tt, c') ∧ coherent c'.
Proof.
  intros Hc. unfold cache_manifest. destruct (enc manifest_codec (manifest_of tl)) as [bytes| |] eqn:He; [|by exists c..].
  eexists. split; [reflexivity|]. apply coherent_Set; [|done]. by apply manifest_entry.
Qed.

Lemma ResolveTimelines_ok tls c : coherent c → (∀ tl, tl ∈ tls → tl ∈ uris) →
  ∃ ms c', ResolveTimelines_ tls c = (Ok ms, c') ∧ coherent c' ∧
    ∀ tl, ms !! tl = if decide (tl ∈ tls) then Some (manifest_of tl) else None.
Proof.
  intros Hc Htls. unfold ResolveTimelines_. rewrite bindM_gets.
  set (items := mc_GetMulti (manifestCacheKey <$> tls) c).
  set (cached := λ tl, items !! manifestCacheKey tl ≫= cached_manifest).
  assert (∀ tl m, tl ∈ tls → cached tl = Some m → m = manifest_of tl) as Hcached.
  { intros tl m Hin (text & [_ Hg]%GetMulti_law & Hm)%bind_Some. by apply (eo_manifest _ _ (Hc _ _ Hg) tl m); [apply Htls| |]. }
  match goal with |- context [collectM ?f ?l ?m c] =>
    destruct (collectM_run coherent f (λ tl, Some (manifest_of tl)) l m c Hc) as (ms & c' & Hrun & Hc' & Hms) end.
  { intros tl c1 [Hin _]%elem_of_filter_b Hc1. apply Htls in Hin. rewrite (fetch_timeline_ok tl Hin).
    cbn [skip_error]. unfold retM at 1. rewrite (bindM_ok _ _ _ _ _ eq_refl).
    destruct (cache_manifest_ok tl c1 Hc1) as (c2 & Hm & Hc2). rewrite (bindM_ok _ _ _ _ _ Hm). by exists c2. }
  exists ms, c'. split; [done|]. split; [done|]. intros tl. rewrite Hms, lookup_map_of. fold (cached tl).
  destruct (decide (tl ∈ tls)) as [Hin|Hnin].
  - case_decide as Hr; [done|]. destruct (cached tl) as [m|] eqn:Hm; [by rewrite (Hcached tl m Hin Hm)|].
    exfalso. apply Hr. apply elem_of_filter_b. unfold cached in Hm. by rewrite Hm.
  - case_decide as Hr; [|done]. by apply elem_of_filter_b in Hr as [? _].
Qed.

(** *** What is missing is fetched *)

Lemma fetch_missing {A} (ep : string → result (string * string)) (take : gmap string Response → string → SM C (option A))
    l (hits : gmap string A) (good : string → option A → Prop) c :
  coherent c →
  (∀ tl, tl ∈ l → ∃ a, ep tl = Ok a ∧ ∀ requests rs c1, asked requests tl a → BatchGet requests = Ok rs → coherent c1 →
    ∃ r c', take rs tl c1 = (Ok r, c') ∧ good tl r ∧ coherent c') →
  ∃ m c',
    (let* requests := collectM (λ tl, skip_error (ep tl)) l ∅ in
     if decide (requests = ∅) then retM hits
     else match BatchGet (requestsByDomain requests) with
          | Ok responses => collectM (take responses) (names requests) hits
          | Err _ => retM hits
          | Panic => panicM
          end) c = (Ok m, c') ∧ coherent c' ∧
    ∀ tl, if decide (tl ∈ l) then ∃ r, good tl r ∧ m !! tl = match r with Some a => Some a | None => hits !! tl end
          else m !! tl = hits !! tl.
Proof.
  intros Hc Hl.
  destruct (collectM_run coherent (λ tl, skip_error (ep tl)) (λ tl, match ep tl with Ok a => Some a | _ => None end) l ∅ c Hc)
    as (requests & c1 & Hr & Hc1 & Hreq).
  { intros tl st Hin Hst. destruct (Hl tl Hin) as (a & Ha & _). exists st. by rewrite Ha. }
  rewrite (bindM_ok _ _ _ _ _ Hr).
  assert (∀ tl, requests !! tl = if decide (tl ∈ l) then match ep tl with Ok a => Some a | _ => None end else None) as Hreq'.
  { intros tl. rewrite Hreq, lookup_empty. case_decide; [|done]. by destruct (ep tl). }
  assert (∀ tl, tl ∈ names requests ↔ tl ∈ l) as Hnames.
  { intros tl. rewrite elem_of_names, Hreq'. case_decide as Hin; [|split; [by intros [? ?]|done]].
    destruct (Hl tl Hin) as (a & -> & _). split; [done|by exists a]. }
  case_decide as Hempty.
  - exists hits, c1. split; [done|]. split; [done|]. intros tl. case_decide as Hin; [|done].
    apply Hnames in Hin. rewrite Hempty in Hin. apply elem_of_names in Hin as [? Hin]. by rewrite lookup_empty in Hin.
  - destruct (online (requestsByDomain requests)) as [rs Hrs]. rewrite Hrs.
    destruct (collectM_rel coherent (take rs) good (names requests) hits c1 Hc1) as (m & c2 & Hm & Hc2 & Hmap).
    { intros tl st Hin Hst. apply Hnames in Hin. destruct (Hl tl Hin) as ([d u] & Ha & Htake).
      apply (Htake (requestsByDomain requests) rs st); [|done|done]. apply requestsByDomain_lookup.
      by rewrite Hreq', decide_True, Ha. }
    exists m, c2. split; [done|]. split; [done|]. intros tl. specialize (Hmap tl).
    destruct (decide (tl ∈ l)) as [Hin|Hin]; [by rewrite decide_True in Hmap by (by apply Hnames)|].
    rewrite decide_False in Hmap; [done|]. by rewrite Hnames.
Qed.

(** *** Iterators *)

Lemma query_ok manifests t tl : tl ∈ uris → manifests !! tl = Some (manifest_of tl) → ∃ o,
  itr_query manifests t tl = Ok o ∧
  match o with
  | Some q => itr_of tl q = itr_of tl (chunk_no tl t) ∧ in_range tl q
  | None => itr_of tl (chunk_no tl t) = None
  end.
Proof.
  intros Hu Hm. pose proof (origins tl Hu) as Ho. unfold itr_query. rewrite Hm.
  destruct (or_descending _ Ho) as [d Hd]. rewrite Hd. destruct (or_endpoint _ Ho d Hd) as [Hi _].
  apply String.eqb_neq in Hi. rewrite Hi. unfold query_chunk, Time2Chunk.
  pose proof (tk_size _ _ _ (or_timeline _ Ho)) as Hs. rewrite (proj2 (Z.eqb_neq _ _)) by lia.
  cbn [mbind result_bind rbind]. change (Z.quot (Unix t) (ChunkSize (manifest_of tl))) with (chunk_no tl t).
  set (q := match LastChunk (manifest_of tl) with Some l => if l <? chunk_no tl t then l else chunk_no tl t | None => chunk_no tl t end).
  assert (itr_of tl q = itr_of tl (chunk_no tl t)) as Hq.
  { unfold q. destruct (LastChunk (manifest_of tl)) as [l|] eqn:Hl; [|done].
    destruct (Z.ltb_spec l (chunk_no tl t)) as [Hlt|]; [|done]. unfold itr_of. by rewrite (or_last _ Ho l _ Hl Hlt). }
  assert (∀ l, LastChunk (manifest_of tl) = Some l → q <= l) as Hlast.
  { intros l Hl. unfold q. rewrite Hl. destruct (Z.ltb_spec l (chunk_no tl t)); lia. }
  eexists. split; [reflexivity|]. unfold in_range. destruct (FirstChunk (manifest_of tl)) as [f|] eqn:Hf; [|done].
  destruct (Z.ltb_spec q f) as [Hlt|Hge]; [|split; [done|]; split; [by intros ? [= <-]|done]]. rewrite <- Hq. unfold itr_of. by rewrite (or_first _ Ho f q Hf Hlt).
Qed.

Lemma itr_endpoint manifests tl d q : tl ∈ uris → manifests !! tl = Some (manifest_of tl) →
  Descending (manifest_of tl) = Some d →
  descending_endpoint manifests tl Iterator (FormatInt q) = endpoint_of tl (Iterator d) {["chunk" := FormatInt q]} ∧
  descending_endpoint manifests tl Body (FormatInt q) = endpoint_of tl (Body d) {["chunk" := FormatInt q]}.
Proof.
  intros Hu Hm Hd. destruct (or_endpoint _ (origins tl Hu) d Hd) as [Hi%String.eqb_neq Hb%String.eqb_neq].
  unfold descending_endpoint. by rewrite Hm, Hd, Hi, Hb.
Qed.

Lemma take_itr_ok manifests queries rs tl q c :
  tl ∈ uris → manifests !! tl = Some (manifest_of tl) → queries !! tl = Some q →
  itr_answer (itr_of tl q) (answered rs tl) → coherent c →
  ∃ c', take_itr now demand manifests queries rs tl c = (Ok (FormatInt <$> itr_of tl q), c') ∧ coherent c'.
Proof.
  intros Hu Hm Hq Ha Hc. pose proof (tk_size _ _ _ (or_timeline _ (origins tl Hu))) as Hs.
  unfold take_itr. rewrite Hq. destruct (itr_of tl q) as [k|] eqn:Hk; cbn [itr_answer] in Ha.
  - destruct Ha as (text & -> & ->). pose proof (itr_bounds tl q k Hu Hk) as Hb.
    assert (in_list [""; "0"] (FormatInt k) = false) as ->.
    { pose proof (ParseInt_itr tl q k Hu Hk) as Hp. destruct (in_list _ _) eqn:Hin; [|done].
      apply in_list_elem in Hin. apply elem_of_cons in Hin as [Heq|Heq%list_elem_of_singleton]; rewrite Heq in Hp;
        vm_compute in Hp; [done|]. injection Hp as <-. lia. }
    unfold is_latest. rewrite Hm. cbn [default from_option id]. unfold Time2Chunk.
    rewrite (proj2 (Z.eqb_neq _ _)) by lia. cbn [mbind result_bind rbind]. rewrite bindM_lift.
    destruct (_ && _); [by exists c|]. eexists. split; [reflexivity|]. apply coherent_Set; [|done]. by apply itr_entry.
  - destruct (answered rs tl) as [text|]; [|by exists c]. rewrite (Ha text eq_refl). by exists c.
Qed.

Lemma LookupChunkItrs_ok tls t c : coherent c → (∀ tl, tl ∈ tls → tl ∈ uris) →
  ∃ itrs c', LookupChunkItrs_ now demand tls t c = (Ok itrs, c') ∧ coherent c' ∧
    ∀ tl, itrs !! tl = if decide (tl ∈ tls) then FormatInt <$> itr_of tl (chunk_no tl t) else None.
Proof.
  intros Hc Htls. unfold LookupChunkItrs_.
  destruct (ResolveTimelines_ok tls c Hc Htls) as (ms & c1 & Hms & Hc1 & Hm). rewrite (bindM_ok _ _ _ _ _ Hms).
  assert (∀ tl, tl ∈ tls → ms !! tl = Some (manifest_of tl)) as Hmt by (intros tl Hin; rewrite Hm; by rewrite decide_True).
  set (query := λ tl, match itr_query ms t tl with Ok o => o | _ => None end).
  assert (∀ tl, tl ∈ tls → itr_query ms t tl = Ok (query tl) ∧
    match query tl with
    | Some q => itr_of tl q = itr_of tl (chunk_no tl t) ∧ in_range tl q
    | None => itr_of tl (chunk_no tl t) = None
    end) as Hquery.
  { intros tl Hin. destruct (query_ok ms t tl (Htls tl Hin) (Hmt tl Hin)) as (o & Ho & Hspec). unfold query. by rewrite Ho. }
  destruct (collectM_run coherent (λ tl, liftM (itr_query ms t tl)) query tls ∅ c1 Hc1) as (queries & c2 & Hqs & Hc2 & Hq).
  { intros tl st Hin Hst. exists st. split; [|done]. unfold liftM. by rewrite (proj1 (Hquery tl Hin)). }
  rewrite (bindM_ok _ _ _ _ _ Hqs), bindM_gets.
  set (items := mc_GetMulti ((λ p, itrCacheKey p.1 p.2) <$> map_to_list queries) c2).
  assert (∀ tl, queries !! tl = if decide (tl ∈ tls) then query tl else None) as Hqueries.
  { intros tl. rewrite Hq, lookup_empty. case_decide; [|done]. by destruct (query tl). }
  clear Hq. set (hits := map_imap (λ tl q, items !! itrCacheKey tl q) queries).
  assert (∀ tl text, hits !! tl = Some text → ∃ k, itr_of tl (chunk_no tl t) = Some k ∧ text = FormatInt k ∧ tl ∈ tls) as Hhits.
  { intros tl text. unfold hits. rewrite map_lookup_imap, Hqueries. case_decide as Hin; [|done].
    intros (q & Hqt & [_ Hg]%GetMulti_law)%bind_Some. destruct (Hquery tl Hin) as [_ Hspec]. rewrite Hqt in Hspec. destruct Hspec as [Hspec _].
    destruct (eo_itr _ _ (Hc2 _ _ Hg) tl q (Htls tl Hin) eq_refl) as (k & -> & Hk). exists k. by rewrite <- Hspec. }
  destruct (fetch_missing (λ tl, descending_endpoint ms tl Iterator (FormatInt (default 0 (queries !! tl))))
    (take_itr now demand ms queries) (missing queries hits) hits (λ tl r, r = FormatInt <$> itr_of tl (chunk_no tl t)) c2 Hc2)
    as (itrs & c3 & Hrun & Hc3 & Hitrs).
  { intros tl [[q Hq] Hmiss]%elem_of_missing. pose proof Hq as Hqt. rewrite Hqueries in Hqt. case_decide as Hin; [|done].
    destruct (Hquery tl Hin) as [_ Hspec]. rewrite Hqt in Hspec. destruct Hspec as [Hspec Hrange]. pose proof (Htls tl Hin) as Hu.
    destruct (or_descending _ (origins tl Hu)) as [d Hd]. destruct (or_itr _ (origins tl Hu) d q Hd Hrange) as (a & Ha & Hans).
    exists a. rewrite Hq. cbn [default from_option id].
    rewrite (proj1 (itr_endpoint ms tl d q Hu (Hmt tl Hin) Hd)). split; [done|].
    intros requests rs c4 Hask Hbatch Hc4. rewrite <- Hspec.
    destruct (take_itr_ok ms queries rs tl q c4 Hu) as (c5 & Ht & Hc5); [auto|done|by apply (Hans requests)|done|].
    by exists (FormatInt <$> itr_of tl q), c5. }
  exists itrs, c3. split; [exact Hrun|]. split; [done|]. intros tl. specialize (Hitrs tl).
  destruct (hits !! tl) as [text|] eqn:Hhit.
  - destruct (Hhits tl text Hhit) as (k & Hk & -> & Hin). rewrite (decide_True (P := tl ∈ tls)) by done. rewrite Hk in Hitrs |- *.
    case_decide; [|done]. by destruct Hitrs as (r & -> & ->).
  - destruct (decide (tl ∈ missing queries hits)) as [Hmiss|Hmiss].
    + destruct Hitrs as (r & -> & ->). apply elem_of_missing in Hmiss as [[q Hq] _]. rewrite Hqueries in Hq.
      case_decide; [|done]. by destruct (itr_of _ _).
    + rewrite Hitrs. destruct (decide (tl ∈ tls)) as [Hin|]; [|done]. destruct (Hquery tl Hin) as [_ Hspec].
      destruct (query tl) as [q|] eqn:Hq; [|by rewrite Hspec]. exfalso. apply Hmiss. apply elem_of_missing.
      rewrite Hqueries, decide_True, Hq by done. eauto.
Qed.

(** *** Bodies *)

Notation chunk_ok := (chunk_ok timeline manifest_of).

Lemma chunk_itr tl c : chunk_ok tl c → itr_of tl (ChunkID c) = Some (ChunkID c).
Proof.
  intros [Hne (post & Hup & _) Hnew]. unfold itr_of. rewrite Hup.
  destruct (Items c) as [|x l]; [done|]. cbn. f_equal. by apply Hnew.
Qed.

Lemma chunk_sorted tl c : tl ∈ uris → chunk_ok tl c → StronglySorted newer (Items c).
Proof.
  intros Hu [_ (post & Hup & _) _]. pose proof (upto_sorted _ _ tl (ChunkID c) (or_timeline _ (origins tl Hu))) as Hs.
  rewrite Hup in Hs. by apply StronglySorted_app_1_l in Hs.
Qed.

Lemma cache_body_ok latest tl k items c : tl ∈ uris → chunk_ok tl (mkBodyChunk tl k items) → coherent c →
  ∃ c', cache_body latest tl (FormatInt k) k (Some items) c = (Ok tt, c') ∧ coherent c'.
Proof.
  intros Hu Hk Hc. unfold cache_body. destruct (marshal_items (Some items)) as [text| |] eqn:Ht; [|by exists c..].
  assert (entry_ok (bodyCacheKey tl (FormatInt k)) (body_entry text)) as Hentry.
  { apply (body_entry_ok tl k _ items); [apply body_entry_holds; [apply Hk|done]|].
    by rewrite newest_first_id by apply (chunk_sorted tl _ Hu Hk). }
  destruct latest; eexists; (split; [reflexivity|]); [|by apply coherent_Set].
  apply coherent_Set; [apply itr_entry, (chunk_itr tl _ Hk)|]. by apply coherent_Add.
Qed.

Definition served (tl : string) (k : Z) (chunk : BodyChunk) : Prop := ChunkID chunk = k ∧ chunk_ok tl chunk.

Lemma take_body_ok manifests query rs tl q k c items body :
  tl ∈ uris → manifests !! tl = Some (manifest_of tl) → itr_of tl q = Some k → query !! tl = Some (FormatInt k) →
  answered rs tl = Some body → decode_items body = Ok (Some items) → chunk_ok tl (mkBodyChunk tl k items) → coherent c →
  ∃ chunk c', take_body now demand manifests query rs tl c = (Ok (Some chunk), c') ∧ served tl k chunk ∧ coherent c'.
Proof.
  intros Hu Hm Hk Hq Hb Hd Hok Hc. pose proof (tk_size _ _ _ (or_timeline _ (origins tl Hu))) as Hs.
  exists (mkBodyChunk tl k items). unfold take_body. rewrite Hb, Hq, Hd, (ParseInt_itr tl q k Hu Hk).
  unfold is_latest. rewrite Hm. cbn [default from_option id]. unfold Time2Chunk. rewrite (proj2 (Z.eqb_neq _ _)) by lia.
  cbn [mbind result_bind rbind]. rewrite bindM_lift. destruct (_ && _); [by exists c|].
  destruct (cache_body_ok (k =? Z.quot (Unix now) (ChunkSize (manifest_of tl))) tl k items c Hu Hok Hc) as (c' & Hcb & Hc').
  exists c'. by rewrite (bindM_ok _ _ _ _ _ Hcb).
Qed.

Lemma cached_chunk_ok items query tl q k text :
  tl ∈ uris → itr_of tl q = Some k → query !! tl = Some (FormatInt k) → items !! bodyCacheKey tl (FormatInt k) = Some text →
  entry_ok (bodyCacheKey tl (FormatInt k)) text → ∃ chunk, cached_chunk items query tl = Ok (Some chunk) ∧ served tl k chunk.
Proof.
  intros Hu Hk Hq Ht He. destruct (eo_body _ _ He tl k Hu eq_refl) as (l & Hl & Hc).
  exists (mkBodyChunk tl k (newest_first l)). unfold cached_chunk.
  by rewrite Hq, Ht, (read_holds text l Hl), (ParseInt_itr tl q k Hu Hk).
Qed.

Lemma LoadChunkBodies_ok query c : coherent c →
  (∀ tl itr, query !! tl = Some itr → tl ∈ uris ∧ ∃ q k, itr_of tl q = Some k ∧ itr = FormatInt k) →
  ∃ chunks c', LoadChunkBodies_ now demand query c = (Ok chunks, c') ∧ coherent c' ∧
    ∀ tl, match query !! tl with
          | Some itr => ∃ chunk k, chunks !! tl = Some chunk ∧ itr = FormatInt k ∧ served tl k chunk
          | None => chunks !! tl = None
          end.
Proof.
  intros Hc Hquery. unfold LoadChunkBodies_.
  destruct (ResolveTimelines_ok (names query) c Hc) as (ms & c1 & Hms & Hc1 & Hm).
  { intros tl [itr Hi]%elem_of_names. by apply (Hquery tl itr). }
  rewrite (bindM_ok _ _ _ _ _ Hms), bindM_gets.
  set (items := mc_GetMulti ((λ p, bodyCacheKey p.1 p.2) <$> map_to_list query) c1).
  set (hits := map_imap (λ tl itr, items !! bodyCacheKey tl itr) query).
  set (good := λ tl (r : option BodyChunk), ∃ chunk k, r = Some chunk ∧ query !! tl = Some (FormatInt k) ∧ served tl k chunk).
  destruct (collectM_rel coherent (λ tl, liftM (cached_chunk items query tl)) good (names hits) ∅ c1 Hc1)
    as (chunks & c2 & Hchunks & Hc2 & Hhit).
  { intros tl st [text Ht]%elem_of_names Hst. unfold hits in Ht. rewrite map_lookup_imap in Ht.
    apply bind_Some in Ht as (itr & Hi & Ht). destruct (Hquery tl itr Hi) as (Hu & q & k & Hk & ->).
    pose proof Ht as [_ Hg]%GetMulti_law.
    destruct (cached_chunk_ok items query tl q k text Hu Hk Hi Ht (Hc1 _ _ Hg)) as (chunk & Hcc & Hs).
    exists (Some chunk), st. unfold liftM. rewrite Hcc. split; [done|]. split; [by exists chunk, k|done]. }
  rewrite (bindM_ok _ _ _ _ _ Hchunks).
  destruct (fetch_missing (λ tl, descending_endpoint ms tl Body (default "" (query !! tl)))
    (take_body now demand ms query) (missing query hits) chunks good c2 Hc2) as (m & c3 & Hrun & Hc3 & Hmap).
  { intros tl [[itr Hi] _]%elem_of_missing. destruct (Hquery tl itr Hi) as (Hu & q & k & Hk & ->).
    assert (ms !! tl = Some (manifest_of tl)) as Hmt by (rewrite Hm, decide_True by (apply elem_of_names; eauto); done).
    destruct (or_descending _ (origins tl Hu)) as [d Hd].
    destruct (or_body _ (origins tl Hu) d k Hd) as (a & Ha & Hans); [by exists q|].
    exists a. rewrite Hi. cbn [default from_option id]. rewrite (proj2 (itr_endpoint ms tl d k Hu Hmt Hd)). split; [done|].
    intros requests rs c4 Hask Hb Hc4. destruct (Hans requests rs Hask Hb) as (body & l & Hbody & Hl & Hok).
    destruct (take_body_ok ms query rs tl q k c4 l body Hu Hmt Hk Hi Hbody Hl Hok Hc4) as (chunk & c5 & Ht & Hs & Hc5).
    exists (Some chunk), c5. split; [done|]. split; [by exists chunk, k|done]. }
  exists m, c3. split; [exact Hrun|]. split; [done|]. intros tl. specialize (Hmap tl). specialize (Hhit tl).
  assert (∀ m', (∃ r, good tl r ∧ m' = match r with Some a => Some a | None => None end) →
    match query !! tl with
    | Some itr => ∃ chunk k, m' = Some chunk ∧ itr = FormatInt k ∧ served tl k chunk
    | None => m' = None
    end) as Hgood.
  { intros m' (r & (chunk & k & -> & -> & Hs) & ->). by exists chunk, k. }
  destruct (decide (tl ∈ missing query hits)) as [Hmiss|Hmiss].
  - destruct Hmap as (r & (chunk & k & -> & Hq & Hs) & ->). rewrite Hq. by exists chunk, k.
  - rewrite Hmap. destruct (decide (tl ∈ names hits)) as [Hin|Hin].
    + apply Hgood. destruct Hhit as (r & Hr & ->). exists r. by destruct r.
    + rewrite Hhit, lookup_empty. destruct (query !! tl) as [itr|] eqn:Hq; [|done].
      exfalso. apply Hmiss. apply elem_of_missing. split; [eauto|]. rewrite elem_of_names in Hin.
      destruct (hits !! tl); [|done]. exfalso. apply Hin. eauto.
Qed.

(** *** Removed items *)

Context (none_removed : ∀ tl, tl ∈ uris → removable tl []).

Lemma GetRemovedItems_ok c : coherent c → ∃ gone,
  GetRemovedItems_ uris c = (Ok gone, c) ∧ ∀ tl, tl ∈ uris → removable tl (default [] (gone !! tl)).
Proof.
  intros Hc. unfold GetRemovedItems_. rewrite bindM_gets. eexists. split; [reflexivity|]. intros tl Hu.
  rewrite lookup_map_of, decide_True by done. cbn [default from_option id].
  destruct (mc_GetMulti _ c !! removedCacheKey tl) as [text|] eqn:Ht; [|by apply none_removed].
  apply GetMulti_law in Ht as [_ Hg]. destruct (dec ids_codec text) as [ids| |] eqn:Hd; [|by apply none_removed..].
  by apply (eo_removed _ _ (Hc _ _ Hg) tl ids).
Qed.

(** ** The reader's promise *)

#[export] Instance gateway_serves :
  @Serves timeline manifest_of C (gateway now demand) uris removable until coherent.
Proof.
  split.
  - intros c Hc. destruct (ResolveTimelines_ok uris c Hc) as (ms & c' & Hr & Hc' & Hms); [done|].
    exists ms, c'. split; [exact Hr|]. split; [done|]. intros tl Hu. by rewrite Hms, decide_True.
  - intros c Hc. destruct (GetRemovedItems_ok c Hc) as (gone & Hg & Hr). by exists gone, c.
  - intros tls t c Hc Htls. unfold getChunks. cbn [LookupChunkItrs LoadChunkBodies gateway].
    destruct (LookupChunkItrs_ok tls t c Hc) as (itrs & c1 & Hi & Hc1 & Hitrs); [intros tl Hin; apply (Htls tl Hin)|].
    rewrite (bindM_ok _ _ _ _ _ Hi).
    destruct (LoadChunkBodies_ok itrs c1 Hc1) as (chunks & c2 & Hb & Hc2 & Hchunks).
    { intros tl itr Hl. rewrite Hitrs in Hl. case_decide as Hin; [|done]. apply fmap_Some in Hl as (k & Hk & ->).
      split; [apply (Htls tl Hin)|by eauto]. }
    exists chunks, c2. split; [done|]. split; [done|]. intros tl. specialize (Hchunks tl). rewrite Hitrs in Hchunks.
    destruct (decide (tl ∈ tls)) as [Hin|]; [|done]. destruct (Htls tl Hin) as [Hu _].
    destruct (itr_of tl (chunk_no tl t)) as [k|] eqn:Hk; cbn [fmap option_fmap option_map] in Hchunks.
    + destruct Hchunks as (chunk & k' & -> & <-%FormatInt_inj & Hid & Hok). cbn [answers].
      pose proof (chunk_itr tl chunk Hok) as Hki. rewrite Hid in *. split; [done|].
      unfold itr_of in Hk. destruct (upto tl (chunk_no tl t)) as [|x l] eqn:Hup; [done|]. injection Hk as Hkx.
      rewrite <- Hkx, <- Hup. by apply (upto_newest _ _ tl _ x l); [apply origins|].
    + rewrite Hchunks. cbn [answers]. unfold itr_of in Hk. by destruct (upto tl (chunk_no tl t)).
Qed.

Lemma origins_timelines tl : tl ∈ uris → timeline_ok timeline manifest_of tl.
Proof. intros Hu. by apply origins. Qed.

(** C24: whatever the cache holds or has lost, as long as it is coherent, the
    gateway's merged query answers with a page of the timelines as their
    servers have them, and leaves a coherent cache - provided that those servers
    answer every request a batch asks of them as their timelines are
    ([origin_ok]), that a batch itself gives no error, as the client's never does
    ([client_batch_online]), and that no timeline is hidden behind its newest
    chunk ([reaches_back]).  When fewer than five hundred items are eligible, a
    page that is not full holds all that is left. *)
Theorem gateway_page `{XXH3, MapOrder} limit c :
  coherent c → (∀ tl, tl ∈ uris → reaches_back timeline manifest_of until tl) →
  ∃ result removed c', QueryDescending (H := gateway now demand) uris until limit c = (Ok result, c') ∧ coherent c' ∧
    (∀ tl, tl ∈ uris → removable tl (removed tl)) ∧ page_of timeline uris removed until limit result ∧
    ((2 * sum_list_with (λ tl, length (eligible timeline until tl)) uris < itrlimit)%nat →
     Z.of_nat (length result) < limit →
     ∀ tl x, tl ∈ uris → x ∈ eligible timeline until tl → ID x ∉ removed tl → ID x ∈ (λ r, ID (bs_Item r)) <$> result).
Proof.
  apply (merged_page timeline manifest_of uris removable until origins_timelines
    (ChunkResolver0 := gateway now demand) coherent limit c).
Qed.

(** ** Maintenance

    Resolving any timelines, purging, and refreshing the lists of removed items
    keep the cache coherent. *)

Lemma entry_foreign key text : (∀ tl, tl ∈ uris → key ≠ manifestCacheKey tl ∧ (∀ q, key ≠ itrCacheKey tl q) ∧
  (∀ k, key ≠ bodyCacheKey tl (FormatInt k)) ∧ key ≠ removedCacheKey tl) → entry_ok key text.
Proof.
  intros Hk. split; intros tl v Hu ->; destruct (Hk tl Hu) as (Hm & Hi & Hb & Hr);
    [by destruct Hm|by destruct (Hi v)|by destruct (Hb v)|by destruct Hr].
Qed.

Lemma cache_manifest_keeps tl manifest : fetch_timeline tl = Ok manifest → keeps coherent (cache_manifest tl manifest).
Proof.
  intros Hf c Hc. destruct (decide (tl ∈ uris)) as [Hu|Hu].
  - rewrite (fetch_timeline_ok tl Hu) in Hf. injection Hf as <-.
    destruct (cache_manifest_ok tl c Hc) as (c' & -> & ?). done.
  - unfold cache_manifest. destruct (enc manifest_codec manifest); [|done..]. cbn. apply coherent_Set; [|done].
    apply entry_foreign. intros tl' Hu'. split; [intros <-%manifestCacheKey_inj; done|]. done.
Qed.

Lemma ResolveTimelines_keeps tls : keeps coherent (ResolveTimelines_ tls).
Proof.
  unfold ResolveTimelines_. apply keeps_bind; [by apply keeps_pure|]. intros items. apply keeps_collect. intros tl c Hc.
  destruct (fetch_timeline tl) as [manifest|e|] eqn:Hf; [|done..].
  change (coherent (snd ((let* _ := cache_manifest tl manifest in retM (Some manifest)) c))). revert c Hc.
  apply keeps_bind; [by apply cache_manifest_keeps|]. intros ?. by apply keeps_pure.
Qed.

Lemma Delete_keeps key : keeps coherent (modifyM (mc_Delete key)).
Proof. apply keeps_modify. intros c. apply coherent_Delete. Qed.

#[local] Hint Resolve ResolveTimelines_keeps Delete_keeps : keeps.

Lemma PurgeLatest_keeps prefixes depth : keeps coherent (PurgeLatest now prefixes depth).
Proof. unfold PurgeLatest. keeps_walk. Qed.

Lemma purge_replay_keeps keys : keeps coherent (purge_replay keys).
Proof. unfold purge_replay. keeps_walk. Qed.

Lemma CurrentSubscriptions_keeps open : keeps coherent (CurrentSubscriptions now demand open).
Proof. unfold CurrentSubscriptions, keep_alive. keeps_walk. Qed.

Lemma collect_endpoints (ep : string → result (string * string)) l m st :
  snd (collectM (S := C) (λ tl, skip_error (ep tl)) l m st) = st ∧
  ∀ requests, fst (collectM (S := C) (λ tl, skip_error (ep tl)) l m st) = Ok requests →
    ∀ tl a, requests !! tl = Some a → m !! tl = Some a ∨ ep tl = Ok a.
Proof.
  revert m. induction l as [|k l IH]; intros m; cbn [collectM].
  - split; [done|]. intros requests [= <-]. auto.
  - unfold bindM. destruct (ep k) as [a|e|] eqn:Hk; cbn [skip_error retM panicM fst snd]; [|apply IH|done].
    destruct (IH (<[k:=a]> m)) as [Hs Hr]. split; [done|]. intros requests Hrun tl b Hb.
    destruct (Hr requests Hrun tl b Hb) as [Hl|?]; [|auto].
    destruct (decide (k = tl)) as [->|Hne]; [rewrite lookup_insert_eq in Hl|rewrite lookup_insert_ne in Hl by done]; [|auto].
    right. congruence.
Qed.

(** Lists that the servers advertise may be cached. *)
Lemma refresh_removed_keeps timelines :
  (∀ requests rs tl, BatchGet requests = Ok rs → is_Some (rs !! tl) → ∃ a, asked requests tl a) →
  (∀ tl requests rs a body ids, tl ∈ uris → endpoint_of tl (Removed (manifest_of tl)) ∅ = Ok a → asked requests tl a →
    BatchGet requests = Ok rs → answered rs tl = Some body → dec ids_codec body = Ok ids → removable tl (default [] ids)) →
  (∀ tl, tl ∈ timelines → tl ∈ uris) → keeps coherent (refresh_removed timelines).
Proof.
  intros Hasked Hrem Htls c Hc. unfold refresh_removed. rewrite bindM_gets.
  set (stale := List.filter _ timelines). case_decide; [done|].
  destruct (ResolveTimelines_ok stale c Hc) as (ms & c1 & Hms & Hc1 & Hm); [intros tl [? _]%elem_of_filter_b; auto|].
  rewrite (bindM_ok _ _ _ _ _ Hms). unfold bindM at 1.
  pose proof (collect_endpoints (removed_endpoint ms) stale ∅ c1) as [Hst Hreq].
  destruct (collectM _ stale ∅ c1) as [[requests|e|] c2]; cbn [fst snd] in Hst, Hreq; subst c2; [|done..].
  case_decide; [done|]. destruct (BatchGet (requestsByDomain requests)) as [rs|e|] eqn:Hb; [|done..].
  assert (∀ tl, tl ∈ uris → ∀ body ids, answered rs tl = Some body → dec ids_codec body = Ok ids →
    removable tl (default [] ids)) as Hans.
  { intros tl Hu body ids Ha Hd. destruct (Hasked _ rs tl Hb) as [a Hask].
    { unfold answered in Ha. destruct (rs !! tl); [by eexists|done]. }
    destruct a as [domain url]. pose proof (requestsByDomain_inv _ _ _ _ Hask) as Hr.
    destruct (Hreq requests eq_refl tl _ Hr) as [He|He]; [by rewrite lookup_empty in He|].
    unfold removed_endpoint in He. rewrite Hm in He. case_decide; [|done]. case_match; [done|]. by eapply Hrem. }
  clear Hms Hreq. revert c1 Hc1. apply keeps_bind; [|intros ?; by apply keeps_pure]. apply keeps_for. intros tl.
  unfold take_removed. destruct (answered rs tl) as [body|] eqn:Ha; [|by apply keeps_pure].
  destruct (dec ids_codec body) as [ids| |] eqn:Hd; [|by apply keeps_pure..].
  destruct (enc ids_codec (Some (default [] ids))) as [value| |] eqn:He; [|by apply keeps_pure..].
  apply keeps_bind; [|intros ?]; apply keeps_modify; intros c'; apply coherent_Set; [|by apply entry_foreign].
  destruct (decide (tl ∈ uris)) as [Hu|Hu].
  - apply (removed_entry tl value (Some (default [] ids))); [by apply ids_back|]. cbn. by eapply Hans.
  - apply entry_foreign. intros tl' Hu'. repeat split; [done..|]. intros Heq%removedCacheKey_inj. congruence.
Qed.

End Coherence.

(** ** A new item

    The record's server inserts the item in its timeline; the cache follows. *)

Lemma filter_insert_item P x l : StronglySorted newer l →
  List.filter P (insert_item x l) = if P x then insert_item x (List.filter P l) else List.filter P l.
Proof.
  induction 1 as [|y l Hl IH Hf]; cbn; [done|]. destruct (Z.leb_spec (Timestamp y) (Timestamp x)) as [Hle|Hgt]; cbn.
  - destruct (P x); [|done]. destruct (P y); cbn.
    + by rewrite (proj2 (Z.leb_le _ _)).
    + symmetry. apply insert_item_head. apply Forall_forall. intros z [Hz _]%elem_of_filter_b.
      rewrite Forall_forall in Hf. specialize (Hf z Hz). unfold newer in *. lia.
  - rewrite IH. destruct (P x), (P y); cbn; try done. by rewrite (proj2 (Z.leb_gt _ _)).
Qed.

Lemma insert_item_app x a b : Forall (newer x) b → insert_item x (a ++ b) = insert_item x a ++ b.
Proof.
  intros Hb. induction a as [|y a IH]; cbn; [by apply insert_item_head|]. case_match; [done|]. by rewrite IH.
Qed.

Lemma insert_item_hd x l y : head (insert_item x l) = Some y → y = x ∨ head l = Some y.
Proof. destruct l as [|z l]; cbn; [|case_match; cbn]; intros [= <-]; auto. Qed.

Section Events.
Context (timeline : string → list BodyItem) (manifest_of : string → Manifest).
Context (uris : list string) (removable : string → list string → Prop).
Context {C : Type} `{MemcachedLaws C} `{GatewayJsonLaws} `{TimelineClient} `{Json}.
Context (tl0 : string) (item : BodyItem).

(** The timelines with the new item. *)
Definition timeline' (tl : string) : list BodyItem := if decide (tl = tl0) then insert_item item (timeline tl) else timeline tl.

Notation epoch := (chunk_no manifest_of tl0 (Timestamp item)).
Notation itr_of0 := (itr_of timeline manifest_of).
Notation itr_of1 := (itr_of timeline' manifest_of).

Context (timeline_was : timeline_ok timeline manifest_of tl0).
Context (item_time : 0 <= Timestamp item).
Context (latest : ∀ y, y ∈ timeline tl0 → chunk_no manifest_of tl0 (Timestamp y) <= epoch).

Lemma timeline'_eq : timeline' tl0 = insert_item item (timeline tl0).
Proof. unfold timeline'. by rewrite decide_True. Qed.

Lemma upto'_other tl q : tl ≠ tl0 → upto timeline' manifest_of tl q = upto timeline manifest_of tl q.
Proof. intros Hne. unfold upto, timeline'. by rewrite decide_False. Qed.

Lemma upto'_before q : q < epoch → upto timeline' manifest_of tl0 q = upto timeline manifest_of tl0 q.
Proof.
  intros Hq. unfold upto. rewrite timeline'_eq, filter_insert_item by apply timeline_was.
  pose proof (chunk_no_le manifest_of tl0 (Timestamp item) q (tk_size _ _ _ timeline_was) item_time).
  destruct (Z.ltb_spec (Timestamp item) ((q + 1) * ChunkSize (manifest_of tl0) * billion)); [|done]. exfalso. lia.
Qed.

Lemma upto'_epoch : upto timeline' manifest_of tl0 epoch = insert_item item (upto timeline manifest_of tl0 epoch).
Proof.
  unfold upto at 1. rewrite timeline'_eq, filter_insert_item by apply timeline_was.
  pose proof (chunk_no_le manifest_of tl0 (Timestamp item) epoch (tk_size _ _ _ timeline_was) item_time).
  destruct (Z.ltb_spec (Timestamp item) ((epoch + 1) * ChunkSize (manifest_of tl0) * billion)); [done|]. exfalso. lia.
Qed.

(** The newest item of the new timeline is of the new item's chunk. *)
Lemma itr'_epoch : itr_of1 tl0 epoch = Some epoch.
Proof.
  unfold itr_of. rewrite upto'_epoch. destruct (head (insert_item item (upto timeline manifest_of tl0 epoch))) as [y|] eqn:Hy.
  - cbn. f_equal. assert (newer y item) as Hn.
    { destruct (upto timeline manifest_of tl0 epoch) as [|z l]; cbn in Hy; [injection Hy as <-; unfold newer; lia|].
      destruct (Z.leb_spec (Timestamp z) (Timestamp item)); cbn in Hy; injection Hy as <-; unfold newer; lia. }
    apply insert_item_hd in Hy as [->|Hy]; [done|].
    assert (y ∈ upto timeline manifest_of tl0 epoch) as [Hyt _]%elem_of_filter_b
      by (destruct (upto timeline manifest_of tl0 epoch); cbn in Hy; simplify_eq; by left).
    pose proof (latest y Hyt). pose proof (chunk_no_mono manifest_of tl0 _ _ (tk_size _ _ _ timeline_was) Hn). lia.
  - exfalso. destruct (upto timeline manifest_of tl0 epoch); cbn in Hy; [done|]. by case_match.
Qed.

(** A body of the chunk, with the item, is a body of the chunk. *)
Lemma chunk_gains items : chunk_ok timeline manifest_of tl0 (mkBodyChunk tl0 epoch (newest_first items)) →
  chunk_ok timeline' manifest_of tl0 (mkBodyChunk tl0 epoch (newest_first (item :: items))).
Proof.
  intros [Hne (post & Hup & Hpost) Hnew]. rewrite newest_first_cons. cbn [ChunkID Items] in *. split; cbn [ChunkID Items].
  - intros Hnil. pose proof (insert_item_perm item (newest_first items)) as Hp. rewrite Hnil in Hp. by apply Permutation_nil_cons in Hp.
  - exists post. rewrite upto'_epoch, Hup. split; [|done]. apply insert_item_app. eapply Forall_impl; [exact Hpost|].
    intros y Hy. cbn in Hy. unfold newer. destruct (Z.le_gt_cases (Timestamp y) (Timestamp item)) as [?|Hgt]; [done|].
    pose proof (chunk_no_mono manifest_of tl0 _ _ (tk_size _ _ _ timeline_was) (Z.lt_le_incl _ _ Hgt)). lia.
  - intros y [->|Hy]%insert_item_hd; [done|]. by apply Hnew.
Qed.

(** Chunks before the item's are what they were. *)
Lemma chunk_keeps tl k items : tl ≠ tl0 ∨ k ≠ epoch →
  chunk_ok timeline manifest_of tl (mkBodyChunk tl k items) → chunk_ok timeline' manifest_of tl (mkBodyChunk tl k items).
Proof.
  intros Hk [Hne (post & Hup & Hpost) Hnew]. cbn [ChunkID Items] in *. split; cbn [ChunkID Items]; [done| |done].
  exists post. split; [|done]. rewrite <- Hup. destruct (decide (tl = tl0)) as [->|?]; [|by apply upto'_other].
  destruct Hk as [?|Hk]; [done|]. apply upto'_before. destruct items as [|x l]; [done|].
  specialize (Hnew x eq_refl). assert (x ∈ upto timeline manifest_of tl0 k) as [Hx _]%elem_of_filter_b by (rewrite Hup; by left).
  pose proof (latest x Hx). lia.
Qed.

Lemma itr_keeps tl q k : tl ≠ tl0 ∨ q < epoch → itr_of0 tl q = Some k → itr_of1 tl q = Some k.
Proof.
  unfold itr_of. intros Hq. destruct (decide (tl = tl0)) as [->|?]; [|by rewrite upto'_other].
  destruct Hq as [?|Hq]; [done|]. by rewrite upto'_before.
Qed.

(** The entries that the item does not touch. *)
Lemma entry_keeps key text : key ≠ itrCacheKey tl0 epoch → key ≠ bodyCacheKey tl0 (FormatInt epoch) →
  (∀ q, key = itrCacheKey tl0 q → q < epoch) →
  entry_ok timeline manifest_of uris removable key text → entry_ok timeline' manifest_of uris removable key text.
Proof.
  intros Hi Hb Hold [Hm Hit Hbd Hr]. split; [done| | |done].
  - intros tl q Hu ->. destruct (Hit tl q Hu eq_refl) as (k & -> & Hk). exists k. split; [done|]. apply itr_keeps; [|done].
    destruct (decide (tl = tl0)) as [->|]; [right; by apply Hold|by left].
  - intros tl k Hu ->. destruct (Hbd tl k Hu eq_refl) as (items & Hh & Hc). exists items. split; [done|].
    apply chunk_keeps; [|done]. destruct (decide (tl = tl0)) as [->|]; [right; congruence|by left].
Qed.

Context (served_here : tl0 ∈ uris) (manifest_found : fetch_manifest tl0 = Ok (manifest_of tl0)).

Notation coherent0 := (coherent timeline manifest_of uris removable).
Notation coherent1 := (coherent timeline' manifest_of uris removable).

(** No iterator of a chunk after the item's is cached. *)
Definition no_later (c : C) : Prop := ∀ q text, mc_Get (itrCacheKey tl0 q) c = Some text → q <= epoch.

Lemma resolveTimeline_ok c : coherent0 c → no_later c →
  ∃ c', resolveTimeline tl0 c = (Ok (manifest_of tl0), c') ∧ coherent0 c' ∧ no_later c'.
Proof.
  intros Hc Hl. unfold resolveTimeline. rewrite bindM_gets.
  destruct (mc_Get (manifestCacheKey tl0) c ≫= cached_manifest) as [m|] eqn:Hm.
  - apply bind_Some in Hm as (text & Hg & Hm). exists c. split; [|done].
    by rewrite (eo_manifest _ _ _ _ _ _ (Hc _ _ Hg) tl0 m served_here eq_refl Hm).
  - pose proof (tk_size _ _ _ timeline_was) as Hs. unfold fetch_timeline. rewrite manifest_found.
    cbn [mbind result_bind rbind]. rewrite (proj2 (Z.leb_gt _ _)) by done. rewrite bindM_lift. unfold cache_manifest.
    destruct (enc manifest_codec (manifest_of tl0)) as [bytes| |] eqn:He; [|by exists c..].
    eexists. split; [reflexivity|]. split.
    + apply (coherent_Set timeline manifest_of uris removable); [|done]. by apply manifest_entry.
    + intros q text Hg%Set_law. rewrite decide_False in Hg by (intros Hk; discriminate Hk). by apply (Hl q text).
Qed.

(** C25: the update of the cache for the event that reports a new item carries a
    cache coherent with the timelines before over to the timelines with the item,
    when the item is of the timeline's latest chunk - no item is of a later one -
    and no iterator of a later chunk is cached.  An event that comes so late that
    its item is of an earlier chunk is not covered. *)
Theorem event_followed event text c :
  record_timeline (ev_URI event) = Some tl0 → event_item event = item → item_text item = Ok text →
  coherent0 c → no_later c →
  ∃ c', applyEventToCache event c = (Ok tt, c') ∧ coherent1 c'.
Proof.
  intros Hrec Hitem Htext Hc Hl. unfold applyEventToCache. rewrite Hrec.
  destruct (resolveTimeline_ok c Hc Hl) as (c1 & Hres & Hc1 & Hl1).
  assert (tryM (resolveTimeline tl0) c = (Ok (Ok (manifest_of tl0)), c1)) as Htry by (unfold tryM; by rewrite Hres).
  rewrite (bindM_ok _ _ _ _ _ Htry). pose proof (tk_size _ _ _ timeline_was) as Hs.
  assert (Time2Chunk (manifest_of tl0) (ev_Timestamp event) = Ok epoch) as Ht.
  { unfold Time2Chunk. rewrite (proj2 (Z.eqb_neq _ _)) by lia. by rewrite <- Hitem. }
  rewrite bindM_lift, Ht, bindM_modify, Hitem, Htext. eexists. split; [reflexivity|].
  intros key w Hw%Prepend_law. case_decide as Hkb.
  - subst key. destruct Hw as (old & Hold & ->). apply Replace_law in Hold. rewrite decide_False in Hold by (intros Hk; discriminate Hk).
    destruct (eo_body _ _ _ _ _ _ (Hc1 _ _ Hold) tl0 epoch served_here eq_refl) as (items & Hh & Hok).
    apply (body_entry_ok timeline' manifest_of uris removable tl0 epoch _ (item :: items)).
    + by apply prepend_holds.
    + by apply chunk_gains.
  - apply Replace_law in Hw. case_decide as Hki.
    + destruct Hw as [-> _]. subst key. apply itr_entry, itr'_epoch.
    + apply entry_keeps; [done|done| |by apply Hc1]. intros q ->. pose proof (Hl1 q w Hw).
      destruct (decide (q = epoch)) as [->|]; [done|lia].
Qed.

End Events.
