(* ===== verification/GatewayWorld.v ===== *)
(** * GatewayWorld: a cache and a server that run

    A memcached that loses nothing, texts for what it holds, and one server
    with one timeline carry the witnesses of the gateway's theorems; two runs
    show how an entry goes wrong. *)

From S2P Require Import Prelude Effects Bytes Url Documents Numbers Heap Chunkline ChunklineFacts Client Gateway GatewayFacts.
From stdpp Require Import prelude strings pretty countable gmap list sorting.
From Stdlib Require Import ZArith Lia Ascii.
Open Scope Z_scope.
Open Scope uc_scope.

(** ** A map as the cache *)

#[export] Instance map_cache : Memcached (gmap string string) := {|
  mc_Get := λ k c, c !! k;
  mc_GetMulti := λ ks c, map_of (c !!.) ks;
  mc_Set := λ k v c, <[k := v]> c;
  mc_Add := λ k v c, match c !! k with Some _ => c | None => <[k := v]> c end;
  mc_Replace := λ k v c, match c !! k with Some _ => <[k := v]> c | None => c end;
  mc_Prepend := λ k v c, match c !! k with Some old => <[k := v +:+ old]> c | None => c end;
  mc_Delete := λ k c, delete k c;
|}.

#[export] Instance map_cache_laws : MemcachedLaws (gmap string string).
Proof.
  split; cbn.
  - intros ks c k v. rewrite lookup_map_of. by case_decide.
  - intros k v c j w. case_decide as Hj; [subst; rewrite lookup_insert_eq; congruence|by rewrite lookup_insert_ne].
  - intros k v c j w. destruct (c !! k) eqn:Hk; [by left|]. destruct (decide (j = k)) as [->|].
    + rewrite lookup_insert_eq. intros [= <-]. by right.
    + rewrite lookup_insert_ne by done. by left.
  - intros k v c j w. destruct (c !! k) as [old|] eqn:Hk.
    + case_decide as Hj; [subst; rewrite lookup_insert_eq; intros [= <-]; eauto|by rewrite lookup_insert_ne].
    + case_decide as Hj; [|done]. subst. congruence.
  - intros k v c j w. destruct (c !! k) as [old|] eqn:Hk.
    + case_decide as Hj; [subst; rewrite lookup_insert_eq; intros [= <-]; eauto|by rewrite lookup_insert_ne].
    + case_decide as Hj; [|done]. subst. congruence.
  - intros k c j w Hj%lookup_delete_Some. naive_solver.
Qed.

(** ** Texts: two letters a byte, numbers in digits *)

Fixpoint letters (s : string) : string :=
  match s with
  | EmptyString => ""
  | String c s => String (ascii_of_nat (97 + nat_of_ascii c / 16)) (String (ascii_of_nat (97 + nat_of_ascii c mod 16)) (letters s))
  end.

Fixpoint unletters (s : string) : string :=
  match s with
  | String a (String b s) => String (ascii_of_nat (16 * (nat_of_ascii a - 97) + (nat_of_ascii b - 97))) (unletters s)
  | _ => ""
  end.

Lemma unletters_letters s : unletters (letters s) = s.
Proof.
  induction s as [|c s IH]; [done|]. cbn [letters unletters]. rewrite IH. f_equal. revert s IH. intros _ _.
  pose proof (ascii_all (λ c, Ascii.eqb (ascii_of_nat (16 * (nat_of_ascii (ascii_of_nat (97 + nat_of_ascii c / 16)) - 97) +
    (nat_of_ascii (ascii_of_nat (97 + nat_of_ascii c mod 16)) - 97))) c) eq_refl c) as Hc. by apply Ascii.eqb_eq in Hc.
Qed.

Definition low_letter (c : ascii) : bool := (97 <=? nat_of_ascii c)%nat && (nat_of_ascii c <=? 112)%nat.
Lemma letters_class s : Str.forallb low_letter (letters s) = true.
Proof.
  induction s as [|c s IH]; [done|]. cbn [letters Str.forallb]. rewrite IH, andb_true_r.
  exact (ascii_all (λ c, low_letter (ascii_of_nat (97 + nat_of_ascii c / 16)) &&
    low_letter (ascii_of_nat (97 + nat_of_ascii c mod 16))) eq_refl c).
Qed.
Lemma letters_lacks c s : low_letter c = false → lacks c (letters s).
Proof.
  intros Hc. eapply str_forallb_impl; [|apply letters_class]. intros d Hd. apply negb_true_iff, Ascii.eqb_neq. congruence.
Qed.

Definition number_text (z : Z) : string := pretty (Npos (encode z)).
Definition number_read (s : string) : result Z :=
  if String.eqb s "" then Err syntax_error
  else n ← parse_digits 0 s; of_option syntax_error (decode (Z.to_pos n)).

Lemma number_back z : number_read (number_text z) = Ok z.
Proof.
  unfold number_read, number_text. set (p := encode z).
  change (pretty (N.pos p)) with (pretty_N_go (N.pos p) "").
  destruct (pretty_N_go_head (N.pos p) "" ltac:(done)) as (d & rest & _ & Hgo). rewrite Hgo at 1. cbn [String.eqb].
  rewrite (parse_digits_go (N.pos p) "" ltac:(done)). cbn [parse_digits mbind result_bind rbind Z.of_N Z.to_pos].
  unfold p. by rewrite decode_encode.
Qed.

Lemma number_lacks c z : (∀ d, (d < 10)%N → pretty_N_char d ≠ c) → lacks c (number_text z).
Proof. intros Hc. by apply pretty_N_go_lacks. Qed.

Definition item_parts (b : BodyItem) : list string :=
  [number_text (Timestamp b); letters (Content b); letters (ContentType b); letters (Href b)].
Definition item_encode (b : BodyItem) : string := Str.join (item_parts b) "|".
Definition item_decode (s : string) : result BodyItem :=
  match Str.split s "|" with
  | [t; c; ct; h] => z ← number_read t; Ok (mkBodyItem z (unletters c) (unletters ct) (unletters h))
  | _ => Err syntax_error
  end.

Lemma not_a_digit c : c ∈ [","; "|"]%char → ∀ d, (d < 10)%N → pretty_N_char d ≠ c.
Proof.
  intros Hc d Hd. apply digits_all in Hd.
  repeat (apply elem_of_cons in Hc as [->|Hc]; [repeat (apply elem_of_cons in Hd as [->|Hd]; [discriminate|]); by apply elem_of_nil in Hd|]).
  by apply elem_of_nil in Hc.
Qed.

Lemma part_lacks c b part : c ∈ [","; "|"]%char → part ∈ item_parts b → lacks c part.
Proof.
  intros Hc Hp. assert (low_letter c = false) as Hl
    by (repeat (apply elem_of_cons in Hc as [->|Hc]; [reflexivity|]); by apply elem_of_nil in Hc).
  apply elem_of_cons in Hp as [->|Hp]; [apply number_lacks; by apply not_a_digit|].
  repeat (apply elem_of_cons in Hp as [->|Hp]; [by apply letters_lacks|]). by apply elem_of_nil in Hp.
Qed.

Lemma item_back b : item_decode (item_encode b) = Ok b.
Proof.
  unfold item_decode, item_encode. rewrite split_join_lacks.
  - unfold item_parts. rewrite number_back. cbn. rewrite !unletters_letters. by destruct b.
  - done.
  - apply Forall_forall. intros part. apply part_lacks. right. by left.
Qed.

Lemma item_no_comma b : lacks "," (item_encode b).
Proof.
  unfold item_encode, item_parts, Str.join. cbn [String.concat].
  assert (∀ part, part ∈ item_parts b → Str.forallb (λ d, negb (Ascii.eqb d ",")) part = true) as Hp
    by (intros part Hin; apply (part_lacks "," b); [by left|done]).
  unfold lacks. rewrite !str_forallb_app. unfold item_parts in Hp.
  rewrite (Hp (number_text _)), (Hp (letters (Content b))), (Hp (letters (ContentType b))), (Hp (letters (Href b)))
    by (repeat ((by left) || right)). done.
Qed.

(** What is between the brackets, at its commas. *)
Definition read_array (s : string) : result (option (list BodyItem)) :=
  let inner := Str.take (Str.len s - 2) (Str.drop 1 s) in
  if String.eqb inner "" then Ok (Some [])
  else items ← traverse item_decode (Str.split inner ","); Ok (Some items).

Definition ids_text (ids : option (list string)) : result string :=
  match ids with None => Ok "null" | Some ids => Ok (Str.join ("" :: (letters <$> ids)) ",") end.
Definition ids_read (s : string) : result (option (list string)) :=
  if String.eqb s "null" then Ok None else Ok (Some (unletters <$> tail (Str.split s ","))).

#[export] Instance plain_json : GatewayJson := {|
  manifest_codec := mkCodec Manifest (λ _, Err syntax_error) (λ _, Err syntax_error);
  ids_codec := mkCodec (option (list string)) ids_read ids_text;
  item_text := λ item, Ok (item_encode item);
  unmarshal_items := read_array;
  decode_items := read_array;
|}.

Lemma ids_back_ ids text : ids_text ids = Ok text → ids_read text = Ok ids.
Proof.
  destruct ids as [ids|]; [|by intros [= <-]]. intros Ht.
  assert (text = Str.join ("" :: (letters <$> ids)) ",") as -> by (by injection Ht). clear Ht. unfold ids_read.
  destruct (String.eqb_spec (Str.join ("" :: (letters <$> ids)) ",") "null") as [Heq|_]; [by destruct ids|].
  rewrite split_join_lacks.
  - cbn [tail]. do 2 f_equal. rewrite <- list_fmap_compose. induction ids as [|i ids IH]; [done|].
    rewrite fmap_cons, IH. f_equal. apply unletters_letters.
  - done.
  - constructor; [done|]. apply Forall_forall. intros t (i & -> & _)%list_elem_of_fmap. by apply letters_lacks.
Qed.

Lemma traverse_items (items : list BodyItem) : traverse item_decode (item_encode <$> items) = Ok items.
Proof. induction items as [|x l IH]; [done|]. rewrite fmap_cons. cbn [traverse]. by rewrite item_back, IH. Qed.

Lemma traverse_texts (items : list BodyItem) texts :
  traverse (item_text (GatewayJson := plain_json)) items = Ok texts → texts = item_encode <$> items.
Proof.
  revert texts. induction items as [|x l IH]; cbn; intros texts; [by intros [= <-]|].
  destruct (traverse _ l) as [ts| |]; cbn; [|done..]. intros [= <-]. by rewrite (IH ts eq_refl).
Qed.

#[export] Instance plain_json_laws : GatewayJsonLaws.
Proof.
  split.
  - done.
  - apply ids_back_.
  - intros items texts Ht. apply traverse_texts in Ht as ->. cbn. unfold read_array.
    cbn [Str.drop]. change (Str.len (String "[" ?x)) with (S (Str.len x)). rewrite str_len_app.
    replace (_ - 2)%nat with (Str.len (Str.join (item_encode <$> items) ",")) by (cbn; lia). rewrite str_take_app.
    pose proof (traverse_items items) as Hback. destruct items as [|x l]; [done|].
    set (texts := item_encode <$> x :: l) in *.
    assert (Str.split (Str.join texts ",") "," = texts) as Hsplit.
    { apply split_join_lacks; [done|]. apply Forall_forall. intros t (y & -> & _)%list_elem_of_fmap. apply item_no_comma. }
    rewrite Hsplit, Hback. destruct (String.eqb_spec (Str.join texts ",") "") as [Hnil|]; [|done].
    rewrite Hnil in Hsplit. rewrite <- Hsplit in Hback. done.
Qed.

(** ** A server with one timeline *)

Definition home : string := "https://t.example/home".
Definition item_at (second : Z) (href : string) : BodyItem := mkBodyItem (second * billion) "" "" href.
Definition home_items : list BodyItem := [item_at 700 "b"; item_at 650 "a"].
Definition home_manifest : Manifest :=
  mkManifest "1.0" 600 (Some 1) (Some 1) None (Some (mkEndpoint "/itr/{chunk}" "/body/{chunk}")) "" ANil.
Definition home_timeline (tl : string) : list BodyItem := if String.eqb tl home then home_items else [].
Definition home_manifest_of (_ : string) : Manifest := home_manifest.

(** One variable of a template. *)
#[export] Instance chunk_template : UriTemplate := λ template args,
  let '(before, rest, _) := Str.cut template "{" in
  let '(_, after, _) := Str.cut rest "}" in
  Ok (before +:+ default "" (args !! "chunk") +:+ after).

#[export] Instance no_ips : Url.NetIP := λ _, false.

(** What is sent for items: a body's text. *)
Definition body_text (items : list BodyItem) : string :=
  match marshal_items (Some items) with Ok text => text | _ => "" end.

Definition respond (itr : string) (items : list BodyItem) (url : string) : Response :=
  if Str.has_prefix url "https://t.example/itr/" then mkResponse 200 (Ok itr)
  else if String.eqb url "https://t.example/body/1" then mkResponse 200 (Ok (body_text items))
  else mkResponse 404 (Ok "").

Definition one_server (manifest : Manifest) (itr : string) (items : list BodyItem) : TimelineClient := {|
  fetch_manifest := λ _, Ok manifest;
  ResolveResourceHost := λ _, Err (GoError "");
  BatchGet := λ requests,
    Ok (map_of (λ tl, respond itr items <$> (requests !! "t.example" ≫= (.!! tl))) [home]);
|}.

Lemma one_server_answers manifest itr items requests rs url :
  BatchGet (TimelineClient := one_server manifest itr items) requests = Ok rs →
  asked requests home ("t.example", url) → rs !! home = Some (respond itr items url).
Proof.
  unfold asked. cbn [fst snd]. intros Hb Ha.
  assert (rs = map_of (λ tl, respond itr items <$> (requests !! "t.example" ≫= (.!! tl))) [home]) as -> by (by injection Hb).
  rewrite lookup_map_of, decide_True by by left. by rewrite Ha.
Qed.

#[local] Instance home_client : TimelineClient := one_server home_manifest "1" home_items.

Lemma home_chunk x : x ∈ home_items → chunk_no home_manifest_of home (Timestamp x) = 1.
Proof. intros Hx. repeat (apply elem_of_cons in Hx as [->|Hx]; [reflexivity|]). by apply elem_of_nil in Hx. Qed.

Lemma home_itr q k : itr_of home_timeline home_manifest_of home q = Some k → k = 1.
Proof.
  unfold itr_of. destruct (upto home_timeline home_manifest_of home q) as [|x l] eqn:Hup; [done|]. intros [= <-].
  assert (x ∈ upto home_timeline home_manifest_of home q) as [Hx _]%elem_of_filter_b by (rewrite Hup; by left).
  by apply home_chunk.
Qed.

Lemma home_body : chunk_ok home_timeline home_manifest_of home (mkBodyChunk home 1 home_items).
Proof. split; [done|by exists []|]. intros x [= <-]. reflexivity. Qed.

Lemma home_timeline_ok : timeline_ok home_timeline home_manifest_of home.
Proof.
  split; [done|done| | |].
  - change (home_timeline home) with home_items. unfold home_items.
    repeat constructor; unfold newer; cbn; unfold billion; lia.
  - change (home_timeline home) with home_items. repeat constructor; cbn; unfold billion; lia.
  - change (home_timeline home) with home_items. repeat constructor.
Qed.

Lemma home_ok : origin_ok home_timeline home_manifest_of home.
Proof.
  split.
  - apply home_timeline_ok.
  - done.
  - intros f q [= <-] Hq. cbn. unfold billion. rewrite !(proj2 (Z.ltb_ge _ _)) by lia. done.
  - intros l q [= <-] Hq. cbn. unfold billion. rewrite !(proj2 (Z.ltb_lt _ _)) by lia. done.
  - apply Forall_forall. intros x Hx. by rewrite home_chunk.
  - intros d [= <-]. done.
  - by eexists.
  - intros d q [= <-] [Hf Hl]. specialize (Hf 1 eq_refl). specialize (Hl 1 eq_refl). assert (q = 1) as -> by lia.
    eexists. split; [vm_compute; reflexivity|]. intros requests rs Ha Hb.
    replace (itr_of _ _ _ _) with (Some 1) by (vm_compute; reflexivity). exists "1". split; [|reflexivity].
    unfold answered. by rewrite (one_server_answers _ _ _ _ _ _ Hb Ha).
  - intros d k [= <-] [q ->%home_itr]. eexists. split; [vm_compute; reflexivity|]. intros requests rs Ha Hb.
    exists (body_text home_items), home_items. split; [|split; [vm_compute; reflexivity|apply home_body]].
    unfold answered. by rewrite (one_server_answers _ _ _ _ _ _ Hb Ha).
Qed.

Definition any_removed (_ : string) (_ : list string) : Prop := True.
Notation home_coherent := (coherent home_timeline home_manifest_of [home] any_removed).

(** The latest body is cached already. *)
Definition warm : gmap string string := mc_Set (bodyCacheKey home (FormatInt 1)) (body_entry (body_text home_items)) ∅.

Lemma empty_coherent timeline manifest_of uris removable : coherent timeline manifest_of uris removable (∅ : gmap string string).
Proof. intros k w. cbn. by rewrite lookup_empty. Qed.

Lemma warm_coherent : home_coherent warm.
Proof.
  apply (coherent_Set home_timeline home_manifest_of [home] any_removed); [|apply empty_coherent].
  apply (body_entry_ok _ _ _ _ _ _ _ home_items); [apply body_entry_holds; [done|vm_compute; reflexivity]|].
  replace (newest_first home_items) with home_items by (vm_compute; reflexivity). apply home_body.
Qed.

Lemma home_origins tl : tl ∈ [home] → origin_ok home_timeline home_manifest_of tl.
Proof. intros ->%list_elem_of_singleton. apply home_ok. Qed.

Lemma home_online requests : ∃ rs, BatchGet requests = Ok rs.
Proof. eexists. reflexivity. Qed.

Definition href_hash : XXH3 := λ s, s.
#[local] Instance some_order : MapOrder.
Proof. exists (λ m, map_to_list m). done. Defined.

Lemma home_back tl : tl ∈ [home] → reaches_back home_timeline home_manifest_of (800 * billion) tl.
Proof.
  intros ->%list_elem_of_singleton (x & Hx & Hge & _) _. exfalso.
  repeat (apply elem_of_cons in Hx as [->|Hx]; [cbn in Hge; unfold billion in Hge; lia|]). by apply elem_of_nil in Hx.
Qed.

Lemma gateway_page_witness : ∃ result c',
  QueryDescending (H := gateway (800 * billion) []) (H0 := href_hash) [home] (800 * billion) 10 warm = (Ok result, c') ∧
  (Href ∘ bs_Item) <$> result = ["b"; "a"] ∧ home_coherent c'.
Proof.
  destruct (gateway_page home_timeline home_manifest_of [home] any_removed (800 * billion) (800 * billion) [] home_origins
    home_online ltac:(done) (H6 := href_hash) 10 warm warm_coherent home_back) as (result & removed & c' & Hq & Hc & _).
  exists result, c'. split; [exact Hq|]. split; [|exact Hc].
  assert (fst (QueryDescending (H := gateway (800 * billion) []) (H0 := href_hash) [home] (800 * billion) 10 warm) = Ok result)
    as He by (rewrite Hq; reflexivity).
  clear Hq Hc. vm_compute in He. injection He as <-. reflexivity.
Defined.

(** ** An event *)

#[local] Instance no_json : Json.
Proof. split; intros; exact (Err syntax_error). Defined.

Definition new_post : Event := mkEvent "created" "" "https://t.example/home/c" None ∅ (750 * billion).
Definition new_item : BodyItem := event_item new_post.
Definition warm_itr : gmap string string := mc_Set (itrCacheKey home 1) "1" warm.

Lemma warm_itr_coherent : home_coherent warm_itr.
Proof.
  apply (coherent_Set home_timeline home_manifest_of [home] any_removed); [|apply warm_coherent].
  change "1" with (FormatInt 1). by apply itr_entry.
Qed.

Lemma home_latest y : y ∈ home_timeline home →
  chunk_no home_manifest_of home (Timestamp y) <= chunk_no home_manifest_of home (Timestamp new_item).
Proof. intros Hy. by rewrite home_chunk. Qed.

Lemma warm_no_later : no_later home_manifest_of home new_item warm_itr.
Proof.
  intros q text. unfold warm_itr, warm. cbn [mc_Get mc_Set map_cache]. intros Hg.
  apply lookup_insert_Some in Hg as [[[_ <-]%itrCacheKey_inj _]|[_ Hg]]; [vm_compute; discriminate|].
  apply lookup_insert_Some in Hg as [[Hk _]|[_ Hg]]; [discriminate Hk|done].
Qed.

Lemma event_followed_witness : ∃ c',
  applyEventToCache new_post warm_itr = (Ok tt, c') ∧
  coherent (timeline' home_timeline home new_item) home_manifest_of [home] any_removed c' ∧
  mc_Get (bodyCacheKey home "1") c' = Some (body_entry (body_text (new_item :: home_items))).
Proof.
  destruct (event_followed home_timeline home_manifest_of [home] any_removed home new_item home_timeline_ok
    ltac:(vm_compute; discriminate) home_latest ltac:(by left) eq_refl new_post (item_encode new_item) warm_itr
    eq_refl eq_refl eq_refl warm_itr_coherent warm_no_later) as (c' & Hrun & Hc).
  exists c'. split; [exact Hrun|]. split; [exact Hc|].
  assert (snd (applyEventToCache new_post warm_itr) = c') as <- by (rewrite Hrun; reflexivity). vm_compute. reflexivity.
Defined.

(** ** Entries that go wrong *)

(** The items of the latest chunk are removed between the lookup of its
    iterator and the load of its body: the empty body is kept as a comma, and
    the next item prepended to it leaves no array.  The timeline is then dropped
    from every answer, while its server has the item. *)
Definition emptied : TimelineClient := one_server home_manifest "1" [].
Definition refilled : TimelineClient := one_server home_manifest "1" [new_item].
Definition latest_query : gmap string string := {[home := "1"]}.

(** What a run answers for the timeline. *)
Definition of_home {A S} (run : result (gmap string A) * S) : option A :=
  match fst run with Ok m => m !! home | _ => None end.

Example empty_body_poisons :
  let load client := LoadChunkBodies_ (H1 := client) (760 * billion) [home] latest_query in
  let updated := snd (applyEventToCache (H1 := refilled) new_post (snd (load emptied ∅))) in
  (of_home (load refilled updated), of_home (load refilled (∅ : gmap string string)))
  = (None, Some (mkBodyChunk home 1 [new_item])).
Proof. vm_compute. reflexivity. Qed.

(** A lookup with a time in the future keeps an iterator of a chunk to come:
    that chunk is not the latest, so it is kept though nobody subscribes.  When
    the time has come, the entry hides what was added since. *)
Definition open_manifest : Manifest :=
  mkManifest "1.0" 600 (Some 1) None None (Some (mkEndpoint "/itr/{chunk}" "/body/{chunk}")) "" ANil.
Definition server_at (itr : string) : TimelineClient := one_server open_manifest itr home_items.

Example future_lookup_hides :
  let lookup itr now := LookupChunkItrs_ (H1 := server_at itr) (now * billion) [] [home] (3100 * billion) in
  let early := lookup "1" 760 ∅ in
  (of_home early, of_home (lookup "4" 3100 (snd early)), of_home (lookup "4" 3100 (∅ : gmap string string)))
  = (Some "1", Some "1", Some "4").
Proof. vm_compute. reflexivity. Qed.
