(* ===== verification/ClientFacts.v ===== *)
(** * ClientFacts: what the client guarantees

    Its cache stays well typed; a record it hands out was verified, now or when
    the same content was seen before; its recursion ends; hosts that do not answer are probed ever less often. *)

From S2P Require Import Prelude Effects Bytes Url Cdid Ccuri Documents Verify Store Client.
From stdpp Require Import prelude strings gmap list pretty.
From Stdlib Require Import ZArith Lia Ascii.
Open Scope Z_scope.
Open Scope uc_scope.

(** ** Backoff *)

Lemma pow_ratio_mono n m : 0 <= n <= m → 3 ^ n / 2 ^ (n + 1) <= 3 ^ m / 2 ^ (m + 1).
Proof.
  intros [Hn Hm]. apply Z.div_le_lower_bound; [apply Z.pow_pos_nonneg; lia|].
  pose proof (Z.mul_div_le (3 ^ n) (2 ^ (n + 1)) ltac:(apply Z.pow_pos_nonneg; lia)) as Hd.
  replace (m + 1) with (m - n + (n + 1)) by lia. rewrite Z.pow_add_r by lia.
  assert (3 ^ m = 3 ^ (m - n) * 3 ^ n) as -> by (rewrite <- Z.pow_add_r by lia; f_equal; lia).
  assert (0 < 2 ^ (m - n) <= 3 ^ (m - n)) by (split; [apply Z.pow_pos_nonneg; lia|apply Z.pow_le_mono_l; lia]).
  pose proof (Z.pow_pos_nonneg 3 n ltac:(lia) Hn). nia.
Qed.

(** a host that keeps failing is probed at growing intervals with a cap -
    of an hour and a half, not the ten minutes the code's comments say. *)
Theorem probe_span_bounds n m :
  0 <= n <= m →
  probe_span 0 = 0 ∧ probe_span n <= probe_span m <= 5611 * second ∧ probe_span maxFailCount = 5611 * second ∧
  10 * minute < probe_span maxFailCount.
Proof.
  intros Hn. split; [done|]. split; [|by vm_compute].
  unfold probe_span. assert (0 <= Z.min n maxFailCount <= Z.min m maxFailCount) as H1 by (unfold maxFailCount; lia).
  assert (0 <= Z.min m maxFailCount <= maxFailCount) as H2 by (unfold maxFailCount; lia).
  apply pow_ratio_mono in H1, H2. change (3 ^ maxFailCount / 2 ^ (maxFailCount + 1)) with 5611 in H2.
  unfold second. lia.
Qed.

Section Facts.
Context `{Web} `{ClientJson} `{UriTemplate} `{Url.NetIP} `{Json} `{Keccak} `{Secp256k1} `{StoreCodec}.
Context (defaultResolver : string) (resolver : Resolver).

(** ** The cache

    An entry fits its key: the type the code asserts when it reads the key,
    and a remembered hash is that of a document that was accepted. *)
Definition fits (key : string) (e : Entry) : Prop :=
  match e with
  | ServerEntry _ => Str.has_prefix key "server:" = true
  | BytesEntry _ => Str.has_prefix key "resource:" = true ∨ Str.has_prefix key "call:" = true
  | HashEntry h => Str.has_prefix key "verified:" = true ∧
      ∃ sd, docHash sd = Ok h ∧ authorised resolver maxVerifyDepth sd
  end.

Definition cache_ok (c : Client) : Prop := ∀ key e t, cl_cache c !! key = Some (e, t) → fits key e.

Lemma cache_lookup_fits c key e : cache_ok c → cache_lookup c key = Some e → fits key e.
Proof.
  unfold cache_lookup. intros Hc Hl. destruct (cl_cache c !! key) as [[e' t]|] eqn:E; [|done].
  destruct (t <? _); [done|]. injection Hl as <-. by eapply Hc.
Qed.

Lemma keeps_cache_set key e : fits key e → keeps cache_ok (cache_set key e).
Proof.
  intros He c Hc k e' t. cbn. rewrite lookup_insert_Some. intros [[<- [= <- <-]]|[_ Hl]]; [done|]. by eapply Hc.
Qed.

Lemma keeps_cache_delete key : keeps cache_ok (cache_delete key).
Proof. intros c Hc k e t. cbn. rewrite lookup_delete_Some. intros [_ Hl]. by eapply Hc. Qed.

(** What does not touch the cache. *)
Lemma keeps_same_cache {A} (m : CM A) : (∀ c, cl_cache (snd (m c)) = cl_cache c) → keeps cache_ok m.
Proof. intros Hm c Hc key e t. rewrite Hm. apply Hc. Qed.

Lemma keeps_mark domain : keeps cache_ok (markOffline domain).
Proof. apply keeps_same_cache. intros c. cbn. by destruct (plain_verdict c domain). Qed.
Lemma keeps_mark_timeout domain b : keeps cache_ok (markOfflineIfTimeout domain b).
Proof. unfold markOfflineIfTimeout. destruct b; [apply keeps_mark|by apply keeps_pure]. Qed.
Lemma keeps_mark_plain domain : keeps cache_ok (markPlainHost domain).
Proof. by apply keeps_same_cache. Qed.
Lemma keeps_do req : keeps cache_ok (do req).
Proof. by apply keeps_same_cache. Qed.

Lemma keeps_wrap {A} text (m : CM A) : keeps cache_ok m → keeps cache_ok (wrapM text m).
Proof. intros Hm c Hc. unfold wrapM. specialize (Hm c Hc). by destruct (m c) as [[] ?]. Qed.

Lemma keeps_wrap_lift {A B} text (r : result A) (k : A → CM B) :
  (∀ a, r = Ok a → keeps cache_ok (k a)) → keeps cache_ok (bindM (wrapM text (liftM r)) k).
Proof. intros Hk c Hc. unfold bindM, wrapM, liftM. destruct r as [a| |]; [|done..]. by apply Hk. Qed.

Lemma keeps_lift {A B} (r : result A) (k : A → CM B) :
  (∀ a, r = Ok a → keeps cache_ok (k a)) → keeps cache_ok (bindM (liftM r) k).
Proof. intros Hk c Hc. unfold bindM, liftM. destruct r as [a| |]; [|done..]. by apply Hk. Qed.

#[local] Hint Resolve keeps_mark keeps_mark_timeout keeps_mark_plain keeps_do keeps_wrap keeps_cache_delete : keeps.

Lemma prefix_of_key p s : Str.has_prefix (p +:+ s) p = true.
Proof. apply has_prefix_app. Qed.

Lemma keeps_server key wk : Str.has_prefix key "server:" = true → keeps cache_ok (cache_set key (ServerEntry wk)).
Proof. intros Hk. by apply keeps_cache_set. Qed.
Lemma keeps_bytes uri accept bytes : keeps cache_ok (cache_set (resource_key uri accept) (BytesEntry bytes)).
Proof. apply keeps_cache_set. left. apply prefix_of_key. Qed.
#[local] Hint Resolve keeps_server keeps_bytes : keeps.

Section Step.
Context (get : Getter) (get_keeps : ∀ T codec uri accept opts, keeps cache_ok (get T codec uri accept opts)).
#[local] Hint Resolve get_keeps : keeps.

Lemma keeps_fetch_server domain : keeps cache_ok (fetch_server domain).
Proof. unfold fetch_server. keeps_walk. Qed.
#[local] Hint Resolve keeps_fetch_server : keeps.

Lemma keeps_GetServer d hint : keeps cache_ok (GetServer defaultResolver get d hint).
Proof. unfold GetServer. keeps_walk. apply keeps_server, prefix_of_key. Qed.
#[local] Hint Resolve keeps_GetServer : keeps.

Lemma keeps_check_record uri opts sd : keeps cache_ok (check_record resolver uri opts sd).
Proof.
  unfold check_record. apply keeps_bind; [apply keeps_check|]. intros _.
  apply keeps_lift. intros h Hh. apply keeps_bind; [by apply keeps_pure|]. intros x.
  destruct (_ && _); [by apply keeps_pure|]. apply keeps_wrap_lift. intros [] Hv.
  destruct (negb _); [|by apply keeps_pure]. apply keeps_cache_set. split; [apply prefix_of_key|].
  exists sd. split; [done|]. by apply verify_spec in Hv as [? _].
Qed.
#[local] Hint Resolve keeps_check_record : keeps.

Lemma keeps_GetSignedRecord uri opts : keeps cache_ok (GetSignedRecord resolver get uri opts).
Proof. unfold GetSignedRecord. keeps_walk. Qed.
#[local] Hint Resolve keeps_GetSignedRecord : keeps.

Lemma keeps_GetRecord {T} (d : any_ → result T) uri opts : keeps cache_ok (GetRecord resolver get d uri opts).
Proof. unfold GetRecord. keeps_walk. Qed.
#[local] Hint Resolve keeps_GetRecord : keeps.

Lemma keeps_resolveResolver r : keeps cache_ok (resolveResolver defaultResolver resolver get r).
Proof. unfold resolveResolver. keeps_walk. Qed.
#[local] Hint Resolve keeps_resolveResolver : keeps.

Lemma keeps_get_resource {T} (codec : Codec T) uri accept opts :
  keeps cache_ok (get_resource defaultResolver resolver get codec uri accept opts).
Proof. unfold get_resource, ResolveResourceURI, resource_server, fetch_resource. keeps_walk. Qed.
End Step.

Lemma keeps_GetResource fuel T (codec : Codec T) uri accept opts :
  keeps cache_ok (GetResource defaultResolver resolver fuel T codec uri accept opts).
Proof.
  revert T codec uri accept opts. induction fuel as [|fuel IH]; intros T codec uri accept opts.
  - by apply keeps_pure.
  - by apply keeps_get_resource.
Qed.

(** ** Records are verified *)

(** Equal content hashes come from equal documents and proofs. *)
Definition content_hash : Prop := ∀ sd1 sd2 h, docHash sd1 = Ok h → docHash sd2 = Ok h →
  sd_Document sd1 = sd_Document sd2 ∧ sd_Proof sd1 = sd_Proof sd2.

(** The document and its proof are accepted with some inlined documents. *)
Definition accepted (sd : SignedDocument) : Prop := ∃ sd',
  sd_Document sd' = sd_Document sd ∧ sd_Proof sd' = sd_Proof sd ∧ authorised resolver maxVerifyDepth sd'.

Lemma check_record_ok uri opts sd c c' :
  cache_ok c → content_hash → check_record resolver uri opts sd c = (Ok tt, c') →
  (∀ l, op_AllowedProofTypes opts = Some l → pr_Type (sd_Proof sd) ∈ l) ∧ accepted sd.
Proof.
  intros Hc Hinj. unfold check_record. rewrite bindM_check.
  match goal with |- context [if ?b then _ else _] => destruct b eqn:Ht; [|done] end.
  intros Hr. rewrite bindM_lift in Hr. destruct (docHash sd) as [h| |] eqn:Hh; [|done..].
  unfold cache_get in Hr. rewrite bindM_gets in Hr. split.
  { intros l Hl. rewrite Hl in Ht. by apply in_list_elem. }
  destruct (_ && _) eqn:Hv.
  - apply andb_true_iff in Hv as [_ Hv].
    destruct (cache_lookup c _) as [[|?|h']|] eqn:Hl; [done..| |done]. apply bool_decide_eq_true in Hv as ->.
    destruct (cache_lookup_fits _ _ _ Hc Hl) as (_ & sd' & Hh' & Ha).
    destruct (Hinj sd' sd h Hh' Hh) as [? ?]. by exists sd'.
  - apply bindM_inv in Hr as ([] & c1 & Hr & _). unfold wrapM, liftM in Hr.
    destruct (Verify resolver sd) as [[]| |] eqn:Hver; [|done..].
    apply verify_spec in Hver as [Ha _]. by exists sd.
Qed.

Lemma record_checked get uri opts c sd :
  (∀ T codec uri accept opts, keeps cache_ok (get T codec uri accept opts)) →
  cache_ok c → content_hash → op_SkipVerify opts = false → fst (GetSignedRecord resolver get uri opts c) = Ok sd →
  (∀ l, op_AllowedProofTypes opts = Some l → pr_Type (sd_Proof sd) ∈ l) ∧ accepted sd.
Proof.
  intros Hget Hc Hinj Hskip Hr. destruct (GetSignedRecord resolver get uri opts c) as [r c'] eqn:E. cbn in Hr. subst r.
  unfold GetSignedRecord in E. rewrite Hskip in E. apply bindM_inv in E as (sd1 & c1 & Hg & Hr).
  apply bindM_inv in Hr as ([] & c2 & Hcheck & [= <- <-]).
  apply (check_record_ok uri opts sd1 c1 c2); [|done|done].
  assert (keeps cache_ok (wrapM ("failed to get signed document for resource " +:+ uri)
    (get SignedDocument signed_codec uri json_accept opts))) as Hk by apply keeps_wrap, Hget.
  specialize (Hk c Hc). by rewrite Hg in Hk.
Qed.

(** C31: a record the client hands out was verified.  Its proof is of a type
    the caller allows, and the document with its proof was accepted by the
    verifier, now or when the same content was seen before - then perhaps with
    other inlined documents, since the remembered hash does not cover those. *)
Theorem GetSignedRecord_verified fuel uri opts c sd :
  cache_ok c → content_hash → op_SkipVerify opts = false →
  let out := GetSignedRecord resolver (GetResource defaultResolver resolver fuel) uri opts c in
  fst out = Ok sd →
  (∀ l, op_AllowedProofTypes opts = Some l → pr_Type (sd_Proof sd) ∈ l) ∧ accepted sd ∧ cache_ok (snd out).
Proof.
  intros Hc Hinj Hskip out Hr. destruct (record_checked _ uri opts c sd (keeps_GetResource fuel) Hc Hinj Hskip Hr).
  split_and!; [done..|]. by apply (keeps_GetSignedRecord _ (keeps_GetResource fuel)).
Qed.

(** ** Termination *)

Lemma wrapM_ext {A} text (m1 m2 : CM A) c : m1 c = m2 c → wrapM text m1 c = wrapM text m2 c.
Proof. intros Hm. unfold wrapM. by rewrite Hm. Qed.

(** Every recursive call of the client names the default resolver. *)
Definition agree (get1 get2 : Getter) : Prop := ∀ T (codec : Codec T) uri accept opts c,
  op_Resolver opts = defaultResolver → get1 T codec uri accept opts c = get2 T codec uri accept opts c.

Ltac ext_walk :=
  repeat match goal with
  | |- bindM _ _ _ = bindM _ _ _ => apply bindM_ext; [intros ?|intros ? ?]
  | |- wrapM _ _ _ = wrapM _ _ _ => apply wrapM_ext
  | |- (match ?x with _ => _ end) _ = _ => destruct x
  | H : agree _ _ |- _ => progress (apply H)
  | |- _ => reflexivity
  end.

Lemma GetServer_agree get1 get2 d c : agree get1 get2 →
  GetServer defaultResolver get1 d None c = GetServer defaultResolver get2 d None c.
Proof. intros Ha. unfold GetServer. ext_walk. Qed.

Lemma resolveResolver_agree get1 get2 r c : agree get1 get2 →
  resolveResolver defaultResolver resolver get1 r c = resolveResolver defaultResolver resolver get2 r c.
Proof.
  intros Ha. unfold resolveResolver, GetRecord, GetSignedRecord. ext_walk. by apply GetServer_agree.
Qed.

Lemma get_resource_agree get1 get2 T (codec : Codec T) uri accept opts c : agree get1 get2 →
  get_resource defaultResolver resolver get1 codec uri accept opts c =
  get_resource defaultResolver resolver get2 codec uri accept opts c.
Proof.
  intros Ha. unfold get_resource, ResolveResourceURI, resource_server. ext_walk.
  all: first [by apply GetServer_agree | by apply resolveResolver_agree].
Qed.

(** A domain as default resolver: its server is asked directly. *)
Definition direct_default : Prop := defaultResolver ≠ "" ∧ IsCSID defaultResolver = false.

Lemma get_resource_direct get1 get2 : direct_default →
  agree (λ T codec, get_resource defaultResolver resolver get1 codec)
        (λ T codec, get_resource defaultResolver resolver get2 codec).
Proof.
  intros [Hne Hcs] T codec uri accept opts c Hopts. apply String.eqb_neq in Hne.
  unfold get_resource, ResolveResourceURI, resource_server. rewrite Hopts, Hne. unfold GetServer. rewrite Hcs. cbn [negb]. ext_walk.
Qed.

(** fetching ends.  When the default resolver is a domain, as the server
    configures it, two levels of recursion are all there is: with fuel two the
    function satisfies the equation of the code's unbounded recursion. *)
Theorem GetResource_equation fuel T (codec : Codec T) uri accept opts c :
  direct_default →
  GetResource defaultResolver resolver (2 + fuel) T codec uri accept opts c =
    get_resource defaultResolver resolver (GetResource defaultResolver resolver (2 + fuel)) codec uri accept opts c ∧
  GetResource defaultResolver resolver (2 + fuel) T codec uri accept opts c =
    GetResource defaultResolver resolver 2 T codec uri accept opts c.
Proof.
  intros Hd. assert (∀ f g, agree (GetResource defaultResolver resolver (S f)) (GetResource defaultResolver resolver (S g)))
    as Ha by (intros f g; apply (get_resource_direct _ _ Hd)).
  pose (G := GetResource defaultResolver resolver). split.
  - apply (get_resource_agree (G (S fuel)) (G (2 + fuel)%nat)), Ha.
  - apply (get_resource_agree (G (S fuel)) (G 1%nat)), Ha.
Qed.
End Facts.

(** ** A remote server that holds one post *)

Module Remote.
#[export] Existing Instance World.netip.
#[export] Existing Instance World.keccak.
#[export] Existing Instance World.secp.
#[export] Existing Instance World.json.

Definition post : SignedDocument := signed "post" (World.by_key World.author_sig).
Definition host : WellKnown :=
  mkWellKnown "2.0" "host" "" "main" {["net.concrnt.core.resolve" := "/resolve"]}.

#[export] Instance codecs : ClientJson := {|
  server_codec := mkCodec _ (λ s, if String.eqb s "wk" then Ok host else Err (GoError "json")) (λ _, Ok "wk");
  signed_codec := mkCodec _ (λ s, if String.eqb s "sd" then Ok post else Err (GoError "json")) (λ _, Ok "sd");
|}.
#[export] Instance template : UriTemplate := λ desc _, Ok desc.
#[export] Instance web : Web := {|
  exchange _ req := Answered 200 (if Str.has_suffix (rq_URL req) "concrnt" then "wk" else "sd");
  clock n := Z.of_nat n;
|}.

(** Only the author's own signature has a text. *)
#[export] Instance codec : StoreCodec :=
  {| marshal_proof p :=
       match p with
       | mkProof t (Some s) None None None None =>
           if String.eqb t ProofTypeEcrecover && String.eqb s World.author_sig then Ok "" else Err (GoError "proof")
       | _ => Err (GoError "proof")
       end;
     unmarshal_proof s := Ok (World.by_key World.author_sig);
     unmarshal_policy s := Err (GoError "policy") |}.

Definition resolver : Resolver := Some World.server.
Definition uri : string := "cckv://" +:+ World.author +:+ "/posts/a".
Definition fresh : Client := mkClient ∅ ∅ ∅ ∅ 0.
Definition only_master : Options := mkOptions "host" false false (Some [ProofTypeEcrecover]).

Lemma fresh_ok : cache_ok resolver fresh.
Proof. intros key e t Hl. cbn in Hl. by rewrite lookup_empty in Hl. Qed.

Lemma marshal_proof_inv p s : marshal_proof p = Ok s → s = "" ∧ p = World.by_key World.author_sig.
Proof.
  destruct p as [t [sig|] [h|] [k|] [d|] [q|]]; try done. cbn -[World.author_sig].
  destruct (String.eqb_spec t ProofTypeEcrecover) as [->|]; [|done].
  destruct (String.eqb_spec sig World.author_sig) as [->|]; [|done]. by intros [= <-].
Qed.

Lemma hashes_content : content_hash.
Proof.
  intros sd1 sd2 h H1 H2. unfold docHash in H1, H2.
  apply rbind_ok_inv in H1 as (s1 & [-> ->]%marshal_proof_inv & [= <-]).
  apply rbind_ok_inv in H2 as (s2 & [-> ->]%marshal_proof_inv & [= Hb]).
  split; [|done]. unfold GetHash, keccak256, World.keccak in Hb. rewrite !str_app_nil_r in Hb.
  by rewrite <- (string_of_bytes_of (sd_Document sd1)), <- (string_of_bytes_of (sd_Document sd2)), Hb.
Qed.
End Remote.
Import Remote.

Lemma probe_span_bounds_witness :
  0 <= 3 <= 4 ∧ (probe_span 0 = 0 ∧ probe_span 3 <= probe_span 4 <= 5611 * second ∧
    probe_span maxFailCount = 5611 * second ∧ 10 * minute < probe_span maxFailCount).
Proof. split; [lia|]. apply (probe_span_bounds 3 4). lia. Defined.

Definition got : result SignedDocument * Client :=
  GetSignedRecord Remote.resolver (GetResource "host" Remote.resolver 2) Remote.uri Remote.only_master Remote.fresh.

Lemma GetSignedRecord_verified_witness :
  fst got = Ok Remote.post ∧
  (∀ l, op_AllowedProofTypes Remote.only_master = Some l → pr_Type (sd_Proof Remote.post) ∈ l) ∧
  accepted Remote.resolver Remote.post ∧ cache_ok Remote.resolver (snd got).
Proof.
  split; [vm_compute; reflexivity|].
  apply (GetSignedRecord_verified "host" Remote.resolver 2 Remote.uri Remote.only_master Remote.fresh).
  - exact Remote.fresh_ok.
  - exact Remote.hashes_content.
  - reflexivity.
  - vm_compute. reflexivity.
Defined.

Lemma GetResource_equation_witness :
  direct_default "host" ∧
  let get := GetResource "host" Remote.resolver (2 + 5) in
  get _ signed_codec Remote.uri json_accept Remote.only_master Remote.fresh =
    get_resource "host" Remote.resolver get signed_codec Remote.uri json_accept Remote.only_master Remote.fresh ∧
  get _ signed_codec Remote.uri json_accept Remote.only_master Remote.fresh =
    GetResource "host" Remote.resolver 2 _ signed_codec Remote.uri json_accept Remote.only_master Remote.fresh.
Proof.
  assert (direct_default "host") as Hd by (split; [discriminate|reflexivity]).
  split; [exact Hd|]. intros get. apply (GetResource_equation "host" Remote.resolver 5). exact Hd.
Defined.
