(* ===== verification/ResourceBatchFacts.v ===== *)
(** * ResourceBatchFacts: every result belongs to its URI

    Whatever mix of cached, batched and single fetches a call makes, each of its
    results is the resource that was asked for at that place; the cache stays
    well typed.  The batch keeps its own copies, which invalidation does not
    reach. *)

From S2P Require Import Prelude Effects Bytes Numbers Url Cdid Ccuri Documents Verify Store Gateway Client ClientFacts ResourceBatch.
From stdpp Require Import prelude strings gmap list.
From Stdlib Require Import ZArith Lia Ascii.
Open Scope Z_scope.
Open Scope uc_scope.

Section Facts.
Context `{Web} `{BatchWeb} `{ClientJson} `{UriTemplate} `{Url.NetIP} `{Json} `{Keccak} `{Secp256k1} `{StoreCodec}.
Context (defaultResolver : string) (resolver : Resolver) (fuel : nat).
#[local] Notation get := (GetResource defaultResolver resolver fuel).
Context {T : Type} (codec : Codec T) (accept : string) (opts : Options) (uris : list string) (c0 : Client).

(** ** Where a result comes from *)

(** The address a server resolves a URI at. *)
Definition endpoint_of (uri endpoint : string) : Prop := ∃ parsed info path,
  ParseCCURI uri = Ok parsed ∧ resolve_endpoint info parsed uri = Ok path ∧ endpoint = "https://" +:+ wk_Domain info +:+ path.

(** The states a call passes through from where it starts. *)
Inductive comes_to : Client → Prop :=
| Begins : comes_to c0
| Sorts s i uri c : comes_to c → uri ∈ uris → comes_to (snd (sort_item defaultResolver resolver fuel codec opts s i uri c))
| Groups batchEndpoint items results c : comes_to c →
    comes_to (snd (getResourceBatchGroup codec accept opts batchEndpoint items results c))
| Singles uri c : comes_to c → uri ∈ uris → comes_to (snd (get T codec uri accept opts c)).

Inductive provenance (i : nat) (uri : string) (v : T) : Prop :=
| FromCache c bytes : comes_to c → op_NoCache opts = false → cache_lookup c (batch_key uri) = Some (BytesEntry bytes) →
    dec codec bytes = Ok v → provenance i uri v
| FromBatch n batchEndpoint requests endpoint code media raw responses body : endpoint_of uri endpoint →
    requests !! FormatInt (Z.of_nat i) = Some (mkRequest "GET" endpoint accept) →
    batch_exchange n batchEndpoint requests = BatchAnswered code media raw → batch_replies requests code media raw = Ok responses →
    responses !! FormatInt (Z.of_nat i) = Some (StatusOK, body) → dec codec body = Ok v → provenance i uri v
| FromGet c c' : comes_to c → get T codec uri accept opts c = (Ok v, c') → provenance i uri v.

Definition sound (results : list (option T)) : Prop := length results = length uris ∧
  ∀ i v, results !! i = Some (Some v) → ∃ uri, uris !! i = Some uri ∧ provenance i uri v.
Definition filled (results : list (option T)) (i : nat) : Prop := ∃ v, results !! i = Some (Some v).

(** A step keeps what is there, and fills some places. *)
Definition fills (P : nat → Prop) (results results' : list (option T)) : Prop :=
  sound results → sound results' ∧ (∀ i, filled results i ∨ P i → filled results' i).

Lemma fills_insert i uri v results : uris !! i = Some uri → provenance i uri v → fills (λ j, j = i) results (<[i := Some v]> results).
Proof.
  intros Hu Hp [Hl Hs]. assert (i < length results)%nat as Hlt by (rewrite Hl; by eapply lookup_lt_Some). split; [split|].
  - by rewrite length_insert.
  - intros j w. destruct (decide (j = i)) as [->|Hne]; [|rewrite list_lookup_insert_ne by done; apply Hs].
    rewrite list_lookup_insert_eq by done. intros [= <-]. eauto.
  - intros j Hj. destruct (decide (j = i)) as [->|Hne]; [exists v; by apply list_lookup_insert_eq|].
    destruct Hj as [[w Hw]| ->]; [|done]. exists w. by rewrite list_lookup_insert_ne.
Qed.

Lemma fills_none results : fills (λ _, False) results results.
Proof. intros Hs. split; [done|]. by intros i [?|[]]. Qed.

Lemma fills_trans (P Q R : nat → Prop) r1 r2 r3 : fills P r1 r2 → fills Q r2 r3 → (∀ i, R i → P i ∨ Q i) → fills R r1 r3.
Proof. intros HP HQ Hr [Hs2 F2]%HP. destruct (HQ Hs2) as [Hs3 F3]. split; [done|]. intros i [Hi|Hi]; [auto|]. destruct (Hr i Hi); auto. Qed.

(** ** One batch *)

Definition item_ok (item : resourceBatchItem) : Prop :=
  uris !! it_index item = Some (it_uri item) ∧ endpoint_of (it_uri item) (it_endpoint item).

Section Answered.
Context (n : nat) (batchEndpoint : string) (requests : gmap string Request).
Context (code : Z) (media : result (string * string)) (raw : list RawReply) (responses : gmap string (Z * string)).
Context (answered : batch_exchange n batchEndpoint requests = BatchAnswered code media raw).
Context (replied : batch_replies requests code media raw = Ok responses).

Definition requested (item : resourceBatchItem) : Prop :=
  item_ok item ∧ requests !! item_id item = Some (mkRequest "GET" (it_endpoint item) accept).

Lemma wrapM_ok {A} text (m : CM A) c a c' : wrapM text m c = (Ok a, c') → m c = (Ok a, c').
Proof. unfold wrapM. by destruct (m c) as [[]]. Qed.

Lemma checkM_ok b e c u c' : (checkM b e : CM unit) c = (Ok u, c') → b = true ∧ c' = c.
Proof. destruct b; [by intros [= _ <-]|done]. Qed.

Lemma keep_reply_fills item results c results' c' : requested item →
  keep_reply codec opts responses results item c = (Ok results', c') → fills (λ i, i = it_index item) results results'.
Proof.
  intros [[Hu He] Hr]. unfold keep_reply. destruct (responses !! item_id item) as [[st body]|] eqn:Hresp; [|done].
  intros ([] & c1 & [->%Z.eqb_eq ->]%checkM_ok & Hk)%bindM_inv. apply bindM_inv in Hk as (v & c2 & Hv%wrapM_ok & Hk).
  injection Hv as Hv _. apply bindM_inv in Hk as ([] & c3 & _ & [= <- _]).
  eapply fills_insert; [done|]. by eapply FromBatch.
Qed.

Lemma keep_replies_fills items results c results' c' : Forall requested items →
  keep_replies codec opts responses items results c = (Ok results', c') →
  fills (λ i, ∃ item, item ∈ items ∧ it_index item = i) results results'.
Proof.
  intros Hr. revert results c. induction Hr as [|item items Hi Hr IH]; intros results c; cbn [keep_replies].
  - intros [= <- _]. eapply fills_trans; [apply fills_none|apply fills_none|]. by intros i (? & ?%elem_of_nil & _).
  - intros (r1 & c1 & Hk1 & Hk2)%bindM_inv. eapply fills_trans; [by eapply keep_reply_fills|by eapply IH|].
    intros i (it & [->|Hin]%elem_of_cons & <-); [by left|right; eauto].
Qed.
End Answered.

Lemma item_id_inj x y : item_id x = item_id y → it_index x = it_index y.
Proof. unfold item_id. intros E%FormatInt_inj. lia. Qed.

(** The requests of a group have the ids of its items. *)
Lemma requests_of items pairs : NoDup (it_index <$> items) → traverse (item_request accept) items = Ok pairs →
  Forall (λ item, (list_to_map pairs : gmap string Request) !! item_id item = Some (mkRequest "GET" (it_endpoint item) accept)) items.
Proof.
  intros Hnd Ht. apply traverse_ok in Ht. induction Ht as [|item p items pairs Hp Ht IH]; [constructor|].
  cbn in Hnd. apply NoDup_cons in Hnd as [Hnew Hnd]. unfold item_request in Hp.
  apply rbind_ok_inv in Hp as (req & Hreq%wrap_ok & [= <-]). unfold new_request in Hreq.
  apply rbind_ok_inv in Hreq as (u & _ & [= <-]). constructor; [by apply lookup_insert_eq|].
  rewrite Forall_forall in IH |- *. intros x Hx. cbn. rewrite lookup_insert_ne; [by apply IH|].
  intros E%item_id_inj. apply Hnew. rewrite E. by apply list_elem_of_fmap_2.
Qed.

Lemma batch_answered batchEndpoint requests c responses c' :
  DoBatchRequestWithClient batchEndpoint requests c = (Ok (inl responses), c') →
  ∃ code media raw, batch_exchange (cl_requests c) batchEndpoint requests = BatchAnswered code media raw ∧
    batch_replies requests code media raw = Ok responses.
Proof.
  unfold DoBatchRequestWithClient. destruct (traverse _ _) as [?| |]; [|destruct (Url.Parse batchEndpoint); done..].
  destruct (Url.Parse batchEndpoint); [|done..]. destruct (batch_exchange _ _ _) as [|code media raw] eqn:E; [done|].
  destruct (batch_replies _ _ _ _) as [m| |] eqn:E2; [|done..]. intros [= -> _]. eauto.
Qed.

Lemma group_fills batchEndpoint items results c results' c' : Forall item_ok items → NoDup (it_index <$> items) →
  getResourceBatchGroup codec accept opts batchEndpoint items results c = (Ok results', c') →
  fills (λ i, ∃ item, item ∈ items ∧ it_index item = i) results results'.
Proof.
  intros Hok Hnd. unfold getResourceBatchGroup. intros (u & c1 & _ & Hr)%bindM_inv. apply bindM_inv in Hr as (up & c2 & _ & Hr).
  apply bindM_inv in Hr as ([] & c3 & _ & Hr). apply bindM_inv in Hr as (pairs & c4 & Hp & Hr). injection Hp as Hp _.
  apply bindM_inv in Hr as ([responses|[timeout e]] & c5 & Hb & Hr); [|by apply bindM_inv in Hr as ([] & ? & _ & ?)].
  apply batch_answered in Hb as (code & media & raw & Ha & Hrep). eapply keep_replies_fills; [exact Ha|exact Hrep| |exact Hr].
  apply requests_of in Hp; [|done]. rewrite Forall_forall in *. intros item Hin. split; auto.
Qed.

(** ** The whole call *)

Record sorted_ok (k : nat) (s : @Sorted T) : Prop := mkSortedOk {
  sk_sound : sound (so_results s);
  sk_singles i : i ∈ fallbackIndexes s → (i < k)%nat;
  sk_groups batchEndpoint items : batchGroups s !! batchEndpoint = Some items →
    Forall item_ok items ∧ NoDup (it_index <$> items) ∧ Forall (λ item, it_index item < k)%nat items;
  sk_placed i : (i < k)%nat → filled (so_results s) i ∨ i ∈ fallbackIndexes s ∨
    ∃ batchEndpoint items item, batchGroups s !! batchEndpoint = Some items ∧ item ∈ items ∧ it_index item = i;
}.

Lemma resolve_item_ok i uri c item c' : uris !! i = Some uri →
  resolveResourceBatchItem defaultResolver resolver fuel i uri opts c = (Ok (Some item), c') → item_ok item ∧ it_index item = i.
Proof.
  intros Hu. unfold resolveResourceBatchItem. intros (parsed & c1 & Hp%wrapM_ok & Hr)%bindM_inv. injection Hp as Hp _.
  destruct (String.eqb _ "http"); [done|]. apply bindM_inv in Hr as (info & c2 & _ & Hr).
  apply bindM_inv in Hr as (path & c3 & Hpath & Hr). injection Hpath as Hpath _.
  destruct (wk_Endpoints info !! _); [|done]. apply bindM_inv in Hr as (bp & c4 & _ & [= <- _]).
  split; [|done]. split; [done|]. by exists parsed, info, path.
Qed.

Lemma sort_item_ok s k uri c s' c' : comes_to c → sorted_ok k s → uris !! k = Some uri →
  sort_item defaultResolver resolver fuel codec opts s k uri c = (Ok s', c') → sorted_ok (S k) s'.
Proof.
  intros Hcome [Hs Hfb Hg Hp] Hu. unfold sort_item. intros (x & c1 & Hx & Hr)%bindM_inv. injection Hx as <- <-.
  destruct (if op_NoCache opts then None else cache_lookup c (batch_key uri)) as [[| bytes |]|] eqn:Hcache; [done| |done|].
  - destruct (op_NoCache opts) eqn:Hnc; [done|]. apply bindM_inv in Hr as (v & c2 & Hv%wrapM_ok & [= <- _]). injection Hv as Hv _.
    destruct (fills_insert k uri v (so_results s) Hu (FromCache k uri v c bytes Hcome Hnc Hcache Hv) Hs) as [Hs' Hf]. constructor; cbn; [done|intros i Hi%Hfb; lia| |].
    + intros be items Hit. destruct (Hg be items Hit) as (? & ? & Hlt). split_and!; [done..|]. eapply Forall_impl; [exact Hlt|]. cbn. lia.
    + intros i Hi. destruct (decide (i = k)) as [->|Hne]; [left; auto|]. destruct (Hp i) as [?|[?|?]]; [lia| |auto..]. left. auto.
  - apply bindM_inv in Hr as (item & c2 & Hitem & [= <- _]). destruct item as [item|]; constructor; cbn; try done.
    + intros i Hi%Hfb. lia.
    + apply (resolve_item_ok _ _ _ _ _ Hu) in Hitem as [Hok Hidx]. intros be items. rewrite lookup_insert_Some.
      intros [[<- <-]|[_ Hit]].
      2: { destruct (Hg be items Hit) as (? & ? & Hlt). split_and!; [done..|]. eapply Forall_impl; [exact Hlt|]. cbn. lia. }
      assert (Forall item_ok (default [] (batchGroups s !! it_batchEndpoint item)) ∧
        NoDup (it_index <$> default [] (batchGroups s !! it_batchEndpoint item)) ∧
        Forall (λ it, it_index it < k)%nat (default [] (batchGroups s !! it_batchEndpoint item))) as (Ho & Hn & Hlt).
      { destruct (batchGroups s !! it_batchEndpoint item) as [old|] eqn:E; cbn; [by eapply Hg|]. split_and!; constructor. }
      split_and!.
      * apply Forall_app. by split; [|constructor].
      * rewrite fmap_app. apply NoDup_app. split_and!; [done| |apply NoDup_singleton]. cbn. rewrite Hidx.
        intros j (it & -> & Hin)%list_elem_of_fmap Hj%list_elem_of_singleton. rewrite Forall_forall in Hlt. specialize (Hlt it Hin). cbn in Hlt. lia.
      * apply Forall_app. split; [eapply Forall_impl; [exact Hlt|]; cbn; lia|]. constructor; [lia|constructor].
    + apply (resolve_item_ok _ _ _ _ _ Hu) in Hitem as [_ Hidx]. intros i Hi. destruct (decide (i = k)) as [->|Hne].
      { right. right. eexists _, _, item. split; [apply lookup_insert_eq|]. split; [|done]. apply elem_of_app. right. by left. }
      destruct (Hp i) as [?|[?|(be & items & it & Hit & Hin & Hi')]]; [lia|by left|by right; left|]. right. right.
      destruct (decide (be = it_batchEndpoint item)) as [->|Hbe].
      * eexists _, _, it. split; [apply lookup_insert_eq|]. split; [|done]. rewrite Hit. apply elem_of_app. by left.
      * exists be, items, it. split; [by rewrite lookup_insert_ne|done].
    + intros i [Hi%Hfb| ->%list_elem_of_singleton]%elem_of_app; lia.
    + intros be items Hit. destruct (Hg be items Hit) as (? & ? & Hlt). split_and!; [done..|]. eapply Forall_impl; [exact Hlt|]. cbn. lia.
    + intros i Hi. destruct (decide (i = k)) as [->|Hne]; [right; left; apply elem_of_app; right; by left|].
      destruct (Hp i) as [?|[?|?]]; [lia|by left| |by right; right]. right. left. apply elem_of_app. by left.
Qed.

Lemma sort_items_ok s k us targets c s' c' : comes_to c → sorted_ok k s → (∀ j, us !! j = uris !! (k + j)%nat) → length us = length targets →
  sort_items defaultResolver resolver fuel codec opts s k us targets c = (Ok s', c') → sorted_ok (k + length us) s' ∧ comes_to c'.
Proof.
  revert s k targets c. induction us as [|uri us IH]; intros s k [|target targets] c Hcome Hs Hus Hl; try done; cbn [sort_items length].
  - intros [= <- <-]. by rewrite Nat.add_0_r.
  - intros ([] & c1 & [_ ->]%checkM_ok & Hr)%bindM_inv. apply bindM_inv in Hr as (s1 & c2 & Hi & Hr).
    assert (uris !! k = Some uri) as Hu by (specialize (Hus 0%nat); by rewrite Nat.add_0_r in Hus).
    assert (comes_to c2) as Hc2.
    { pose proof (Sorts s k uri c Hcome (list_elem_of_lookup_2 _ _ _ Hu)) as Hc2. by rewrite Hi in Hc2. }
    apply IH in Hr; [by rewrite Nat.add_succ_r|done| |intros j; specialize (Hus (S j)); by rewrite Nat.add_succ_r in Hus|by injection Hl].
    exact (sort_item_ok _ _ _ _ _ _ Hcome Hs Hu Hi).
Qed.

Lemma fetch_groups_fills groups results c results' c' :
  Forall (λ g, Forall item_ok (snd g) ∧ NoDup (it_index <$> snd g)) groups →
  fetch_groups codec accept opts groups results c = (Ok results', c') →
  fills (λ i, ∃ g item, g ∈ groups ∧ item ∈ snd g ∧ it_index item = i) results results'.
Proof.
  intros Hg. revert results c. induction Hg as [|[be items] groups [Hok Hnd] Hg IH]; intros results c; cbn [fetch_groups].
  - intros [= <- _]. eapply fills_trans; [apply fills_none|apply fills_none|]. by intros i (? & ? & ?%elem_of_nil & _).
  - intros (r1 & c1 & Hk1 & Hk2)%bindM_inv. eapply fills_trans; [by eapply group_fills|by eapply IH|].
    intros i (g & it & [->|Hin]%elem_of_cons & Hit & <-); [left; eauto|right; eauto].
Qed.

Lemma fetch_groups_comes groups results c r c' : comes_to c →
  fetch_groups codec accept opts groups results c = (Ok r, c') → comes_to c'.
Proof.
  revert results c. induction groups as [|[be items] groups IH]; intros results c Hc; cbn [fetch_groups]; [by intros [= _ <-]|].
  intros (r1 & c1 & Hg & Hr)%bindM_inv. apply IH in Hr; [done|]. pose proof (Groups be items results c Hc) as Hc1. by rewrite Hg in Hc1.
Qed.

Lemma fetch_singles_fills indexes results err c results' c' : comes_to c → Forall (λ i, i < length uris)%nat indexes →
  fetch_singles defaultResolver resolver fuel codec accept opts indexes uris results err c = (Ok results', c') →
  fills (λ i, i ∈ indexes) results results'.
Proof.
  intros Hc Hi. revert results err c Hc. induction Hi as [|i indexes Hlt Hi IH]; intros results err c Hc; cbn [fetch_singles].
  - destruct err; [done|]. intros [= <- _]. eapply fills_trans; [apply fills_none|apply fills_none|]. by intros i ?%elem_of_nil.
  - destruct (lookup_lt_is_Some_2 uris i Hlt) as [uri Hu]. apply nth_lookup_Some with (d := "") in Hu as Hn. rewrite Hn.
    pose proof (Singles uri c Hc (list_elem_of_lookup_2 _ _ _ Hu)) as Hc1.
    intros (r & c1 & Hget & Hr)%bindM_inv. unfold tryM in Hget. destruct (get T codec uri accept opts c) as [[w|e|] c2] eqn:E; [| |done].
    + injection Hget as <- <-. eapply (fills_trans (λ j, j = i)); [|by eapply IH|by intros j ?%elem_of_cons].
      apply fills_insert with uri; [done|]. exact (FromGet i uri w c c2 Hc E).
    + exfalso. injection Hget as <- <-. clear -Hr. set (e' := match err with Some _ => _ | None => _ end) in Hr. clearbody e'.
      revert results e' c2 Hr. induction indexes as [|j indexes IH]; intros results e' c2; cbn [fetch_singles]; [done|].
      intros ([v|e2|] & c3 & _ & Hr)%bindM_inv; [| |done]; by apply IH in Hr.
Qed.

(** A call that succeeds has a result at every place, and each belongs
    to the URI at that place: it was read from the cache under it, in a state the
    call passed through, or is the 200 answer to the part of a batch that asked
    for the address a server resolves it at, or was fetched by itself on the way.
    However the URIs are grouped and in whatever order the parts are answered,
    results are never exchanged. *)
Theorem batch_results targets results c' :
  GetResourceBatch defaultResolver resolver fuel codec accept opts uris targets c0 = (Ok results, c') →
  length results = length uris ∧ ∀ i uri, uris !! i = Some uri → ∃ v, results !! i = Some (Some v) ∧ provenance i uri v.
Proof.
  unfold GetResourceBatch. intros ([] & c1 & [Hl%Nat.eqb_eq ->]%checkM_ok & Hr)%bindM_inv.
  apply bindM_inv in Hr as (s & c2 & Hsort & Hr). apply bindM_inv in Hr as (r1 & c3 & Hgr & Hr).
  apply (sort_items_ok _ 0) in Hsort as [[Hsound Hsingles Hgroups Hplaced] Hc2]; [|constructor| |by intros j|done].
  2: { constructor; cbn; [split; [apply length_replicate|]|by intros i ?%elem_of_nil| |lia].
       - intros i v Hi. apply lookup_replicate in Hi as [? _]. done.
       - intros be items. by rewrite lookup_empty. }
  cbn in Hsingles, Hgroups, Hplaced. pose proof (fetch_groups_comes _ _ _ _ _ Hc2 Hgr) as Hc3. apply fetch_groups_fills in Hgr.
  2: { apply Forall_forall. intros [be items] Hin%elem_of_map_to_list. cbn. by destruct (Hgroups be items Hin) as (? & ? & _). }
  destruct (Hgr Hsound) as [Hs1 Hf1].
  assert (Forall (λ i, i < length uris)%nat (fallbackIndexes s)) as Hfb.
  { apply Forall_forall. apply Hsingles. }
  apply fetch_singles_fills in Hr; [|done..]. destruct (Hr Hs1) as [[Hlen Hs2] Hf2]. split; [done|]. intros i uri Hu.
  assert (filled results i) as [v Hv].
  { apply Hf2. destruct (Hplaced i) as [?|[?|(be & items & item & Hit & Hin & <-)]]; [by eapply lookup_lt_Some|left; auto|by right|].
    left. apply Hf1. right. exists (be, items), item. split; [by apply elem_of_map_to_list|done]. }
  exists v. split; [done|]. destruct (Hs2 i v Hv) as (uri' & Hu' & Hp). congruence.
Qed.
End Facts.

(** ** The cache *)

Section Cache.
Context `{Web} `{BatchWeb} `{ClientJson} `{UriTemplate} `{Url.NetIP} `{Json} `{Keccak} `{Secp256k1} `{StoreCodec}.
Context (defaultResolver : string) (resolver : Resolver) (fuel : nat).
#[local] Notation cache_ok := (cache_ok resolver).
#[local] Notation get := (GetResource defaultResolver resolver fuel).

Lemma keeps_batch endpoint requests : keeps cache_ok (DoBatchRequestWithClient endpoint requests).
Proof.
  apply keeps_same_cache. intros c. unfold DoBatchRequestWithClient. destruct (traverse _ _), (Url.Parse endpoint); try done.
  destruct (batch_exchange _ _ _) as [|code media raw]; [done|]. by destruct (batch_replies _ _ _ _).
Qed.

Lemma keeps_batch_bytes uri bytes : keeps cache_ok (cache_set (batch_key uri) (BytesEntry bytes)).
Proof. apply keeps_cache_set. left. apply prefix_of_key. Qed.

Lemma keeps_the_server d hint : keeps cache_ok (GetServer defaultResolver get d hint).
Proof. apply keeps_GetServer. intros. apply keeps_GetResource. Qed.
Lemma keeps_the_resolver r : keeps cache_ok (resolveResolver defaultResolver resolver get r).
Proof. apply keeps_resolveResolver. intros. apply keeps_GetResource. Qed.

#[local] Hint Resolve keeps_batch keeps_batch_bytes keeps_GetResource keeps_wrap keeps_mark_timeout keeps_do keeps_the_server
  keeps_the_resolver : keeps.

Lemma keeps_item i uri opts : keeps cache_ok (resolveResourceBatchItem defaultResolver resolver fuel i uri opts).
Proof. unfold resolveResourceBatchItem, resource_server. keeps_walk. Qed.
#[local] Hint Resolve keeps_item : keeps.

Section Results.
Context {T : Type} (codec : Codec T) (accept : string) (opts : Options).

Lemma keeps_sort_items s i uris targets : keeps cache_ok (sort_items defaultResolver resolver fuel codec opts s i uris targets).
Proof.
  revert s i targets. induction uris as [|uri uris IH]; intros s i [|target targets]; cbn [sort_items]; try by apply keeps_pure.
  apply keeps_bind; [apply keeps_check|]. intros _. apply keeps_bind; [|intros s'; apply IH]. unfold sort_item. keeps_walk.
Qed.

Lemma keeps_replies responses items results : keeps cache_ok (keep_replies codec opts responses items results).
Proof. revert results. induction items as [|item items IH]; intros results; cbn [keep_replies]; [by apply keeps_pure|]. unfold keep_reply. keeps_walk. Qed.
#[local] Hint Resolve keeps_replies : keeps.

Lemma keeps_groups groups results : keeps cache_ok (fetch_groups codec accept opts groups results).
Proof.
  revert results. induction groups as [|[be items] groups IH]; intros results; cbn [fetch_groups]; [by apply keeps_pure|].
  apply keeps_bind; [|intros r; apply IH]. unfold getResourceBatchGroup. keeps_walk.
Qed.

Lemma keeps_singles indexes uris results err :
  keeps cache_ok (fetch_singles defaultResolver resolver fuel codec accept opts indexes uris results err).
Proof. revert results err. induction indexes as [|i indexes IH]; intros results err; cbn [fetch_singles]; keeps_walk. Qed.

(** The batch keeps the types of the cache. *)
Lemma keeps_GetResourceBatch uris targets :
  keeps cache_ok (GetResourceBatch defaultResolver resolver fuel codec accept opts uris targets).
Proof.
  unfold GetResourceBatch. apply keeps_bind; [apply keeps_check|]. intros _. apply keeps_bind; [apply keeps_sort_items|].
  intros s. apply keeps_bind; [apply keeps_groups|]. intros r. apply keeps_singles.
Qed.

(** Invalidation does not reach the copies of the batch.  After
    [InvalidateResource] - which a server runs for every document a commit
    replaced - a batch still answers with what it kept, whatever representation
    is asked for and without sending anything, as long as the entry lasts. *)
Theorem batch_copy_survives uri c bytes v : op_NoCache opts = false → cache_lookup c (batch_key uri) = Some (BytesEntry bytes) →
  dec codec bytes = Ok v →
  let c' := snd (InvalidateResource uri c) in
  GetResourceBatch defaultResolver resolver fuel codec accept opts [uri] [true] c' = (Ok [Some v], c').
Proof.
  intros Hnc Hc Hv c'. assert (cache_lookup c' (batch_key uri) = Some (BytesEntry bytes)) as Hc'.
  { rewrite <- Hc. unfold c', cache_lookup, InvalidateResource, bindM, cache_delete, modifyM. cbn [snd set_cache cl_cache cl_requests].
    rewrite !lookup_delete_ne; [done| |].
    - unfold resource_key, batch_key. intros E. apply (f_equal String.length) in E.
      rewrite !(str_len_app : ∀ a b, String.length (a +:+ b) = (String.length a + String.length b)%nat) in E. cbn in E. lia.
    - by unfold batch_key. }
  clearbody c'. assert (∀ s, sort_item defaultResolver resolver fuel codec opts s 0 uri c' =
    (Ok (mkSorted (<[0%nat := Some v]> (so_results s)) (batchGroups s) (fallbackIndexes s)), c')) as Hsort.
  { intros s. unfold sort_item, cache_get. rewrite bindM_gets, Hc', Hnc. unfold bindM, wrapM, liftM. by rewrite Hv. }
  unfold GetResourceBatch. cbn [length replicate Nat.eqb checkM sort_items]. unfold bindM. cbn [retM]. rewrite Hsort. cbn.
  by rewrite map_to_list_empty.
Qed.
End Results.
End Cache.

(** ** Requests by domain *)

Section Domains.
Context `{Web} `{BatchWeb} `{ClientJson} `{UriTemplate} `{Url.NetIP} `{Json} `{Keccak} `{Secp256k1} `{StoreCodec}.
Context (defaultResolver : string) (resolver : Resolver) (fuel : nat).

(** Nobody is answered who did not ask. *)
Lemma read_replies_keys requests raw m m' : read_replies requests raw m = Ok m' →
  ∀ k, is_Some (m' !! k) → is_Some (m !! k) ∨ is_Some (requests !! k).
Proof.
  revert m. induction raw as [|[id r|e] raw IH]; intros m; cbn [read_replies]; [intros [= <-]; auto| |done].
  case_decide as Hid; [|apply IH]. intros (x & _ & Hr)%rbind_ok_inv k Hk. destruct (IH _ Hr k Hk) as [Hm|?]; [|auto].
  destruct (decide (k = id)) as [->|Hne]; [by right|]. rewrite lookup_insert_ne in Hm by done. by left.
Qed.

Lemma batch_replies_keys requests code media raw m k : batch_replies requests code media raw = Ok m →
  is_Some (m !! k) → is_Some (requests !! k).
Proof.
  unfold batch_replies. intros (? & _ & Hr)%rbind_ok_inv Hk. apply rbind_ok_inv in Hr as (? & _ & Hr).
  apply rbind_ok_inv in Hr as (? & _ & Hr). apply rbind_ok_inv in Hr as (? & _ & Hr).
  destruct (read_replies_keys _ _ _ _ Hr k Hk) as [[? Hm]|]; [|done]. by rewrite lookup_empty in Hm.
Qed.

(** The answers gathered so far are to keys of [asked]; nothing fails. *)
Definition gathers (asked : string → Prop) (m : CM (gmap string (Z * string))) (before : gmap string (Z * string)) : Prop :=
  ∀ c, match m c with
       | (Ok after, _) => ∀ k, is_Some (after !! k) → is_Some (before !! k) ∨ asked k
       | (Err _, _) => False
       | (Panic, _) => True
       end.

Lemma gathers_same asked before : gathers asked (retM before) before.
Proof. intros c. cbn. auto. Qed.

Lemma plain_gets_gathers domain reqs before : gathers (λ k, k ∈ reqs.*1) (plain_gets domain reqs before) before.
Proof.
  revert before. induction reqs as [|[key url] reqs IH]; intros before c; cbn [plain_gets]; [apply gathers_same|].
  assert (gathers (λ k, k = key) (plain_get domain (key, url) before) before) as Hp.
  { intros c1. unfold plain_get. cbn [fst snd]. destruct (new_request _ _ _) as [req| |]; try apply gathers_same.
    unfold bindM, do. cbn -[markOfflineIfTimeout]. destruct (exchange _ _) as [code body|[] e]; cbn.
    - intros k Hk. destruct (decide (k = key)) as [->|Hne]; [by right|]. rewrite lookup_insert_ne in Hk by done. by left.
    - auto.
    - auto. }
  unfold bindM. specialize (Hp c). destruct (plain_get _ _ _ c) as [[m| |] c1]; [|done..]. specialize (IH m c1).
  destruct (plain_gets _ _ _ c1) as [[m'| |] ?]; [|done..]. intros k [Hk|Hk]%IH; [|by right; right].
  destruct (Hp k Hk) as [?| ->]; [by left|right; left].
Qed.

Lemma get_domain_gathers domain reqs before :
  gathers (λ k, is_Some (reqs !! k)) (get_domain defaultResolver resolver fuel domain reqs before) before.
Proof.
  intros c. unfold get_domain. unfold IsOnline. rewrite bindM_gets. destruct (online c domain); cbn [negb]; [|apply gathers_same].
  unfold bindM at 1. destruct (batch_server _ _ _ _ c) as [[server|e|] c1] eqn:Hs; [| |done].
  2: { unfold batch_server, bindM, tryM in Hs. destruct (GetServer _ _ _ _ c) as [[] ?]; done. }
  destruct server as [info|]; [|apply gathers_same].
  destruct (wk_Endpoints info !! _) as [desc|].
  - destruct (batch_path info desc) as [path|e|]; [|apply gathers_same|done]. unfold bindM.
    destruct (DoBatchRequestWithClient _ _ c1) as [[[m|e]|e|] c2] eqn:Hd; [|cbn; auto| |done].
    + apply batch_answered in Hd as (code & media & raw & _ & Hm). cbn. intros k Hk.
      apply lookup_union_is_Some in Hk as [Hk|]; [right|by left].
      eapply batch_replies_keys in Hk as [req Hk]; [|exact Hm]. apply elem_of_list_to_map_2 in Hk.
      apply list_elem_of_omap in Hk as ([k' url] & Hin%elem_of_map_to_list & Hreq). unfold plain_request in Hreq. cbn in Hreq.
      destruct (new_request _ _ _); [|done..]. injection Hreq as -> ->. by eexists.
    + unfold DoBatchRequestWithClient in Hd. destruct (traverse _ _); [|destruct (Url.Parse ("https://" +:+ wk_Domain info +:+ path)); done|done].
      destruct (Url.Parse ("https://" +:+ wk_Domain info +:+ path)); [|done..]. destruct (batch_exchange _ _ _) as [|code media raw]; [done|]. by destruct (batch_replies _ _ _ _).
  - pose proof (plain_gets_gathers domain (map_to_list reqs) before c1) as Hp.
    destruct (plain_gets _ _ _ c1) as [[m| |] ?]; [|done..]. intros k [?|Hk]%Hp; [by left|right].
    apply list_elem_of_fmap in Hk as ([k' url] & -> & Hin%elem_of_map_to_list). by eexists.
Qed.

(** [BatchGet] never fails - a domain that is offline, is not found, or
    answers badly only loses its own keys - and answers no key that was not
    asked for. *)
Theorem BatchGet_keys requests c : match BatchGet defaultResolver resolver fuel requests c with
  | (Ok m, _) => ∀ k, is_Some (m !! k) → ∃ domain reqs, requests !! domain = Some reqs ∧ is_Some (reqs !! k)
  | (Err _, _) => False
  | (Panic, _) => True
  end.
Proof.
  unfold BatchGet. assert (∀ l before, gathers (λ k, ∃ p, p ∈ l ∧ is_Some (snd p !! k)) (get_domains defaultResolver resolver fuel l before) before) as Hg.
  { intros l. induction l as [|[domain reqs] l IH]; intros before c1; cbn [get_domains]; [apply gathers_same|].
    unfold bindM. pose proof (get_domain_gathers domain reqs before c1) as Hd.
    destruct (get_domain _ _ _ _ _ _ c1) as [[m| |] c2]; [|done..]. specialize (IH m c2).
    destruct (get_domains _ _ _ _ _ c2) as [[m'| |] ?]; [|done..]. intros k [Hk|(p & Hp & Hk)]%IH; [|right; exists p; split; [by right|done]].
    destruct (Hd k Hk) as [?|?]; [by left|right]. exists (domain, reqs). split; [by left|done]. }
  specialize (Hg (map_to_list requests) ∅ c). destruct (get_domains _ _ _ _ _ c) as [[m| |] ?]; [|done..].
  intros k [[? Hk]|([domain reqs] & Hin%elem_of_map_to_list & Hk)]%Hg; [by rewrite lookup_empty in Hk|eauto].
Qed.

(** What the gateway gets of a batch from the client in a state. *)
Definition client_batch (c : Client) (requests : gmap string (gmap string string)) : result (gmap string Gateway.Response) :=
  rbind (fst (BatchGet defaultResolver resolver fuel requests c)) (λ m : gmap string (Z * string),
  Ok ((λ p, Gateway.mkResponse (fst p) (Ok (snd p))) <$> m)).

(** the client's batch is what the gateway's cache relies on: unless it panics,
    it gives answers and no error, and each answer is to a request that was
    asked. *)
Theorem client_batch_online c requests : client_batch c requests ≠ Panic →
  ∃ rs, client_batch c requests = Ok rs ∧
    ∀ tl, is_Some (rs !! tl) → ∃ domain url, requests !! domain ≫= (.!! tl) = Some url.
Proof.
  unfold client_batch. pose proof (BatchGet_keys requests c) as Hk.
  destruct (BatchGet _ _ _ requests c) as [[m|e|] c']; [|done..]. intros _. eexists. split; [reflexivity|].
  intros tl Htl. rewrite lookup_fmap, fmap_is_Some in Htl. destruct (Hk tl Htl) as (domain & reqs & Hr & [url Hu]).
  exists domain, url. by rewrite Hr.
Qed.
End Domains.

(** ** Example: two posts of one server *)

Module Hub.
#[export] Existing Instance World.netip.
#[export] Existing Instance World.keccak.
#[export] Existing Instance World.secp.
#[export] Existing Instance World.json.
#[export] Existing Instance Remote.codec.
#[export] Existing Instance Remote.template.

Definition hub : WellKnown :=
  mkWellKnown "2.0" "host" "" "main" {["net.concrnt.core.resolve" := "/resolve"; "net.concrnt.core.batch" := "/batch"]}.

#[export] Instance codecs : ClientJson := {|
  server_codec := mkCodec _ (λ s, if String.eqb s "wk" then Ok hub else Err (GoError "json")) (λ _, Ok "wk");
  signed_codec := mkCodec _ (λ s, Ok (signed s (World.by_key World.author_sig))) (λ sd, Ok (sd_Document sd));
|}.
#[export] Instance web : Web := {| exchange _ _ := Answered 200 "wk"; clock n := Z.of_nat n |}.

(** The answers come in another order than the questions. *)
#[export] Instance batches : BatchWeb := λ _ _ requests,
  BatchAnswered 200 (Ok ("multipart/mixed", "b"))
    (rev ((λ p, ReplyRead (fst p) (Ok (200, if String.eqb (fst p) "0" then "first" else "second"))) <$> map_to_list requests)).

Definition asked : list string := ["cckv://" +:+ World.author +:+ "/a"; "cckv://" +:+ World.author +:+ "/b"].
Definition from_host : Options := mkOptions "host" false false None.
Definition answer : result (list (option SignedDocument)) * Client :=
  GetResourceBatch "host" Remote.resolver 2 signed_codec json_accept from_host asked [true; true] Remote.fresh.
Definition kept : Client := snd answer.
End Hub.
Import Hub.

Lemma batch_results_witness :
  fst Hub.answer = Ok [Some (signed "first" (World.by_key World.author_sig)); Some (signed "second" (World.by_key World.author_sig))] ∧
  cl_requests (snd Hub.answer) = 2%nat ∧
  ∃ v, [Some (signed "first" (World.by_key World.author_sig)); Some (signed "second" (World.by_key World.author_sig))] !! 1%nat = Some (Some v) ∧
    provenance "host" Remote.resolver 2 signed_codec json_accept Hub.from_host asked Remote.fresh 1 ("cckv://" +:+ World.author +:+ "/b") v.
Proof.
  split; [vm_compute; reflexivity|]. split; [vm_compute; reflexivity|].
  assert (Hub.answer = (Ok [Some (signed "first" (World.by_key World.author_sig)); Some (signed "second" (World.by_key World.author_sig))],
    snd Hub.answer)) as E by (vm_compute; reflexivity).
  unfold Hub.answer at 1 in E. apply batch_results in E as [_ E]. exact (E 1%nat _ eq_refl).
Defined.

Lemma batch_copy_survives_witness :
  let c' := snd (InvalidateResource (nth 0 Hub.asked "") Hub.kept) in
  GetResourceBatch "host" Remote.resolver 2 signed_codec "text/html" Hub.from_host [nth 0 Hub.asked ""] [true] c' =
    (Ok [Some (signed "first" (World.by_key World.author_sig))], c').
Proof.
  apply (batch_copy_survives "host" Remote.resolver 2 signed_codec "text/html" Hub.from_host
    (nth 0 Hub.asked "") Hub.kept "first"); vm_compute; reflexivity.
Defined.
