(* ===== verification/ClientSafe.v ===== *)
(** * ClientSafe: the client's cache is used at its types

    The cache holds Go values of three types under keys with four prefixes, and
    the client asserts their types when it reads them: of servers in
    [GetServer], of bytes in [GetResource], in [Call] and in the batch.  Every
    operation leaves a cache in which each value has the type its key is read
    at, so none of the assertions ever panics, in any order of operations and
    whatever servers answer. *)

From S2P Require Import Prelude Effects Bytes Numbers Url Cdid Ccuri Documents Verify Store Client ClientFacts.
From S2P Require Import ResourceBatch ResourceBatchFacts.
From stdpp Require Import prelude strings gmap list relations.
From Stdlib Require Import ZArith Lia Ascii.
Open Scope Z_scope.
Open Scope uc_scope.

Definition returns {A B} (f : A → result B) : Prop := ∀ a, f a ≠ Panic.

Lemma traverse_returns {A B} (f : A → result B) l : (∀ a, f a ≠ Panic) → traverse f l ≠ Panic.
Proof.
  intros Hf. induction l as [|a l IH]; cbn; [done|]. apply Url.rbind_no_panic; [apply Hf|]. intros b.
  by apply Url.rbind_no_panic.
Qed.

Lemma wrap_returns {A} text (r : result A) : r ≠ Panic → wrap text r ≠ Panic.
Proof. by destruct r. Qed.

(** A key has one first letter. *)
Lemma prefix_head key a b p q : Str.has_prefix key (String a p) = true → Str.has_prefix key (String b q) = true → a = b.
Proof. unfold Str.has_prefix. destruct key as [|c key]; [done|]. cbn. by do 2 (destruct (ascii_dec _ _); [|done]); subst. Qed.

(** ** Typed operations

    [typed m]: from a well-typed cache [m] leaves one and does not panic. *)

Section Safe.
Context `{Web} `{Json} `{Keccak} `{Secp256k1} `{Url.NetIP} `{StoreCodec} (resolver : Resolver).
#[local] Notation cache_ok := (cache_ok resolver).

Definition typed {A} (m : CM A) : Prop := ∀ c, cache_ok c → cache_ok (snd (m c)) ∧ fst (m c) ≠ Panic.

Lemma typed_bind {A B} (m : CM A) (k : A → CM B) : typed m → (∀ a, typed (k a)) → typed (bindM m k).
Proof.
  intros Hm Hk c Hc. unfold bindM. destruct (Hm c Hc) as [Hc1 Hp]. destruct (m c) as [[a| |] c1]; [by apply Hk|done|done].
Qed.

(** What is done with an error that is caught. *)
Lemma typed_try {A B} (m : CM A) (k : result A → CM B) :
  typed m → (∀ r, r ≠ Panic → typed (k r)) → typed (bindM (tryM m) k).
Proof.
  intros Hm Hk c Hc. unfold bindM, tryM. destruct (Hm c Hc) as [Hc1 Hp]. by destruct (m c) as [[a| |] c1]; [apply Hk|apply Hk|].
Qed.

Lemma typed_keep {A} (m : CM A) : (∀ c, snd (m c) = c ∧ fst (m c) ≠ Panic) → typed m.
Proof. intros Hm c Hc. destruct (Hm c) as [-> ?]. done. Qed.
Lemma typed_lift {A} (r : result A) : r ≠ Panic → typed (liftM r : CM A).
Proof. intros Hr. by apply typed_keep. Qed.
Lemma typed_lifted {A B} (r : result A) (k : A → CM B) : r ≠ Panic → (∀ a, r = Ok a → typed (k a)) → typed (bindM (liftM r) k).
Proof. intros Hr Hk c Hc. unfold bindM, liftM. destruct r; [by apply Hk|done|done]. Qed.
Lemma typed_check b e : typed (checkM b e : CM unit).
Proof. apply typed_keep. by destruct b. Qed.
Lemma typed_wrap {A} text (m : CM A) : typed m → typed (wrapM text m).
Proof. intros Hm c Hc. unfold wrapM. destruct (Hm c Hc). by destruct (m c) as [[] ?]. Qed.

(** Steps that leave the cache alone. *)
Lemma typed_same {A} (m : CM A) : (∀ c, cl_cache (snd (m c)) = cl_cache c ∧ fst (m c) ≠ Panic) → typed m.
Proof. intros Hm c Hc. destruct (Hm c) as [E ?]. split; [|done]. intros key e t. rewrite E. apply Hc. Qed.

Lemma typed_set key e : fits resolver key e → typed (cache_set key e).
Proof. intros He c Hc. split; [by apply keeps_cache_set|done]. Qed.

(** An entry read under a key has the type the code asserts. *)
Lemma typed_read {A} key (k : option Entry → CM A) :
  (∀ x, (∀ e, x = Some e → fits resolver key e) → typed (k x)) → typed (bindM (cache_get key) k).
Proof. intros Hk c Hc. unfold cache_get. rewrite bindM_gets. apply Hk; [|done]. intros e He. by eapply cache_lookup_fits. Qed.

Lemma typed_mark domain : typed (markOffline domain).
Proof. apply typed_same. intros c. cbn. by destruct (plain_verdict c domain). Qed.
Lemma typed_mark_timeout domain b : typed (markOfflineIfTimeout domain b).
Proof. destruct b; [apply typed_mark|by apply typed_keep]. Qed.
Lemma typed_mark_plain domain : typed (markPlainHost domain).
Proof. by apply typed_same. Qed.
Lemma typed_do req : typed (do req).
Proof. by apply typed_same. Qed.

Lemma new_request_returns m u a : new_request m u a ≠ Panic.
Proof. apply Url.rbind_no_panic; [apply Url.Parse_no_panic|done]. Qed.

(** Bytes are kept for resources, calls and batches. *)
Lemma typed_bytes key bytes : Str.has_prefix key "resource:" = true ∨ Str.has_prefix key "call:" = true →
  typed (cache_set key (BytesEntry bytes)).
Proof. intros Hk. by apply typed_set. Qed.
Lemma typed_server key wk : Str.has_prefix key "server:" = true → typed (cache_set key (ServerEntry wk)).
Proof. intros Hk. by apply typed_set. Qed.

Lemma fits_bytes_key key e : Str.has_prefix key "resource:" = true ∨ Str.has_prefix key "call:" = true →
  fits resolver key e → ∃ bytes, e = BytesEntry bytes.
Proof.
  destruct e as [wk|bytes|h]; [|by eexists|]; cbn; intros Hk Hs.
  - destruct Hk as [Hk|Hk]; discriminate (prefix_head _ _ _ _ _ Hk Hs).
  - destruct Hs as [Hs _], Hk as [Hk|Hk]; discriminate (prefix_head _ _ _ _ _ Hk Hs).
Qed.
End Safe.

Create HintDb typed.
#[export] Hint Resolve typed_check typed_wrap typed_lift typed_mark typed_mark_timeout typed_mark_plain typed_do typed_server : typed.
#[export] Hint Resolve wrap_returns Url.rbind_no_panic Url.Parse_no_panic ParseCCURI_no_panic new_request_returns : typed.
#[export] Hint Extern 5 (typed _ _) => (apply typed_keep; split; (reflexivity || discriminate)) : typed.
#[export] Hint Extern 6 (typed _ _) => (apply typed_same; intros ?; split; (reflexivity || discriminate)) : typed.

(** Walks through an operation: binds, branches, known parts; reads are left. *)
Ltac typed_walk :=
  repeat match goal with
  | |- typed _ (bindM (cache_get _) _) => fail 1
  | |- typed _ (bindM (tryM _) _) => apply typed_try; [|intros ? ?]
  | |- typed _ (bindM _ _) => apply typed_bind; [|intros ?]
  | |- typed _ (match ?x with _ => _ end) => destruct x
  | |- _ => progress eauto with typed
  end.

(** ** The operations *)

Section Operations.
Context `{Web} `{BatchWeb} `{ClientJson} `{UriTemplate} `{Url.NetIP} `{Json} `{Keccak} `{Secp256k1} `{StoreCodec}.
Context (defaultResolver : string) (resolver : Resolver).
#[local] Notation typed := (typed resolver).

(** JSON, templates, [mime] and [http.ReadResponse] return. *)
Context (server_returns : returns (dec server_codec)) (signed_returns : returns (dec signed_codec)).
Context (signed_enc_returns : returns (enc signed_codec)) (server_enc_returns : returns (enc server_codec)).
Context (template_returns : ∀ desc args, RenderURITemplate desc args ≠ Panic).
Context (document_returns : returns unmarshal_document) (entity_returns : returns decode_entity).
Context (proof_returns : returns marshal_proof).
Context (batch_returns : ∀ n endpoint requests code media raw,
  batch_exchange n endpoint requests = BatchAnswered code media raw →
  media ≠ Panic ∧ ∀ id response, ReplyRead id response ∈ raw → response ≠ Panic).

Section Step.
Context (get : Getter).
Context (get_server : ∀ uri accept opts, typed (get _ server_codec uri accept opts)).
Context (get_signed : ∀ uri accept opts, typed (get _ signed_codec uri accept opts)).
#[local] Hint Resolve get_server get_signed : typed.

Lemma typed_fetch_server domain : typed (fetch_server domain).
Proof. unfold fetch_server. typed_walk. Qed.
#[local] Hint Resolve typed_fetch_server : typed.

Lemma typed_GetServer d hint : typed (GetServer defaultResolver get d hint).
Proof.
  unfold GetServer. apply typed_read. intros x Hx. destruct x as [e|].
  - destruct e as [wk|b|h]; [by apply typed_keep|by destruct (Hx _ eq_refl)|by destruct (Hx _ eq_refl)].
  - typed_walk. apply typed_server, prefix_of_key.
Qed.
#[local] Hint Resolve typed_GetServer : typed.

(** A record whose signature is not checked. *)
Lemma typed_entity uri : typed (GetRecord resolver get decode_entity uri (entity_options defaultResolver)).
Proof.
  unfold GetRecord, GetSignedRecord. cbn [op_SkipVerify entity_options]. typed_walk.
Qed.
#[local] Hint Resolve typed_entity : typed.

Lemma typed_resolveResolver r : typed (resolveResolver defaultResolver resolver get r).
Proof. unfold resolveResolver. typed_walk. Qed.
#[local] Hint Resolve typed_resolveResolver : typed.

Lemma typed_resource_server parsed opts : typed (resource_server defaultResolver resolver get parsed opts).
Proof. unfold resource_server. typed_walk. Qed.
#[local] Hint Resolve typed_resource_server : typed.

Lemma resolve_endpoint_returns info parsed uri : resolve_endpoint info parsed uri ≠ Panic.
Proof. unfold resolve_endpoint. destruct (_ !! _); [by apply wrap_returns|done]. Qed.
#[local] Hint Resolve resolve_endpoint_returns : typed.

Lemma typed_uri uri opts : typed (ResolveResourceURI defaultResolver resolver get uri opts).
Proof. unfold ResolveResourceURI. typed_walk. Qed.
#[local] Hint Resolve typed_uri : typed.

(** Reading bytes that may be cached; otherwise as [m] does. *)
Lemma typed_cached {T} key (nocache : bool) (text : string) (codec : Codec T) (m : CM T) :
  Str.has_prefix key "resource:" = true ∨ Str.has_prefix key "call:" = true → returns (dec codec) → typed m →
  typed (let* x := cache_get key in
        match (if nocache then None else x) with
        | Some (BytesEntry bytes) => wrapM text (liftM (dec codec bytes))
        | Some _ => panicM
        | None => m
        end).
Proof.
  intros Hk Hd Hm. apply typed_read. intros x Hx. destruct nocache; [done|]. destruct x as [e|]; [|done].
  destruct (fits_bytes_key resolver key e Hk (Hx e eq_refl)) as [bytes ->]. by apply typed_wrap, typed_lift.
Qed.

Lemma typed_get_resource {T} (codec : Codec T) uri accept opts : returns (dec codec) → returns (enc codec) →
  typed (get_resource defaultResolver resolver get codec uri accept opts).
Proof.
  intros Hd He. unfold get_resource. apply typed_cached; [left; apply prefix_of_key|done|].
  apply typed_bind; [apply typed_uri|]. intros endpoint. unfold fetch_resource. typed_walk.
  apply typed_bytes. left. apply prefix_of_key.
Qed.
End Step.

Lemma typed_GetResource fuel T (codec : Codec T) uri accept opts : returns (dec codec) → returns (enc codec) →
  typed (GetResource defaultResolver resolver fuel T codec uri accept opts).
Proof.
  revert T codec uri accept opts. induction fuel as [|fuel IH]; intros T codec uri accept opts Hd He; [by apply typed_keep|].
  cbn [GetResource]. apply typed_get_resource; auto.
Qed.

Section Clients.
Context (fuel : nat).
#[local] Notation get := (GetResource defaultResolver resolver fuel).

Lemma get_servers uri accept opts : typed (get _ server_codec uri accept opts).
Proof. by apply typed_GetResource. Qed.
Lemma get_signeds uri accept opts : typed (get _ signed_codec uri accept opts).
Proof. by apply typed_GetResource. Qed.
#[local] Hint Resolve get_servers get_signeds typed_GetServer typed_resolveResolver typed_resource_server resolve_endpoint_returns : typed.

(** *** Calls *)

Lemma typed_target r : typed (target_server defaultResolver resolver fuel r).
Proof. unfold target_server. typed_walk. Qed.

Lemma endpoint_path_returns server endpoint missing args : endpoint_path server endpoint missing args ≠ Panic.
Proof. unfold endpoint_path. destruct (_ !! _); [by apply wrap_returns|done]. Qed.

Lemma typed_request server method url accept what : typed (request_server server method url accept what).
Proof. unfold request_server. typed_walk. Qed.

Lemma typed_online server : typed (ensure_online server).
Proof. unfold ensure_online. typed_walk. Qed.

Lemma check_query_returns prefix parent orderBy order : check_query prefix parent orderBy order ≠ Panic.
Proof. unfold check_query. by repeat case_match. Qed.
#[local] Hint Resolve typed_target endpoint_path_returns typed_request typed_online check_query_returns : typed.

Lemma typed_Query r prefix parent schema author orderBy since until sinceKey untilKey limit order {T} (codec : Codec T) :
  returns (dec codec) →
  typed (Query defaultResolver resolver fuel r prefix parent schema author orderBy since until sinceKey untilKey limit order codec).
Proof. intros Hd. unfold Query. typed_walk. Qed.

Lemma typed_Call r endpoint params opts {T} (codec : Codec T) : returns (dec codec) → returns (enc codec) →
  typed (Call defaultResolver resolver fuel r endpoint params opts codec).
Proof.
  intros Hd He. unfold Call. apply typed_bind; [apply typed_target|]. intros server.
  apply typed_bind; [apply typed_lift, endpoint_path_returns|]. intros path.
  apply typed_cached; [right; apply prefix_of_key|done|]. typed_walk. apply typed_bytes. right. apply prefix_of_key.
Qed.

Lemma typed_Commit r sd : typed (Client.Commit defaultResolver resolver fuel r sd).
Proof. unfold Client.Commit. typed_walk. Qed.

Lemma typed_record {T} (decode : any_ → result T) uri opts : returns decode → (∀ sd, Verify resolver sd ≠ Panic) →
  typed (GetRecord resolver get decode uri opts).
Proof.
  intros Hd Hv. assert (∀ sd, typed (check_record resolver uri opts sd)) as Hcheck.
  { intros sd c Hc. assert (docHash sd ≠ Panic) as Hs by by apply Url.rbind_no_panic. split; [by apply keeps_check_record|]. unfold check_record. rewrite bindM_check.
    match goal with |- context [if ?b then _ else _] => destruct b end; [|done].
    rewrite bindM_lift. destruct (docHash sd) as [h| |]; [|done..]. unfold cache_get. rewrite bindM_gets.
    destruct (_ && _); [done|]. unfold bindM, wrapM, liftM. specialize (Hv sd). by destruct (Verify resolver sd), (negb (op_NoCache opts)). }
  unfold GetRecord, GetSignedRecord. typed_walk.
Qed.

(** *** Batches *)

Lemma writable_returns req : writable req ≠ Panic.
Proof. unfold writable. apply Url.rbind_no_panic; [apply Url.Parse_no_panic|]. intros u. by case_match. Qed.

Lemma read_replies_returns requests raw m : (∀ id response, ReplyRead id response ∈ raw → response ≠ Panic) →
  read_replies requests raw m ≠ Panic.
Proof.
  revert m. induction raw as [|[id r|e] raw IH]; intros m Hr; cbn; [done| |done]. case_decide; [|apply IH; intros ???; eapply Hr; by right].
  apply Url.rbind_no_panic; [eapply Hr; by left|]. intros a. apply IH. intros ???. eapply Hr. by right.
Qed.

Lemma batch_replies_returns n endpoint requests code media raw :
  batch_exchange n endpoint requests = BatchAnswered code media raw → batch_replies requests code media raw ≠ Panic.
Proof.
  intros [Hm Hr]%batch_returns. unfold batch_replies. do 4 (apply Url.rbind_no_panic; [try done; by case_match|intros ?]).
  by apply read_replies_returns.
Qed.

Lemma typed_DoBatch endpoint requests : typed (DoBatchRequestWithClient endpoint requests).
Proof.
  apply typed_same. intros c. unfold DoBatchRequestWithClient.
  pose proof (traverse_returns (λ p : string * Request, writable (snd p)) (map_to_list requests) (λ p, writable_returns (snd p))) as Ht.
  pose proof (Url.Parse_no_panic endpoint) as Hp. destruct (traverse _ _), (Url.Parse endpoint); try done.
  destruct (batch_exchange _ _ _) as [|code media raw] eqn:E; [done|]. apply batch_replies_returns in E. by destruct (batch_replies _ _ _ _).
Qed.
#[local] Hint Resolve typed_DoBatch : typed.

Lemma typed_item i uri opts : typed (resolveResourceBatchItem defaultResolver resolver fuel i uri opts).
Proof. unfold resolveResourceBatchItem, batch_path. typed_walk. Qed.
#[local] Hint Resolve typed_item : typed.

Section Results.
Context {T : Type} (codec : Codec T) (accept : string) (opts : Options).
Context (dec_returns : returns (dec codec)) (enc_returns : returns (enc codec)).

Lemma typed_sort s i uri : typed (sort_item defaultResolver resolver fuel codec opts s i uri).
Proof.
  unfold sort_item. apply typed_read. intros x Hx. destruct (op_NoCache opts); [typed_walk|]. destruct x as [e|]; [|typed_walk].
  destruct (fits_bytes_key resolver _ e (or_introl (prefix_of_key "resource:" uri)) (Hx e eq_refl)) as [bytes ->]. typed_walk.
Qed.

Lemma typed_sorts s i uris targets : typed (sort_items defaultResolver resolver fuel codec opts s i uris targets).
Proof.
  revert s i targets. induction uris as [|uri uris IH]; intros s i [|target targets]; cbn [sort_items]; try by apply typed_keep.
  apply typed_bind; [apply typed_check|]. intros _. apply typed_bind; [apply typed_sort|]. intros s'. apply IH.
Qed.

Lemma typed_keep_replies responses items results : typed (keep_replies codec opts responses items results).
Proof.
  revert results. induction items as [|item items IH]; intros results; cbn [keep_replies]; [by apply typed_keep|].
  apply typed_bind; [|intros r; apply IH]. unfold keep_reply. typed_walk. apply typed_bytes. left. apply prefix_of_key.
Qed.
#[local] Hint Resolve typed_keep_replies : typed.

Lemma item_request_returns item : item_request accept item ≠ Panic.
Proof. unfold item_request. apply Url.rbind_no_panic; [apply wrap_returns, new_request_returns|done]. Qed.
#[local] Hint Resolve item_request_returns traverse_returns : typed.

Lemma typed_groups groups results : typed (fetch_groups codec accept opts groups results).
Proof.
  revert results. induction groups as [|[be items] groups IH]; intros results; cbn [fetch_groups]; [by apply typed_keep|].
  apply typed_bind; [|intros r; apply IH]. unfold getResourceBatchGroup. typed_walk.
Qed.

Lemma typed_singles indexes uris results err : typed (fetch_singles defaultResolver resolver fuel codec accept opts indexes uris results err).
Proof.
  revert results err. induction indexes as [|i indexes IH]; intros results err; cbn [fetch_singles]; [by destruct err; apply typed_keep|].
  apply typed_try; [by apply typed_GetResource|]. intros r Hr. by destruct r.
Qed.

Lemma typed_GetResourceBatch uris targets : typed (GetResourceBatch defaultResolver resolver fuel codec accept opts uris targets).
Proof.
  unfold GetResourceBatch. apply typed_bind; [apply typed_check|]. intros _. apply typed_bind; [apply typed_sorts|]. intros s.
  apply typed_bind; [apply typed_groups|]. intros r. apply typed_singles.
Qed.
End Results.

Lemma typed_plain_gets domain reqs responses : typed (plain_gets domain reqs responses).
Proof.
  revert responses. induction reqs as [|p reqs IH]; intros responses; cbn [plain_gets]; [by apply typed_keep|].
  apply typed_bind; [|intros r; apply IH]. unfold plain_get. typed_walk.
Qed.
#[local] Hint Resolve typed_plain_gets : typed.

Lemma typed_batch_server domain : typed (batch_server defaultResolver resolver fuel domain).
Proof.
  unfold batch_server. apply typed_try; [eauto with typed|]. intros r Hr. destruct r; [typed_walk..|done].
Qed.

Lemma typed_get_domain domain reqs responses : typed (get_domain defaultResolver resolver fuel domain reqs responses).
Proof.
  unfold get_domain. apply typed_bind; [by apply typed_keep|]. intros up. destruct up; [|by apply typed_keep]. cbn [negb].
  apply typed_bind; [apply typed_batch_server|]. intros [info|]; [|by apply typed_keep].
  destruct (wk_Endpoints info !! _) as [desc|]; [|apply typed_plain_gets].
  assert (batch_path info desc ≠ Panic) as Hp by by apply wrap_returns. destruct (batch_path info desc); [typed_walk..|done].
Qed.

Lemma typed_BatchGet requests : typed (BatchGet defaultResolver resolver fuel requests).
Proof.
  unfold BatchGet. generalize (∅ : gmap string (Z * string)). induction (map_to_list requests) as [|[domain reqs] l IH]; intros m; cbn [get_domains].
  - by apply typed_keep.
  - apply typed_bind; [apply typed_get_domain|]. intros r. apply IH.
Qed.

(** *** In any order *)

Lemma typed_ResolveResourceHost uri : typed (ResolveResourceHost defaultResolver resolver get uri).
Proof. unfold ResolveResourceHost. typed_walk. Qed.

Lemma typed_InvalidateResource uri : typed (InvalidateResource uri).
Proof. intros c Hc. split; [|done]. revert c Hc. apply keeps_bind; [apply keeps_cache_delete|]. intros _. apply keeps_cache_delete. Qed.

Lemma typed_UpKeeper : typed UpKeeper.
Proof.
  unfold UpKeeper. apply typed_bind; [by apply typed_keep|]. intros hosts.
  assert (∀ h, typed (keep_host h)) as Hh.
  { intros [domain failed]. unfold keep_host, healthCheckDomain. typed_walk. }
  apply typed_bind; [|intros ?; by apply typed_keep].
  induction hosts as [|h hosts IH]; cbn [forM]; [by apply typed_keep|]. typed_walk.
Qed.

Inductive Operation : Type :=
| OpServer (domainOrCSID : string) (hint : option string)
| OpHost (uri : string)
| OpResource {T : Type} (codec : Codec T) (uri accept : string) (opts : Options)
| OpRecord {T : Type} (decode : any_ → result T) (uri : string) (opts : Options)
| OpQuery {T : Type} (codec : Codec T) (r prefix parent schema author orderBy : string) (since until : option string)
    (sinceKey untilKey : string) (limit : Z) (order : string)
| OpCall {T : Type} (codec : Codec T) (r endpoint : string) (params : gmap string string) (opts : Options)
| OpCommit (r : string) (sd : SignedDocument)
| OpResourceBatch {T : Type} (codec : Codec T) (accept : string) (opts : Options) (uris : list string) (targets : list bool)
| OpBatchGet (requests : gmap string (gmap string string))
| OpInvalidate (uri : string)
| OpUpKeeper.

Definition run_op (op : Operation) : CM unit :=
  match op with
  | OpServer d hint => GetServer defaultResolver get d hint ;; retM tt
  | OpHost uri => ResolveResourceHost defaultResolver resolver get uri ;; retM tt
  | @OpResource T codec uri accept opts => get T codec uri accept opts ;; retM tt
  | OpRecord decode uri opts => GetRecord resolver get decode uri opts ;; retM tt
  | OpQuery codec r prefix parent schema author orderBy since until sinceKey untilKey limit order =>
      Query defaultResolver resolver fuel r prefix parent schema author orderBy since until sinceKey untilKey limit order codec ;; retM tt
  | OpCall codec r endpoint params opts => Call defaultResolver resolver fuel r endpoint params opts codec ;; retM tt
  | OpCommit r sd => Client.Commit defaultResolver resolver fuel r sd
  | OpResourceBatch codec accept opts uris targets =>
      GetResourceBatch defaultResolver resolver fuel codec accept opts uris targets ;; retM tt
  | OpBatchGet requests => BatchGet defaultResolver resolver fuel requests ;; retM tt
  | OpInvalidate uri => InvalidateResource uri
  | OpUpKeeper => UpKeeper
  end.

(** The caller's codecs return; and so does the verifier of a record, which
    panics on a recovered key that does not parse. *)
Definition op_returns (op : Operation) : Prop :=
  match op with
  | OpResource codec _ _ _ | OpQuery codec _ _ _ _ _ _ _ _ _ _ _ _ | OpCall codec _ _ _ _ | OpResourceBatch codec _ _ _ _ =>
      returns (dec codec) ∧ returns (enc codec)
  | OpRecord decode _ _ => returns decode ∧ ∀ sd, Verify resolver sd ≠ Panic
  | _ => True
  end.

Lemma typed_run op : op_returns op → typed (run_op op).
Proof.
  destruct op; cbn [run_op op_returns]; intros Hop; try destruct Hop as [? ?]; try (apply typed_bind; [|intros ?; by apply typed_keep]).
  - apply typed_GetServer; eauto with typed.
  - apply typed_ResolveResourceHost.
  - by apply typed_GetResource.
  - by apply typed_record.
  - by apply typed_Query.
  - by apply typed_Call.
  - apply typed_Commit.
  - by apply typed_GetResourceBatch.
  - apply typed_BatchGet.
  - apply typed_InvalidateResource.
  - apply typed_UpKeeper.
Qed.

(** C37: the cache stays well typed and is used at its types.  Whatever servers
    answer, any operations of the client run one after the other, each whatever
    became of those before it, leave a well-typed cache and run into no type
    assertion or other panic: looking up a server or host, fetching a resource,
    a record, a query or a named endpoint, committing, fetching many resources
    or a batch of requests, invalidating, and a tick of the keeper.  For records
    this needs a verifier that does not panic itself. *)
Theorem client_typed ops c : Forall op_returns ops → cache_ok resolver c →
  let out := forM (λ op, tryM (run_op op)) ops c in
  cache_ok resolver (snd out) ∧ ∃ rs, fst out = Ok rs ∧ length rs = length ops.
Proof.
  intros Hops. revert c. induction Hops as [|op ops Hop _ IH]; intros c Hc; cbn [forM]; [split; [done|]; by exists []|].
  destruct (typed_run op Hop c Hc) as [Hc1 Hp]. unfold bindM at 1 3, tryM at 1 3.
  destruct (run_op op c) as [[r|e|] c1]; [| |done]; cbn [fst snd] in *.
  all: destruct (IH c1 Hc1) as [Hc2 (rs & E & El)]; unfold bindM; destruct (forM _ ops c1) as [[rs'| |] c2]; cbn in *; [|done..].
  all: injection E as ->; split; [done|]; eexists; split; [done|]; cbn; by rewrite El.
Qed.
End Clients.
End Operations.

(** ** Example: two posts of one server, fetched in four ways *)

Section Example.
Import Hub.

Definition visits : list Operation :=
  [OpServer "host" None; OpResource signed_codec (nth 0 asked "") json_accept from_host;
   OpCall signed_codec "host" "net.concrnt.core.batch" ∅ from_host;
   OpResourceBatch signed_codec json_accept from_host asked [true; true];
   OpCall signed_codec "host" "net.concrnt.core.batch" ∅ from_host;
   OpResourceBatch signed_codec json_accept from_host asked [true; true]].

Definition visited : result (list (result unit)) * Client :=
  forM (λ op, tryM (run_op "host" Remote.resolver 2 op)) visits Remote.fresh.

(** The second call and the second batch are answered from the cache. *)
Lemma client_typed_witness : cl_requests (snd visited) = 4%nat ∧ size (cl_cache (snd visited)) = 5%nat ∧
  cache_ok Remote.resolver (snd visited) ∧ ∃ rs, fst visited = Ok rs ∧ length rs = length visits.
Proof.
  split; [vm_compute; reflexivity|]. split; [vm_compute; reflexivity|].
  unfold visited. refine (client_typed "host" Remote.resolver _ _ _ _ _ _ _ _ _ 2 visits Remote.fresh _ _).
  1-8: unfold returns; intros; cbn; unfold World.lookup_text, of_option; repeat case_match; discriminate.
  - intros n endpoint requests code media raw [= <- <- <-]. split; [discriminate|].
    intros id response Hin. apply list_elem_of_In, in_rev, list_elem_of_In, list_elem_of_fmap in Hin as ([k r] & [= _ ->] & _). discriminate.
  - repeat constructor; intros a; cbn; repeat case_match; discriminate.
  - exact Remote.fresh_ok.
Defined.
End Example.
