(* ===== verification/Server.v ===== *)
(** * Server: the registry of other servers
      ([src/internal/usecase/server], [postgres/server.go])

    A server is known by the row of its domain: its identity, layer and
    well-known document as last fetched, and the tags its operator gave it
    ([_blocked]).  A server without a row is fetched and stored under the
    domain its answer claims. *)

From S2P Require Import Prelude Effects Url Ccuri Documents Verify Client ClientFacts.
From stdpp Require Import prelude strings gmap list.
From Stdlib Require Import ZArith Lia Ascii.
Open Scope uc_scope.

(** [models.Server], keyed by its ID. *)
Record ServerRow : Type := mkServerRow {
  sr_CSID : string;
  sr_Tag : string;
  sr_Layer : string;
  sr_WellKnown : string;
}.

(** [domain.Server] *)
Record ServerInfo : Type := mkServerInfo { si_TagString : string; si_WellKnown : WellKnown }.

Definition ServerDB : Type := gmap string ServerRow.
Definition RM (A : Type) : Type := SM ServerDB A.

(** What the client answers: [client.GetServer] and [ResolveResourceHost]. *)
Class ServerClient := {
  remote_GetServer : string → option string → result WellKnown;
  remote_ResolveHost : string → result string;
}.

(** [domain.Config] and [mm.GetEndpoints]. *)
Class Self := {
  own_FQDN : string;
  own_CSID : string;
  own_Layer : string;
  own_Endpoints : gmap string string;
}.

Section Server.
Context `{ClientJson} `{UriTemplate} `{ServerClient} `{Self}.

(** ** The repository *)

Definition modelToDomainServer (m : ServerRow) : result ServerInfo :=
  rbind (dec server_codec (sr_WellKnown m)) (λ wkc, Ok (mkServerInfo (sr_Tag m) wkc)).

(** The upsert: every column of the row but its dates. *)
Definition save_server (wkc : WellKnown) : RM ServerInfo :=
  let* serialized := liftM (enc server_codec wkc) in
  let newServer := mkServerRow (wk_CSID wkc) "" (wk_Layer wkc) serialized in
  modifyM (λ db, <[wk_Domain wkc := newServer]> db) ;;
  liftM (modelToDomainServer newServer).

(** A stored row with a well-known document answers without a request. *)
Definition stored (row : option ServerRow) : option ServerRow :=
  match row with Some r => if String.eqb (sr_WellKnown r) "" then None else Some r | None => None end.

(** Identities are not unique; the query takes one row. *)
Definition row_by_csid (db : ServerDB) (csid : string) : option ServerRow :=
  snd <$> List.find (λ p, String.eqb (sr_CSID (snd p)) csid) (map_to_list db).

Definition GetAndCacheByCSID (csid : string) (hint : option string) : RM ServerInfo :=
  let* found := getsM (λ db, stored (row_by_csid db csid)) in
  match found with
  | Some row => liftM (modelToDomainServer row)
  | None =>
      match hint with
      | None => failM (NotFoundError "" "" "")
      | Some _ =>
          let* wkc := liftM (remote_GetServer csid hint) in
          save_server wkc
      end
  end.

Definition GetAndCacheByFQDN (fqdn : string) : RM ServerInfo :=
  let* found := getsM (λ db, stored (db !! fqdn)) in
  match found with
  | Some row => liftM (modelToDomainServer row)
  | None =>
      let* wkc := liftM (remote_GetServer fqdn None) in
      save_server wkc
  end.

Definition repo_Resolve (identifier : string) (hint : option string) : RM ServerInfo :=
  if IsCSID identifier then GetAndCacheByCSID identifier hint else GetAndCacheByFQDN identifier.

(** Rows that do not decode are left out. *)
Definition List_ (db : ServerDB) : list WellKnown :=
  omap (λ p, if String.eqb (sr_WellKnown (snd p)) "" then None
             else match dec server_codec (sr_WellKnown (snd p)) with Ok wkc => Some wkc | _ => None end)
    (map_to_list db).

(** ** The use case *)

Definition GetThisServer : ServerInfo :=
  mkServerInfo "" (mkWellKnown "2.0" own_FQDN own_CSID own_Layer own_Endpoints).

Definition Resolve (identifier : string) (hint : option string) : RM ServerInfo :=
  if String.eqb identifier own_FQDN || String.eqb identifier own_CSID then retM GetThisServer
  else repo_Resolve identifier hint.

Definition blob_not_found (uri : string) : error := NotFoundError uri "" "".

(** Ends in an error: a redirect to the file, or the reason there is none. *)
Definition ResolveBlob (parsed : CCURI) : RM unit :=
  match remote_ResolveHost (Ccuri.Raw parsed) with
  | Panic => panicM
  | Err _ => failM (blob_not_found (Ccuri.Raw parsed))
  | Ok host =>
      if negb (String.eqb host own_FQDN) then
        let* server := tryM (Resolve host (Ccuri.Hint parsed)) in
        match server with
        | Ok server =>
            match wk_Endpoints (si_WellKnown server) !! "net.concrnt.core.resolve" with
            | None => failM (blob_not_found (Ccuri.Raw parsed))
            | Some remoteResolve =>
                let* path := liftM (RenderURITemplate remoteResolve {["uri" := Ccuri.Raw parsed]}) in
                failM (RedirectError ("https://" +:+ host +:+ path))
            end
        | _ => failM (blob_not_found (Ccuri.Raw parsed))
        end
      else
        match own_Endpoints !! "net.concrnt.storage.resolve" with
        | None => failM (GoError "storage module not found")
        | Some storageModule =>
            let* path := liftM (RenderURITemplate storageModule {["hash" := Ccuri.CDID parsed]}) in
            failM (RedirectError path)
        end
  end.

(** ** What resolving a server does to the table *)

(** A resolution rewrites at most one row: that of the domain the answer
    claims, with the tags cleared. *)
Definition rewrites (db db' : ServerDB) : Prop :=
  db' = db ∨ ∃ wkc text, enc server_codec wkc = Ok text ∧
    db' = <[wk_Domain wkc := mkServerRow (wk_CSID wkc) "" (wk_Layer wkc) text]> db.

Lemma save_server_rewrites wkc db : rewrites db (snd (save_server wkc db)).
Proof.
  unfold save_server. rewrite bindM_lift. destruct (enc server_codec wkc) as [text| |] eqn:E; [|by left..].
  rewrite bindM_modify. right. by exists wkc, text.
Qed.

Lemma Resolve_rewrites identifier hint db : rewrites db (snd (Resolve identifier hint db)).
Proof.
  unfold Resolve, repo_Resolve, GetAndCacheByCSID, GetAndCacheByFQDN.
  destruct (_ || _); [by left|]. destruct (IsCSID identifier); rewrite bindM_gets.
  - destruct (stored _); [by left|]. destruct hint as [h|]; [|by left]. rewrite bindM_lift.
    destruct (remote_GetServer _ _) as [wkc| |]; [apply save_server_rewrites|by left..].
  - destruct (stored _); [by left|]. rewrite bindM_lift.
    destruct (remote_GetServer _ _) as [wkc| |]; [apply save_server_rewrites|by left..].
Qed.

(** the answer of one server decides the row of another.  Resolving a
    domain that has no row here rewrites the row of whatever domain the answer
    claims - its endpoints, identity and layer become the answer's and its
    tags, a block among them, are gone - and no other row. *)
Theorem Resolve_takes_over fqdn wkc text db :
  fqdn ≠ own_FQDN → fqdn ≠ own_CSID → IsCSID fqdn = false → stored (db !! fqdn) = None →
  remote_GetServer fqdn None = Ok wkc → enc server_codec wkc = Ok text →
  let db' := snd (Resolve fqdn None db) in
  db' !! wk_Domain wkc = Some (mkServerRow (wk_CSID wkc) "" (wk_Layer wkc) text) ∧
  (∀ d, d ≠ wk_Domain wkc → db' !! d = db !! d).
Proof.
  intros Hf%String.eqb_neq Hc%String.eqb_neq Hid Hs Hw He. unfold Resolve, repo_Resolve. rewrite Hf, Hc, Hid.
  cbn [orb]. unfold GetAndCacheByFQDN. rewrite bindM_gets, Hs, bindM_lift, Hw. unfold save_server.
  rewrite bindM_lift, He, bindM_modify. cbn. split; [apply lookup_insert_eq|].
  intros d Hd. by apply lookup_insert_ne.
Qed.
End Server.

(** ** A blocked server forgets its block *)

Module Registry.
#[export] Existing Instance Remote.codecs.
#[export] Existing Instance Remote.template.
(** Every server says it is [host]. *)
#[export] Instance remote : ServerClient := {|
  remote_GetServer _ _ := Ok Remote.host;
  remote_ResolveHost _ := Err (GoError "host");
|}.
#[export] Instance self : Self := {| own_FQDN := "me"; own_CSID := ""; own_Layer := "main"; own_Endpoints := ∅ |}.
Definition blocked : ServerRow := mkServerRow "" "_blocked" "main" "wk".
Definition db : ServerDB := {["host" := blocked]}.
End Registry.
Import Registry.

Lemma Resolve_takes_over_witness :
  let db' := snd (Resolve "evil" None Registry.db) in
  Registry.db !! "host" = Some Registry.blocked ∧
  db' !! "host" = Some (mkServerRow "" "" "main" "wk") ∧ (∀ d, d ≠ "host" → db' !! d = Registry.db !! d).
Proof.
  split; [reflexivity|].
  apply (Resolve_takes_over "evil" Remote.host "wk" Registry.db); try discriminate; reflexivity.
Defined.
