(* ===== verification/StoreFacts.v ===== *)
(** * StoreFacts: what the repository guarantees

    Accept-if-newer on entities and acks: arrival order does not matter, an ack
    and its mirror are decided alike, and one order that the column defaults
    make matter. *)

From S2P Require Import Prelude Bytes Url Cdid Ccuri Documents PolicyValues Store.
From stdpp Require Import prelude strings gmap list sorting.
From Stdlib Require Import ZArith Lia Ascii.
Open Scope Z_scope.

(** ** Accept-if-newer

    [apply_row] is the row after an upsert.  Two rows with different times
    leave the same row in either order when a newer row replaces every column
    the order could show ([merge] absorbs). *)

Section Upserts.
Context {A : Type} (created : A → Z) (merge : A → A → A).

Definition apply_row (old : option A) (row : A) : option A :=
  match upsert_row created merge old row with Some r => Some r | None => old end.

(** [fresh] rows are those a document inserts. *)
Context (fresh : A → Prop).
Context (merge_created : ∀ o r, created (merge o r) = created r).
Context (merge_absorb : ∀ o a b, merge (merge o a) b = merge o b).
Context (merge_fresh : ∀ a b, fresh a → fresh b → merge a b = b).

Lemma apply_row_comm old a b :
  fresh a → fresh b → created a ≠ created b →
  apply_row (apply_row old a) b = apply_row (apply_row old b) a.
Proof.
  intros Ha Hb Hne. unfold apply_row, upsert_row.
  destruct old as [o|]; repeat (case_match; simplify_eq/=);
    repeat match goal with H : (_ <? _) = true |- _ => apply Z.ltb_lt in H
                      | H : (_ <? _) = false |- _ => apply Z.ltb_ge in H end;
    rewrite ?merge_created in *; rewrite ?merge_absorb; try done; try lia;
    by rewrite merge_fresh.
Qed.

End Upserts.

(** ** Entities *)

Record EntityOp : Type := mkEntityOp {
  eo_ccid : string;
  eo_alias : option string;
  eo_domain : string;
  eo_documentID : string;
  eo_createdAt : Z;
}.

Definition entity_row (op : EntityOp) : EntityRow :=
  mkEntityRow (eo_alias op) (eo_domain op) "" (eo_documentID op) (eo_createdAt op).

Definition create_entity (db : DB) (op : EntityOp) : result DB :=
  '(_, db) ← CreateEntity db (eo_ccid op) (eo_alias op) (eo_domain op) (eo_documentID op) (eo_createdAt op);
  Ok db.

(** A batch of commits, one after the other. *)
Fixpoint run {A O} (f : A → O → result A) (a : A) (ops : list O) : result A :=
  match ops with [] => Ok a | op :: ops => a ← f a op; run f a ops end.

Definition logged (db : DB) (id : string) : Prop := is_Some (commit_logs db !! id).

(** The entity table after one document. *)
Definition put_entity (t : gmap string EntityRow) (op : EntityOp) : gmap string EntityRow :=
  partial_alter (λ old, apply_row er_CreatedAt merge_entity old (entity_row op)) (eo_ccid op) t.

Lemma set_entities_id db : set_entities db (entities db) = db.
Proof. by destruct db. Qed.

Lemma create_entity_put db op :
  logged db (eo_documentID op) → create_entity db op = Ok (set_entities db (put_entity (entities db) op)).
Proof.
  intros [log Hlog]. unfold create_entity, CreateEntity, put_entity, apply_row. unfold entity_row.
  destruct (upsert_row _ _ _ _) as [row|] eqn:E; cbn.
  - rewrite Hlog. cbn. do 2 f_equal.
    apply map_eq. intros k. destruct (decide (k = eo_ccid op)) as [->|Hk].
    + by rewrite lookup_insert_eq, lookup_partial_alter_eq, E.
    + by rewrite lookup_insert_ne, lookup_partial_alter_ne by done.
  - rewrite partial_alter_id; [by rewrite set_entities_id|]. by rewrite E.
Qed.

Lemma run_entities db ops :
  Forall (λ op, logged db (eo_documentID op)) ops →
  run create_entity db ops = Ok (set_entities db (foldl put_entity (entities db) ops)).
Proof.
  revert db. induction ops as [|op ops IH]; intros db Hall; cbn [run foldl].
  - by rewrite set_entities_id.
  - inversion Hall; subst. rewrite create_entity_put by done. cbn [mbind result_bind rbind].
    rewrite IH; [done|]. eapply Forall_impl; [eassumption|]. done.
Qed.

Lemma put_entity_comm t a b :
  (eo_ccid a, eo_createdAt a) ≠ (eo_ccid b, eo_createdAt b) →
  put_entity (put_entity t a) b = put_entity (put_entity t b) a.
Proof.
  intros Hne. unfold put_entity. destruct (decide (eo_ccid a = eo_ccid b)) as [E|E].
  - rewrite E, !partial_alter_partial_alter_eq. apply partial_alter_ext. intros old _. cbn.
    apply (apply_row_comm er_CreatedAt merge_entity (λ r, er_Tag r = ""));
      [done..| by intros [] []; cbn; intros -> -> | done | done | cbn; congruence].
  - by rewrite partial_alter_partial_alter_ne.
Qed.

Lemma foldl_perm {A O} (f : A → O → A) (key : O → string * Z) :
  (∀ t a b, key a ≠ key b → f (f t a) b = f (f t b) a) →
  ∀ ops ops', ops ≡ₚ ops' → NoDup (key <$> ops) → ∀ t, foldl f t ops = foldl f t ops'.
Proof.
  intros Hc ops ops' Hp. induction Hp as [|x l l' _ IH|x y l|l l' l'' Hp1 IH1 _ IH2]; intros Hnd t; cbn.
  - done.
  - apply IH. by apply NoDup_cons in Hnd as [_ Hnd].
  - rewrite Hc; [done|]. cbn in Hnd. apply NoDup_cons in Hnd as [Hx _]. set_solver.
  - rewrite IH1 by done. apply IH2. by rewrite <- Hp1.
Qed.

(** What some documents make of an entity's row: they leave it when none of
    them is newer; otherwise it is that of the first document of the latest
    time, but for the tag, which no document carries. *)
Definition newest (old : option EntityRow) (ops : list EntityOp) (id : string) (row : option EntityRow) : Prop :=
  (row = old ∧ ∀ op, op ∈ ops → eo_ccid op = id → ∃ o, old = Some o ∧ eo_createdAt op <= er_CreatedAt o) ∨
  ∃ before op after, ops = before ++ op :: after ∧ eo_ccid op = id ∧
    row = Some (mkEntityRow (eo_alias op) (eo_domain op) (from_option er_Tag "" old) (eo_documentID op) (eo_createdAt op)) ∧
    (∀ o, old = Some o → er_CreatedAt o < eo_createdAt op) ∧
    (∀ op', op' ∈ before → eo_ccid op' = id → eo_createdAt op' < eo_createdAt op) ∧
    (∀ op', op' ∈ after → eo_ccid op' = id → eo_createdAt op' <= eo_createdAt op).

Lemma newest_other old ops id row op : eo_ccid op ≠ id → newest old ops id row → newest old (ops ++ [op]) id row.
Proof.
  intros Hne [[-> Hold]|(before & op0 & after & -> & Hid & -> & Ho & Hb & Ha)].
  - left. split; [done|]. intros op' [Hin| ->%list_elem_of_singleton]%elem_of_app; [auto|done].
  - right. exists before, op0, (after ++ [op]). rewrite <- app_assoc. split_and!; [done..|].
    intros op' [Hin| ->%list_elem_of_singleton]%elem_of_app; [auto|done].
Qed.

Lemma newest_next old ops op row : newest old ops (eo_ccid op) row →
  newest old (ops ++ [op]) (eo_ccid op) (apply_row er_CreatedAt merge_entity row (entity_row op)).
Proof.
  unfold apply_row, upsert_row. intros [[-> Hold]|(before & op0 & after & -> & Hid & -> & Ho & Hb & Ha)].
  - destruct old as [o|]; cbn; [destruct (Z.ltb_spec (er_CreatedAt o) (eo_createdAt op))|].
    + right. exists ops, op, []. split_and!; [done..|by intros ? [= <-]| |by intros ? ?%elem_of_nil].
      intros op' Hin E. destruct (Hold _ Hin E) as (? & [= <-] & ?). lia.
    + left. split; [done|]. intros op' [Hin| ->%list_elem_of_singleton]%elem_of_app; [auto|eauto].
    + right. exists ops, op, []. split_and!; [done..| |by intros ? ?%elem_of_nil]. intros op' Hin E. by destruct (Hold _ Hin E) as (? & ? & ?).
  - cbn. destruct (Z.ltb_spec (eo_createdAt op0) (eo_createdAt op)); cbn; right.
    + exists (before ++ op0 :: after), op, []. split_and!; [done..|intros o Eo; specialize (Ho o Eo); lia| |by intros ? ?%elem_of_nil].
      intros op' [Hin|[->|Hin]%elem_of_cons]%elem_of_app E; [specialize (Hb _ Hin E)|..|specialize (Ha _ Hin E)]; lia.
    + exists before, op0, (after ++ [op]). rewrite <- app_assoc. split_and!; [done..|].
      intros op' [Hin| ->%list_elem_of_singleton]%elem_of_app; [auto|lia].
Qed.

Lemma put_entities_newest t ops id : newest (t !! id) ops id (foldl put_entity t ops !! id).
Proof.
  induction ops as [|op ops IH] using rev_ind; [left; split; [done|by intros ? ?%elem_of_nil]|].
  rewrite foldl_app. cbn. unfold put_entity at 1. destruct (decide (eo_ccid op = id)) as [<-|Hne].
  - rewrite lookup_partial_alter_eq. by apply newest_next.
  - rewrite lookup_partial_alter_ne by done. by apply newest_other.
Qed.

(** C34: entity documents converge.  Received in some order, each with its
    commit log in the database, they are all taken, and nothing but the entities
    changes: of each entity the latest document stands, and of several of the
    same time the first that was received.  So two servers that receive them in
    different orders end in the same state, when no two documents of one entity
    carry the same time. *)
Theorem entities_converge db ops : Forall (λ op, logged db (eo_documentID op)) ops →
  ∃ t, run create_entity db ops = Ok (set_entities db t) ∧
    (∀ id, newest (entities db !! id) ops id (t !! id)) ∧
    ∀ ops', ops ≡ₚ ops' → NoDup ((λ op, (eo_ccid op, eo_createdAt op)) <$> ops) →
      run create_entity db ops' = Ok (set_entities db t).
Proof.
  intros Hl. exists (foldl put_entity (entities db) ops). split; [by apply run_entities|].
  split; [intros id; apply put_entities_newest|]. intros ops' Hp Hnd.
  rewrite run_entities by by rewrite <- Hp. by rewrite (foldl_perm put_entity _ put_entity_comm ops ops' Hp Hnd).
Qed.

Definition example_log : CommitLog := mkCommitLog "" "" "" "" false 0.
Definition example_logs : gmap string CommitLog :=
  {["d1" := example_log; "d2" := example_log; "d3" := example_log]}.
Definition example_db : DB := set_commit_logs empty_db example_logs.

Definition moved : list EntityOp :=
  [mkEntityOp "con1a" None "old.example" "d1" 1; mkEntityOp "con1a" None "new.example" "d2" 2].

Lemma entities_converge_witness : ∃ t,
  run create_entity example_db moved = Ok (set_entities example_db t) ∧
  (∀ id, newest (entities example_db !! id) moved id (t !! id)) ∧
  (∀ ops', moved ≡ₚ ops' → NoDup ((λ op, (eo_ccid op, eo_createdAt op)) <$> moved) →
     run create_entity example_db ops' = Ok (set_entities example_db t)) ∧
  NoDup ((λ op, (eo_ccid op, eo_createdAt op)) <$> moved).
Proof.
  destruct (entities_converge example_db moved) as (t & Hr & Hn & Hp).
  - repeat constructor; vm_compute; by eexists.
  - exists t. split_and!; [exact Hr|exact Hn|exact Hp|]. apply (bool_decide_unpack _). vm_compute. exact I.
Defined.

(** ** Acks *)

(** No other triple's row holds the document. *)
Definition free_document (table : gmap triple AckRow) (key : triple) (id : string) : Prop :=
  ∀ key' r, table !! key' = Some r → ak_DocumentID r = id → key' = key.

Lemma other_holder table key id :
  free_document table key id →
  existsb (λ '(k, r), String.eqb (ak_DocumentID r) id && negb (bool_decide (k = key)))
    (map_to_list table) = false.
Proof.
  intros Hf. apply not_true_iff_false. rewrite existsb_exists. intros ((k & r) & Hin & Hb).
  apply list_elem_of_In, elem_of_map_to_list in Hin.
  apply andb_true_iff in Hb as [He%String.eqb_eq Hn%negb_true_iff%bool_decide_eq_false_1].
  by apply Hn, (Hf k r).
Qed.

(** The row a transition writes. *)
Definition ack_row `{Orm} (old : option AckRow) (row : AckRow) : option AckRow :=
  match old with
  | None => Some (created_ack row)
  | Some o => if ak_CreatedAt o <? ak_CreatedAt row then Some row else None
  end.

Lemma upsert_ack_spec `{Orm} logs table key row :
  is_Some (logs !! ak_DocumentID row) → free_document table key (ak_DocumentID row) →
  upsert_ack logs table key row =
    Ok (match ack_row (table !! key) row with
        | Some r => (true, <[key := r]> table)
        | None => (false, table)
        end).
Proof.
  intros [log Hlog] Hf. unfold upsert_ack, upsert_row, ack_row.
  destruct (table !! key) as [o|] eqn:E.
  - destruct (_ <? _); [|done]. by rewrite other_holder, Hlog.
  - by rewrite other_holder, Hlog.
Qed.

(** What a reader sees of an ack: its flag and its time. *)
Definition ack_state (r : AckRow) : bool * Z := (ak_Valid r, ak_CreatedAt r).

Definition mirrored (db db' : DB) : Prop :=
  ∀ key, ack_state <$> acks db !! key = ack_state <$> ackeds db' !! key.

Definition ack_applies (old : option AckRow) (createdAt : Z) : bool :=
  match old with Some o => ak_CreatedAt o <? createdAt | None => true end.

(** C35: an ack on the acker's server and its acked mirror on the target's,
    which are different documents with one time, are decided alike: from
    mirrored states both transitions succeed, report the same verdict -
    applied exactly when strictly newer - and leave mirrored states. *)
Theorem acks_mirror `{Orm} db db' id id' from to_ schema createdAt valid :
  mirrored db db' →
  logged db id → free_document (acks db) (from, to_, schema) id →
  logged db' id' → free_document (ackeds db') (from, to_, schema) id' →
  ∃ db1 db2,
    let applied := ack_applies (acks db !! (from, to_, schema)) createdAt in
    processAck db id from to_ schema createdAt valid = Ok (applied, db1) ∧
    processAcked db' id' from to_ schema createdAt valid = Ok (applied, db2) ∧
    mirrored db1 db2 ∧ (applied = false → db1 = db ∧ db2 = db').
Proof.
  intros Hm Hl Hf Hl' Hf'. unfold processAck, processAcked.
  rewrite !upsert_ack_spec by done. set (key := (from, to_, schema)) in *.
  pose proof (Hm key) as Hk. unfold ack_row, ack_applies. cbn.
  destruct (acks db !! key) as [o|] eqn:Eo, (ackeds db' !! key) as [o'|] eqn:Eo'; try done; cbn in Hk.
  - injection Hk as Hv Hc. rewrite Hc.
    destruct (ak_CreatedAt o' <? createdAt); cbn; do 2 eexists; (split; [done|]); (split; [done|]).
    + split; [|done]. intros k. cbn. destruct (decide (k = key)) as [->|Hne].
      * by rewrite !lookup_insert_eq.
      * rewrite !lookup_insert_ne by done. apply Hm.
    + split; [exact Hm|]. intros _. split; [by destruct db | by destruct db'].
  - cbn. do 2 eexists. split; [done|]. split; [done|]. split; [|done].
    intros k. cbn. destruct (decide (k = key)) as [->|Hne].
    + by rewrite !lookup_insert_eq.
    + rewrite !lookup_insert_ne by done. apply Hm.
Qed.

#[local] Instance gorm : Orm := {| create_bool tag value := value || tag |}.

Lemma acks_mirror_witness :
  ∃ db1 db2,
    let applied := ack_applies (acks example_db !! ("a", "b", "follow")) 5 in
    processAck example_db "d1" "a" "b" "follow" 5 true = Ok (applied, db1) ∧
    processAcked example_db "d2" "a" "b" "follow" 5 true = Ok (applied, db2) ∧
    mirrored db1 db2 ∧ (applied = false → db1 = example_db ∧ db2 = example_db).
Proof.
  apply acks_mirror.
  - intros key. reflexivity.
  - vm_compute. by eexists.
  - intros k r Hl. discriminate Hl.
  - vm_compute. by eexists.
  - intros k r Hl. discriminate Hl.
Defined.

(** the flag of a fresh row is not the transition's.  The column has a
    default of [true], which the mapper stores for a [false] flag: an unack
    that arrives first leaves a {e valid} ack, and the ack it revokes, arriving
    later with its older time, changes nothing. *)
Theorem unack_first_stays_valid (O : Orm) db id id' from to_ schema t t' :
  zero_takes_default O →
  acks db !! (from, to_, schema) = None →
  logged db id → free_document (acks db) (from, to_, schema) id →
  logged db id' → free_document (acks db) (from, to_, schema) id' →
  t' <= t →
  ∃ db1,
    UnAcknowledge db id from to_ schema t = Ok (true, db1) ∧
    acks db1 !! (from, to_, schema) = Some (mkAckRow id true t) ∧
    Acknowledge db1 id' from to_ schema t' = Ok (false, db1).
Proof.
  intros HO Hnone Hl Hf Hl' Hf' Ht. unfold UnAcknowledge, Acknowledge, processAck.
  rewrite !upsert_ack_spec by done. rewrite Hnone. cbn [ack_row mbind result_bind rbind].
  eexists. split; [done|]. cbn [acks set_acks]. rewrite lookup_insert_eq.
  unfold created_ack. cbn. rewrite (HO true false). cbn. split; [done|].
  rewrite upsert_ack_spec; [| done |].
  - rewrite lookup_insert_eq. cbn. rewrite (proj2 (Z.ltb_ge _ _)) by lia. cbn. by destruct db.
  - intros k r. cbn. destruct (decide (k = (from, to_, schema))) as [->|Hne]; [done|].
    rewrite lookup_insert_ne by done. apply Hf'.
Qed.

Lemma unack_first_stays_valid_witness :
  ∃ db1,
    UnAcknowledge example_db "d2" "a" "b" "follow" 9 = Ok (true, db1) ∧
    acks db1 !! ("a", "b", "follow") = Some (mkAckRow "d2" true 9) ∧
    Acknowledge db1 "d1" "a" "b" "follow" 5 = Ok (false, db1).
Proof.
  apply (unack_first_stays_valid gorm); try (vm_compute; by eexists);
    try (intros k r Hl; discriminate Hl); try (intros [] []; reflexivity); lia.
Defined.
