(* ===== verification/StoreInv.v ===== *)
(** * StoreInv: the tables stay well formed

    [wf] is the schema's promise (foreign keys, unique columns, key ids) and
    [db_step] one repository operation that succeeds; every state reachable
    from the empty database is well formed, so no operation relies on
    PostgreSQL refusing what the code itself rules out. *)

From S2P Require Import Prelude Bytes Url Cdid Ccuri Documents PolicyValues Store StoreFacts.
From stdpp Require Import prelude strings gmap list relations.
From Stdlib Require Import ZArith Lia Ascii.
Open Scope Z_scope.

(** The rows of a table reference what exists. *)
Definition ack_table_wf (logs : gmap string CommitLog) (t : gmap triple AckRow) : Prop :=
  (∀ key r, t !! key = Some r → is_Some (logs !! ak_DocumentID r)) ∧
  (∀ key key' r r', t !! key = Some r → t !! key' = Some r' → ak_DocumentID r = ak_DocumentID r' → key = key').

Record keys_wf (recs : gmap string RecordRow) (keys : gmap string RecordKey) (next : nat) : Prop := {
  key_record : ∀ u k d, keys !! u = Some k → rk_RecordID k = Some d → is_Some (recs !! d);
  key_record_unique : ∀ u u' k k' d, keys !! u = Some k → keys !! u' = Some k' →
    rk_RecordID k = Some d → rk_RecordID k' = Some d → u = u';
  key_id_bound : ∀ u k, keys !! u = Some k → (rk_ID k < next)%nat;
  key_id_unique : ∀ u u' k k', keys !! u = Some k → keys !! u' = Some k' → rk_ID k = rk_ID k' → u = u';
  key_dated : ∀ u k, keys !! u = Some k → (is_Some (rk_RecordID k) ↔ is_Some (rk_RecordCreatedAt k));
}.

Record assoc_wf (logs : gmap string CommitLog) (keys : gmap string RecordKey)
    (assocs : gmap string AssociationRow) : Prop := {
  assoc_log : ∀ d a, assocs !! d = Some a → is_Some (logs !! d);
  assoc_target : ∀ d a, assocs !! d = Some a → ∃ u k, keys !! u = Some k ∧ rk_ID k = as_TargetID a;
  assoc_unique : ∀ d d' a a', assocs !! d = Some a → assocs !! d' = Some a' → as_Unique a = as_Unique a' → d = d';
}.

Record wf (db : DB) : Prop := {
  wf_records : ∀ d r, records db !! d = Some r → logged db d;
  wf_keys : keys_wf (records db) (record_keys db) (next_key db);
  wf_assocs : assoc_wf (commit_logs db) (record_keys db) (associations db);
  wf_acks : ack_table_wf (commit_logs db) (acks db);
  wf_ackeds : ack_table_wf (commit_logs db) (ackeds db);
  wf_entities : ∀ c e, entities db !! c = Some e → logged db (er_DocumentID e);
}.

Lemma wf_empty : wf empty_db.
Proof. repeat split; cbn; intros; try (rewrite lookup_empty in *; done); set_solver. Qed.

(** ** Commit logs only grow *)

Definition logs_grow (l l' : gmap string CommitLog) : Prop := ∀ d, is_Some (l !! d) → is_Some (l' !! d).

Lemma wf_grow_logs db l : logs_grow (commit_logs db) l → wf db → wf (set_commit_logs db l).
Proof.
  intros Hg [Hr Hk Ha [Hak Hak'] [Had Had'] He]. destruct Ha as [Ha1 Ha2 Ha3].
  unfold logged in *. split; unfold logged; cbn; try done; try (split; eauto; done); eauto.
Qed.

Lemma grow_insert l d c : logs_grow l (<[d := c]> l).
Proof. intros k. rewrite lookup_insert_is_Some'. by right. Qed.

Lemma grow_alter f l d : logs_grow l (alter f d l).
Proof. intros k. by rewrite lookup_alter_is_Some. Qed.

Lemma grow_fmap f l : logs_grow l (f <$> l).
Proof. intros k. by rewrite lookup_fmap, fmap_is_Some. Qed.

Lemma mark_wf db d : wf db → wf (MarkCommitLogGcCandidate db d).
Proof. apply wf_grow_logs, grow_alter. Qed.

(** ** Acks and entities *)

Lemma upsert_ack_wf `{Orm} logs t key row b t' :
  upsert_ack logs t key row = Ok (b, t') → ack_table_wf logs t → ack_table_wf logs t'.
Proof.
  unfold upsert_ack. destruct (upsert_row _ _ _ _) as [r|] eqn:Eu; [|by intros [= <- <-]].
  assert (r = row) as ->.
  { unfold upsert_row in Eu. destruct (t !! key); [destruct (_ <? _)|]; congruence. }
  destruct (existsb _ _) eqn:Ex; [done|]. destruct (logs !! ak_DocumentID row) as [log|] eqn:El; [|done].
  intros [= <- <-] [Hl Hu].
  assert (∀ k' r', t !! k' = Some r' → ak_DocumentID r' = ak_DocumentID row → k' = key) as Hfree.
  { intros k' r' Hl' Hd. apply not_true_iff_false in Ex. destruct (decide (k' = key)) as [|Hne]; [done|].
    destruct Ex. apply existsb_exists. exists (k', r'). split.
    - by apply list_elem_of_In, elem_of_map_to_list.
    - rewrite Hd, String.eqb_refl. by rewrite bool_decide_eq_false_2. }
  set (row' := if t !! key then row else created_ack row).
  assert (ak_DocumentID row' = ak_DocumentID row) as Hd by (subst row'; by destruct (t !! key)).
  split.
  - intros k r. destruct (decide (k = key)) as [->|Hne].
    + rewrite lookup_insert_eq. intros [= <-]. rewrite Hd. by eexists.
    + rewrite lookup_insert_ne by done. apply Hl.
  - intros k k' r r'. rewrite !lookup_insert_Some.
    intros [[<- <-]|[Hk Hr]] [[<- <-]|[Hk' Hr']]; rewrite ?Hd; intros Heq; [done| | |by eapply Hu].
    + symmetry. by apply (Hfree k' r').
    + by apply (Hfree k r).
Qed.

Lemma processAck_wf `{Orm} db d f t s c v b db' :
  processAck db d f t s c v = Ok (b, db') → wf db → wf db'.
Proof.
  unfold processAck. intros Hrun Hwf. inv_result. destruct x. simplify_eq/=.
  destruct Hwf. split; try done. by eapply upsert_ack_wf.
Qed.

Lemma processAcked_wf `{Orm} db d f t s c v b db' :
  processAcked db d f t s c v = Ok (b, db') → wf db → wf db'.
Proof.
  unfold processAcked. intros Hrun Hwf. inv_result. destruct x. simplify_eq/=.
  destruct Hwf. split; try done. by eapply upsert_ack_wf.
Qed.

Lemma CreateEntity_wf db ccid alias dom d c b db' :
  CreateEntity db ccid alias dom d c = Ok (b, db') → wf db → wf db'.
Proof.
  unfold CreateEntity. destruct (upsert_row _ _ _ _) as [r|] eqn:Eu; [|by intros [= <- <-]].
  destruct (commit_logs db !! d) as [log|] eqn:El; [|done]. intros [= <- <-] [].
  split; try done. intros k e. cbn. rewrite lookup_insert_Some.
  intros [[<- <-]|[_ Hk]]; [|by eapply wf_entities0].
  assert (er_DocumentID r = d) as ->; [|by eexists].
  unfold upsert_row in Eu. destruct (entities db !! ccid); [destruct (_ <? _)|]; naive_solver.
Qed.

(** ** Record keys *)

Lemma keys_wf_insert recs keys next uri parent recordID createdAt clean :
  keys_wf recs keys next → keys !! uri = None →
  (∀ d, recordID = Some d → is_Some (recs !! d)) →
  (∀ d u k, recordID = Some d → keys !! u = Some k → rk_RecordID k ≠ Some d) →
  (is_Some recordID ↔ is_Some createdAt) →
  keys_wf recs (<[uri := mkRecordKey next parent recordID createdAt clean]> keys) (S next).
Proof.
  intros [H1 H2 H3 H4 H5] Hnone Hrec Hfree Hd. split.
  - intros u k d. rewrite lookup_insert_Some. intros [[<- <-]|[_ Hu]]; cbn; eauto.
  - intros u u' k k' d. rewrite !lookup_insert_Some.
    intros [[<- <-]|[_ Hu]] [[<- <-]|[_ Hu']]; cbn; intros Hk Hk'; try done; try (by eauto);
      by destruct (Hfree d _ _ ltac:(eassumption) ltac:(eassumption)).
  - intros u k. rewrite lookup_insert_Some. intros [[<- <-]|[_ Hu]]; cbn; [lia|].
    specialize (H3 _ _ Hu). lia.
  - intros u u' k k'. rewrite !lookup_insert_Some.
    intros [[<- <-]|[_ Hu]] [[<- <-]|[_ Hu']]; cbn; intros Hid; try done; try (by eauto).
    + specialize (H3 _ _ Hu'). lia.
    + specialize (H3 _ _ Hu). lia.
  - intros u k. rewrite lookup_insert_Some. intros [[<- <-]|[_ Hu]]; cbn; eauto.
Qed.

Lemma assoc_wf_insert_key logs keys assocs uri rk :
  assoc_wf logs keys assocs → keys !! uri = None → assoc_wf logs (<[uri := rk]> keys) assocs.
Proof.
  intros [Ha1 Ha2 Ha3] Hnone. split; [done| |done]. intros d a Hl.
  destruct (Ha2 _ _ Hl) as (u & k & Hk & Hid). exists u, k. split; [|done].
  rewrite lookup_insert_ne; [done|]. congruence.
Qed.

Lemma insert_key_wf db uri parent recordID createdAt clean :
  wf db → record_keys db !! uri = None →
  (∀ d, recordID = Some d → is_Some (records db !! d)) →
  (∀ d u k, recordID = Some d → record_keys db !! u = Some k → rk_RecordID k ≠ Some d) →
  (is_Some recordID ↔ is_Some createdAt) →
  wf (snd (insert_key db uri parent recordID createdAt clean)).
Proof.
  intros [] Hnone Hr Hf Hd. split; cbn; try done.
  - by apply keys_wf_insert.
  - by apply assoc_wf_insert_key.
Qed.

Section Parents.
Context `{Url.NetIP}.

(** Creating the parents adds placeholder keys and touches nothing else. *)
Definition only_adds_keys (db db' : DB) : Prop :=
  commit_logs db' = commit_logs db ∧ records db' = records db ∧ acks db' = acks db ∧
  ackeds db' = ackeds db ∧ associations db' = associations db ∧ entities db' = entities db ∧
  record_keys db ⊆ record_keys db' ∧ (next_key db <= next_key db')%nat ∧
  ∀ u k, record_keys db' !! u = Some k → record_keys db !! u = Some k ∨ rk_RecordID k = None.

Lemma only_adds_keys_refl db : only_adds_keys db db.
Proof. repeat split; auto. Qed.

Lemma only_adds_keys_trans db1 db2 db3 :
  only_adds_keys db1 db2 → only_adds_keys db2 db3 → only_adds_keys db1 db3.
Proof.
  intros (?&?&?&?&?&?&Hs&?&Hk) (?&?&?&?&?&?&Hs'&?&Hk').
  repeat split; try congruence; [by etrans | lia |].
  intros u k Hu. destruct (Hk' u k Hu) as [Hu'|]; auto.
Qed.

Lemma insert_key_adds db uri parent clean :
  record_keys db !! uri = None →
  only_adds_keys db (snd (insert_key db uri parent None None clean)).
Proof.
  intros Hnone. repeat split; cbn; try lia.
  - by apply insert_subseteq.
  - intros u k. rewrite lookup_insert_Some. intros [[<- <-]|[_ Hu]]; auto.
Qed.

Lemma getOrCreateParentRecordKey_spec fuel db uri pid db' :
  getOrCreateParentRecordKey fuel db uri = Ok (pid, db') →
  only_adds_keys db db' ∧ (wf db → wf db').
Proof.
  revert db uri pid db'. induction fuel as [|fuel IH]; intros db uri pid db' Hrun; [done|].
  cbn in Hrun. apply rbind_ok_inv in Hrun as (parent & _ & Hrun).
  apply rbind_ok_inv in Hrun as (parsed & _ & Hrun).
  destruct (_ || _); [simplify_eq; split; [apply only_adds_keys_refl | done]|].
  destruct (record_keys db !! parent) as [rk|] eqn:E;
    [simplify_eq; split; [apply only_adds_keys_refl | done]|].
  apply rbind_ok_inv in Hrun as ([pid1 db1] & H1 & Hrun). apply IH in H1 as [Hadd Hwf].
  destruct (record_keys db1 !! parent) as [rk|] eqn:E1; [by simplify_eq|].
  injection Hrun as <- <-.
  pose proof (insert_key_adds db1 parent pid1 false E1) as Hadd1.
  split; [by eapply only_adds_keys_trans|]. intros Hw.
  apply (insert_key_wf db1 parent pid1 None None false); auto; try done.
Qed.
End Parents.

(** ** Deleting *)

Lemma elem_key_ids db d id :
  id ∈ key_ids db d ↔ ∃ u k, record_keys db !! u = Some k ∧ rk_RecordID k = Some d ∧ rk_ID k = id.
Proof.
  unfold key_ids. rewrite list_elem_of_fmap. split.
  - intros ([u k] & -> & [Hr Hin]%list_elem_of_filter). apply elem_of_map_to_list in Hin. naive_solver.
  - intros (u & k & Hl & Hr & <-). exists (u, k). split; [done|].
    apply list_elem_of_filter. split; [done|]. by apply elem_of_map_to_list.
Qed.

Lemma delete_record_wf db d : wf db → wf (delete_record db d).
Proof.
  unfold delete_record. destruct (records db !! d) as [r|] eqn:Er; [|done].
  intros [Hr [K1 K2 K3 K4 K5] [A1 A2 A3] Hak Had He]. split; cbn; try done.
  - intros d' r'. rewrite lookup_delete_Some. intros [_ Hl]. by eapply Hr.
  - split.
    + intros u k d' [Hl Hne]%map_lookup_filter_Some Hk. cbn in Hne.
      rewrite lookup_delete_ne; [by eauto | congruence].
    + intros u u' k k' d' [Hl _]%map_lookup_filter_Some [Hl' _]%map_lookup_filter_Some. by eapply K2.
    + intros u k [Hl _]%map_lookup_filter_Some. by eapply K3.
    + intros u u' k k' [Hl _]%map_lookup_filter_Some [Hl' _]%map_lookup_filter_Some. by eapply K4.
    + intros u k [Hl _]%map_lookup_filter_Some. by eapply K5.
  - split.
    + intros d' a [Hl _]%map_lookup_filter_Some. by eapply A1.
    + intros d' a [Hl Hg]%map_lookup_filter_Some. cbn in Hg.
      destruct (A2 _ _ Hl) as (u & k & Hk & Hid). exists u, k. split; [|done].
      apply map_lookup_filter_Some. split; [done|]. cbn. intros Hd. apply Hg, elem_key_ids. by eauto.
    + intros d' d'' a a' [Hl _]%map_lookup_filter_Some [Hl' _]%map_lookup_filter_Some. by eapply A3.
Qed.

Lemma DeleteRecordByKey_wf db uri : wf db → wf (DeleteRecordByKey db uri).
Proof.
  unfold DeleteRecordByKey. intros Hw. destruct (record_keys db !! uri) as [k|]; [|done].
  destruct (rk_RecordID k); [|done]. by apply delete_record_wf.
Qed.

Lemma DeleteAssociation_wf db d : wf db → wf (DeleteAssociation db d).
Proof.
  intros [Hr Hk [A1 A2 A3] Hak Had He]. split; cbn; try done. split.
  - intros d' a [_ Hl]%lookup_delete_Some. by eapply A1.
  - intros d' a [_ Hl]%lookup_delete_Some. by eapply A2.
  - intros d' d'' a a' [_ Hl]%lookup_delete_Some [_ Hl']%lookup_delete_Some. by eapply A3.
Qed.

(** ** Creating records *)

Lemma insert_record_wf db d row db' :
  insert_record db d row = Ok db' → wf db → wf db' ∧ is_Some (records db' !! d) ∧
  record_keys db' = record_keys db ∧ next_key db' = next_key db.
Proof.
  unfold insert_record. destruct (records db !! d) as [r|] eqn:Er.
  - intros [= <-] Hw. rewrite Er. by split_and!.
  - destruct (commit_logs db !! d) as [log|] eqn:El; [|done]. intros [= <-] [Hr [] Ha Hak Had He].
    split; [|by cbn; rewrite lookup_insert_eq; split_and!]. split; cbn; try done.
    + intros d' r'. rewrite lookup_insert_Some. intros [[<- _]|[_ Hl]]; [by eexists | by eapply Hr].
    + split; try done. intros u k d' Hl Hk. apply lookup_insert_is_Some'. right. by eauto.
Qed.

Lemma holder_false keys key d :
  existsb (λ '(u, k), bool_decide (rk_RecordID k = Some d) && negb (String.eqb u key)) (map_to_list keys) = false →
  ∀ u k, keys !! u = Some k → rk_RecordID k = Some d → u = key.
Proof.
  intros Hex u k Hl Hk. destruct (decide (u = key)) as [|Hne]; [done|].
  apply not_true_iff_false in Hex. destruct Hex. apply existsb_exists. exists (u, k). split.
  - by apply list_elem_of_In, elem_of_map_to_list.
  - rewrite bool_decide_eq_true_2 by done. by apply negb_true_iff, String.eqb_neq.
Qed.

Lemma upsert_key_wf db key d parent c clean b db' :
  upsert_key db key d parent c clean = Ok (b, db') → is_Some (records db !! d) → wf db → wf db'.
Proof.
  unfold upsert_key. destruct (key_taken _ _); [by intros [= <- <-]|].
  destruct (existsb _ _) eqn:Ex; [done|]. pose proof (holder_false _ _ _ Ex) as Hfree.
  destruct (record_keys db !! key) as [k|] eqn:E; intros [= <- <-] Hrec Hw.
  - destruct Hw as [Hr [K1 K2 K3 K4 K5] [A1 A2 A3] Hak Had He]. split; cbn; try done.
    + split.
      * intros u k' d'. rewrite lookup_insert_Some. intros [[<- <-]|[_ Hl]]; cbn; naive_solver.
      * intros u u' k1 k2 d'. rewrite !lookup_insert_Some.
        intros [[<- <-]|[Hn Hl]] [[<- <-]|[Hn' Hl']]; cbn; intros Hk Hk'; try done; simplify_eq; eauto;
          exfalso; eauto using eq_sym.
      * intros u k'. rewrite lookup_insert_Some. intros [[<- <-]|[_ Hl]]; cbn; eauto.
      * intros u u' k1 k2. rewrite !lookup_insert_Some.
        intros [[<- <-]|[Hn Hl]] [[<- <-]|[Hn' Hl']]; cbn; intros Hid; try done; eauto.
      * intros u k'. rewrite lookup_insert_Some. intros [[<- <-]|[_ Hl]]; cbn; [done | eauto].
    + split; [done| |done]. intros d' a Hl. destruct (A2 _ _ Hl) as (u & k' & Hk & Hid).
      destruct (decide (u = key)) as [->|Hne].
      * simplify_eq. eexists key, _. by rewrite lookup_insert_eq.
      * exists u, k'. by rewrite lookup_insert_ne.
  - apply (insert_key_wf db key parent (Some d) (Some c) clean); try done.
    + naive_solver.
    + intros d' u k' [= <-] Hl Hk. pose proof (Hfree _ _ Hl Hk). congruence.
Qed.

Lemma retire_old_wf db old d : wf db → wf (retire_old db old d).
Proof.
  intros Hw. unfold retire_old. destruct old as [k|]; [|done]. destruct (rk_RecordID k); [|done].
  destruct (_ && _); [|done]. by apply delete_record_wf, mark_wf.
Qed.

Lemma CreateRecord_wf `{Url.NetIP} fuel db d key o a s ou p ds rd c b db' :
  CreateRecord fuel db d key o a s ou p ds rd c = Ok (b, db') → wf db → wf db'.
Proof.
  unfold CreateRecord. destruct (key_taken _ _); [by intros [= <- <-]|]. intros Hrun Hw.
  apply rbind_ok_inv in Hrun as (db1 & Hins & Hrun).
  apply rbind_ok_inv in Hrun as ([pid db2] & Hpar & Hrun).
  apply rbind_ok_inv in Hrun as ([applied db3] & Hup & Hrun).
  apply insert_record_wf in Hins as (Hw1 & Hrec & _); [|done].
  apply getOrCreateParentRecordKey_spec in Hpar as [Hadd Hw2].
  assert (wf db3) as Hw3.
  { apply upsert_key_wf in Hup; auto. destruct Hadd as (_ & -> & _). done. }
  destruct applied; simplify_eq; [by apply retire_old_wf | done].
Qed.

Lemma CreateAssociation_wf db d target o a s v u c b db' :
  CreateAssociation db d target o a s v u c = Ok (b, db') → wf db → wf db'.
Proof.
  unfold CreateAssociation, GetRecordKeyByURI.
  destruct (record_keys db !! target) as [k|] eqn:Ek; [|done]. cbn.
  destruct (_ || _) eqn:Ex; [by intros [= <- <-]|].
  apply orb_false_iff in Ex as [Hnone%bool_decide_eq_false_1 Hu].
  destruct (commit_logs db !! d) as [log|] eqn:El; [|done]. intros [= <- <-] [Hr Hk [A1 A2 A3] Hak Had He].
  assert (∀ d' a', associations db !! d' = Some a' → as_Unique a' ≠ u) as Hfree.
  { intros d' a' Hl Hq. apply not_true_iff_false in Hu. destruct Hu. apply existsb_exists.
    exists (d', a'). split; [by apply list_elem_of_In, elem_of_map_to_list | by apply String.eqb_eq]. }
  split; cbn; try done. split.
  - intros d' a'. rewrite lookup_insert_Some. intros [[<- _]|[_ Hl]]; [by eexists | eauto].
  - intros d' a'. rewrite lookup_insert_Some. intros [[<- <-]|[_ Hl]]; cbn; eauto.
  - intros d' d'' a' a''. rewrite !lookup_insert_Some.
    intros [[<- <-]|[_ Hl]] [[<- <-]|[_ Hl']]; cbn; intros Hq; [done| | |by eauto].
    + exfalso. by apply (Hfree _ _ Hl').
    + exfalso. by apply (Hfree _ _ Hl).
Qed.

(** ** Reachability *)

(** One successful call of the repository that leaves the ledger's documents
    alone: the tables that hang on it, and the collector's flags. *)
Inductive table_step `{Orm} `{StoreCodec} `{Url.NetIP} : DB → DB → Prop :=
| StepEntity db ccid alias dom d c b db' :
    CreateEntity db ccid alias dom d c = Ok (b, db') → table_step db db'
| StepRecord fuel db d key o a s ou p ds rd c b db' :
    CreateRecord fuel db d key o a s ou p ds rd c = Ok (b, db') → table_step db db'
| StepAssociation db d target o a s v u c b db' :
    CreateAssociation db d target o a s v u c = Ok (b, db') → table_step db db'
| StepAck db d f t s c v b db' : processAck db d f t s c v = Ok (b, db') → table_step db db'
| StepAcked db d f t s c v b db' : processAcked db d f t s c v = Ok (b, db') → table_step db db'
| StepMark db d : table_step db (MarkCommitLogGcCandidate db d)
| StepMarkOwner db owner : table_step db (MarkCommitLogsGcCandidateByOwner db owner)
| StepDeleteKey db uri : table_step db (DeleteRecordByKey db uri)
| StepDeleteRecord db d : table_step db (DeleteRecordByDocumentID db d)
| StepDeleteAssociation db d : table_step db (DeleteAssociation db d).

(** One successful call of the repository on the tables. *)
Inductive db_step `{Orm} `{StoreCodec} `{Url.NetIP} : DB → DB → Prop :=
| StepCommitLog db now id ip doc proof owner db' :
    CreateCommitLog db now id ip doc proof owner = Ok db' → db_step db db'
| StepTable db db' : table_step db db' → db_step db db'.

Section Reach.
Context `{Orm} `{StoreCodec} `{Url.NetIP}.

Lemma CreateCommitLog_grows db now id ip doc proof owner db' :
  CreateCommitLog db now id ip doc proof owner = Ok db' →
  ∃ l, db' = set_commit_logs db l ∧ logs_grow (commit_logs db) l ∧ is_Some (l !! id).
Proof.
  unfold CreateCommitLog. intros Hrun. apply rbind_ok_inv in Hrun as (pb & _ & Hrun).
  destruct (commit_logs db !! id) as [log|] eqn:E; simplify_eq.
  - exists (commit_logs db'). split; [by destruct db'|]. split; [by intros ? | by rewrite E].
  - eexists. split; [done|]. split; [apply grow_insert|]. by rewrite lookup_insert_eq.
Qed.

Lemma table_step_wf db db' : table_step db db' → wf db → wf db'.
Proof.
  destruct 1; eauto using CreateEntity_wf, CreateRecord_wf, CreateAssociation_wf, processAck_wf,
    processAcked_wf, mark_wf, DeleteRecordByKey_wf, delete_record_wf, DeleteAssociation_wf.
  apply wf_grow_logs. apply grow_fmap.
Qed.

Lemma db_step_wf db db' : db_step db db' → wf db → wf db'.
Proof.
  destruct 1 as [db now id ip doc proof owner db' Hr|db db' Hs]; [|by apply table_step_wf].
  apply CreateCommitLog_grows in Hr as (l & -> & Hg & _). by apply wf_grow_logs.
Qed.

(** C4: every state the repository can reach satisfies the schema: rows
    reference rows that exist (records and acks their commit log, keys their
    record, associations the key they target), no two keys hold one record or
    share an id, ids stay below the sequence, and an association's unique hash
    occurs once. *)
Theorem reachable_wf db : rtc db_step empty_db db → wf db.
Proof.
  intros Hr. remember empty_db as db0 eqn:E. assert (wf db0) as Hw by (subst; apply wf_empty).
  clear E. induction Hr as [|db1 db2 db3 Hs _ IH]; [done|]. apply IH. by eapply db_step_wf.
Qed.
End Reach.

#[local] Instance no_ip : Url.NetIP := λ _, false.
#[local] Instance plain_codec : StoreCodec :=
  {| marshal_proof p := Ok (pr_Type p);
     unmarshal_proof s := Ok (mkProof s None None None None None);
     unmarshal_policy s := Ok (mkPolicy [] None s) |}.

Definition logged_db : DB :=
  set_commit_logs empty_db {["d1" := mkCommitLog "ip" "doc" "none" "con1a" false 7]}.

Lemma logged_db_step : db_step (H := gorm) empty_db logged_db.
Proof. exact (StepCommitLog (H := gorm) empty_db 7 "d1" "ip" "doc" example_proof "con1a" logged_db eq_refl). Qed.

Lemma logged_db_wf : wf logged_db.
Proof. exact (db_step_wf _ _ logged_db_step wf_empty). Qed.

Lemma reachable_wf_witness : rtc (db_step (H := gorm)) empty_db logged_db ∧ wf logged_db.
Proof.
  assert (rtc (db_step (H := gorm)) empty_db logged_db) as Hr by apply rtc_once, logged_db_step.
  split; [exact Hr | exact (reachable_wf (H := gorm) logged_db Hr)].
Defined.
