(* ===== verification/StoreRecords.v ===== *)
(** * StoreRecords: what creating a record does

    Accept-if-newer on a key, what replaces what, the parent chain of a key and
    the subtree query. *)

From S2P Require Import Prelude Bytes Url KeyUri Cdid Ccuri Documents PolicyValues Store StoreFacts StoreInv.
From stdpp Require Import prelude strings gmap list sorting.
From Stdlib Require Import ZArith Lia Ascii.
Open Scope Z_scope.

(** ** Ancestors of a key *)

Section Chain.
Context `{Url.NetIP} (owner : string) (Howner : clean owner) (Hne : owner ≠ "").

Lemma key_path_eqb segs :
  Forall plain_segment segs →
  String.eqb (key_path segs) "" || String.eqb (key_path segs) "/" = bool_decide (segs = []).
Proof.
  intros Hs. destruct segs as [|s segs]; [done|]. unfold key_path. rewrite bool_decide_eq_false_2 by done.
  inversion Hs as [|?? (_ & Hs0 & _) _]; subst. destruct s as [|c s]; [done|]. by destruct segs.
Qed.

Lemma hierarchy_step fuel segs acc :
  Forall plain_segment segs →
  hierarchy (S fuel) (key_uri owner segs) acc =
    (if String.eqb (key_uri owner (removelast segs)) (key_uri owner segs)
     then Ok (key_uri owner segs :: acc)
     else hierarchy fuel (key_uri owner (removelast segs)) (key_uri owner segs :: acc)).
Proof. intros Hs. cbn [hierarchy]. unfold parent_uri. by rewrite JoinPath_parent. Qed.

Lemma str_app_inj (a b c : string) : a +:+ b = a +:+ c → b = c.
Proof. induction a as [|x a IH]; cbn; [done|]. intros [= Hq]. auto. Qed.

Lemma str_len_cons c (s : string) : Str.len (String c s) = S (Str.len s).
Proof. done. Qed.

Lemma key_uri_parent_ne segs s :
  Forall plain_segment (segs ++ [s]) → key_uri owner segs ≠ key_uri owner (segs ++ [s]).
Proof.
  intros Hs Heq. unfold key_uri, key_path in Heq. do 3 apply str_app_inj in Heq.
  apply (f_equal Str.len) in Heq. revert Heq. clear Hne Howner.
  assert (Str.len s ≠ 0%nat) as Hlen.
  { apply Forall_app in Hs as [_ Hs]. inversion Hs as [|?? (_ & Hn & _) _]; subst. by destruct s. }
  clear Hs. induction segs as [|x segs IH]; cbn [app].
  - change (Str.join [s] "/") with s. change (Str.len (Str.join [] "/")) with 0%nat. congruence.
  - rewrite (join_cons x (segs ++ [s])), str_len_app, str_len_cons by by destruct segs.
    destruct segs as [|y segs].
    + change (Str.join [x] "/") with x. lia.
    + rewrite (join_cons x (y :: segs)), str_len_app, str_len_cons by done. intros Hq. apply IH. lia.
Qed.

(** The URIs of a key and of its ancestors, the root first. *)
Definition prefixes (segs : list string) : list string :=
  (λ n, key_uri owner (take n segs)) <$> seq 0 (S (length segs)).

Lemma len_join segs : Forall plain_segment segs → (length segs <= Str.len (Str.join segs "/"))%nat.
Proof.
  induction segs as [|s segs IH]; intros Hs; [done|]. inversion Hs as [|?? (_ & Hn & _) Hs']; subst.
  assert (Str.len s ≠ 0%nat) by by destruct s. specialize (IH Hs'). destruct segs as [|s2 segs].
  - change (Str.join [s] "/") with s. cbn. lia.
  - rewrite join_cons, str_len_app, str_len_cons by done. cbn [length] in *. lia.
Qed.

Lemma key_fuel_enough segs : Forall plain_segment segs → (length segs < key_fuel (key_uri owner segs))%nat.
Proof.
  intros Hs%len_join. unfold key_fuel, key_uri, key_path. rewrite !str_len_app. lia.
Qed.

Lemma hierarchy_walk segs fuel acc :
  Forall plain_segment segs → (length segs < fuel)%nat →
  hierarchy fuel (key_uri owner segs) acc = Ok (prefixes segs ++ acc).
Proof.
  revert fuel acc. induction segs as [|s segs IH] using rev_ind; intros fuel acc Hs Hf.
  - destruct fuel as [|fuel]; [cbn in Hf; lia|]. rewrite hierarchy_step by done.
    cbn [removelast]. by rewrite String.eqb_refl.
  - rewrite length_app in Hf. destruct fuel as [|fuel]; [cbn in Hf; lia|].
    rewrite hierarchy_step by done. rewrite removelast_last.
    pose proof (key_uri_parent_ne _ _ Hs) as Hn. apply String.eqb_neq in Hn. rewrite Hn.
    rewrite IH; [|by apply Forall_app in Hs as [? _]|cbn in Hf; lia].
    f_equal. unfold prefixes. rewrite length_app. cbn [length]. rewrite Nat.add_1_r.
    rewrite (seq_S (S (length segs))), fmap_app. cbn [Nat.add].
    rewrite <- app_assoc. f_equal.
    + apply list_fmap_ext. intros i n Hn'. apply lookup_seq in Hn' as [-> Hi]. cbn.
      rewrite take_app_le by lia. done.
    + cbn. rewrite take_ge; [done|]. rewrite length_app. cbn. lia.
Qed.

(** the policies of a key are looked up at the owner's root and at every
    prefix of the key, root first and the key itself last; the loop ends. *)
Theorem hierarchy_prefixes segs :
  Forall plain_segment segs →
  hierarchy (key_fuel (key_uri owner segs)) (key_uri owner segs) [] = Ok (prefixes segs).
Proof. intros Hs. by rewrite hierarchy_walk, app_nil_r by auto using key_fuel_enough. Qed.

(** ** The parent chain *)

(** The id of the key one level up; a top-level key has none. *)
Definition parent_id (db : DB) (segs : list string) : option nat :=
  match removelast segs with
  | [] => None
  | up => rk_ID <$> record_keys db !! key_uri owner up
  end.

(** The parent exists, unless it is the root. *)
Definition has_parent (db : DB) (segs : list string) : Prop :=
  removelast segs = [] ∨ is_Some (record_keys db !! key_uri owner (removelast segs)).

(** Every placeholder that was added hangs below its parent. *)
Definition linked_since (db db' : DB) : Prop :=
  ∀ u k, record_keys db' !! u = Some k → record_keys db !! u = None →
    ∃ up, u = key_uri owner up ∧ rk_ParentID k = parent_id db' up ∧ has_parent db' up.

Lemma parent_id_mono db db' segs :
  record_keys db ⊆ record_keys db' → has_parent db segs → parent_id db' segs = parent_id db segs.
Proof.
  intros Hsub Hp. unfold parent_id. destruct (removelast segs) as [|x l] eqn:E; [done|].
  destruct Hp as [Hp|[k Hk]]; [congruence|]. rewrite E in Hk. rewrite Hk.
  by rewrite (lookup_weaken _ _ _ _ Hk Hsub).
Qed.

Lemma has_parent_mono db db' segs :
  record_keys db ⊆ record_keys db' → has_parent db segs → has_parent db' segs.
Proof.
  intros Hsub [?|[k Hk]]; [by left|]. right. exists k. by eapply lookup_weaken.
Qed.

Lemma key_uri_inj_parent segs : Forall plain_segment segs → segs ≠ [] →
  key_uri owner (removelast segs) ≠ key_uri owner segs.
Proof.
  intros Hs Hn. destruct segs as [|s segs _] using rev_ind; [done|].
  rewrite removelast_last. by apply key_uri_parent_ne.
Qed.

Lemma getOrCreate_step fuel db segs :
  Forall plain_segment segs →
  getOrCreateParentRecordKey (S fuel) db (key_uri owner segs) =
    (if bool_decide (removelast segs = []) then Ok (None, db)
     else match record_keys db !! key_uri owner (removelast segs) with
          | Some rk => Ok (Some (rk_ID rk), db)
          | None =>
              '(pid, db) ← getOrCreateParentRecordKey fuel db (key_uri owner (removelast segs));
              match record_keys db !! key_uri owner (removelast segs) with
              | Some rk => Ok (Some (rk_ID rk), db)
              | None => let '(id, db) := insert_key db (key_uri owner (removelast segs)) pid None None false in
                        Ok (Some id, db)
              end
          end).
Proof.
  intros Hs. pose proof (Forall_removelast _ _ Hs) as Hs'.
  cbn [getOrCreateParentRecordKey]. unfold parent_uri. rewrite JoinPath_parent by done.
  cbn [mbind result_bind rbind]. rewrite Parse_key by done. cbn [mbind result_bind rbind].
  unfold parsed_clean. cbn [Path]. by rewrite key_path_eqb.
Qed.

(** A missing parent is inserted below its own parent. *)
Lemma insert_parent_chain db db1 segs :
  record_keys db1 !! key_uri owner segs = None →
  has_parent db1 segs → linked_since db db1 → record_keys db ⊆ record_keys db1 →
  ∃ k db2, insert_key db1 (key_uri owner segs) (parent_id db1 segs) None None false = (rk_ID k, db2) ∧
    record_keys db2 = <[key_uri owner segs := k]> (record_keys db1) ∧
    linked_since db db2 ∧ record_keys db ⊆ record_keys db2.
Proof.
  intros E1 Hp Hl Hsub. eexists (mkRecordKey _ (parent_id db1 segs) None None false), _.
  split; [reflexivity|]. split; [reflexivity|].
  set (db2 := set_keys _ _ _).
  assert (record_keys db1 ⊆ record_keys db2) as Hsub2 by (cbn; by apply insert_subseteq).
  split; [|by etrans].
  intros u k Hk Hk'. destruct (decide (u = key_uri owner segs)) as [->|Hu].
  - cbn in Hk. rewrite lookup_insert_eq in Hk. injection Hk as <-. exists segs. cbn [rk_ParentID].
    split; [done|]. rewrite (parent_id_mono db1 db2) by done. split; [done | by eapply has_parent_mono].
  - cbn in Hk. rewrite lookup_insert_ne in Hk by done.
    destruct (Hl u k Hk Hk') as (up & -> & Hpar & Hh). exists up. split; [done|].
    rewrite Hpar. split; [by rewrite (parent_id_mono db1 db2) | by eapply has_parent_mono].
Qed.

(** The recursion ends, the parent exists afterwards and its id is returned. *)
Lemma getOrCreate_chain fuel db segs :
  Forall plain_segment segs → (length segs < fuel)%nat →
  ∃ db', getOrCreateParentRecordKey fuel db (key_uri owner segs) = Ok (parent_id db' segs, db') ∧
    has_parent db' segs ∧ linked_since db db' ∧ record_keys db ⊆ record_keys db' ∧
    (∀ u k, record_keys db' !! u = Some k → record_keys db !! u = Some k ∨
       ∃ up, (length up < length segs)%nat ∧ u = key_uri owner up).
Proof.
  revert segs db. induction fuel as [|fuel IH]; intros segs db Hs Hf; [lia|].
  rewrite getOrCreate_step by done.
  assert (linked_since db db) as Hsame by (intros u k Hk Hk'; congruence).
  destruct segs as [|s segs _] using rev_ind.
  { exists db. split_and!; try done; [by left | auto]. }
  rewrite removelast_last. rewrite length_app in Hf. cbn in Hf.
  pose proof (proj1 (proj1 (Forall_app _ _ _) Hs)) as Hs'.
  assert (∀ db', parent_id db' (segs ++ [s]) =
    match segs with [] => None | _ => rk_ID <$> record_keys db' !! key_uri owner segs end) as Hpid
    by (intros; unfold parent_id; rewrite removelast_last; by destruct segs).
  assert (∀ db', is_Some (record_keys db' !! key_uri owner segs) → has_parent db' (segs ++ [s])) as Hhas
    by (intros; right; by rewrite removelast_last).
  case_bool_decide as Hsegs.
  { subst. exists db. split_and!; try done; [by left | auto]. }
  destruct segs as [|x l]; [done|]. set (segs := x :: l) in *.
  destruct (record_keys db !! key_uri owner segs) as [rk|] eqn:E.
  { exists db. rewrite Hpid, E. split_and!; eauto. }
  destruct (IH segs db Hs' ltac:(lia)) as (db1 & -> & Hp & Hl & Hsub & Hnew).
  cbn [mbind result_bind rbind].
  assert (∀ u k, record_keys db1 !! u = Some k → record_keys db !! u = Some k ∨
       ∃ up, (length up < length (segs ++ [s]))%nat ∧ u = key_uri owner up) as Hnew'.
  { intros u k Hk. destruct (Hnew u k Hk) as [|(up & Hlen & ->)]; [by left|].
    right. exists up. rewrite length_app. split; [lia | done]. }
  destruct (record_keys db1 !! key_uri owner segs) as [rk|] eqn:E1.
  { exists db1. rewrite Hpid, E1. split_and!; eauto. }
  destruct (insert_parent_chain db db1 segs E1 Hp Hl Hsub) as (k2 & db2 & -> & E2 & Hl2 & Hsub2).
  exists db2. split_and!; [|apply Hhas|done|done|].
  - by rewrite Hpid, E2, lookup_insert_eq.
  - by rewrite E2, lookup_insert_eq.
  - intros u k. rewrite E2. intros [[<- _]|[_ Hk]]%lookup_insert_Some; [|by apply (Hnew' u k)].
    right. exists segs. rewrite length_app. cbn. split; [lia | done].
Qed.

(** ** Creating a record *)

(** The document a key held is dropped when it asked to be cleaned up. *)
Definition replaced (old : option RecordKey) (d d' : string) : bool :=
  match old with
  | Some k => bool_decide (rk_RecordID k = Some d') && rk_CleanOnUpdate k && negb (String.eqb d' d)
  | None => false
  end.

(** The key holds a document at least as new. *)
Definition holds_newer (old : option RecordKey) (c : Z) : Prop :=
  ∃ k d0 c0, old = Some k ∧ rk_RecordID k = Some d0 ∧ rk_RecordCreatedAt k = Some c0 ∧ c <= c0.

Lemma key_taken_spec old c : key_taken old c = true ↔ holds_newer old c.
Proof.
  unfold key_taken, holds_newer. destruct old as [[i p [d|] [c0|] cl]|]; cbn;
    [rewrite negb_true_iff, Z.ltb_ge|..]; naive_solver.
Qed.

(** Another key holds the document. *)
Definition held_elsewhere (db : DB) (key d : string) : Prop :=
  ∃ u k, record_keys db !! u = Some k ∧ rk_RecordID k = Some d ∧ u ≠ key.

Lemma holder_none keys key d :
  (¬ ∃ u k, keys !! u = Some k ∧ rk_RecordID k = Some d ∧ u ≠ key) →
  existsb (λ '(u, k), bool_decide (rk_RecordID k = Some d) && negb (String.eqb u key)) (map_to_list keys) = false.
Proof.
  intros Hn. apply not_true_iff_false. rewrite existsb_exists. intros ([u k] & Hin & Hb).
  apply list_elem_of_In, elem_of_map_to_list in Hin.
  apply andb_true_iff in Hb as [Hd%bool_decide_eq_true_1 Hu%negb_true_iff%String.eqb_neq].
  apply Hn. by exists u, k.
Qed.

(** Retiring the old document of [key] touches no key when none holds it. *)
Lemma retire_old_effect db old d :
  (∀ k d0 u k', old = Some k → rk_RecordID k = Some d0 → d0 ≠ d →
     record_keys db !! u = Some k' → rk_RecordID k' ≠ Some d0) →
  record_keys (retire_old db old d) = record_keys db ∧
  (∀ d', records (retire_old db old d) !! d' = if replaced old d d' then None else records db !! d') ∧
  (∀ d', commit_logs (retire_old db old d) !! d' =
     (if replaced old d d' then flag_gc <$> commit_logs db !! d' else commit_logs db !! d')).
Proof.
  intros Hfree. unfold retire_old, replaced. destruct old as [k|]; [|done].
  destruct (rk_RecordID k) as [d0|] eqn:Ed; [|done].
  destruct (rk_CleanOnUpdate k) eqn:Ec; cbn [andb].
  2: { split_and!; [done|..]; intros d'; by rewrite andb_false_r. }
  destruct (String.eqb d0 d) eqn:Eq; cbn [negb].
  { apply String.eqb_eq in Eq as ->. split_and!; [done|..]; intros d'; case_bool_decide as Hd; try done;
      injection Hd as ->; by rewrite String.eqb_refl. }
  apply String.eqb_neq in Eq. unfold delete_record. cbn [records MarkCommitLogGcCandidate set_commit_logs].
  assert (∀ d', bool_decide (Some d0 = Some d') && true && negb (String.eqb d' d) = bool_decide (d' = d0)) as Hb.
  { intros d'. repeat case_bool_decide; simplify_eq; try done.
    cbn. apply negb_true_iff. by apply String.eqb_neq. }
  setoid_rewrite Hb.
  assert (∀ d', alter flag_gc d0 (commit_logs db) !! d' =
    (if bool_decide (d' = d0) then flag_gc <$> commit_logs db !! d' else commit_logs db !! d')) as Hlog.
  { intros d'. case_bool_decide as Hd; [subst; by rewrite lookup_alter_eq | by rewrite lookup_alter_ne]. }
  destruct (records db !! d0) as [r|] eqn:Er; cbn.
  - split_and!; [|intros d'|done].
    + apply map_filter_id. intros u k' Hu. cbn. by eapply Hfree.
    + case_bool_decide as Hd; [subst; by rewrite lookup_delete_eq | by rewrite lookup_delete_ne].
  - split_and!; [done| |done]. intros d'. case_bool_decide as Hd; [by subst | done].
Qed.

Lemma upsert_key_takes db key d parent c clean :
  key_taken (record_keys db !! key) c = false → ¬ held_elsewhere db key d →
  ∃ db' k, upsert_key db key d parent c clean = Ok (true, db') ∧
    record_keys db' = <[key := k]> (record_keys db) ∧ records db' = records db ∧
    commit_logs db' = commit_logs db ∧
    rk_RecordID k = Some d ∧ rk_RecordCreatedAt k = Some c ∧ rk_ParentID k = parent ∧ rk_CleanOnUpdate k = clean.
Proof.
  intros Hk Hh. unfold upsert_key. rewrite Hk, holder_none by done.
  destruct (record_keys db !! key) as [k|]; do 2 eexists; split_and!; done.
Qed.

Lemma insert_record_others db d row db1 : insert_record db d row = Ok db1 →
  commit_logs db1 = commit_logs db ∧ ∀ d', d' ≠ d → records db1 !! d' = records db !! d'.
Proof.
  unfold insert_record. destruct (records db !! d); [by intros [= <-]|].
  destruct (commit_logs db !! d); [|done]. intros [= <-]. split; [done|]. intros d' Hd.
  cbn. by rewrite lookup_insert_ne.
Qed.

(** C8: a record document takes its key exactly when it is strictly newer than
    the document the key holds; otherwise nothing changes.  When it takes it,
    the call succeeds: the key points to the document and hangs below its
    parent, which exists (placeholders are made as needed); the replaced
    document's record goes, and its commit log is flagged, exactly when that
    document did not ask to be retained; no other record or log changes. *)
Theorem CreateRecord_accepts db segs d author schema onUpdate policies dists redirect c :
  Forall plain_segment segs → segs ≠ [] →
  wf db → logged db d → ¬ held_elsewhere db (key_uri owner segs) d →
  let key := key_uri owner segs in
  let old := record_keys db !! key in
  let call := CreateRecord (key_fuel key) db d key owner author schema onUpdate policies dists redirect c in
  (holds_newer old c → call = Ok (false, db)) ∧
  (¬ holds_newer old c → ∃ db' k,
    call = Ok (true, db') ∧ record_keys db' !! key = Some k ∧
    rk_RecordID k = Some d ∧ rk_RecordCreatedAt k = Some c ∧ rk_CleanOnUpdate k = cleanOnUpdate onUpdate ∧
    rk_ParentID k = parent_id db' segs ∧ has_parent db' segs ∧ is_Some (records db' !! d) ∧
    (∀ d', d' ≠ d → records db' !! d' = if replaced old d d' then None else records db !! d') ∧
    (∀ d', commit_logs db' !! d' =
       (if replaced old d d' then flag_gc <$> commit_logs db !! d' else commit_logs db !! d'))).
Proof.
  intros Hs Hn Hw Hl Hh key old call. subst call. pose proof (key_fuel_enough segs Hs) as Hf. unfold CreateRecord. fold old.
  rewrite <- key_taken_spec. destruct (key_taken old c) eqn:Et; (split; [done|]); [done|]. intros _.
  destruct (insert_record db d _) as [db1| |] eqn:Ei.
  2,3: unfold insert_record in Ei; destruct Hl as [log Hl]; rewrite Hl in Ei; by destruct (records db !! d).
  pose proof (insert_record_wf _ _ _ _ Ei Hw) as (Hw1 & Hrec1 & Hk1 & _).
  destruct (insert_record_others _ _ _ _ Ei) as [Hlog1 Hother1].
  cbn [mbind result_bind rbind].
  destruct (getOrCreate_chain _ db1 segs Hs Hf) as (db2 & Hpar & Hp & _ & Hsub & Hnew). fold key in Hpar.
  rewrite Hpar. cbn [mbind result_bind rbind].
  pose proof (getOrCreateParentRecordKey_spec _ _ _ _ _ Hpar) as [(Hlog2 & Hrec2 & _ & _ & _ & _ & _ & _ & Hadd) Hw2].
  specialize (Hw2 Hw1). rewrite Hk1 in Hadd, Hsub.
  assert (∀ u k, record_keys db2 !! u = Some k → is_Some (rk_RecordID k) → record_keys db !! u = Some k) as Hback.
  { intros u k Hu [x Hx]. destruct (Hadd u k Hu) as [|Hnone]; [done | congruence]. }
  assert (key_taken (record_keys db2 !! key) c = false) as Et2.
  { unfold key_taken in *. destruct (record_keys db2 !! key) as [k|] eqn:Ek; [|done].
    destruct (rk_RecordID k) as [x|] eqn:Ex; [|done].
    subst old. rewrite (Hback _ _ Ek) in Et by by eexists. by rewrite Ex in Et. }
  assert (¬ held_elsewhere db2 key d) as Hh2.
  { intros (u & k & Hu & Hd & Hne'). apply Hh. exists u, k. split; [|done]. apply Hback; [done | by eexists]. }
  destruct (upsert_key_takes db2 key d (parent_id db2 segs) c (cleanOnUpdate onUpdate) Et2 Hh2)
    as (db3 & k & -> & Hk3 & Hr3 & Hl3 & Hkd & Hkc & Hkp & Hkcl).
  cbn [mbind result_bind rbind].
  pose proof (key_uri_inj_parent segs Hs Hn) as Hpne. fold key in Hpne.
  destruct (retire_old_effect db3 old d) as (HkR & HrR & HlR).
  { intros k0 d0 u k' Hold Hd0 Hdd Hu Hk'. rewrite Hk3 in Hu. apply lookup_insert_Some in Hu as [[_ <-]|[Hu Hu2]].
    - congruence.
    - apply Hu. eapply (key_record_unique _ _ _ (wf_keys _ Hw) key u k0 k' d0); try done.
      apply Hback; [done | by eexists]. }
  assert (∀ up, up ≠ key → record_keys (retire_old db3 old d) !! up = record_keys db2 !! up) as Hup.
  { intros up Hu. rewrite HkR, Hk3. by rewrite lookup_insert_ne. }
  exists (retire_old db3 old d), k. split_and!; try done.
  - by rewrite HkR, Hk3, lookup_insert_eq.
  - rewrite Hkp. unfold parent_id. destruct (removelast segs) as [|x l] eqn:E; [done|]. by rewrite Hup.
  - destruct Hp as [?|Hp]; [by left|]. right. by rewrite Hup.
  - rewrite HrR, Hr3, Hrec2. unfold replaced. destruct old as [k0|]; [|done].
    rewrite String.eqb_refl, andb_false_r. done.
  - intros d' Hd'. by rewrite HrR, Hr3, Hrec2, Hother1.
  - intros d'. by rewrite HlR, Hl3, Hlog2, Hlog1.
Qed.
End Chain.

(** ** Subtrees *)

Definition like_meta (c : ascii) : bool := Url.one_of "\%_" c.

Lemma like_literal c pat s :
  like_meta c = false →
  like (String c pat) s = match s with EmptyString => false | String d s => Ascii.eqb c d && like pat s end.
Proof. destruct c as [[] [] [] [] [] [] [] []]; try done; intros H; vm_compute in H; discriminate H. Qed.

Lemma like_escaped_char c pat s :
  like (String "\" (String c pat)) s =
    match s with EmptyString => false | String d s => Ascii.eqb c d && like pat s end.
Proof. reflexivity. Qed.

Lemma like_escape_app base pat s :
  like (like_escape base +:+ pat) s = true ↔ ∃ t, s = base +:+ t ∧ like pat t = true.
Proof.
  revert s. induction base as [|c base IH]; intros s.
  - cbn. split; [by exists s | by intros (t & -> & Ht)].
  - assert (like (like_escape (String c base) +:+ pat) s =
      match s with EmptyString => false | String d s => Ascii.eqb c d && like (like_escape base +:+ pat) s end) as ->.
    { cbn [like_escape]. fold (like_meta c). destruct (like_meta c) eqn:E; cbn [String.append].
      - apply like_escaped_char.
      - by apply like_literal. }
    destruct s as [|d s]; [split; [done|]; by intros (t & [=] & _)|].
    rewrite andb_true_iff, IH, Ascii.eqb_eq. cbn [String.append]. naive_solver.
Qed.

Lemma like_any s : like "%" s = true.
Proof. induction s as [|c s IH]; [done|]. cbn in *. exact IH. Qed.

Lemma in_subtree_spec base includeSelf uri :
  in_subtree base includeSelf uri = true ↔
  (includeSelf = true ∧ uri = base) ∨ ∃ rest, uri = base +:+ "/" +:+ rest.
Proof.
  unfold in_subtree. rewrite orb_true_iff, andb_true_iff, String.eqb_eq, like_escape_app.
  apply or_iff_compat_l. split.
  - intros (t & -> & Ht). rewrite like_literal in Ht by done. destruct t as [|d t]; [done|].
    apply andb_true_iff in Ht as [->%Ascii.eqb_eq _]. by exists t.
  - intros (rest & ->). exists (String "/" rest). split; [done|]. rewrite like_literal by done.
    cbn [Ascii.eqb]. rewrite like_any. by vm_compute.
Qed.

#[local] Instance uri_le_total : Total uri_le.
Proof. intros p q. unfold uri_le. apply String.leb_total. Qed.

(** a subtree query selects by path, not by text: exactly the keys with a
    live record that are the base itself, when asked, or lie below [base/], in
    URI order; metacharacters of the base match only themselves, and a sibling
    whose name extends the base's is left alone. *)
Theorem subtree_query db base includeSelf :
  Sorted uri_le (subtree_keys db base includeSelf) ∧
  ∀ uri k, (uri, k) ∈ subtree_keys db base includeSelf ↔
    record_keys db !! uri = Some k ∧ is_Some (live_record db k) ∧
    ((includeSelf = true ∧ uri = base) ∨ ∃ rest, uri = base +:+ "/" +:+ rest).
Proof.
  split; [apply (Sorted_merge_sort uri_le)|]. intros uri k. unfold subtree_keys.
  rewrite merge_sort_Permutation, list_elem_of_In, List.filter_In, <- list_elem_of_In, elem_of_map_to_list.
  cbn [fst snd]. by rewrite andb_true_iff, bool_decide_eq_true, in_subtree_spec.
Qed.

(** ** Witnesses *)

#[local] Instance no_ip : Url.NetIP := λ _, false.

Lemma plain_example : Forall plain_segment ["posts"; "x"].
Proof. repeat constructor; vm_compute; congruence. Qed.

Lemma hierarchy_prefixes_witness :
  hierarchy (key_fuel "cckv://con1a/posts/x") "cckv://con1a/posts/x" [] = Ok ["cckv://con1a/"; "cckv://con1a/posts"; "cckv://con1a/posts/x"].
Proof.
  apply (hierarchy_prefixes "con1a" ltac:(reflexivity) ltac:(discriminate) ["posts"; "x"] plain_example).
Defined.

Lemma CreateRecord_accepts_witness :
  ∃ db' k,
    CreateRecord (key_fuel "cckv://con1a/posts/x") logged_db "d1" "cckv://con1a/posts/x" "con1a" "con1a" "note" None None [] None 5 = Ok (true, db') ∧
    record_keys db' !! "cckv://con1a/posts/x" = Some k ∧
    rk_ParentID k = rk_ID <$> record_keys db' !! "cckv://con1a/posts" ∧ rk_RecordID k = Some "d1".
Proof.
  pose proof (CreateRecord_accepts "con1a" ltac:(reflexivity) ltac:(discriminate) logged_db ["posts"; "x"]
    "d1" "con1a" "note" None None [] None 5 plain_example ltac:(discriminate)
    logged_db_wf ltac:(vm_compute; by eexists)) as Hc.
  destruct Hc as [_ Hc].
  - intros (u & k & Hu & _). discriminate Hu.
  - destruct Hc as (db' & k & Hrun & Hk & Hd & _ & _ & Hp & _); [by intros (k & ? & ? & Hk & _)|].
    exists db', k. split_and!; [exact Hrun | exact Hk | exact Hp | exact Hd].
Defined.
