(* ===== verification/Queries.v ===== *)
(** * Queries: listing records, acks, associations and commit logs

    The list queries of [src/internal/infra/repository/postgres/record.go] and
    the pagination of [src/internal/usecase/record/query.go].  A query filters
    the joined rows of a table, sorts them by a time or by the key, with the
    identifier breaking ties, and takes a limit.  Text order is byte order. *)

From S2P Require Import Prelude Bytes Url Cdid Ccuri Documents PolicyValues Store.
From stdpp Require Import prelude strings gmap list sorting.
From Stdlib Require Import ZArith Lia Ascii.
Open Scope Z_scope.

(** [Time.Format(time.RFC3339Nano)]. *)
Class TimeFormat := format_rfc3339nano : Z → string.

(** ** Filter, sort, limit *)

Section Listing.
Context {A : Type} (asc : A → A → bool).

(** [ORDER BY ... ASC] or, when the order is ["desc"], [DESC]. *)
Definition ordering (order : string) (x y : A) : Prop :=
  (if String.eqb order "desc" then asc y x else asc x y) = true.

#[local] Instance ordering_dec order : RelDecision (ordering order).
Proof. intros x y. unfold ordering. apply _. Defined.

Definition limited (limit : Z) (l : list A) : list A :=
  if 0 <? limit then take (Z.to_nat limit) l else l.

Definition list_query (window : A → bool) (limit : Z) (order : string) (rows : list A) : list A :=
  limited limit (merge_sort (ordering order) (List.filter window rows)).
End Listing.

(** A filter column: an empty parameter does not filter. *)
Definition matches (param column : string) : bool := String.eqb param "" || String.eqb column param.

Definition at_least (since : option Z) (t : Z) : bool := match since with Some s => s <=? t | None => true end.
Definition at_most (until : option Z) (t : Z) : bool := match until with Some u => t <=? u | None => true end.
Definition in_times (since until : option Z) (t : Z) : bool := at_least since t && at_most until t.

(** (time, id) order. *)
Definition dated_asc {A} (time : A → Z) (ident : A → string) (x y : A) : bool :=
  (time x <? time y) || ((time x =? time y) && String.leb (ident x) (ident y)).

(** ** Rows ([usecase.go]) *)

Record QueryRow : Type := mkQueryRow {
  Row : SignedDocument;
  qr_CreatedAt : Z;
}.

Section Queries.
Context `{StoreCodec}.

(** The preloaded commit log; a missing row is the zero value. *)
Definition log_of (db : DB) (d : string) : CommitLog :=
  default (mkCommitLog "" "" "" "" false 0) (commit_logs db !! d).

(** A listed document with its ccfs URI under [owner]. *)
Definition listed (db : DB) (owner d : string) (t : Z) : result QueryRow :=
  proof ← unmarshal_proof (cl_Proof (log_of db d));
  Ok (mkQueryRow (mkSignedDocument None (Some (ComposeCCFSURI owner CCFSTypeConcrnt d))
        (cl_Document (log_of db d)) proof ∅ None) t).

(** *** Record keys *)

(** A key with the record it is joined with, if any. *)
Record KeyRow : Type := mkKeyRow {
  kr_uri : string;
  kr_key : RecordKey;
  kr_record : option RecordRow;
}.

Definition key_rows (db : DB) : list KeyRow :=
  (λ p, mkKeyRow (fst p) (snd p) (live_record db (snd p))) <$> map_to_list (record_keys db).

Definition kr_document (r : KeyRow) : string := default "" (rk_RecordID (kr_key r)).
Definition kr_time (r : KeyRow) : Z := match kr_record r with Some x => r_CreatedAt x | None => 0 end.

(** The inner join and its column filters. *)
Definition record_matches (schema author : string) (r : KeyRow) : bool :=
  match kr_record r with
  | Some x => matches schema (r_Schema x) && matches author (r_Author x)
  | None => false
  end.

(** The left join: a placeholder fails any filter on a record column. *)
Definition record_matches_left (schema author : string) (r : KeyRow) : bool :=
  match kr_record r with
  | Some x => matches schema (r_Schema x) && matches author (r_Author x)
  | None => String.eqb schema "" && String.eqb author ""
  end.

Definition record_asc : KeyRow → KeyRow → bool := dated_asc kr_time kr_document.
Definition uri_asc (x y : KeyRow) : bool := String.leb (kr_uri x) (kr_uri y).

Definition keyToQueryRow (db : DB) (r : KeyRow) : result QueryRow :=
  match rk_RecordID (kr_key r) with
  | None => Ok (mkQueryRow (mkSignedDocument (Some (kr_uri r)) None "" zero_proof ∅ None) zero_time)
  | Some d =>
      let log := match kr_record r with Some _ => log_of db d | None => mkCommitLog "" "" "" "" false 0 end in
      let owner := match kr_record r with Some x => r_Owner x | None => "" end in
      let d' := match kr_record r with Some _ => d | None => "" end in
      proof ← unmarshal_proof (cl_Proof log);
      Ok (mkQueryRow (mkSignedDocument (Some (kr_uri r)) (Some (ComposeCCFSURI owner CCFSTypeConcrnt d'))
            (cl_Document log) proof ∅ None)
          (match kr_record r with Some x => r_CreatedAt x | None => zero_time end))
  end.

Definition recordKeysToQueryRows (db : DB) (rks : list KeyRow) : result (list QueryRow) :=
  traverse (keyToQueryRow db) rks.

Definition QueryByPrefix (db : DB) (prefix schema author : string) (since until : option Z) (limit : Z)
    (order : string) : result (list QueryRow) :=
  recordKeysToQueryRows db
    (list_query record_asc
       (λ r, like (prefix +:+ "%") (kr_uri r) && record_matches schema author r && in_times since until (kr_time r))
       limit order (key_rows db)).

(** The direct children of a parent: of the owner's root, the top-level keys. *)
Definition child_of (db : DB) (parent : string) (parsed : CCURI) (r : KeyRow) : bool :=
  if String.eqb (Ccuri.Key parsed) "" then
    bool_decide (rk_ParentID (kr_key r) = None) && like (like_escape ("cckv://" +:+ Owner parsed) +:+ "/%") (kr_uri r)
  else
    match record_keys db !! parent with
    | Some rk => bool_decide (rk_ParentID (kr_key r) = Some (rk_ID rk))
    | None => false
    end.

Context `{Url.NetIP}.

Definition QueryByParent (db : DB) (parent schema author : string) (since until : option Z) (limit : Z)
    (order : string) : result (list QueryRow) :=
  parsed ← ParseCCURI parent;
  recordKeysToQueryRows db
    (list_query record_asc
       (λ r, child_of db parent parsed r && record_matches schema author r && in_times since until (kr_time r))
       limit order (key_rows db)).

Definition QueryByParentOrderByKey (db : DB) (parent schema author : string) (since until : option string)
    (limit : Z) (order : string) : result (list QueryRow) :=
  parsed ← ParseCCURI parent;
  recordKeysToQueryRows db
    (list_query uri_asc
       (λ r, child_of db parent parsed r && record_matches_left schema author r &&
             match since with Some s => String.leb s (kr_uri r) | None => true end &&
             match until with Some u => String.leb (kr_uri r) u | None => true end)
       limit order (key_rows db)).

(** *** Acks *)

Definition ack_from (p : triple * AckRow) : string := fst (fst (fst p)).
Definition ack_to (p : triple * AckRow) : string := snd (fst (fst p)).
Definition ack_schema (p : triple * AckRow) : string := snd (fst p).

Definition ack_asc : triple * AckRow → triple * AckRow → bool :=
  dated_asc (λ p, ak_CreatedAt (snd p)) (λ p, ak_DocumentID (snd p)).

Definition ack_selected (side : triple * AckRow → string) (who schema : string) (since until : option Z)
    (p : triple * AckRow) : bool :=
  String.eqb (side p) who && ak_Valid (snd p) && matches schema (ack_schema p) &&
  in_times since until (ak_CreatedAt (snd p)).

Definition getAckRecords (db : DB) (from schema : string) (since until : option Z) (limit : Z) (order : string)
    : result (list QueryRow) :=
  traverse (λ p, listed db (ack_from p) (ak_DocumentID (snd p)) (ak_CreatedAt (snd p)))
    (list_query ack_asc (ack_selected ack_from from schema since until) limit order (map_to_list (acks db))).

Definition getAckedRecords (db : DB) (to_ schema : string) (since until : option Z) (limit : Z) (order : string)
    : result (list QueryRow) :=
  traverse (λ p, listed db (ack_to p) (ak_DocumentID (snd p)) (ak_CreatedAt (snd p)))
    (list_query ack_asc (ack_selected ack_to to_ schema since until) limit order (map_to_list (ackeds db))).

Definition one_side_required {A} : result A := Err (GoError "either 'from' or 'to' must be specified").

Definition repo_GetAcknowledgeRecords (db : DB) (from to_ schema : string) (since until : option Z) (limit : Z)
    (order : string) : result (list QueryRow) :=
  if negb (String.eqb from "") then getAckRecords db from schema since until limit order
  else if negb (String.eqb to_ "") then getAckedRecords db to_ schema since until limit order
  else one_side_required.

(** [SELECT schema, COUNT( * ) ... GROUP BY schema]. *)
Definition count_by (l : list string) : gmap string Z :=
  foldr (λ s m, <[s := default 0 (m !! s) + 1]> m) ∅ l.

Definition getAckRecordCounts (db : DB) (from schema : string) : gmap string Z :=
  count_by (ack_schema <$> List.filter (ack_selected ack_from from schema None None) (map_to_list (acks db))).

Definition getAckedRecordCounts (db : DB) (to_ schema : string) : gmap string Z :=
  count_by (ack_schema <$> List.filter (ack_selected ack_to to_ schema None None) (map_to_list (ackeds db))).

Definition GetAcknowledgeRecordCounts (db : DB) (from to_ schema : string) : result (gmap string Z) :=
  if negb (String.eqb from "") then Ok (getAckRecordCounts db from schema)
  else if negb (String.eqb to_ "") then Ok (getAckedRecordCounts db to_ schema)
  else one_side_required.

(** *** Associations *)

Definition targets (db : DB) (targetURI : string) (a : AssociationRow) : bool :=
  match record_keys db !! targetURI with Some rk => (rk_ID rk =? as_TargetID a)%nat | None => false end.

(** [variant = ?] is false on a NULL column. *)
Definition variant_matches (param : string) (column : option string) : bool :=
  String.eqb param "" || match column with Some v => String.eqb v param | None => false end.

Definition assoc_asc : string * AssociationRow → string * AssociationRow → bool :=
  dated_asc (λ p, as_CreatedAt (snd p)) fst.

Definition repo_GetAssociatedRecords (db : DB) (targetURI schema variant author : string)
    (since until : option Z) (limit : Z) (order : string) : result (list QueryRow) :=
  traverse (λ p, listed db (as_Owner (snd p)) (fst p) (as_CreatedAt (snd p)))
    (list_query assoc_asc
       (λ p, targets db targetURI (snd p) && matches schema (as_Schema (snd p)) &&
             variant_matches variant (as_Variant (snd p)) && matches author (as_Author (snd p)) &&
             in_times since until (as_CreatedAt (snd p)))
       limit order (map_to_list (associations db))).

Definition GetAssociatedRecordCountsBySchema (db : DB) (targetURI : string) : gmap string Z :=
  count_by ((λ p, as_Schema (snd p)) <$>
    List.filter (λ p, targets db targetURI (snd p)) (map_to_list (associations db))).

(** *** Commit logs *)

Definition log_asc : string * CommitLog → string * CommitLog → bool := dated_asc (λ p, cl_CDate (snd p)) fst.

(** [ORDER BY c_date ASC]: ties in any order. *)
Definition GetAllCommitLogs (db : DB) (owner : string) : result (list SignedDocument) :=
  traverse (λ p, proof ← unmarshal_proof (cl_Proof (snd p)); Ok (signed (cl_Document (snd p)) proof))
    (list_query (λ x y, cl_CDate (snd x) <=? cl_CDate (snd y)) (λ p, String.eqb (cl_Owner (snd p)) owner)
       0 "" (map_to_list (commit_logs db))).

(** An ownerless commit has no ccfs URI. *)
Definition log_row (p : string * CommitLog) : result QueryRow :=
  proof ← unmarshal_proof (cl_Proof (snd p));
  let ccfs := if String.eqb (cl_Owner (snd p)) "" then None
              else Some (ComposeCCFSURI (cl_Owner (snd p)) CCFSTypeConcrnt (fst p)) in
  Ok (mkQueryRow (mkSignedDocument None ccfs (cl_Document (snd p)) proof ∅ None) (cl_CDate (snd p))).

Definition QueryCommitLogs (db : DB) (owner : string) (since until : option Z) (limit : Z) (order : string)
    : result (list QueryRow) :=
  traverse log_row
    (list_query log_asc
       (λ p, matches owner (cl_Owner (snd p)) && in_times since until (cl_CDate (snd p)))
       limit order (map_to_list (commit_logs db))).

End Queries.

(** ** Pagination ([query.go]) *)

Section Paginate.
Context `{TimeFormat}.

Definition cursor (orderBy : string) (row : QueryRow) : string :=
  if String.eqb orderBy "key" then default "" (CCKV (Row row))
  else format_rfc3339nano (qr_CreatedAt row).

(** [rows] were fetched with [limit+1]; a negative limit indexes out of range. *)
Definition paginateWindow (rows : list QueryRow) (limit : Z) (orderBy : string)
    : result (list SignedDocument * option string * option string) :=
  if limit <? 0 then Panic
  else
    let n := Z.to_nat limit in
    let window := take n rows in
    Ok (Row <$> window, cursor orderBy <$> head window, cursor orderBy <$> rows !! n).
End Paginate.
