(* ===== verification/QueriesFacts.v ===== *)
(** * QueriesFacts: listings are exact

    A query's window is the sorted selection cut at the limit. *)

From S2P Require Import Prelude Bytes Url Cdid Ccuri Documents PolicyValues Store StoreFacts Queries.
From stdpp Require Import prelude strings gmap list sorting.
From Stdlib Require Import ZArith Lia Ascii.
Open Scope Z_scope.

(** ** Orders *)

Lemma str_leb_cons c d s t :
  String.leb (String c s) (String d t) = true ↔
  (N_of_ascii c < N_of_ascii d)%N ∨ (c = d ∧ String.leb s t = true).
Proof.
  unfold String.leb. cbn. destruct (Ascii.compare c d) eqn:E; unfold Ascii.compare in E.
  - apply N.compare_eq_iff in E. split; [|intros [Hlt|[_ Hl]]; [lia | done]].
    intros Hl. right. split; [|done].
    by rewrite <- (ascii_N_embedding c), <- (ascii_N_embedding d), E.
  - apply N.compare_lt_iff in E. split; [by left | done].
  - apply N.compare_gt_iff in E. split; [done|]. intros [Hlt | [-> _]]; lia.
Qed.

Lemma str_leb_trans s t u : String.leb s t = true → String.leb t u = true → String.leb s u = true.
Proof.
  revert t u. induction s as [|c s IH]; intros [|d t] [|e u]; try done.
  rewrite !str_leb_cons. intros [H1|[-> H1]] [H2|[-> H2]]; [left; lia|by left|by left|].
  right. split; [done|]. by eapply IH.
Qed.

Section Orders.
Context {A : Type} (asc : A → A → bool).
Context (asc_total : ∀ x y, asc x y = true ∨ asc y x = true).
Context (asc_trans : ∀ x y z, asc x y = true → asc y z = true → asc x z = true).

#[local] Instance ordering_total order : Total (ordering asc order).
Proof. intros x y. unfold ordering. destruct (String.eqb order "desc"); naive_solver. Qed.

#[local] Instance ordering_trans order : Transitive (ordering asc order).
Proof. intros x y z. unfold ordering. destruct (String.eqb order "desc"); eauto. Qed.

(** An unlimited query: the sorted selection. *)
Lemma list_query_all window order rows x :
  x ∈ list_query asc window 0 order rows ↔ x ∈ rows ∧ window x = true.
Proof.
  unfold list_query, limited. cbn. rewrite merge_sort_Permutation, list_elem_of_In, List.filter_In.
  by rewrite list_elem_of_In.
Qed.

Lemma list_query_limit window limit order rows :
  0 < limit →
  list_query asc window limit order rows = take (Z.to_nat limit) (list_query asc window 0 order rows).
Proof. intros Hl. unfold list_query, limited. by rewrite (proj2 (Z.ltb_lt 0 limit)). Qed.

Lemma list_query_sorted window order rows :
  StronglySorted (ordering asc order) (list_query asc window 0 order rows).
Proof. unfold list_query, limited. cbn. apply (StronglySorted_merge_sort (ordering asc order)). Qed.

End Orders.

Section Dated.
Context {A : Type} (time : A → Z) (ident : A → string).

Lemma dated_asc_spec x y :
  dated_asc time ident x y = true ↔
  time x < time y ∨ (time x = time y ∧ String.leb (ident x) (ident y) = true).
Proof. unfold dated_asc. rewrite orb_true_iff, andb_true_iff, Z.ltb_lt, Z.eqb_eq. done. Qed.

Lemma dated_asc_total x y : dated_asc time ident x y = true ∨ dated_asc time ident y x = true.
Proof.
  rewrite !dated_asc_spec. destruct (Z.lt_trichotomy (time x) (time y)) as [?|[E|?]];
    [by left; left | | by right; left].
  destruct (String.leb_total (ident x) (ident y)); [by left; right | by right; right].
Qed.

Lemma dated_asc_trans x y z :
  dated_asc time ident x y = true → dated_asc time ident y z = true → dated_asc time ident x z = true.
Proof.
  rewrite !dated_asc_spec. intros [?|[? H1]] [?|[? H2]]; [left; lia..|].
  right. split; [lia | by eapply str_leb_trans].
Qed.

End Dated.

(** ** Loops over rows *)

Section Traverse.
Context {A B : Type} (f : A → result B).

Lemma traverse_Forall2 l bs : Forall2 (λ a b, f a = Ok b) l bs → traverse f l = Ok bs.
Proof. induction 1 as [|a b l bs Hab _ IH]; cbn; [done|]. by rewrite Hab, IH. Qed.

Lemma traverse_take l bs n : traverse f l = Ok bs → traverse f (take n l) = Ok (take n bs).
Proof. intros H%traverse_ok. by apply traverse_Forall2, Forall2_take. Qed.

Lemma traverse_total l : (∀ a, a ∈ l → ∃ b, f a = Ok b) → ∃ bs, traverse f l = Ok bs.
Proof.
  induction l as [|a l IH]; intros Hall; cbn; [by eexists|].
  destruct (Hall a ltac:(left)) as [b ->].
  destruct IH as [bs ->]; [|by eexists]. intros x Hx. apply Hall. by right.
Qed.

Lemma traverse_elem l bs b : traverse f l = Ok bs → b ∈ bs ↔ ∃ a, a ∈ l ∧ f a = Ok b.
Proof.
  intros H%traverse_ok. split.
  - intros (i & Hi)%list_elem_of_lookup. destruct (Forall2_lookup_r _ _ _ _ _ H Hi) as (a & Ha & Hf).
    exists a. split; [by eapply list_elem_of_lookup_2 | done].
  - intros (a & (i & Hi)%list_elem_of_lookup & Hf).
    destruct (Forall2_lookup_l _ _ _ _ _ H Hi) as (b' & Hb & Hf'). assert (b = b') as -> by congruence.
    by eapply list_elem_of_lookup_2.
Qed.
End Traverse.

(** ** Paging *)

Lemma paginateWindow_ok `{TimeFormat} rows limit orderBy :
  0 <= limit →
  paginateWindow rows limit orderBy =
    Ok (Row <$> take (Z.to_nat limit) rows, cursor orderBy <$> head (take (Z.to_nat limit) rows),
        cursor orderBy <$> rows !! Z.to_nat limit).
Proof. intros Hl. unfold paginateWindow. by rewrite (proj2 (Z.ltb_ge limit 0)). Qed.
