(* ===== verification/Counts.v ===== *)
(** * Counts: association counts by variant

    [GetAssociatedRecordCountsByVariant] of
    [src/internal/infra/repository/postgres/record.go] and the ordered map of
    [src/internal/utils/orderedkv.go] it answers with.  A NULL variant is read
    as the empty one. *)

From S2P Require Import Prelude Bytes Url Cdid Ccuri Documents PolicyValues Store Queries Numbers.
From stdpp Require Import prelude strings gmap list sorting.
From Stdlib Require Import ZArith Lia Ascii.
Open Scope Z_scope.

Record OrderedKV : Type := mkOrdered { kv_Value : Z; kv_Order : Z }.

Notation OrderedKVMap := (gmap string OrderedKV).

(** What the field [MinCDate] holds once GORM has scanned a row whose column
    [min_created_at] is the given time. *)
Class ScanCounts := scan_MinCDate : Z → Z.

(** GORM's documentation: a column is scanned into the field whose name in
    snake case it has, and is left out when there is none.  The field's is
    [min_c_date]. *)
Definition unmatched_column_dropped (S : ScanCounts) : Prop := ∀ t, @scan_MinCDate S t = zero_time.

(** The rows of a group: associations of the target with the schema. *)
Definition of_target (db : DB) (targetURI schema : string) : list AssociationRow :=
  List.filter (λ a, targets db targetURI a && String.eqb (as_Schema a) schema) (map_to_list (associations db)).*2.

Definition in_group (variant : option string) (a : AssociationRow) : bool := bool_decide (as_Variant a = variant).

Record VariantCount : Type := mkCount { vc_Variant : option string; vc_Count : Z; vc_Min : Z }.

(** [COUNT( * )] and [MIN(created_at)] of a group. *)
Definition count_group (rows : list AssociationRow) (variant : option string) : VariantCount :=
  let l := List.filter (in_group variant) rows in
  mkCount variant (Z.of_nat (length l))
    (match as_CreatedAt <$> l with [] => 0 | t :: ts => foldr Z.min t ts end).

(** [GROUP BY variant ORDER BY min_created_at ASC]. *)
Definition variant_counts (rows : list AssociationRow) : list VariantCount :=
  list_query (λ x y, vc_Min x <=? vc_Min y) (λ _, true) 0 "" (count_group rows <$> remove_dups (as_Variant <$> rows)).

Section Counts.
Context `{ScanCounts}.

Definition put_count (m : OrderedKVMap) (c : VariantCount) : OrderedKVMap :=
  <[default "" (vc_Variant c) := mkOrdered (vc_Count c) (int64 (scan_MinCDate (vc_Min c)))]> m.

Definition GetAssociatedRecordCountsByVariant (db : DB) (targetURI schema : string) : OrderedKVMap :=
  foldl put_count ∅ (variant_counts (of_target db targetURI schema)).
End Counts.

(** [MarshalJSON] writes the entries sorted by their order; entries of the same
    order come in any. *)
Definition marshals (m : OrderedKVMap) (l : list (string * OrderedKV)) : Prop :=
  l ≡ₚ map_to_list m ∧ Sorted (λ x y, kv_Order (snd x) <= kv_Order (snd y)) l.

(** ** Theorems *)

Lemma elem_of_filter_true {A} (f : A → bool) l x : x ∈ List.filter f l ↔ x ∈ l ∧ f x = true.
Proof. rewrite !list_elem_of_In. apply filter_In. Qed.

Lemma variant_counts_elem rows c :
  c ∈ variant_counts rows ↔ ∃ v, v ∈ as_Variant <$> rows ∧ c = count_group rows v.
Proof.
  unfold variant_counts, list_query, limited. cbn.
  rewrite merge_sort_Permutation, elem_of_filter_true, list_elem_of_fmap.
  setoid_rewrite elem_of_remove_dups. naive_solver.
Qed.

Lemma put_counts_lookup `{ScanCounts} l m k :
  match foldl put_count m l !! k with
  | Some kv => m !! k = Some kv ∨ ∃ c, c ∈ l ∧ default "" (vc_Variant c) = k ∧
                 kv = mkOrdered (vc_Count c) (int64 (scan_MinCDate (vc_Min c)))
  | None => m !! k = None ∧ ∀ c, c ∈ l → default "" (vc_Variant c) ≠ k
  end.
Proof.
  revert m. induction l as [|c l IH]; intros m; cbn [foldl].
  - destruct (m !! k); [by left|]. split; [done|]. by intros c Hc%elem_of_nil.
  - specialize (IH (put_count m c)). set (kv := mkOrdered (vc_Count c) (int64 (scan_MinCDate (vc_Min c)))).
    assert (put_count m c !! k = if decide (default "" (vc_Variant c) = k) then Some kv else m !! k) as Hm.
    { unfold put_count. rewrite lookup_insert. fold kv. by case_decide. }
    rewrite Hm in IH. destruct (foldl put_count (put_count m c) l !! k) as [kv'|]; case_decide as Hk.
    + destruct IH as [[= <-]|(c' & Hc & Hk' & ->)]; right; [exists c|exists c']; split_and!; try done; by constructor.
    + destruct IH as [?|(c' & Hc & Hk' & ->)]; [by left|]. right. exists c'. split_and!; try done. by right.
    + by destruct IH.
    + destruct IH as [? Hl]. split; [done|]. intros c' [->|Hc']%elem_of_cons; auto.
Qed.

(** a variant's count is the number of the target's associations with the
    schema and the variant, and a variant without any has no entry. *)
Theorem variant_counts_exact `{ScanCounts} db targetURI schema v : v ≠ "" →
  let n := length (List.filter (in_group (Some v)) (of_target db targetURI schema)) in
  kv_Value <$> GetAssociatedRecordCountsByVariant db targetURI schema !! v =
  (if decide (n = 0%nat) then None else Some (Z.of_nat n)).
Proof.
  intros Hv n. unfold GetAssociatedRecordCountsByVariant. set (rows := of_target db targetURI schema) in *.
  pose proof (put_counts_lookup (variant_counts rows) ∅ v) as Hl.
  assert (n = 0%nat ↔ ∀ a, a ∈ rows → as_Variant a ≠ Some v) as Hn.
  { subst n. rewrite length_zero_iff_nil. split.
    - intros E a Ha Hav. assert (a ∈ List.filter (in_group (Some v)) rows) as Hin; [|rewrite E in Hin; by apply elem_of_nil in Hin].
      apply elem_of_filter_true. split; [done|]. by apply bool_decide_eq_true.
    - intros Hnone. apply elem_of_nil_inv. intros a (Ha & Hg)%elem_of_filter_true. apply bool_decide_eq_true in Hg. by apply (Hnone a). }
  destruct (foldl put_count ∅ (variant_counts rows) !! v) as [kv|]; cbn.
  - destruct Hl as [?|(c & Hc & Hk & ->)]; [done|].
    apply variant_counts_elem in Hc as (o & Ho & ->). cbn in Hk. destruct o as [w|]; cbn in Hk; [subst w|done].
    apply list_elem_of_fmap in Ho as (a & Hav & Ha). rewrite decide_False; [done|]. rewrite Hn. intros Hnone. by apply (Hnone a).
  - destruct Hl as [_ Hl]. rewrite decide_True; [done|]. apply Hn. intros a Ha Hav.
    apply (Hl (count_group rows (Some v))); [|done]. apply variant_counts_elem. exists (Some v). split; [|done].
    apply list_elem_of_fmap. by exists a.
Qed.

(** The query sorts the variants by their first association and the map has
    an order to keep, but the column the order is read from has another name
    than the field: every order of the entries is a possible answer. *)
Theorem variants_unordered `{S : ScanCounts} db targetURI schema l : unmatched_column_dropped S →
  l ≡ₚ map_to_list (GetAssociatedRecordCountsByVariant db targetURI schema) →
  marshals (GetAssociatedRecordCountsByVariant db targetURI schema) l.
Proof.
  intros Hdrop Hl. split; [done|].
  assert (∀ p, p ∈ l → kv_Order (snd p) = int64 zero_time) as Hall.
  { intros [k kv]. rewrite Hl. intros Hp%elem_of_map_to_list. unfold GetAssociatedRecordCountsByVariant in Hp.
    pose proof (put_counts_lookup (variant_counts (of_target db targetURI schema)) ∅ k) as Hk. rewrite Hp in Hk.
    destruct Hk as [?|(c & _ & _ & ->)]; [done|]. cbn. by rewrite Hdrop. }
  clear Hl. induction l as [|p l IH]; [constructor|]. constructor; [apply IH; intros q Hq; apply Hall; by right|].
  destruct l as [|q l]; constructor. rewrite (Hall p), (Hall q); [lia|by right; left|by left].
Qed.

#[local] Instance scan_dropped : ScanCounts := λ _, zero_time.

Definition counted : DB := mkDB ∅ ∅ {["cckv://a/k" := mkRecordKey 1 None None None false]} 2 ∅ ∅
  {["d1" := mkAssociationRow 1 "a" "b" "s" (Some "heart") "u1" 5; "d2" := mkAssociationRow 1 "a" "c" "s" (Some "heart") "u2" 7;
    "d3" := mkAssociationRow 1 "a" "c" "s" (Some "star") "u3" 3]} ∅.

Lemma variant_counts_exact_witness :
  kv_Value <$> GetAssociatedRecordCountsByVariant counted "cckv://a/k" "s" !! "heart" = Some 2.
Proof.
  assert ("heart" ≠ "") as Hv by done. pose proof (variant_counts_exact counted "cckv://a/k" "s" "heart" Hv) as Ht.
  cbn zeta in Ht. rewrite Ht. vm_compute. reflexivity.
Defined.
