(* ===== verification/Usecase.v ===== *)
(** * Usecase: state, effects and reads of the record use case
      ([src/internal/usecase/record])

    One server's state is its database, the registration table and the cache of
    block lists; a handler is a function of the state that returns a result, a
    new state and, in the state, what it sent out ([st_out]).  A transaction's
    writes are collected in [st_tx] and take effect at its commit; every read
    but the parent lookups of the writes goes to the committed database, as in
    the repository.  The model is the serving configuration: client, job queue
    and key-value store are wired ([uc.client], [uc.jobs], [uc.kvs] not nil). *)

From S2P Require Import Prelude Bytes Url KeyUri Cdid Ccuri Documents Verify PolicyValues Store Queries Effects Tags.
From stdpp Require Import prelude strings gmap list sorting.
From Stdlib Require Import ZArith Lia Ascii.
Open Scope Z_scope.
Open Scope uc_scope.

(** ** Error texts ([internal/domain/errors.go], [verify.go]) *)

Fixpoint error_text (e : error) : string :=
  match e with
  | NotFoundError resource message _ =>
      if negb (String.eqb message "") then message
      else if String.eqb resource "" then "not found" else resource +:+ " not found"
  | PermissionError reason =>
      if String.eqb reason "" then "permission denied" else "permission denied: " +:+ reason
  | RedirectError location => "redirect to " +:+ location
  | ValidationError field message =>
      if String.eqb field "" then "validation error: " +:+ message
      else "validation error on field '" +:+ field +:+ "': " +:+ message
  | ErrSignatureVerificationFailed => "signature verification failed"
  | ErrNoneProofNotAllowed => "none proof type is not allowed"
  | ErrUnsupportedProofType => "unsupported or unverifiable proof type"
  | ErrProofTypeNotAllowed => "proof type is not allowed here"
  | GoError msg => msg
  | Joined a b => error_text a +:+ String (ascii_of_nat 10) (error_text b)
  | OutOfFuel => ""
  end.

(** ** Domain data *)

Inductive CommitMode : Set :=
| CommitModeUnknown
| CommitModeExecute
| CommitModeDryRun
| CommitModeLocalOnlyExecute.

#[global] Instance CommitMode_eq_dec : EqDecision CommitMode.
Proof. solve_decision. Defined.

(** Nanoseconds. *)
Definition hour : Z := 3600 * 1000000000.
Definition MaxBackdate : Z := 7 * 24 * hour.
Definition MaxFutureSkew : Z := 12 * hour.
Definition MaxDocumentSize : nat := 32768.
Definition MaxAssociationVariantSize : nat := 512.
Definition MaxRecordKeySize : nat := 1024.

Record EntityMeta : Type := mkEntityMeta {
  em_ID : string;
  em_Inviter : option string;
  em_Info : string;
}.

Definition entity_CCKV (e : Entity) : string := ComposeCCURI "cckv" (e_ID e) "".
Definition CCKVWithHint (e : Entity) : string := "cckv://" +:+ e_ID e +:+ "@" +:+ e_Domain e.

(** [domain.Entity{}]. *)
Definition zero_entity : Entity := PolicyValues.mkEntity "" None "" "" None.

(** What a request's context carries: the authenticated requester and whether
    it is the system service account. *)
Record Ctx : Type := mkCtx {
  ctx_requester : option Entity;
  ctx_system : bool;
}.

(** ** Jobs and effects ([deliver.go]) *)

Inductive DeliveryLocalKind : Set := DeliveryLocalNone | DeliveryLocalPublish | DeliveryLocalCommit.
Inductive DeliveryRemoteKind : Set := DeliveryRemoteNone | DeliveryRemoteCommit.

Record DeliveryJob : Type := mkDeliveryJob {
  dj_ResolveURI : string;
  dj_Host : string;
  dj_Payload : SignedDocument;
  dj_Local : DeliveryLocalKind;
  dj_Remote : DeliveryRemoteKind;
  dj_Event : option Event;
  dj_IP : string;
}.

(** What a handler sends out, in order. *)
Inductive Output : Type :=
| Published (channel : string) (event : Event)
| Enqueued (job : DeliveryJob)
| ItemRemoved (timeline item : string)
| Invalidated (uri : string)
| Spawned (ccid hint : string)
| RemoteCommit (host : string) (sd : SignedDocument).

(** The post-commit actions of a handler; events are marked when they run. *)
Inductive PostProcessAction : Type :=
| PublishMarked (channel : string) (event : Event)
| EnqueueJob (job : DeliveryJob)
| EnqueueMarked (job : DeliveryJob) (event : Event)
| SetRemoved (timeline item : string).

(** ** State and effects *)

Record St : Type := mkSt {
  st_db : DB;
  st_tx : list (DB → DB);
  st_metas : gmap string EntityMeta;
  st_blocking : gmap string (list string);
  st_out : list Output;
}.

Definition set_db (st : St) db := mkSt db (st_tx st) (st_metas st) (st_blocking st) (st_out st).
Definition set_tx (st : St) tx := mkSt (st_db st) tx (st_metas st) (st_blocking st) (st_out st).
Definition set_blocking (st : St) b := mkSt (st_db st) (st_tx st) (st_metas st) b (st_out st).
Definition add_out (st : St) o := mkSt (st_db st) (st_tx st) (st_metas st) (st_blocking st) (st_out st ++ [o]).

(** What the open transaction sees: its writes over the committed tables. *)
Definition tx_view (st : St) : DB := foldl (λ db f, f db) (st_db st) (st_tx st).

Definition M (A : Type) : Type := SM St A.

Definition readM {A} (f : DB → result A) : M A := λ st, (f (st_db st), st).
Definition outM (o : Output) : M unit := λ st, (Ok tt, add_out st o).

(** A statement of the open transaction: its verdict now, its effect recorded. *)
Definition tx_exec {A} (f : DB → result (A * DB)) : M A := λ st,
  match f (tx_view st) with
  | Ok (a, _) => (Ok a, set_tx st (st_tx st ++ [λ db, match f db with Ok (_, db') => db' | _ => db end]))
  | Err e => (Err e, st)
  | Panic => (Panic, st)
  end.

Definition tx_do (f : DB → DB) : M unit := tx_exec (λ db, Ok (tt, f db)).

(** ** What surrounds the server

    The remote client, DNS, the registry of servers, hashing and the JSON of
    what is stored; and the policy service, through the verdict it promises. *)

Class Env := {
  FQDN : string;
  Layer : string;
  now : Z;
  (** [server.Resolve(domain)]: the layer and tag of the server. *)
  resolve_server : string → result (string * string);
  LookupTXT : string → result (list string);
  (** [errors.As(err, &dnsErr) && dnsErr.IsNotFound]. *)
  dns_not_found : error → bool;
  (** [client.GetResource(uri)] at a resolver. *)
  get_resource : string → string → result SignedDocument;
  (** The client as a [DocumentResolver]. *)
  document_resolver : string → result SignedDocument;
  ResolveResourceHost : string → result string;
  ResolveResourceURI : string → result string;
  marshal_policy : Documents.Policy → result string;
  marshal_value : any_ → result string;
  (** [fmt.Sprintf("%x", xxh3.HashString(s))]. *)
  xxh3_hex : string → string;
}.

Class PolicyEval :=
  policy_eval : Entity → Document any_ → list Documents.Policy → string → string → result unit.

Section Read.
Context `{Url.NetIP} `{Json} `{Keccak} `{Secp256k1} `{StoreCodec} `{Env} `{PolicyEval}.

Definition resolver : Resolver := Some document_resolver.

(** [Unmarshal] into [Document[any]] of a stored or referenced document. *)
Definition parse_document (sd : SignedDocument) : M (Document any_) := liftM (unmarshal_document (sd_Document sd)).

Definition policies_of (db : DB) (uri : string) : result (list Documents.Policy) :=
  GetHierarchicalRecordPolicies (key_fuel uri) db uri.

(** *** Entities ([entity.go]) *)

Definition IsLocalEntity (e : Entity) : bool := String.eqb FQDN (e_Domain e).

(** [uc.entity.GetMeta]. *)
Definition GetMeta (st : St) (ccid : string) : result EntityMeta :=
  of_option (NotFoundError ccid "" "") (st_metas st !! ccid).

(** The first TXT record that names a CCID with a hint. *)
Definition txt_redirect (records : list string) : string :=
  default "" (List.find (λ record, match ParseCCURI record with
                             | Ok p => IsCCID (Ccuri.Owner p) && bool_decide (is_Some (Hint p))
                             | _ => false
                             end) records).

Section Entities.
Context (commit : string → SignedDocument → CommitMode → M SignedDocument).

Definition owner_required (uri : string) : error := GoError ("invalid URI: owner is required: " +:+ uri).

(** The branch for a CCID owner: the stored entity, or the one its hint serves. *)
Definition get_entity_by_ccid (uri : string) (parsed : CCURI) : M Entity :=
  let ccid := Ccuri.Owner parsed in
  let* found := tryM (readM (λ db, GetEntityByCCID db ccid)) in
  match found with
  | Ok entity =>
      match Hint parsed with
      | Some h =>
          if negb (String.eqb h (e_Domain entity)) && negb (String.eqb h FQDN)
          then outM (Spawned ccid h) ;; retM entity
          else retM entity
      | None => retM entity
      end
  | Err e =>
      if negb (is_not_found e) then failM e
      else
        match Hint parsed with
        | None => failM (NotFoundError uri "" "")
        | Some hint =>
            if String.eqb hint FQDN then failM (NotFoundError uri "" "")
            else
              let* sd := liftM (get_resource uri hint) in
              let* _ := commit hint sd CommitModeExecute in
              readM (λ db, GetEntityByCCID db ccid)
        end
  | Panic => panicM
  end.

(** [rec] resolves the redirect of an alias. *)
Definition get_entity (rec : string → M Entity) (uri : string) : M Entity :=
  let* parsed := liftM (ParseCCURI uri) in
  match Ccuri.Owner parsed with
  | EmptyString => failM (owner_required uri)
  | String "@" alias =>
      let* found := tryM (readM (λ db, GetEntityByAlias db alias)) in
      match found with
      | Ok entity => retM entity
      | Err e =>
          if negb (is_not_found e) then failM e
          else
            match LookupTXT ("_concrnt." +:+ alias) with
            | Err e => if dns_not_found e then failM (NotFoundError uri "" "") else failM e
            | Panic => panicM
            | Ok records =>
                let redirect := txt_redirect records in
                if String.eqb redirect "" then failM (NotFoundError uri "" "") else rec redirect
            end
      | Panic => panicM
      end
  | _ => get_entity_by_ccid uri parsed
  end.

(** A redirect names a CCID, so it is not redirected again. *)
Definition GetEntity (uri : string) : M Entity := get_entity (get_entity (λ _, failM OutOfFuel)) uri.

Definition ccid_uri (ccid : string) (hint : option string) : string :=
  Ccuri.String (mkCCURI "cckv" ccid "" "" "" hint "").

Definition IsLocalEntityByCCID (entityID : string) : M bool :=
  let uri := if IsCCID entityID then ccid_uri entityID None else entityID in
  let* entity := GetEntity uri in
  retM (IsLocalEntity entity).

(** The inlined entity document, when it is one of [ccid]. *)
Definition inlined_entity (ccid : string) (ref : SignedDocument) : option (Document EntityValue) :=
  match unmarshal_typed decode_entity (sd_Document ref) with
  | Ok d => if String.eqb (Kind d) "entity" && String.eqb (Author d) ccid then Some d else None
  | _ => None
  end.

(** Whether the inlined document is newer than the stored one. *)
Definition inlined_newer (stored : result Entity) (referenced : Document EntityValue) : result bool :=
  match stored with
  | Ok e =>
      match e_SignedDocument e with
      | Some sd =>
          match unmarshal_typed decode_entity (sd_Document sd) with
          | Ok d => Ok (CreatedAt d <? CreatedAt referenced)
          | Err _ => Ok true
          | Panic => Panic
          end
      | None => Ok true
      end
  | Err e => if is_not_found e then Ok true else Err e
  | Panic => Panic
  end.

Definition getEntityWithReference (ip ccid : string) (sd : SignedDocument) : M Entity :=
  let uri := ccid_uri ccid None in
  match References sd !! uri with
  | None => GetEntity uri
  | Some ref =>
      match inlined_entity ccid ref with
      | None => GetEntity uri
      | Some referenced =>
          let uri := ccid_uri ccid (Some (ent_Domain (Value referenced))) in
          let* newer := readM (λ db, inlined_newer (GetEntityByCCID db ccid) referenced) in
          (if (newer : bool) then let* _ := tryM (commit ip ref CommitModeExecute) in retM tt else retM tt) ;;
          GetEntity uri
      end
  end.

(** The detached recheck, once its throttle marker is acquired. *)
Definition recheckEntityByHint (ccid hint : string) (acquired : bool) : M unit :=
  if negb acquired then retM tt
  else
    let uri := ccid_uri ccid (Some hint) in
    let* sd := liftM (get_resource uri hint) in
    let* fetched := liftM (unmarshal_typed decode_entity (sd_Document sd)) in
    if negb (String.eqb (Kind fetched) "entity") || negb (String.eqb (Author fetched) ccid) then
      failM (GoError ("hint " +:+ hint +:+ " served a document by " +:+ Author fetched +:+ " for " +:+ ccid))
    else
      let* _ := commit hint sd CommitModeExecute in
      retM tt.

End Entities.

(** *** Policy actions ([policy.go]) *)

Definition policyCreateAction (doc : Document any_) : string :=
  if String.eqb (Kind doc) "association" then "association:create" else "record:create".
Definition policyReadAction (doc : Document any_) : string :=
  if String.eqb (Kind doc) "association" then "association:read" else "record:read".
Definition policyDeleteAction (doc : Document any_) : string :=
  if String.eqb (Kind doc) "association" then "association:delete" else "record:delete".

(** *** Read access ([read.go]) *)

(** A key-only row is a record at its key. *)
Definition key_only_document (uri : string) : Document any_ :=
  mkDocument "record" uri ANil "" "" zero_time None None None None None.

(** An unreadable hierarchy counts as one without policies. *)
Definition read_stack (db : DB) (policyRoot : string) : result (list Documents.Policy) :=
  match policies_of db policyRoot with Err _ => Ok [] | r => r end.

Definition checkReadAccessAs (db : DB) (uri : string) (sd : SignedDocument) (requester : Entity) : result unit :=
  if String.eqb uri "" then Err (GoError "uri is required for read access evaluation")
  else
    doc ← (if String.eqb (sd_Document sd) "" then Ok (key_only_document uri)
           else unmarshal_document (sd_Document sd));
    let policyRoot := default uri (Associate doc) in
    stack ← read_stack db policyRoot;
    policy_eval requester doc stack (policyReadAction doc) uri.

Definition requester_of (ctx : Ctx) : Entity := default zero_entity (ctx_requester ctx).

Definition checkReadAccess (ctx : Ctx) (db : DB) (uri : string) (sd : SignedDocument) : result unit :=
  checkReadAccessAs db uri sd (requester_of ctx).

(** Whether anyone may read a document; a panic of the evaluator is one. *)
Definition anonymous_reads (db : DB) (uri : string) (sd : SignedDocument) : result bool :=
  match checkReadAccessAs db uri sd zero_entity with
  | Ok _ => Ok true
  | Err _ => Ok false
  | Panic => Panic
  end.

(** A loop that rewrites the values of a map. *)
Definition map_traverse {A B} (f : string → A → result B) (m : gmap string A) : result (gmap string B) :=
  rbind (traverse (λ p, rbind (f (fst p) (snd p)) (λ b, Ok (fst p, b))) (map_to_list m))
    (λ l, Ok (list_to_map l)).

Definition mark_nested (db : DB) (uri : string) (sd : SignedDocument) : result SignedDocument :=
  rbind (anonymous_reads db uri sd) (λ public, Ok (with_references (with_public sd (Some public)) ∅)).

Definition mark_reference (db : DB) (uri : string) (sd : SignedDocument) : result SignedDocument :=
  rbind (anonymous_reads db uri sd) (λ public,
  rbind (map_traverse (mark_nested db) (References sd)) (λ nested,
  Ok (with_references (with_public sd (Some public)) nested))).

Definition markEventForAnonymous (db : DB) (event : Event) : result Event :=
  if decide (ev_References event = ∅) then Ok event
  else rbind (map_traverse (mark_reference db) (ev_References event)) (λ marked,
       Ok (with_event_references event marked)).

Section Reads.
Context (commit : string → SignedDocument → CommitMode → M SignedDocument) (ctx : Ctx).

Definition CanonicalizeURI (uri : string) : M string :=
  let* parsed := liftM (ParseCCURI uri) in
  if negb (Str.has_prefix (Ccuri.Owner parsed) "@") then retM uri
  else
    let* entity := GetEntity commit (ccid_uri (Ccuri.Owner parsed) None) in
    retM (Ccuri.String (mkCCURI (Ccuri.Scheme parsed) (e_ID entity) (Ccuri.Key parsed) (Ccuri.Type_ parsed)
            (Ccuri.CDID parsed) (Hint parsed) (Raw parsed))).

(** The reference a stored document is, if it is one. *)
Definition reference_of (sd : SignedDocument) : option Reference :=
  match unmarshal_typed decode_reference (sd_Document sd) with
  | Ok d => if String.eqb (Schema d) ReferenceURL then Some (Value d) else None
  | _ => None
  end.

Definition GetSigned (uri : string) : M (option SignedDocument) :=
  let* parsed := liftM (ParseCCURI uri) in
  if String.eqb (Ccuri.Scheme parsed) "cckv" && String.eqb (Ccuri.Key parsed) "" then
    let* entity := GetEntity commit uri in
    retM (e_SignedDocument entity)
  else
    let* uri := CanonicalizeURI uri in
    let* sd := readM (λ db, Store.GetSignedDocument db uri) in
    match reference_of sd with
    | Some ref =>
        let* location := liftM (ResolveResourceURI (ref_Href ref)) in
        failM (RedirectError location)
    | None =>
        readM (λ db, checkReadAccess ctx db uri sd) ;;
        retM (Some sd)
    end.
End Reads.

(** *** Queries and replication ([query.go], [replication.go]) *)

Record QueryParams : Type := mkQueryParams {
  qp_Prefix : string;
  qp_Parent : string;
  qp_Schema : string;
  qp_Author : string;
  qp_OrderBy : string;
  qp_Since : option Z;
  qp_Until : option Z;
  qp_SinceKey : option string;
  qp_UntilKey : option string;
  qp_Limit : Z;
  qp_Order : string;
}.

Context `{TimeFormat}.

Definition paged (limit : Z) (orderBy : string) (rows : result (list QueryRow)) : result QueryResult :=
  rbind rows (λ rows, rbind (paginateWindow rows limit orderBy) (λ '(items, prev, next),
  Ok (mkQueryResult items prev next))).

Definition GetAcknowledgeRecords (db : DB) (from to_ schema : string) (since until : option Z) (limit : Z)
    (order : string) : result QueryResult :=
  paged limit "createdAt" (repo_GetAcknowledgeRecords db from to_ schema since until (limit + 1) order).

Definition GetAssociatedRecords (db : DB) (targetURI schema variant author : string) (since until : option Z)
    (limit : Z) (order : string) : result QueryResult :=
  paged limit "createdAt" (repo_GetAssociatedRecords db targetURI schema variant author since until (limit + 1) order).

(** The loop that drops what the requester may not read; another error ends it. *)
Fixpoint filter_readable (check : SignedDocument → result bool) (items : list SignedDocument)
    : result (list SignedDocument) :=
  match items with
  | [] => Ok []
  | sd :: items =>
      rbind (check sd) (λ keep, rbind (filter_readable check items) (λ rest,
      Ok (if keep then sd :: rest else rest)))
  end.

(** A denial drops the row, any other error is the query's. *)
Definition readable (r : result unit) : result bool :=
  match r with
  | Ok _ => Ok true
  | Err e => if is_permission_denied e then Ok false else Err e
  | Panic => Panic
  end.

Definition query_rows (db : DB) (p : QueryParams) (orderBy : string) : result (list QueryRow) :=
  if String.eqb orderBy "key" && negb (String.eqb (qp_Parent p) "") then
    QueryByParentOrderByKey db (qp_Parent p) (qp_Schema p) (qp_Author p) (qp_SinceKey p) (qp_UntilKey p)
      (qp_Limit p + 1) (qp_Order p)
  else if String.eqb orderBy "key" then Err (GoError "orderby=key requires parent")
  else if negb (String.eqb orderBy "createdAt") then Err (GoError "invalid orderby parameter")
  else if negb (String.eqb (qp_Prefix p) "") then
    QueryByPrefix db (qp_Prefix p) (qp_Schema p) (qp_Author p) (qp_Since p) (qp_Until p)
      (qp_Limit p + 1) (qp_Order p)
  else if negb (String.eqb (qp_Parent p) "") then
    QueryByParent db (qp_Parent p) (qp_Schema p) (qp_Author p) (qp_Since p) (qp_Until p)
      (qp_Limit p + 1) (qp_Order p)
  else Err (GoError "either prefix or parent must be specified").

Definition Query (ctx : Ctx) (db : DB) (p : QueryParams) : result QueryResult :=
  if negb (String.eqb (qp_Prefix p) "") && negb (String.eqb (qp_Parent p) "") then
    Err (GoError "prefix and parent cannot be specified at the same time")
  else
    let orderBy := if String.eqb (qp_OrderBy p) "" then "createdAt" else qp_OrderBy p in
    rbind (paged (qp_Limit p) orderBy (query_rows db p orderBy)) (λ page,
    rbind (filter_readable
      (λ sd, match CCKV sd with
             | None => Err (GoError "queried record has no cckv")
             | Some uri => readable (checkReadAccess ctx db uri sd)
             end) (Items page)) (λ filtered,
    Ok (mkQueryResult filtered (Prev page) (Next page)))).

(** A commit a follower may see: records and associations by read access, with
    the URI the check is made at; every other kind passes. *)
Definition replicable (ctx : Ctx) (db : DB) (sd : SignedDocument) : result bool :=
  rbind (unmarshal_document (sd_Document sd)) (λ doc,
  if String.eqb (Kind doc) "record" then readable (checkReadAccess ctx db (Key doc) sd)
  else if String.eqb (Kind doc) "association" then
    match Associate doc with
    | Some uri => readable (checkReadAccess ctx db uri sd)
    | None => Panic
    end
  else Ok true).

Definition Replicate (ctx : Ctx) (db : DB) (owner : string) (since until : option Z) (limit : Z) (order : string)
    : result QueryResult :=
  rbind (paged limit "createdAt" (QueryCommitLogs db owner since until (limit + 1) order)) (λ page,
  if ctx_system ctx then Ok page
  else rbind (filter_readable (replicable ctx db) (Items page)) (λ filtered,
       Ok (mkQueryResult filtered (Prev page) (Next page)))).

End Read.
