(* ===== verification/ChunkStore.v ===== *)
(** * ChunkStore: timelines in the database
      ([postgres/chunkline.go], [usecase/chunkline], the chunkline endpoints)

    The children of a record key are a timeline, dated by the creation time of
    their records and cut in chunks of ten minutes.  The repository finds the
    chunk that holds the newest item up to a given one, and loads it; together
    they keep the reader's promise [Serves].  The order of items with equal
    times, which the query leaves open, is here by key. *)

From S2P Require Import Prelude Effects Bytes Url Cdid Ccuri Documents PolicyValues Numbers Store StoreFacts.
From S2P Require Import Queries QueriesFacts Usecase Heap Chunkline ChunklineFacts Gateway.
From stdpp Require Import prelude strings gmap list sorting.
From Stdlib Require Import ZArith Lia Ascii.
Open Scope Z_scope.
Open Scope uc_scope.

(** ** The repository *)

Definition chunkSeconds : Z := 600.
Definition defaultChunkSize : Z := 32.

Definition member_time (r : KeyRow) : Z := default 0 (rk_RecordCreatedAt (kr_key r)).
Definition member_asc : KeyRow → KeyRow → bool := dated_asc member_time kr_uri.

(** A dated child; a comparison with NULL does not hold. *)
Definition dated_child (parent : nat) (r : KeyRow) : bool :=
  bool_decide (rk_ParentID (kr_key r) = Some parent) && bool_decide (is_Some (rk_RecordCreatedAt (kr_key r))).

(** [time.Unix(c*600, 0)] *)
Definition chunk_time (c : Z) : Z := int64 (c * chunkSeconds) * billion.

Definition GetChunklineManifest (db : DB) (uri : string) : result Manifest :=
  recordKey ← GetRecordKeyByURI db uri;
  let first := list_query member_asc (dated_child (rk_ID recordKey)) 1 "asc" (key_rows db) in
  let firstChunk := (λ r, Z.quot (Unix (member_time r)) chunkSeconds) <$> head first in
  let safeURI := Url.QueryEscape uri in
  Ok (mkManifest "1.0" chunkSeconds firstChunk None None
        (Some (mkEndpoint ("/api/v2/chunkline/itr/{chunk}?uri=" +:+ safeURI)
                          ("/api/v2/chunkline/body/{chunk}?uri=" +:+ safeURI)))
        ("/api/v2/chunkline/removed?uri=" +:+ safeURI) ANil).

(** The newest child before a time. *)
Definition latest_before (db : DB) (parent : nat) (cutoff : Z) : option KeyRow :=
  head (list_query member_asc (λ r, dated_child parent r && (member_time r <? cutoff)) 1 "desc" (key_rows db)).

Definition local_itr (db : DB) (chunkID : Z) (uri : string) : option Z :=
  match record_keys db !! uri with
  | Some parent =>
      (λ r, Z.quot (Unix (member_time r)) chunkSeconds) <$> latest_before db (rk_ID parent) (chunk_time (int64 (chunkID + 1)))
  | None => None
  end.

Definition LookupLocalItrs (db : DB) (uris : list string) (chunkID : Z) : gmap string Z :=
  map_of (local_itr db chunkID) uris.

Definition body_item (r : KeyRow) : BodyItem :=
  let href := match kr_record r ≫= r_Redirect with Some redirect => redirect | None => kr_uri r end in
  let timestamp := match rk_RecordCreatedAt (kr_key r) with Some t => t | None => kr_time r end in
  mkBodyItem timestamp "" "application/concrnt.document+json" href.

Definition LoadLocalBody (db : DB) (uri : string) (chunkID : Z) : result (list BodyItem) :=
  let chunkDate := chunk_time (int64 (chunkID + 1)) in
  let prevChunkDate := chunk_time (int64 (chunkID - 1)) in
  parent ← GetRecordKeyByURI db uri;
  let members := list_query member_asc (λ r, dated_child (rk_ID parent) r && (member_time r <? chunkDate))
                   defaultChunkSize "desc" (key_rows db) in
  let covered := match last members with Some r => member_time r <? prevChunkDate | None => false end in
  let members :=
    if covered then members
    else list_query member_asc (λ r, dated_child (rk_ID parent) r && (member_time r <? chunkDate) &&
                                     (prevChunkDate <=? member_time r)) 0 "desc" (key_rows db) in
  Ok (body_item <$> members).

(** ** The endpoints ([handler.go]) *)

(** [None] is an answer other than 200. *)
Definition handleChunklineItr (db : DB) (uri chunk : string) : option string :=
  match ParseInt chunk with
  | Ok chunkID => FormatInt <$> (LookupLocalItrs db [uri] chunkID !! uri)
  | _ => None
  end.

Definition handleChunklineBody (db : DB) (uri chunk : string) : option (list BodyItem) :=
  match ParseInt chunk with
  | Ok chunkID => match LoadLocalBody db uri chunkID with Ok items => Some items | _ => None end
  | _ => None
  end.

(** ** Reading a server's own timelines

    The reader's resolver ([gateway/chunkline_gateway.go]) with nothing cached
    and every timeline on this server; [removed_items] are the ids the
    [removed] endpoints answer with. *)

Section Own.
Context (removed_items : string → list string).

Definition own_manifest (db : DB) (uri : string) : option Manifest :=
  match GetChunklineManifest db uri with Ok m => Some m | _ => None end.

Definition own_itr (db : DB) (until : Z) (tl : string) : result (option string) :=
  queryChunk ← itr_query (map_of (own_manifest db) [tl]) until tl;
  Ok (match queryChunk with
      | None => None
      | Some q =>
          match handleChunklineItr db tl (FormatInt q) with
          | Some iterator => if in_list [""; "0"] iterator then None else Some iterator
          | None => None
          end
      end).

Definition own_body (db : DB) (tl itr : string) : option BodyChunk :=
  match handleChunklineBody db tl itr, ParseInt itr with
  | Some items, Ok chunkID => Some (mkBodyChunk tl chunkID items)
  | _, _ => None
  end.

#[export] Instance own_chunks : ChunkResolver DB := {|
  ResolveTimelines := λ uris, getsM (λ db, map_of (own_manifest db) uris);
  GetRemovedItems := λ uris, retM (map_of (λ tl, Some (removed_items tl)) uris);
  LookupChunkItrs := λ uris until db,
    (rbind (traverse (own_itr db until) uris) (λ _,
       Ok (map_of (λ tl, match own_itr db until tl with Ok itr => itr | _ => None end) uris)), db);
  LoadChunkBodies := λ query, getsM (λ db, map_imap (own_body db) query);
|}.

End Own.

(** ** What a timeline holds *)

Definition members (db : DB) (parent : nat) : list KeyRow :=
  list_query member_asc (dated_child parent) 0 "desc" (key_rows db).

Definition local_timeline (db : DB) (uri : string) : list BodyItem :=
  match record_keys db !! uri with Some parent => body_item <$> members db (rk_ID parent) | None => [] end.

Definition local_manifest (db : DB) (uri : string) : Manifest :=
  match GetChunklineManifest db uri with Ok m => m | _ => zero_manifest end.

#[local] Instance ordering_dec : RelDecision (ordering member_asc "desc").
Proof. intros x y. unfold ordering. apply _. Defined.

Lemma ordering_time x y : ordering member_asc "desc" x y → member_time y <= member_time x.
Proof. intros [?|[? _]]%dated_asc_spec; lia. Qed.

(** Two sorted selections of distinct keys are the same list. *)
Lemma ordering_antisymm x y : ordering member_asc "desc" x y → ordering member_asc "desc" y x → kr_uri x = kr_uri y.
Proof.
  intros [?|[? Hu]]%dated_asc_spec [?|[? Hv]]%dated_asc_spec; try lia. by apply String.leb_antisym.
Qed.

Lemma key_rows_unique db x y : x ∈ key_rows db → y ∈ key_rows db → kr_uri x = kr_uri y → x = y.
Proof.
  intros ([u k] & -> & Hx)%list_elem_of_fmap ([v l] & -> & Hy)%list_elem_of_fmap. cbn.
  apply elem_of_map_to_list in Hx, Hy. intros ->. congruence.
Qed.

(** Narrowing a query filters its answer. *)
Lemma list_query_filter db (w v : KeyRow → bool) :
  list_query member_asc (λ r, w r && v r) 0 "desc" (key_rows db) =
  List.filter v (list_query member_asc w 0 "desc" (key_rows db)).
Proof.
  apply (StronglySorted_unique_strong (ordering member_asc "desc")).
  - intros x y Hx Hy H1 H2. apply list_query_all in Hx as [Hx _].
    apply elem_of_filter_b in Hy as [[Hy _]%list_query_all _].
    apply (key_rows_unique db); [done|done|]. by apply ordering_antisymm.
  - apply list_query_sorted; [apply dated_asc_total|apply dated_asc_trans].
  - apply StronglySorted_filter_b. apply list_query_sorted; [apply dated_asc_total|apply dated_asc_trans].
  - unfold list_query, limited. cbn. rewrite !merge_sort_Permutation. by rewrite filter_filter_and.
Qed.

(** ** The repository serves chunks *)

Section Served.
Context (db : DB) (uri : string) (parent : RecordKey).
Context (found : record_keys db !! uri = Some parent).

Notation children := (members db (rk_ID parent)).

(** No item of the first ten minutes of 1970, whose chunk is number 0; times are
    those of [time.Time.UnixNano]. *)
Context (dated : ∀ r, r ∈ children → chunkSeconds * billion <= member_time r < 2 ^ 63).

(** The end of a chunk, and the chunks whose ends are times. *)
Definition chunk_end (c : Z) : Z := (c + 1) * chunkSeconds * billion.
Definition ordinary (c : Z) : Prop := 1 <= c < 2 ^ 50.

Lemma chunk_time_end c : ordinary c →
  chunk_time (int64 (c + 1)) = chunk_end c ∧ chunk_time (int64 (c - 1)) = chunk_end (c - 2).
Proof.
  intros Hc. unfold ordinary in Hc. unfold chunk_time, chunk_end. rewrite (int64_id (c + 1)), (int64_id (c - 1)) by lia.
  unfold chunkSeconds. rewrite !int64_id by lia. split; f_equal; lia.
Qed.

Lemma children_dated r : r ∈ children → rk_RecordCreatedAt (kr_key r) = Some (member_time r).
Proof.
  intros [_ Hd]%list_query_all. unfold dated_child in Hd. apply andb_true_iff in Hd as [_ [t Ht]%bool_decide_eq_true].
  unfold member_time. by rewrite Ht.
Qed.

Lemma children_sorted : StronglySorted (λ x y, member_time y <= member_time x) children.
Proof.
  assert (StronglySorted (ordering member_asc "desc") children) as Hs
    by (apply list_query_sorted; [apply dated_asc_total|apply dated_asc_trans]).
  clear dated. induction Hs as [|x l Hs IH Hf]; [constructor|]. constructor; [done|].
  eapply Forall_impl; [exact Hf|]. intros y. apply ordering_time.
Qed.

Lemma body_time r : r ∈ children → Timestamp (body_item r) = member_time r.
Proof. intros Hr. unfold body_item. cbn. by rewrite (children_dated r Hr). Qed.

Lemma manifest_found : GetChunklineManifest db uri = Ok (local_manifest db uri).
Proof. unfold local_manifest, GetChunklineManifest, GetRecordKeyByURI. by rewrite found. Qed.

Lemma manifest_size : ChunkSize (local_manifest db uri) = chunkSeconds.
Proof. unfold local_manifest, GetChunklineManifest, GetRecordKeyByURI. by rewrite found. Qed.

Lemma local_timeline_ok : timeline_ok (local_timeline db) (local_manifest db) uri.
Proof.
  split; unfold local_timeline; rewrite ?manifest_size, ?found; [done|done| | |].
  - pose proof children_sorted as Hs. assert (∀ r, r ∈ children → r ∈ children) as Hin by done.
    revert Hs Hin. generalize children at 1 2 4 as l. induction l as [|x l IH]; intros Hs Hin; [constructor|].
    apply StronglySorted_inv in Hs as [Hs Hf]. rewrite fmap_cons. constructor; [apply IH; [done|intros; apply Hin; by right]|].
    rewrite Forall_forall in Hf. apply Forall_forall. intros b (y & -> & Hy)%list_elem_of_fmap. unfold newer.
    rewrite !body_time by (apply Hin; (by left) || (by right)). by apply Hf.
  - apply Forall_forall. intros b (r & -> & Hr)%list_elem_of_fmap. rewrite body_time by done.
    pose proof (dated r Hr) as Hd. unfold chunkSeconds, billion in Hd. lia.
  - apply Forall_forall. intros b (r & -> & Hr)%list_elem_of_fmap. rewrite body_time by done.
    pose proof (dated r Hr) as Hd. unfold Unix. apply Z.div_lt_upper_bound; [done|]. unfold billion. lia.
Qed.

(** The children up to the end of a chunk. *)
Definition early (q : Z) : list KeyRow := List.filter (λ r, member_time r <? chunk_end q) children.

Lemma upto_early q : upto (local_timeline db) (local_manifest db) uri q = body_item <$> early q.
Proof.
  unfold upto, local_timeline. rewrite found, manifest_size. apply filter_fmap_b.
  intros r Hr. by rewrite body_time.
Qed.

Notation chunk_no_ r := (chunk_no (local_manifest db) uri (member_time r)).

Lemma child_chunk r q : r ∈ children → chunk_no_ r <= q ↔ member_time r < chunk_end q.
Proof.
  intros Hr. pose proof (dated r Hr) as Hd. unfold chunkSeconds, billion in Hd.
  rewrite chunk_no_le by (rewrite ?manifest_size; (done || lia)). unfold chunk_end. by rewrite manifest_size.
Qed.

Lemma child_chunk_pos r : r ∈ children → 1 <= chunk_no_ r.
Proof.
  intros Hr. pose proof (dated r Hr) as Hd. destruct (Z.lt_ge_cases (chunk_no_ r) 1) as [Hlt|]; [|done].
  pose proof (proj1 (child_chunk r 0 Hr) ltac:(lia)) as Hc. unfold chunk_end in Hc. lia.
Qed.

Lemma child_ordinary r : r ∈ children → ordinary (chunk_no_ r).
Proof.
  intros Hr. pose proof (dated r Hr) as Hd. split; [by apply child_chunk_pos|].
  enough (chunk_no_ r <= 2 ^ 50 - 1) by lia. apply child_chunk; [done|]. unfold chunk_end, chunkSeconds, billion. lia.
Qed.

Lemma elem_of_early q r : r ∈ early q ↔ r ∈ children ∧ chunk_no_ r <= q.
Proof.
  unfold early. rewrite elem_of_filter_b, Z.ltb_lt. split; intros [Hr Hq]; (split; [done|]); by apply child_chunk.
Qed.

Lemma early_query q :
  list_query member_asc (λ r, dated_child (rk_ID parent) r && (member_time r <? chunk_end q)) 0 "desc" (key_rows db)
  = early q.
Proof. apply list_query_filter. Qed.

Lemma early_sorted q : StronglySorted (λ x y, member_time y <= member_time x) (early q).
Proof. apply StronglySorted_filter_b, children_sorted. Qed.

Lemma itr_early q : ordinary q → local_itr db q uri = (λ r, chunk_no_ r) <$> head (early q).
Proof.
  intros Hq. unfold local_itr, latest_before. rewrite found, (proj1 (chunk_time_end q Hq)). rewrite list_query_limit by done. rewrite early_query.
  unfold chunk_no. rewrite manifest_size. by destruct (early q).
Qed.

(** The newest child up to a chunk fixes what is up to it. *)
Lemma early_newest q r rest : early q = r :: rest → chunk_no_ r <= q ∧ early (chunk_no_ r) = early q.
Proof.
  intros He. assert (r ∈ early q) as Hr by (rewrite He; by left). apply elem_of_early in Hr as [Hr Hq].
  split; [done|]. apply filter_ext_b. intros x Hx. apply Bool.eq_iff_eq_true. rewrite !Z.ltb_lt.
  rewrite <- !child_chunk by done. split; [lia|]. intros Hxq.
  assert (x ∈ early q) as Hin by (by apply elem_of_early). rewrite He in Hin.
  pose proof (early_sorted q) as Hs. rewrite He in Hs. apply StronglySorted_inv in Hs as [_ Hf].
  apply chunk_no_mono; [by rewrite manifest_size|].
  apply elem_of_cons in Hin as [->|Hin]; [done|]. rewrite Forall_forall in Hf. by apply Hf.
Qed.

(** What is loaded: the newest children up to the chunk, without gaps, and all
    of the chunk and the one before. *)
Lemma body_early k r rest : early k = r :: rest → chunk_no_ r = k →
  ∃ pre post, LoadLocalBody db uri k = Ok (body_item <$> r :: pre) ∧ early k = (r :: pre) ++ post ∧
    Forall (λ x, chunk_no_ x < k) post.
Proof.
  intros He Hk. assert (r ∈ children) as Hr by (apply (elem_of_early k); rewrite He; by left).
  assert (∀ x, x ∈ early k → member_time x < chunk_end (k - 2) → chunk_no_ x < k) as Hold.
  { intros x [Hx _]%elem_of_early Ht%child_chunk; [lia|done]. }
  destruct (chunk_time_end k) as [Hend Hprev]; [rewrite <- Hk; by apply child_ordinary|].
  assert (chunk_end (k - 2) <= member_time r) as Hnew.
  { destruct (Z.lt_ge_cases (member_time r) (chunk_end (k - 2))) as [Hlt|]; [|done].
    pose proof (Hold r ltac:(rewrite He; by left) Hlt). lia. }
  unfold LoadLocalBody, GetRecordKeyByURI. rewrite found, Hend, Hprev. cbn [of_option mbind result_bind rbind].
  rewrite list_query_limit by done. rewrite early_query. change (Z.to_nat defaultChunkSize) with 32%nat.
  destruct (match last (take 32 (early k)) with Some r0 => member_time r0 <? chunk_end (k - 2) | None => false end) eqn:Hcov.
  - destruct (last (take 32 (early k))) as [f|] eqn:Hl; [|done]. apply Z.ltb_lt in Hcov.
    exists (take 31 rest), (drop 32 (early k)). rewrite He at 1 2. split; [done|]. split; [by rewrite He, <- (take_drop 31 rest) at 1|].
    apply Forall_forall. intros x Hx. apply Hold; [rewrite <- (take_drop 32); apply elem_of_app; by right|].
    pose proof (early_sorted k) as Hs. rewrite <- (take_drop 32) in Hs.
    apply last_Some_elem_of in Hl.
    pose proof (StronglySorted_app_1_elem_of _ _ _ _ _ Hs Hl Hx) as Hle. cbn in Hle. lia.
  - rewrite (list_query_filter db (λ r, dated_child (rk_ID parent) r && (member_time r <? chunk_end k))
      (λ r, chunk_end (k - 2) <=? member_time r)), early_query.
    pose proof (filter_split member_time (chunk_end (k - 2)) _ (early_sorted k)) as Hsplit.
    assert (List.filter (λ x, chunk_end (k - 2) <=? member_time x) (early k) =
      r :: List.filter (λ x, chunk_end (k - 2) <=? member_time x) rest) as Hhead
      by (rewrite He; cbn [List.filter]; by rewrite (proj2 (Z.leb_le _ _)) by done).
    rewrite Hhead in Hsplit |- *. eexists _, _. split; [reflexivity|]. split; [exact Hsplit|].
    apply Forall_forall. intros x [Hx Ht%Z.ltb_lt]%elem_of_filter_b. by apply Hold.
Qed.

(** The repository answers with chunks as the reader needs them. *)
Lemma local_answers q :
  answers (local_timeline db) (local_manifest db) uri q
    (match head (early q) with
     | Some r =>
         match LoadLocalBody db uri (chunk_no_ r) with Ok items => Some (mkBodyChunk uri (chunk_no_ r) items) | _ => None end
     | None => None
     end).
Proof.
  destruct (early q) as [|r rest] eqn:He; cbn [head].
  - cbn. by rewrite upto_early, He.
  - destruct (early_newest q r rest He) as [Hkq Heq]. rewrite <- Heq in He.
    destruct (body_early (chunk_no_ r) r rest He eq_refl) as (pre & post & -> & Hpp & Hpost).
    assert (∀ x, x ∈ post → x ∈ children) as Hin.
    { intros x Hx. apply (elem_of_early (chunk_no_ r)). rewrite Hpp. apply elem_of_app. by right. }
    assert (r ∈ children) as Hr by (apply (elem_of_early (chunk_no_ r)); rewrite He; by left).
    cbn [answers ChunkID]. split; [|split; [done|by rewrite !upto_early, Heq]]. split; cbn [Items ChunkID].
    + done.
    + exists (body_item <$> post). rewrite upto_early, Hpp, fmap_app. split; [done|].
      apply Forall_forall. intros b (x & -> & Hx)%list_elem_of_fmap. rewrite body_time by auto.
      rewrite Forall_forall in Hpost. by apply Hpost.
    + intros x [= <-]. by rewrite body_time.
Qed.

End Served.

(** ** A server's own timelines keep the reader's promise *)

Lemma traverse_all {A B} (f : A → result B) l (g : A → B) :
  (∀ a, a ∈ l → f a = Ok (g a)) → traverse f l = Ok (g <$> l).
Proof.
  induction l as [|a l IH]; cbn; intros Hf; [done|]. rewrite Hf by (by left). cbn.
  rewrite IH by (intros; apply Hf; by right). done.
Qed.

Section OwnServes.
Context (removed_items : string → list string) (db : DB) (uris : list string) (until : Z).

Record own_timeline (uri : string) : Prop := {
  ot_found : is_Some (record_keys db !! uri);
  ot_dated parent r : record_keys db !! uri = Some parent → r ∈ members db (rk_ID parent) →
    chunkSeconds * billion <= member_time r < 2 ^ 63;
}.
Context (own : ∀ uri, uri ∈ uris → own_timeline uri).

(** The times of [time.Time.UnixNano]. *)
Context (now : until < 2 ^ 63).

Notation chunk := (chunk_no (local_manifest db)).

Lemma own_manifest_ok uri : own_timeline uri → own_manifest db uri = Some (local_manifest db uri).
Proof. intros [[parent Hp] _]. unfold own_manifest. by rewrite (manifest_found db uri parent Hp). Qed.

(** The first chunk is that of the oldest child. *)
Lemma first_chunk uri parent : own_timeline uri → record_keys db !! uri = Some parent →
  match FirstChunk (local_manifest db uri) with
  | Some f => 1 <= f ∧ ∀ q, early db parent q = [] ↔ q < f
  | None => members db (rk_ID parent) = []
  end.
Proof.
  intros [_ Hd] Hp. specialize (Hd parent).
  unfold local_manifest, GetChunklineManifest, GetRecordKeyByURI. rewrite Hp.
  cbn [of_option mbind result_bind rbind FirstChunk]. rewrite list_query_limit by done.
  pose proof (list_query_sorted member_asc (dated_asc_total _ _) (dated_asc_trans _ _) (dated_child (rk_ID parent)) "asc"
    (key_rows db)) as Hs.
  assert (∀ r, r ∈ members db (rk_ID parent) ↔ r ∈ list_query member_asc (dated_child (rk_ID parent)) 0 "asc" (key_rows db)) as Hsame.
  { intros r. unfold members. by rewrite !list_query_all. }
  destruct (list_query member_asc (dated_child (rk_ID parent)) 0 "asc" (key_rows db)) as [|r rest];
    cbn [take head fmap option_fmap option_map Z.to_nat Pos.to_nat Pos.iter_op].
  - destruct (members db (rk_ID parent)) as [|r l]; [done|]. pose proof (proj1 (Hsame r) ltac:(by left)) as []%elem_of_nil.
  - assert (r ∈ members db (rk_ID parent)) as Hr by (apply Hsame; by left).
    assert (chunk uri (member_time r) = Z.quot (Unix (member_time r)) chunkSeconds) as Hf
      by (unfold chunk_no; by rewrite (manifest_size db uri parent Hp)).
    split; [rewrite <- Hf; by apply (child_chunk_pos db uri parent Hp); [intros; by apply Hd|]|].
    intros q. split; intros Hq.
    { destruct (Z.lt_ge_cases q (Z.quot (Unix (member_time r)) chunkSeconds)) as [?|Hge]; [done|].
      assert (r ∈ early db parent q) as Hin; [|rewrite Hq in Hin; by apply elem_of_nil in Hin].
      apply (elem_of_early db uri parent Hp); [intros; by apply Hd|]. split; [done|]. by rewrite Hf. }
    clear Hf. destruct (early db parent q) as [|x l] eqn:He; [done|exfalso].
    assert (x ∈ early db parent q) as Hx by (rewrite He; by left).
    apply (elem_of_early db uri parent Hp) in Hx as [Hx Hxq]; [|intros; by apply Hd].
    apply Hsame in Hx. apply StronglySorted_inv in Hs as [_ Hf].
    assert (member_time r <= member_time x) as Hle.
    { apply elem_of_cons in Hx as [->|Hx]; [done|]. rewrite Forall_forall in Hf. specialize (Hf x Hx).
      apply dated_asc_spec in Hf as [?|[? _]]; lia. }
    pose proof (chunk_no_mono (local_manifest db) uri _ _ ltac:(by rewrite (manifest_size db uri parent Hp)) Hle) as Hm.
    unfold chunk_no in Hm at 1. rewrite (manifest_size db uri parent Hp) in Hm. lia.
Qed.

Lemma chunk_small uri t : own_timeline uri → chunk uri t <= chunk uri until → chunk uri t < 2 ^ 50.
Proof.
  intros [[parent Hp] _] Ht. enough (chunk uri until < 2 ^ 50) by lia.
  enough (chunk uri until <= chunk uri (2 ^ 63)) by (assert (chunk uri (2 ^ 63) < 2 ^ 50); [|lia];
    unfold chunk_no; by rewrite (manifest_size db uri parent Hp)).
  apply chunk_no_mono; [by rewrite (manifest_size db uri parent Hp)|lia].
Qed.

Lemma ParseInt_iterator n : 1 <= n < 2 ^ 63 → in_list [""; "0"] (FormatInt n) = false.
Proof.
  intros Hn. pose proof (ParseInt_FormatInt n ltac:(lia)) as Hp.
  destruct (in_list _ _) eqn:Hin; [|done]. apply in_list_elem in Hin.
  apply elem_of_cons in Hin as [Heq|Hin]; [by rewrite Heq in Hp|].
  apply list_elem_of_singleton in Hin. rewrite Hin in Hp. injection Hp. lia.
Qed.

(** The endpoint's answer, as text. *)
Lemma itr_wire uri parent q : own_timeline uri → record_keys db !! uri = Some parent → ordinary q →
  handleChunklineItr db uri (FormatInt q) = (λ r, FormatInt (chunk uri (member_time r))) <$> head (early db parent q).
Proof.
  intros [_ Hd] Hp Hq. unfold handleChunklineItr. rewrite ParseInt_FormatInt by (unfold ordinary in Hq; lia).
  unfold LookupLocalItrs. rewrite lookup_map_of, decide_True by by left.
  rewrite (itr_early db uri parent Hp q Hq). by destruct (early db parent q).
Qed.

Lemma itr_wire_none uri parent text : record_keys db !! uri = Some parent → members db (rk_ID parent) = [] →
  handleChunklineItr db uri text = None.
Proof.
  intros Hp Hn. unfold handleChunklineItr. destruct (ParseInt text) as [c| |]; [|done..]. unfold LookupLocalItrs.
  rewrite lookup_map_of, decide_True by by left. unfold local_itr, latest_before. rewrite Hp.
  rewrite list_query_limit by done. rewrite list_query_filter. fold (members db (rk_ID parent)). by rewrite Hn.
Qed.

Lemma own_chunk uri t parent : own_timeline uri → record_keys db !! uri = Some parent → chunk uri t <= chunk uri until →
  own_itr db t uri = Ok ((λ r, FormatInt (chunk uri (member_time r))) <$> head (early db parent (chunk uri t))).
Proof.
  intros Hot Hp Ht. pose proof (chunk_small uri t Hot Ht) as Hsmall. pose proof Hot as [_ Hd].
  unfold own_itr, itr_query. rewrite lookup_map_of, decide_True by by left. rewrite (own_manifest_ok uri Hot).
  replace (Descending (local_manifest db uri)) with (Some (mkEndpoint
    ("/api/v2/chunkline/itr/{chunk}?uri=" +:+ Url.QueryEscape uri)
    ("/api/v2/chunkline/body/{chunk}?uri=" +:+ Url.QueryEscape uri)))
    by (unfold local_manifest, GetChunklineManifest, GetRecordKeyByURI; by rewrite Hp).
  cbn [Iterator]. cbn [String.append String.eqb Ascii.eqb Bool.eqb].
  unfold query_chunk, Time2Chunk. rewrite (manifest_size db uri parent Hp) at 1. cbn [chunkSeconds Z.eqb].
  replace (LastChunk (local_manifest db uri)) with (@None Z)
    by (unfold local_manifest, GetChunklineManifest, GetRecordKeyByURI; by rewrite Hp).
  cbn [mbind result_bind rbind]. fold (chunk uri t). f_equal.
  pose proof (first_chunk uri parent Hot Hp) as Hfirst.
  destruct (FirstChunk (local_manifest db uri)) as [f|].
  - destruct Hfirst as [Hf Hfirst]. destruct (Z.ltb_spec (chunk uri t) f) as [Hlt|Hge]; [by rewrite (proj2 (Hfirst _))|].
    rewrite (itr_wire uri parent) by (try done; unfold ordinary; lia).
    destruct (early db parent (chunk uri t)) as [|r rest] eqn:He; [done|]. cbn [head fmap option_fmap option_map].
    assert (r ∈ early db parent (chunk uri t)) as Hr by (rewrite He; by left).
    apply (elem_of_early db uri parent Hp) in Hr as [Hr _]; [|intros; by apply (Hd parent)].
    destruct (child_ordinary db uri parent Hp ltac:(intros; by apply (Hd parent)) r Hr).
    by rewrite ParseInt_iterator by lia.
  - rewrite (itr_wire_none uri parent) by done. unfold early. by rewrite Hfirst.
Qed.

Lemma own_body_ok uri k : own_timeline uri → 1 <= k < 2 ^ 63 →
  own_body db uri (FormatInt k) =
  match LoadLocalBody db uri k with Ok items => Some (mkBodyChunk uri k items) | _ => None end.
Proof.
  intros Hot Hk. unfold own_body, handleChunklineBody. rewrite !ParseInt_FormatInt by lia.
  by destruct (LoadLocalBody db uri k).
Qed.

(** A server answers for its own timelines as the reader needs. *)
#[local] Instance own_chunks_serve :
  @Serves (local_timeline db) (local_manifest db) DB (own_chunks removed_items) uris (λ tl l, l = removed_items tl) until (eq db).
Proof.
  split.
  - intros st <-. eexists _, db. split; [reflexivity|]. split; [done|]. intros tl Htl.
    rewrite lookup_map_of, decide_True by done. apply own_manifest_ok; auto.
  - intros st <-. eexists _, db. split; [reflexivity|]. split; [done|]. intros tl Htl.
    by rewrite lookup_map_of, decide_True.
  - intros tls t st <- Htls.
    assert (∃ g, ∀ tl, tl ∈ tls → own_itr db t tl = Ok (g tl)) as [g Hitr].
    { exists (λ tl, match own_itr db t tl with Ok i => i | _ => None end). intros tl [Hin Ht]%Htls.
      destruct (ot_found tl (own tl Hin)) as [parent Hp]. by rewrite (own_chunk tl t parent (own tl Hin) Hp Ht). }
    eexists _, db. split.
    { unfold getChunks. cbn [LookupChunkItrs LoadChunkBodies own_chunks]. unfold bindM.
      rewrite (traverse_all _ _ _ Hitr). cbn [rbind]. reflexivity. }
    split; [done|]. intros tl. rewrite map_lookup_imap, lookup_map_of.
    destruct (decide (tl ∈ tls)) as [Hin|]; [|done].
    destruct (Htls tl Hin) as [Hu Ht]. pose proof (own tl Hu) as Hot. pose proof Hot as [[parent Hp] Hd].
    assert (∀ r, r ∈ members db (rk_ID parent) → chunkSeconds * billion <= member_time r < 2 ^ 63) as Hdp
      by (intros; by apply (Hd parent)).
    pose proof (local_answers db tl parent Hp Hdp (chunk tl t)) as Hans.
    rewrite (own_chunk tl t parent Hot Hp Ht).
    destruct (early db parent (chunk tl t)) as [|r rest] eqn:He; cbn [head fmap option_fmap option_map mbind option_bind] in *;
      [done|].
    assert (r ∈ early db parent (chunk tl t)) as [Hr _]%(elem_of_early db tl parent Hp Hdp) by (rewrite He; by left).
    destruct (child_ordinary db tl parent Hp Hdp r Hr). rewrite own_body_ok by (done || lia). exact Hans.
Qed.

Lemma own_timelines_ok tl : tl ∈ uris → timeline_ok (local_timeline db) (local_manifest db) tl.
Proof.
  intros Htl. destruct (own tl Htl) as [[parent Hp] Hd].
  apply (local_timeline_ok db tl parent Hp). intros. by apply (Hd parent).
Qed.

(** C26: a page of a server's own timelines that is not full holds all that is
    left of them, when fewer than five hundred of their items are eligible and
    none of them is hidden: no timeline fills its chunk of [until] with items as
    new as [until] while an older item is left. *)
Theorem own_page_complete `{XXH3, MapOrder} limit :
  (∀ tl, tl ∈ uris → reaches_back (local_timeline db) (local_manifest db) until tl) →
  (2 * sum_list_with (λ tl, length (eligible (local_timeline db) until tl)) uris < itrlimit)%nat →
  ∃ result, QueryDescending (H := own_chunks removed_items) uris until limit db = (Ok result, db) ∧
    (Z.of_nat (length result) < limit →
     ∀ tl x, tl ∈ uris → x ∈ eligible (local_timeline db) until tl → ID x ∉ removed_items tl →
     ID x ∈ (λ r, ID (bs_Item r)) <$> result).
Proof.
  intros Hback Hsum.
  destruct (merged_page (local_timeline db) (local_manifest db) uris _ until own_timelines_ok
    (ChunkResolver0 := own_chunks removed_items) (eq db) limit db eq_refl Hback)
    as (result & removed & st & Hq & <- & Hrem & _ & Hall).
  exists result. split; [exact Hq|]. intros Hlen tl x Hu Hx Hn. apply (Hall Hsum Hlen tl); [done|done|]. by rewrite Hrem.
Qed.

End OwnServes.

(** *** Two timelines *)

Definition timeline_key (id : nat) : RecordKey := mkRecordKey id None None None false.
Definition post_key (id parent : nat) (second : Z) : RecordKey :=
  mkRecordKey id (Some parent) (Some "doc") (Some (second * billion)) false.
Definition example_keys : gmap string RecordKey := {[
  "cckv://a/home" := timeline_key 1; "cckv://a/notes" := timeline_key 2;
  "cckv://a/home/1" := post_key 3 1 601; "cckv://a/home/2" := post_key 4 1 1260;
  "cckv://a/home/3" := post_key 5 1 6010; "cckv://a/home/4" := post_key 6 1 6030;
  "cckv://a/notes/1" := post_key 7 2 5990 ]}.
Definition example_timelines : DB := mkDB ∅ ∅ example_keys 8 ∅ ∅ ∅ ∅.
Definition two_timelines : list string := ["cckv://a/home"; "cckv://a/notes"].
Definition none_removed (_ : string) : list string := [].
Definition example_until : Z := 6020 * billion.
Definition any_hash : XXH3 := λ _, "".

#[local] Instance key_order : MapOrder.
Proof. exists (λ m, map_to_list m). done. Defined.

Definition own_timelineb (db : DB) (uri : string) : bool :=
  match record_keys db !! uri with
  | Some parent => forallb (λ r, (chunkSeconds * billion <=? member_time r) && (member_time r <? 2 ^ 63)) (members db (rk_ID parent))
  | None => false
  end.

Lemma own_timelineb_ok db uri : own_timelineb db uri = true → own_timeline db uri.
Proof.
  unfold own_timelineb. intros Ho. destruct (record_keys db !! uri) as [parent|] eqn:Hp; [|done]. split; [by eauto|].
  intros ? r Hk Hr. rewrite Hp in Hk. injection Hk as <-. rewrite forallb_forall in Ho.
  assert (r ∈ members db (rk_ID parent)) as [? ?]%list_elem_of_In%Ho%andb_true_iff by done. by rewrite Z.leb_le, Z.ltb_lt in *.
Qed.

Definition reaches_backb (timeline : list BodyItem) (m : Manifest) (until : Z) : bool :=
  let now := λ x, Z.quot (Unix (Timestamp x)) (ChunkSize m) =? Z.quot (Unix until) (ChunkSize m) in
  negb (existsb (λ x, (until <=? Timestamp x) && now x) timeline) ||
  existsb (λ x, (Timestamp x <? until) && now x) timeline.

Lemma reaches_backb_ok timeline manifest_of until tl :
  reaches_backb (timeline tl) (manifest_of tl) until = true → reaches_back timeline manifest_of until tl.
Proof.
  unfold reaches_backb. intros [Hn|He]%orb_true_iff (x & Hx & Hge & Hk) _.
  - apply negb_true_iff in Hn. exfalso. enough (existsb (λ x, (until <=? Timestamp x) &&
      (Z.quot (Unix (Timestamp x)) (ChunkSize (manifest_of tl)) =? Z.quot (Unix until) (ChunkSize (manifest_of tl))))
      (timeline tl) = true) by congruence.
    apply existsb_exists. exists x. split; [by apply list_elem_of_In|]. apply andb_true_iff. by rewrite Z.leb_le, Z.eqb_eq.
  - apply existsb_exists in He as (y & Hy & [Hlt%Z.ltb_lt Hyk%Z.eqb_eq]%andb_true_iff). exists y.
    split_and!; [by apply list_elem_of_In|done|done].
Qed.

Lemma example_own uri : uri ∈ two_timelines → own_timeline example_timelines uri.
Proof.
  intros Hin. apply own_timelineb_ok. apply elem_of_cons in Hin as [->|Hin]; [vm_compute; reflexivity|].
  apply list_elem_of_singleton in Hin as ->. vm_compute. reflexivity.
Qed.

Lemma example_back tl : tl ∈ two_timelines →
  reaches_back (local_timeline example_timelines) (local_manifest example_timelines) example_until tl.
Proof.
  intros Hin. apply reaches_backb_ok. apply elem_of_cons in Hin as [->|Hin]; [vm_compute; reflexivity|].
  apply list_elem_of_singleton in Hin as ->. vm_compute. reflexivity.
Qed.

Lemma own_page_complete_witness :
  ∃ result, QueryDescending (H := own_chunks none_removed) (H0 := any_hash) two_timelines example_until 10 example_timelines
      = (Ok result, example_timelines) ∧
    (Href ∘ bs_Item) <$> result = ["cckv://a/home/3"; "cckv://a/notes/1"; "cckv://a/home/2"; "cckv://a/home/1"] ∧
    (Z.of_nat (length result) < 10 →
     ∀ tl x, tl ∈ two_timelines → x ∈ eligible (local_timeline example_timelines) example_until tl →
     ID (H := any_hash) x ∉ none_removed tl → ID (H := any_hash) x ∈ (λ r, ID (H := any_hash) (bs_Item r)) <$> result).
Proof.
  destruct (own_page_complete none_removed example_timelines two_timelines example_until example_own
    ltac:(vm_compute; reflexivity) (H := any_hash) 10 example_back) as (result & Hq & Hall).
  - unfold itrlimit. vm_compute. lia.
  - exists result. split; [exact Hq|]. split; [|exact Hall].
    assert (fst (QueryDescending (H := own_chunks none_removed) (H0 := any_hash) two_timelines example_until 10 example_timelines)
      = Ok result) as He by (rewrite Hq; reflexivity).
    clear Hq Hall. vm_compute in He. injection He as <-. reflexivity.
Defined.

Lemma QueryDescending_page_witness :
  ∃ result removed st', QueryDescending (H := own_chunks none_removed) (H0 := any_hash) two_timelines example_until 2
      example_timelines = (Ok result, st') ∧ example_timelines = st' ∧
    (∀ tl, tl ∈ two_timelines → removed tl = none_removed tl) ∧
    page_of (local_timeline example_timelines) (H := any_hash) two_timelines removed example_until 2 result ∧
    ((2 * sum_list_with (λ tl, length (eligible (local_timeline example_timelines) example_until tl)) two_timelines < itrlimit)%nat →
     Z.of_nat (length result) < 2 →
     ∀ tl x, tl ∈ two_timelines → x ∈ eligible (local_timeline example_timelines) example_until tl →
     ID (H := any_hash) x ∉ removed tl → ID (H := any_hash) x ∈ (λ r, ID (H := any_hash) (bs_Item r)) <$> result).
Proof.
  exact (QueryDescending_page (local_timeline example_timelines) (local_manifest example_timelines) (H := any_hash)
    two_timelines (λ tl l, l = none_removed tl) example_until (own_timelines_ok example_timelines two_timelines example_own)
    (ChunkResolver0 := own_chunks none_removed) (eq example_timelines)
    (Serves0 := own_chunks_serve none_removed example_timelines two_timelines example_until example_own
      ltac:(vm_compute; reflexivity)) 2 example_timelines eq_refl example_back).
Defined.

(** *** A busy chunk

    Thirty-two items fill the chunk of [until] and all are newer than it; the
    chunk before is empty.  The reader skips the timeline instead of asking for
    the chunk before, and its page is empty although an older item exists. *)

Definition busy_keys : gmap string RecordKey :=
  <["cckv://a/home" := timeline_key 1]> (<["cckv://a/home/old" := post_key 2 1 700]>
    (list_to_map ((λ i, ("cckv://a/home/" +:+ FormatInt (Z.of_nat i), post_key (3 + i) 1 (6100 + Z.of_nat i))) <$> seq 0 32))).
Definition busy_timeline : DB := mkDB ∅ ∅ busy_keys 40 ∅ ∅ ∅ ∅.

Example busy_chunk_hides :
  own_timelineb busy_timeline "cckv://a/home" = true ∧
  Href <$> eligible (local_timeline busy_timeline) (6050 * billion) "cckv://a/home" = ["cckv://a/home/old"] ∧
  QueryDescending (H := own_chunks none_removed) (H0 := any_hash) ["cckv://a/home"] (6050 * billion) 10 busy_timeline
    = (Ok [], busy_timeline).
Proof. split_and!; vm_compute; reflexivity. Qed.
