(* ===== verification/Commit.v ===== *)
(** * Commit: accepting documents ([src/internal/usecase/record])

    [Commit] ([commit.go]) checks a signed document, resolves its author and
    runs the handler of its kind in a transaction: [saveEntity] ([entity.go]),
    [createRecord] ([record.go]), [createAssociation] ([association.go]),
    [processAck] ([ack.go]) and [deleteRecord] ([delete.go]).  A handler that
    applies nothing, or fails, leaves the database as it was.  Resolving an
    entity can commit the document a hint serves, so the handlers take the
    commit function and [Commit] ties the knot with fuel. *)

From S2P Require Import Prelude Bytes Url KeyUri Cdid Ccuri Documents Verify PolicyValues Store Queries Effects Tags Usecase.
From stdpp Require Import prelude strings gmap list sorting.
From Stdlib Require Import ZArith Lia Ascii.
Open Scope Z_scope.
Open Scope uc_scope.

Definition trim_prefix_of (prefix s : string) : string := Str.trim_prefix s prefix.

(** [strings.Contains(s, "*")]. *)
Definition has_star (s : string) : bool := Str.contains_char s "*".

(** [slices.Sort]. *)
Definition str_le (x y : string) : Prop := String.leb x y = true.
#[local] Instance str_le_dec : RelDecision str_le.
Proof. intros x y. unfold str_le. apply _. Defined.
Definition sort_strings (l : list string) : list string := merge_sort str_le l.

Record commitApplyResult : Type := mkApplied {
  ap_result : SignedDocument;
  ap_postProcesses : list PostProcessAction;
  ap_noop : bool;
}.

Definition noop_result (sd : SignedDocument) : commitApplyResult := mkApplied sd [] true.
Definition with_cckv (sd : SignedDocument) (cckv : option string) : SignedDocument :=
  mkSignedDocument cckv (CCFS sd) (sd_Document sd) (sd_Proof sd) (References sd) (IsPublic sd).
Definition with_ccfs (sd : SignedDocument) (ccfs : option string) : SignedDocument :=
  mkSignedDocument (CCKV sd) ccfs (sd_Document sd) (sd_Proof sd) (References sd) (IsPublic sd).

(** [CCURI{Scheme: "ccfs", ...}.String()]. *)
Definition ccfs_uri (owner documentID : string) : string :=
  Ccuri.String (mkCCURI "ccfs" owner "" CCFSTypeConcrnt documentID None "").

Definition distributionsFromPtr (d : option (list string)) : list string := default [] d.

(** [cdid.MakeHash([]byte(href)).String()]. *)
Definition ref_segment `{Keccak} (href : string) : string :=
  Cdid.String (Cdid.NewFromHash (take 15 (GetHash href))).

Section Commits.
Context `{Url.NetIP} `{Json} `{Keccak} `{Secp256k1} `{StoreCodec} `{Orm} `{Env} `{PolicyEval}.

(** ** Guards of [Commit] *)

Definition check_alias_owner (field uri : string) : result unit :=
  match ParseCCURI uri with
  | Ok parsed =>
      if Str.has_prefix (Ccuri.Owner parsed) "@"
      then Err (ValidationError field "alias-form owners are not allowed in commits") else Ok tt
  | Err _ => Ok tt
  | Panic => Panic
  end.

Fixpoint check_all (field : string) (uris : list string) : result unit :=
  match uris with
  | [] => Ok tt
  | uri :: uris => rbind (check_alias_owner field uri) (λ _, check_all field uris)
  end.

Definition rejectAliasOwners (doc : Document any_) : result unit :=
  rbind (if negb (String.eqb (Key doc) "") then check_alias_owner "key" (Key doc) else Ok tt) (λ _,
  rbind (match Associate doc with Some a => check_alias_owner "associate" a | None => Ok tt end) (λ _,
  rbind (if String.eqb (Kind doc) "delete" then
           match Value doc with
           | AStr target => check_alias_owner "value" (Str.trim_suffix (Str.trim_suffix target "*") "/")
           | _ => Ok tt
           end
         else Ok tt) (λ _,
  check_all "distributes" (distributionsFromPtr (Distributes doc))))).

Definition is_acked_kind (kind : string) : bool := String.eqb kind "acked" || String.eqb kind "unacked".

Definition allowed_proofs (kind : string) : option (list string) :=
  if is_acked_kind kind then Some [ProofTypeDocumentDirect]
  else if String.eqb kind "entity" then Some [ProofTypeEcrecover]
  else None.

(** The field error a failed verification is joined with. *)
Definition proof_error (kind proofType : string) (e : error) : error :=
  if is_none_proof_not_allowed e then
    Joined (ValidationError "proof.type" "none proof type is only allowed for system service accounts") e
  else if String.eqb kind "entity" && is_proof_type_not_allowed e then
    Joined (ValidationError "proof.type" ("entity documents must be signed with " +:+ ProofTypeEcrecover)) e
  else if is_acked_kind kind && is_proof_type_not_allowed e then
    Joined (ValidationError "proof.type" ("acked/unacked documents must carry a " +:+ ProofTypeDocumentDirect +:+ " proof")) e
  else if is_unsupported_proof_type e then
    Joined (ValidationError "proof.type" ("unsupported proof type: " +:+ proofType)) e
  else Joined (ValidationError "proof" "signature verification failed") e.

(** The owner of a URI is the authenticated requester. *)
Definition owned_by (uri id : string) : bool :=
  match ParseCCURI uri with Ok parsed => String.eqb (Ccuri.Owner parsed) id | _ => false end.

(** Entities and ackeds are always exempt from the backdate window; on a replay
    so is what the requester authored or owns. *)
Definition backdate_exempt (ctx : Ctx) (mode : CommitMode) (doc : Document any_) : bool :=
  String.eqb (Kind doc) "entity" || is_acked_kind (Kind doc) ||
  (bool_decide (mode = CommitModeLocalOnlyExecute) &&
   match ctx_requester ctx with
   | Some who =>
       String.eqb (Author doc) (e_ID who) ||
       (negb (String.eqb (Key doc) "") && owned_by (Key doc) (e_ID who)) ||
       match Associate doc with Some a => owned_by a (e_ID who) | None => false end
   | None => false
   end).

(** The checks a service account skips. *)
Definition check_signed (ctx : Ctx) (mode : CommitMode) (sd : SignedDocument) (doc : Document any_) : result unit :=
  if ctx_system ctx then Ok tt
  else
    match VerifyWithProofTypes resolver sd (allowed_proofs (Kind doc)) with
    | Err e => Err (proof_error (Kind doc) (pr_Type (sd_Proof sd)) e)
    | Panic => Panic
    | Ok _ =>
        if negb (backdate_exempt ctx mode doc) && (CreatedAt doc <? now - MaxBackdate) then
          Err (ValidationError "createdAt" "createdAt is older than the allowed backdate window")
        else Ok tt
    end.

(** The owner of the key or, before it, of the associate. *)
Definition target_user (doc : Document any_) : result string :=
  rbind (if negb (String.eqb (Key doc) "") then rbind (ParseCCURI (Key doc)) (λ p, Ok (Ccuri.Owner p)) else Ok "") (λ t,
  match Associate doc with
  | Some a => rbind (ParseCCURI a) (λ p, Ok (Ccuri.Owner p))
  | None => Ok t
  end).

(** The users whose [.concrnt/blocking] list names the user, from the cache. *)
Definition getBlockingUsers (userID : string) : M (list string) :=
  let* cached := getsM (λ st, st_blocking st !! userID) in
  match cached with
  | Some ids => retM ids
  | None =>
      let blockingKey := ComposeCCURI "cckv" userID ".concrnt/blocking" in
      let* rows := readM (λ db, QueryByParent db blockingKey "" "" None None 0 "") in
      let* ids := liftM (traverse (λ row, match CCKV (Row row) with
                                        | Some uri => Ok (trim_prefix_of (blockingKey +:+ "/") uri)
                                        | None => Panic
                                        end) rows) in
      (λ st, (Ok ids, set_blocking st (<[userID := ids]> (st_blocking st))))
  end.

Definition check_block (doc : Document any_) (targetUserID : string) : M unit :=
  if negb (String.eqb targetUserID "") && negb (String.eqb targetUserID (Author doc)) &&
     negb (is_acked_kind (Kind doc)) then
    let* blocking := getBlockingUsers (Author doc) in
    checkM (negb (in_list blocking targetUserID)) (GoError "operation blocked due to user block relationship")
  else retM tt.

(** ** Transactions *)

Definition tx_commit_log (id ip : string) (sd : SignedDocument) (owner : string) : M unit :=
  tx_exec (λ db, rbind (CreateCommitLog db now id ip (sd_Document sd) (sd_Proof sd) owner) (λ db, Ok (tt, db))).

Section Handlers.
Context (commit : string → SignedDocument → CommitMode → M SignedDocument) (ctx : Ctx).

(** ** Reference distribution ([deliver.go]) *)

Definition reference_document (author key href : string) : Document any_ :=
  mkDocument "record" key (AMap {["href" := AStr href]}) author ReferenceURL now None None None None None.

(** One destination's job; a path that cannot be joined is skipped. *)
Definition distribution_action (ip author href : string) (requester : Entity) (requesterSD sd : SignedDocument)
    (destURI : string) : result (option PostProcessAction) :=
  match Url.JoinPath destURI (ref_segment href) with
  | Err _ => Ok None
  | Panic => Panic
  | Ok key =>
      rbind (marshal_document (reference_document author key href)) (λ doc,
      let refs := <[href := sd]> {[entity_CCKV requester := requesterSD]} in
      let proof := mkProof ProofTypeDocumentReference None (Some href) None None None in
      Ok (Some (EnqueueJob (mkDeliveryJob destURI "" (mkSignedDocument None None doc proof refs None)
        DeliveryLocalCommit DeliveryRemoteCommit None ip))))
  end.

(** [*requesterSD]. *)
Definition derefM {A} (o : option A) : M A := match o with Some a => retM a | None => panicM end.

Definition createReferenceDistributionActions (ip author href : string) (requester : Entity) (sd : SignedDocument)
    (destinations : list string) (mode : CommitMode) : M (list PostProcessAction) :=
  if negb (bool_decide (mode = CommitModeExecute)) || bool_decide (destinations = []) then retM []
  else
    let* requesterSD := GetSigned commit ctx (CCKVWithHint requester) in
    let* requesterSD := derefM requesterSD in
    let* actions := liftM (traverse (distribution_action ip author href requester requesterSD sd) destinations) in
    retM (omap id actions).

(** ** Entities ([entity.go]) *)

(** The TXT records of the alias name the author. *)
Definition alias_verified (author : string) (records : list string) : bool :=
  existsb (λ record, match ParseCCURI record with Ok p => String.eqb (Ccuri.Owner p) author | _ => false end) records.

(** Layer and blocking of the entity's server; a none-proof entity skips it. *)
Definition check_entity_domain (proofType dom : string) : result unit :=
  if String.eqb proofType ProofTypeNone then Ok tt
  else
    match resolve_server dom with
    | Err e => Err (Joined (ValidationError "value.domain" "failed to resolve the entity's domain") e)
    | Panic => Panic
    | Ok (layer, tag) =>
        if negb (String.eqb layer Layer) then
          Err (ValidationError "value.domain" "the entity's domain is on a different layer")
        else if Has (ParseTags tag) "_blocked" then
          Err (ValidationError "value.domain" "the entity's domain is blocked")
        else Ok tt
    end.

Definition check_entity_alias (author : string) (alias : option string) : result unit :=
  match alias with
  | None => Ok tt
  | Some alias =>
      let name := "_concrnt." +:+ alias in
      match LookupTXT name with
      | Err _ => Err (GoError ("alias ownership verification failed: TXT record not found for " +:+ name))
      | Panic => Panic
      | Ok records =>
          if alias_verified author records then Ok tt
          else Err (GoError ("alias ownership verification failed: no valid TXT record found for " +:+ name))
      end
  end.

Definition saveEntity (ip : string) (sd : SignedDocument) : M commitApplyResult :=
  let* entity := liftM (unmarshal_typed decode_entity (sd_Document sd)) in
  let dom := ent_Domain (Value entity) in
  liftM (check_entity_domain (pr_Type (sd_Proof sd)) dom) ;;
  let* registered := getsM (λ st, is_ok (GetMeta st (Author entity))) in
  checkM (negb (String.eqb dom FQDN) || registered) (GoError "user is not registered for this domain") ;;
  liftM (check_entity_alias (Author entity) (ent_Alias (Value entity))) ;;
  let* documentID := liftM (CDID_ sd) in
  tx_commit_log documentID ip sd (Author entity) ;;
  let* applied := tx_exec (λ db, CreateEntity db (Author entity) (ent_Alias (Value entity)) dom documentID
                                   (CreatedAt entity)) in
  retM (if (applied : bool) then mkApplied sd [] false else noop_result sd).

(** ** Records ([record.go]) *)

(** The action and the document the policy sees: an update of what the key holds. *)
Definition record_policy_self (db : DB) (parsed : Document any_) : result (string * Document any_) :=
  match Store.GetSignedDocument db (Key parsed) with
  | Ok existing => rbind (unmarshal_document (sd_Document existing)) (λ doc, Ok ("record:update", doc))
  | Err e => if is_not_found e then Ok ("record:create", parsed) else Err e
  | Panic => Panic
  end.

Definition check_record_key (key : CCURI) : result unit :=
  if negb (String.eqb (Ccuri.Scheme key) "cckv") then
    Err (GoError "invalid key: document key scheme must be cckv")
  else if has_star (Ccuri.Key key) then Err (ValidationError "key" "record key must not contain '*'")
  else if String.eqb (Ccuri.Key key) "" then Err (ValidationError "key" "record key must not be empty")
  else if (MaxRecordKeySize <? Str.len (Ccuri.Key key))%nat then
    Err (ValidationError "key" "record key exceeds the maximum size of 1024 bytes")
  else Ok tt.

(** Schema, time and redirect a record is listed under: those of the document a
    reference points to, when it is inlined or described. *)
Definition record_columns (parsed : Document any_) (sd : SignedDocument) : result (string * Z * option string) :=
  if String.eqb (Schema parsed) ReferenceURL then
    rbind (unmarshal_typed decode_reference (sd_Document sd)) (λ refDoc,
    let ref := Value refDoc in
    match References sd !! ref_Href ref with
    | Some refSD =>
        rbind (unmarshal_document (sd_Document refSD)) (λ targetDoc,
        Ok (Schema targetDoc, CreatedAt targetDoc, Some (ref_Href ref)))
    | None =>
        Ok (default (Schema parsed) (ref_Schema ref), default (CreatedAt parsed) (ref_CreatedAt ref), Some (ref_Href ref))
    end)
  else Ok (Schema parsed, CreatedAt parsed, None).

Definition created_event (uri : string) (sd : SignedDocument) (createdAt : Z) : Event :=
  mkEvent "created" "" uri None {[uri := sd]} createdAt.

Definition createRecord (ip : string) (requester : Entity) (parsed : Document any_) (sd : SignedDocument)
    (mode : CommitMode) : M commitApplyResult :=
  let* stack := readM (λ db, policies_of db (Key parsed)) in
  let* self := readM (λ db, record_policy_self db parsed) in
  liftM (policy_eval requester (snd self) stack (fst self) (Key parsed)) ;;
  let* parsedKey := liftM (ParseCCURI (Key parsed)) in
  liftM (check_record_key parsedKey) ;;
  let* policies := liftM (match doc_Policy parsed with
                          | Some p => rbind (marshal_policy p) (λ s, Ok (Some s))
                          | None => Ok None
                          end) in
  let* columns := liftM (record_columns parsed sd) in
  let '(schema, createdAt, redirect) := columns in
  let* documentID := liftM (CDID_ sd) in
  tx_commit_log documentID ip sd (Ccuri.Owner parsedKey) ;;
  let* applied := tx_exec (λ db, CreateRecord (key_fuel (Key parsed)) db documentID (Key parsed) (Ccuri.Owner parsedKey)
    (Author parsed) schema (OnUpdate parsed) policies (distributionsFromPtr (Distributes parsed)) redirect createdAt) in
  if negb applied then retM (noop_result sd)
  else
    let* actions := match Distributes parsed with
      | Some dests => createReferenceDistributionActions ip (Author parsed) (Key parsed) requester sd dests mode
      | None => retM []
      end in
    (* the closure publishes the document with the addresses set below *)
    let final := with_ccfs (with_cckv sd (Some (Key parsed))) (Some (ccfs_uri (Ccuri.Owner parsedKey) documentID)) in
    let published :=
      if bool_decide (mode = CommitModeExecute)
      then [PublishMarked (Key parsed) (created_event (Key parsed) final createdAt)] else [] in
    retM (mkApplied final (published ++ actions) false).

(** ** Associations ([association.go]) *)

(** What makes an association the same one: target, author, schema, variant and body. *)
Definition association_unique (target : string) (parsed : Document any_) : result string :=
  rbind (marshal_value (Value parsed)) (λ body,
  Ok (xxh3_hex (target +:+ Author parsed +:+ Schema parsed +:+ default "" (AssociationVariant parsed) +:+ body))).

Definition check_association (parsed : Document any_) : result unit :=
  if negb (String.eqb (Key parsed) "") then
    Err (ValidationError "key" "association documents must not have a key")
  else if (MaxAssociationVariantSize <? Str.len (default "" (AssociationVariant parsed)))%nat then
    Err (ValidationError "associationVariant" "associationVariant exceeds the maximum size of 512 bytes")
  else Ok tt.

(** The target document and the channels to tell: from the store, or the copy
    the commit inlines, which must verify. *)
Definition association_channels (db : DB) (target : string) (sd : SignedDocument)
    : result (SignedDocument * list string) :=
  match Store.GetSignedDocument db target with
  | Ok targetSD => rbind (GetDistributions db target) (λ dists, Ok (targetSD, target :: dists))
  | Err _ =>
      match References sd !! target with
      | None => Err (GoError "target document not found in references")
      | Some targetSD =>
          match Verify resolver targetSD with
          | Err e => Err (Joined (GoError "target document failed signature verification") e)
          | Panic => Panic
          | Ok _ =>
              rbind (unmarshal_document (sd_Document targetSD)) (λ targetDoc,
              Ok (targetSD, target :: distributionsFromPtr (Distributes targetDoc)))
          end
      end
  | Panic => Panic
  end.

Definition associated_event (target ccfs : string) (sd : SignedDocument) : Event :=
  mkEvent "associated" "" target (Some ccfs) {[ccfs := sd]} now.

Definition association_action (requester : Entity) (requesterSD targetSD sd : SignedDocument)
    (target ccfs : string) (remote : DeliveryRemoteKind) (channel : string) : PostProcessAction :=
  EnqueueMarked
    (mkDeliveryJob channel ""
       (mkSignedDocument None None (sd_Document sd) (sd_Proof sd)
          (<[target := targetSD]> {[entity_CCKV requester := requesterSD]}) None)
       DeliveryLocalPublish remote None "")
    (associated_event target ccfs (with_ccfs sd (Some ccfs))).

(** The part only the target's server does: the row, and the distribution. *)
Definition association_local (ip : string) (requester : Entity) (parsed : Document any_) (sd : SignedDocument)
    (mode : CommitMode) (target owner documentID ccfs : string) : M (bool * list PostProcessAction) :=
  let* unique := liftM (association_unique target parsed) in
  tx_commit_log documentID ip sd owner ;;
  let* applied := tx_exec (λ db, CreateAssociation db documentID target owner (Author parsed) (Schema parsed)
                             (AssociationVariant parsed) unique (CreatedAt parsed)) in
  if negb applied then retM (false, [])
  else
    let* actions := createReferenceDistributionActions ip (Author parsed) ccfs requester sd
                      (distributionsFromPtr (Distributes parsed)) mode in
    retM (true, actions).

Definition createAssociation (ip : string) (requester : Entity) (parsed : Document any_) (sd : SignedDocument)
    (mode : CommitMode) : M commitApplyResult :=
  liftM (check_association parsed) ;;
  let* target := derefM (Associate parsed) in
  let* stack := readM (λ db, policies_of db target) in
  liftM (policy_eval requester parsed stack (policyCreateAction parsed) target) ;;
  let* targetURI := liftM (ParseCCURI target) in
  checkM (String.eqb (Ccuri.Scheme targetURI) "cckv")
    (GoError "invalid associate: document associate scheme must be cckv") ;;
  let* documentID := liftM (CDID_ sd) in
  let owner := Ccuri.Owner targetURI in
  let ccfs := ccfs_uri owner documentID in
  let* isLocal := IsLocalEntityByCCID commit owner in
  let* requesterSD := GetSigned commit ctx (CCKVWithHint requester) in
  let* local := (if (isLocal : bool) then association_local ip requester parsed sd mode target owner documentID ccfs
                 else retM (true, [])) in
  if negb (fst local) then retM (noop_result sd)
  else
    let* signals :=
      (if bool_decide (mode = CommitModeExecute) then
         let* channels := readM (λ db, association_channels db target sd) in
         let* requesterSD := derefM requesterSD in
         let remote := if (isLocal : bool) then DeliveryRemoteCommit else DeliveryRemoteNone in
         retM (map (association_action requester requesterSD (fst channels) sd target ccfs remote) (snd channels))
       else retM []) in
    retM (mkApplied (with_ccfs sd (Some ccfs)) (snd local ++ signals) false).

(** ** Acks ([ack.go]) *)

Definition is_ack_kind (kind : string) : bool := String.eqb kind "ack" || String.eqb kind "unack".

(** The acker's side: the state, the reference distribution and the derived
    acked document, which is shipped when the commit executes. *)
Definition ack_side (ip : string) (from to_ : Entity) (doc : Document any_) (sd : SignedDocument)
    (documentID : string) (mode : CommitMode) : M commitApplyResult :=
  let* created := tx_exec (λ db,
    (if String.eqb (Kind doc) "ack" then Acknowledge else UnAcknowledge)
      db documentID (e_ID from) (e_ID to_) (Schema doc) (CreatedAt doc)) in
  let ccfs := ccfs_uri (e_ID from) documentID in
  let sd := with_ccfs sd (Some ccfs) in
  let* actions := createReferenceDistributionActions ip (Author doc) ccfs from sd
                    (distributionsFromPtr (Distributes doc)) mode in
  let* ackedSD := liftM (DeriveAcked sd) in
  let* shipped :=
    (if bool_decide (mode = CommitModeExecute) then
       let* fromSD := GetSigned commit ctx (CCKVWithHint from) in
       let* fromSD := derefM fromSD in
       retM [EnqueueJob (mkDeliveryJob (CCKVWithHint to_) "" (with_references ackedSD {[entity_CCKV from := fromSD]})
               DeliveryLocalCommit DeliveryRemoteCommit None ip)]
     else retM []) in
  retM (mkApplied sd (actions ++ shipped) (negb created)).

(** The target's side. *)
Definition acked_side (from to_ : Entity) (doc : Document any_) (sd : SignedDocument) (documentID : string)
    : M commitApplyResult :=
  let* created := tx_exec (λ db,
    (if String.eqb (Kind doc) "acked" then Acknowledged else UnAcknowledged)
      db documentID (e_ID from) (e_ID to_) (Schema doc) (CreatedAt doc)) in
  retM (mkApplied (with_ccfs sd (Some (ccfs_uri (e_ID to_) documentID))) [] (negb created)).

Definition processAck (ip : string) (from to_ : Entity) (doc : Document any_) (sd : SignedDocument)
    (mode : CommitMode) : M commitApplyResult :=
  let* documentID := liftM (CDID_ sd) in
  (if is_ack_kind (Kind doc) then tx_commit_log documentID ip sd (e_ID from)
   else if is_acked_kind (Kind doc) then tx_commit_log documentID ip sd (e_ID to_)
   else retM tt) ;;
  if IsLocalEntity from && is_ack_kind (Kind doc) then ack_side ip from to_ doc sd documentID mode
  else if IsLocalEntity to_ && is_acked_kind (Kind doc) then acked_side from to_ doc sd documentID
  else retM (noop_result sd).

(** ** Deletes ([delete.go]) *)

Definition value_error (msg : string) : error := ValidationError "value" msg.

(** base, includeSelf, isRange. *)
Definition parseRangeDeleteTarget (targetURI : string) : result (string * bool * bool) :=
  if negb (Str.has_suffix targetURI "*") then Ok (targetURI, false, false)
  else
    let '(base, includeSelf) :=
      if Str.has_suffix targetURI "/*" then (Str.trim_suffix targetURI "/*", false)
      else (Str.trim_suffix targetURI "*", true) in
    if has_star base then Err (value_error "'*' is only allowed as a trailing range sentinel in a delete target")
    else
      match ParseCCURI base with
      | Err e => Err (value_error ("invalid range delete target: " +:+ error_text e))
      | Panic => Panic
      | Ok parsed =>
          if negb (String.eqb (Ccuri.Scheme parsed) "cckv") then
            Err (value_error "range delete targets must use the cckv scheme")
          else if String.eqb (Ccuri.Key parsed) "" then
            Err (value_error "range delete requires a non-empty key")
          else Ok (base, includeSelf, true)
      end.

(** A target: its address, its document as signed and as parsed. *)
Record DeleteTarget : Type := mkTarget {
  dt_uri : string;
  dt_sd : SignedDocument;
  dt_doc : Document any_;
}.

(** The addressed documents of an authoritative delete. *)
Definition authoritative_targets (db : DB) (rawTarget base : string) (includeSelf isRange : bool)
    : result (list (string * SignedDocument)) :=
  if isRange then
    rbind (QueryRecordSubtree db base includeSelf) (λ targets,
    if bool_decide (targets = []) then Err (NotFoundError rawTarget "" "")
    else traverse (λ t, match CCKV t with Some u => Ok (u, t) | None => Panic end) targets)
  else rbind (Store.GetSignedDocument db rawTarget) (λ sd, Ok [(rawTarget, sd)]).

Definition in_range (base : string) (includeSelf : bool) (uri : string) : bool :=
  (includeSelf && String.eqb uri base) || Str.has_prefix uri (base +:+ "/").


(** The inlined documents a forwarded delete concerns. *)
Definition forwarded_targets (sd : SignedDocument) (rawTarget base : string) (includeSelf isRange : bool)
    : list (string * SignedDocument) :=
  let uris :=
    if isRange then sort_strings (List.filter (in_range base includeSelf) (fst <$> map_to_list (References sd)))
    else [rawTarget] in
  omap (λ u, (λ t, (u, t)) <$> References sd !! u) uris.

Definition parse_target (t : string * SignedDocument) : result DeleteTarget :=
  rbind (unmarshal_document (sd_Document (snd t))) (λ doc, Ok (mkTarget (fst t) (snd t) doc)).

(** The delete policy of one authoritative target, rooted at its associate. *)
Definition check_delete (db : DB) (requester : Entity) (t : DeleteTarget) : result unit :=
  let policyRoot := default (dt_uri t) (Associate (dt_doc t)) in
  rbind (policies_of db policyRoot) (λ stack,
  policy_eval requester (dt_doc t) stack (policyDeleteAction (dt_doc t)) (dt_uri t)).

(** What the loop over the targets accumulates. *)
Record Deleting : Type := mkDeleting {
  dl_retained : bool;
  dl_any : bool;
  dl_posts : list PostProcessAction;
}.

Definition add_posts (d : Deleting) (posts : list PostProcessAction) : Deleting :=
  mkDeleting (dl_retained d) (dl_any d) (dl_posts d ++ posts).

(** A retained document keeps its commit log, any other's is flagged. *)
Definition flagDeleted (deleted : SignedDocument) (onUpdate : option string) (d : Deleting) : M Deleting :=
  if bool_decide (onUpdate = Some "retain") then retM (mkDeleting true true (dl_posts d))
  else
    let* deletedID := liftM (CDID_ deleted) in
    tx_do (λ db, MarkCommitLogGcCandidate db deletedID) ;;
    retM (mkDeleting (dl_retained d) true (dl_posts d)).

(** The chunkline item a key occupies; a lookup failure is not fatal. *)
Definition timeline_removal (mode : CommitMode) (uri : option string) : M (string * string) :=
  match uri with
  | Some uri =>
      if bool_decide (mode = CommitModeExecute) then
        let* r := tryM (readM (λ db, GetTimelineRemoval db uri)) in
        retM (match r with Ok p => p | _ => ("", "") end)
      else retM ("", "")
  | None => retM ("", "")
  end.

Definition delete_record_target (t : DeleteTarget) (d : Deleting) : M Deleting :=
  let* parsedURI := liftM (ParseCCURI (dt_uri t)) in
  (if String.eqb (Ccuri.Scheme parsedURI) "cckv" then tx_do (λ db, DeleteRecordByKey db (dt_uri t))
   else if String.eqb (Ccuri.Scheme parsedURI) "ccfs" then
     checkM (String.eqb (Ccuri.Type_ parsedURI) CCFSTypeConcrnt)
       (GoError ("unsupported ccfs type for delete record: " +:+ Ccuri.Type_ parsedURI)) ;;
     tx_do (λ db, DeleteRecordByDocumentID db (Ccuri.CDID parsedURI))
   else failM (GoError ("unsupported document scheme for delete record: " +:+ Ccuri.Scheme parsedURI))) ;;
  flagDeleted (dt_sd t) (OnUpdate (dt_doc t)) d.

Definition delete_association_target (t : DeleteTarget) (d : Deleting) : M Deleting :=
  let* parsedURI := liftM (ParseCCURI (dt_uri t)) in
  checkM (String.eqb (Ccuri.Scheme parsedURI) "ccfs" && String.eqb (Ccuri.Type_ parsedURI) CCFSTypeConcrnt)
    (GoError ("unsupported document scheme for delete association: " +:+ dt_uri t)) ;;
  tx_do (λ db, DeleteAssociation db (Ccuri.CDID parsedURI)) ;;
  flagDeleted (dt_sd t) None d.

(** Removing the target itself, on its authoritative server. *)
Definition delete_target (mode : CommitMode) (t : DeleteTarget) (d : Deleting) : M ((string * string) * Deleting) :=
  if String.eqb (Kind (dt_doc t)) "record" then
    let* removed := timeline_removal mode (CCKV (dt_sd t)) in
    let* d := delete_record_target t d in
    retM (removed, d)
  else if String.eqb (Kind (dt_doc t)) "association" then
    let* d := delete_association_target t d in
    retM (("", ""), d)
  else failM (GoError ("unsupported document kind for delete: " +:+ Kind (dt_doc t))).

(** The href the target was distributed under. *)
Definition sweep_href (t : DeleteTarget) : result string :=
  if String.eqb (Kind (dt_doc t)) "record" then Ok (Key (dt_doc t))
  else
    match Associate (dt_doc t) with
    | None => Err (GoError ("unsupported document kind for distribution sweep: " +:+ Kind (dt_doc t)))
    | Some a =>
        rbind (ParseCCURI a) (λ parsed,
        rbind (CDID_ (dt_sd t)) (λ documentID, Ok (ccfs_uri (Ccuri.Owner parsed) documentID)))
    end.

(** Removing the reference record a destination holds here, if its policy lets it. *)
Definition sweep_reference (mode : CommitMode) (requester : Entity) (refKey : string) (d : Deleting) : M Deleting :=
  let* found := tryM (readM (λ db, Store.GetSignedDocument db refKey)) in
  match found with
  | Err e => if is_not_found e then retM d else failM e
  | Panic => panicM
  | Ok refSD =>
      let* refDoc := parse_document refSD in
      let* stack := readM (λ db, policies_of db refKey) in
      match policy_eval requester refDoc stack (policyDeleteAction refDoc) refKey with
      | Err e => if is_permission_denied e then retM d else failM e
      | Panic => panicM
      | Ok _ =>
          let* removed := timeline_removal mode (Some refKey) in
          let posts := if String.eqb (fst removed) "" then [] else [SetRemoved (fst removed) (snd removed)] in
          tx_do (λ db, DeleteRecordByKey db refKey) ;;
          flagDeleted refSD (OnUpdate refDoc) (add_posts d posts)
      end
  end.

Fixpoint sweep (mode : CommitMode) (requester : Entity) (segment : string) (dests : list string) (d : Deleting)
    : M Deleting :=
  match dests with
  | [] => retM d
  | dest :: dests =>
      match Url.JoinPath dest segment with
      | Err _ => sweep mode requester segment dests d
      | Panic => panicM
      | Ok refKey =>
          let* d := sweep_reference mode requester refKey d in
          sweep mode requester segment dests d
      end
  end.

Definition deletion_event (ty uri : string) : Event := mkEvent ty "" uri None ∅ now.

Definition deletion_job (sd : SignedDocument) (refs : gmap string SignedDocument) (remote : DeliveryRemoteKind)
    (event : Event) (dest : string) : PostProcessAction :=
  EnqueueJob (mkDeliveryJob dest "" (mkSignedDocument None None (sd_Document sd) (sd_Proof sd) refs None)
    DeliveryLocalPublish remote (Some event) "").

(** The associated document whose subscribers hear of an association's end. *)
Definition associated_document (db : DB) (authoritative : bool) (sd : SignedDocument) (uri : string)
    : result SignedDocument :=
  if authoritative then Store.GetSignedDocument db uri
  else of_option (GoError "associated document not found in references for remote delete") (References sd !! uri).

(** The jobs that tell the world about one deleted target. *)
Definition deletion_signals (authoritative : bool) (sd : SignedDocument) (t : DeleteTarget)
    (removed : string * string) : M (list PostProcessAction) :=
  let remote := if authoritative then DeliveryRemoteCommit else DeliveryRemoteNone in
  let cache := if String.eqb (fst removed) "" then [] else [SetRemoved (fst removed) (snd removed)] in
  let deleted :=
    map (deletion_job sd {[dt_uri t := dt_sd t]} remote (deletion_event "deleted" (dt_uri t)))
      (dt_uri t :: distributionsFromPtr (Distributes (dt_doc t))) in
  match Associate (dt_doc t) with
  | None => retM (cache ++ deleted)
  | Some uri =>
      let* associatedSD := readM (λ db, associated_document db authoritative sd uri) in
      let* associatedDoc := parse_document associatedSD in
      let unassociated :=
        map (deletion_job sd (<[uri := associatedSD]> {[dt_uri t := dt_sd t]}) remote (deletion_event "unassociated" uri))
          (uri :: distributionsFromPtr (Distributes associatedDoc)) in
      retM (cache ++ deleted ++ unassociated)
  end.

(** One iteration of the loop over the targets. *)
Definition delete_one (mode : CommitMode) (requester : Entity) (authoritative : bool) (sd : SignedDocument)
    (t : DeleteTarget) (d : Deleting) : M Deleting :=
  let* removed_d := (if authoritative then delete_target mode t d else retM (("", ""), d)) in
  let '(removed, d) := removed_d in
  let* href := liftM (sweep_href t) in
  let* d := sweep mode requester (ref_segment href) (distributionsFromPtr (Distributes (dt_doc t))) d in
  if negb (bool_decide (mode = CommitModeExecute)) then retM d
  else
    let* posts := deletion_signals authoritative sd t removed in
    retM (add_posts d posts).

Fixpoint delete_all (mode : CommitMode) (requester : Entity) (authoritative : bool) (sd : SignedDocument)
    (ts : list DeleteTarget) (d : Deleting) : M Deleting :=
  match ts with
  | [] => retM d
  | t :: ts =>
      let* d := delete_one mode requester authoritative sd t d in
      delete_all mode requester authoritative sd ts d
  end.

Fixpoint check_deletes (db : DB) (requester : Entity) (ts : list DeleteTarget) : result unit :=
  match ts with
  | [] => Ok tt
  | t :: ts => rbind (check_delete db requester t) (λ _, check_deletes db requester ts)
  end.

Definition deleteRecord (ip : string) (requester : Entity) (sd : SignedDocument) (mode : CommitMode)
    : M commitApplyResult :=
  let* deletedoc := liftM (unmarshal_typed decode_delete (sd_Document sd)) in
  let rawTarget := Value deletedoc in
  let* range := liftM (parseRangeDeleteTarget rawTarget) in
  let '(rangeBase, includeSelf, isRange) := range in
  let* targetHost := liftM (ResolveResourceHost rawTarget) in
  let authoritative := String.eqb targetHost FQDN in
  let* addressed :=
    (if authoritative then readM (λ db, authoritative_targets db rawTarget rangeBase includeSelf isRange)
     else retM (forwarded_targets sd rawTarget rangeBase includeSelf isRange)) in
  match addressed with
  | [] => retM (noop_result sd)
  | (_, first) :: _ =>
      let* targets := liftM (traverse parse_target addressed) in
      (if authoritative then readM (λ db, check_deletes db requester targets) else retM tt) ;;
      let* documentID := liftM (CDID_ sd) in
      let* parsedBase := liftM (ParseCCURI rangeBase) in
      tx_commit_log documentID ip sd (Ccuri.Owner parsedBase) ;;
      let* d := delete_all mode requester authoritative sd targets (mkDeleting false false []) in
      if negb (dl_any d) then retM (noop_result sd)
      else
        (if dl_retained d then retM tt else tx_do (λ db, MarkCommitLogGcCandidate db documentID)) ;;
        retM (mkApplied first (dl_posts d) false)
  end.

(** ** [Commit] ([commit.go]) *)

(** The author's entity: an error is kept, for kinds that can do without. *)
Definition resolve_requester (ip : string) (doc : Document any_) (sd : SignedDocument) : M (result Entity) :=
  tryM (if String.eqb (Kind doc) "entity" then GetEntity commit (ccid_uri (Author doc) None)
        else getEntityWithReference commit ip (Author doc) sd).

(** The requester the handlers see; [None] is a nil pointer. *)
Definition admit_requester (doc : Document any_) (requester : result Entity) : result (option Entity) :=
  match requester with
  | Ok e => Ok (Some e)
  | Err e =>
      if is_acked_kind (Kind doc) then Ok (Some (PolicyValues.mkEntity (Author doc) None "" "" None))
      else if String.eqb (Kind doc) "entity" then Ok None
      else Err (Joined (ValidationError "document.author"
             ("requester entity not found for " +:+ Kind doc +:+ " operation")) e)
  | Panic => Panic
  end.

Inductive handler : Type :=
| SaveEntity
| CreateRecord_
| CreateAssociation_
| ProcessAck (targetUser : Entity)
| DeleteRecord_.

(** The handler of a kind; an ack's target is resolved before the transaction. *)
Definition choose_handler (ip : string) (doc : Document any_) (sd : SignedDocument) (targetUserID : string) : M handler :=
  if String.eqb (Kind doc) "entity" then retM SaveEntity
  else if String.eqb (Kind doc) "record" then retM CreateRecord_
  else if String.eqb (Kind doc) "association" then retM CreateAssociation_
  else if is_ack_kind (Kind doc) || is_acked_kind (Kind doc) then
    let* targetUser := getEntityWithReference commit ip targetUserID sd in
    retM (ProcessAck targetUser)
  else if String.eqb (Kind doc) "delete" then retM DeleteRecord_
  else failM (GoError ("unsupported document kind: " +:+ Kind doc)).

Definition applyCommit (h : handler) (ip : string) (requester : option Entity) (doc : Document any_)
    (sd : SignedDocument) (mode : CommitMode) : M commitApplyResult :=
  match h with
  | SaveEntity => saveEntity ip sd
  | CreateRecord_ => let* r := derefM requester in createRecord ip r doc sd mode
  | CreateAssociation_ => let* r := derefM requester in createAssociation ip r doc sd mode
  | ProcessAck targetUser => let* r := derefM requester in processAck ip r targetUser doc sd mode
  | DeleteRecord_ => let* r := derefM requester in deleteRecord ip r sd mode
  end.

(** [BeginTx], the handler, and [tx.Commit] unless it failed or did nothing. *)
Definition run_tx (m : M commitApplyResult) : M commitApplyResult := λ st,
  let outer := st_tx st in
  match m (set_tx st []) with
  | (Ok r, st') => (Ok r, set_tx (if ap_noop r then st' else set_db st' (tx_view st')) outer)
  | (r, st') => (r, set_tx st' outer)
  end.

(** The client's copies of what this commit replaced. *)
Definition invalidations (doc : Document any_) : list string :=
  (if String.eqb (Key doc) "" then [] else [Key doc]) ++
  (if String.eqb (Kind doc) "entity" then [ccid_uri (Author doc) None] else []) ++
  (if String.eqb (Kind doc) "delete" then
     match Value doc with AStr target => if String.eqb target "" then [] else [target] | _ => [] end
   else []).

(** A post-commit action; an enqueue that fails is only logged. *)
Definition run_action (a : PostProcessAction) : M unit :=
  match a with
  | PublishMarked channel event =>
      let* e := readM (λ db, markEventForAnonymous db event) in outM (Published channel e)
  | EnqueueJob job => outM (Enqueued job)
  | EnqueueMarked job event =>
      let* e := readM (λ db, markEventForAnonymous db event) in
      outM (Enqueued (mkDeliveryJob (dj_ResolveURI job) (dj_Host job) (dj_Payload job) (dj_Local job)
             (dj_Remote job) (Some e) (dj_IP job)))
  | SetRemoved timeline item => outM (ItemRemoved timeline item)
  end.

Definition after_commit (doc : Document any_) (r : commitApplyResult) : M SignedDocument :=
  forM (λ uri, outM (Invalidated uri)) (invalidations doc) ;;
  forM run_action (ap_postProcesses r) ;;
  retM (ap_result r).

(** The part of [Commit] past the duplicate check. *)
Definition commit_new (ip : string) (sd : SignedDocument) (doc : Document any_) (mode : CommitMode) : M SignedDocument :=
  checkM (CreatedAt doc <=? now + MaxFutureSkew)
    (ValidationError "createdAt" "createdAt is too far in the future") ;;
  liftM (check_signed ctx mode sd doc) ;;
  let* resolved := resolve_requester ip doc sd in
  let* requester := liftM (admit_requester doc resolved) in
  let* targetUserID := liftM (target_user doc) in
  check_block doc targetUserID ;;
  let* h := choose_handler ip doc sd targetUserID in
  let* r := run_tx (applyCommit h ip requester doc sd mode) in
  if ap_noop r then retM (ap_result r) else after_commit doc r.

Definition commit_body (ip : string) (sd : SignedDocument) (mode : CommitMode) : M SignedDocument :=
  checkM (Str.len (sd_Document sd) <=? MaxDocumentSize)%nat
    (ValidationError "document" "document exceeds the maximum size of 32768 bytes") ;;
  let* doc := parse_document sd in
  liftM (rejectAliasOwners doc) ;;
  let* documentID := liftM (CDID_ sd) in
  let* alreadyCommitted := getsM (λ st, HasCommitLog (st_db st) documentID) in
  if (alreadyCommitted : bool) then retM sd else commit_new ip sd doc mode.

End Handlers.

Fixpoint Commit (fuel : nat) (ctx : Ctx) (ip : string) (sd : SignedDocument) (mode : CommitMode) : M SignedDocument :=
  match fuel with
  | O => failM OutOfFuel
  | S fuel => commit_body (Commit fuel ctx) ctx ip sd mode
  end.

(** ** Delivery ([deliver.go]) *)

Definition job_ctx : Ctx := mkCtx None false.

Definition Deliver (fuel : nat) (job : DeliveryJob) : M unit :=
  let* host := (if String.eqb (dj_ResolveURI job) "" then retM (dj_Host job)
                else liftM (ResolveResourceHost (dj_ResolveURI job))) in
  if String.eqb host FQDN then
    match dj_Local job with
    | DeliveryLocalPublish =>
        match dj_Event job with
        | Some event => outM (Published (dj_ResolveURI job) event)
        | None => failM (GoError ("delivery: local publish job for " +:+ dj_ResolveURI job +:+ " missing event"))
        end
    | DeliveryLocalCommit =>
        let* _ := Commit fuel job_ctx (dj_IP job) (dj_Payload job) CommitModeExecute in
        retM tt
    | DeliveryLocalNone => retM tt
    end
  else
    match dj_Remote job with
    | DeliveryRemoteCommit => outM (RemoteCommit host (dj_Payload job))
    | DeliveryRemoteNone => retM tt
    end.

(** ** Dump and import ([commitlog.go]) *)

Class LogCodec := {
  marshal_signed_document : SignedDocument → result string;
  unmarshal_signed_document : string → result SignedDocument;
}.

Context `{LogCodec}.

Definition newline : string := String (ascii_of_nat 10) "".

Definition DumpCommitLogs (ctx : Ctx) (db : DB) : result string :=
  match ctx_requester ctx with
  | None => Err (GoError "requester not found in context")
  | Some requester =>
      rbind (GetAllCommitLogs db (e_ID requester)) (λ logs,
      rbind (traverse marshal_signed_document logs) (λ lines,
      Ok (String.concat "" (map (λ line, line +:+ newline) lines))))
  end.

Record ImportResult : Type := mkImportResult {
  ir_Document : string;
  ir_Error : string;
}.

Definition maxImportEchoBytes : nat := 1024.
Definition truncate (s : string) (n : nat) : string := if (Str.len s <=? n)%nat then s else Str.take n s.

Definition import_failure (line msg : string) (e : error) : ImportResult :=
  mkImportResult (truncate line maxImportEchoBytes) (msg +:+ error_text e).

(** One line the scanner yields; [blank] is [strings.TrimSpace(line) == ""]. *)
Definition import_line (fuel : nat) (ctx : Ctx) (ip line : string) : M (list ImportResult) :=
  match unmarshal_signed_document line with
  | Err e => retM [import_failure line "failed to parse line as SignedDocument: " e]
  | Panic => panicM
  | Ok sd =>
      let* r := tryM (Commit fuel ctx ip sd CommitModeLocalOnlyExecute) in
      retM (match r with
            | Err e => [import_failure line "failed to commit document: " e]
            | _ => []
            end)
  end.

Fixpoint ImportCommitLogs (fuel : nat) (blank : string → bool) (ctx : Ctx) (ip : string) (lines : list string)
    : M (list ImportResult) :=
  match lines with
  | [] => retM []
  | line :: lines =>
      let* here := (if blank line then retM [] else import_line fuel ctx ip line) in
      let* rest := ImportCommitLogs fuel blank ctx ip lines in
      retM (here ++ rest)
  end.

End Commits.
