(* ===== verification/CommitSafe.v ===== *)
(** * CommitSafe: every handler writes through the repository's operations

    [safe_by R m] says that whatever [m] returns - an error or a panic included -
    it moves the database by [R], so do the writes of the transaction it left
    open, it drops none of them, and it does not touch the registrations.  It
    holds of every handler for any preorder [R] that the repository's calls are
    in.  [safe] is the case of reachability by successful calls: with
    [reachable_wf] the schema holds whatever documents, local or fetched from
    other servers, a server commits, in whatever order.  [Ledger] uses another. *)

From S2P Require Import Prelude Bytes Url KeyUri Cdid Ccuri Documents Verify PolicyValues Store StoreFacts StoreInv.
From S2P Require Import Queries Effects Tags Usecase Commit.
From stdpp Require Import prelude strings gmap list relations.
From Stdlib Require Import ZArith Lia Ascii.
Open Scope Z_scope.
Open Scope uc_scope.

(** ** Who owns a document

    The owner its log is filed under: the author of an entity, the owner of the
    key of a record, of the target of an association and of the base of a delete;
    of an ack the entity found for its author, of its mirror the one found for
    its target. *)

Section Owners.
Context `{Url.NetIP} `{Json} `{Keccak} `{Secp256k1} `{StoreCodec} `{Env} `{PolicyEval}.
Context (commit : string → SignedDocument → CommitMode → M SignedDocument).

Lemma entity_of_id db ccid e : GetEntityByCCID db ccid = Ok e → e_ID e = ccid.
Proof.
  unfold GetEntityByCCID, entity_of. destruct (entities db !! ccid) as [row|]; [|done].
  destruct (commit_logs db !! _); [|done]. intros Hr. by apply rbind_ok_inv in Hr as (p & _ & [= <-]).
Qed.

Lemma by_ccid_id uri parsed st e st' :
  get_entity_by_ccid commit uri parsed st = (Ok e, st') → e_ID e = Ccuri.Owner parsed.
Proof.
  unfold get_entity_by_ccid. intros Hr. apply bindM_inv in Hr as (found & st1 & Hf & Hr).
  unfold tryM, readM in Hf. destruct found as [e0|err|]; [| |done].
  - assert (e0 = e) as ->.
    { destruct (Hint parsed) as [h|]; [|by injection Hr]. destruct (_ && _); by injection Hr. }
    destruct (GetEntityByCCID (st_db st) (Ccuri.Owner parsed)) eqn:Hg; [|done..].
    injection Hf as -> _. by eapply entity_of_id.
  - destruct (negb (is_not_found err)); [done|]. destruct (Hint parsed) as [h|]; [|done].
    destruct (String.eqb h FQDN); [done|]. apply bindM_inv in Hr as (sd & st2 & _ & Hr).
    apply bindM_inv in Hr as (sd' & st3 & _ & Hr). unfold readM in Hr.
    destruct (GetEntityByCCID (st_db st3) (Ccuri.Owner parsed)) eqn:Hg; [|done..].
    injection Hr as -> _. by eapply entity_of_id.
Qed.

(** A URI that names an owner, not an alias, resolves to that owner. *)
Lemma GetEntity_id uri p st e st' :
  GetEntity commit uri st = (Ok e, st') → ParseCCURI uri = Ok p → Str.has_prefix (Ccuri.Owner p) "@" = false →
  e_ID e = Ccuri.Owner p.
Proof.
  intros Hr Hp Ha. unfold GetEntity, get_entity in Hr. rewrite bindM_lift, Hp in Hr.
  apply (by_ccid_id uri p st e st'). destruct (Ccuri.Owner p) as [|c o]; [done|].
  destruct c as [[] [] [] [] [] [] [] []]; first [exact Hr | exfalso; destruct o; discriminate Ha].
Qed.

(** The entity a name is looked up as, with or without a hint. *)
Definition found_as (name owner : string) : Prop := ∃ hint p, ParseCCURI (ccid_uri name hint) = Ok p ∧
  (Str.has_prefix (Ccuri.Owner p) "@" = false → owner = Ccuri.Owner p).

Lemma GetEntity_found name hint st e st' : GetEntity commit (ccid_uri name hint) st = (Ok e, st') → found_as name (e_ID e).
Proof.
  intros Hr. destruct (ParseCCURI (ccid_uri name hint)) as [p| |] eqn:Hp.
  2,3: unfold GetEntity, get_entity in Hr; rewrite bindM_lift, Hp in Hr; done.
  exists hint, p. split; [done|]. by apply (GetEntity_id _ _ _ _ _ Hr).
Qed.

Lemma with_reference_found ip name sd st e st' : getEntityWithReference commit ip name sd st = (Ok e, st') → found_as name (e_ID e).
Proof.
  unfold getEntityWithReference. destruct (References sd !! _) as [ref|]; [|by apply GetEntity_found].
  destruct (inlined_entity name ref); [|by apply GetEntity_found].
  intros (newer & st1 & _ & Hr)%bindM_inv. apply bindM_inv in Hr as ([] & st2 & _ & Hr). by eapply GetEntity_found.
Qed.
End Owners.

Section Owned.
Context `{Url.NetIP} `{Json}.

Definition owner_of_uri (uri owner : string) : Prop := ∃ p, ParseCCURI uri = Ok p ∧ owner = Ccuri.Owner p.

Definition entity_owner (sd : SignedDocument) (owner : string) : Prop := ∃ doc,
  unmarshal_typed decode_entity (sd_Document sd) = Ok doc ∧ owner = Author doc.
Definition association_owner (doc : Document any_) (owner : string) : Prop := ∃ target,
  Associate doc = Some target ∧ owner_of_uri target owner.
Definition delete_owner (sd : SignedDocument) (owner : string) : Prop := ∃ doc range,
  unmarshal_typed decode_delete (sd_Document sd) = Ok doc ∧ parseRangeDeleteTarget (Value doc) = Ok range ∧
  owner_of_uri (fst (fst range)) owner.

(** What the handlers file a document under. *)
Definition ack_owner (from to_ : Entity) (doc : Document any_) (owner : string) : Prop :=
  (is_ack_kind (Kind doc) = true ∧ owner = e_ID from) ∨
  (is_ack_kind (Kind doc) = false ∧ is_acked_kind (Kind doc) = true ∧ owner = e_ID to_).

Definition handler_owner (h : handler) (requester : option Entity) (doc : Document any_) (sd : SignedDocument)
    (owner : string) : Prop :=
  match h with
  | SaveEntity => entity_owner sd owner
  | CreateRecord_ => owner_of_uri (Key doc) owner
  | CreateAssociation_ => association_owner doc owner
  | ProcessAck to_ => ∃ from, requester = Some from ∧ ack_owner from to_ doc owner
  | DeleteRecord_ => delete_owner sd owner
  end.

(** What the documents say. *)
Definition named_owner (doc : Document any_) (sd : SignedDocument) (owner : string) : Prop :=
  if String.eqb (Kind doc) "entity" then entity_owner sd owner
  else if String.eqb (Kind doc) "record" then owner_of_uri (Key doc) owner
  else if String.eqb (Kind doc) "association" then association_owner doc owner
  else if is_ack_kind (Kind doc) then found_as (Author doc) owner
  else if is_acked_kind (Kind doc) then ∃ target, target_user doc = Ok target ∧ found_as target owner
  else delete_owner sd owner.
End Owned.

Section Safe.
Context `{Url.NetIP} `{Json} `{Keccak} `{Secp256k1} `{StoreCodec} `{Orm} `{Env} `{PolicyEval}.

Definition steps : DB → DB → Prop := rtc db_step.

Definition tx_by (R : relation DB) (st : St) : Prop := Forall (λ f, ∀ db, R db (f db)) (st_tx st).

Definition safe_by (R : relation DB) {A} (m : M A) : Prop := ∀ st, tx_by R st →
  tx_by R (snd (m st)) ∧ R (st_db st) (st_db (snd (m st))) ∧ st_tx st `prefix_of` st_tx (snd (m st)) ∧
  st_metas (snd (m st)) = st_metas st.

(** The repository's calls are in [R]: those on the tables, and the creation of
    the log of a document under an owner it may have. *)
Class TableSteps (R : relation DB) := table_in db db' : table_step db db' → R db db'.
Class LogSteps (R : relation DB) (sd : SignedDocument) (O : string → Prop) := log_in db id ip owner db' : O owner → CDID_ sd = Ok id →
  CreateCommitLog db now id ip (sd_Document sd) (sd_Proof sd) owner = Ok db' → R db db'.

Section Preorder.
Context {R : relation DB} `{!PreOrder R}.
#[local] Notation safe := (safe_by R).
#[local] Notation tx_good := (tx_by R).

(** ** Composition *)

Lemma safe_bind {A B} (m : M A) (k : A → M B) : safe m → (∀ a, safe (k a)) → safe (bindM m k).
Proof.
  intros Hm Hk st Hst. unfold bindM. destruct (Hm st Hst) as (Hg & Hs & Hp & Hr).
  destruct (m st) as [[a| |] st']; cbn in *; [|done..].
  destruct (Hk a st' Hg) as (Hg' & Hs' & Hp' & Hr'). split_and!; [done | by etrans | by etrans | congruence].
Qed.

Lemma safe_try {A} (m : M A) : safe m → safe (tryM m).
Proof. intros Hm st Hst. unfold tryM. specialize (Hm st Hst). by destruct (m st) as [[] ?]. Qed.

(** A computation that changes neither the tables, the transaction nor the registrations. *)
Definition quiet {A} (m : M A) : Prop := ∀ st,
  st_db (snd (m st)) = st_db st ∧ st_tx (snd (m st)) = st_tx st ∧ st_metas (snd (m st)) = st_metas st.

Lemma quiet_safe {A} (m : M A) : quiet m → safe m.
Proof.
  intros Hq st Hst. destruct (Hq st) as (E1 & E2 & E3). unfold tx_by. rewrite E1, E2, E3. done.
Qed.

Lemma quiet_ret {A} (a : A) : quiet (retM a). Proof. done. Qed.
Lemma quiet_fail {A} e : quiet (failM e : M A). Proof. done. Qed.
Lemma quiet_panic {A} : quiet (panicM : M A). Proof. done. Qed.
Lemma quiet_lift {A} (r : result A) : quiet (liftM r). Proof. done. Qed.
Lemma quiet_gets {A} (f : St → A) : quiet (getsM f). Proof. done. Qed.
Lemma quiet_read {A} (f : DB → result A) : quiet (readM f). Proof. done. Qed.
Lemma quiet_out o : quiet (outM o). Proof. done. Qed.
Lemma quiet_check b e : quiet (checkM b e). Proof. by destruct b. Qed.
Lemma quiet_deref {A} (o : option A) : quiet (derefM o). Proof. by destruct o. Qed.

Lemma safe_tx_exec {A} (f : DB → result (A * DB)) :
  (∀ db a db', f db = Ok (a, db') → R db db') → safe (tx_exec f).
Proof.
  intros Hf st Hst. unfold tx_exec. destruct (f (tx_view st)) as [[a v]| |]; cbn; [|done..].
  split_and!; [|done|by apply prefix_app_r|done]. unfold tx_by in *. cbn. apply Forall_app. split; [done|].
  constructor; [|constructor]. intros db. destruct (f db) as [[a' db']| |] eqn:E; [by eapply Hf|done..].
Qed.

Lemma safe_tx_do `{!TableSteps R} f : (∀ db, table_step db (f db)) → safe (tx_do f).
Proof. intros Hf. apply safe_tx_exec. intros db a db' [= _ <-]. by apply table_in. Qed.

Lemma safe_table `{!TableSteps R} {A} (f : DB → result (A * DB)) :
  (∀ db a db', f db = Ok (a, db') → table_step db db') → safe (tx_exec f).
Proof. intros Hf. apply safe_tx_exec. intros db a db' Hr. by eapply table_in, Hf. Qed.

Lemma safe_lift {A B} (r : result A) (k : A → M B) : (∀ a, r = Ok a → safe (k a)) → safe (bindM (liftM r) k).
Proof. intros Hk st Hst. unfold bindM, liftM. destruct r as [a| |]; [by apply Hk|done..]. Qed.

Lemma tx_view_steps st : tx_good st → R (st_db st) (tx_view st).
Proof.
  unfold tx_by, tx_view. generalize (st_db st). generalize (st_tx st). intros fs.
  induction fs as [|f fs IH]; intros db Hall; cbn; [done|].
  inversion Hall as [|?? Hf Hfs]; subst. etrans; [apply Hf | by apply IH].
Qed.

Lemma safe_run_tx m : safe m → safe (run_tx m).
Proof.
  intros Hm st Hst. unfold run_tx.
  destruct (Hm (set_tx st []) ltac:(constructor)) as (Hg & Hs & _ & Hr).
  destruct (m (set_tx st [])) as [[r| |] st']; cbn in *; try done.
  destruct (ap_noop r); cbn; (split; [done|]); (split; [|done]); [done|].
  etrans; [exact Hs|]. by apply tx_view_steps.
Qed.

Lemma safe_forM {A B} (f : A → M B) l : (∀ a, safe (f a)) → safe (forM f l).
Proof.
  intros Hf. induction l as [|a l IH]; cbn; [by apply quiet_safe|].
  apply safe_bind; [done|]. intros b. apply safe_bind; [done|]. intros bs. by apply quiet_safe.
Qed.

Lemma safe_deref {A B} (o : option A) (k : A → M B) : (∀ a, o = Some a → safe (k a)) → safe (bindM (derefM o) k).
Proof. intros Hk st Hst. unfold bindM. destruct o as [a|]; [by apply Hk|done]. Qed.

(** A result the first part can return. *)
Lemma safe_bind_returned {A B} (m : M A) (k : A → M B) :
  safe m → (∀ a, (∃ st st', m st = (Ok a, st')) → safe (k a)) → safe (bindM m k).
Proof.
  intros Hm Hk st Hst. unfold bindM. destruct (Hm st Hst) as (Hg & Hs & Hp & Hr).
  destruct (m st) as [[a| |] st'] eqn:E; cbn in *; [|done..].
  destruct (Hk a ltac:(eauto) st' Hg) as (Hg' & Hs' & Hp' & Hr'). split_and!; [done | by etrans | by etrans | congruence].
Qed.

Lemma log_weaken sd (O O' : string → Prop) : (∀ owner, O' owner → O owner) → LogSteps R sd O → LogSteps R sd O'.
Proof. intros Ho Hl db id ip owner db' Howner. by apply Hl, Ho. Qed.

Lemma safe_commit_log id ip sd owner (O : string → Prop) `{!LogSteps R sd O} : O owner → CDID_ sd = Ok id →
  safe (tx_commit_log id ip sd owner).
Proof.
  intros Ho Hid. apply safe_tx_exec. intros db a db' Hr. apply rbind_ok_inv in Hr as (db1 & Hc & [= _ <-]). by eapply log_in.
Qed.
End Preorder.

(** Reachability. *)
#[export] Instance steps_table : TableSteps steps.
Proof. intros db db' Hs. by apply rtc_once, StepTable. Qed.
#[export] Instance steps_log sd O : LogSteps steps sd O.
Proof. intros db id ip owner db' _ _ Hc. apply rtc_once. by econstructor. Qed.
#[export] Instance steps_preorder : PreOrder steps.
Proof. apply _. Qed.

End Safe.

Notation safe := (safe_by steps).
Notation tx_good := (tx_by steps).

Section AnyLog.
Context `{Url.NetIP} `{Json} `{Keccak} `{Secp256k1} `{StoreCodec} `{Orm} `{Env} `{PolicyEval}.
Lemma safe_any_log id ip sd owner : safe (tx_commit_log id ip sd owner).
Proof.
  apply safe_tx_exec. intros db a db' Hr. apply rbind_ok_inv in Hr as (db1 & Hc & [= _ <-]).
  apply rtc_once. by econstructor.
Qed.
End AnyLog.

Create HintDb uc_safe.
#[export] Hint Resolve quiet_ret quiet_fail quiet_panic quiet_lift quiet_gets quiet_read quiet_out quiet_check
  quiet_deref : uc_safe.
#[export] Hint Resolve steps_table steps_log steps_preorder : uc_safe.
#[export] Hint Resolve safe_try safe_run_tx safe_forM : uc_safe.
#[export] Hint Extern 5 (safe_by _ _) => (apply quiet_safe) : uc_safe.

(** Walks through a handler: binds, branches, known parts. *)
Ltac safe_walk :=
  repeat match goal with
  | |- safe_by _ (bindM (liftM _) _) => apply safe_lift; intros ? ?
  | |- safe_by _ (bindM (derefM _) _) => apply safe_deref; intros ? ?
  | |- safe_by _ (bindM _ _) => apply safe_bind; [|intros ?]
  | |- safe_by _ (let '_ := ?x in _) => destruct x
  | |- safe_by _ (match ?x with _ => _ end) => destruct x
  | |- safe_by _ (forM _ _) => apply safe_forM; intros ?
  | |- safe_by _ (tryM _) => apply safe_try
  | |- safe_by _ (run_tx _) => apply safe_run_tx
  | |- _ => progress eauto with uc_safe
  end.

Section Handlers.
Context `{Url.NetIP} `{Json} `{Keccak} `{Secp256k1} `{StoreCodec} `{Orm} `{Env} `{PolicyEval}.
Context (commit : string → SignedDocument → CommitMode → M SignedDocument) (ctx : Ctx).
Context {R : relation DB} `{!PreOrder R} `{!TableSteps R}.
#[local] Notation safe := (safe_by R).
Context (commit_safe : ∀ ip sd mode, safe (commit ip sd mode)).

#[local] Hint Resolve commit_safe : uc_safe.

(** ** Reads *)

Lemma safe_get_entity_by_ccid uri parsed : safe (get_entity_by_ccid commit uri parsed).
Proof. unfold get_entity_by_ccid. safe_walk. Qed.
#[local] Hint Resolve safe_get_entity_by_ccid : uc_safe.

Lemma safe_get_entity rec uri : (∀ u, safe (rec u)) → safe (get_entity commit rec uri).
Proof. intros Hrec. unfold get_entity. safe_walk. Qed.

Lemma safe_GetEntity uri : safe (GetEntity commit uri).
Proof. unfold GetEntity. apply safe_get_entity. intros u. apply safe_get_entity. intros v. safe_walk. Qed.
#[local] Hint Resolve safe_GetEntity : uc_safe.

Lemma safe_IsLocal id : safe (IsLocalEntityByCCID commit id).
Proof. unfold IsLocalEntityByCCID. safe_walk. Qed.

Lemma safe_getEntityWithReference ip ccid sd : safe (getEntityWithReference commit ip ccid sd).
Proof. unfold getEntityWithReference. safe_walk. Qed.

Lemma safe_GetSigned uri : safe (GetSigned commit ctx uri).
Proof. unfold GetSigned, CanonicalizeURI. safe_walk. Qed.
#[local] Hint Resolve safe_IsLocal safe_getEntityWithReference safe_GetSigned : uc_safe.

(** ** Handlers *)

Lemma safe_distribution ip author href requester sd dests mode :
  safe (createReferenceDistributionActions commit ctx ip author href requester sd dests mode).
Proof. unfold createReferenceDistributionActions. safe_walk. Qed.
#[local] Hint Resolve safe_distribution : uc_safe.

Lemma safe_create_entity ccid alias dom d c : safe (tx_exec (λ db, CreateEntity db ccid alias dom d c)).
Proof. apply safe_table. intros db a db' Hr. by econstructor. Qed.

Lemma safe_create_record fuel d key o a s ou p ds rd c :
  safe (tx_exec (λ db, CreateRecord fuel db d key o a s ou p ds rd c)).
Proof. apply safe_table. intros db b db' Hr. by econstructor. Qed.

Lemma safe_create_association d target o a s v u c :
  safe (tx_exec (λ db, CreateAssociation db d target o a s v u c)).
Proof. apply safe_table. intros db b db' Hr. by econstructor. Qed.

Lemma safe_ack (b : bool) d f t s c :
  safe (tx_exec (λ db, (if b then Acknowledge else UnAcknowledge) db d f t s c)).
Proof. apply safe_table. intros db a db' Hr. destruct b; by eapply StepAck. Qed.

Lemma safe_acked (b : bool) d f t s c :
  safe (tx_exec (λ db, (if b then Acknowledged else UnAcknowledged) db d f t s c)).
Proof. apply safe_table. intros db a db' Hr. destruct b; by eapply StepAcked. Qed.

Lemma safe_mark d : safe (tx_do (λ db, MarkCommitLogGcCandidate db d)).
Proof. apply safe_tx_do. intros db. apply StepMark. Qed.
Lemma safe_delete_key uri : safe (tx_do (λ db, DeleteRecordByKey db uri)).
Proof. apply safe_tx_do. intros db. apply StepDeleteKey. Qed.
Lemma safe_delete_record d : safe (tx_do (λ db, DeleteRecordByDocumentID db d)).
Proof. apply safe_tx_do. intros db. apply StepDeleteRecord. Qed.
Lemma safe_delete_association d : safe (tx_do (λ db, DeleteAssociation db d)).
Proof. apply safe_tx_do. intros db. apply StepDeleteAssociation. Qed.

#[local] Hint Resolve safe_create_entity safe_create_record safe_create_association safe_ack safe_acked
  safe_mark safe_delete_key safe_delete_record safe_delete_association : uc_safe.

(** The log of a document, under the owner the handler has found. *)
#[local] Hint Extern 2 (safe_by _ (tx_commit_log _ _ _ _)) =>
  (eapply safe_commit_log; [eassumption| |eassumption]; repeat eexists; eassumption) : uc_safe.

Lemma safe_saveEntity ip sd `{!LogSteps R sd (entity_owner sd)} : safe (saveEntity ip sd).
Proof. unfold saveEntity. safe_walk. Qed.

Lemma safe_createRecord ip requester doc sd mode `{!LogSteps R sd (owner_of_uri (Key doc))} :
  safe (createRecord commit ctx ip requester doc sd mode).
Proof. unfold createRecord. safe_walk. Qed.

Lemma safe_association_local ip requester doc sd mode target owner d ccfs `{!LogSteps R sd (association_owner doc)} :
  association_owner doc owner → CDID_ sd = Ok d →
  safe (association_local commit ctx ip requester doc sd mode target owner d ccfs).
Proof. intros Ho Hid. unfold association_local. safe_walk. by eapply safe_commit_log. Qed.

Lemma safe_createAssociation ip requester doc sd mode `{!LogSteps R sd (association_owner doc)} :
  safe (createAssociation commit ctx ip requester doc sd mode).
Proof.
  unfold createAssociation. safe_walk. apply safe_association_local; [done| |done]. repeat eexists; eassumption.
Qed.

Lemma safe_processAck ip from to_ doc sd mode `{!LogSteps R sd (ack_owner from to_ doc)} :
  safe (processAck commit ctx ip from to_ doc sd mode).
Proof.
  unfold processAck. apply safe_lift. intros id Hid. apply safe_bind; [|intros _; unfold ack_side, acked_side; safe_walk].
  destruct (is_ack_kind (Kind doc)) eqn:Ha; [|destruct (is_acked_kind (Kind doc)) eqn:Hb; [|safe_walk]].
  - eapply safe_commit_log; [done|by left|done].
  - eapply safe_commit_log; [done|by right|done].
Qed.

Lemma safe_flagDeleted sd ou d : safe (flagDeleted sd ou d).
Proof. unfold flagDeleted. safe_walk. Qed.
#[local] Hint Resolve safe_flagDeleted : uc_safe.

Lemma safe_timeline mode uri : safe (timeline_removal mode uri).
Proof. unfold timeline_removal. safe_walk. Qed.
#[local] Hint Resolve safe_timeline : uc_safe.

Lemma safe_delete_target mode t d : safe (delete_target mode t d).
Proof. unfold delete_target, delete_record_target, delete_association_target. safe_walk. Qed.

Lemma safe_sweep mode requester segment dests d : safe (sweep mode requester segment dests d).
Proof.
  revert d. induction dests as [|dest dests IH]; intros d; cbn [sweep]; [safe_walk|].
  unfold sweep_reference. safe_walk.
Qed.
#[local] Hint Resolve safe_delete_target safe_sweep : uc_safe.

Lemma safe_delete_all mode requester authoritative sd ts d :
  safe (delete_all mode requester authoritative sd ts d).
Proof.
  revert d. induction ts as [|t ts IH]; intros d; cbn [delete_all]; [safe_walk|].
  unfold delete_one, deletion_signals. safe_walk.
Qed.
#[local] Hint Resolve safe_delete_all : uc_safe.

Lemma safe_deleteRecord ip requester sd mode `{!LogSteps R sd (delete_owner sd)} : safe (deleteRecord ip requester sd mode).
Proof. unfold deleteRecord. safe_walk. Qed.

(** ** [Commit] *)

#[local] Hint Resolve safe_saveEntity safe_createRecord safe_createAssociation safe_processAck
  safe_deleteRecord : uc_safe.

Lemma safe_applyCommit h ip requester doc sd mode `{Hl : !LogSteps R sd (handler_owner h requester doc sd)} :
  safe (applyCommit commit ctx h ip requester doc sd mode).
Proof.
  unfold applyCommit. destruct h; cbn [handler_owner] in Hl; safe_walk.
  apply safe_processAck. eapply log_weaken; [|exact Hl]. intros owner Ho. by eexists.
Qed.

Lemma safe_getBlockingUsers id : safe (getBlockingUsers id).
Proof. unfold getBlockingUsers. safe_walk. apply quiet_safe. done. Qed.

Lemma safe_run_action a : safe (run_action a).
Proof. unfold run_action. safe_walk. Qed.
#[local] Hint Resolve safe_getBlockingUsers safe_run_action : uc_safe.

Lemma safe_choose ip doc sd target : safe (choose_handler commit ip doc sd target).
Proof. unfold choose_handler. safe_walk. Qed.

(** The handler of a document files it under an owner the document names. *)
Lemma chosen_owner ip doc sd target resolved requester h :
  (∃ st st', resolve_requester commit ip doc sd st = (Ok resolved, st')) → admit_requester doc resolved = Ok requester →
  target_user doc = Ok target → (∃ st st', choose_handler commit ip doc sd target st = (Ok h, st')) →
  ∀ owner, handler_owner h requester doc sd owner → named_owner doc sd owner.
Proof.
  intros (st1 & st1' & Hres) Hadm Ht (st2 & st2' & Hh) owner. unfold choose_handler in Hh. unfold named_owner.
  destruct (String.eqb (Kind doc) "entity") eqn:He; [by injection Hh as <- _|].
  destruct (String.eqb (Kind doc) "record"); [by injection Hh as <- _|].
  destruct (String.eqb (Kind doc) "association"); [by injection Hh as <- _|].
  destruct (is_ack_kind (Kind doc)) eqn:Ha; cbn [orb] in Hh.
  - apply bindM_inv in Hh as (to_ & st3 & _ & [= <- _]). intros (from & -> & [[_ ->]|[? _]]); [|congruence].
    unfold resolve_requester in Hres. rewrite He in Hres. unfold tryM in Hres.
    destruct (getEntityWithReference commit ip (Author doc) sd st1) as [[e|err|] st3'] eqn:Hg; [| |done].
    + injection Hres as <- _. injection Hadm as <-. by eapply with_reference_found.
    + injection Hres as <- _. cbn [admit_requester] in Hadm. rewrite He in Hadm.
      assert (is_acked_kind (Kind doc) = false) as Hk; [|by rewrite Hk in Hadm].
      unfold is_ack_kind in Ha. unfold is_acked_kind. by apply orb_prop in Ha as [->%String.eqb_eq| ->%String.eqb_eq].
  - destruct (is_acked_kind (Kind doc)) eqn:Hb; cbn [orb] in Hh.
    + apply bindM_inv in Hh as (to_ & st3 & Hto & [= <- _]). intros (from & _ & [[? _]|(_ & _ & ->)]); [congruence|].
      exists target. split; [done|]. by eapply with_reference_found.
    + destruct (String.eqb (Kind doc) "delete"); [by injection Hh as <- _|done].
Qed.

Lemma safe_commit_new ip doc sd mode : (check_signed ctx mode sd doc = Ok tt → LogSteps R sd (named_owner doc sd)) →
  safe (commit_new commit ctx ip sd doc mode).
Proof.
  intros Hlog. unfold commit_new. apply safe_bind; [safe_walk|intros _]. apply safe_lift. intros [] Hsigned. specialize (Hlog Hsigned).
  apply safe_bind_returned; [unfold resolve_requester; safe_walk|]. intros resolved Hres. apply safe_lift. intros requester Hadm.
  apply safe_lift. intros target Ht. apply safe_bind; [unfold check_block; safe_walk|]. intros _.
  apply safe_bind_returned; [apply safe_choose|]. intros h Hh. apply safe_bind; [|intros r; unfold after_commit; safe_walk].
  apply safe_run_tx, safe_applyCommit. eapply log_weaken; [|exact Hlog]. by eapply chosen_owner.
Qed.

(** What a document went through before a handler writes its log. *)
Definition admitted (mode : CommitMode) (sd : SignedDocument) (doc : Document any_) : Prop :=
  unmarshal_document (sd_Document sd) = Ok doc ∧ (Str.len (sd_Document sd) <= MaxDocumentSize)%nat ∧
  rejectAliasOwners doc = Ok tt ∧ check_signed ctx mode sd doc = Ok tt.

Lemma safe_commit_body ip sd mode : (∀ doc, admitted mode sd doc → LogSteps R sd (named_owner doc sd)) →
  safe (commit_body commit ctx ip sd mode).
Proof.
  intros Hlog st Hst. unfold commit_body, parse_document. rewrite bindM_check.
  destruct (_ <=? _)%nat eqn:Hsize; [|by apply (quiet_safe _ (quiet_fail _))]. apply Nat.leb_le in Hsize.
  revert st Hst. apply safe_lift. intros doc Hdoc. apply safe_lift. intros [] Hown. apply safe_lift. intros id _.
  apply safe_bind; [safe_walk|]. intros []; [safe_walk|]. apply safe_commit_new. intros Hsigned. by apply (Hlog doc).
Qed.
End Handlers.

Section Commits.
Context `{Url.NetIP} `{Json} `{Keccak} `{Secp256k1} `{StoreCodec} `{Orm} `{Env} `{PolicyEval}.

Lemma safe_Commit_by {R : relation DB} `{!PreOrder R} `{!TableSteps R} ctx fuel ip sd mode :
  (∀ mode sd doc, admitted ctx mode sd doc → LogSteps R sd (named_owner doc sd)) → safe_by R (Commit fuel ctx ip sd mode).
Proof.
  intros Hlog. revert ip sd mode. induction fuel as [|fuel IH]; intros ip sd mode; cbn [Commit].
  - by apply quiet_safe.
  - by apply (safe_commit_body _ _ IH), Hlog.
Qed.

Lemma safe_Commit fuel ctx ip sd mode : safe (Commit fuel ctx ip sd mode).
Proof. apply safe_Commit_by. intros. apply _. Qed.

Lemma steps_wf db db' : steps db db' → wf db → wf db'.
Proof. induction 1 as [|db1 db2 db3 Hs _ IH]; [done|]. intros Hw. apply IH. by eapply db_step_wf. Qed.

End Commits.
