(* ===== verification/CommitFacts.v ===== *)
(** * CommitFacts: what a commit, a delete and a read guarantee

    The admission checks of [Commit], the reading and carrying out of delete
    targets, the filter of a query and the marks of an event. *)

From S2P Require Import Prelude Bytes Url KeyUri Cdid Ccuri Documents Verify PolicyValues Store StoreFacts StoreInv.
From S2P Require Import StoreRecords Queries Effects Tags Usecase Commit.
From stdpp Require Import prelude strings gmap list relations sorting.
From Stdlib Require Import ZArith Lia Ascii.
Open Scope Z_scope.
Open Scope uc_scope.

(** ** Running the monad *)

Lemma bindM_read {A B} (f : DB → result A) (k : A → M B) st :
  bindM (readM f) k st = match f (st_db st) with Ok a => k a st | Err e => (Err e, st) | Panic => (Panic, st) end.
Proof. unfold bindM, readM. by destruct (f (st_db st)). Qed.

(** Nothing happened: the state is the same and no value was returned. *)
Definition refused {A} (out : result A * St) (st : St) : Prop := snd out = st ∧ is_ok (fst out) = false.

Section Guards.
Context `{Url.NetIP} `{Json} `{Keccak} `{Secp256k1} `{StoreCodec} `{Orm} `{Env} `{PolicyEval}.

(** ** Admission

    What a document must satisfy before any handler sees it. *)

Record admissible (ctx : Ctx) (mode : CommitMode) (sd : SignedDocument) (doc : Document any_) : Prop := {
  adm_parsed : unmarshal_document (sd_Document sd) = Ok doc;
  adm_size : (Str.len (sd_Document sd) <= MaxDocumentSize)%nat;
  adm_owners : rejectAliasOwners doc = Ok tt;
  adm_future : CreatedAt doc <= now + MaxFutureSkew;
  adm_signed : ctx_system ctx = true ∨
    authorised resolver maxVerifyDepth sd ∧ type_allowed (allowed_proofs (Kind doc)) sd ∧
    (backdate_exempt ctx mode doc = true ∨ now - MaxBackdate <= CreatedAt doc);
}.

Lemma check_signed_ok ctx mode sd doc :
  check_signed ctx mode sd doc = Ok tt →
  ctx_system ctx = true ∨
    authorised resolver maxVerifyDepth sd ∧ type_allowed (allowed_proofs (Kind doc)) sd ∧
    (backdate_exempt ctx mode doc = true ∨ now - MaxBackdate <= CreatedAt doc).
Proof.
  unfold check_signed, VerifyWithProofTypes. destruct (ctx_system ctx); [by left|]. intros Hc. right.
  destruct (verify resolver maxVerifyDepth sd (allowed_proofs (Kind doc))) as [[]| |] eqn:Ev; [|done..].
  apply verify_spec in Ev as [Ha Ht]. split; [done|]. split; [done|].
  destruct (backdate_exempt ctx mode doc); [by left|]. right. cbn in Hc.
  destruct (CreatedAt doc <? now - MaxBackdate) eqn:E; [done|]. by apply Z.ltb_ge in E.
Qed.

Definition cdid_of (sd : SignedDocument) (doc : Document any_) : string :=
  document_cdid (sd_Document sd) (CreatedAt doc).

Lemma admission fuel ctx ip sd mode st :
  let out := Commit (S fuel) ctx ip sd mode st in
  refused out st ∨
  (∃ doc, unmarshal_document (sd_Document sd) = Ok doc ∧
     HasCommitLog (st_db st) (cdid_of sd doc) = true ∧ out = (Ok sd, st)) ∨
  (∃ doc, admissible ctx mode sd doc ∧ HasCommitLog (st_db st) (cdid_of sd doc) = false).
Proof.
  intros out. subst out. cbn [Commit]. unfold commit_body, parse_document.
  rewrite bindM_check. destruct (_ <=? _)%nat eqn:Esize; [|by left; split].
  rewrite bindM_lift. destruct (unmarshal_document _) as [doc| |] eqn:Edoc; [|by left; split..].
  rewrite bindM_lift. destruct (rejectAliasOwners doc) as [[]| |] eqn:Eal; [|by left; split..].
  rewrite bindM_lift. unfold CDID_, ParsedDocument. rewrite Edoc. cbn [mbind result_bind rbind].
  rewrite bindM_gets. fold (cdid_of sd doc).
  destruct (HasCommitLog (st_db st) (cdid_of sd doc)) eqn:Elog; [right; left; by exists doc|].
  unfold commit_new. rewrite bindM_check. destruct (CreatedAt doc <=? _) eqn:Efut; [|by left; split].
  rewrite bindM_lift. destruct (check_signed ctx mode sd doc) as [[]| |] eqn:Esig; [|by left; split..].
  right; right. exists doc. split; [|done]. split; try done.
  - by apply Nat.leb_le.
  - by apply Z.leb_le.
  - by apply check_signed_ok.
Qed.

(** C3: nothing happens for a document that is not admitted.  A commit either
    refuses it and leaves the state as it is, or returns it untouched because
    its commit log exists, or the document is small enough, names no alias
    owner, is not from the future, and, unless the system account commits it,
    carries a proof that verifies - an entity's from its master key, an acked's
    by derivation - and is inside the backdate window or exempt from it. *)
Theorem Commit_guarded fuel ctx ip sd mode st :
  let out := Commit (S fuel) ctx ip sd mode st in
  refused out st ∨
  (∃ doc, unmarshal_document (sd_Document sd) = Ok doc ∧
     HasCommitLog (st_db st) (cdid_of sd doc) = true ∧ out = (Ok sd, st)) ∨
  (∃ doc, admissible ctx mode sd doc ∧ HasCommitLog (st_db st) (cdid_of sd doc) = false).
Proof. apply admission. Qed.

(** ** Range deletes *)

Lemma has_prefix_split s p : Str.has_prefix s p = true ↔ ∃ t, s = p +:+ t.
Proof.
  split; [|intros (t & ->); apply has_prefix_app]. unfold Str.has_prefix. revert s.
  induction p as [|c p IH]; intros s; cbn; [by exists s|].
  destruct s as [|d s]; [done|]. cbn [String.prefix]. destruct (ascii_dec c d) as [<-|]; [|done].
  intros (t & ->)%IH. by exists t.
Qed.

(** a range delete selects the same keys wherever it is carried out: what
    a forwarded delete picks among its inlined documents is what the subtree
    query of the authoritative server selects by SQL pattern. *)
Theorem range_agrees base includeSelf uri :
  in_range base includeSelf uri = in_subtree base includeSelf uri.
Proof.
  apply Bool.eq_iff_eq_true. rewrite in_subtree_spec. unfold in_range.
  rewrite orb_true_iff, andb_true_iff, String.eqb_eq, has_prefix_split.
  setoid_rewrite str_app_assoc. reflexivity.
Qed.

End Guards.

(** ** Delete targets *)

Lemma take_drop_str n s : Str.take n s +:+ Str.drop n s = s.
Proof. revert s. induction n as [|n IH]; intros [|c s]; cbn; [done..|]. by rewrite IH. Qed.

Lemma has_suffix_trim s t : Str.has_suffix s t = true → s = Str.trim_suffix s t +:+ t.
Proof.
  intros Hs. unfold Str.trim_suffix. rewrite Hs. unfold Str.has_suffix in Hs.
  apply andb_true_iff in Hs as [_ Hd%String.eqb_eq].
  rewrite <- (take_drop_str (Str.len s - Str.len t) s) at 1. by rewrite Hd.
Qed.

Section Deletes.
Context `{Url.NetIP} `{Json} `{Keccak} `{Secp256k1} `{StoreCodec} `{Orm} `{Env} `{PolicyEval}.

(** the range notation is read exactly: a target without a trailing
    asterisk is itself; a range is its base followed by the asterisk, or by a
    slash and the asterisk when the base itself is kept, and the base is a cckv
    URI with a key and no other asterisk. *)
Theorem parseRangeDeleteTarget_sound target base includeSelf isRange :
  parseRangeDeleteTarget target = Ok (base, includeSelf, isRange) →
  if isRange then
    target = base +:+ (if includeSelf then "*" else "/*") ∧ has_star base = false ∧
    ∃ parsed, ParseCCURI base = Ok parsed ∧ Ccuri.Scheme parsed = "cckv" ∧ Ccuri.Key parsed ≠ ""
  else base = target ∧ includeSelf = false ∧ Str.has_suffix target "*" = false.
Proof.
  unfold parseRangeDeleteTarget. destruct (Str.has_suffix target "*") eqn:Estar; cbn [negb]; [|by intros [= <- <- <-]].
  assert ((if Str.has_suffix target "/*" then (Str.trim_suffix target "/*", false)
           else (Str.trim_suffix target "*", true)) =
          let self := negb (Str.has_suffix target "/*") in
          (Str.trim_suffix target (if self then "*" else "/*"), self)) as -> by by destruct (Str.has_suffix target "/*").
  set (self := negb _). assert (target = Str.trim_suffix target (if self then "*" else "/*") +:+
    (if self then "*" else "/*")) as Htarget.
  { subst self. destruct (Str.has_suffix target "/*") eqn:E; cbn [negb]; by apply has_suffix_trim. }
  cbv zeta. revert Htarget. generalize (Str.trim_suffix target (if self then "*" else "/*")). intros b Htarget.
  destruct (has_star b) eqn:Eb; [done|]. destruct (ParseCCURI b) as [parsed| |] eqn:Ep; [|done..].
  destruct (String.eqb (Ccuri.Scheme parsed) "cckv") eqn:Es; [|done].
  destruct (String.eqb (Ccuri.Key parsed) "") eqn:Ek; [done|]. intros [= <- <- <-].
  split; [done|]. split; [done|]. exists parsed. split; [done|].
  apply String.eqb_eq in Es. apply String.eqb_neq in Ek. done.
Qed.

Lemma check_deletes_ok db requester ts :
  check_deletes db requester ts = Ok tt → Forall (λ t, check_delete db requester t = Ok tt) ts.
Proof.
  induction ts as [|t ts IH]; cbn; [constructor|]. intros Hr.
  apply rbind_ok_inv in Hr as ([] & Ht & Hr). constructor; auto.
Qed.

(** A delete gets past its checks only with every target there and permitted. *)
Lemma delete_checked ip requester sd mode st raw doc base includeSelf isRange :
  unmarshal_typed decode_delete (sd_Document sd) = Ok doc → Value doc = raw →
  parseRangeDeleteTarget raw = Ok (base, includeSelf, isRange) → ResolveResourceHost raw = Ok FQDN →
  let out := deleteRecord ip requester sd mode st in
  refused out st ∨
  ∃ addressed targets,
    authoritative_targets (st_db st) raw base includeSelf isRange = Ok addressed ∧ addressed ≠ [] ∧
    traverse parse_target addressed = Ok targets ∧
    Forall (λ t, check_delete (st_db st) requester t = Ok tt) targets.
Proof.
  intros Hd Hv Hr Hh out. subst out. unfold deleteRecord.
  rewrite bindM_lift, Hd, Hv. rewrite bindM_lift, Hr. rewrite bindM_lift, Hh, String.eqb_refl.
  rewrite bindM_read. destruct (authoritative_targets _ _ _ _ _) as [addressed| |] eqn:Ea; [|by left; split..].
  destruct addressed as [|[u first] rest].
  { exfalso. unfold authoritative_targets in Ea. destruct isRange.
    - apply rbind_ok_inv in Ea as (ts & _ & Ea). case_bool_decide; [done|].
      apply traverse_ok in Ea. by inversion Ea; subst.
    - by apply rbind_ok_inv in Ea as (x & _ & [=]). }
  rewrite bindM_lift. destruct (traverse parse_target _) as [targets| |] eqn:Et; [|by left; split..].
  rewrite bindM_read. destruct (check_deletes _ _ _) as [[]| |] eqn:Ec; [|by left; split..].
  right. exists ((u, first) :: rest), targets. split_and!; try done. by apply check_deletes_ok.
Qed.

(** C14: a delete on the authoritative server is all or nothing: either it is
    refused with nothing written, or every document it addresses - the whole
    subtree, for a range - was there and its delete policy, rooted at its
    associate for an association, let the requester remove it. *)
Theorem delete_all_or_nothing ip requester sd mode st raw doc base includeSelf isRange :
  unmarshal_typed decode_delete (sd_Document sd) = Ok doc → Value doc = raw →
  parseRangeDeleteTarget raw = Ok (base, includeSelf, isRange) → ResolveResourceHost raw = Ok FQDN →
  let out := deleteRecord ip requester sd mode st in
  refused out st ∨
  ∃ addressed targets,
    authoritative_targets (st_db st) raw base includeSelf isRange = Ok addressed ∧ addressed ≠ [] ∧
    traverse parse_target addressed = Ok targets ∧
    Forall (λ t, check_delete (st_db st) requester t = Ok tt) targets.
Proof. apply delete_checked. Qed.

(** ** Entity resolution *)

Lemma txt_redirect_ccid records :
  txt_redirect records ≠ "" →
  ∃ p, ParseCCURI (txt_redirect records) = Ok p ∧ IsCCID (Ccuri.Owner p) = true.
Proof.
  unfold txt_redirect. destruct (List.find _ records) as [r|] eqn:E; [|done]. intros _. cbn.
  apply List.find_some in E as [_ E]. destruct (ParseCCURI r) as [p| |]; [|done..].
  apply andb_true_iff in E as [E _]. by exists p.
Qed.

(** A CCID is looked up directly, whatever a further redirect would do. *)
Lemma get_entity_direct commit rec1 rec2 uri p st :
  ParseCCURI uri = Ok p → IsCCID (Ccuri.Owner p) = true →
  get_entity commit rec1 uri st = get_entity commit rec2 uri st.
Proof.
  intros Hp Hc. unfold get_entity. rewrite !bindM_lift, Hp.
  destruct (Ccuri.Owner p) as [|c o]; [done|].
  destruct c as [[] [] [] [] [] [] [] []]; try reflexivity.
  apply andb_true_iff in Hc as [[_ Hc%String.eqb_eq]%andb_true_iff _]. discriminate Hc.
Qed.

(** entity resolution ends: an alias is redirected at most once, because
    its TXT record must name a CCID, so [GetEntity] satisfies the equation of
    the code's unbounded recursion. *)
Theorem GetEntity_equation commit uri st :
  GetEntity commit uri st = get_entity commit (GetEntity commit) uri st.
Proof.
  unfold GetEntity at 1. unfold get_entity at 1 3. rewrite !bindM_lift.
  destruct (ParseCCURI uri) as [parsed| |]; [|done..].
  destruct (Ccuri.Owner parsed) as [|c alias]; [done|].
  destruct c as [[] [] [] [] [] [] [] []]; try reflexivity.
  unfold bindM. destruct (tryM _ st) as [[[e|e|]| |] st1]; [done| |done..].
  destruct (negb (is_not_found e)); [done|].
  destruct (LookupTXT _) as [records| |]; [|done..].
  destruct (String.eqb (txt_redirect records) "") eqn:E; [done|]. apply String.eqb_neq in E.
  destruct (txt_redirect_ccid records E) as (p & Hp & Hc). unfold GetEntity.
  by apply (get_entity_direct _ _ _ _ p).
Qed.

(** ** Reads *)

Lemma filter_readable_spec check items l :
  filter_readable check items = Ok l →
  sublist l items ∧ Forall (λ sd, check sd = Ok true) l ∧
  ∀ sd, sd ∈ items → sd ∈ l ∨ check sd = Ok false.
Proof.
  revert l. induction items as [|sd items IH]; intros l; cbn.
  - intros [= <-]. split_and!; [constructor | constructor | by intros ? ?%elem_of_nil].
  - intros Hr. apply rbind_ok_inv in Hr as (keep & Hk & Hr). apply rbind_ok_inv in Hr as (rest & Hrest & Hr).
    destruct (IH _ Hrest) as (Hs & Hf & Hc). destruct keep; simplify_eq.
    + split_and!; [by constructor | by constructor |]. intros x [->|Hx]%elem_of_cons; [by left; left|].
      destruct (Hc x Hx); [left; by right | by right].
    + split_and!; [by constructor | done |]. intros x [->|Hx]%elem_of_cons; [by right|]. by apply Hc.
Qed.

Lemma readable_true r : readable r = Ok true ↔ r = Ok tt.
Proof. destruct r as [[]| |]; cbn; [done| |done]. by destruct (is_permission_denied e). Qed.

Lemma readable_false r : readable r = Ok false ↔ ∃ e, r = Err e ∧ is_permission_denied e = true.
Proof.
  destruct r as [[]|e|]; cbn.
  - split; [done | by intros (e & [=] & _)].
  - destruct (is_permission_denied e) eqn:E; (split; [try done|]).
    + intros _. by exists e.
    + done.
    + intros (e' & [= ->] & He). congruence.
  - split; [done | by intros (e & [=] & _)].
Qed.

Context `{TimeFormat}.

(** C15: a query lists, in order, exactly the documents of its window that the
    requester's read policy lets through: every listed one is readable at its
    key, every one left out was denied, and the page cursors are those of the
    unfiltered window. *)
Theorem Query_readable ctx db p res :
  Query ctx db p = Ok res →
  ∃ orderBy window,
    paged (qp_Limit p) orderBy (query_rows db p orderBy) = Ok window ∧
    Prev res = Prev window ∧ Next res = Next window ∧ sublist (Items res) (Items window) ∧
    (∀ sd, sd ∈ Items res → ∃ uri, CCKV sd = Some uri ∧ checkReadAccess ctx db uri sd = Ok tt) ∧
    (∀ sd, sd ∈ Items window → sd ∈ Items res ∨
       ∃ uri e, CCKV sd = Some uri ∧ checkReadAccess ctx db uri sd = Err e ∧ is_permission_denied e = true).
Proof.
  unfold Query. destruct (_ && _); [done|]. set (orderBy := if String.eqb _ _ then _ else _).
  intros Hr. apply rbind_ok_inv in Hr as (window & Hw & Hr). apply rbind_ok_inv in Hr as (filtered & Hf & [= <-]).
  apply filter_readable_spec in Hf as (Hs & Hall & Hc). exists orderBy, window. split_and!; try done; cbn.
  - intros sd Hin. rewrite Forall_forall in Hall. specialize (Hall _ Hin). cbn in Hall.
    destruct (CCKV sd) as [uri|]; [|done]. exists uri. by apply readable_true in Hall.
  - intros sd Hin. destruct (Hc sd Hin) as [|Hn]; [by left|]. right.
    destruct (CCKV sd) as [uri|]; [|done]. apply readable_false in Hn as (e & He & Hp). by exists uri, e.
Qed.

End Deletes.

(** ** Events for anonymous readers *)

Lemma map_traverse_lookup {A B} (f : string → A → result B) m m' k b :
  map_traverse f m = Ok m' → m' !! k = Some b ↔ ∃ a, m !! k = Some a ∧ f k a = Ok b.
Proof.
  unfold map_traverse. intros Hr. apply rbind_ok_inv in Hr as (l & Hl & [= <-]).
  pose proof (traverse_ok _ _ _ Hl) as HF.
  assert (fst <$> l = fst <$> map_to_list m) as Hkeys.
  { clear Hl. induction HF as [|[k1 a1] [k2 b2] l1 l2 H12 _ IH]; [done|]. cbn in *.
    apply rbind_ok_inv in H12 as (b' & _ & [= <- _]). by rewrite IH. }
  rewrite <- elem_of_list_to_map by (rewrite Hkeys; apply NoDup_fst_map_to_list).
  split.
  - intros Hin. apply list_elem_of_lookup in Hin as (i & Hi).
    destruct (Forall2_lookup_r _ _ _ _ _ HF Hi) as ([k1 a] & Ha & Hf). cbn in Hf.
    apply rbind_ok_inv in Hf as (b' & Hb & [= -> ->]). exists a. split; [|done].
    apply elem_of_map_to_list. by eapply list_elem_of_lookup_2.
  - intros (a & Ha & Hf). apply elem_of_map_to_list, list_elem_of_lookup in Ha as (i & Hi).
    destruct (Forall2_lookup_l _ _ _ _ _ HF Hi) as ([k2 b2] & Hb & Hf2). cbn in Hf2. rewrite Hf in Hf2.
    injection Hf2 as <- <-. by eapply list_elem_of_lookup_2.
Qed.

Section Events.
Context `{Url.NetIP} `{Json} `{StoreCodec} `{PolicyEval}.

Lemma anonymous_reads_true db uri sd :
  anonymous_reads db uri sd = Ok true ↔ checkReadAccessAs db uri sd zero_entity = Ok tt.
Proof. unfold anonymous_reads. by destruct (checkReadAccessAs db uri sd zero_entity) as [[]| |]. Qed.

Lemma mark_reference_ok db uri sd sd' :
  mark_reference db uri sd = Ok sd' →
  ∃ public nested, anonymous_reads db uri sd = Ok public ∧
    map_traverse (mark_nested db) (References sd) = Ok nested ∧
    sd' = with_references (with_public sd (Some public)) nested.
Proof.
  unfold mark_reference. intros Hr. apply rbind_ok_inv in Hr as (p & Hp & Hr).
  apply rbind_ok_inv in Hr as (n & Hn & [= <-]). by exists p, n.
Qed.

Lemma marked_lookup db e e' uri sd' :
  markEventForAnonymous db e = Ok e' →
  ev_References e' !! uri = Some sd' ↔ ∃ sd, ev_References e !! uri = Some sd ∧ mark_reference db uri sd = Ok sd'.
Proof.
  unfold markEventForAnonymous. case_decide as He.
  - intros [= <-]. rewrite He. split; [by rewrite lookup_empty|].
    intros (sd & Hl & _). by rewrite lookup_empty in Hl.
  - intros Hr. apply rbind_ok_inv in Hr as (m & Hm & [= <-]). cbn. by apply map_traverse_lookup.
Qed.

(** C27: what leaves the server unauthenticated is what anyone may read: after
    an event is marked, its public view holds a document exactly when the
    anonymous read check lets it through, and a nested one exactly when its
    own check does as well. *)
Theorem public_events db e e' :
  markEventForAnonymous db e = Ok e' →
  (∀ uri, is_Some (ev_References (PublicView e') !! uri) ↔
     ∃ sd, ev_References e !! uri = Some sd ∧ checkReadAccessAs db uri sd zero_entity = Ok tt) ∧
  (∀ uri shown nested, ev_References (PublicView e') !! uri = Some shown →
     is_Some (References shown !! nested) ↔
     ∃ sd n, ev_References e !! uri = Some sd ∧ References sd !! nested = Some n ∧
       checkReadAccessAs db nested n zero_entity = Ok tt).
Proof.
  intros Hm. split.
  - intros uri. split.
    + intros (shown & (sd' & [Hl Hp] & ->)%lookup_public_view).
      apply (marked_lookup db e) in Hl as (sd & Hsd & Hmk); [|done].
      apply mark_reference_ok in Hmk as (p & n & Hpub & _ & ->). cbn in Hp. injection Hp as ->.
      exists sd. split; [done|]. by apply anonymous_reads_true.
    + intros (sd & Hsd & Hc%anonymous_reads_true).
      assert (∃ sd', mark_reference db uri sd = Ok sd') as [sd' Hmk].
      { unfold markEventForAnonymous in Hm. case_decide as He; [by rewrite He, lookup_empty in Hsd|].
        apply rbind_ok_inv in Hm as (m & Hm & _). unfold map_traverse in Hm.
        apply rbind_ok_inv in Hm as (l & Hl & _). apply traverse_ok in Hl.
        apply elem_of_map_to_list, list_elem_of_lookup in Hsd as (i & Hi).
        destruct (Forall2_lookup_l _ _ _ _ _ Hl Hi) as (b & _ & Hb). cbn in Hb.
        apply rbind_ok_inv in Hb as (sd' & Hb & _). by exists sd'. }
      pose proof (mark_reference_ok _ _ _ _ Hmk) as (p & n & Hpub & _ & ->). simplify_eq.
      eexists. apply lookup_public_view. eexists. split; [split|done].
      * apply (marked_lookup db e); [done|]. by exists sd.
      * cbn. congruence.
  - intros uri shown nested (sd' & [Hl _] & ->)%lookup_public_view.
    apply (marked_lookup db e) in Hl as (sd & Hsd & Hmk); [|done].
    apply mark_reference_ok in Hmk as (p & m & _ & Hn & ->). cbn. split.
    + intros (n' & (n0 & [Hl Hp] & ->)%lookup_nested_view). cbn in Hl.
      apply (map_traverse_lookup _ _ _ _ _ Hn) in Hl as (n & Hin & Hmn).
      apply rbind_ok_inv in Hmn as (b & Hb & [= <-]). cbn in Hp. injection Hp as ->.
      exists sd, n. split; [done|]. split; [done|]. by apply anonymous_reads_true.
    + intros (sd2 & n & Hsd2 & Hin & Hc%anonymous_reads_true). simplify_eq.
      eexists. apply lookup_nested_view. eexists. split; [split|done].
      * cbn. apply (map_traverse_lookup _ _ _ _ _ Hn). exists n. split; [done|].
        unfold mark_nested. by rewrite Hc.
      * done.
Qed.
End Events.
