(* ===== verification/CommitReplay.v ===== *)
(** * CommitReplay: an accepted document is accepted once

    The repository never forgets a commit log, and a transaction that applies a
    document writes its log: from then on the document is answered without
    being checked or applied again, in whatever order and by whomever it is
    delivered.  [logs id m] is the judgement that [m] returns a result to be
    applied only after writing the log of [id]. *)

From S2P Require Import Prelude Bytes Url KeyUri Cdid Ccuri Documents Verify PolicyValues Store StoreFacts StoreInv.
From S2P Require Import Queries Effects Tags Usecase Commit CommitSafe CommitFacts.
From stdpp Require Import prelude strings gmap list relations.
From Stdlib Require Import ZArith Lia Ascii.
Open Scope Z_scope.
Open Scope uc_scope.

(** ** The repository keeps commit logs *)

Section Keeps.
Context `{Orm} `{StoreCodec} `{Url.NetIP}.

(** What a log says of its document, and ledgers that say the same. *)
Definition log_text (c : CommitLog) : string * string * string := (cl_Document c, cl_Proof c, cl_Owner c).
Definition same_texts (l l' : gmap string CommitLog) : Prop := ∀ id, log_text <$> l' !! id = log_text <$> l !! id.
Definition same_ledger (db db' : DB) : Prop := same_texts (commit_logs db) (commit_logs db').

#[export] Instance same_texts_preorder : PreOrder same_texts.
Proof. split; [by intros l id | intros l1 l2 l3 H12 H23 id; by rewrite H23]. Qed.

Lemma same_texts_flag l d : same_texts l (alter flag_gc d l).
Proof.
  intros id. destruct (decide (id = d)) as [->|Hne]; [|by rewrite lookup_alter_ne].
  rewrite lookup_alter_eq. by destruct (l !! d).
Qed.

Lemma delete_record_logs db d : commit_logs (delete_record db d) = commit_logs db.
Proof. unfold delete_record. by destruct (records db !! d). Qed.

Lemma insert_record_logs db d row db' : insert_record db d row = Ok db' → commit_logs db' = commit_logs db.
Proof.
  unfold insert_record. destruct (records db !! d); [by intros [= <-]|].
  destruct (commit_logs db !! d); [|done]. by intros [= <-].
Qed.

Lemma upsert_key_logs db key d p c cl b db' :
  upsert_key db key d p c cl = Ok (b, db') → commit_logs db' = commit_logs db.
Proof.
  unfold upsert_key. destruct (key_taken _ _); [by intros [= _ <-]|]. destruct (existsb _ _); [done|].
  by destruct (record_keys db !! key); intros [= _ <-].
Qed.

Lemma CreateRecord_logs fuel db d key o a s ou p ds rd c b db' :
  CreateRecord fuel db d key o a s ou p ds rd c = Ok (b, db') → same_ledger db db'.
Proof.
  unfold CreateRecord. destruct (key_taken _ _); [by intros [= _ <-]|]. intros Hr.
  apply rbind_ok_inv in Hr as (db1 & Hi%insert_record_logs & Hr).
  apply rbind_ok_inv in Hr as ([pid db2] & [(Hl2 & _) _]%getOrCreateParentRecordKey_spec & Hr).
  apply rbind_ok_inv in Hr as ([applied db3] & Hu%upsert_key_logs & Hr).
  unfold same_ledger. rewrite <- Hi, <- Hl2, <- Hu. destruct applied; injection Hr as _ <-; [|done].
  unfold retire_old. destruct (record_keys db !! key) as [k|]; [|done]. destruct (rk_RecordID k); [|done].
  destruct (_ && _); [|done]. rewrite delete_record_logs. apply same_texts_flag.
Qed.

(** Calls on the tables leave the ledger as it is. *)
Lemma table_step_ledger db db' : table_step db db' → same_ledger db db'.
Proof.
  destruct 1 as [db ? ? ? ? ? ? ? Hr|? ? ? ? ? ? ? ? ? ? ? ? ? ? Hr|db ? tgt ? ? ? ? ? ? ? ? Hr
    |? ? ? ? ? ? ? ? ? Hr|? ? ? ? ? ? ? ? ? Hr|db d|db owner|db uri| |]; intros id.
  - unfold CreateEntity in Hr. destruct (upsert_row _ _ _ _); [|by injection Hr as _ <-].
    destruct (commit_logs db !! _); [|done]. by injection Hr as _ <-.
  - apply (CreateRecord_logs _ _ _ _ _ _ _ _ _ _ _ _ _ _ Hr).
  - unfold CreateAssociation in Hr. apply rbind_ok_inv in Hr as (k & _ & Hr).
    destruct (_ || _); [by injection Hr as _ <-|].
    destruct (commit_logs db !! _); [|done]. by injection Hr as _ <-.
  - by apply rbind_ok_inv in Hr as ([? ?] & _ & [= _ <-]).
  - by apply rbind_ok_inv in Hr as ([? ?] & _ & [= _ <-]).
  - apply same_texts_flag.
  - cbn. rewrite lookup_fmap. destruct (commit_logs db !! id) as [c|]; [|done]. cbn. by destruct (String.eqb _ _).
  - unfold DeleteRecordByKey. destruct (record_keys db !! uri) as [k|]; [|done].
    destruct (rk_RecordID k); [|done]. by rewrite delete_record_logs.
  - unfold DeleteRecordByDocumentID. by rewrite delete_record_logs.
  - done.
Qed.

Lemma db_step_logs db db' id : db_step db db' → is_Some (commit_logs db !! id) → is_Some (commit_logs db' !! id).
Proof.
  destruct 1 as [? ? ? ? ? ? ? ? Hr|db db' Hs].
  - apply CreateCommitLog_grows in Hr as (l & -> & Hg & _). apply Hg.
  - apply table_step_ledger in Hs. specialize (Hs id). rewrite <- !fmap_is_Some with (f := log_text). by rewrite Hs.
Qed.

Lemma steps_logs db db' id : steps db db' → HasCommitLog db id = true → HasCommitLog db' id = true.
Proof.
  unfold HasCommitLog. intros Hs Hl. assert (is_Some (commit_logs db !! id)) as Hi by by destruct (_ !! id).
  clear Hl. enough (is_Some (commit_logs db' !! id)) as [? ->] by done.
  induction Hs as [|db1 db2 db3 H12 _ IH]; [done|]. by apply IH, (db_step_logs db1).
Qed.
End Keeps.

Section Logs.
Context `{Url.NetIP} `{Json} `{Keccak} `{Secp256k1} `{StoreCodec} `{Orm} `{Env} `{PolicyEval}.

(** ** Writing a log *)

Definition writes_log (id : string) (st : St) : Prop :=
  ∃ f, f ∈ st_tx st ∧ ∀ db, HasCommitLog (f db) id = true.

Lemma writes_log_prefix id st st' : st_tx st `prefix_of` st_tx st' → writes_log id st → writes_log id st'.
Proof. intros [l Hl] (f & Hf & Hw). exists f. split; [|done]. rewrite Hl. apply elem_of_app. by left. Qed.

Lemma CreateCommitLog_has db db1 now id ip doc proof owner :
  CreateCommitLog db now id ip doc proof owner = Ok db1 →
  ∀ db', ∃ db'', CreateCommitLog db' now id ip doc proof owner = Ok db'' ∧ HasCommitLog db'' id = true.
Proof.
  unfold CreateCommitLog, HasCommitLog. intros Hr db'. apply rbind_ok_inv in Hr as (pb & Hpb & _).
  rewrite Hpb. cbn. destruct (commit_logs db' !! id) as [log|] eqn:E; eexists; split; try done.
  - by rewrite E.
  - cbn. by rewrite lookup_insert_eq.
Qed.

Lemma commit_log_writes id ip sd owner st a st' :
  tx_commit_log id ip sd owner st = (Ok a, st') → writes_log id st'.
Proof.
  unfold tx_commit_log, tx_exec. destruct (CreateCommitLog (tx_view st) _ _ _ _ _ _) as [db1| |] eqn:E; [|done..].
  cbn. intros [= _ <-]. eexists. split; [cbn; apply elem_of_app; right; by left|]. intros db. cbn.
  destruct (CreateCommitLog_has _ _ _ _ _ _ _ _ E db) as (db2 & -> & Hh). exact Hh.
Qed.

(** A transaction's view holds the logs its statements write. *)
Lemma writes_log_view id st : tx_good st → writes_log id st → HasCommitLog (tx_view st) id = true.
Proof.
  unfold tx_by, tx_view. intros Hg (f & Hf & Hw). revert Hg Hf. generalize (st_db st).
  induction (st_tx st) as [|g fs IH]; intros db Hg Hf; [by apply elem_of_nil in Hf|].
  inversion Hg as [|?? Hg1 Hgs]; subst. cbn. apply elem_of_cons in Hf as [<-|Hf]; [|by apply IH].
  apply (steps_logs (f db)); [|apply Hw].
  apply (tx_view_steps (mkSt (f db) fs ∅ ∅ [])). exact Hgs.
Qed.

(** ** The judgement

    [logs applied P id m]: when [m] returns a result to be applied, it has
    written the log of [id], unless [P]. *)

Definition logs {A} (applied : A → bool) (P : Prop) (id : string) (m : M A) : Prop := ∀ st r st',
  tx_good st → m st = (Ok r, st') → applied r = true → writes_log id st' ∨ P.

Lemma safe_run {A} (m : M A) st x st' :
  safe m → tx_good st → m st = (x, st') → tx_good st' ∧ steps (st_db st) (st_db st').
Proof. intros Hm Hg E. destruct (Hm st Hg) as (? & ? & _). by rewrite E in *. Qed.

Lemma logs_noop {A} applied P id (r : A) : applied r = false → logs applied P id (retM r).
Proof. intros Hn st r' st' _ [= <- _] Hf. congruence. Qed.
Lemma logs_fail {A} (applied : A → bool) P id e : logs applied P id (failM e).
Proof. by intros st r st' _ [=]. Qed.
Lemma logs_panic {A} (applied : A → bool) P id : logs applied P id panicM.
Proof. by intros st r st' _ [=]. Qed.
Lemma logs_unless {A} (applied : A → bool) (P : Prop) id m : P → logs applied P id m.
Proof. by right. Qed.

Lemma logs_bind {A B} (applied : B → bool) P id (m : M A) k :
  safe m → (∀ a, logs applied P id (k a)) → logs applied P id (bindM m k).
Proof.
  intros Hm Hk st r st' Hg. unfold bindM. destruct (Hm st Hg) as (Hg' & _).
  destruct (m st) as [[a| |] st1]; [|done..]. by apply Hk.
Qed.

Lemma logs_lift {A B} (applied : B → bool) P id (x : result A) k :
  (∀ a, x = Ok a → logs applied P id (k a)) → logs applied P id (bindM (liftM x) k).
Proof. intros Hk st r st' Hg. unfold bindM, liftM. destruct x as [a| |]; [|done..]. by apply Hk. Qed.

Lemma logs_deref {A B} (applied : B → bool) P id (o : option A) k :
  (∀ a, o = Some a → logs applied P id (k a)) → logs applied P id (bindM (derefM o) k).
Proof. intros Hk st r st' Hg. unfold bindM. destruct o as [a|]; [|done]. by apply Hk. Qed.

(** The log is written by the first part; the rest keeps it. *)
Lemma logs_first {A B} (applied1 : A → bool) (applied : B → bool) P id m k :
  safe m → logs applied1 P id m → (∀ a, safe (k a)) →
  (∀ a, applied1 a = false → logs applied P id (k a)) → logs applied P id (bindM m k).
Proof.
  intros Hm Hl Hk Hn st r st' Hg. unfold bindM. destruct (Hm st Hg) as (Hg1 & _).
  destruct (m st) as [[a| |] st1] eqn:E; [|done..]. intros Hr Ha. destruct (applied1 a) eqn:Ea; [|by eapply Hn].
  destruct (Hl st a st1 Hg E Ea) as [Hw|]; [left|by right].
  destruct (Hk a st1 Hg1) as (_ & _ & Hp & _). rewrite Hr in Hp. by eapply writes_log_prefix.
Qed.

Lemma logs_after {B} (applied : B → bool) P id ip sd owner k :
  (∀ a, safe (k a)) → logs applied P id (bindM (tx_commit_log id ip sd owner) k).
Proof.
  intros Hk. apply (logs_first (λ _, true)); [apply safe_any_log| |done|done].
  intros st a st' _ E _. left. by eapply commit_log_writes.
Qed.

(** What a test answered is remembered. *)
Lemma logs_test {B} (applied : B → bool) P id (m : M bool) k :
  safe m → logs applied P id (k true) → ((∃ st1 st2, m st1 = (Ok false, st2)) → logs applied P id (k false)) →
  logs applied P id (bindM m k).
Proof.
  intros Hm Ht Hf st r st' Hg. unfold bindM. destruct (Hm st Hg) as (Hg' & _).
  destruct (m st) as [[[]| |] st1] eqn:E; [|..|done|done]; [by apply Ht|]. apply Hf; eauto.
Qed.

Definition to_apply (r : commitApplyResult) : bool := negb (ap_noop r).

(** A transaction that applies something leaves the log in the database. *)
Lemma logs_run_tx P id m st r st' :
  safe m → logs to_apply P id m → run_tx m st = (Ok r, st') → ap_noop r = false →
  HasCommitLog (st_db st') id = true ∨ P.
Proof.
  intros Hs Hm. unfold run_tx. pose proof (Hs (set_tx st []) ltac:(constructor)) as (Hg & _).
  destruct (m (set_tx st [])) as [[r1| |] st1] eqn:E; [|done..]. cbn in Hg. intros [= <- <-] Hn.
  rewrite Hn. destruct (Hm (set_tx st []) r1 st1 ltac:(constructor) E) as [Hw|]; [|left|by right].
  { unfold to_apply. by rewrite Hn. }
  by apply writes_log_view.
Qed.
End Logs.

(** Walks to the log, or to a result that applies nothing. *)
Ltac logs_walk :=
  repeat match goal with
  | Hi : CDID_ ?s = Ok ?i, Hj : CDID_ ?s = Ok ?j |- _ =>
      assert_fails (constr_eq i j); rewrite Hi in Hj; injection Hj as <-
  | |- logs _ _ _ (retM _) => apply logs_noop; reflexivity
  | |- logs _ _ _ (failM _) => apply logs_fail
  | |- logs _ _ _ panicM => apply logs_panic
  | |- logs _ _ _ (bindM (tx_commit_log _ _ _ _) _) => apply logs_after; intros ?; safe_walk
  | |- logs _ _ _ (bindM (liftM _) _) => apply logs_lift; intros ? ?
  | |- logs _ _ _ (bindM (derefM _) _) => apply logs_deref; intros ? ?
  | |- logs _ _ _ (bindM (IsLocalEntityByCCID _ _) _) => fail 1
  | |- logs _ _ _ (bindM _ _) => apply logs_bind; [solve [safe_walk]|intros ?]
  | |- logs _ _ _ (match ?x with _ => _ end) => destruct x eqn:?
  end.

Section Handlers.
Context `{Url.NetIP} `{Json} `{Keccak} `{Secp256k1} `{StoreCodec} `{Orm} `{Env} `{PolicyEval}.
Context (commit : string → SignedDocument → CommitMode → M SignedDocument) (ctx : Ctx).
Context (commit_safe : ∀ ip sd mode, safe (commit ip sd mode)).
Context (sd : SignedDocument) (id : string) (identified : CDID_ sd = Ok id).

#[local] Hint Resolve commit_safe safe_GetEntity safe_GetSigned safe_distribution safe_create_entity
  safe_create_record safe_create_association safe_ack safe_acked safe_mark safe_delete_all
  safe_getEntityWithReference safe_getBlockingUsers safe_run_action : uc_safe.

Lemma logs_saveEntity P ip : logs to_apply P id (saveEntity ip sd).
Proof. unfold saveEntity. logs_walk. Qed.

Lemma logs_createRecord P ip requester doc mode :
  logs to_apply P id (createRecord commit ctx ip requester doc sd mode).
Proof. unfold createRecord. logs_walk. Qed.

Lemma logs_deleteRecord P ip requester mode : logs to_apply P id (deleteRecord ip requester sd mode).
Proof. unfold deleteRecord. logs_walk. Qed.

Lemma logs_processAck P ip from to_ doc mode :
  logs to_apply P id (processAck commit ctx ip from to_ doc sd mode).
Proof.
  unfold processAck, ack_side, acked_side.
  destruct (is_ack_kind (Kind doc)); [|destruct (is_acked_kind (Kind doc))]; rewrite ?andb_false_r; logs_walk.
Qed.

(** *** Without a statement

    What only reads, or commits on its own, leaves an open transaction as it is. *)
#[local] Notation idle l := (keeps (λ st : St, st_tx st = l)).

Context (commit_idle : ∀ l ip sd mode, idle l (commit ip sd mode)).

Lemma idle_run_tx l m : idle l (run_tx m).
Proof. intros st <-. unfold run_tx. by destruct (m (set_tx st [])) as [[r| |] st1]. Qed.

Lemma idle_out l o : idle l (outM o).
Proof. by intros st. Qed.

Lemma idle_read {A} l (f : DB → result A) : idle l (readM f).
Proof. by intros st. Qed.

Lemma idle_deref {A} l (o : option A) : idle l (derefM o).
Proof. intros st Hst. by destruct o. Qed.

#[local] Hint Resolve commit_idle idle_run_tx idle_out idle_read idle_deref : keeps.

Lemma idle_get_entity l rec uri : (∀ u, idle l (rec u)) → idle l (get_entity commit rec uri).
Proof. intros Hrec. unfold get_entity, get_entity_by_ccid. keeps_walk. Qed.

Lemma idle_GetEntity l uri : idle l (GetEntity commit uri).
Proof. apply idle_get_entity. intros u. apply idle_get_entity. intros v. by apply keeps_pure. Qed.
#[local] Hint Resolve idle_GetEntity : keeps.

Lemma idle_IsLocal l id0 : idle l (IsLocalEntityByCCID commit id0).
Proof. unfold IsLocalEntityByCCID. keeps_walk. Qed.

Lemma idle_GetSigned l uri : idle l (GetSigned commit ctx uri).
Proof. unfold GetSigned, CanonicalizeURI. keeps_walk. Qed.

Lemma idle_with_reference l ip ccid sd0 : idle l (getEntityWithReference commit ip ccid sd0).
Proof. unfold getEntityWithReference. keeps_walk. Qed.
#[local] Hint Resolve idle_IsLocal idle_GetSigned idle_with_reference : keeps.

Lemma logs_association_local P ip requester doc mode target owner ccfs :
  logs fst P id (association_local commit ctx ip requester doc sd mode target owner id ccfs).
Proof. unfold association_local. logs_walk. Qed.

Lemma idle_commit_body l ip sd0 mode : idle l (commit_body commit ctx ip sd0 mode).
Proof.
  unfold commit_body, commit_new, parse_document, resolve_requester, check_block, getBlockingUsers, choose_handler,
    after_commit, run_action. keeps_walk. by intros st.
Qed.

(** *** A handler on a fresh transaction

    When it applies something, it has written the log or no statement at all. *)
Definition logs_or_idle {A} (applied : A → bool) (m : M A) : Prop := ∀ st r st',
  tx_good st → st_tx st = [] → m st = (Ok r, st') → applied r = true → writes_log id st' ∨ st_tx st' = [].

Lemma logs_logs_or_idle {A} (applied : A → bool) m : logs applied False id m → logs_or_idle applied m.
Proof. intros Hl st r st' Hg _ Hr Ha. destruct (Hl st r st' Hg Hr Ha) as [|[]]. by left. Qed.

Lemma idle_logs_or_idle {A} (applied : A → bool) m : idle [] m → logs_or_idle applied m.
Proof. intros Hi st r st' _ Htx Hr _. right. specialize (Hi st Htx). by rewrite Hr in Hi. Qed.

Lemma logs_or_idle_bind {A B} (applied : B → bool) (m : M A) k :
  safe m → idle [] m → (∀ a st st', m st = (Ok a, st') → logs_or_idle applied (k a)) → logs_or_idle applied (bindM m k).
Proof.
  intros Hs Hi Hk st r st' Hg Htx Hr. apply bindM_inv in Hr as (a & st1 & Hm & Hr).
  apply (Hk a st st1 Hm st1 r st'); [by eapply safe_run| |done]. specialize (Hi st Htx). by rewrite Hm in Hi.
Qed.

Lemma deref_inv {A} (o : option A) st a st' : derefM o st = (Ok a, st') → o = Some a.
Proof. destruct o; [by intros [= -> _]|done]. Qed.

Lemma lift_inv {A} (r : result A) (st : St) a st' : liftM r st = (Ok a, st') → r = Ok a.
Proof. unfold liftM. congruence. Qed.

Lemma logs_createAssociation ip requester doc mode :
  logs_or_idle to_apply (createAssociation commit ctx ip requester doc sd mode).
Proof.
  unfold createAssociation. do 6 (apply logs_or_idle_bind; [safe_walk|keeps_walk|intros ? ? ? ?]).
  apply logs_or_idle_bind; [safe_walk|keeps_walk|]. intros id' sta stb Hid.
  repeat match goal with
  | Hx : derefM _ _ = _ |- _ => apply deref_inv in Hx
  | Hx : liftM _ _ = _ |- _ => apply lift_inv in Hx
  end.
  assert (id' = id) as -> by congruence.
  apply logs_or_idle_bind; [by eauto using safe_IsLocal with uc_safe|keeps_walk|]. intros [] stc std _.
  2:{ apply idle_logs_or_idle. cbn [fst snd]. keeps_walk. }
  apply logs_logs_or_idle. apply logs_bind; [safe_walk|]. intros requesterSD.
  apply (logs_first fst); [apply safe_association_local; [apply _|apply _|done|apply _| |done]; repeat eexists; eassumption
    |apply logs_association_local| |].
  - intros local. safe_walk.
  - intros local ->. by apply logs_noop.
Qed.

Lemma logs_handler mode doc ip requester h st r st' : tx_good st → st_tx st = [] →
  applyCommit commit ctx h ip requester doc sd mode st = (Ok r, st') → ap_noop r = false →
  writes_log id st' ∨ (h = CreateAssociation_ ∧ st_tx st' = []).
Proof.
  intros Hg Htx Hr Hn. assert (to_apply r = true) as Ha by (unfold to_apply; by rewrite Hn).
  assert (∀ m, logs to_apply False id m → m st = (Ok r, st') → writes_log id st' ∨ (h = CreateAssociation_ ∧ st_tx st' = []))
    as Hlog by (intros m Hl Hm; destruct (Hl st r st' Hg Hm Ha) as [|[]]; by left).
  destruct h; cbn [applyCommit] in Hr.
  - apply (Hlog _ (logs_saveEntity _ _) Hr).
  - refine (Hlog _ _ Hr). apply logs_deref. intros. apply logs_createRecord.
  - apply bindM_inv in Hr as (e & st1 & He & Hr). assert (st1 = st) as -> by (destruct requester; [by injection He|discriminate He]).
    destruct (logs_createAssociation _ _ _ _ _ _ _ Hg Htx Hr Ha); auto.
  - refine (Hlog _ _ Hr). apply logs_deref. intros. apply logs_processAck.
  - refine (Hlog _ _ Hr). apply logs_deref. intros. apply logs_deleteRecord.
Qed.

(** ** One delivery *)

(** What [Commit] does for a new document before the transaction: the checks,
    the entities it resolves - committing what other servers answer - and the
    choice of the handler. *)
Definition prepare (ip : string) (doc : Document any_) (mode : CommitMode) : M (handler * option Entity) :=
  checkM (CreatedAt doc <=? now + MaxFutureSkew)
    (ValidationError "createdAt" "createdAt is too far in the future") ;;
  liftM (check_signed ctx mode sd doc) ;;
  let* resolved := resolve_requester commit ip doc sd in
  let* requester := liftM (admit_requester doc resolved) in
  let* targetUserID := liftM (target_user doc) in
  check_block doc targetUserID ;;
  let* h := choose_handler commit ip doc sd targetUserID in
  retM (h, requester).

Lemma safe_handler_choice ip doc target : safe (choose_handler commit ip doc sd target).
Proof. unfold choose_handler. safe_walk. Qed.
Lemma safe_block doc target : safe (check_block doc target).
Proof. unfold check_block. safe_walk. Qed.
Lemma safe_requester ip doc : safe (resolve_requester commit ip doc sd).
Proof. unfold resolve_requester. safe_walk. Qed.
#[local] Hint Resolve safe_handler_choice safe_block safe_requester : uc_safe.

Lemma safe_prepare ip doc mode : safe (prepare ip doc mode).
Proof. unfold prepare. safe_walk. Qed.

Lemma commit_new_prepared ip doc mode st r st' : commit_new commit ctx ip sd doc mode st = (Ok r, st') →
  ∃ h requester st1 r1 st3, prepare ip doc mode st = (Ok (h, requester), st1) ∧
    run_tx (applyCommit commit ctx h ip requester doc sd mode) st1 = (Ok r1, st3) ∧
    (if ap_noop r1 then retM (ap_result r1) else after_commit doc r1) st3 = (Ok r, st').
Proof.
  intros Hr. unfold commit_new in Hr. apply bindM_inv in Hr as (u & sta & E1 & Hr).
  apply bindM_inv in Hr as (u2 & stb & E2 & Hr). apply bindM_inv in Hr as (resolved & stc & E3 & Hr).
  apply bindM_inv in Hr as (requester & std & E4 & Hr). apply bindM_inv in Hr as (target & ste & E5 & Hr).
  apply bindM_inv in Hr as (u3 & stf & E6 & Hr). apply bindM_inv in Hr as (h & stg & E7 & Hr).
  apply bindM_inv in Hr as (r1 & sth & E8 & Hr). exists h, requester, stg, r1, sth. split; [|done].
  unfold prepare. by rewrite (bindM_ok _ _ _ _ _ E1), (bindM_ok _ _ _ _ _ E2), (bindM_ok _ _ _ _ _ E3),
    (bindM_ok _ _ _ _ _ E4), (bindM_ok _ _ _ _ _ E5), (bindM_ok _ _ _ _ _ E6), (bindM_ok _ _ _ _ _ E7).
Qed.

Lemma after_commit_db doc r st : st_db (snd (after_commit doc r st)) = st_db st.
Proof.
  assert (keeps (λ st', st_db st' = st_db st) (after_commit doc r)) as Hk; [|by apply Hk].
  assert (∀ o, keeps (λ st', st_db st' = st_db st) (outM o)) as Ho by (intros o st1; done).
  assert (∀ A (f : DB → result A), keeps (λ st', st_db st' = st_db st) (readM f)) as Hr by (intros A f st1; done).
  unfold after_commit, run_action. keeps_walk.
Qed.

(** The handler's transaction came to nothing: it was discarded, with nothing
    sent, because the document is already superseded; or it has no statement,
    for an association that another server keeps. *)
Definition nothing_written (ip : string) (doc : Document any_) (mode : CommitMode) (st : St) (r : SignedDocument)
    (st' : St) : Prop := ∃ h requester st1 r1 st2,
  prepare ip doc mode st = (Ok (h, requester), st1) ∧
  applyCommit commit ctx h ip requester doc sd mode (set_tx st1 []) = (Ok r1, st2) ∧
  st_db st' = st_db st2 ∧
  ((ap_noop r1 = true ∧ r = ap_result r1 ∧ st_out st' = st_out st2) ∨ (h = CreateAssociation_ ∧ st_tx st2 = [])).

Lemma commit_new_logs ip doc mode st r st' :
  tx_good st → commit_new commit ctx ip sd doc mode st = (Ok r, st') →
  HasCommitLog (st_db st') id = true ∨ nothing_written ip doc mode st r st'.
Proof.
  intros Hg Hr. apply commit_new_prepared in Hr as (h & requester & st1 & r1 & st3 & Hp & Hrun & Hr).
  pose proof (safe_run _ _ _ _ (safe_prepare ip doc mode) Hg Hp) as [Hg1 _].
  pose proof (safe_applyCommit commit ctx commit_safe h ip requester doc sd mode (set_tx st1 []) ltac:(constructor)) as (Hg2 & _).
  unfold run_tx in Hrun. destruct (applyCommit commit ctx h ip requester doc sd mode (set_tx st1 [])) as [[ra| |] st2] eqn:Ha;
    [|done..]. injection Hrun as <- <-. destruct (ap_noop ra) eqn:Hn.
  { injection Hr as <- <-. right. exists h, requester, st1, ra, st2. split_and!; [done..|]. by left. }
  assert (st_db st' = tx_view st2) as Hdb.
  { pose proof (after_commit_db doc ra (set_tx (set_db st2 (tx_view st2)) (st_tx st1))) as E. by rewrite Hr in E. }
  destruct (logs_handler mode doc ip requester h (set_tx st1 []) ra st2 ltac:(constructor) eq_refl Ha Hn) as [Hw|[-> Htx]].
  - left. rewrite Hdb. by apply writes_log_view.
  - right. exists CreateAssociation_, requester, st1, ra, st2. split_and!; [done..| |by right].
    rewrite Hdb. unfold tx_view. by rewrite Htx.
Qed.

End Handlers.

Section Replay.
Context `{Url.NetIP} `{Json} `{Keccak} `{Secp256k1} `{StoreCodec} `{Orm} `{Env} `{PolicyEval}.

(** A logged document is answered, whoever delivers it: nothing is verified
    again and nothing changes. *)
Lemma logged_answered fuel ctx ip sd mode doc st :
  unmarshal_document (sd_Document sd) = Ok doc → (Str.len (sd_Document sd) <= MaxDocumentSize)%nat →
  rejectAliasOwners doc = Ok tt → HasCommitLog (st_db st) (cdid_of sd doc) = true →
  Commit (S fuel) ctx ip sd mode st = (Ok sd, st).
Proof.
  intros Hdoc Hsize Hown Hlog. cbn [Commit]. unfold commit_body, parse_document.
  rewrite bindM_check. apply Nat.leb_le in Hsize as ->. rewrite bindM_lift, Hdoc, bindM_lift, Hown, bindM_lift.
  unfold CDID_, ParsedDocument. rewrite Hdoc. cbn [mbind result_bind rbind]. rewrite bindM_gets.
  fold (cdid_of sd doc). by rewrite Hlog.
Qed.

(** Commits leave an open transaction as they found it. *)
Lemma Commit_idle fuel ctx l ip sd mode : keeps (λ st : St, st_tx st = l) (Commit fuel ctx ip sd mode).
Proof.
  revert l ip sd mode. induction fuel as [|fuel IH]; intros l ip sd mode; cbn [Commit]; [by apply keeps_pure|].
  by apply idle_commit_body.
Qed.

(** C10: a document is applied at most once.  When a commit succeeds, then
    either its log is there, and from that state on - after any number of
    repository operations, under any context, from any address and in any mode -
    the same document is answered with itself and changes nothing at all; or
    this commit itself wrote nothing: the database is as it was left by
    preparing it and by the commits of other entities on the way, because the
    transaction of its handler was discarded, with nothing sent, or had no
    statement, which only an association on another server's document has. *)
Theorem commit_once fuel ctx ip sd mode st r st' :
  st_tx st = [] → Commit (S fuel) ctx ip sd mode st = (Ok r, st') →
  (∀ fuel2 ctx2 ip2 mode2 st2, rtc db_step (st_db st') (st_db st2) →
     Commit (S fuel2) ctx2 ip2 sd mode2 st2 = (Ok sd, st2)) ∨
  ∃ doc h requester st1 r1 st2,
    unmarshal_document (sd_Document sd) = Ok doc ∧
    prepare (Commit fuel ctx) ctx sd ip doc mode st = (Ok (h, requester), st1) ∧
    applyCommit (Commit fuel ctx) ctx h ip requester doc sd mode (set_tx st1 []) = (Ok r1, st2) ∧
    st_db st' = st_db st2 ∧
    ((ap_noop r1 = true ∧ r = ap_result r1 ∧ st_out st' = st_out st2) ∨ (h = CreateAssociation_ ∧ st_tx st2 = [])).
Proof.
  intros Htx Hr. assert (tx_good st) as Hg by (unfold tx_by; rewrite Htx; constructor).
  cbn [Commit] in Hr. unfold commit_body, parse_document in Hr.
  rewrite bindM_check in Hr. destruct (_ <=? _)%nat eqn:Hsize; [|done]. apply Nat.leb_le in Hsize.
  rewrite bindM_lift in Hr. destruct (unmarshal_document _) as [doc| |] eqn:Hdoc; [|done..].
  rewrite bindM_lift in Hr. destruct (rejectAliasOwners doc) as [[]| |] eqn:Hown; [|done..].
  rewrite bindM_lift in Hr. destruct (CDID_ sd) as [id| |] eqn:Hid; [|done..]. rewrite bindM_gets in Hr.
  assert (id = cdid_of sd doc) as ->.
  { unfold CDID_, ParsedDocument in Hid. rewrite Hdoc in Hid. by injection Hid as <-. }
  enough (HasCommitLog (st_db st') (cdid_of sd doc) = true ∨
    nothing_written (Commit fuel ctx) ctx sd ip doc mode st r st') as [Hl|(h & requester & st1 & r1 & st2 & Hx)].
  { left. intros fuel2 ctx2 ip2 mode2 st2 Hs. apply logged_answered with doc; [done..|]. by eapply steps_logs. }
  { right. by exists doc, h, requester, st1, r1, st2. }
  destruct (HasCommitLog (st_db st) _) eqn:Hlog; [by injection Hr as <- <-; left|].
  eapply commit_new_logs; [intros; apply safe_Commit|done|intros; apply Commit_idle|done|exact Hr].
Qed.
End Replay.
