(* ===== verification/Auth.v ===== *)
(** * Auth: who makes a request
      ([src/internal/present/rest/middleware/auth.go], [proxy.go], [src/impl/interop])

    The middleware reads the request's bearer token and decides whose request
    it is.  A token it cannot accept leaves the request anonymous; only a
    blocked entity or server is refused.  The proxy hands the identity on to
    the services behind it as headers. *)

From S2P Require Import Prelude Effects Bytes Url Cdid Ccuri Documents Verify Jwt Client ClientFacts.
From S2P Require Import PolicyValues Store Queries Tags Usecase Commit CommitSafe CommitFacts.
From stdpp Require Import prelude strings gmap list.
From Stdlib Require Import ZArith Lia Ascii.
Open Scope Z_scope.
Open Scope uc_scope.

(** ** The client's side

    What the middleware asks of the client: [GetRecord]'s signed document,
    which was verified. *)
Class RecordClient (resolver : Resolver) `{Url.NetIP} `{Json} `{Keccak} `{Secp256k1} := {
  client_record : string → Options → result SignedDocument;
  client_record_verified uri opts sd :
    op_SkipVerify opts = false → client_record uri opts = Ok sd →
    (∀ l, op_AllowedProofTypes opts = Some l → pr_Type (sd_Proof sd) ∈ l) ∧ accepted resolver sd;
}.

Section Implementation.
Context `{Web} `{ClientJson} `{UriTemplate} `{Url.NetIP} `{Json} `{Keccak} `{Secp256k1} `{StoreCodec}.
Context (defaultResolver : string) (resolver : Resolver) (c : Client).
Context (c_ok : cache_ok resolver c) (hashes : content_hash).

(** The client in a state with a sound cache keeps that promise. *)
Program Instance client_records : RecordClient resolver := {|
  client_record uri opts := fst (GetSignedRecord resolver (GetResource defaultResolver resolver 2) uri opts c);
|}.
Next Obligation.
  intros uri opts sd Hskip Hr.
  exact (record_checked resolver _ uri opts c sd (keeps_GetResource defaultResolver resolver 2) c_ok hashes Hskip Hr).
Qed.
End Implementation.

(** ** The middleware *)

(** What the request's context carries: nothing, a service account with the
    account type its token names, or an entity with its tags. *)
Inductive Requester : Type :=
| Anonymous
| ServiceAccount (csid type : string)
| Authenticated (entity : Entity) (tags : gmap string string).

Inductive Identified : Type :=
| Continue (r : Requester)
| HTTPError (code : Z) (msg : string).

(** What the use cases read: the entity, and whether it is the system account. *)
Definition context_of (r : Requester) : Ctx :=
  match r with
  | Anonymous => mkCtx None false
  | ServiceAccount _ type => mkCtx None (String.eqb type "system")
  | Authenticated entity _ => mkCtx (Some entity) false
  end.

Class AuthConfig := config_CSID : string.

(** [time.Now().Unix()] of the nanosecond clock. *)
Definition unix `{Env} : Z := now / 1000000000.

Section Auth.
Context `{Url.NetIP} `{Json} `{Keccak} `{Secp256k1} `{StoreCodec} `{Env} `{JwtJson} `{AuthConfig}.
Context `{!RecordClient Usecase.resolver}.
Context (commit : string → SignedDocument → CommitMode → M SignedDocument).

Definition skip : M Identified := retM (Continue Anonymous).

(** [err != nil]: the request stays anonymous. *)
Definition orSkip {A} (r : result A) (k : A → M Identified) : M Identified :=
  match r with Ok a => k a | Err _ => skip | Panic => panicM end.

Definition subkey_options : Options := mkOptions "" false false (Some [ProofTypeEcrecover]).

(** The address that must have signed the token: the issuer's own key, or the
    key an enact document of the issuer names. *)
Definition expected_signer (keyID issuer : string) : result string :=
  parsed ← ParseCCURI keyID;
  let ccid := Ccuri.Owner parsed in
  parsedIssuer ← ParseCCURI issuer;
  _ ← Verify.guard (String.eqb ccid (Ccuri.Owner parsedIssuer)) (GoError "key owner does not match jwt issuer");
  if String.eqb (Ccuri.Key parsed) "" then Ok ccid
  else
    sd ← client_record keyID subkey_options;
    subKeyDoc ← unmarshal_typed decode_subkey (sd_Document sd);
    _ ← Verify.guard (String.eqb (Schema subKeyDoc) SubkeyURL)
          (GoError "subkey document is not a subkey enact document");
    _ ← Verify.guard (String.eqb (Author subKeyDoc) ccid) (GoError "subkey document author does not match issuer");
    Ok (CKID (Value subKeyDoc)).

Definition identify_entity (token : string) (header : Header) (claims : Claims) : M Identified :=
  let* found := tryM (GetEntity commit (Issuer claims)) in
  orSkip found (λ requester,
  let entityTag := ParseTags (e_TagString requester) in
  if Has entityTag "_blocked" then retM (HTTPError 403 "entity is blocked")
  else
    orSkip (resolve_server (e_Domain requester)) (λ srv,
    if Has (ParseTags (snd srv)) "_blocked" then retM (HTTPError 403 "server is blocked")
    else
      let keyID := if String.eqb (KeyID header) "" then Issuer claims else KeyID header in
      orSkip (rbind (expected_signer keyID (Issuer claims)) (Validate unix token)) (λ _,
      retM (Continue (Authenticated requester entityTag))))).

Definition identify_token (token : string) : M Identified :=
  orSkip (Parse token) (λ '(header, claims),
  if String.eqb (Issuer claims) config_CSID then
    orSkip (Validate unix token config_CSID) (λ _, retM (Continue (ServiceAccount config_CSID (Subject claims))))
  else if negb (String.eqb (Audience claims) FQDN) && negb (String.eqb (Audience claims) config_CSID) then skip
  else if negb (String.eqb (Subject claims) "concrnt") then skip
  else identify_entity token header claims).

Definition IdentifyIdentity (authHeader : string) : M Identified :=
  if String.eqb authHeader "" then skip
  else
    match Str.split authHeader " " with
    | [authType; token] => if negb (String.eqb authType "Bearer") then skip else identify_token token
    | _ => skip
    end.

(** [Recaptcha]: verified when a challenge was sent and the validator accepts it. *)
Definition Recaptcha (validator : string → result unit) (challenge : string) : bool :=
  negb (String.eqb challenge "") && is_ok (validator challenge).

(** ** What a token proves *)

(** [key_of issuer address]: the address speaks for the owner of the issuer: it
    is the owner itself, or the subkey of an enact document that the owner's
    own key signed. *)
Definition key_of (owner address : string) : Prop :=
  address = owner ∨
  ∃ sd enact, accepted Usecase.resolver sd ∧ pr_Type (sd_Proof sd) = ProofTypeEcrecover ∧
    unmarshal_typed decode_subkey (sd_Document sd) = Ok enact ∧ Schema enact = SubkeyURL ∧
    Author enact = owner ∧ CKID (Value enact) = address.

Lemma expected_signer_ok keyID issuer address :
  expected_signer keyID issuer = Ok address →
  ∃ parsed, ParseCCURI issuer = Ok parsed ∧ key_of (Ccuri.Owner parsed) address.
Proof.
  unfold expected_signer. intros Hr. apply rbind_ok_inv in Hr as (parsed & Hp & Hr).
  apply rbind_ok_inv in Hr as (parsedIssuer & Hi & Hr). apply rbind_ok_inv in Hr as ([] & Hg & Hr).
  apply guard_ok, String.eqb_eq in Hg. exists parsedIssuer. split; [done|]. rewrite <- Hg.
  destruct (String.eqb (Ccuri.Key parsed) ""); [injection Hr as <-; by left|].
  apply rbind_ok_inv in Hr as (sd & Hsd & Hr). inv_checks.
  apply client_record_verified in Hsd as [Ht Ha]; [|done]. right. exists sd.
  specialize (Ht _ eq_refl). apply list_elem_of_singleton in Ht. eauto 10.
Qed.


(** What identifies a request as the server's own account. *)
Definition as_service_account (token type : string) : Prop := ∃ header claims,
  Parse token = Ok (header, claims) ∧ Issuer claims = config_CSID ∧ Subject claims = type ∧
  Validate unix token config_CSID = Ok tt.

(** What identifies it as an entity: a token for this server that a key of its
    issuer signed, whose issuer resolves to the entity, neither it nor its
    server blocked.  An issuer is the entity's id; an alias in its place
    resolves to the entity that has it, but the address that must have signed
    is then the text of the alias. *)
Record as_entity (token : string) (st st' : St) (e : Entity) : Prop := {
  ae_token : ∃ header claims issuer address srv,
    Parse token = Ok (header, claims) ∧ (Audience claims = FQDN ∨ Audience claims = config_CSID) ∧
    Subject claims = "concrnt" ∧
    GetEntity commit (Issuer claims) st = (Ok e, st') ∧ ParseCCURI (Issuer claims) = Ok issuer ∧
    (e_ID e = Ccuri.Owner issuer ∨ Str.has_prefix (Ccuri.Owner issuer) "@" = true) ∧
    key_of (Ccuri.Owner issuer) address ∧ Validate unix token address = Ok tt ∧
    resolve_server (e_Domain e) = Ok srv ∧ Has (ParseTags (snd srv)) "_blocked" = false;
  ae_unblocked : Has (ParseTags (e_TagString e)) "_blocked" = false;
}.

(** What the token of a request shows of the requester the middleware found. *)
Definition identity_shown (authHeader : string) (st st' : St) (r : Requester) : Prop :=
  match r with
  | Anonymous => True
  | ServiceAccount csid type => csid = config_CSID ∧
      ∃ token, authHeader = "Bearer " +:+ token ∧ as_service_account token type
  | Authenticated e tags => tags = ParseTags (e_TagString e) ∧
      ∃ token, authHeader = "Bearer " +:+ token ∧ as_entity token st st' e
  end.

Lemma orSkip_inv {A} (r : result A) k st out st' :
  orSkip r k st = (Ok (Continue out), st') → out = Anonymous ∨ ∃ a, r = Ok a ∧ k a st = (Ok (Continue out), st').
Proof. destruct r as [a| |]; cbn; [by eauto|intros [= <- _]; by left|done]. Qed.

Lemma identify_entity_sound token header claims st r st' :
  Parse token = Ok (header, claims) → Audience claims = FQDN ∨ Audience claims = config_CSID →
  Subject claims = "concrnt" → identify_entity token header claims st = (Ok (Continue r), st') →
  r = Anonymous ∨ ∃ e, r = Authenticated e (ParseTags (e_TagString e)) ∧ as_entity token st st' e.
Proof.
  intros Hparse Haud Hsub Hr. unfold identify_entity in Hr. apply bindM_inv in Hr as (found & st1 & Hf & Hr).
  apply orSkip_inv in Hr as [|(e & -> & Hr)]; [by left|].
  destruct (Has (ParseTags (e_TagString e)) "_blocked") eqn:Hb; [done|].
  apply orSkip_inv in Hr as [|(srv & Hsrv & Hr)]; [by left|].
  destruct (Has (ParseTags (snd srv)) "_blocked") eqn:Hsb; [done|].
  apply orSkip_inv in Hr as [|([] & Hv & Hr)]; [by left|]. injection Hr as <- <-.
  apply rbind_ok_inv in Hv as (address & Hs & Hv). apply expected_signer_ok in Hs as (issuer & Hi & Hk).
  assert (GetEntity commit (Issuer claims) st = (Ok e, st1)) as Hg.
  { unfold tryM in Hf. destruct (GetEntity commit (Issuer claims) st) as [[]]; congruence. }
  right. exists e. split; [done|]. split; [|done]. exists header, claims, issuer, address, srv.
  split_and!; [done..| |done|done|done|done].
  destruct (Str.has_prefix (Ccuri.Owner issuer) "@") eqn:Ha; [by right|left; by eapply GetEntity_id].
Qed.

Lemma identified authHeader st r st' :
  IdentifyIdentity authHeader st = (Ok (Continue r), st') → identity_shown authHeader st st' r.
Proof.
  unfold IdentifyIdentity. destruct (String.eqb authHeader ""); [by intros [= <- _]|].
  destruct (Str.split authHeader " ") as [|authType [|token []]] eqn:Hs; try (by intros [= <- _]).
  destruct (String.eqb_spec authType "Bearer") as [->|]; cbn [negb]; [|by intros [= <- _]].
  apply split_cons_inv in Hs as (_ & [[[=] _]|(b & -> & Hs)]). apply split_cons_inv in Hs as (_ & [[_ <-]|(b' & -> & Hs)]);
    [|by destruct (split_nonempty b' " ")].
  intros Hr. unfold identify_token in Hr. apply orSkip_inv in Hr as [->|([header claims] & Hp & Hr)]; [done|].
  destruct (String.eqb_spec (Issuer claims) config_CSID) as [Hi|].
  { apply orSkip_inv in Hr as [->|([] & Hv & Hr)]; [done|]. injection Hr as <- _. split; [done|].
    exists b. split; [done|]. by exists header, claims. }
  destruct (_ && _) eqn:Ha; [by injection Hr as <- _|].
  destruct (String.eqb_spec (Subject claims) "concrnt") as [Hsub|]; cbn [negb] in Hr; [|by injection Hr as <- _].
  apply identify_entity_sound in Hr as [->|(e & -> & He)]; [done| |done| |done].
  - split; [done|]. by exists b.
  - destruct (String.eqb_spec (Audience claims) FQDN); [by left|].
    destruct (String.eqb_spec (Audience claims) config_CSID); [by right|]. done.
Qed.

(** C29: nobody is who they are not.  A request that passes as the server's
    own account carries an unexpired token that names the server as its issuer
    and that the server's own key signed, whatever its audience; the account's
    type is the token's subject.  One that passes as an entity carries an
    unexpired token whose audience is this server and whose issuer resolves to
    that entity, signed by the issuer's own key or by a subkey of it that the
    issuer's own key enacted, and neither the entity nor its server is blocked. *)
Theorem IdentifyIdentity_sound authHeader st r st' :
  IdentifyIdentity authHeader st = (Ok (Continue r), st') → identity_shown authHeader st st' r.
Proof. apply identified. Qed.

End Auth.

(** ** From the token to the database *)

Section Requests.
Context `{Url.NetIP} `{Json} `{Keccak} `{Secp256k1} `{StoreCodec} `{Env} `{JwtJson} `{AuthConfig} `{Orm} `{PolicyEval}.
Context `{!RecordClient Usecase.resolver}.

(** C2: whoever sends it, a document enters the database only with a valid
    signature, or with a token of the server's own system account; and the
    requester it enters under is who the request's token shows.  A request that
    the middleware lets through and whose commit succeeds is anonymous, or has a
    token of the server's own key, or has one for this server signed by a key of
    the very account the commit runs as; and it brings a document that was logged
    before, that the verifier authorises, or the account is the system account. *)
Theorem request_admitted fuel commit authHeader st0 r st1 ip sd mode :
  IdentifyIdentity commit authHeader st0 = (Ok (Continue r), st1) →
  is_ok (fst (Commit (S fuel) (context_of r) ip sd mode st1)) = true →
  identity_shown commit authHeader st0 st1 r ∧
  ∃ doc, unmarshal_document (sd_Document sd) = Ok doc ∧
    (HasCommitLog (st_db st1) (cdid_of sd doc) = true ∨
     authorised Usecase.resolver maxVerifyDepth sd ∨
     r = ServiceAccount config_CSID "system").
Proof.
  intros Hi Hok. pose proof (identified commit authHeader st0 r st1 Hi) as Hr. split; [done|].
  destruct (admission fuel (context_of r) ip sd mode st1) as [[_ Hf]|[(doc & Hd & Hl & _)|(doc & Ha & _)]].
  - rewrite Hf in Hok. discriminate.
  - eauto.
  - exists doc. split; [apply Ha|]. destruct (adm_signed _ _ _ _ Ha) as [Hs|(Hv & _)]; [|by right; left].
    right; right. destruct r as [|csid type|e tags]; cbn in Hs; try discriminate.
    apply String.eqb_eq in Hs as ->. by destruct Hr as (-> & _).
Qed.
End Requests.

(** ** Handing the identity on ([proxy.go], [interop/middleware.go]) *)

(** [interop.Entity] *)
Record InteropEntity : Type := mkInteropEntity {
  ie_ID : string;
  ie_Alias : option string;
  ie_Domain : string;
  ie_TagString : string;
}.

#[global] Instance InteropEntity_eq_dec : EqDecision InteropEntity.
Proof. solve_decision. Defined.

Definition interop (e : Entity) : InteropEntity := mkInteropEntity (e_ID e) (e_Alias e) (e_Domain e) (e_TagString e).

Class EntityJson := {
  marshal_entity : Entity → result string;
  unmarshal_entity : string → result InteropEntity;
}.

Definition RequesterHeader : string := "cc-requester".
Definition RequesterTagHeader : string := "cc-requester-tag".
Notation Headers := (gmap string string).
Definition get_header (h : Headers) (k : string) : string := default "" (h !! k).

Section Propagation.
Context `{EntityJson}.

(** The proxy drops what the client says it is and says what it is. *)
Definition forward (r : Requester) (h : Headers) : result Headers :=
  let h := delete RequesterTagHeader (delete RequesterHeader h) in
  match r with
  | Authenticated e tags =>
      rbind (marshal_entity e) (λ serialized,
      Ok (<[RequesterTagHeader := ToString tags]> (<[RequesterHeader := serialized]> h)))
  | _ => Ok h
  end.

(** What the service behind the proxy reads: the requester and its tags. *)
Definition ReceiveGatewayAuthPropagation (h : Headers)
    : result (option InteropEntity * option (gmap string string)) :=
  let requesterHeader := get_header h RequesterHeader in
  let tagHeader := get_header h RequesterTagHeader in
  let tags := if String.eqb tagHeader "" then None else Some (ParseTags tagHeader) in
  if String.eqb requesterHeader "" then Ok (None, tags)
  else
    match unmarshal_entity requesterHeader with
    | Ok e => Ok (Some e, tags)
    | Err _ => Ok (None, tags)
    | Panic => Panic
    end.

(** What of the identity arrives. *)
Definition propagated (r : Requester) : option InteropEntity * option (gmap string string) :=
  match r with
  | Authenticated e tags =>
      (Some (interop e), if String.eqb (ToString tags) "" then None else Some (ParseTags (ToString tags)))
  | _ => (None, None)
  end.

(** a service behind the proxy sees the identity the middleware found and
    nothing a client writes into those headers; the other headers pass. *)
Theorem forward_receive r h h' :
  (∀ e s, marshal_entity e = Ok s → s ≠ "" ∧ unmarshal_entity s = Ok (interop e)) →
  forward r h = Ok h' →
  ReceiveGatewayAuthPropagation h' = Ok (propagated r) ∧
  (∀ k, k ≠ RequesterHeader → k ≠ RequesterTagHeader → h' !! k = h !! k).
Proof.
  intros Hjson. assert (RequesterHeader ≠ RequesterTagHeader) as Hne by discriminate.
  assert (∀ k, k ≠ RequesterHeader → k ≠ RequesterTagHeader →
    delete RequesterTagHeader (delete RequesterHeader h) !! k = h !! k) as Hother
    by (intros k H1 H2; by rewrite !lookup_delete_ne).
  unfold forward. destruct r as [|csid ty|e tags].
  1-2: intros [= <-]; split; [|done]; unfold ReceiveGatewayAuthPropagation, get_header;
    rewrite lookup_delete_ne, !lookup_delete_eq by done; reflexivity.
  intros Hr. apply rbind_ok_inv in Hr as (s & Hs & [= <-]). destruct (Hjson e s Hs) as [Hs0%String.eqb_neq Hu]. split.
  - unfold ReceiveGatewayAuthPropagation, get_header. rewrite lookup_insert_eq, lookup_insert_ne, lookup_insert_eq by done.
    cbn [from_option]. unfold id. by rewrite Hs0, Hu.
  - intros k H1 H2. rewrite !lookup_insert_ne by done. by apply Hother.
Qed.
End Propagation.
