(* ===== verification/Proxy.v ===== *)
(** * Proxy: the routes to the services behind the server ([src/internal/present/rest/proxy.go])

    Which paths of the configuration a service takes, behind which middlewares,
    and the path a request has when it reaches the service.  The identity that
    is handed on is in [Auth]. *)

From S2P Require Import Prelude Effects Bytes Numbers Url Cdid Ccuri PolicyValues Usecase Auth.
From stdpp Require Import prelude strings gmap list.
From Stdlib Require Import ZArith Lia Ascii.
Open Scope Z_scope.

(** [interop.Service]; [Gone] is not read. *)
Record Service : Type := mkService {
  sv_Name : string;
  sv_Host : string;
  sv_Port : Z;
  sv_Path : string;
  sv_Paths : list string;
  PreservePath : bool;
  InjectCors : bool;
  sv_Gone : bool;
  NoAuth : bool;
}.

(** ** [path.Clean] and [path.Join] *)

Fixpoint clean_relative (acc : list string) (segs : list string) : list string :=
  match segs with
  | [] => acc
  | s :: segs =>
      if String.eqb s "" || String.eqb s "." then clean_relative acc segs
      else if String.eqb s ".." then
        clean_relative (match acc with
                        | up :: acc' => if String.eqb up ".." then s :: acc else acc'
                        | [] => [s]
                        end) segs
      else clean_relative (s :: acc) segs
  end.

Definition Clean (p : string) : string :=
  if Str.has_prefix p "/" then "/" +:+ Str.join (rev (clean_rooted [] (Str.split p "/"))) "/"
  else
    let out := Str.join (rev (clean_relative [] (Str.split p "/"))) "/" in
    if String.eqb out "" then "." else out.

Definition Join (elems : list string) : string :=
  match List.filter (λ e, negb (String.eqb e "")) elems with
  | [] => ""
  | elems => Clean (Str.join elems "/")
  end.

(** ** Routes *)

Section Routes.
Context `{NetIP}.

Inductive Middleware := Cors | AuthRequest.

Definition middlewares (service : Service) : list Middleware :=
  (if InjectCors service then [Cors] else []) ++ (if NoAuth service then [] else [AuthRequest]).

Definition target_url (service : Service) : result URL := Url.Parse ("http://" +:+ sv_Host service +:+ ":" +:+ FormatInt (sv_Port service)).

(** The path the service sees of a request under [sp]. *)
Definition director_path (service : Service) (target : URL) (sp path : string) : string :=
  if PreservePath service then
    let left := Url.Path target in
    (if Str.has_suffix left "/" then left else left +:+ "/") +:+ Str.trim_prefix path "/"
  else Join [Url.Path target; Str.trim_prefix path sp].

Record Route : Type := mkRoute { rt_pattern : string; rt_service : Service; rt_prefix : string; rt_target : URL }.

Definition patterns (sp : string) : list string := if String.eqb sp "/" then ["/"; "/*"] else [sp; sp +:+ "/*"].

(** A service whose address does not parse stops the server. *)
Definition service_routes (service : Service) : result (list Route) :=
  match target_url service with
  | Ok target =>
      Ok (flat_map (λ sp, (λ pattern, mkRoute pattern service sp target) <$> patterns sp) (sv_Paths service ++ [sv_Path service]))
  | _ => Panic
  end.

Fixpoint RegisterRoutes (services : list Service) : result (list Route) :=
  match services with
  | [] => Ok []
  | service :: services =>
      rbind (service_routes service) (λ routes, rbind (RegisterRoutes services) (λ rest, Ok (routes ++ rest)))
  end.

(** A request as the service gets it: its path, and the identity; a service
    without authentication is told none. *)
Definition handler `{EntityJson} (route : Route) (requester : Requester) (path : string) (h : Headers) : result (string * Headers) :=
  let service := rt_service route in
  rbind (forward (if NoAuth service then Anonymous else requester) h) (λ h,
  Ok (director_path service (rt_target route) (rt_prefix route) path, h)).
End Routes.

(** ** What reaches a service *)

Section Reaches.
Context `{EntityJson}.

Lemma clean_relative_clean acc segs : Forall (λ s, s ≠ "" ∧ s ≠ "." ∧ s ≠ "..") segs → clean_relative acc segs = rev segs ++ acc.
Proof.
  intros Hs. revert acc. induction Hs as [|s segs (Hne & Hd & Hdd) _ IH]; intros acc; [done|]. cbn [clean_relative].
  apply String.eqb_neq in Hne as ->, Hd as ->, Hdd as ->. cbn [orb]. rewrite IH. cbn [rev]. by rewrite <- app_assoc.
Qed.

Lemma clean_rooted_clean acc segs : Forall (λ s, s ≠ "" ∧ s ≠ "." ∧ s ≠ "..") segs → clean_rooted acc segs = rev segs ++ acc.
Proof.
  intros Hs. revert acc. induction Hs as [|s segs (Hne & Hd & Hdd) _ IH]; intros acc; [done|]. cbn [clean_rooted].
  apply String.eqb_neq in Hne as ->, Hd as ->, Hdd as ->. cbn [orb]. rewrite IH. cbn [rev]. by rewrite <- app_assoc.
Qed.

Definition plain_segment (s : string) : Prop := s ≠ "" ∧ s ≠ "." ∧ s ≠ ".." ∧ lacks "/" s.

Lemma split_plain segs : segs ≠ [] → Forall plain_segment segs → Str.split (Str.join segs "/") "/" = segs.
Proof. intros Hne Hs. apply (split_join_lacks segs "/"%char); [done|]. eapply Forall_impl; [exact Hs|]. by intros s (_ & _ & _ & ?). Qed.

Lemma plain_clean segs : Forall plain_segment segs → Forall (λ s, s ≠ "" ∧ s ≠ "." ∧ s ≠ "..") segs.
Proof. intros Hs. eapply Forall_impl; [exact Hs|]. by intros s (? & ? & ? & _). Qed.

Lemma join_first segs : segs ≠ [] → Forall plain_segment segs → ∃ c rest, Str.join segs "/" = String c rest ∧ Ascii.eqb c "/" = false.
Proof.
  intros Hne Hs. destruct segs as [|s segs]; [done|]. apply Forall_cons in Hs as [(Hn & _ & _ & Hl) _]. destruct s as [|c s]; [done|].
  unfold lacks in Hl. cbn in Hl. apply andb_prop in Hl as [Hl _]. apply negb_true_iff in Hl.
  destruct segs as [|s2 segs]; [by exists c, s|]. by exists c, (s +:+ String "/" (Str.join (s2 :: segs) "/")).
Qed.

Lemma Clean_rooted segs : segs ≠ [] → Forall plain_segment segs → Clean ("/" +:+ Str.join segs "/") = "/" +:+ Str.join segs "/".
Proof.
  intros Hne Hs. unfold Clean. rewrite has_prefix_app. change ("/" +:+ Str.join segs "/") with ("" +:+ String "/" (Str.join segs "/")) at 1.
  rewrite split_app, split_plain by done. change (clean_rooted [] ("" :: segs)) with (clean_rooted [] segs).
  by rewrite clean_rooted_clean, app_nil_r, rev_involutive by by apply plain_clean.
Qed.

Lemma Clean_relative segs : segs ≠ [] → Forall plain_segment segs → Clean (Str.join segs "/") = Str.join segs "/".
Proof.
  intros Hne Hs. destruct (join_first segs Hne Hs) as (c & rest & E & Hc). unfold Clean.
  assert (Str.has_prefix (Str.join segs "/") "/" = false) as ->.
  { rewrite E. unfold Str.has_prefix. cbn [String.prefix]. destruct (ascii_dec "/" c) as [<-|]; [by rewrite Ascii.eqb_refl in Hc|done]. }
  rewrite split_plain, clean_relative_clean, app_nil_r, rev_involutive by (done || by apply plain_clean). by rewrite E.
Qed.

Lemma Join_one p : p ≠ "" → Join [""; p] = Clean p.
Proof. intros Hp. unfold Join. cbn [List.filter String.eqb negb]. apply String.eqb_neq in Hp as ->. done. Qed.

(** A service that has its own part of the paths, behind a target without a
    path, sees what follows its prefix - rooted, unless the prefix is the root:
    then the path it gets has lost its slash, which no HTTP server accepts, so
    such a service must preserve its paths. *)
Theorem proxied_path service target segs : Url.Path target = "" → segs ≠ [] → Forall plain_segment segs →
  (∀ prefix, PreservePath service = false →
     director_path service target prefix (prefix +:+ "/" +:+ Str.join segs "/") = "/" +:+ Str.join segs "/") ∧
  (∀ sp, PreservePath service = true → director_path service target sp ("/" +:+ Str.join segs "/") = "/" +:+ Str.join segs "/") ∧
  (PreservePath service = false → director_path service target "/" ("/" +:+ Str.join segs "/") = Str.join segs "/").
Proof.
  intros Ht Hne Hs. assert (∀ p, Str.trim_prefix (p +:+ Str.join segs "/") p = Str.join segs "/") as Htrim.
  { intros p. unfold Str.trim_prefix. rewrite has_prefix_app. apply Prelude.drop_app. }
  split_and!.
  - intros prefix Hp. unfold director_path. rewrite Hp, Ht. unfold Str.trim_prefix. rewrite has_prefix_app, Prelude.drop_app.
    rewrite Join_one by done. by apply Clean_rooted.
  - intros sp Hp. unfold director_path. rewrite Hp, Ht. cbn [Str.has_suffix Str.len String.length Nat.leb andb]. by rewrite Htrim.
  - intros Hp. unfold director_path. rewrite Hp, Ht, Htrim. destruct (join_first segs Hne Hs) as (c & rest & E & _).
    rewrite Join_one by (by rewrite E). by apply Clean_relative.
Qed.

(** A service that is not authenticated is told nobody's identity, whatever the
    request claims. *)
Theorem unauthenticated_service route r path h path' h' : NoAuth (rt_service route) = true → handler route r path h = Ok (path', h') →
  h' !! RequesterHeader = None ∧ h' !! RequesterTagHeader = None.
Proof.
  intros Hn. unfold handler. rewrite Hn. intros (h1 & Hf & [= _ <-])%rbind_ok_inv. injection Hf as <-.
  split; [rewrite lookup_delete_ne by done; apply lookup_delete_eq|apply lookup_delete_eq].
Qed.
End Reaches.
