(* ===== verification/WellKnown.v ===== *)
(** * WellKnown: what the server says of itself
      ([src/internal/present/rest/wellknown.go], [handler.go],
      [src/internal/service/modules.go])

    The table of the routes and the endpoints advertised for them, the
    endpoints that the services behind the server add, and the documents under
    [/.well-known/]. *)

From S2P Require Import Prelude Effects Bytes Numbers Url Cdid Ccuri Documents Verify Client Server PolicyValues Usecase Auth Proxy.
From stdpp Require Import prelude strings gmap list pretty.
From Stdlib Require Import ZArith Lia Ascii SpecFloat.
Open Scope Z_scope.

(** ** The routes of the API and the endpoints *)

Module Api.

Definition apiPrefix : string := "/api/v2".

Definition Endpoints : gmap string string := list_to_map [
  ("net.concrnt.core.commit",             apiPrefix +:+ "/commit");
  ("net.concrnt.core.resolve",            apiPrefix +:+ "/resolve?uri={uri}");
  ("net.concrnt.core.query",              apiPrefix +:+ "/query{?prefix,schema,since,until,limit,order,parent,author,orderby}");
  ("net.concrnt.core.replication",        apiPrefix +:+ "/replication{?owner,since,until,limit,order}");
  ("net.concrnt.core.associations",       apiPrefix +:+ "/associations{?uri,schema,variant,author,since,until,limit,order}");
  ("net.concrnt.core.association-counts", apiPrefix +:+ "/association-counts{?uri,schema}");
  ("net.concrnt.core.acknowledges",       apiPrefix +:+ "/acknowledges{?from,to,schema,since,until,limit,order}");
  ("net.concrnt.core.acknowledge-counts", apiPrefix +:+ "/acknowledge-counts{?from,to,schema}");
  ("net.concrnt.core.realtime",           apiPrefix +:+ "/realtime");
  ("net.concrnt.core.abuse",              apiPrefix +:+ "/abuse");
  ("net.concrnt.core.batch",              apiPrefix +:+ "/batch");
  ("net.concrnt.world.register",          apiPrefix +:+ "/register");
  ("net.concrnt.world.timeline.recent",   apiPrefix +:+ "/timeline/recent{?uris,until,limit}");
  ("net.concrnt.world.subscribe",         apiPrefix +:+ "/subscribe/{owner}/{vendor_id}");
  ("net.concrnt.world.subscribe.counter", apiPrefix +:+ "/subscribe/{owner}/{vendor_id}/counter");
  ("net.concrnt.world.repository",        apiPrefix +:+ "/repository");
  ("net.concrnt.core.known-servers",      apiPrefix +:+ "/known-servers")].

(** The handlers of the API, by their names. *)
Inductive Handler :=
| handleNop | handleCommit | handleResolve | handleQuery | handleReplication | handleAssociations
| handleAssociationCounts | handleAcknowledges | handleAcknowledgeCounts | handleRealtime
| handleRegister | handleGetRegistration | handleUpdateRegistration | handleUnregister | handleTimelineRecent
| handleSubscribeNotification | handleGetNotification | handleDeleteNotification
| handleGetNotificationCounter | handleResetNotificationCounter | handleKnownServers
| handleDumpRepository | handleImportRepository | handleAbuse
| handleChunklineItr | handleChunklineBody | handleChunklineRemoved | batchHandler.

Definition RegisterRoutes : list (string * string * Handler) :=
  (λ '(method, path, h), (method, apiPrefix +:+ path, h)) <$> [
  ("POST", "/commit", handleCommit); ("OPTIONS", "/commit", handleNop);
  ("GET", "/resolve", handleResolve); ("OPTIONS", "/resolve", handleNop);
  ("GET", "/query", handleQuery); ("OPTIONS", "/query", handleNop);
  ("GET", "/replication", handleReplication); ("OPTIONS", "/replication", handleNop);
  ("GET", "/associations", handleAssociations); ("OPTIONS", "/associations", handleNop);
  ("GET", "/association-counts", handleAssociationCounts); ("OPTIONS", "/association-counts", handleNop);
  ("GET", "/acknowledges", handleAcknowledges); ("OPTIONS", "/acknowledges", handleNop);
  ("GET", "/acknowledge-counts", handleAcknowledgeCounts); ("OPTIONS", "/acknowledge-counts", handleNop);
  ("GET", "/realtime", handleRealtime); ("OPTIONS", "/realtime", handleNop);
  ("POST", "/register", handleRegister); ("GET", "/register", handleGetRegistration);
  ("PUT", "/register", handleUpdateRegistration); ("DELETE", "/register", handleUnregister);
  ("OPTIONS", "/register", handleNop);
  ("GET", "/timeline/recent", handleTimelineRecent); ("OPTIONS", "/timeline/recent", handleNop);
  ("POST", "/subscribe/:owner/:vendor_id", handleSubscribeNotification);
  ("OPTIONS", "/subscribe/:owner/:vendor_id", handleNop);
  ("GET", "/subscribe/:owner/:vendor_id", handleGetNotification);
  ("DELETE", "/subscribe/:owner/:vendor_id", handleDeleteNotification);
  ("GET", "/subscribe/:owner/:vendor_id/counter", handleGetNotificationCounter);
  ("OPTIONS", "/subscribe/:owner/:vendor_id/counter", handleNop);
  ("DELETE", "/subscribe/:owner/:vendor_id/counter", handleResetNotificationCounter);
  ("GET", "/known-servers", handleKnownServers); ("OPTIONS", "/known-servers", handleNop);
  ("GET", "/repository", handleDumpRepository); ("POST", "/repository", handleImportRepository);
  ("OPTIONS", "/repository", handleNop);
  ("POST", "/abuse", handleAbuse); ("OPTIONS", "/abuse", handleNop);
  ("GET", "/chunkline/itr/:chunk", handleChunklineItr); ("OPTIONS", "/chunkline/itr/:chunk", handleNop);
  ("GET", "/chunkline/body/:chunk", handleChunklineBody); ("OPTIONS", "/chunkline/body/:chunk", handleNop);
  ("GET", "/chunkline/removed", handleChunklineRemoved); ("OPTIONS", "/chunkline/removed", handleNop);
  ("POST", "/batch", batchHandler)].

(** The bodies a route accepts: the limit of the group, which two paths skip,
    and the batch's own. *)
Definition body_limit (path : string) : option string :=
  if String.eqb path (apiPrefix +:+ "/batch") then Some "16M"
  else if String.eqb path (apiPrefix +:+ "/repository") then None
  else Some "1M".
End Api.

(** ** The endpoints of the services *)

(** [interop.CCInfo] *)
Record CCInfo : Type := mkCCInfo { cc_Name : string; cc_Version : string; cc_Endpoints : gmap string string }.

(** What a service answers at a URL, and the JSON of its description. *)
Class ServiceWeb := {
  service_get : string → Exchange;
  decode_ccinfo : string → result CCInfo;
}.

Definition Labels : Type := string * string * string.

(** The manager, and the series of [servicesBuildInfo] that are exported. *)
Record ModuleManager : Type := mkModuleManager {
  baseEndpoints : gmap string string;
  services : list Service;
  endpoints : gmap string string;
  buildInfoLabels : gset Labels;
  servicesBuildInfo : gset Labels;
}.

Section Modules.
Context `{NetIP} `{ServiceWeb}.

Definition ccinfo_url (service : Service) : string :=
  "http://" +:+ sv_Host service +:+ ":" +:+ FormatInt (sv_Port service) +:+ "/cc-info".

(** A service that cannot be asked, fails, or answers badly is passed over. *)
Definition service_info (service : Service) : option CCInfo :=
  match Url.Parse (ccinfo_url service) with
  | Ok _ =>
      match service_get (ccinfo_url service) with
      | Answered 200 body => match decode_ccinfo body with Ok info => Some info | _ => None end
      | _ => None
      end
  | _ => None
  end.

Definition service_path (service : Service) (endpoint : string) : string :=
  if PreservePath service then endpoint else Proxy.Join [sv_Path service; endpoint].

Definition labels_of (service : Service) (info : CCInfo) : Labels := (sv_Name service, cc_Name info, cc_Version info).

Fixpoint ask_services (l : list Service) (found : gmap string string) (seen exported : gset Labels)
  : gmap string string * gset Labels * gset Labels :=
  match l with
  | [] => (found, seen, exported)
  | service :: l =>
      match service_info service with
      | None => ask_services l found seen exported
      | Some info =>
          let labels := labels_of service info in
          ask_services l ((service_path service <$> cc_Endpoints info) ∪ found) ({[labels]} ∪ seen) ({[labels]} ∪ exported)
      end
  end.

Definition UpdateEndpointRoutine (m : ModuleManager) : ModuleManager :=
  let '(found, seen, exported) := ask_services (services m) (baseEndpoints m) ∅ (servicesBuildInfo m) in
  mkModuleManager (baseEndpoints m) (services m) found seen (exported ∖ (buildInfoLabels m ∖ seen)).

Definition NewModuleManager (base : gmap string string) (l : list Service) : ModuleManager := mkModuleManager base l ∅ ∅ ∅.

Definition GetEndpoints (m : ModuleManager) : gmap string string := endpoints m.
End Modules.

(** ** The documents under [/.well-known/] *)

(** The values of the YAML decoder, a mapping as its pairs in the order they
    are visited.  Keys are scalars. *)
Inductive YamlKey := KString (s : string) | KInt (n : Z) | KBool (b : bool) | KNull.

Inductive Yaml : Type :=
| YNull
| YBool (b : bool)
| YInt (n : Z)
| YFloat (f : spec_float)
| YString (s : string)
| YSequence (l : list Yaml)
| YMapping (l : list (YamlKey * Yaml))
| YObject (l : list (string * Yaml)).

(** [fmt.Sprint] of a key. *)
Definition Sprint (k : YamlKey) : string :=
  match k with
  | KString s => s
  | KInt n => FormatInt n
  | KBool b => if b then "true" else "false"
  | KNull => "<nil>"
  end.

Fixpoint normalizeYAML (v : Yaml) : Yaml :=
  match v with
  | YMapping l => YObject ((λ p, (Sprint (fst p), normalizeYAML (snd p))) <$> l)
  | YObject l => YObject ((λ p, (fst p, normalizeYAML (snd p))) <$> l)
  | YSequence l => YSequence (normalizeYAML <$> l)
  | v => v
  end.

(** [config.WellKnownEntry] *)
Record WellKnownEntry : Type := mkWellKnownEntry { we_Type : string; we_Value : Yaml }.

Record WellKnownDocument : Type := mkWellKnownDocument { ContentType : string; wd_Body : string }.

(** [json.Valid] and [json.Marshal]. *)
Class YamlJson := {
  json_Valid : string → bool;
  json_Marshal : Yaml → result string;
}.

Section WellKnown.
Context `{YamlJson}.

Definition text_type : string := "text/plain; charset=utf-8".
Definition json_type : string := "application/json".

Definition render_entry (name : string) (entry : WellKnownEntry) : result WellKnownDocument :=
  if String.eqb name "" || Str.contains_char name "/" then Err (GoError ("invalid well-known name " +:+ name))
  else if String.eqb name "concrnt" then Err (GoError ("well-known name " +:+ name +:+ " is reserved"))
  else if String.eqb (we_Type entry) "string" then
    match we_Value entry with
    | YString s => Ok (mkWellKnownDocument text_type s)
    | _ => Err (GoError ("well-known " +:+ name +:+ ": value of type string must be a string"))
    end
  else if String.eqb (we_Type entry) "json" then
    match we_Value entry with
    | YString s =>
        if json_Valid s then Ok (mkWellKnownDocument json_type s)
        else Err (GoError ("well-known " +:+ name +:+ ": value is not valid json"))
    | v => wrap ("well-known " +:+ name) (rbind (json_Marshal (normalizeYAML v)) (λ body, Ok (mkWellKnownDocument json_type body)))
    end
  else Err (GoError ("well-known " +:+ name +:+ ": unknown type " +:+ we_Type entry +:+ " (want string or json)")).

(** The entries of the map in the order it yields them. *)
Fixpoint RenderWellKnown (entries : list (string * WellKnownEntry)) : result (gmap string WellKnownDocument) :=
  match entries with
  | [] => Ok ∅
  | (name, entry) :: entries =>
      rbind (render_entry name entry) (λ doc, rbind (RenderWellKnown entries) (λ docs, Ok (<[name := doc]> docs)))
  end.

(** A document or, under the reserved name, the server with the metadata of
    the configuration. *)
Definition well_known `{Self} {M} (meta : M) (additional : gmap string WellKnownDocument) (name : string)
  : option (WellKnown * M + WellKnownDocument) :=
  if String.eqb name "concrnt" then Some (inl (si_WellKnown GetThisServer, meta))
  else inr <$> additional !! name.
End WellKnown.

(** ** The endpoints of the server itself *)

(** The path of a URI template as a pattern of the router: [{x}] is [:x], and
    the query is not part of it. *)
Fixpoint template_pattern (template : string) : string :=
  match template with
  | EmptyString => EmptyString
  | String c rest =>
      if Ascii.eqb c "?" then ""
      else if Ascii.eqb c "{" then if Str.has_prefix rest "?" then "" else String ":" (template_pattern rest)
      else if Ascii.eqb c "}" then template_pattern rest
      else String c (template_pattern rest)
  end.

Definition is_nop (h : Api.Handler) : bool := match h with Api.handleNop => true | _ => false end.

Definition routed (endpoint : string) : bool :=
  existsb (λ '(_, path, h), String.eqb path (template_pattern endpoint) && negb (is_nop h)) Api.RegisterRoutes.

(** Every endpoint the server advertises for itself is a route it serves. *)
Theorem endpoints_routed key endpoint : Api.Endpoints !! key = Some endpoint →
  ∃ method h, (method, template_pattern endpoint, h) ∈ Api.RegisterRoutes ∧ h ≠ Api.handleNop.
Proof.
  intros Hk. assert (forallb (λ p, routed (snd p)) (map_to_list Api.Endpoints) = true) as Hall by by vm_compute.
  rewrite forallb_forall in Hall. apply elem_of_map_to_list, list_elem_of_In in Hk. apply Hall, existsb_exists in Hk as ([[method path] h] & Hin & Hr).
  apply andb_prop in Hr as [->%String.eqb_eq Hh]. exists method, h. split; [by apply list_elem_of_In|by destruct h].
Qed.

(** No two registrations are for the same method and path, so the table says
    which handler answers. *)
Theorem routes_distinct : NoDup (fst <$> Api.RegisterRoutes).
Proof. apply (bool_decide_eq_true_1 (NoDup (fst <$> Api.RegisterRoutes))). by vm_compute. Qed.

(** ** The endpoints of services *)

Section ModuleFacts.
Context `{NetIP} `{ServiceWeb}.

(** What a service offers under a key, where it is advertised. *)
Definition offer (key : string) (service : Service) : option string :=
  info ← service_info service; service_path service <$> cc_Endpoints info !! key.

Lemma ask_services_found l found seen exported key : (ask_services l found seen exported).1.1 !! key =
  match last (omap (offer key) l) with Some endpoint => Some endpoint | None => found !! key end.
Proof.
  revert found seen exported. induction l as [|service l IH]; intros found seen exported; [done|]. cbn [ask_services omap list_omap].
  unfold offer at 1. destruct (service_info service) as [info|]; cbn [mbind option_bind]; [|apply IH].
  rewrite IH, lookup_union, lookup_fmap. destruct (cc_Endpoints info !! key) as [endpoint|]; cbn.
  - rewrite last_cons. change (list_omap _ _ _ l) with (omap (offer key) l). destruct (last (omap (offer key) l)); [done|].
    by destruct (found !! key).
  - change (list_omap _ _ _ l) with (omap (offer key) l). destruct (last (omap (offer key) l)); [done|]. by destruct (found !! key).
Qed.

Definition described (l : list Service) : gset Labels :=
  list_to_set (omap (λ service, labels_of service <$> service_info service) l).

Lemma ask_services_seen l found seen exported :
  (ask_services l found seen exported).1.2 = described l ∪ seen ∧ (ask_services l found seen exported).2 = described l ∪ exported.
Proof.
  unfold described. revert found seen exported. induction l as [|service l IH]; intros found seen exported; cbn [ask_services omap list_omap].
  - cbn. split; set_solver.
  - destruct (service_info service) as [info|]; cbn [fmap option_fmap option_map list_to_set]; [|apply IH].
    destruct (IH ((service_path service <$> cc_Endpoints info) ∪ found) ({[labels_of service info]} ∪ seen) ({[labels_of service info]} ∪ exported)) as [-> ->].
    split; cbn; set_solver.
Qed.

(** After a round the endpoint of a name is the one of the last service in the
    configuration that answered and offers it, else the server's own. *)
Theorem endpoint_answers m key : GetEndpoints (UpdateEndpointRoutine m) !! key =
  match last (omap (offer key) (services m)) with Some endpoint => Some endpoint | None => baseEndpoints m !! key end.
Proof.
  unfold UpdateEndpointRoutine. destruct (ask_services _ _ _ _) as [[found seen] exported] eqn:E. cbn.
  rewrite <- (ask_services_found _ _ ∅ (servicesBuildInfo m)). by rewrite E.
Qed.

(** The exported series are those of the last round: a service that is gone, or
    changed its version, leaves none behind. *)
Theorem build_info_current m : servicesBuildInfo m = buildInfoLabels m →
  servicesBuildInfo (UpdateEndpointRoutine m) = described (services m) ∧
  buildInfoLabels (UpdateEndpointRoutine m) = described (services m).
Proof.
  intros Hm. unfold UpdateEndpointRoutine. destruct (ask_services _ _ _ _) as [[found seen] exported] eqn:E.
  destruct (ask_services_seen (services m) (baseEndpoints m) ∅ (servicesBuildInfo m)) as [Hs He]. rewrite E in Hs, He. cbn in *. subst seen exported.
  rewrite Hm. split; [|set_solver]. set (d := described (services m)). apply set_eq. intros x. rewrite elem_of_difference, elem_of_union, elem_of_difference.
  destruct (decide (x ∈ d)); set_solver.
Qed.

Lemma clean_rooted_app acc segs rest : Forall (λ s, s ≠ "" ∧ s ≠ "." ∧ s ≠ "..") segs →
  clean_rooted acc (segs ++ rest) = clean_rooted (rev segs ++ acc) rest.
Proof.
  intros Hs. revert acc. induction Hs as [|s segs (Hne & Hd & Hdd) _ IH]; intros acc; [done|]. cbn [app clean_rooted rev].
  apply String.eqb_neq in Hne as ->, Hd as ->, Hdd as ->. cbn [orb]. rewrite IH. by rewrite <- app_assoc.
Qed.

Lemma split_app_join segs rest : segs ≠ [] → Forall plain_segment segs →
  Str.split (Str.join segs "/" +:+ String "/" rest) "/" = segs ++ Str.split rest "/".
Proof.
  intros Hne Hs. induction Hs as [|s segs (_ & _ & _ & Hl) Hs IH]; [done|]. destruct segs as [|s2 segs].
  - cbn [Str.join app]. by apply split_app.
  - change (Str.join (s :: s2 :: segs) "/") with (s +:+ String "/" (Str.join (s2 :: segs) "/")). rewrite str_app_assoc.
    cbn [String.append]. rewrite split_app by done. cbn [app]. f_equal. by apply IH.
Qed.

Lemma Join_rooted ps es : ps ≠ [] → es ≠ [] → Forall plain_segment ps → Forall plain_segment es →
  Proxy.Join ["/" +:+ Str.join ps "/"; "/" +:+ Str.join es "/"] = "/" +:+ Str.join (ps ++ es) "/".
Proof.
  intros Hp He Hps Hes. set (rest := Str.join ps "/" +:+ String "/" ("" +:+ String "/" (Str.join es "/"))).
  change (Clean ("/" +:+ rest) = "/" +:+ Str.join (ps ++ es) "/"). unfold Clean. rewrite has_prefix_app.
  change ("/" +:+ rest) with ("" +:+ String "/" rest) at 1. unfold rest.
  rewrite split_app, split_app_join, split_app, split_plain by done.
  change (clean_rooted [] ("" :: ps ++ "" :: es)) with (clean_rooted [] (ps ++ "" :: es)). rewrite clean_rooted_app by by apply plain_clean.
  change (clean_rooted (rev ps ++ []) ("" :: es)) with (clean_rooted (rev ps ++ []) es).
  rewrite clean_rooted_clean, app_nil_r, <- rev_app_distr, rev_involutive by by apply plain_clean. done.
Qed.
Lemma join_app_segments ps es : ps ≠ [] → es ≠ [] →
  "/" +:+ Str.join (ps ++ es) "/" = ("/" +:+ Str.join ps "/") +:+ "/" +:+ Str.join es "/".
Proof.
  intros Hps Hes. rewrite str_app_assoc. f_equal. induction ps as [|p ps IH]; [done|]. destruct ps as [|p2 ps].
  - destruct es as [|e es]; [done|]. cbn [app]. change (Str.join (p :: e :: es) "/") with (p +:+ "/" +:+ Str.join (e :: es) "/"). done.
  - change (Str.join ((p :: p2 :: ps) ++ es) "/") with (p +:+ "/" +:+ Str.join ((p2 :: ps) ++ es) "/"). rewrite IH by done.
    change (Str.join (p :: p2 :: ps) "/") with (p +:+ "/" +:+ Str.join (p2 :: ps) "/"). by rewrite !str_app_assoc.
Qed.

(** The two tables of a service agree.  A request sent where the server
    advertises an endpoint of a service that keeps its own paths is on a route of
    that service, and arrives at the path the service itself gave; unless a
    later service of the configuration takes the name over. *)
Theorem advertised_path_arrives m before service after info key ps es target :
  services m = before ++ service :: after → service_info service = Some info →
  cc_Endpoints info !! key = Some ("/" +:+ Str.join es "/") → Forall (λ s, offer key s = None) after →
  PreservePath service = false → sv_Path service = "/" +:+ Str.join ps "/" →
  ps ≠ [] → es ≠ [] → Forall plain_segment ps → Forall plain_segment es →
  target_url service = Ok target → Url.Path target = "" →
  ∃ path routes, GetEndpoints (UpdateEndpointRoutine m) !! key = Some path ∧
    service_routes service = Ok routes ∧ mkRoute (sv_Path service +:+ "/*") service (sv_Path service) target ∈ routes ∧
    path = sv_Path service +:+ "/" +:+ Str.join es "/" ∧
    director_path service target (sv_Path service) path = "/" +:+ Str.join es "/".
Proof.
  intros Hm Hi Hk Hafter Hpp Hpath Hps0 Hes0 Hps Hes Ht Hpt.
  assert (offer key service = Some (sv_Path service +:+ "/" +:+ Str.join es "/")) as Ho.
  { unfold offer. rewrite Hi. cbn [mbind option_bind]. rewrite Hk. cbn [fmap option_fmap option_map]. unfold service_path.
    rewrite Hpp, Hpath, Join_rooted by done. by rewrite join_app_segments. }
  exists (sv_Path service +:+ "/" +:+ Str.join es "/"). unfold service_routes. rewrite Ht. eexists. split_and!; [|done| |done|].
  - rewrite endpoint_answers, Hm, omap_app. cbn [omap list_omap]. rewrite Ho. change (list_omap _ _ _ after) with (omap (offer key) after).
    assert (omap (offer key) after = []) as ->.
    { clear -Hafter. induction Hafter as [|s l Hs _ IH]; cbn; [done|]. by rewrite Hs. }
    by rewrite last_snoc.
  - apply list_elem_of_In, in_flat_map. exists (sv_Path service). split; [apply in_or_app; right; by left|].
    apply list_elem_of_In, list_elem_of_fmap. exists (sv_Path service +:+ "/*"). split; [done|]. unfold patterns.
    destruct (String.eqb_spec (sv_Path service) "/") as [E|_]; [|by right; left]. exfalso.
    rewrite Hpath in E. injection E as E. destruct (join_first ps Hps0 Hps) as (c & r & Hc & _). by rewrite Hc in E.
  - unfold director_path. rewrite Hpp, Hpt. unfold Str.trim_prefix. rewrite has_prefix_app, Prelude.drop_app.
    rewrite Join_one by done. by apply Clean_rooted.
Qed.
End ModuleFacts.

(** ** The documents *)

(** What json.Marshal refuses of the decoder's trees: a mapping whose keys are
    not text. *)
Fixpoint textual (v : Yaml) : bool :=
  match v with
  | YMapping _ => false
  | YObject l => forallb (λ p, textual (snd p)) l
  | YSequence l => forallb textual l
  | _ => true
  end.

(** Whatever the configuration holds, what is encoded has textual keys. *)
Theorem normalizeYAML_textual : ∀ v, textual (normalizeYAML v) = true.
Proof.
  fix IH 1. intros [| | | | |l|l|l]; cbn; try done.
  - induction l as [|v l IHl]; [done|]. cbn. by rewrite IH, IHl.
  - induction l as [|[k v] l IHl]; [done|]. cbn. by rewrite IH, IHl.
  - induction l as [|[k v] l IHl]; [done|]. cbn. by rewrite IH, IHl.
Qed.

Section Documents.
Context `{YamlJson}.

Definition rendered (docs : gmap string WellKnownDocument) (name : string) (entry : option WellKnownEntry) : Prop :=
  match entry with
  | Some entry => ∃ doc, render_entry name entry = Ok doc ∧ docs !! name = Some doc
  | None => docs !! name = None
  end.

(** The configuration is served exactly as it is or not at all: the documents
    are those of all the entries, none is left out for another's sake, and
    whether they are accepted does not depend on the order of the map. *)
Theorem RenderWellKnown_exact entries docs : NoDup entries.*1 →
  RenderWellKnown entries = Ok docs ↔ ∀ name, rendered docs name ((list_to_map entries : gmap _ _) !! name).
Proof.
  intros Hnd. revert docs. induction entries as [|[name entry] entries IH]; intros docs; cbn [RenderWellKnown list_to_map fst snd].
  - split; [intros [= <-] name; cbn; apply lookup_empty|]. intros Hr. f_equal. symmetry. apply map_empty. intros name. exact (Hr name).
  - apply NoDup_cons in Hnd as [Hn Hnd]. specialize (IH Hnd). apply (not_elem_of_list_to_map_1 (M:=gmap string)) in Hn. cbn [fst] in Hn.
    change ((list_to_map ((name, entry) :: entries) : gmap string WellKnownEntry)) with (<[name := entry]> (list_to_map entries : gmap string WellKnownEntry)).
    split.
    + intros (doc & Hd & (docs' & Hds & [= <-])%rbind_ok_inv)%rbind_ok_inv. pose proof (proj1 (IH docs') Hds) as Hall. intros k. destruct (decide (k = name)) as [->|Hk].
      * rewrite lookup_insert_eq. exists doc. by rewrite lookup_insert_eq.
      * rewrite lookup_insert_ne by done. specialize (Hall k). unfold rendered in *. by rewrite lookup_insert_ne.
    + intros Hr. pose proof (Hr name) as Hname. rewrite lookup_insert_eq in Hname. destruct Hname as (doc & Hd & Hdoc). rewrite Hd. cbn [rbind].
      rewrite (proj2 (IH (delete name docs))); [cbn [rbind]; f_equal; by apply insert_delete_id|].
      intros k. destruct (decide (k = name)) as [->|Hk].
      * rewrite Hn. apply lookup_delete_eq.
      * specialize (Hr k). rewrite lookup_insert_ne in Hr by done. unfold rendered in *. by rewrite lookup_delete_ne.
Qed.

(** The configuration cannot take the server's own document over, nor serve
    outside the one segment below [/.well-known/]. *)
Theorem reserved_name `{Self} {M} (meta : M) entries docs : NoDup entries.*1 → RenderWellKnown entries = Ok docs →
  docs !! "concrnt" = None ∧ well_known meta docs "concrnt" = Some (inl (si_WellKnown GetThisServer, meta)) ∧
  ∀ name doc, docs !! name = Some doc → name ≠ "" ∧ Str.contains_char name "/" = false.
Proof.
  intros Hnd Hr. pose proof (proj1 (RenderWellKnown_exact entries docs Hnd) Hr) as Hall. clear Hr. rename Hall into Hr.
  assert (∀ name doc, docs !! name = Some doc → (name ≠ "" ∧ Str.contains_char name "/" = false) ∧ name ≠ "concrnt") as Hok.
  { intros name doc Hd. specialize (Hr name). unfold rendered in Hr. destruct (_ !! name) as [entry|]; [|congruence].
    destruct Hr as (doc' & Hrender & _). unfold render_entry in Hrender.
    destruct (String.eqb_spec name "") as [->|]; [done|]. destruct (Str.contains_char name "/"); [done|]. cbn [orb] in Hrender.
    by destruct (String.eqb_spec name "concrnt") as [->|]. }
  split_and!; [|done|by intros name doc [? _]%Hok]. destruct (docs !! "concrnt") eqn:E; [|done]. by apply Hok in E as [_ ?].
Qed.
End Documents.

(** ** A server with a service *)

Module Bridge.
#[export] Instance netip : NetIP := λ _, false.
Definition info : CCInfo := mkCCInfo "ccworld-ap" "1.0" {["net.concrnt.bridge.settings" := "/api/settings"]}.
#[export] Instance web : ServiceWeb := {|
  service_get url := if String.eqb url "http://ap:8000/cc-info" then Answered 200 "info" else Failed true (GoError "timeout");
  decode_ccinfo text := if String.eqb text "info" then Ok info else Err (GoError "json") |}.
Definition ap : Service := mkService "ap" "ap" 8000 "/ap" ["/.well-known/webfinger"] false false false false.
Definition target : URL := mkURL "http" "" None "ap:8000" "" "" false false "" "" "".
Definition gone : Service := mkService "old" "old" 80 "/old" [] false false false false.
Definition manager : ModuleManager := NewModuleManager Api.Endpoints [ap; gone].
#[export] Instance json : YamlJson := {| json_Valid s := negb (String.eqb s ""); json_Marshal v := Ok "json" |}.
#[export] Instance self : Self := {| own_FQDN := "me"; own_CSID := ""; own_Layer := "main"; own_Endpoints := GetEndpoints (UpdateEndpointRoutine manager) |}.
Definition entries : list (string * WellKnownEntry) :=
  [("security.txt", mkWellKnownEntry "string" (YString "Contact: me")); ("nodeinfo", mkWellKnownEntry "json" (YMapping [(KInt 1, YBool true)]))].
End Bridge.
Import Bridge.

Lemma advertised_path_arrives_witness : ∃ path routes,
  GetEndpoints (UpdateEndpointRoutine manager) !! "net.concrnt.bridge.settings" = Some path ∧ service_routes ap = Ok routes ∧
  mkRoute "/ap/*" ap "/ap" target ∈ routes ∧
  path = "/ap/api/settings" ∧ director_path ap target "/ap" path = "/api/settings".
Proof.
  apply (advertised_path_arrives manager [] ap [gone] info "net.concrnt.bridge.settings" ["ap"] ["api"; "settings"]);
    try reflexivity; try discriminate; repeat constructor; try discriminate; vm_compute; reflexivity.
Defined.

Lemma build_info_current_witness : servicesBuildInfo (UpdateEndpointRoutine manager) = {[("ap", "ccworld-ap", "1.0")]} ∧
  buildInfoLabels (UpdateEndpointRoutine manager) = {[("ap", "ccworld-ap", "1.0")]}.
Proof.
  assert (described (services manager) = {[("ap", "ccworld-ap", "1.0")]}) as <- by (apply (bool_decide_eq_true_1 _); vm_compute; reflexivity).
  apply (build_info_current manager). reflexivity.
Defined.

Lemma reserved_name_witness : ∃ docs, RenderWellKnown entries = Ok docs ∧ docs !! "concrnt" = None ∧
  well_known () docs "concrnt" = Some (inl (si_WellKnown GetThisServer, ())) ∧
  ∀ name doc, docs !! name = Some doc → name ≠ "" ∧ Str.contains_char name "/" = false.
Proof.
  eexists. split; [reflexivity|]. apply (reserved_name () entries); [|reflexivity].
  apply (bool_decide_eq_true_1 (NoDup entries.*1)). vm_compute. reflexivity.
Defined.

(** A server that has no [OPTIONS] route for a batch. *)
Example batch_preflight : ¬ ("OPTIONS", Api.apiPrefix +:+ "/batch") ∈ (fst <$> Api.RegisterRoutes).
Proof. apply (bool_decide_eq_false_1 (("OPTIONS", Api.apiPrefix +:+ "/batch") ∈ (fst <$> Api.RegisterRoutes))). vm_compute. reflexivity. Qed.
