(* ===== verification/Residence.v ===== *)
(** * Residence: registration with the server
      ([src/internal/usecase/residence], [postgres/residence.go])

    A resident has a row of registration data: who invited it and what it told
    the server about itself.  [Register] checks the invitation, writes that row
    and commits the resident's entity document, in this order; the rows are
    outside the transaction of the commit. *)

From S2P Require Import Prelude Effects Bytes Url Cdid Ccuri Documents Verify Jwt PolicyValues Store StoreFacts StoreInv.
From S2P Require Import Queries Tags Usecase Commit CommitSafe CommitFacts Auth.
From stdpp Require Import prelude strings gmap list relations.
From Stdlib Require Import ZArith Lia Ascii.
Open Scope Z_scope.
Open Scope uc_scope.

(** [concrnt.RegisterRequest] *)
Record RegisterRequest : Type := mkRegisterRequest {
  rr_SignedDocument : SignedDocument;
  rr_Meta : any_;
  rr_InviteToken : option string;
}.

Definition set_metas (st : St) m := mkSt (st_db st) (st_tx st) m (st_blocking st) (st_out st).

(** ** The repository *)

(** The upsert writes inviter and info. *)
Definition SaveMeta (meta : EntityMeta) : M unit :=
  modifyM (λ st, set_metas st (<[em_ID meta := meta]> (st_metas st))).

Definition UpdateMetaInfo (ccid info : string) : M unit := λ st,
  match st_metas st !! ccid with
  | None => (Err (NotFoundError "entity meta" "" ""), st)
  | Some m => (Ok tt, set_metas st (<[ccid := mkEntityMeta (em_ID m) (em_Inviter m) info]> (st_metas st)))
  end.

Definition DeleteMeta (ccid : string) : M unit := modifyM (λ st, set_metas st (delete ccid (st_metas st))).

Definition MarkGcCandidateByOwner (owner : string) : M unit :=
  modifyM (λ st, set_db st (MarkCommitLogsGcCandidateByOwner (st_db st) owner)).

Section Residence.
Context `{Url.NetIP} `{Json} `{Keccak} `{Secp256k1} `{StoreCodec} `{Orm} `{Env} `{PolicyEval} `{JwtJson} `{AuthConfig}.

(** ** The use case *)

Definition authentication_required : error := PermissionError "authentication required".
Definition errRegistrationNotFound : error :=
  NotFoundError "registration" "Registration Not Found" "net.concrnt.errors.registration-not-found".

(** [err] replaced when it is [ErrNotFound]. *)
Definition registration_error {A} (r : result A) : result A :=
  match r with Err e => Err (if is_not_found e then errRegistrationNotFound else e) | r => r end.

Definition encodeMetaInfo (meta : any_) : result string := marshal_value meta.

Definition Unregister (ctx : Ctx) : M unit :=
  match ctx_requester ctx with
  | None => failM authentication_required
  | Some requester =>
      MarkGcCandidateByOwner (e_ID requester) ;;
      DeleteMeta (e_ID requester)
  end.

Definition GetRegistration (ctx : Ctx) : M EntityMeta :=
  match ctx_requester ctx with
  | None => failM authentication_required
  | Some requester => λ st, (registration_error (GetMeta st (e_ID requester)), st)
  end.

Definition UpdateRegistration (ctx : Ctx) (meta : any_) : M unit :=
  match ctx_requester ctx with
  | None => failM authentication_required
  | Some requester =>
      let* info := liftM (encodeMetaInfo meta) in
      λ st, match UpdateMetaInfo (e_ID requester) info st with (r, st') => (registration_error r, st') end
  end.

Definition invalid_invitation (what : string) : error := PermissionError ("invalid invitation code" +:+ what).

(** An error of any kind becomes a refusal. *)
Definition refuse {A} (e : error) (r : result A) : result A := match r with Err _ => Err e | r => r end.

(** The issuer of an invitation: the server, or a resident with the [_invite] tag. *)
Definition check_invitation (db : DB) (token : option string) : result string :=
  match token with
  | None => Err (PermissionError "invitation code is required")
  | Some token =>
      '(_, claims) ← refuse (invalid_invitation "") (Parse token);
      _ ← refuse (invalid_invitation "") (Validate unix token (Issuer claims));
      _ ← Verify.guard (String.eqb (Subject claims) "invite") (invalid_invitation "(subject)");
      _ ← (if String.eqb (Issuer claims) config_CSID then Ok tt
           else
             inviter ← refuse (invalid_invitation "(issuer)") (GetEntityByCCID db (Issuer claims));
             Verify.guard (Has (ParseTags (e_TagString inviter)) "_invite") (invalid_invitation "(issuer tag)"));
      Ok (Issuer claims)
  end.

(** The registration policy of the configuration. *)
Definition check_registration (registration : string) (db : DB) (token : option string) : result (option string) :=
  if String.eqb registration "invite" then rbind (check_invitation db token) (λ issuer, Ok (Some issuer))
  else if String.eqb registration "open" then Ok None
  else Err (PermissionError "registration is not allowed").

(** The creation time of the entity document the server holds. *)
Definition latest_entity (db : DB) (ccid : string) : result Z :=
  match GetEntityByCCID db ccid with
  | Ok existing =>
      match e_SignedDocument existing with
      | Some sd => existingDoc ← unmarshal_typed decode_entity (sd_Document sd); Ok (CreatedAt existingDoc)
      | None => Panic
      end
  | Err _ => Ok zero_time
  | Panic => Panic
  end.

(** The checks, up to the registration row to write.  [captcha] is the
    middleware's verdict, absent when it is not installed. *)
Definition check_register (registration : string) (captcha : option bool) (req : RegisterRequest) (db : DB)
    : result EntityMeta :=
  inviter ← check_registration registration db (rr_InviteToken req);
  _ ← Verify.guard (default true captcha) (GoError "captcha verification failed");
  entity ← unmarshal_typed decode_entity (sd_Document (rr_SignedDocument req));
  let ccid := Author entity in
  _ ← Verify.guard (String.eqb (ent_Domain (Value entity)) FQDN) (GoError "entity domain does not match server domain");
  latest ← latest_entity db ccid;
  _ ← Verify.guard (negb (CreatedAt entity <? latest)) (GoError "incoming document is older than existing document");
  info ← encodeMetaInfo (rr_Meta req);
  Ok (mkEntityMeta ccid inviter info).

Definition Register (fuel : nat) (registration : string) (captcha : option bool) (ctx : Ctx) (ip : string)
    (req : RegisterRequest) : M unit :=
  let* meta := readM (check_register registration captcha req) in
  SaveMeta meta ;;
  let* _ := Commit fuel ctx ip (rr_SignedDocument req) CommitModeLocalOnlyExecute in
  retM tt.

(** ** Leaving *)

Lemma flag_owner_again db owner :
  MarkCommitLogsGcCandidateByOwner (MarkCommitLogsGcCandidateByOwner db owner) owner =
  MarkCommitLogsGcCandidateByOwner db owner.
Proof.
  unfold MarkCommitLogsGcCandidateByOwner, set_commit_logs. cbn. f_equal.
  rewrite <- map_fmap_compose. apply map_fmap_ext. intros d log _. cbn.
  destruct (String.eqb (cl_Owner log) owner) eqn:E; [|by rewrite E]. unfold flag_gc. cbn. by rewrite E.
Qed.

(** a requester leaves completely and alone.  Its registration is gone,
    every commit log it owns is flagged for collection, nothing of anyone else
    changes, and leaving again changes nothing; a request without a requester
    changes nothing. *)
Theorem Unregister_leaves ctx st :
  let out := Unregister ctx st in
  match ctx_requester ctx with
  | None => out = (Err authentication_required, st)
  | Some who =>
      fst out = Ok tt ∧ st_metas (snd out) !! e_ID who = None ∧
      (∀ id, id ≠ e_ID who → st_metas (snd out) !! id = st_metas st !! id) ∧
      (∀ d log, commit_logs (st_db st) !! d = Some log →
         commit_logs (st_db (snd out)) !! d = Some (if String.eqb (cl_Owner log) (e_ID who) then flag_gc log else log)) ∧
      (wf (st_db st) → wf (st_db (snd out))) ∧
      Unregister ctx (snd out) = (Ok tt, snd out)
  end.
Proof.
  unfold Unregister. destruct (ctx_requester ctx) as [who|]; [|done].
  unfold MarkGcCandidateByOwner, DeleteMeta. rewrite !bindM_modify. cbn [fst snd].
  split_and!; [done|apply lookup_delete_eq|..].
  - intros id Hid. by apply lookup_delete_ne.
  - intros d log Hl. cbn. by rewrite lookup_fmap, Hl.
  - intros Hw. eapply db_step_wf; [apply StepTable, StepMarkOwner|done].
  - unfold modifyM, set_metas, set_db. cbn [fst snd st_db st_tx st_metas st_blocking st_out]. by rewrite flag_owner_again, delete_delete_eq.
Qed.

(** ** Registering *)

(** An invitation the server accepts: signed by its issuer's own key, for the
    subject [invite], issued by the server or by a resident who may invite. *)
Definition invited_by (db : DB) (token issuer : string) : Prop := ∃ header claims,
  Parse token = Ok (header, claims) ∧ Issuer claims = issuer ∧ Validate unix token issuer = Ok tt ∧
  Subject claims = "invite" ∧
  (issuer = config_CSID ∨
   ∃ inviter, GetEntityByCCID db issuer = Ok inviter ∧ Has (ParseTags (e_TagString inviter)) "_invite" = true).

Definition may_register (registration : string) (db : DB) (token inviter : option string) : Prop :=
  registration = "open" ∧ inviter = None ∨
  registration = "invite" ∧ ∃ t issuer, token = Some t ∧ inviter = Some issuer ∧ invited_by db t issuer.

Lemma refuse_ok {A} e (r : result A) a : refuse e r = Ok a → r = Ok a.
Proof. by destruct r. Qed.

Lemma check_registration_ok registration db token inviter :
  check_registration registration db token = Ok inviter → may_register registration db token inviter.
Proof.
  unfold check_registration. destruct (String.eqb_spec registration "invite") as [->|].
  - intros Hr. apply rbind_ok_inv in Hr as (issuer & Hr & [= <-]). right. split; [done|].
    destruct token as [t|]; [|done]. exists t, issuer. split_and!; [done..|]. cbn in Hr.
    apply rbind_ok_inv in Hr as ([header claims] & Hp%refuse_ok & Hr).
    apply rbind_ok_inv in Hr as ([] & Hv%refuse_ok & Hr).
    apply rbind_ok_inv in Hr as ([] & Hs%guard_ok%String.eqb_eq & Hr).
    apply rbind_ok_inv in Hr as ([] & Ht & [= <-]). exists header, claims. split_and!; [done..|].
    destruct (String.eqb_spec (Issuer claims) config_CSID); [by left|right].
    apply rbind_ok_inv in Ht as (e & He%refuse_ok & Ht%guard_ok). eauto.
  - destruct (String.eqb_spec registration "open") as [->|]; [|done]. intros [= <-]. by left.
Qed.

(** The request is for the row [meta]: the configuration admits it, the captcha
    did not fail, and the document is an entity of this server by that author,
    not older than the one the server holds. *)
Definition admits (registration : string) (captcha : option bool) (req : RegisterRequest) (db : DB) (meta : EntityMeta)
    : Prop := ∃ entity latest,
  may_register registration db (rr_InviteToken req) (em_Inviter meta) ∧ captcha ≠ Some false ∧
  unmarshal_typed decode_entity (sd_Document (rr_SignedDocument req)) = Ok entity ∧ em_ID meta = Author entity ∧
  ent_Domain (Value entity) = FQDN ∧ latest_entity db (Author entity) = Ok latest ∧ latest <= CreatedAt entity ∧
  marshal_value (rr_Meta req) = Ok (em_Info meta).

Lemma check_register_ok registration captcha req db meta :
  check_register registration captcha req db = Ok meta → admits registration captcha req db meta.
Proof.
  unfold check_register, encodeMetaInfo. intros Hr. apply rbind_ok_inv in Hr as (inviter & Hi & Hr).
  apply check_registration_ok in Hi. inv_checks. subst meta. exists x0, x2. cbn.
  split_and!; try done. by destruct captcha as [[]|].
Qed.

(** The row is written first, then the document is committed. *)
Lemma Register_run fuel registration captcha ctx ip req st meta :
  check_register registration captcha req (st_db st) = Ok meta →
  let out := Register fuel registration captcha ctx ip req st in
  let commit := Commit fuel ctx ip (rr_SignedDocument req) CommitModeLocalOnlyExecute
                  (set_metas st (<[em_ID meta := meta]> (st_metas st))) in
  snd out = snd commit ∧ is_ok (fst out) = is_ok (fst commit).
Proof.
  intros Hr out commit. subst out. unfold Register, SaveMeta. rewrite bindM_read, Hr, bindM_modify.
  unfold bindM. fold commit. by destruct commit as [[] ?].
Qed.

Lemma Commit_metas fuel ctx ip sd mode st :
  st_tx st = [] → st_metas (snd (Commit fuel ctx ip sd mode st)) = st_metas st ∧
    rtc db_step (st_db st) (st_db (snd (Commit fuel ctx ip sd mode st))).
Proof.
  intros Htx. assert (tx_good st) as Hg by (unfold tx_good; rewrite Htx; constructor).
  by destruct (safe_Commit fuel ctx ip sd mode st Hg) as (_ & ? & _ & ?).
Qed.

(** who may register.  A registration is refused and changes nothing, or
    it is admitted - openly or by an invitation the server accepts, with no
    failed captcha, for an entity of this server not older than the one it
    holds; then the registration row of the document's author is written, no
    other, and the database moves by repository operations only. *)
Theorem Register_gate fuel registration captcha ctx ip req st :
  st_tx st = [] →
  let out := Register fuel registration captcha ctx ip req st in
  refused out st ∨
  ∃ meta, admits registration captcha req (st_db st) meta ∧
    st_metas (snd out) = <[em_ID meta := meta]> (st_metas st) ∧ rtc db_step (st_db st) (st_db (snd out)).
Proof.
  intros Htx out. subst out.
  destruct (check_register registration captcha req (st_db st)) as [meta| |] eqn:Hr;
    [right|left; unfold Register; rewrite bindM_read, Hr; by split..].
  destruct (Register_run fuel registration captcha ctx ip req st meta Hr) as [-> _]. exists meta.
  split; [by apply check_register_ok|]. exact (Commit_metas fuel ctx ip _ CommitModeLocalOnlyExecute
    (set_metas st (<[em_ID meta := meta]> (st_metas st))) Htx).
Qed.

(** registration trusts the document before it is verified.  Where
    registration is open, a document in a resident's name that carries no
    valid signature replaces the resident's registration row, its inviter
    included, although the registration fails. *)
Theorem Register_unverified fuel captcha ctx ip req entity latest info st :
  let out := Register (S fuel) "open" captcha ctx ip req st in
  let sd := rr_SignedDocument req in
  captcha ≠ Some false → st_tx st = [] → ctx_system ctx = false →
  unmarshal_typed decode_entity (sd_Document sd) = Ok entity → ent_Domain (Value entity) = FQDN →
  latest_entity (st_db st) (Author entity) = Ok latest → latest <= CreatedAt entity →
  marshal_value (rr_Meta req) = Ok info →
  ¬ authorised Usecase.resolver maxVerifyDepth sd →
  (∀ doc, unmarshal_document (sd_Document sd) = Ok doc → HasCommitLog (st_db st) (cdid_of sd doc) = false) →
  is_ok (fst out) = false ∧
  st_metas (snd out) !! Author entity = Some (mkEntityMeta (Author entity) None info) ∧ st_db (snd out) = st_db st.
Proof.
  intros out sd Hc Htx Hsys Hd Hdom Hl Hle Hinfo Hno Hlog. subst out.
  assert (check_register "open" captcha req (st_db st) = Ok (mkEntityMeta (Author entity) None info)) as Hr.
  { unfold check_register, encodeMetaInfo. fold sd. apply Z.ltb_ge in Hle. apply String.eqb_eq in Hdom.
    replace (default true captcha) with true by by destruct captcha as [[]|]. run_checks. reflexivity. }
  destruct (Register_run (S fuel) "open" captcha ctx ip req st _ Hr) as [-> ->]. fold sd. cbn [em_ID].
  destruct (admission fuel ctx ip sd CommitModeLocalOnlyExecute
    (set_metas st (<[Author entity := mkEntityMeta (Author entity) None info]> (st_metas st))))
    as [[-> ->]|[(doc & Hdoc & Hl' & _)|(doc & Ha & _)]].
  - split_and!; [done|apply lookup_insert_eq|done].
  - specialize (Hlog doc Hdoc). change (HasCommitLog (st_db st) (cdid_of sd doc) = true) in Hl'. congruence.
  - destruct (adm_signed _ _ _ _ Ha) as [Hs|[Hs _]]; [congruence|done].
Qed.
End Residence.
