(* ===== verification/Subscriber.v ===== *)
(** * Subscriber: peer subscriptions of the leader ([src/internal/worker/LeaderSubscriber.go])

    The leader keeps a websocket to every server whose timelines somebody
    watches, tells it which prefixes it wants, and purges cached chunks when a
    subscription opens or closes.  Everything under [s.mu] is one step; a
    goroutine is a task that remembers what it has left to do once the lock is
    released: the dial, the writes and purges, the connection's two loops.  The
    rest of the world is the peers, which serve the last list they were sent,
    and the cache reads the subscription answers for. *)

From S2P Require Import Prelude Effects Documents.
From stdpp Require Import prelude strings gmap list.
From Stdlib Require Import ZArith Lia.
Open Scope Z_scope.

(** ** State *)

(** [CancelFunc] is set exactly when [Connection] is. *)
Record SubState : Type := mkSubState {
  Prefixes : list string;
  Connection : option nat;
  Dialing : bool;
}.

(** A pending listen request. *)
Record listenUpdate : Type := mkUpdate {
  lu_host : string;
  lu_state : nat;
  lu_conn : nat;
  lu_prefixes : list string;
  lu_added : list string;
}.

(** What is under [s.mu].  A term is a number, [states] is the heap the
    pointers of [Subscriptions] lead to, a client is its id. *)
Record LeaderSubscriber : Type := mkLeader {
  runCtx : option nat;
  Subscriptions : gmap string nat;
  states : gmap nat SubState;
  Clients : gset string;
  keepAlive : gset string;
  purger : bool;
  peerDemand : gmap string (list string);
  localSeen : gmap string Z;
  ensuredAt : gmap string Z;
}.

Definition NewLeaderSubscriber : LeaderSubscriber := mkLeader None ∅ ∅ ∅ ∅ false ∅ ∅ ∅.

Definition set_runCtx s t := mkLeader t (Subscriptions s) (states s) (Clients s) (keepAlive s) (purger s) (peerDemand s) (localSeen s) (ensuredAt s).
Definition set_subs s m := mkLeader (runCtx s) m (states s) (Clients s) (keepAlive s) (purger s) (peerDemand s) (localSeen s) (ensuredAt s).
Definition set_states s m := mkLeader (runCtx s) (Subscriptions s) m (Clients s) (keepAlive s) (purger s) (peerDemand s) (localSeen s) (ensuredAt s).
Definition set_clients s c k := mkLeader (runCtx s) (Subscriptions s) (states s) c k (purger s) (peerDemand s) (localSeen s) (ensuredAt s).
Definition set_purger s := mkLeader (runCtx s) (Subscriptions s) (states s) (Clients s) (keepAlive s) true (peerDemand s) (localSeen s) (ensuredAt s).
Definition set_demand s d := mkLeader (runCtx s) (Subscriptions s) (states s) (Clients s) (keepAlive s) (purger s) d (localSeen s) (ensuredAt s).
Definition set_local s l := mkLeader (runCtx s) (Subscriptions s) (states s) (Clients s) (keepAlive s) (purger s) (peerDemand s) l (ensuredAt s).
Definition set_ensured s e := mkLeader (runCtx s) (Subscriptions s) (states s) (Clients s) (keepAlive s) (purger s) (peerDemand s) (localSeen s) e.

(** What a goroutine does after the lock: send a listen request, then purge
    what it added; purge; close a connection.  The number of a [Write] says
    when its request was prepared. *)
Inductive Action :=
| Write (at_ : nat) (purges : bool) (u : listenUpdate)
| Purge (prefixes : list string) (depth : nat)
| Close (c : nat).

Inductive Task :=
| TEnsure (todo : list string) (prefixesByHost : gmap string (list string))
| TDial (term : nat) (host : string) (st : nat)
| TRun (todo : list Action)
| TListener (host : string) (st c : nat)
| TRelayer (host : string) (st c : nat)
| TCleanup (host : string) (st c : nat).

(** Terms that ended, connections that are closed, the list each peer serves. *)
Record Net : Type := mkNet {
  ended : gset nat;
  closed : gset nat;
  serving : gmap nat (list string);
}.

(** Prefixes with a cached latest chunk, those whose chunk misses an event, and
    the chunks fetched but not yet stored, with what they miss. *)
Record Cache : Type := mkCache {
  cached : gset string;
  stale : gset string;
  reads : list (string * bool);
}.

Record World : Type := mkWorld {
  ld : LeaderSubscriber;
  net : Net;
  cache : Cache;
  tasks : gmap nat Task;
  unused : nat;
}.

Definition start_world : World := mkWorld NewLeaderSubscriber (mkNet ∅ ∅ ∅) (mkCache ∅ ∅ []) ∅ 0.

Definition with_ld (w : World) s := mkWorld s (net w) (cache w) (tasks w) (unused w).
Definition with_net (w : World) n := mkWorld (ld w) n (cache w) (tasks w) (unused w).
Definition with_cache (w : World) c := mkWorld (ld w) (net w) c (tasks w) (unused w).
Definition with_tasks (w : World) t := mkWorld (ld w) (net w) (cache w) t (unused w).
Definition next (w : World) := mkWorld (ld w) (net w) (cache w) (tasks w) (S (unused w)).

Definition spawn (t : Task) (w : World) : World := next (with_tasks w (<[unused w := t]> (tasks w))).
Definition finish (id : nat) (w : World) : World := with_tasks w (delete id (tasks w)).
Definition close (c : nat) (w : World) : World :=
  with_net w (mkNet (ended (net w)) ({[c]} ∪ closed (net w)) (serving (net w))).

Definition deref (s : LeaderSubscriber) (st : nat) : SubState := default (mkSubState [] None false) (states s !! st).
Definition set_state (st : nat) (v : SubState) (s : LeaderSubscriber) : LeaderSubscriber :=
  set_states s (<[st := v]> (states s)).

(** The entries in the order a loop visits them. *)
Definition entries (s : LeaderSubscriber) : list (string * nat) := map_to_list (Subscriptions s).

(** [purger.PurgeLatest], when there is a purger and something to purge. *)
Definition purge_action (purges : bool) (prefixes : list string) (depth : nat) : list Action :=
  if purges && negb (bool_decide (prefixes = [])) then [Purge prefixes depth] else [].

Definition contains (l : list string) (x : string) : bool := bool_decide (x ∈ l).

(** ** What it reports *)

Definition open_prefixes (s : LeaderSubscriber) : list string :=
  entries s ≫= λ e, match Connection (deref s (snd e)) with Some _ => Prefixes (deref s (snd e)) | None => [] end.

Definition OpenPrefixes (s : LeaderSubscriber) : list string := elements (list_to_set (C := gset string) (open_prefixes s)).

Definition ConnectionCounts (s : LeaderSubscriber) : nat * nat :=
  (length (entries s),
   length (List.filter (λ e, match Connection (deref s (snd e)) with Some _ => true | None => false end) (entries s))).

Definition peer_prefixes (s : LeaderSubscriber) : list string := (map_to_list (peerDemand s)).*2 ≫= id.

(** [sessions] is what the registered clients answered before the lock. *)
Definition CurrentSubscriptions (sessions : list string) (s : LeaderSubscriber) : list string :=
  let demandSet := elements (list_to_set (C := gset string) (sessions ++ peer_prefixes s)) in
  List.filter (λ prefix, match localSeen s !! prefix with Some _ => true | None => false end
                         || contains (open_prefixes s) prefix) demandSet.

(** ** Peer demand *)

Definition take_poll (m : gmap string (list string)) (r : string * result (list string)) : gmap string (list string) :=
  match snd r with Ok prefixes => <[fst r := prefixes]> m | _ => m end.

(** [discovery] is [None] when standalone; [polls] are the answers as they came. *)
Definition pollPeerDemand (discovery : option (result (list string))) (polls : list (string * result (list string)))
    (s : LeaderSubscriber) : list string * LeaderSubscriber :=
  match discovery with
  | None => ([], s)
  | Some (Ok peers) =>
      let s := set_demand s (filter (λ p, fst p ∈ peers) (foldl take_poll (peerDemand s) polls)) in
      (peer_prefixes s, s)
  | Some _ => (peer_prefixes s, s)
  end.

Definition minute : Z := 60 * 1000000000.
Definition expire (now : Z) (m : gmap string Z) : gmap string Z := filter (λ p, now - snd p <= minute) m.

(** The bookkeeping at the head of a keeper tick. *)
Definition keeper_expire (tickStart : Z) (s : LeaderSubscriber) : LeaderSubscriber :=
  set_ensured (set_local s (expire tickStart (localSeen s))) (expire tickStart (ensuredAt s)).

(** The keeper's demand: what all its clients want and the peers want. *)
Definition keeper_demand (answers : string → list string) (polled : list string) (s : LeaderSubscriber) : list string :=
  elements (list_to_set (C := gset string) ((elements (Clients s ∪ keepAlive s) ≫= answers) ++ polled)).

(** ** Ensuring *)

Definition tracked (s : LeaderSubscriber) : list string := entries s ≫= λ e, Prefixes (deref s (snd e)).

Definition stamp (now : Z) (l : list string) (m : gmap string Z) : gmap string Z := foldl (λ m p, <[p := now]> m) m l.

(** Up to the first unlock; the prefixes left are resolved one by one. *)
Definition ensure_begin (now : Z) (prefixes : list string) (w : World) : World :=
  let s := ld w in
  let w := with_ld w (set_ensured s (stamp now (List.filter (contains (tracked s)) prefixes) (ensuredAt s))) in
  spawn (TEnsure (List.filter (λ p, negb (contains (tracked s) p)) prefixes) ∅) w.

(** One resolved prefix. *)
Definition ensure_resolve (FQDN : string) (id : nat) (answer : result string) (now : Z) (w : World) : option World :=
  match tasks w !! id with
  | Some (TEnsure (prefix :: todo) byHost) =>
      let continue byHost w := with_tasks w (<[id := TEnsure todo byHost]> (tasks w)) in
      Some match answer with
      | Ok host =>
          if String.eqb host FQDN
          then continue byHost (with_ld w (set_local (ld w) (<[prefix := now]> (localSeen (ld w)))))
          else
            let l := default [] (byHost !! host) in
            continue (if contains l prefix then byHost else <[host := l ++ [prefix]]> byHost) w
      | _ => continue byHost w
      end
  | _ => None
  end.

Definition add_prefix (acc : list string * list string) (prefix : string) : list string * list string :=
  if contains (fst acc) prefix then acc else (fst acc ++ [prefix], snd acc ++ [prefix]).

(** The entry's prefixes with the new ones, and the new ones. *)
Definition add_prefixes (l hostPrefixes : list string) : list string * list string := foldl add_prefix (l, []) hostPrefixes.

(** One host of the locked section; the listen requests to send are collected. *)
Definition ensure_host (now : Z) (term : nat) (acc : World * list Action) (e : string * list string) : World * list Action :=
  let '(w, updates) := acc in
  let '(host, hostPrefixes) := e in
  let s := set_ensured (ld w) (stamp now hostPrefixes (ensuredAt (ld w))) in
  match Subscriptions s !! host with
  | None =>
      let st := unused w in
      let s := set_subs (set_state st (mkSubState hostPrefixes None true) s) (<[host := st]> (Subscriptions s)) in
      (spawn (TDial term host st) (next (with_ld w s)), updates)
  | Some st =>
      let state := deref s st in
      let '(prefixes, added) := add_prefixes (Prefixes state) hostPrefixes in
      if Dialing state then (with_ld w (set_state st (mkSubState prefixes (Connection state) true) s), updates)
      else
        match Connection state with
        | None => (spawn (TDial term host st) (with_ld w (set_state st (mkSubState prefixes None true) s)), updates)
        | Some c =>
            let w := with_ld w (set_state st (mkSubState prefixes (Some c) false) s) in
            if bool_decide (added = []) then (w, updates)
            else (next w, updates ++ [Write (unused w) (purger s) (mkUpdate host st c prefixes added)])
        end
  end.

Definition leading (w : World) : option nat :=
  match runCtx (ld w) with Some t => if bool_decide (t ∈ ended (net w)) then None else Some t | None => None end.

(** The second locked section, its hosts in the order of [order]. *)
Definition ensure_apply (id : nat) (order : list (string * list string)) (now : Z) (w : World) : option World :=
  match tasks w !! id with
  | Some (TEnsure [] byHost) =>
      if decide (order ≡ₚ map_to_list byHost) then
        Some match leading w with
        | None => finish id w
        | Some term =>
            let '(w, updates) := foldl (ensure_host now term) (finish id w, []) order in
            spawn (TRun updates) w
        end
      else None
  | _ => None
  end.

(** ** Dialling *)

Definition dialed (id : nat) (ok : bool) (w : World) : option World :=
  match tasks w !! id with
  | Some (TDial term host st) =>
      let w := finish id w in
      let state := deref (ld w) st in
      let s := set_state st (mkSubState (Prefixes state) (Connection state) false) (ld w) in
      let mine := bool_decide (Subscriptions s !! host = Some st) in
      if negb ok then
        Some (with_ld w (if (mine : bool) then set_subs s (delete host (Subscriptions s)) else s))
      else
        let c := unused w in
        let w := next (with_net w (mkNet (ended (net w)) (closed (net w)) (<[c := []]> (serving (net w))))) in
        if bool_decide (term ∈ ended (net w)) || negb mine then
          Some (spawn (TRun [Close c]) (with_ld w s))
        else
          let w := with_ld w (set_state st (mkSubState (Prefixes state) (Some c) false) (ld w)) in
          let w := spawn (TRelayer host st c) (spawn (TListener host st c) w) in
          Some (spawn (TRun [Write (unused w) (purger s) (mkUpdate host st c (Prefixes state) (Prefixes state))]) (next w))
  | _ => None
  end.

(** The next action of a goroutine.  [ok] is whether a write gets through; the
    peer replaces its list.  A write on a closed connection fails. *)
Definition act (id : nat) (ok : bool) (w : World) : option World :=
  match tasks w !! id with
  | Some (TRun []) => Some (finish id w)
  | Some (TRun (Write _ purges u :: todo)) =>
      let continue todo w := with_tasks w (<[id := TRun todo]> (tasks w)) in
      if ok && negb (bool_decide (lu_conn u ∈ closed (net w))) then
        Some (continue (purge_action purges (lu_added u) 2 ++ todo)
                (with_net w (mkNet (ended (net w)) (closed (net w)) (alter (λ _, lu_prefixes u) (lu_conn u) (serving (net w))))))
      else Some (continue todo (close (lu_conn u) w))
  | Some (TRun (Purge prefixes _ :: todo)) =>
      let gone := list_to_set (C := gset string) prefixes in
      Some (with_tasks (with_cache w (mkCache (cached (cache w) ∖ gone) (stale (cache w) ∖ gone) (reads (cache w))))
              (<[id := TRun todo]> (tasks w)))
  | Some (TRun (Close c :: todo)) => Some (with_tasks (close c w) (<[id := TRun todo]> (tasks w)))
  | _ => None
  end.

(** A loop of the connection ends: it cancels and closes, *)
Definition exit_loop (id : nat) (w : World) : option World :=
  match tasks w !! id with
  | Some (TListener host st c) | Some (TRelayer host st c) =>
      Some (with_tasks (close c w) (<[id := TCleanup host st c]> (tasks w)))
  | _ => None
  end.

(** then drops the entry, if it is still its own, and purges. *)
Definition cleanup (id : nat) (w : World) : option World :=
  match tasks w !! id with
  | Some (TCleanup host st c) =>
      let w := finish id w in
      let s := ld w in
      if bool_decide (Subscriptions s !! host = Some st) && bool_decide (Connection (deref s st) = Some c) then
        Some (spawn (TRun (purge_action (purger s) (Prefixes (deref s st)) 1))
                (with_ld w (set_subs s (delete host (Subscriptions s)))))
      else Some w
  | _ => None
  end.

(** What the relayer does with a message. *)
Definition relay_message (decode_event : string → result Event) (message : string) : option (string * Event) :=
  match decode_event message with
  | Ok event => if String.eqb (ev_Source event) "" then None else Some (ev_Source event, MarkAllPublic event)
  | _ => None
  end.

(** ** Repairing and closing *)

Definition repair_host (term : nat) (w : World) (e : string * nat) : World :=
  let state := deref (ld w) (snd e) in
  match Connection state, Dialing state with
  | None, false =>
      spawn (TDial term (fst e) (snd e)) (with_ld w (set_state (snd e) (mkSubState (Prefixes state) None true) (ld w)))
  | _, _ => w
  end.

Definition repairBrokenSubscriptions (w : World) : World :=
  match leading w with None => w | Some term => foldl (repair_host term) w (entries (ld w)) end.

(** Cancels and closes an entry's connection, and drops the entry. *)
Definition drop_host (w : World) (e : string * nat) : World :=
  let w' := match Connection (deref (ld w) (snd e)) with Some c => close c w | None => w end in
  with_ld w' (set_subs (ld w') (delete (fst e) (Subscriptions (ld w')))).

Definition closeAllSubscriptions (term : nat) (w : World) : World :=
  if bool_decide (runCtx (ld w) = Some term) then
    let dropped := tracked (ld w) in
    spawn (TRun (purge_action (purger (ld w)) dropped 1)) (foldl drop_host w (entries (ld w)))
  else w.

(** Demanded, or ensured after the demand was taken. *)
Definition kept (currentSubs : list string) (since : Z) (s : LeaderSubscriber) (prefix : string) : bool :=
  contains currentSubs prefix || match ensuredAt s !! prefix with Some t => since <? t | None => false end.

(** One entry: closed when nothing is left, told of its new list when it shrank. *)
Definition prune_host (keep : string → bool) (purges : bool) (acc : World * list string * list Action) (e : string * nat)
    : World * list string * list Action :=
  let '(w, dropped, updates) := acc in
  let '(host, st) := e in
  let state := deref (ld w) st in
  let newPrefixes := List.filter keep (Prefixes state) in
  let dropped := dropped ++ List.filter (λ p, negb (keep p)) (Prefixes state) in
  let w := with_ld w (set_state st (mkSubState newPrefixes (Connection state) (Dialing state)) (ld w)) in
  if bool_decide (newPrefixes = []) then (drop_host w e, dropped, updates)
  else
    match Dialing state, Connection state with
    | false, Some c =>
        if bool_decide (length newPrefixes = length (Prefixes state)) then (w, dropped, updates)
        else (next w, dropped, updates ++ [Write (unused w) false (mkUpdate host st c newPrefixes [])])
    | _, _ => (w, dropped, updates)
    end.

(** The updates are sent in the order of [order]. *)
Definition deleteExcessSubscriptions (currentSubs : list string) (since : Z) (order : list (string * nat)) (w : World)
    : option World :=
  if decide (order ≡ₚ entries (ld w)) then
    let '(w', dropped, updates) := foldl (prune_host (kept currentSubs since (ld w)) (purger (ld w))) (w, [], []) order in
    Some (spawn (TRun (purge_action (purger (ld w)) dropped 1 ++ updates)) w')
  else None.

(** ** Executions *)

(** A keeper tick is [LExpire], [LPoll], then an ensure, a repair and a delete;
    ensures also come from sessions and from the other replicas.  Terms are
    numbered by [Start]; [closeAllSubscriptions] runs when its term has ended. *)
Inductive Label :=
| LStart
| LEnd (term : nat)
| LRegister (client : string)
| LRegisterKeepAlive (client : string)
| LExpire (now : Z)
| LPoll (discovery : option (result (list string))) (polls : list (string * result (list string)))
| LEnsure (now : Z) (prefixes : list string)
| LResolve (id : nat) (answer : result string) (now : Z)
| LApply (id : nat) (order : list (string * list string)) (now : Z)
| LRepair
| LDelete (demand : list string) (since : Z) (order : list (string * nat))
| LCloseAll (term : nat)
| LDialed (id : nat) (ok : bool)
| LAct (id : nat) (ok : bool)
| LExit (id : nat)
| LCleanup (id : nat)
| LBreak (c : nat)
| LFetch (prefix : string)
| LStore (i : nat) (sessions : list string)
| LEvent (prefix : string).

Section Run.
(** This server's name, and the prefixes whose events it delivers itself. *)
Context (FQDN : string) (homes : string → bool).

(** An event is heard when the prefix is at home or some open connection
    serves it.  The cache updater then adds it to a cached chunk, but not to one
    that is still being fetched. *)
Definition heard (w : World) (prefix : string) : bool :=
  homes prefix ||
  existsb (λ e, negb (bool_decide (fst e ∈ closed (net w))) && contains (snd e) prefix) (map_to_list (serving (net w))).

Definition event (prefix : string) (w : World) : World :=
  let k := cache w in
  with_cache w (mkCache (cached k)
    (if heard w prefix || negb (bool_decide (prefix ∈ cached k)) then stale k else {[prefix]} ∪ stale k)
    ((λ r, (fst r, snd r || String.eqb (fst r) prefix)) <$> reads k)).

(** A fetched chunk is added to the cache if its prefix is subscribed and has
    none. *)
Definition store (i : nat) (sessions : list string) (w : World) : option World :=
  let k := cache w in
  match reads k !! i with
  | Some (prefix, missed) =>
      let rest := delete i (reads k) in
      Some (with_cache w
        (if contains (CurrentSubscriptions sessions (ld w)) prefix && negb (bool_decide (prefix ∈ cached k))
         then mkCache ({[prefix]} ∪ cached k) (if (missed : bool) then {[prefix]} ∪ stale k else stale k) rest
         else mkCache (cached k) (stale k) rest))
  | None => None
  end.

Definition exec (l : Label) (w : World) : option World :=
  match l with
  | LStart => Some (next (with_ld w (set_runCtx (ld w) (Some (unused w)))))
  | LEnd term => Some (with_net w (mkNet ({[term]} ∪ ended (net w)) (closed (net w)) (serving (net w))))
  | LRegister client => Some (with_ld w (set_clients (ld w) ({[client]} ∪ Clients (ld w)) (keepAlive (ld w))))
  | LRegisterKeepAlive client => Some (with_ld w (set_clients (ld w) (Clients (ld w)) ({[client]} ∪ keepAlive (ld w))))
  | LExpire now => Some (with_ld w (keeper_expire now (ld w)))
  | LPoll discovery polls => Some (with_ld w (snd (pollPeerDemand discovery polls (ld w))))
  | LEnsure now prefixes => Some (ensure_begin now prefixes w)
  | LResolve id answer now => ensure_resolve FQDN id answer now w
  | LApply id order now => ensure_apply id order now w
  | LRepair => Some (repairBrokenSubscriptions w)
  | LDelete demand since order => deleteExcessSubscriptions demand since order w
  | LCloseAll term => if decide (term ∈ ended (net w)) then Some (closeAllSubscriptions term w) else None
  | LDialed id ok => dialed id ok w
  | LAct id ok => act id ok w
  | LExit id => exit_loop id w
  | LCleanup id => cleanup id w
  | LBreak c => Some (close c w)
  | LFetch prefix => Some (with_cache w (mkCache (cached (cache w)) (stale (cache w)) (reads (cache w) ++ [(prefix, false)])))
  | LStore i sessions => store i sessions w
  | LEvent prefix => Some (event prefix w)
  end.

Fixpoint run (ls : list Label) (w : World) : option World :=
  match ls with
  | [] => Some w
  | l :: ls => match exec l w with Some w => run ls w | None => None end
  end.

(** The cache purger is wired before the first term. *)
Definition wired : World := with_ld start_world (set_purger NewLeaderSubscriber).

(** What can happen from there, each step meeting a condition. *)
Inductive reachable (may : World → Label → Prop) : World → Prop :=
| reach_start : reachable may wired
| reach_step w l w' : reachable may w → may w l → exec l w = Some w' → reachable may w'.

(** A prefix resolves to this server only if it is at home here. *)
Definition resolves_home (w : World) (l : Label) : Prop :=
  match l with
  | LResolve id (Ok host) _ =>
      ∀ prefix todo byHost, tasks w !! id = Some (TEnsure (prefix :: todo) byHost) → host = FQDN → homes prefix = true
  | _ => True
  end.

(** Listen requests reach a peer in the order they were prepared. *)
Definition in_order (w : World) (l : Label) : Prop :=
  match l with
  | LAct id true =>
      ∀ at_ purges u todo, tasks w !! id = Some (TRun (Write at_ purges u :: todo)) →
      ∀ id' todo' at' purges' u', <[id := TRun todo]> (tasks w) !! id' = Some (TRun todo') →
        Write at' purges' u' ∈ todo' → lu_conn u' = lu_conn u → (at_ < at')%nat
  | _ => True
  end.

(** A chunk is not stored when an event came while it was being fetched. *)
Definition up_to_date (w : World) (l : Label) : Prop :=
  match l with LStore i _ => ∀ prefix missed, reads (cache w) !! i = Some (prefix, missed) → missed = false | _ => True end.

Definition orderly (w : World) (l : Label) : Prop := resolves_home w l ∧ in_order w l ∧ up_to_date w l.
End Run.
