(* ===== verification/SubscriberFacts.v ===== *)
(** * SubscriberFacts: no connection leaks, no stale chunk is trusted

    [shape] is what the lock and the identity checks of the goroutines keep in
    every execution: one dial per entry, a connection for every entry that is
    not being dialled, and no connection without an owner.  [flow] is what the
    cache needs, and holds as long as listen requests reach a peer in the order
    they were prepared: what an entry lists, its peer serves or will be asked
    to serve before a purge.  Both are stated with the actions a step is still
    collecting, which become a goroutine at its end. *)

From S2P Require Import Prelude Effects Documents Subscriber.
From stdpp Require Import prelude strings gmap list.
From Stdlib Require Import ZArith Lia.

Definition entry (w : World) (h : string) (st : nat) : Prop := Subscriptions (ld w) !! h = Some st.

(** An action of [extra], or of a goroutine. *)
Definition doing (extra : list Action) (w : World) (a : Action) : Prop :=
  a ∈ extra ∨ ∃ id todo, tasks w !! id = Some (TRun todo) ∧ a ∈ todo.

(** The entry's connection is [c]. *)
Definition linked (w : World) (h : string) (st c : nat) (l : list string) : Prop :=
  entry w h st ∧ ∃ v, states (ld w) !! st = Some v ∧ Connection v = Some c ∧ Prefixes v = l.

Definition loops (w : World) (h : string) (st c : nat) : Prop :=
  ∃ id, tasks w !! id = Some (TListener h st c) ∨ tasks w !! id = Some (TRelayer h st c) ∨
    tasks w !! id = Some (TCleanup h st c).

Definition tied (t : Task) : bool := match t with TEnsure _ _ | TRun _ => false | _ => true end.

Lemma deref_state s st v : states s !! st = Some v → deref s st = v.
Proof. intros E. unfold deref. by rewrite E. Qed.

(** ** The shape of the leader's state *)

Record shape (extra : list Action) (w : World) : Prop := mkShape {
  sh_tasks id t : tasks w !! id = Some t → (id < unused w)%nat;
  sh_states st v : states (ld w) !! st = Some v → (st < unused w)%nat;
  sh_serving c l : serving (net w) !! c = Some l → (c < unused w)%nat;
  sh_entry h st : entry w h st → is_Some (states (ld w) !! st);
  sh_inj h h' st : entry w h st → entry w h' st → h = h';
  sh_dial id t h st : tasks w !! id = Some (TDial t h st) → ∃ v, states (ld w) !! st = Some v ∧ Dialing v = true;
  sh_one id id' t t' h h' st :
    tasks w !! id = Some (TDial t h st) → tasks w !! id' = Some (TDial t' h' st) → id = id';
  sh_dialing st v : states (ld w) !! st = Some v → Dialing v = true →
    Connection v = None ∧ ∃ id t h, tasks w !! id = Some (TDial t h st);
  sh_conn st v c : states (ld w) !! st = Some v → Connection v = Some c → is_Some (serving (net w) !! c);
  sh_conn_one st st' v v' c : states (ld w) !! st = Some v → states (ld w) !! st' = Some v' →
    Connection v = Some c → Connection v' = Some c → st = st';
  sh_loop h st c l : linked w h st c l → loops w h st c;
  sh_cleanup id h st c : tasks w !! id = Some (TCleanup h st c) → c ∈ closed (net w);
  sh_leak c : is_Some (serving (net w) !! c) →
    c ∈ closed (net w) ∨ (∃ h st l, linked w h st c l) ∨ doing extra w (Close c);
}.

Lemma shape_wired : shape [] wired.
Proof. split; cbn; unfold linked, entry; cbn; intros; simplify_map_eq; naive_solver. Qed.

(** Steps that leave the tied tasks and the entries alone. *)
Lemma shape_frame extra extra' w w' :
  Subscriptions (ld w') = Subscriptions (ld w) → states (ld w') = states (ld w) → (unused w <= unused w')%nat →
  (∀ id t, tasks w' !! id = Some t → (id < unused w')%nat) →
  (∀ id t, tied t = true → tasks w !! id = Some t ↔ tasks w' !! id = Some t) →
  (∀ c, is_Some (serving (net w') !! c) ↔ is_Some (serving (net w) !! c)) →
  closed (net w) ⊆ closed (net w') →
  (∀ c, doing extra w (Close c) → c ∈ closed (net w') ∨ doing extra' w' (Close c)) →
  shape extra w → shape extra' w'.
Proof.
  intros Hsub Hst Hf Hid Ht Hserve Hc Hclose [].
  assert (∀ h st, entry w' h st ↔ entry w h st) as He by (intros; unfold entry; by rewrite Hsub).
  assert (∀ h st c l, linked w' h st c l ↔ linked w h st c l) as Hl by (intros; unfold linked; by rewrite He, Hst).
  split; try done; setoid_rewrite Hst || idtac; try setoid_rewrite He; try done.
  - intros st v Hv. apply sh_states0 in Hv. lia.
  - intros c l Hl'. destruct (proj1 (Hserve c) ltac:(eauto)) as [l' Hl'']. apply sh_serving0 in Hl''. lia.
  - intros id t h st Hd. apply (Ht _ (TDial t h st)) in Hd; [|done]. eauto.
  - intros id id' t t' h h' st Hd Hd'. apply (Ht _ (TDial t h st)) in Hd; [|done].
    apply (Ht _ (TDial t' h' st)) in Hd'; [|done]. eauto.
  - intros st v Hv Hd. destruct (sh_dialing0 st v Hv Hd) as (Hn & id & t & h & Hd'). split; [done|].
    exists id, t, h. by apply (Ht _ (TDial t h st)).
  - intros st v c Hv Hcn. apply Hserve. eauto.
  - intros h st c l Hh. apply Hl in Hh. destruct (sh_loop0 h st c l Hh) as (id & Hd). exists id.
    destruct Hd as [Hd|[Hd|Hd]]; eapply (Ht id) in Hd; naive_solver.
  - intros id h st c Hd. apply (Ht _ (TCleanup h st c)) in Hd; [|done]. apply Hc. eauto.
  - intros c Hs. apply Hserve in Hs. setoid_rewrite Hl. destruct (sh_leak0 c Hs) as [?|[?|?]]; [left; set_solver|auto|].
    destruct (Hclose c) as [?|?]; auto.
Qed.

Ltac look :=
  repeat match goal with
  | H : <[_ := _]> _ !! _ = Some _ |- _ => apply lookup_insert_Some in H as [[? ?]|[? ?]]; subst
  | H : delete _ _ !! _ = Some _ |- _ => apply lookup_delete_Some in H as [? ?]
  end.

(** A new list for an entry. *)
Definition relist (st : nat) (l : list string) (v : SubState) (s : LeaderSubscriber) : LeaderSubscriber :=
  set_state st (mkSubState l (Connection v) (Dialing v)) s.

Lemma linked_relist w st v l h st' c l' : states (ld w) !! st = Some v →
  linked (with_ld w (relist st l v (ld w))) h st' c l' →
  linked w h st' c (if decide (st' = st) then Prefixes v else l') ∧ (st' = st → l' = l).
Proof.
  intros Hv (He & v' & Hv' & Hc & Hl). cbn in Hv'. unfold linked. look.
  - rewrite decide_True by done. naive_solver.
  - rewrite decide_False by done. naive_solver.
Qed.

Lemma linked_relist_inv w st v l h st' c l' : states (ld w) !! st = Some v → linked w h st' c l' →
  linked (with_ld w (relist st l v (ld w))) h st' c (if decide (st' = st) then l else l').
Proof.
  intros Hv (He & v' & Hv' & Hc & Hl). split; [done|]. cbn. case_decide as Hd; [subst st'|].
  - rewrite lookup_insert_eq. simplify_eq. eauto.
  - rewrite lookup_insert_ne by done. eauto.
Qed.

Lemma shape_relist extra w st v l : states (ld w) !! st = Some v → shape extra w →
  shape extra (with_ld w (relist st l v (ld w))).
Proof.
  intros Hv []. assert (∀ st' v', states (ld w) !! st' = Some v' → ∃ l',
    <[st := mkSubState l (Connection v) (Dialing v)]> (states (ld w)) !! st' = Some (mkSubState l' (Connection v') (Dialing v')))
    as Hup.
  { intros st' v' Hv'. destruct (decide (st = st')) as [<-|Hne].
    - rewrite lookup_insert_eq. simplify_eq. eauto.
    - rewrite lookup_insert_ne by done. destruct v'. eauto. }
  split; cbn in *; try done; intros.
  - look; eauto.
  - apply sh_entry0 in H as (v' & Hv'). destruct (Hup _ _ Hv') as [l' ->]. eauto.
  - apply sh_dial0 in H as (v' & Hv' & Hd). destruct (Hup _ _ Hv') as [l' ->]. eauto.
  - look; cbn in *; eauto.
  - look; cbn in *; eauto.
  - look; cbn in *; eauto using eq_sym.
  - apply (linked_relist _ _ _ _ _ _ _ _ Hv) in H as [H _]. by apply sh_loop0 in H.
  - destruct (sh_leak0 c H) as [?|[(h & st' & l' & Hl)|?]]; auto.
    right; left. eexists _, _, _. by apply linked_relist_inv.
Qed.

(** A new entry is being dialled. *)
Definition enter (h : string) (term : nat) (l : list string) (w : World) : World :=
  spawn (TDial term h (unused w))
    (next (with_ld w (set_subs (set_state (unused w) (mkSubState l None true) (ld w)) (<[h := unused w]> (Subscriptions (ld w)))))).

Lemma linked_enter w h term l h' st c l' : shape [] w ∨ (∃ extra, shape extra w) → Subscriptions (ld w) !! h = None →
  linked (enter h term l w) h' st c l' ↔ linked w h' st c l'.
Proof.
  intros Hs Hn. assert (∃ extra, shape extra w) as [extra []] by naive_solver. unfold linked, entry. cbn. split.
  - intros (He & v & Hv & Hc & Hl). apply lookup_insert_Some in Hv as [[<- <-]|[? Hv]]; [done|].
    apply lookup_insert_Some in He as [[<- <-]|[? He]]; [done|eauto].
  - intros (He & v & Hv & Hc & Hl). rewrite !lookup_insert_ne; [by eauto| |congruence].
    apply sh_states0 in Hv. lia.
Qed.

Lemma shape_enter extra w h term l : Subscriptions (ld w) !! h = None → shape extra w → shape extra (enter h term l w).
Proof.
  intros Hn Hs. assert (∀ h' st c l', linked (enter h term l w) h' st c l' ↔ linked w h' st c l') as Hlink
    by (intros; apply linked_enter; eauto).
  pose proof Hs as []. unfold entry in *.
  assert (∀ v, ¬ states (ld w) !! unused w = Some v) as Hfs by (intros v Hv; apply sh_states0 in Hv; lia).
  assert (∀ h, ¬ Subscriptions (ld w) !! h = Some (unused w)) as Hfe by (intros h' He; apply sh_entry0 in He as [? ?]; naive_solver).
  assert (∀ id t h, ¬ tasks w !! id = Some (TDial t h (unused w))) as Hfd by (intros id t h' Hd; apply sh_dial0 in Hd; naive_solver).
  split; unfold entry; intros.
  - cbn in *. look; [lia|]. apply sh_tasks0 in H0. lia.
  - cbn in *. look; [lia|]. apply sh_states0 in H0. lia.
  - cbn in *. apply sh_serving0 in H. lia.
  - cbn in *. look; [rewrite lookup_insert_eq; eauto|]. apply sh_entry0 in H0 as (v & Hv).
    rewrite lookup_insert_ne by naive_solver. eauto.
  - cbn in *. look; naive_solver.
  - cbn in *. look; [simplify_eq; rewrite lookup_insert_eq; eauto|]. apply sh_dial0 in H0 as (v & Hv & Hd).
    rewrite lookup_insert_ne by naive_solver. eauto.
  - cbn in *. look; simplify_eq; naive_solver.
  - cbn in *. look; cbn in *; [split; [done|]; eexists _, _, _; by rewrite lookup_insert_eq|].
    destruct (sh_dialing0 _ _ H1 H0) as (? & id & t & h' & Hd). split; [done|]. exists id, t, h'.
    rewrite lookup_insert_ne; [done|]. apply sh_tasks0 in Hd. lia.
  - cbn in *. look; [done|eauto].
  - cbn in *. look; try done. eauto.
  - apply Hlink in H. destruct (sh_loop0 _ _ _ _ H) as (id & Hd). exists id. cbn.
    rewrite !lookup_insert_ne; [done|]. destruct Hd as [Hd|[Hd|Hd]]; apply sh_tasks0 in Hd; lia.
  - cbn in *. look; eauto. done.
  - destruct (sh_leak0 c H) as [?|[(h' & st' & l' & Hl)|[?|(id & todo & Ht & Ha)]]]; auto.
    + right; left. exists h', st', l'. by apply Hlink.
    + right; right. by left.
    + right; right; right. exists id, todo. split; [|done]. cbn. rewrite lookup_insert_ne; [done|].
      apply sh_tasks0 in Ht. lia.
Qed.

(** An entry without a connection is dialled again. *)
Definition redial (h : string) (term st : nat) (l : list string) (w : World) : World :=
  spawn (TDial term h st) (with_ld w (set_state st (mkSubState l None true) (ld w))).

Lemma shape_redial extra w h term st v l : states (ld w) !! st = Some v → Connection v = None → Dialing v = false →
  shape extra w → shape extra (redial h term st l w).
Proof.
  intros Hv Hc Hd Hs. pose proof Hs as [].
  assert (∀ id t h, ¬ tasks w !! id = Some (TDial t h st)) as Hfd.
  { intros id t h' Ht. apply sh_dial0 in Ht as (v' & ? & ?). congruence. }
  assert (∀ h' st' c l', linked (redial h term st l w) h' st' c l' ↔ linked w h' st' c l') as Hlink.
  { intros h' st' c l'. unfold linked, entry. cbn. destruct (decide (st = st')) as [<-|Hne].
    - rewrite lookup_insert_eq. naive_solver.
    - by rewrite lookup_insert_ne. }
  split; unfold entry in *; intros.
  - cbn in *. look; [lia|]. apply sh_tasks0 in H0. lia.
  - cbn in *. look; [apply sh_states0 in Hv; lia|]. apply sh_states0 in H0. lia.
  - cbn in *. apply sh_serving0 in H. lia.
  - cbn in *. apply lookup_insert_is_Some'. eauto.
  - eauto.
  - cbn in *. look; [simplify_eq; rewrite lookup_insert_eq; eauto|]. apply sh_dial0 in H0 as (v' & Hv' & Hd').
    rewrite lookup_insert_ne by naive_solver. eauto.
  - cbn in *. look; simplify_eq; naive_solver.
  - cbn in *. look; cbn in *; [split; [done|]; eexists _, _, _; by rewrite lookup_insert_eq|].
    destruct (sh_dialing0 _ _ H1 H0) as (? & id & t & h' & Hid). split; [done|]. exists id, t, h'.
    rewrite lookup_insert_ne; [done|]. apply sh_tasks0 in Hid. lia.
  - cbn in *. look; [done|eauto].
  - cbn in *. look; try done. eauto.
  - apply Hlink in H. destruct (sh_loop0 _ _ _ _ H) as (id & Hid). exists id. cbn.
    rewrite !lookup_insert_ne; [done|]. destruct Hid as [Hid|[Hid|Hid]]; apply sh_tasks0 in Hid; lia.
  - cbn in *. look; eauto. done.
  - destruct (sh_leak0 c H) as [?|[(h' & st' & l' & Hl)|[?|(id & todo & Ht & Ha)]]]; auto.
    + right; left. exists h', st', l'. by apply Hlink.
    + right; right. by left.
    + right; right; right. exists id, todo. split; [|done]. cbn. rewrite lookup_insert_ne; [done|].
      apply sh_tasks0 in Ht. lia.
Qed.

(** A dial ends without a connection for the entry. *)
Definition undial (id st : nat) (v : SubState) (w : World) : World :=
  with_ld (finish id w) (set_state st (mkSubState (Prefixes v) (Connection v) false) (ld w)).

Lemma linked_undial w id st v h' st' c l' : states (ld w) !! st = Some v → Connection v = None →
  linked (undial id st v w) h' st' c l' ↔ linked w h' st' c l'.
Proof.
  intros Hv Hc. unfold linked, entry. cbn. destruct (decide (st = st')) as [<-|Hne].
  - rewrite lookup_insert_eq. naive_solver.
  - by rewrite lookup_insert_ne.
Qed.

Lemma shape_undial extra w id t h st v : tasks w !! id = Some (TDial t h st) → states (ld w) !! st = Some v →
  shape extra w → shape extra (undial id st v w).
Proof.
  intros Ht Hv Hs. pose proof Hs as [].
  destruct (sh_dial0 _ _ _ _ Ht) as (v' & Hv' & Hd). simplify_eq. destruct (sh_dialing0 _ _ Hv Hd) as [Hc _].
  assert (∀ h' st' c l', linked (undial id st v w) h' st' c l' ↔ linked w h' st' c l') as Hlink
    by (intros; by apply linked_undial).
  assert (∀ id' t', id' ≠ id → delete id (tasks w) !! id' = Some t' ↔ tasks w !! id' = Some t') as Hdel.
  { intros id' t' Hne. by rewrite lookup_delete_ne. }
  split; unfold entry in *; intros.
  - cbn in *. look. eauto.
  - cbn in *. look; eauto.
  - eauto.
  - cbn in *. apply lookup_insert_is_Some'. eauto.
  - eauto.
  - cbn in *. look. destruct (sh_dial0 _ _ _ _ H0) as (v'' & Hv'' & Hd''). exists v''.
    rewrite lookup_insert_ne; [done|]. intros <-. apply H. by eapply sh_one0.
  - cbn in *. look. eauto.
  - cbn in *. look; [done|]. destruct (sh_dialing0 _ _ H1 H0) as (? & id' & t' & h' & Hid). split; [done|].
    exists id', t', h'. apply lookup_delete_Some. split; [|done]. intros <-. congruence.
  - cbn in *. look; cbn in *; eauto.
  - cbn in *. look; cbn in *; eauto; congruence.
  - apply Hlink in H. destruct (sh_loop0 _ _ _ _ H) as (id' & Hid). exists id'. cbn.
    rewrite !lookup_delete_ne; [done|]. intros <-. naive_solver.
  - cbn in *. look. eauto.
  - destruct (sh_leak0 c H) as [?|[(h' & st' & l' & Hl)|[?|(id' & todo & Ht' & Ha)]]]; auto.
    + right; left. exists h', st', l'. by apply Hlink.
    + right; right. by left.
    + right; right; right. exists id', todo. split; [|done]. cbn. apply Hdel; [|done]. intros ->. congruence.
Qed.

(** An entry goes when its connection is closed. *)
Definition unlist (h : string) (w : World) : World := with_ld w (set_subs (ld w) (delete h (Subscriptions (ld w)))).

Lemma linked_unlist w h h' st c l : linked (unlist h w) h' st c l ↔ h' ≠ h ∧ linked w h' st c l.
Proof. unfold linked, entry. cbn. rewrite lookup_delete_Some. naive_solver. Qed.

Lemma shape_unlist extra w h : (∀ st c l, linked w h st c l → c ∈ closed (net w)) → shape extra w → shape extra (unlist h w).
Proof.
  intros Hcl Hs. pose proof Hs as []. split; unfold entry in *; cbn -[linked] in *; intros; eauto.
  - look. eauto.
  - look. eauto.
  - apply linked_unlist in H as [_ H]. by destruct (sh_loop0 _ _ _ _ H) as (id & ?); exists id.
  - destruct (sh_leak0 c H) as [?|[(h' & st' & l' & Hl)|?]]; auto.
    destruct (decide (h' = h)) as [->|Hne]; [eauto|]. right; left. exists h', st', l'. by apply linked_unlist.
Qed.

(** A connection nobody will use, until it is closed. *)
Definition connect (w : World) : World :=
  next (with_net w (mkNet (ended (net w)) (closed (net w)) (<[unused w := []]> (serving (net w))))).

Lemma shape_connect extra w : shape extra w → shape (Close (unused w) :: extra) (connect w).
Proof.
  intros []. split; unfold entry in *; cbn -[linked] in *; intros; eauto.
  - apply sh_tasks0 in H. lia.
  - apply sh_states0 in H. lia.
  - look; [lia|]. apply sh_serving0 in H0. lia.
  - apply lookup_insert_is_Some'. eauto.
  - apply lookup_insert_is_Some' in H as [<-|H]; [right; right; left; by left|].
    destruct (sh_leak0 c H) as [?|[?|[?|?]]]; auto; right; right; [left; by right|by right].
Qed.

(** The dial succeeds: the entry gets the connection and its two loops. *)
Definition install (id : nat) (h : string) (st : nat) (v : SubState) (w : World) : World :=
  let c := unused w in
  let w := connect (finish id w) in
  let w := with_ld w (set_state st (mkSubState (Prefixes v) (Some c) false) (ld w)) in
  spawn (TRelayer h st c) (spawn (TListener h st c) w).

Lemma linked_install w id h st v h' st' c l : states (ld w) !! st = Some v → Connection v = None →
  linked (install id h st v w) h' st' c l ↔
  linked w h' st' c l ∨ (entry w h' st ∧ st' = st ∧ c = unused w ∧ l = Prefixes v).
Proof.
  intros Hv Hc. unfold linked, entry. cbn. destruct (decide (st = st')) as [<-|Hne].
  - rewrite lookup_insert_eq. naive_solver.
  - rewrite lookup_insert_ne by done. naive_solver.
Qed.

Lemma lookup_install w id h st v id' t : (∀ id t, tasks w !! id = Some t → id < unused w)%nat →
  tasks (install id h st v w) !! id' = Some t ↔
  (id' = S (S (unused w)) ∧ t = TRelayer h st (unused w)) ∨ (id' = S (unused w) ∧ t = TListener h st (unused w)) ∨
  (id' ≠ id ∧ tasks w !! id' = Some t).
Proof.
  intros Hb. cbn. rewrite !lookup_insert_Some, lookup_delete_Some. split; [naive_solver|].
  intros [[-> ->]|[[-> ->]|[Hne Ht]]]; [by left|right|]; [split; [lia|by left]|].
  apply Hb in Ht as Hlt. right. split; [lia|]. right. split; [lia|]. done.
Qed.

Lemma shape_install extra w id t h st v : tasks w !! id = Some (TDial t h st) → states (ld w) !! st = Some v →
  entry w h st → shape extra w → shape extra (install id h st v w).
Proof.
  intros Ht Hv He Hs. pose proof Hs as [].
  destruct (sh_dial0 _ _ _ _ Ht) as (v' & Hv' & Hd). simplify_eq. destruct (sh_dialing0 _ _ Hv Hd) as [Hc _].
  assert (∀ h' st' c l', linked (install id h st v w) h' st' c l' ↔ linked w h' st' c l' ∨
    (entry w h' st ∧ st' = st ∧ c = unused w ∧ l' = Prefixes v)) as Hlink by (intros; by apply linked_install).
  pose proof (λ id' t', lookup_install w id h st v id' t' sh_tasks0) as Hlook.
  assert (∀ st' v', states (ld (install id h st v w)) !! st' = Some v' ↔
    st' = st ∧ v' = mkSubState (Prefixes v) (Some (unused w)) false ∨ st' ≠ st ∧ states (ld w) !! st' = Some v') as Hst.
  { intros st' v'. cbn. rewrite lookup_insert_Some. naive_solver. }
  assert (∀ st' v', states (ld w) !! st' = Some v' → Connection v' ≠ Some (unused w)) as Hc'.
  { intros st' v' Hv2 Hc2. destruct (sh_conn0 _ _ _ Hv2 Hc2) as [l Hl]. apply sh_serving0 in Hl. lia. }
  split; unfold entry in *; intros.
  - apply Hlook in H as [[-> _]|[[-> _]|[_ H]]]; cbn; [lia..|]. apply sh_tasks0 in H. lia.
  - apply Hst in H as [[-> _]|[_ H]]; cbn; [apply sh_states0 in Hv; lia|]. apply sh_states0 in H. lia.
  - cbn in *. look; [lia|]. apply sh_serving0 in H0. lia.
  - cbn in *. apply lookup_insert_is_Some'. eauto.
  - eauto.
  - apply Hlook in H as [[-> ?]|[[-> ?]|[Hne H]]]; [done..|]. destruct (sh_dial0 _ _ _ _ H) as (v' & Hv' & Hd').
    exists v'. split; [|done]. apply Hst. right. split; [|done]. intros ->. apply Hne. by eapply sh_one0.
  - apply Hlook in H as [[-> ?]|[[-> ?]|[Hne H]]]; [done..|].
    apply Hlook in H0 as [[-> ?]|[[-> ?]|[Hne' H0]]]; [done..|]. eauto.
  - apply Hst in H as [[-> ->]|[Hne H]]; [done|]. destruct (sh_dialing0 _ _ H H0) as (? & id' & t' & h' & Hid).
    split; [done|]. exists id', t', h'. apply Hlook. right; right. split; [|done]. intros ->. congruence.
  - cbn. apply lookup_insert_is_Some'. apply Hst in H as [[-> ->]|[Hne H]]; [left; by simplify_eq/=|right; eauto].
  - apply Hst in H as [[-> ->]|[Hne H]], H0 as [[-> ->]|[Hne' H0]]; cbn in *; [done| | |eauto].
    + simplify_eq. by apply Hc' in H0.
    + simplify_eq. by apply Hc' in H.
  - apply Hlink in H as [H|(He' & -> & -> & ->)].
    + destruct (sh_loop0 _ _ _ _ H) as (id' & Hid). exists id'.
      destruct Hid as [Hid|[Hid|Hid]]; [left|right; left|right; right]; apply Hlook; right; right; (split; [|done]); congruence.
    + exists (S (unused w)). left. apply Hlook. right; left. split; [done|]. f_equal. eauto.
  - apply Hlook in H as [[-> ?]|[[-> ?]|[Hne H]]]; [done..|]. cbn. eauto.
  - cbn in H. apply lookup_insert_is_Some' in H as [<-|H]; [right; left; exists h, st, (Prefixes v); apply Hlink; by right|].
    destruct (sh_leak0 c H) as [?|[(h' & st' & l' & Hl)|[?|(id' & todo & Ht' & Ha)]]]; auto.
    + right; left. exists h', st', l'. apply Hlink. by left.
    + right; right. by left.
    + right; right; right. exists id', todo. split; [|done]. apply Hlook. right; right. split; [congruence|done].
Qed.

Lemma shape_exit extra w id h st c : (tasks w !! id = Some (TListener h st c) ∨ tasks w !! id = Some (TRelayer h st c)) →
  shape extra w → shape extra (with_tasks (close c w) (<[id := TCleanup h st c]> (tasks w))).
Proof.
  intros Ht Hs. pose proof Hs as []. split; unfold entry in *; cbn -[linked] in *; intros; eauto.
  - look; [|eauto]. destruct Ht; eauto.
  - look; [done|]. eauto.
  - look; try done. eauto.
  - destruct (sh_dialing0 _ _ H H0) as (? & id' & t & h' & Hid). split; [done|]. exists id', t, h'.
    rewrite lookup_insert_ne; [done|]. intros <-. naive_solver.
  - destruct (sh_loop0 h0 st0 c0 l H) as (id' & Hid). exists id'. cbn. destruct (decide (id = id')) as [<-|Hne].
    + rewrite lookup_insert_eq. naive_solver.
    + by rewrite lookup_insert_ne.
  - look; [simplify_eq; set_solver|]. apply sh_cleanup0 in H0. set_solver.
  - destruct (sh_leak0 c0 H) as [?|[?|[?|(id' & todo & Ht' & Ha)]]]; [set_solver|auto|right; right; by left|].
    right; right; right. exists id', todo. split; [|done]. cbn. rewrite lookup_insert_ne; [done|]. intros <-. naive_solver.
Qed.

Lemma shape_finish_cleanup extra w id h st c : tasks w !! id = Some (TCleanup h st c) →
  (∀ l, ¬ linked w h st c l) → shape extra w → shape extra (finish id w).
Proof.
  intros Ht Hn Hs. pose proof Hs as []. split; unfold entry in *; cbn -[linked] in *; intros; eauto.
  - look. eauto.
  - look. eauto.
  - look. eauto.
  - destruct (sh_dialing0 _ _ H H0) as (? & id' & t & h' & Hid). split; [done|]. exists id', t, h'.
    rewrite lookup_delete_ne; [done|]. intros <-. naive_solver.
  - destruct (sh_loop0 h0 st0 c0 l H) as (id' & Hid). exists id'. cbn.
    rewrite lookup_delete_ne; [done|]. intros <-. naive_solver.
  - look. eauto.
  - destruct (sh_leak0 c0 H) as [?|[?|[?|(id' & todo & Ht' & Ha)]]]; auto; [right; right; by left|].
    right; right; right. exists id', todo. split; [|done]. cbn. rewrite lookup_delete_ne; [done|]. intros <-. naive_solver.
Qed.

(** ** Goroutines and the actions being collected *)

Lemma doing_take w id todo a : tasks w !! id = Some (TRun todo) → doing [] w a ↔ doing todo (finish id w) a.
Proof.
  intros Ht. split.
  - intros [[]%elem_of_nil|(id' & todo' & Ht' & Ha)]. destruct (decide (id' = id)) as [->|Hne].
    + left. by simplify_eq.
    + right. exists id', todo'. cbn. by rewrite lookup_delete_ne.
  - intros [Ha|(id' & todo' & Ht' & Ha)]; right; [by exists id, todo|].
    exists id', todo'. cbn in Ht'. by look.
Qed.

Lemma doing_put w id todo a : tasks w !! id = None →
  doing [] (with_tasks w (<[id := TRun todo]> (tasks w))) a ↔ doing todo w a.
Proof.
  intros Hn. split.
  - intros [[]%elem_of_nil|(id' & todo' & Ht' & Ha)]. cbn in Ht'. look; [left; by simplify_eq|]. right; eauto.
  - intros [Ha|(id' & todo' & Ht' & Ha)]; right.
    + exists id, todo. cbn. by rewrite lookup_insert_eq.
    + exists id', todo'. cbn. rewrite lookup_insert_ne; [done|]. congruence.
Qed.

Lemma doing_other w t id a : (∀ l, t ≠ TRun l) → tasks w !! id = None ∨ (∃ t', tasks w !! id = Some t' ∧ ∀ l, t' ≠ TRun l) →
  ∀ extra, doing extra (with_tasks w (<[id := t]> (tasks w))) a ↔ doing extra w a.
Proof.
  intros Ht Ho extra. apply or_iff_compat_l. cbn. split; intros (id' & todo & Hid & Ha).
  - look; [by destruct (Ht todo)|eauto].
  - exists id', todo. rewrite lookup_insert_ne; [done|]. intros <-. destruct Ho as [|(t' & ? & Hne)]; [congruence|].
    apply (Hne todo). congruence.
Qed.

Lemma doing_finish w id t a : tasks w !! id = Some t → (∀ l, t ≠ TRun l) →
  ∀ extra, doing extra (finish id w) a ↔ doing extra w a.
Proof.
  intros Hid Ht extra. apply or_iff_compat_l. cbn. split; intros (id' & todo & Hid' & Ha).
  - look. eauto.
  - exists id', todo. rewrite lookup_delete_ne; [done|]. intros <-. apply (Ht todo). congruence.
Qed.

(** ** The flow of listen requests and purges *)

Section Flow.
Context (homes : string → bool).

(** A purge of the prefix is on its way. *)
Definition purging (extra : list Action) (w : World) (p : string) : Prop :=
  ∃ ps d, doing extra w (Purge ps d) ∧ p ∈ ps.

Definition fully (extra : list Action) (w : World) (c : nat) (p : string) : Prop :=
  (∃ l, serving (net w) !! c = Some l ∧ p ∈ l) ∧
  ∀ q pg u, doing extra w (Write q pg u) → lu_conn u = c → p ∈ lu_prefixes u.

(** A listen request that adds the prefix is on its way, and a purge after it. *)
Definition due (extra : list Action) (w : World) (c : nat) (p : string) : Prop :=
  ∃ q pg u, doing extra w (Write q pg u) ∧ lu_conn u = c ∧ p ∈ lu_added u ∧
  ∀ q' pg' u', doing extra w (Write q' pg' u') → lu_conn u' = c → (q < q')%nat → p ∈ lu_prefixes u'.

Definition listed (w : World) (p : string) : Prop := ∃ h st c l, linked w h st c l ∧ p ∈ l.

Record flow (extra : list Action) (w : World) : Prop := mkFlow {
  fl_wired : purger (ld w) = true;
  fl_local p t : localSeen (ld w) !! p = Some t → homes p = true;
  fl_write q pg u : doing extra w (Write q pg u) →
    (q < unused w)%nat ∧ is_Some (serving (net w) !! lu_conn u) ∧ lu_added u ⊆ lu_prefixes u ∧
    (pg = true ∨ lu_added u = []);
  fl_cover h st c l p : linked w h st c l → c ∉ closed (net w) → p ∈ l → fully extra w c p ∨ due extra w c p;
  fl_cached p : p ∈ cached (cache w) → homes p = true ∨ purging extra w p ∨ listed w p;
  fl_stale p : p ∈ stale (cache w) → purging extra w p ∨
    ∃ h st c l, linked w h st c l ∧ p ∈ l ∧ (c ∈ closed (net w) ∨ due extra w c p);
}.

Lemma flow_wired : flow [] wired.
Proof. split; cbn; unfold linked, entry, doing; cbn; intros; try set_solver. Qed.

Lemma flow_frame extra extra' w w' :
  purger (ld w') = purger (ld w) → (∀ p t, localSeen (ld w') !! p = Some t → homes p = true) →
  (unused w <= unused w')%nat → (∀ h st c l, linked w' h st c l ↔ linked w h st c l) →
  (∀ c l, serving (net w) !! c = Some l → serving (net w') !! c = Some l) → closed (net w) ⊆ closed (net w') →
  (∀ q pg u, doing extra' w' (Write q pg u) ↔ doing extra w (Write q pg u)) →
  (∀ p, purging extra w p → purging extra' w' p) →
  cached (cache w') ⊆ cached (cache w) → stale (cache w') ⊆ stale (cache w) →
  flow extra w → flow extra' w'.
Proof.
  intros Hp Hlo Hn Hl Hs Hc Hw Hpu Hca Hst [].
  assert (∀ c p, fully extra w c p → fully extra' w' c p) as Hfu.
  { intros c p [(l & ? & ?) Hall]. split; [eauto|]. setoid_rewrite Hw. done. }
  assert (∀ c p, due extra w c p → due extra' w' c p) as Hdu.
  { intros c p (q & pg & u & Hd & Hcu & Hin & Hall). exists q, pg, u. setoid_rewrite Hw. done. }
  split; unfold listed; try setoid_rewrite Hl; try done.
  - by rewrite Hp.
  - setoid_rewrite Hw. intros q pg u Hd. destruct (fl_write0 q pg u Hd) as (? & [l ?] & ? & ?). split_and!; eauto. lia.
  - intros h st c l p Hlk Hnc Hin. destruct (fl_cover0 h st c l p Hlk ltac:(set_solver) Hin); auto.
  - intros p Hin. destruct (fl_cached0 p ltac:(set_solver)) as [?|[?|?]]; auto.
  - intros p Hin. destruct (fl_stale0 p ltac:(set_solver)) as [?|(h & st & c & l & Hlk & Hl' & Hd)]; auto.
    right. exists h, st, c, l. split_and!; [done..|]. destruct Hd; [left; set_solver|auto].
Qed.

(** An entry may go when its prefixes are about to be purged. *)
Lemma flow_unlist extra w h : (∀ st c l p, linked w h st c l → p ∈ l → purging extra w p) →
  flow extra w → flow extra (unlist h w).
Proof.
  intros Hpu []. split; try done.
  - intros h' st c l p [_ Hlk]%linked_unlist. apply fl_cover0 with (1 := Hlk).
  - intros p Hin. destruct (fl_cached0 p Hin) as [?|[?|(h' & st & c & l & Hlk & Hl)]]; auto.
    right. destruct (decide (h' = h)) as [->|Hne]; [left; by eapply Hpu|].
    right. exists h', st, c, l. split; [by apply linked_unlist|done].
  - intros p Hin. destruct (fl_stale0 p Hin) as [?|(h' & st & c & l & Hlk & Hl & Hd)]; auto.
    destruct (decide (h' = h)) as [->|Hne]; [left; by eapply Hpu|].
    right. exists h', st, c, l. split; [by apply linked_unlist|done].
Qed.

Lemma doing_snoc extra w b a : doing (extra ++ [b]) w a ↔ doing extra w a ∨ a = b.
Proof. unfold doing. rewrite elem_of_app, list_elem_of_singleton. tauto. Qed.

Lemma doing_cons extra w b a : doing (b :: extra) w a ↔ a = b ∨ doing extra w a.
Proof. unfold doing. rewrite elem_of_cons. tauto. Qed.

(** A new listen request on [c] that carries [p] does not hurt [p]. *)
Lemma cover_snoc extra w q pg u c p : (lu_conn u = c → p ∈ lu_prefixes u) →
  (fully extra w c p → fully (extra ++ [Write q pg u]) w c p) ∧
  (due extra w c p → due (extra ++ [Write q pg u]) w c p).
Proof.
  intros Hu. split.
  - intros [Hs Hall]. split; [done|]. intros q' pg' u' [Hd|[= -> -> ->]]%doing_snoc; eauto.
  - intros (q0 & pg0 & u0 & Hd & Hc & Hin & Hall). exists q0, pg0, u0. split_and!; [apply doing_snoc; by left|done..|].
    intros q' pg' u' [Hd'|[= -> -> ->]]%doing_snoc; eauto.
Qed.

(** The entry of an open connection gets a new list, and its peer is told. *)
Lemma flow_listen extra extra0 w h st v c l' pg added :
  shape extra0 w → entry w h st → states (ld w) !! st = Some v → Connection v = Some c →
  (pg = true ∨ added = []) → added ⊆ l' → (∀ p, p ∈ l' → p ∈ Prefixes v ∨ p ∈ added) →
  (∀ p, p ∈ Prefixes v → p ∈ l' ∨ purging extra w p) → flow extra w →
  flow (extra ++ [Write (unused w) pg (mkUpdate h st c l' added)]) (next (with_ld w (relist st l' v (ld w)))).
Proof.
  intros Hs He Hv Hc Hpg Hadd Hnew Hold [].
  set (W := Write _ _ _). set (w' := next _).
  assert (∀ a, doing (extra ++ [W]) w' a ↔ doing extra w a ∨ a = W) as Hdo by (intros a; exact (doing_snoc extra w W a)).
  assert (∀ p, purging extra w p → purging (extra ++ [W]) w' p) as Hpu.
  { intros p (ps & d & Hd & ?). exists ps, d. rewrite Hdo. auto. }
  assert (∀ h2 st2 c2 l2, linked w' h2 st2 c2 l2 → (st2 = st ∧ c2 = c ∧ l2 = l') ∨ (c2 ≠ c ∧ linked w h2 st2 c2 l2)) as Hlk.
  { intros h2 st2 c2 l2 Hl2. apply (linked_relist w st v l') in Hl2 as [Hl2 Heq]; [|done].
    case_decide as Hd; [left|right].
    - subst st2. destruct Hl2 as (_ & v2 & Hv2 & Hc2 & _). simplify_eq. auto.
    - split; [|done]. intros ->. destruct Hl2 as (_ & v2 & Hv2 & Hc2 & _). apply Hd.
      by apply (sh_conn_one _ _ Hs st2 st v2 v c). }
  assert (∀ p, p ∈ l' → fully (extra ++ [W]) w' c p ∨ due (extra ++ [W]) w' c p ∨ c ∈ closed (net w)) as Hcov.
  { intros p Hin. destruct (decide (p ∈ added)) as [Ha|Ha].
    - right; left. exists (unused w), pg, (mkUpdate h st c l' added). split_and!; [by apply Hdo; right|done..|].
      intros q' pg' u' [Hd|[= -> -> ->]]%Hdo Hcq Hlt; [|lia]. apply fl_write0 in Hd as [Hlt' _]. lia.
    - destruct (Hnew p Hin) as [Hp|?]; [|done]. destruct (decide (c ∈ closed (net w))) as [|Hnc]; [auto|].
      destruct (cover_snoc extra w (unused w) pg (mkUpdate h st c l' added) c p ltac:(done)) as [Hf Hd].
      destruct (fl_cover0 h st c (Prefixes v) p) as [Hold'|Hold']; [by split; [|eauto]|done|done|left; by apply Hf|].
      right; left. by apply Hd. }
  assert (∀ c2 p, c2 ≠ c → (fully extra w c2 p → fully (extra ++ [W]) w' c2 p) ∧ (due extra w c2 p → due (extra ++ [W]) w' c2 p)) as Hother.
  { intros c2 p Hne. exact (cover_snoc extra w (unused w) pg (mkUpdate h st c l' added) c2 p (λ E, match Hne (eq_sym E) with end)). }
  assert (∀ h2 st2 c2 l2, linked w h2 st2 c2 l2 → linked w' h2 st2 c2 (if decide (st2 = st) then l' else l2)) as Hback.
  { intros h2 st2 c2 l2 Hl2. by apply (linked_relist_inv w st v l') in Hl2. }
  split; try done.
  - intros q pg' u [Hd|[= -> -> ->]]%Hdo; cbn.
    + destruct (fl_write0 q pg' u Hd) as (? & ? & ? & ?). split_and!; [lia|done..].
    + split_and!; [lia| |done..]. by eapply sh_conn.
  - intros h2 st2 c2 l2 p [(-> & -> & ->)|[Hne Hl2]]%Hlk Hnc Hin.
    + destruct (Hcov p Hin) as [?|[?|?]]; auto. done.
    + destruct (Hother c2 p Hne) as [Hf Hd]. destruct (fl_cover0 h2 st2 c2 l2 p Hl2 Hnc Hin); auto.
  - intros p Hin. destruct (fl_cached0 p Hin) as [?|[?|(h2 & st2 & c2 & l2 & Hl2 & Hp)]]; auto. right.
    apply Hback in Hl2 as Hl3. case_decide as Hd; [subst st2|].
    + assert (p ∈ Prefixes v) as Hp' by (destruct Hl2 as (_ & v2 & ? & ? & ?); by simplify_eq).
      destruct (Hold p Hp'); [right|left; auto]. by exists h2, st, c2, l'.
    + right. by exists h2, st2, c2, l2.
  - intros p Hin. destruct (fl_stale0 p Hin) as [?|(h2 & st2 & c2 & l2 & Hl2 & Hp & Hd)]; auto.
    apply Hback in Hl2 as Hl3. case_decide as Hd'; [subst st2|].
    + destruct Hl2 as (He2 & v2 & ? & ? & ?). simplify_eq. destruct (Hold p Hp) as [Hp'|]; [|left; auto].
      right. exists h2, st, c, l'. split_and!; [done..|].
      destruct Hd as [|Hd]; [by left|]. right. by apply (cover_snoc extra w (unused w) pg (mkUpdate h st c l' added)).
    + right. exists h2, st2, c2, l2. split_and!; [done..|]. destruct Hd as [|Hd]; [by left|]. right.
      apply Hlk in Hl3 as [(? & _)|[Hne _]]; [done|]. by apply Hother.
Qed.

(** A fresh connection: everything it lists is new. *)
Lemma flow_install extra extra0 w id t h st v w' : w' = install id h st v w →
  tasks w !! id = Some (TDial t h st) → states (ld w) !! st = Some v → entry w h st →
  shape extra0 w → flow extra w →
  flow (extra ++ [Write (unused w') true (mkUpdate h st (unused w) (Prefixes v) (Prefixes v))]) (next w').
Proof.
  intros -> Ht Hv He Hs []. destruct (sh_dial _ _ Hs _ _ _ _ Ht) as (v' & Hv' & Hd). simplify_eq.
  destruct (sh_dialing _ _ Hs _ _ Hv Hd) as [Hc _].
  set (u := mkUpdate _ _ _ _ _). set (W := Write _ _ _). set (w' := next _).
  assert (∀ a, doing (extra ++ [W]) w' a ↔ doing extra w a ∨ a = W) as Hdo.
  { intros a. setoid_rewrite (doing_snoc extra w' W a). apply or_iff_compat_r, or_iff_compat_l.
    split; intros (id' & todo & Hid & Ha).
    - apply (lookup_install w id h st v id' _ (sh_tasks _ _ Hs)) in Hid as [[_ ?]|[[_ ?]|[_ ?]]]; [done..|eauto].
    - exists id', todo. split; [|done]. apply (lookup_install w id h st v id' _ (sh_tasks _ _ Hs)).
      right; right. split; [congruence|done]. }
  assert (∀ h' st' c l, linked w' h' st' c l ↔ linked w h' st' c l ∨
    (entry w h' st ∧ st' = st ∧ c = unused w ∧ l = Prefixes v)) as Hlink by (intros; by apply linked_install).
  assert (∀ c l, serving (net w) !! c = Some l → serving (net w') !! c = Some l ∧ c ≠ unused w) as Hserve.
  { intros c l Hl. apply (sh_serving _ _ Hs) in Hl as Hlt. split; [|lia]. cbn. rewrite lookup_insert_ne by lia. done. }
  assert (∀ c p, c ≠ unused w → (fully extra w c p → fully (extra ++ [W]) w' c p) ∧
    (due extra w c p → due (extra ++ [W]) w' c p)) as Hother.
  { intros c p Hne. split.
    - intros [(l & Hl & Hp) Hall]. split; [exists l; split; [by apply Hserve|done]|].
      intros q' pg' u' [Hd'|[= -> -> ->]]%Hdo Hcu; [eauto|done].
    - intros (q & pg & u0 & Hd0 & Hcu & Hin & Hall). exists q, pg, u0. split_and!; [apply Hdo; by left|done..|].
      intros q' pg' u' [Hd'|[= -> -> ->]]%Hdo Hcu' Hlt; [eauto|done]. }
  assert (∀ h' st' c l, linked w h' st' c l → c ≠ unused w) as Hold.
  { intros h' st' c l (_ & v2 & Hv2 & Hc2 & _). destruct (sh_conn _ _ Hs _ _ _ Hv2 Hc2) as [l2 Hl2].
    by destruct (Hserve c l2 Hl2). }
  assert (∀ p, purging extra w p → purging (extra ++ [W]) w' p) as Hpu.
  { intros p (ps & d & Hp & ?). exists ps, d. rewrite Hdo. auto. }
  split; try done.
  - intros q pg u' [Hd'|[= -> -> ->]]%Hdo.
    + destruct (fl_write0 _ _ _ Hd') as (? & [l Hl] & ? & ?). cbn. split_and!; [lia| |done..].
      apply Hserve in Hl as [Hl _]. cbn in Hl. eauto.
    + cbn. split_and!; [lia|rewrite lookup_insert_eq; eauto|done|by left].
  - intros h' st' c l p [Hl|(He' & -> & -> & ->)]%Hlink Hnc Hin.
    + destruct (Hother c p (Hold _ _ _ _ Hl)). destruct (fl_cover0 h' st' c l p Hl Hnc Hin); auto.
    + right. exists (unused (install id h st v w)), true, u. split_and!; [apply Hdo; by right|done..|].
      intros q' pg' u' [Hd'|[= -> -> ->]]%Hdo Hcu Hlt; [|by apply Nat.lt_irrefl in Hlt]. apply fl_write0 in Hd' as [Hlt' _]. cbn in Hlt. lia.
  - intros p Hin. destruct (fl_cached0 p Hin) as [?|[?|(h' & st' & c & l & Hl & ?)]]; auto.
    right; right. exists h', st', c, l. split; [|done]. apply Hlink. by left.
  - intros p Hin. destruct (fl_stale0 p Hin) as [?|(h' & st' & c & l & Hl & ? & Hd')]; auto.
    right. exists h', st', c, l. split_and!; [apply Hlink; by left|done|].
    destruct Hd' as [|Hd']; [by left|]. right. by apply Hother; [eapply Hold|].
Qed.

(** Taking a listen request out concerns its connection only. *)
Lemma cover_cons todo w w' q pg u c p : (∀ a, doing todo w' a ↔ doing todo w a) → c ≠ lu_conn u →
  (∀ l, serving (net w) !! c = Some l → serving (net w') !! c = Some l) →
  (fully (Write q pg u :: todo) w c p → fully todo w' c p) ∧ (due (Write q pg u :: todo) w c p → due todo w' c p).
Proof.
  intros Hdo Hne Hs. split.
  - intros [(l & Hl & Hp) Hall]. split; [eauto|]. intros q' pg' u' Hd. apply (Hall q' pg'). apply doing_cons.
    right. by apply Hdo.
  - intros (q0 & pg0 & u0 & Hd & Hc & Hin & Hall). apply doing_cons in Hd as [[= -> -> ->]|Hd]; [done|].
    exists q0, pg0, u0. split_and!; [by apply Hdo|done..|]. intros q' pg' u' Hd'. apply (Hall q' pg').
    apply doing_cons. right. by apply Hdo.
Qed.

Lemma flow_write_failed todo w q pg u : flow (Write q pg u :: todo) w → flow todo (close (lu_conn u) w).
Proof.
  intros []. pose proof (λ c p Hne, cover_cons todo w (close (lu_conn u) w) q pg u c p (λ a, iff_refl _) Hne (λ l H, H)) as Hcc.
  assert (∀ p, purging (Write q pg u :: todo) w p → purging todo (close (lu_conn u) w) p) as Hpu.
  { intros p (ps & d & [[=]|Hd]%doing_cons & ?). by exists ps, d. }
  split; try done.
  - intros q' pg' u' Hd. apply (fl_write0 q' pg' u'). apply doing_cons. by right.
  - intros h st c l p Hl Hnc Hin. cbn in Hnc. destruct (decide (c = lu_conn u)) as [->|Hne]; [set_solver|].
    destruct (fl_cover0 h st c l p Hl) as [?|?]; [set_solver|done|left; by apply Hcc|right; by apply Hcc].
  - intros p Hin. destruct (fl_cached0 p Hin) as [?|[?|?]]; auto.
  - intros p Hin. destruct (fl_stale0 p Hin) as [?|(h & st & c & l & Hl & Hp & Hd)]; auto.
    right. exists h, st, c, l. split_and!; [done..|]. cbn. destruct (decide (c = lu_conn u)) as [->|Hne]; [left; set_solver|].
    destruct Hd; [left; set_solver|right; by apply Hcc].
Qed.

Lemma flow_written todo w q pg u :
  (∀ q' pg' u', doing todo w (Write q' pg' u') → lu_conn u' = lu_conn u → (q < q')%nat) →
  flow (Write q pg u :: todo) w →
  flow (purge_action pg (lu_added u) 2 ++ todo)
    (with_net w (mkNet (ended (net w)) (closed (net w)) (alter (λ _, lu_prefixes u) (lu_conn u) (serving (net w))))).
Proof.
  intros Hfirst []. set (w' := with_net _ _).
  destruct (fl_write0 q pg u) as (Hq & Hserve & Hadd & Hpg); [apply doing_cons; by left|].
  assert (∀ p, p ∈ lu_added u → purging (purge_action pg (lu_added u) 2 ++ todo) w' p) as Hdone.
  { intros p Hin. destruct Hpg as [->|Hpg]; [|rewrite Hpg in Hin; by apply elem_of_nil in Hin].
    exists (lu_added u), 2%nat. split; [|done]. left. unfold purge_action. rewrite bool_decide_false by (intros E; rewrite E in Hin; by apply elem_of_nil in Hin).
    cbn. by left. }
  assert (∀ a, doing todo w a → doing (purge_action pg (lu_added u) 2 ++ todo) w' a) as Hin'.
  { intros a [?|?]; [left; by apply elem_of_app; right|by right]. }
  assert (∀ p, purging (Write q pg u :: todo) w p → purging (purge_action pg (lu_added u) 2 ++ todo) w' p) as Hpu.
  { intros p (ps & d & [[=]|Hd]%doing_cons & ?). exists ps, d. auto. }
  assert (∀ q' pg' u', doing (purge_action pg (lu_added u) 2 ++ todo) w' (Write q' pg' u') → doing todo w (Write q' pg' u')) as Hout.
  { intros q' pg' u' [[Hp|?]%elem_of_app|?]; [|by left|by right]. unfold purge_action in Hp. destruct (pg && _); [|by apply elem_of_nil in Hp].
    by apply list_elem_of_singleton in Hp. }
  assert (∀ c p, due (Write q pg u :: todo) w c p →
    due (purge_action pg (lu_added u) 2 ++ todo) w' c p ∨ (c = lu_conn u ∧ p ∈ lu_added u ∧
      ∀ q' pg' u', doing todo w (Write q' pg' u') → lu_conn u' = c → p ∈ lu_prefixes u')) as Hdue.
  { intros c p (q0 & pg0 & u0 & Hd & Hc & Hp & Hall). apply doing_cons in Hd as [[= -> -> ->]|Hd].
    - right. split_and!; [done..|]. intros q' pg' u' Hd Hcu. apply (Hall q' pg'); [apply doing_cons; by right|done|].
      apply (Hfirst q' pg' u' Hd). congruence.
    - left. exists q0, pg0, u0. split_and!; [auto|done..|]. intros q' pg' u' Hd' Hcu Hlt. apply (Hall q' pg'); [|done..].
      apply doing_cons. right. auto. }
  split; try done.
  - intros q' pg' u' Hd. apply Hout in Hd. destruct (fl_write0 q' pg' u') as (? & [l Hl] & ? & ?); [apply doing_cons; by right|].
    split_and!; [done| |done..]. cbn. apply lookup_alter_is_Some. eauto.
  - intros h st c l p Hl Hnc Hin. destruct (fl_cover0 h st c l p Hl Hnc Hin) as [[(l' & Hl' & Hp) Hall]|Hd].
    + left. split; [|intros q' pg' u' Hd; apply (Hall q' pg'), doing_cons; right; by apply Hout in Hd].
      cbn. destruct (decide (lu_conn u = c)) as [<-|Hne]; [|rewrite lookup_alter_ne by done; eauto].
      rewrite lookup_alter_eq, Hl'. eexists. split; [done|]. apply (Hall q pg); [apply doing_cons; by left|done].
    + apply Hdue in Hd as [Hd|(-> & Hp & Hall)]; [by right|left]. split.
      * exists (lu_prefixes u). cbn. destruct Hserve as [l0 Hl0]. rewrite lookup_alter_eq, Hl0. auto.
      * intros q' pg' u' Hd. apply (Hall q' pg'). by apply Hout in Hd.
  - intros p Hin. destruct (fl_cached0 p Hin) as [?|[?|?]]; auto.
  - intros p Hin. destruct (fl_stale0 p Hin) as [?|(h & st & c & l & Hl & Hp & Hd)]; auto.
    destruct Hd as [Hd|Hd]; [right; exists h, st, c, l; auto|].
    apply Hdue in Hd as [Hd|(-> & Hp' & _)]; [|auto]. right; exists h, st, c, l; auto.
Qed.

Lemma flow_purged todo w ps d : flow (Purge ps d :: todo) w →
  flow todo (with_cache w (mkCache (cached (cache w) ∖ list_to_set ps) (stale (cache w) ∖ list_to_set ps) (reads (cache w)))).
Proof.
  intros []. set (w' := with_cache _ _).
  assert (∀ p, p ∉ ps → purging (Purge ps d :: todo) w p → purging todo w' p) as Hpu.
  { intros p Hn (ps' & d' & [[= -> ->]|Hd]%doing_cons & ?); [done|]. by exists ps', d'. }
  assert (∀ q pg u, doing (Purge ps d :: todo) w (Write q pg u) ↔ doing todo w' (Write q pg u)) as Hw.
  { intros q pg u. rewrite doing_cons. split; [by intros [?|?]|by right]. }
  assert (∀ c p, (fully (Purge ps d :: todo) w c p → fully todo w' c p) ∧ (due (Purge ps d :: todo) w c p → due todo w' c p)) as Hc.
  { intros c p. unfold fully, due. setoid_rewrite Hw. done. }
  split; try done; cbn.
  - intros q pg u Hd. apply (fl_write0 q pg u). by apply Hw.
  - intros h st c l p Hl Hnc Hin. destruct (Hc c p). destruct (fl_cover0 h st c l p Hl Hnc Hin); auto.
  - intros p [Hin Hn]%elem_of_difference. rewrite elem_of_list_to_set in Hn.
    destruct (fl_cached0 p Hin) as [?|[?|?]]; auto.
  - intros p [Hin Hn]%elem_of_difference. rewrite elem_of_list_to_set in Hn.
    destruct (fl_stale0 p Hin) as [?|(h & st & c & l & Hl & Hp & Hd)]; auto.
    right. exists h, st, c, l. split_and!; [done..|]. destruct Hd; [by left|right; by apply Hc].
Qed.

Lemma flow_event w p : flow [] w → flow [] (event homes p w).
Proof.
  intros []. unfold event. destruct (heard homes w p || _) eqn:Hh; [by split|].
  apply orb_false_iff in Hh as [Hh Hk]. apply negb_false_iff, bool_decide_eq_true in Hk.
  apply orb_false_iff in Hh as [Hh Hno]. split; try done. cbn.
  intros p' [->%elem_of_singleton|Hin]%elem_of_union; [|by apply fl_stale0].
  destruct (fl_cached0 p Hk) as [?|[?|(h & st & c & l & Hl & Hp)]]; [congruence|by left|].
  right. exists h, st, c, l. split_and!; [done..|].
  destruct (decide (c ∈ closed (net w))) as [|Hnc]; [by left|].
  destruct (fl_cover0 h st c l p Hl Hnc Hp) as [[(l' & Hl' & Hp') _]|Hd]; [|by right].
  exfalso. apply not_true_iff_false in Hno. apply Hno. apply existsb_exists. exists (c, l').
  split; [by apply list_elem_of_In, elem_of_map_to_list|]. cbn. unfold contains.
  rewrite bool_decide_false, bool_decide_true by done. done.
Qed.

Lemma elem_of_open s p : p ∈ open_prefixes s ↔ ∃ h st c, Subscriptions s !! h = Some st ∧
  Connection (deref s st) = Some c ∧ p ∈ Prefixes (deref s st).
Proof.
  unfold open_prefixes, entries. rewrite list_elem_of_bind. split.
  - intros ([h st] & Hp & Hin). apply elem_of_map_to_list in Hin. cbn in *.
    destruct (Connection (deref s st)) as [c|] eqn:Hc; [|by apply elem_of_nil in Hp]. eauto 10.
  - intros (h & st & c & He & Hc & Hp). exists (h, st). cbn. rewrite Hc. split; [done|]. by apply elem_of_map_to_list.
Qed.

Lemma open_listed extra w p : shape extra w → p ∈ open_prefixes (ld w) ↔ listed w p.
Proof.
  intros Hs. rewrite elem_of_open. split.
  - intros (h & st & c & He & Hc & Hp). exists h, st, c, (Prefixes (deref (ld w) st)). split; [|done]. split; [done|].
    destruct (sh_entry _ _ Hs h st He) as [v Hv]. rewrite (deref_state _ _ _ Hv) in *. eauto.
  - intros (h & st & c & l & (He & v & Hv & Hc & Hl) & Hp). exists h, st, c. rewrite (deref_state _ _ _ Hv). by subst.
Qed.

Lemma CurrentSubscriptions_served sessions s p : p ∈ CurrentSubscriptions sessions s ↔
  (p ∈ sessions ∨ p ∈ peer_prefixes s) ∧ (is_Some (localSeen s !! p) ∨ p ∈ open_prefixes s).
Proof using Type.
  clear homes. unfold CurrentSubscriptions, contains. rewrite elem_of_filter_b, elem_of_elements, elem_of_list_to_set, elem_of_app.
  rewrite orb_true_iff, bool_decide_eq_true. apply and_iff_compat_l, or_iff_compat_r.
  destruct (localSeen s !! p); split; [eauto|done|done|by intros [??]].
Qed.

Lemma flow_store w w' i sessions : shape [] w → up_to_date w (LStore i sessions) → store i sessions w = Some w' →
  flow [] w → flow [] w'.
Proof.
  intros Hs Hup. unfold store. destruct (reads (cache w) !! i) as [[p missed]|] eqn:Hi; [|done].
  pose proof (Hup p missed Hi) as ->. intros [= <-]. destruct (contains _ _ && _) eqn:Hb.
  - intros []. apply andb_true_iff in Hb as [Hb _]. apply bool_decide_eq_true in Hb.
    apply CurrentSubscriptions_served in Hb as [_ Hopen]. split; try done. cbn.
    intros p' [->%elem_of_singleton|Hin]%elem_of_union; [|by apply fl_cached0].
    destruct Hopen as [[t Ht]|Ho]; [left; by eapply fl_local0|]. right; right. by apply (open_listed [] w).
  - by intros [].
Qed.

(** ** Steps *)

Definition leads (e : list Action) (w : World) (e' : list Action) (w' : World) : Prop :=
  shape e w → shape e' w' ∧ (flow e w → flow e' w').

Lemma leads_trans e1 w1 e2 w2 e3 w3 : leads e1 w1 e2 w2 → leads e2 w2 e3 w3 → leads e1 w1 e3 w3.
Proof. intros H1 H2 Hs. destruct (H1 Hs) as [Hs2 Hf2]. destruct (H2 Hs2) as [Hs3 Hf3]. auto. Qed.

Lemma leads_refl e w : leads e w e w.
Proof. by intros Hs. Qed.

Lemma purging_mono e w e' w' p : (∀ ps d, doing e w (Purge ps d) → doing e' w' (Purge ps d)) →
  purging e w p → purging e' w' p.
Proof. intros Hd (ps & d & ? & ?). exists ps, d. auto. Qed.

(** Steps that change nothing but the bookkeeping and who does what. *)
Lemma leads_quiet e e' w w' :
  Subscriptions (ld w') = Subscriptions (ld w) → states (ld w') = states (ld w) → purger (ld w') = purger (ld w) →
  (flow e w → ∀ p t, localSeen (ld w') !! p = Some t → homes p = true) →
  (unused w <= unused w')%nat → (shape e w → ∀ id t, tasks w' !! id = Some t → (id < unused w')%nat) →
  (shape e w → ∀ id t, tied t = true → tasks w !! id = Some t ↔ tasks w' !! id = Some t) →
  serving (net w') = serving (net w) → closed (net w) ⊆ closed (net w') →
  (shape e w → ∀ a, match a with Close c => doing e w a → c ∈ closed (net w') ∨ doing e' w' a | _ => doing e w a ↔ doing e' w' a end) →
  cached (cache w') = cached (cache w) → stale (cache w') = stale (cache w) →
  leads e w e' w'.
Proof.
  intros Hsub Hst Hp Hlo Hn Hid Ht Hserve Hc Hdo Hca Hsl Hs. specialize (Hid Hs). specialize (Ht Hs). split.
  - apply (shape_frame e e' w w'); auto; intros c.
    + by rewrite Hserve.
    + apply (Hdo Hs (Close c)).
  - intros Hf. apply (flow_frame e e' w w'); [done|by apply Hlo|done| | |done| | | | |done].
    + intros. unfold linked, entry. by rewrite Hsub, Hst.
    + by rewrite Hserve.
    + intros q pg u. symmetry. apply (Hdo Hs (Write q pg u)).
    + intros p. apply purging_mono. intros ps d. by apply (Hdo Hs (Purge ps d)).
    + by rewrite Hca.
    + by rewrite Hsl.
Qed.

(** Bookkeeping under the lock. *)
Lemma leads_ld e w s : Subscriptions s = Subscriptions (ld w) → states s = states (ld w) → purger s = purger (ld w) →
  (∀ p t, localSeen s !! p = Some t → is_Some (localSeen (ld w) !! p) ∨ homes p = true) → leads e w e (with_ld w s).
Proof.
  intros H1 H2 H3 H4. apply leads_quiet; try done.
  - intros Hf p t Hp. destruct (H4 p t Hp) as [[t' Ht']|]; [by eapply (fl_local _ _ Hf)|done].
  - intros Hs id t. apply (sh_tasks _ _ Hs).
  - by intros _ [| |]; [..|right].
Qed.

(** A goroutine starts with what was collected. *)
Lemma leads_run e w : leads e w [] (spawn (TRun e) w).
Proof.
  apply leads_quiet; try done; cbn; [by intros []|lia| | |].
  - intros Hs id t Ht. look; [lia|]. apply (sh_tasks _ _ Hs) in H0. lia.
  - intros Hs id t Ht. rewrite lookup_insert_Some. split; [|naive_solver]. intros Hid. right. split; [|done].
    apply (sh_tasks _ _ Hs) in Hid. lia.
  - intros Hs a. assert (doing e w a ↔ doing [] (spawn (TRun e) w) a) as Hd.
    { symmetry. change (doing [] (with_tasks w (<[unused w := TRun e]> (tasks w))) a ↔ doing e w a).
      apply doing_put. destruct (tasks w !! unused w) eqn:Ht; [|done]. apply (sh_tasks _ _ Hs) in Ht. lia. }
    destruct a; [done..|]. rewrite Hd. auto.
Qed.

(** A step takes over a goroutine's actions, *)
Lemma leads_take w id todo : tasks w !! id = Some (TRun todo) → leads [] w todo (finish id w).
Proof.
  intros Ht. apply leads_quiet; try done; cbn.
  - by intros [].
  - intros Hs id' t Ht'. look. by apply (sh_tasks _ _ Hs) in H0.
  - intros Hs id' t Ht'. rewrite lookup_delete_Some. split; [|naive_solver]. intros Hid. split; [|done]. intros <-.
    by simplify_eq.
  - intros Hs a. pose proof (doing_take w id todo a Ht) as Hd. destruct a; [done..|]. rewrite Hd. auto.
Qed.

(** and leaves it with others. *)
Lemma leads_put w id todo : (id < unused w)%nat → tasks w !! id = None →
  leads todo w [] (with_tasks w (<[id := TRun todo]> (tasks w))).
Proof.
  intros Hlt Hn. apply leads_quiet; try done; cbn.
  - by intros [].
  - intros Hs id' t Ht'. look; [done|]. by apply (sh_tasks _ _ Hs) in H0.
  - intros Hs id' t Ht'. rewrite lookup_insert_Some. split; [|naive_solver]. intros Hid. right. split; [congruence|done].
  - intros Hs a. pose proof (doing_put w id todo a Hn) as Hd. destruct a; [done..|]. rewrite <- Hd. auto.
Qed.

(** An ensure that resolves, starts or ends. *)
Lemma leads_ensure e w id t : match t with TEnsure _ _ => True | _ => False end →
  (tasks w !! id = None ∧ (id < unused w)%nat ∨ ∃ l m, tasks w !! id = Some (TEnsure l m)) →
  leads e w e (with_tasks w (<[id := t]> (tasks w))).
Proof.
  intros Ht Ho. assert (∀ l, t ≠ TRun l) as Hne by (by destruct t).
  apply leads_quiet; try done; cbn.
  - by intros [].
  - intros Hs id' t' Ht'. look; [|by apply (sh_tasks _ _ Hs) in H0].
    destruct Ho as [[_ ?]|(l & m & Hid)]; [done|]. by apply (sh_tasks _ _ Hs) in Hid.
  - intros Hs id' t' Ht'. rewrite lookup_insert_Some. split.
    + intros Hid. right. split; [|done]. intros <-. destruct Ho as [[? _]|(l & m & ?)]; by simplify_eq.
    + intros [[<- <-]|[_ ?]]; [|done]. by destruct t.
  - intros Hs a. pose proof (doing_other w t id a Hne ltac:(naive_solver) e) as Hd.
    destruct a; [by rewrite Hd..|]. intros ?. right. by apply Hd.
Qed.

Lemma leads_finish e w id l m : tasks w !! id = Some (TEnsure l m) → leads e w e (finish id w).
Proof.
  intros Ht. apply leads_quiet; try done; cbn.
  - by intros [].
  - intros Hs id' t' Ht'. look. by apply (sh_tasks _ _ Hs) in H0.
  - intros Hs id' t' Ht'. rewrite lookup_delete_Some. split; [|naive_solver]. intros Hid. split; [|done].
    intros <-. by simplify_eq.
  - intros Hs a. pose proof (doing_finish w id _ a Ht ltac:(done) e) as Hd.
    destruct a; [by rewrite Hd..|]. intros ?. right. by apply Hd.
Qed.

Lemma leads_next e w : leads e w e (next w).
Proof.
  apply leads_quiet; try done; cbn; [by intros []|lia| |by intros _ [| |]; [..|right]].
  intros Hs id t Ht. apply (sh_tasks _ _ Hs) in Ht. lia.
Qed.

Lemma leads_close e w c : leads e w e (close c w).
Proof.
  apply leads_quiet; try done; cbn; [by intros []|intros Hs id t; by apply (sh_tasks _ _ Hs)|set_solver|].
  by intros _ [| |]; [..|right].
Qed.

(** Changes of entries that have no connection leave the flow alone. *)
Lemma flow_same_links e w w' : purger (ld w') = purger (ld w) → localSeen (ld w') = localSeen (ld w) →
  (unused w <= unused w')%nat → (∀ h st c l, linked w' h st c l ↔ linked w h st c l) →
  (∀ c l, serving (net w) !! c = Some l → serving (net w') !! c = Some l) → closed (net w) ⊆ closed (net w') →
  (∀ a, doing e w' a ↔ doing e w a) → cache w' = cache w → flow e w → flow e w'.
Proof.
  intros Hp Hlo Hn Hl Hs Hc Hd Hca Hf.
  apply (flow_frame e e w w'); try done; [| |by rewrite Hca..].
  - rewrite Hlo. apply (fl_local _ _ Hf).
  - intros p. apply purging_mono. intros ps d. by rewrite Hd.
Qed.

Lemma doing_spawn e w w' t a : (∀ l, t ≠ TRun l) → (∀ id t, tasks w !! id = Some t → id < unused w)%nat →
  tasks w' = <[unused w := t]> (tasks w) ∨ (∃ id, (unused w <= id)%nat ∧ tasks w' = <[id := t]> (tasks w)) →
  doing e w' a ↔ doing e w a.
Proof.
  intros Ht Hb Hw. assert (∃ id, (unused w <= id)%nat ∧ tasks w' = <[id := t]> (tasks w)) as (id & Hid & Hw').
  { destruct Hw as [?|?]; [by exists (unused w)|done]. }
  apply or_iff_compat_l. rewrite Hw'. split; intros (id' & todo & Hid' & Ha).
  - look; [by destruct (Ht todo)|eauto].
  - exists id', todo. rewrite lookup_insert_ne; [done|]. intros <-. apply Hb in Hid'. lia.
Qed.

Lemma leads_enter e w h term l : Subscriptions (ld w) !! h = None → leads e w e (enter h term l w).
Proof.
  intros Hn Hs. split; [by apply shape_enter|]. apply flow_same_links; try done; [cbn; lia| |].
  - intros. apply linked_enter; eauto.
  - intros a. apply (doing_spawn e w _ (TDial term h (unused w))); [done|apply (sh_tasks _ _ Hs)|right].
    exists (S (unused w)). split; [lia|done].
Qed.

Lemma leads_redial e w h term st v l : states (ld w) !! st = Some v → Connection v = None → Dialing v = false →
  leads e w e (redial h term st l w).
Proof.
  intros Hv Hc Hd Hs. split; [by eapply shape_redial|]. apply flow_same_links; try done; [cbn; lia| |].
  - intros h' st' c l'. unfold linked, entry. cbn. destruct (decide (st = st')) as [<-|Hne].
    + rewrite lookup_insert_eq. naive_solver.
    + by rewrite lookup_insert_ne.
  - intros a. apply (doing_spawn e w _ (TDial term h st)); [done|apply (sh_tasks _ _ Hs)|by left].
Qed.

Lemma leads_relist_idle e w st v l : states (ld w) !! st = Some v → Connection v = None →
  leads e w e (with_ld w (relist st l v (ld w))).
Proof.
  intros Hv Hc Hs. split; [by apply shape_relist|]. apply flow_same_links; try done.
  intros h' st' c l'. unfold linked, entry. cbn. destruct (decide (st = st')) as [<-|Hne].
  - rewrite lookup_insert_eq. naive_solver.
  - by rewrite lookup_insert_ne.
Qed.
End Flow.
