(* ===== verification/SubscriberSafe.v ===== *)
(** * SubscriberSafe: the leader's operations keep its invariants

    Every step of an execution keeps [shape]; with the listen requests in order
    it keeps [flow].  The theorems follow, and two executions that show what
    happens without the order, and when an event comes during a fetch. *)

From S2P Require Import Prelude Effects Documents Subscriber SubscriberFacts.
From stdpp Require Import prelude strings gmap list.
From Stdlib Require Import ZArith Lia.

Section Operations.
Context (homes : string → bool).
#[local] Notation leads := (leads homes).
#[local] Notation flow := (flow homes).

Lemma leads_then e1 w1 e2 w2 e3 w3 : leads e1 w1 e2 w2 → (shape e2 w2 → leads e2 w2 e3 w3) → leads e1 w1 e3 w3.
Proof.
  intros H1 H2 Hs. destruct (H1 Hs) as [Hs2 Hf2]. destruct (H2 Hs2 Hs2) as [Hs3 Hf3]. auto.
Qed.

Lemma shape_collect e w a : shape e w → shape (e ++ [a]) (next w).
Proof.
  intros Hs. apply (shape_frame e _ w); try done; cbn; [lia| |].
  - intros id t Ht. apply (sh_tasks _ _ Hs) in Ht. lia.
  - intros c Hd. right. by apply doing_snoc; left.
Qed.

Lemma leads_listen e w h st v c l' pg added : entry w h st → states (ld w) !! st = Some v → Connection v = Some c →
  (flow e w → pg = true ∨ added = []) → added ⊆ l' → (∀ p, p ∈ l' → p ∈ Prefixes v ∨ p ∈ added) →
  (flow e w → ∀ p, p ∈ Prefixes v → p ∈ l' ∨ purging e w p) →
  leads e w (e ++ [Write (unused w) pg (mkUpdate h st c l' added)]) (next (with_ld w (relist st l' v (ld w)))).
Proof.
  intros He Hv Hc Hpg Ha Hnew Hold Hs. split; [by apply (shape_collect e (with_ld w (relist st l' v (ld w)))), shape_relist|].
  intros Hf. eapply flow_listen; eauto.
Qed.

(** ** Ensuring *)

Lemma add_prefixes_spec l hs l' added : add_prefixes l hs = (l', added) →
  l ⊆ l' ∧ added ⊆ l' ∧ ∀ p, p ∈ l' → p ∈ l ∨ p ∈ added.
Proof.
  unfold add_prefixes. assert (∀ hs l0 a0 l' added, l ⊆ l0 ∧ a0 ⊆ l0 ∧ (∀ p, p ∈ l0 → p ∈ l ∨ p ∈ a0) →
    foldl add_prefix (l0, a0) hs = (l', added) → l ⊆ l' ∧ added ⊆ l' ∧ ∀ p, p ∈ l' → p ∈ l ∨ p ∈ added) as Hgen.
  { induction hs0 as [|x hs0 IH]; intros l0 a0 l1 added1 Hinv; cbn; [by intros [= -> ->]|].
    unfold add_prefix at 2. cbn. destruct (contains l0 x); apply IH; [done|]. set_solver. }
  intros Hf. eapply Hgen; [|exact Hf]. set_solver.
Qed.

Lemma added_nil l hs l' : add_prefixes l hs = (l', []) → l' = l.
Proof.
  unfold add_prefixes. assert (∀ hs l0 a0 l', foldl add_prefix (l0, a0) hs = (l', []) → a0 = [] ∧ l' = l0) as Hgen.
  { induction hs0 as [|x hs0 IH]; intros l0 a0 l1; cbn; [by intros [= -> ->]|].
    unfold add_prefix at 2. cbn. destruct (contains l0 x); [apply IH|].
    intros [H _]%IH. by destruct a0. }
  intros Hf. by apply Hgen in Hf as [_ ->].
Qed.

Lemma ensure_host_leads now term w u e w' u' : ensure_host now term (w, u) e = (w', u') → leads u w u' w'.
Proof.
  destruct e as [host hostPrefixes]. unfold ensure_host.
  set (s := set_ensured (ld w) _). intros Heq.
  eapply (leads_then _ _ u (with_ld w s)); [apply leads_ld; try done; eauto|]. intros Hs.
  destruct (Subscriptions s !! host) as [st|] eqn:Hsub.
  - destruct (sh_entry _ _ Hs host st Hsub) as [v Hv]. cbn in Hv. rewrite (deref_state s st v Hv) in Heq.
    destruct (add_prefixes (Prefixes v) hostPrefixes) as [l' added] eqn:Hadd.
    destruct (add_prefixes_spec _ _ _ _ Hadd) as (Hold & Hsub' & Hnew).
    destruct (Dialing v) eqn:Hd.
    + injection Heq as <- <-. destruct (sh_dialing _ _ Hs _ _ Hv Hd) as [Hc _].
      replace (mkSubState l' (Connection v) true) with (mkSubState l' (Connection v) (Dialing v)) by by rewrite Hd.
      by apply (leads_relist_idle homes u (with_ld w s) st v l').
    + destruct (Connection v) as [c|] eqn:Hc; [|injection Heq as <- <-; by apply (leads_redial homes u (with_ld w s) host term st v l')].
      case_bool_decide as Ha; injection Heq as <- <-.
      * subst added. apply added_nil in Hadd as ->.
        rewrite <- Hc, <- Hd. intros Hs'. split; [by apply (shape_relist u (with_ld w s))|].
        apply flow_same_links; try done. intros h' st' c' l'. cbn. unfold linked, entry. cbn.
        destruct (decide (st = st')) as [<-|Hne]; [|by rewrite lookup_insert_ne].
        rewrite lookup_insert_eq. naive_solver.
      * rewrite <- Hd, <- Hc. apply (leads_listen u (with_ld w s) host st v c l' (purger s) added); try done.
        -- intros Hf. left. apply (fl_wired _ _ _ Hf).
        -- intros _ p Hp. left. by apply Hold.
  - injection Heq as <- <-. by apply (leads_enter homes u (with_ld w s)).
Qed.

Lemma ensure_hosts_leads now term l w u w' u' :
  foldl (ensure_host now term) (w, u) l = (w', u') → leads u w u' w'.
Proof.
  revert w u. induction l as [|e l IH]; intros w u; cbn -[ensure_host]; [intros [= <- <-]; apply leads_refl|].
  destruct (ensure_host now term (w, u) e) as [w1 u1] eqn:He. intros Hl.
  eapply leads_trans; [by eapply ensure_host_leads|by apply IH].
Qed.

Lemma ensure_apply_leads id order now w w' : ensure_apply id order now w = Some w' → leads [] w [] w'.
Proof.
  unfold ensure_apply. destruct (tasks w !! id) as [[[|] byHost| | | | |]|] eqn:Ht; try done.
  case_decide; [|done]. intros [= <-].
  eapply leads_trans; [by apply (leads_finish homes [] w id [] byHost)|].
  destruct (leading w) as [term|]; [|apply leads_refl].
  destruct (foldl _ _ order) as [w1 u1] eqn:Hf. eapply leads_trans; [by eapply ensure_hosts_leads|apply leads_run].
Qed.

Lemma ensure_begin_leads now prefixes w : leads [] w [] (ensure_begin now prefixes w).
Proof.
  unfold ensure_begin. set (s := set_ensured _ _).
  eapply leads_then; [apply (leads_ld homes [] w s); try done; eauto|]. intros Hs.
  eapply leads_trans; [apply leads_next|].
  apply (leads_ensure homes [] (next (with_ld w s)) (unused w)); [done|]. left. cbn. split; [|lia].
  destruct (tasks w !! unused w) eqn:Ht; [|done]. apply (sh_tasks _ _ Hs) in Ht. cbn in Ht. lia.
Qed.

Lemma ensure_resolve_leads FQDN id answer now w w' : resolves_home FQDN homes w (LResolve id answer now) →
  ensure_resolve FQDN id answer now w = Some w' → leads [] w [] w'.
Proof.
  intros Hhome. unfold ensure_resolve. destruct (tasks w !! id) as [[[|p todo] byHost| | | | |]|] eqn:Ht; try done.
  intros [= <-]. assert (∀ t, match t with TEnsure _ _ => True | _ => False end →
    leads [] w [] (with_tasks w (<[id := t]> (tasks w)))) as Hgo by (intros t Hm; apply leads_ensure; naive_solver).
  destruct answer as [host| |]; [|by apply Hgo..]. destruct (String.eqb_spec host FQDN) as [->|]; [|by apply Hgo].
  eapply leads_trans; [|by apply (leads_ensure homes [] (with_ld w _) id); [|naive_solver]].
  apply leads_ld; try done. cbn. intros q t Hq. look; [right; by eapply (Hhome q todo byHost)|left; eauto].
Qed.

(** ** Dialling *)

Lemma leads_undial w id t h st v : tasks w !! id = Some (TDial t h st) → states (ld w) !! st = Some v →
  leads [] w [] (undial id st v w).
Proof.
  intros Ht Hv Hs. split; [by eapply shape_undial|].
  destruct (sh_dial _ _ Hs _ _ _ _ Ht) as (v' & Hv' & Hd). simplify_eq. destruct (sh_dialing _ _ Hs _ _ Hv Hd) as [Hc _].
  apply flow_same_links; try done; [intros; by apply linked_undial|].
  intros a. apply (doing_finish w id _ a Ht). done.
Qed.

Lemma leads_unlist e w h : (∀ st c l p, linked w h st c l → c ∈ closed (net w) ∧ (flow e w → p ∈ l → purging e w p)) →
  leads e w e (unlist h w).
Proof.
  intros Hl Hs. split; [apply shape_unlist; [|done]; intros st c l Hk; by destruct (Hl st c l "" Hk)|].
  intros Hf. apply flow_unlist; [|done]. intros st c l p Hk. by apply (Hl st c l p Hk).
Qed.

Lemma leads_connect e w : leads e w (Close (unused w) :: e) (connect w).
Proof.
  intros Hs. split; [by apply shape_connect|]. intros Hf. apply (flow_frame homes e _ w); try done.
  - apply (fl_local _ _ _ Hf).
  - cbn. lia.
  - intros c l Hl. apply (sh_serving _ _ Hs) in Hl as Hlt. cbn. rewrite lookup_insert_ne; [done|]. lia.
  - intros q pg u. rewrite doing_cons. split; [by intros [?|?]|by right].
  - intros p. apply purging_mono. intros ps d Hd. apply doing_cons. by right.
Qed.

Lemma leads_install e w id t h st v w' pg : tasks w !! id = Some (TDial t h st) → states (ld w) !! st = Some v →
  entry w h st → w' = install id h st v w → (flow e w → pg = true) →
  leads e w (e ++ [Write (unused w') pg (mkUpdate h st (unused w) (Prefixes v) (Prefixes v))]) (next w').
Proof.
  intros Ht Hv He -> Hpg Hs. split; [by eapply shape_collect, shape_install|].
  intros Hf. rewrite (Hpg Hf). by eapply flow_install.
Qed.

#[export] Instance entry_dec w h st : Decision (entry w h st).
Proof. unfold entry. apply _. Defined.

(** The outcomes of a dial. *)
Lemma dialed_equation id ok w t h st v : tasks w !! id = Some (TDial t h st) → states (ld w) !! st = Some v →
  dialed id ok w = Some (
    let mine := bool_decide (entry w h st) in
    if negb ok then (if (mine : bool) then unlist h (undial id st v w) else undial id st v w)
    else if bool_decide (t ∈ ended (net w)) || negb mine
    then spawn (TRun [Close (unused w)]) (connect (undial id st v w))
    else
      let w' := install id h st v w in
      spawn (TRun [Write (unused w') (purger (ld w)) (mkUpdate h st (unused w) (Prefixes v) (Prefixes v))]) (next w')).
Proof.
  intros Ht Hv. unfold dialed. rewrite Ht. change (ld (finish id w)) with (ld w). rewrite (deref_state _ _ _ Hv).
  change (bool_decide (entry w h st)) with (bool_decide (Subscriptions (ld w) !! h = Some st)). cbn.
  destruct (bool_decide (Subscriptions (ld w) !! h = Some st)), (bool_decide (t ∈ ended (net w))), ok; reflexivity.
Qed.

Lemma dialed_leads id ok w w' : dialed id ok w = Some w' → leads [] w [] w'.
Proof.
  intros Heq Hs. destruct (tasks w !! id) as [[|t h st| | | |]|] eqn:Ht; try by (unfold dialed in Heq; rewrite Ht in Heq).
  destruct (sh_dial _ _ Hs _ _ _ _ Ht) as (v & Hv & Hd). destruct (sh_dialing _ _ Hs _ _ Hv Hd) as [Hc _].
  rewrite (dialed_equation id ok w t h st v Ht Hv) in Heq. injection Heq as <-. revert Hs.
  match goal with |- _ → shape [] ?w' ∧ _ => change (leads [] w [] w') end.
  assert (leads [] w [] (undial id st v w)) as Hun by by eapply leads_undial.
  case_bool_decide as Hmine; destruct ok; cbn [negb orb andb].
  - case_bool_decide; cbn [orb].
    + eapply leads_trans; [exact Hun|]. eapply leads_trans; [apply leads_connect|]. apply leads_run.
    + eapply leads_trans; [|apply leads_run].
      apply (leads_install [] w id t h st v _ (purger (ld w)) Ht Hv Hmine eq_refl). apply fl_wired.
  - eapply leads_trans; [exact Hun|]. apply leads_unlist. intros st' c l p Hl. apply linked_undial in Hl; [|done..].
    destruct Hl as (He & v' & Hv' & Hc' & _). unfold entry in *. congruence.
  - rewrite orb_true_r. eapply leads_trans; [exact Hun|]. eapply leads_trans; [apply leads_connect|]. apply leads_run.
  - exact Hun.
Qed.

(** ** Acting, and the end of a connection *)

Lemma put_back w id todo t : tasks w !! id = Some t →
  with_tasks w (<[id := TRun todo]> (tasks w)) = with_tasks (finish id w) (<[id := TRun todo]> (tasks (finish id w))).
Proof. intros Ht. cbn. by rewrite insert_delete_eq. Qed.

Lemma leads_put_back todo w w' id t : tasks w !! id = Some t → tasks w' = tasks w → unused w' = unused w → shape [] w →
  leads todo (finish id w') [] (with_tasks w' (<[id := TRun todo]> (tasks w))).
Proof.
  intros Ht Htw Hu Hs. rewrite <- Htw in *. rewrite (put_back w' id todo t Ht). apply leads_put.
  - cbn. rewrite Hu. rewrite Htw in Ht. by apply (sh_tasks _ _ Hs) in Ht.
  - cbn. by rewrite lookup_delete_eq.
Qed.

Lemma doing_other_close todo e w a c : (∀ x, a ≠ Close x) → doing (a :: todo) w (Close c) → doing (e ++ todo) w (Close c).
Proof.
  intros Ha [<-|[?|?]]%doing_cons; [by destruct (Ha c)|left; apply elem_of_app; by right|by right].
Qed.

(** Only the order of the writes is needed, and only for the flow. *)
Definition leads_if (P : Prop) (w w' : World) : Prop := shape [] w → shape [] w' ∧ (P → flow [] w → flow [] w').

Lemma leads_always P w w' : leads [] w [] w' → leads_if P w w'.
Proof. intros H Hs. destruct (H Hs). auto. Qed.

Lemma act_write_leads id ok w w' q pg u todo : tasks w !! id = Some (TRun (Write q pg u :: todo)) →
  act id ok w = Some w' → leads_if (in_order w (LAct id ok)) w w'.
Proof.
  intros Ht. unfold act. rewrite Ht. destruct (ok && _) eqn:Hok; intros [= <-] Hs;
    destruct (leads_take homes w id _ Ht Hs) as [Hs1 Hf1].
  - apply andb_true_iff in Hok as [-> _]. set (n := mkNet _ _ _).
    assert (shape (purge_action pg (lu_added u) 2 ++ todo) (finish id (with_net w n))) as Hs2.
    { apply (shape_frame (Write q pg u :: todo) _ (finish id w) (finish id (with_net w n)) eq_refl eq_refl); try done.
      - apply (sh_tasks _ _ Hs1).
      - intros c. apply lookup_alter_is_Some.
      - intros c Hd. right. by refine (doing_other_close todo (purge_action pg (lu_added u) 2) (finish id w) _ c _ Hd). }
    destruct (leads_put_back (purge_action pg (lu_added u) 2 ++ todo) w (with_net w n) id _ Ht eq_refl eq_refl Hs Hs2) as [Hs3 Hf3].
    split; [done|]. intros Hord Hf. apply Hf3. refine (flow_written homes todo (finish id w) q pg u _ (Hf1 Hf)).
    intros q' pg' u' Hd Hc. apply (doing_put (finish id w) id) in Hd; [|cbn; apply lookup_delete_eq].
    rewrite <- (put_back w id todo _ Ht) in Hd. destruct Hd as [[]%elem_of_nil|(id' & todo' & Hid & Hin)].
    by apply (Hord q pg u todo Ht id' todo' q' pg' u').
  - assert (shape todo (finish id (close (lu_conn u) w))) as Hs2.
    { apply (shape_frame (Write q pg u :: todo) _ (finish id w) (finish id (close (lu_conn u) w)) eq_refl eq_refl); try done; cbn.
      - apply (sh_tasks _ _ Hs1).
      - set_solver.
      - intros c Hd. right. by refine (doing_other_close todo [] (finish id w) _ c _ Hd). }
    destruct (leads_put_back todo w (close (lu_conn u) w) id _ Ht eq_refl eq_refl Hs Hs2) as [Hs3 Hf3].
    split; [done|]. intros _ Hf. apply Hf3. exact (flow_write_failed homes todo (finish id w) q pg u (Hf1 Hf)).
Qed.

Lemma act_leads id ok w w' : act id ok w = Some w' → leads_if (in_order w (LAct id ok)) w w'.
Proof.
  intros Heq. destruct (tasks w !! id) as [[| |[|[q pg u|ps d|c] todo]| | |]|] eqn:Ht;
    try by (unfold act in Heq; rewrite Ht in Heq).
  - unfold act in Heq. rewrite Ht in Heq. injection Heq as <-. by apply leads_always, (leads_take homes w id []).
  - by eapply act_write_leads.
  - unfold act in Heq. rewrite Ht in Heq. injection Heq as <-. set (k := mkCache _ _ _). intros Hs.
    refine (leads_always _ w _ _ Hs).
    eapply leads_trans; [by apply (leads_take homes w id)|].
    eapply leads_trans; [|by eapply (leads_put_back _ w (with_cache w k) id)]. intros Hs'.
    split; [|exact (flow_purged homes todo (finish id w) ps d)].
    apply (shape_frame (Purge ps d :: todo) _ (finish id w) (finish id (with_cache w k)) eq_refl eq_refl); try done.
    + apply (sh_tasks _ _ Hs').
    + intros c Hd. right. by refine (doing_other_close todo [] (finish id w) _ c _ Hd).
  - unfold act in Heq. rewrite Ht in Heq. injection Heq as <-. intros Hs. refine (leads_always _ w _ _ Hs).
    eapply leads_trans; [by apply (leads_take homes w id)|].
    eapply leads_trans; [|by eapply (leads_put_back _ w (close c w) id)].
    apply leads_quiet; try done; cbn; [by intros []|intros Hs'; apply (sh_tasks _ _ Hs')|set_solver|].
    intros _ a. pose proof (doing_cons todo (finish id w) (Close c) a) as Hd. destruct a as [| |c'].
    + change (doing (Close c :: todo) (finish id w) (Write at_ purges u) ↔ doing todo (finish id w) (Write at_ purges u)). naive_solver.
    + change (doing (Close c :: todo) (finish id w) (Purge prefixes depth) ↔ doing todo (finish id w) (Purge prefixes depth)). naive_solver.
    + intros [[= ->]|Hd']%Hd; [left; set_solver|by right].
Qed.

Lemma exit_leads id w w' : exit_loop id w = Some w' → leads [] w [] w'.
Proof.
  unfold exit_loop. intros Heq. assert (∃ h st c, (tasks w !! id = Some (TListener h st c) ∨ tasks w !! id = Some (TRelayer h st c)) ∧
    w' = with_tasks (close c w) (<[id := TCleanup h st c]> (tasks w))) as (h & st & c & Ht & ->).
  { destruct (tasks w !! id) as [[| | | | |]|]; naive_solver. }
  intros Hs. split; [by apply shape_exit|]. apply flow_same_links; try done; [set_solver|].
  intros a. apply (doing_other (close c w) (TCleanup h st c) id a); naive_solver.
Qed.

(** A purge is collected. *)
Lemma leads_purge pg ps d e w : leads e w (purge_action pg ps d ++ e) w.
Proof.
  assert (∀ a, doing e w a → doing (purge_action pg ps d ++ e) w a) as Hin.
  { intros a [?|?]; [left; apply elem_of_app; by right|by right]. }
  intros Hs. split.
  - apply (shape_frame e _ w w); try done; [apply (sh_tasks _ _ Hs)|]. auto.
  - intros Hf. apply (flow_frame homes e _ w w); try done.
    + apply (fl_local _ _ _ Hf).
    + intros q b u. split; [|auto]. intros [[Hp|?]%elem_of_app|?]; [|by left|by right].
      unfold purge_action in Hp. destruct (pg && _); [|by apply elem_of_nil in Hp]. by apply list_elem_of_singleton in Hp.
    + intros p. apply purging_mono. auto.
Qed.

Lemma cleanup_leads id w w' : cleanup id w = Some w' → leads [] w [] w'.
Proof.
  unfold cleanup. destruct (tasks w !! id) as [[| | | | |h st c]|] eqn:Ht; try done.
  assert ((∀ l, ¬ linked w h st c l) → leads [] w [] (finish id w)) as Hfin.
  { intros Hn Hs. split; [by eapply shape_finish_cleanup|]. apply flow_same_links; try done.
    intros a. apply (doing_finish w id _ a Ht). done. }
  change (ld (finish id w)) with (ld w). destruct (bool_decide _ && _) eqn:Hb; intros [= <-].
  - apply andb_true_iff in Hb as [He%bool_decide_eq_true Hc%bool_decide_eq_true]. intros Hs. revert Hs.
    match goal with |- _ → shape [] ?w' ∧ _ => change (leads [] w [] w') end.
    eapply leads_then; [apply leads_refl|]. intros Hs. destruct (sh_entry _ _ Hs h st He) as [v Hv].
    rewrite (deref_state _ _ _ Hv) in *. set (e := purge_action _ _ _).
    apply (leads_trans homes [] w e (finish id (unlist h w))); [|apply leads_run].
    apply (leads_trans homes [] w e w); [unfold e; rewrite <- (app_nil_r (purge_action _ _ _)); apply leads_purge|].
    apply (leads_trans homes e w e (unlist h w)).
    + apply leads_unlist. intros st' c' l p Hl. destruct Hl as (He' & v' & Hv' & Hc' & Hl). unfold entry in *. simplify_eq.
      split; [by eapply sh_cleanup|]. intros Hf Hp.
      exists (Prefixes v), 1%nat. split; [|done]. left. unfold e, purge_action.
      rewrite (fl_wired _ _ _ Hf), bool_decide_false by (intros E; rewrite E in Hp; by apply elem_of_nil in Hp). cbn. by left.
    + intros Hs'. split.
      * apply (shape_finish_cleanup e (unlist h w) id h st c); [done| |done]. intros l Hl. by apply linked_unlist in Hl as [? _].
      * apply flow_same_links; try done. intros a. by apply (doing_finish (unlist h w) id _ a Ht).
  - apply Hfin. intros l (He & v & Hv & Hc & _). apply andb_false_iff in Hb as [Hb|Hb]; apply bool_decide_eq_false in Hb; [done|].
    by rewrite (deref_state _ _ _ Hv) in Hb.
Qed.

(** ** Repairing and closing *)

Lemma repair_hosts_leads term l w : (∀ e, e ∈ l → entry w (fst e) (snd e)) →
  leads [] w [] (foldl (repair_host term) w l).
Proof.
  revert w. induction l as [|[h st] l IH]; intros w Hl; cbn; [apply leads_refl|].
  eapply leads_then; [apply leads_refl|]. intros Hs.
  destruct (sh_entry _ _ Hs h st (Hl (h, st) ltac:(by left))) as [v Hv].
  assert (leads [] w [] (repair_host term w (h, st)) ∧ Subscriptions (ld (repair_host term w (h, st))) = Subscriptions (ld w))
    as [Hstep Hsub].
  { unfold repair_host. cbn. rewrite (deref_state _ _ _ Hv).
    destruct (Connection v) eqn:Hc, (Dialing v) eqn:Hd; try by split; [apply leads_refl|].
    split; [by apply leads_redial with (v := v)|done]. }
  eapply leads_trans; [exact Hstep|]. apply IH. intros e He. unfold entry. rewrite Hsub. apply Hl. by right.
Qed.

Lemma elem_of_entries s e : e ∈ entries s ↔ Subscriptions s !! fst e = Some (snd e).
Proof. destruct e as [h st]. apply elem_of_map_to_list. Qed.

Lemma NoDup_entries s : NoDup (entries s).*1.
Proof. apply NoDup_fst_map_to_list. Qed.

Lemma repair_leads w : leads [] w [] (repairBrokenSubscriptions w).
Proof.
  unfold repairBrokenSubscriptions. destruct (leading w); [|apply leads_refl].
  apply repair_hosts_leads. intros e. apply elem_of_entries.
Qed.

Definition cut_off (v : SubState) (w : World) : World :=
  match Connection v with Some c => close c w | None => w end.

Lemma leads_cut_off e w h st v : entry w h st → states (ld w) !! st = Some v →
  (purger (ld w) = true → ∀ p, p ∈ Prefixes v → purging e w p) → leads e w e (unlist h (cut_off v w)).
Proof.
  intros He Hv Hp. eapply (leads_trans _ _ _ e (cut_off v w)).
  { unfold cut_off. destruct (Connection v); [apply leads_close|apply leads_refl]. }
  assert (ld (cut_off v w) = ld w ∧ tasks (cut_off v w) = tasks w) as [Hld Ht] by (unfold cut_off; by destruct (Connection v)).
  apply leads_unlist. intros st' c l p Hl. unfold linked, entry in *. rewrite Hld in Hl.
  destruct Hl as (He' & v' & Hv' & Hc & <-). simplify_eq. split.
  - unfold cut_off. rewrite Hc. cbn. set_solver.
  - intros Hf Hin. unfold purging, doing. rewrite Ht. apply Hp; [|done]. rewrite <- Hld. apply (fl_wired _ _ _ Hf).
Qed.

Lemma drop_host_eq w h st v : states (ld w) !! st = Some v → drop_host w (h, st) = unlist h (cut_off v w).
Proof. intros Hv. unfold drop_host, cut_off. cbn [fst snd]. rewrite (deref_state _ _ _ Hv). by destruct (Connection v). Qed.

Lemma drop_hosts_leads e l w : NoDup l.*1 → (∀ x, x ∈ l → entry w (fst x) (snd x)) →
  (purger (ld w) = true → ∀ x p, x ∈ l → p ∈ Prefixes (deref (ld w) (snd x)) → purging e w p) →
  leads e w e (foldl drop_host w l).
Proof.
  revert w. induction l as [|[h st] l IH]; intros w Hnd Hl Hp; cbn -[drop_host]; [apply leads_refl|].
  apply NoDup_cons in Hnd as [Hn Hnd]. eapply leads_then; [apply leads_refl|]. intros Hs.
  destruct (sh_entry _ _ Hs h st (Hl (h, st) ltac:(by left))) as [v Hv].
  rewrite (drop_host_eq _ _ _ _ Hv). set (w1 := unlist h (cut_off v w)).
  assert (states (ld w1) = states (ld w) ∧ purger (ld w1) = purger (ld w) ∧ tasks w1 = tasks w ∧
    Subscriptions (ld w1) = delete h (Subscriptions (ld w))) as (Hst & Hpu & Ht & Hsub)
    by (unfold w1, cut_off; by destruct (Connection v)).
  eapply (leads_trans _ _ _ e w1).
  - apply (leads_cut_off e w h st v); [by apply (Hl (h, st)); left|done|].
    intros Hw p Hin. apply (Hp Hw (h, st)); [by left|]. cbn. by rewrite (deref_state _ _ _ Hv).
  - apply IH; [done| |].
    + intros x Hx. unfold entry. rewrite Hsub, lookup_delete_ne; [apply Hl; by right|].
      intros Hh. apply Hn. cbn. rewrite Hh. apply list_elem_of_fmap. eauto.
    + intros Hw x p Hx. rewrite Hpu in Hw. unfold deref. rewrite Hst. unfold purging, doing. rewrite Ht.
      apply (Hp Hw); by right.
Qed.

Lemma elem_of_tracked s p : p ∈ tracked s ↔ ∃ e, e ∈ entries s ∧ p ∈ Prefixes (deref s (snd e)).
Proof using Type. clear homes. unfold tracked. rewrite list_elem_of_bind. naive_solver. Qed.

Lemma purge_of e ps d w p : p ∈ ps → purging (purge_action true ps d ++ e) w p.
Proof.
  intros Hp. exists ps, d. split; [|done]. left. apply elem_of_app. left. unfold purge_action.
  rewrite bool_decide_false by (intros E; rewrite E in Hp; by apply elem_of_nil in Hp). by left.
Qed.

Lemma close_all_leads term w : leads [] w [] (closeAllSubscriptions term w).
Proof.
  unfold closeAllSubscriptions. case_bool_decide; [|apply leads_refl].
  set (e := purge_action _ _ _). eapply (leads_trans _ _ _ e w).
  { unfold e. rewrite <- (app_nil_r (purge_action _ _ _)). apply leads_purge. }
  eapply leads_trans; [|apply leads_run]. apply drop_hosts_leads; [apply NoDup_entries|intros x; apply elem_of_entries|].
  intros Hw x p Hx Hp. unfold e. rewrite Hw, <- (app_nil_r (purge_action _ _ _)). apply purge_of, elem_of_tracked. eauto.
Qed.

(** ** Pruning *)

Lemma leads_more_purges pg ps ps' d e w : leads (purge_action pg ps d ++ e) w (purge_action pg (ps ++ ps') d ++ e) w.
Proof.
  assert (∀ ps c, doing (purge_action pg ps d ++ e) w (Close c) ↔ doing e w (Close c)) as Hc.
  { intros ps0 c. unfold doing, purge_action. destruct (pg && _); set_solver. }
  assert (∀ ps q b u, doing (purge_action pg ps d ++ e) w (Write q b u) ↔ doing e w (Write q b u)) as Hw.
  { intros ps0 q b u. unfold doing, purge_action. destruct (pg && _); set_solver. }
  intros Hs. split.
  - apply (shape_frame (purge_action pg ps d ++ e) _ w w); try done; [apply (sh_tasks _ _ Hs)|].
    intros c. rewrite !Hc. auto.
  - intros Hf. apply (flow_frame homes (purge_action pg ps d ++ e) _ w w); try done.
    + apply (fl_local _ _ _ Hf).
    + intros q b u. by rewrite !Hw.
    + intros p (ps0 & d0 & [Hin|Hin] & Hp); [|exists ps0, d0; split; [by right|done]].
      apply elem_of_app in Hin as [Hin|Hin]; [|exists ps0, d0; split; [left; apply elem_of_app; by right|done]].
      unfold purge_action in Hin. destruct pg; [|by apply elem_of_nil in Hin]. cbn in Hin.
      case_bool_decide; [by apply elem_of_nil in Hin|]. apply list_elem_of_singleton in Hin as [= -> ->].
      apply purge_of, elem_of_app. by left.
Qed.

Lemma leads_relist_gone e w st v l : states (ld w) !! st = Some v → (∀ h, ¬ entry w h st) →
  leads e w e (with_ld w (relist st l v (ld w))).
Proof.
  intros Hv Hn Hs. split; [by apply shape_relist|]. apply flow_same_links; try done.
  intros h' st' c l'. unfold linked, entry. cbn. destruct (decide (st = st')) as [<-|Hne].
  - split; intros [He _]; by destruct (Hn h').
  - by rewrite lookup_insert_ne.
Qed.

Lemma filter_same {A} (P : A → bool) l : length (List.filter P l) = length l → List.filter P l = l.
Proof.
  induction l as [|x l IH]; cbn; [done|]. destruct (P x); cbn; intros Hl; [f_equal; apply IH; congruence|].
  pose proof (length_filter_le P l). lia.
Qed.

Lemma prune_host_leads keep pg w dropped u h st w' dropped' u' :
  pg = purger (ld w) → entry w h st → prune_host keep pg (w, dropped, u) (h, st) = (w', dropped', u') →
  leads (purge_action pg dropped 1 ++ u) w (purge_action pg dropped' 1 ++ u') w' ∧
  purger (ld w') = purger (ld w) ∧ ∀ h', h' ≠ h → Subscriptions (ld w') !! h' = Subscriptions (ld w) !! h'.
Proof.
  intros -> He Heq. set (pg := purger (ld w)).
  assert (∃ v, deref (ld w) st = v) as [v Hdv] by eauto.
  unfold prune_host in Heq. rewrite Hdv in Heq. set (l := List.filter keep (Prefixes v)) in *.
  set (gone := List.filter (λ p, negb (keep p)) (Prefixes v)) in *.
  assert (∀ p, p ∈ Prefixes v → p ∈ l ∨ p ∈ gone) as Hsplit.
  { intros p Hp. unfold l, gone. rewrite !elem_of_filter_b. destruct (keep p); auto. }
  assert (leads (purge_action pg dropped 1 ++ u) w (purge_action pg (dropped ++ gone) 1 ++ u) w) as Hmore
    by apply leads_more_purges.
  assert (∀ e2 w2, (states (ld w) !! st = Some v → leads (purge_action pg (dropped ++ gone) 1 ++ u) w e2 w2) →
    leads (purge_action pg dropped 1 ++ u) w e2 w2) as Hgo.
  { intros e2 w2 H2. eapply leads_then; [exact Hmore|]. intros Hs.
    destruct (sh_entry _ _ Hs h st He) as [v' Hv']. rewrite (deref_state _ _ _ Hv') in Hdv. subst v'. by apply H2. }
  assert (pg = true → ∀ p, p ∈ gone → purging (purge_action pg (dropped ++ gone) 1 ++ u) w p) as Hpg.
  { intros -> p Hp. apply purge_of, elem_of_app. by right. }
  case_bool_decide as Hl.
  - injection Heq as <- <- <-. split.
    + apply Hgo. intros Hv.
      assert (drop_host (with_ld w (relist st l v (ld w))) (h, st) =
        with_ld (unlist h (cut_off v w)) (relist st l v (ld (unlist h (cut_off v w))))) as Hdrop.
      { unfold drop_host. cbn [fst snd]. rewrite (deref_state _ st (mkSubState l (Connection v) (Dialing v)))
          by (cbn; by rewrite lookup_insert_eq). unfold cut_off. cbn [Connection]. by destruct (Connection v). }
      unfold relist in Hdrop at 1. rewrite Hdrop. clear Hdrop.
      eapply leads_then; [apply leads_refl|]. intros Hs.
      eapply leads_trans; [apply (leads_cut_off _ w h st v He Hv)|].
      * intros Hw p Hp. apply Hpg; [done|]. destruct (Hsplit p Hp) as [Hin|]; [|done]. rewrite Hl in Hin. by apply elem_of_nil in Hin.
      * apply leads_relist_gone; [unfold cut_off; by destruct (Connection v)|]. intros h' He'.
        unfold entry in He'. assert (Subscriptions (ld (cut_off v w)) = Subscriptions (ld w)) as Hsub by (unfold cut_off; by destruct (Connection v)).
        cbn in He'. rewrite Hsub in He'. look. match goal with H : h ≠ h' |- _ => apply H end. by eapply (sh_inj _ _ Hs).
    + unfold drop_host. cbn. by destruct (Connection (deref _ st)); split; try done; intros h' Hne; cbn; rewrite lookup_delete_ne.
  - assert (with_ld w (set_state st (mkSubState l (Connection v) (Dialing v)) (ld w)) = with_ld w (relist st l v (ld w))) as Hrel by done.
    destruct (Dialing v) eqn:Hd.
    + injection Heq as <- <- <-. split; [|done]. apply Hgo. intros Hv. eapply leads_then; [apply leads_refl|]. intros Hs.
      rewrite Hrel. apply leads_relist_idle; [done|]. by destruct (sh_dialing _ _ Hs _ _ Hv Hd).
    + destruct (Connection v) as [c|] eqn:Hc; [|injection Heq as <- <- <-; split; [|done]; apply Hgo; intros Hv; rewrite Hrel; by apply leads_relist_idle].
      case_bool_decide as Hlen; injection Heq as <- <- <-; (split; [|done]).
      * apply Hgo. intros Hv Hs. assert (l = Prefixes v) as -> by by apply filter_same.
        split; [rewrite Hrel; by apply shape_relist|]. apply flow_same_links; try done.
        intros h' st' c' l'. unfold linked, entry. cbn. destruct (decide (st = st')) as [<-|Hne]; [|by rewrite lookup_insert_ne].
        rewrite lookup_insert_eq, Hv. split; intros [He' (v' & [= <-] & Hc' & Hl')]; (split; [done|]); eexists; (split; [done|]); cbn in *; by rewrite ?Hc in *.
      * rewrite app_assoc. apply Hgo. intros Hv.
        assert (set_state st (mkSubState l (Some c) false) (ld w) = relist st l v (ld w)) as -> by (unfold relist; by rewrite Hc, Hd).
        apply (leads_listen _ w h st v c l false []); try done; [by right|set_solver| |].
        -- intros p Hp. left. unfold l in Hp. by apply elem_of_filter_b in Hp as [? _].
        -- intros Hf p Hp. destruct (Hsplit p Hp); [by left|right]. apply Hpg; [apply (fl_wired _ _ _ Hf)|done].
Qed.

Lemma prune_hosts_leads keep pg l w dropped u w' dropped' u' : pg = purger (ld w) → NoDup l.*1 →
  (∀ x, x ∈ l → entry w (fst x) (snd x)) → foldl (prune_host keep pg) (w, dropped, u) l = (w', dropped', u') →
  leads (purge_action pg dropped 1 ++ u) w (purge_action pg dropped' 1 ++ u') w'.
Proof.
  revert w dropped u. induction l as [|[h st] l IH]; intros w dropped u Hp Hnd Hl; cbn -[prune_host];
    [intros [= <- <- <-]; apply leads_refl|].
  apply NoDup_cons in Hnd as [Hn Hnd]. destruct (prune_host keep pg (w, dropped, u) (h, st)) as [[w1 d1] u1] eqn:Hstep.
  apply prune_host_leads in Hstep as (Hstep & Hp1 & Hsub1); [|done|by apply (Hl (h, st)); left].
  intros Hrest. eapply leads_trans; [exact Hstep|]. eapply IH; [congruence|done| |exact Hrest].
  intros x Hx. unfold entry. rewrite Hsub1; [apply Hl; by right|].
  intros Hh. apply Hn. cbn. rewrite <- Hh. apply list_elem_of_fmap. eauto.
Qed.

Lemma delete_leads demand since order w w' :
  deleteExcessSubscriptions demand since order w = Some w' → leads [] w [] w'.
Proof.
  unfold deleteExcessSubscriptions. case_decide as Hperm; [|done].
  destruct (foldl _ _ order) as [[w1 d1] u1] eqn:Hf. intros [= <-].
  eapply (leads_trans _ _ _ (purge_action (purger (ld w)) d1 1 ++ u1)); [|apply leads_run].
  assert ([] = purge_action (purger (ld w)) [] 1 ++ []) as Hnil by (unfold purge_action; by destruct (purger (ld w))).
  rewrite Hnil at 1. eapply prune_hosts_leads; [done| | |exact Hf].
  - rewrite Hperm. apply NoDup_entries.
  - intros x. rewrite Hperm. apply elem_of_entries.
Qed.
End Operations.

(** ** Every step *)

Lemma exec_quiet homes l w w' FQDN :
  match l with LResolve _ _ _ | LAct _ _ | LStore _ _ | LEvent _ => False | _ => True end →
  exec FQDN homes l w = Some w' → leads homes [] w [] w'.
Proof.
  intros Hl. destruct l; try done; cbn.
  - intros [= <-]. eapply leads_trans; [|apply leads_next]. apply leads_ld; try done; eauto.
  - intros [= <-]. apply leads_quiet; try done; [by intros []|intros Hs; apply (sh_tasks _ _ Hs)|by intros _ [| |]; [..|right]].
  - intros [= <-]. apply leads_ld; try done; eauto.
  - intros [= <-]. apply leads_ld; try done; eauto.
  - intros [= <-]. apply leads_ld; try done. cbn. intros p t [Ht _]%map_lookup_filter_Some. left. eauto.
  - intros [= <-]. apply leads_ld; destruct discovery as [[]|]; try done; cbn; eauto.
  - intros [= <-]. apply ensure_begin_leads.
  - apply ensure_apply_leads.
  - intros [= <-]. apply repair_leads.
  - apply delete_leads.
  - case_decide; [|done]. intros [= <-]. apply close_all_leads.
  - apply dialed_leads.
  - apply exit_leads.
  - apply cleanup_leads.
  - intros [= <-]. apply leads_close.
  - intros [= <-]. apply leads_quiet; try done; [by intros []|intros Hs; apply (sh_tasks _ _ Hs)|by intros _ [| |]; [..|right]].
Qed.

Lemma shape_cache e w k : shape e w → shape e (with_cache w k).
Proof. intros []. by split. Qed.

Lemma exec_sound FQDN homes l w w' : exec FQDN homes l w = Some w' →
  leads_if homes (orderly FQDN homes w l) w w'.
Proof.
  intros Heq. destruct l; try (apply leads_always; eapply exec_quiet; [|exact Heq]; exact I).
  - intros Hs. split; [by apply (ensure_resolve_leads (λ _, true) FQDN id answer now w w'); [destruct answer|..]|].
    intros [Ho _]. by apply (ensure_resolve_leads homes FQDN id answer now w w').
  - intros Hs. destruct (act_leads homes id ok w w' Heq Hs) as [Hs' Hf]. split; [done|]. intros (_ & Ho & _). auto.
  - intros Hs. split.
    + cbn in Heq. unfold store in Heq. destruct (reads (cache w) !! i) as [[]|]; [|done]. injection Heq as <-. by apply shape_cache.
    + intros (_ & _ & Ho). by eapply flow_store.
  - cbn in Heq. injection Heq as <-. intros Hs. split; [by apply shape_cache|]. intros _. apply flow_event.
Qed.

Lemma reachable_shape FQDN homes may w : reachable FQDN homes may w → shape [] w.
Proof.
  induction 1 as [|w l w' Hr IH _ Hex]; [apply shape_wired|]. by destruct (exec_sound _ _ _ _ _ Hex IH).
Qed.

Lemma reachable_flow FQDN homes w : reachable FQDN homes (orderly FQDN homes) w → flow homes [] w.
Proof.
  induction 1 as [|w l w' Hr IH Ho Hex]; [apply flow_wired|].
  destruct (exec_sound _ _ _ _ _ Hex (reachable_shape _ _ _ _ Hr)) as [_ Hf]. auto.
Qed.

Lemma run_reachable FQDN homes ls w w' : reachable FQDN homes (λ _ _, True) w → run FQDN homes ls w = Some w' →
  reachable FQDN homes (λ _ _, True) w'.
Proof.
  revert w. induction ls as [|l ls IH]; cbn; [by intros w Hr [= <-]|].
  intros w Hr. destruct (exec FQDN homes l w) as [w1|] eqn:He; [|done]. apply IH. by eapply reach_step.
Qed.

(** ** What the leader guarantees *)

(** A peer that is still connected serves the prefix. *)
Definition served (w : World) (p : string) : Prop :=
  ∃ c l, serving (net w) !! c = Some l ∧ c ∉ closed (net w) ∧ p ∈ l.

(** A goroutine will purge the prefix: it is about to, or will after its listen
    request, or the prefix's connection is closed and a loop of it has yet to
    drop the entry. *)
Definition purge_due (w : World) (p : string) : Prop :=
  (∃ id todo a, tasks w !! id = Some (TRun todo) ∧ a ∈ todo ∧
    match a with Purge ps _ => p ∈ ps | Write _ _ u => p ∈ lu_added u | Close _ => False end) ∨
  (∃ h st c l, linked w h st c l ∧ p ∈ l ∧ c ∈ closed (net w) ∧ loops w h st c).

Lemma purging_due w p : purging [] w p → purge_due w p.
Proof. intros (ps & d & [[]%elem_of_nil|(id & todo & Ht & Hin)] & Hp). left. by exists id, todo, (Purge ps d). Qed.

Lemma due_due w c p : due [] w c p → purge_due w p.
Proof.
  intros (q & pg & u & [[]%elem_of_nil|(id & todo & Ht & Hin)] & _ & Hp & _). left. by exists id, todo, (Write q pg u).
Qed.

Lemma closed_due w h st c l p : shape [] w → linked w h st c l → p ∈ l → c ∈ closed (net w) → purge_due w p.
Proof. intros Hs Hl Hp Hc. right. exists h, st, c, l. split_and!; [done..|]. by eapply sh_loop. Qed.

(** Nothing is under way but the loops of open connections. *)
Definition settled (w : World) : Prop := map_Forall (λ _ t,
  match t with TListener _ _ c | TRelayer _ _ c => c ∉ closed (net w) | _ => False end) (tasks w).

#[export] Instance settled_dec w : Decision (settled w).
Proof. unfold settled. apply map_Forall_dec. intros i []; apply _. Defined.

Lemma settled_no_purge w p : settled w → ¬ purge_due w p.
Proof.
  intros Hl [(id & todo & a & Ht & _)|(h & st & c & l & _ & _ & Hin & id & Ht)].
  - by specialize (Hl id _ Ht).
  - destruct Ht as [Ht|[Ht|Ht]]; by specialize (Hl id _ Ht).
Qed.

(** C13: as long as listen requests reach each peer in the order they were
    prepared, no chunk is stored that was fetched before an event of its prefix,
    and only prefixes at home resolve to this server: a cached chunk that misses
    an event has its purge due, and a prefix the leader reports is at home here,
    or served by a connected peer, or has a purge due; so whenever nothing is
    under way but the loops of open connections, no cached chunk misses an event,
    and every reported prefix is at home or served by a connected peer. *)
Theorem no_stale_chunk FQDN homes w : reachable FQDN homes (orderly FQDN homes) w →
  (∀ p, p ∈ stale (cache w) → purge_due w p) ∧
  (∀ sessions p, p ∈ CurrentSubscriptions sessions (ld w) → homes p = true ∨ served w p ∨ purge_due w p) ∧
  (settled w → (∀ p, p ∉ stale (cache w)) ∧
     ∀ sessions p, p ∈ CurrentSubscriptions sessions (ld w) → homes p = true ∨ served w p).
Proof.
  intros Hr. pose proof (reachable_shape _ _ _ _ Hr) as Hs. pose proof (reachable_flow _ _ _ Hr) as Hf.
  assert (∀ p, p ∈ stale (cache w) → purge_due w p) as Hstale.
  { intros p Hp. destruct (fl_stale _ _ _ Hf p Hp) as [?|(h & st & c & l & Hl & Hin & [Hc|Hd])].
    + by apply purging_due.
    + by eapply closed_due.
    + by eapply due_due. }
  assert (∀ sessions p, p ∈ CurrentSubscriptions sessions (ld w) → homes p = true ∨ served w p ∨ purge_due w p) as Hsub.
  { intros sessions p Hp. apply CurrentSubscriptions_served in Hp as [_ [[t Ht]|Ho]]; [left; by eapply fl_local|right].
    apply (open_listed [] w p Hs) in Ho as (h & st & c & l & Hl & Hin).
    destruct (decide (c ∈ closed (net w))) as [Hc|Hc]; [right; by eapply closed_due|].
    destruct (fl_cover _ _ _ Hf h st c l p Hl Hc Hin) as [[(l' & Hl' & Hp') _]|Hd]; [left|right; by eapply due_due].
    by exists c, l'. }
  split_and!; [done..|]. intros Hq. split.
  - intros p Hp. by apply (settled_no_purge w p), Hstale.
  - intros sessions p Hp. destruct (Hsub sessions p Hp) as [|[|Hd]]; [by left|by right|].
    by destruct (settled_no_purge w p Hq).
Qed.

(** The peer of a connection serves the prefix, and no listen request that
    still waits to be written to it takes it away. *)
Definition subscribed (w : World) (c : nat) (p : string) : Prop :=
  (∃ l, serving (net w) !! c = Some l ∧ p ∈ l) ∧
  ∀ id todo q pg u, tasks w !! id = Some (TRun todo) → Write q pg u ∈ todo → lu_conn u = c → p ∈ lu_prefixes u.

(** A listen request that adds the prefix waits to be written to the
    connection, and none that waits and was prepared later takes it away. *)
Definition asked (w : World) (c : nat) (p : string) : Prop :=
  ∃ id todo q pg u, tasks w !! id = Some (TRun todo) ∧ Write q pg u ∈ todo ∧ lu_conn u = c ∧ p ∈ lu_added u ∧
  ∀ id' todo' q' pg' u', tasks w !! id' = Some (TRun todo') → Write q' pg' u' ∈ todo' → lu_conn u' = c → (q < q')%nat →
    p ∈ lu_prefixes u'.

Lemma doing_task w id todo a : tasks w !! id = Some (TRun todo) → a ∈ todo → doing [] w a.
Proof. intros Ht Ha. right. by exists id, todo. Qed.

Lemma cover_said w c p : fully [] w c p ∨ due [] w c p → subscribed w c p ∨ asked w c p.
Proof.
  intros [[Hl Hw]|(q & pg & u & [[]%elem_of_nil|(id & todo & Ht & Ha)] & Hc & Hp & Hlater)].
  - left. split; [done|]. intros. eapply Hw; [by eapply doing_task|done].
  - right. exists id, todo, q, pg, u. split_and!; [done..|]. intros. eapply Hlater; [by eapply doing_task|done..].
Qed.

(** C17: however ensures, prunes, dials, failures and changes of term interleave,
    an entry is dialled at most once at a time and never while it has a
    connection; a connection that was opened is closed, or is the connection of
    an entry, or some goroutine is about to close it; an entry with a connection
    has a loop that drops it when the connection ends; and no two entries share
    a connection.  And when listen requests reach each peer in the order they
    were prepared, then every prefix that the entry of an open connection lists
    is served by its peer, or a listen request that adds it waits to be written
    there; none that waits takes it away. *)
Theorem no_lost_connection FQDN homes w : reachable FQDN homes (λ _ _, True) w →
  (∀ id id' t t' h h' st, tasks w !! id = Some (TDial t h st) → tasks w !! id' = Some (TDial t' h' st) → id = id') ∧
  (∀ id t h st, tasks w !! id = Some (TDial t h st) → Connection (deref (ld w) st) = None) ∧
  (∀ c, is_Some (serving (net w) !! c) →
    c ∈ closed (net w) ∨ (∃ h st l, linked w h st c l) ∨ (∃ id todo, tasks w !! id = Some (TRun todo) ∧ Close c ∈ todo)) ∧
  (∀ h st c l, linked w h st c l → loops w h st c) ∧
  (∀ h h' st st' c l l', linked w h st c l → linked w h' st' c l' → h = h') ∧
  (reachable FQDN homes (orderly FQDN homes) w → ∀ h st c l p, linked w h st c l → c ∉ closed (net w) → p ∈ l →
    subscribed w c p ∨ asked w c p).
Proof.
  intros Hr. pose proof (reachable_shape _ _ _ _ Hr) as Hs. split_and!.
  - apply (sh_one _ _ Hs).
  - intros id t h st Ht. destruct (sh_dial _ _ Hs _ _ _ _ Ht) as (v & Hv & Hd). rewrite (deref_state _ _ _ Hv).
    by destruct (sh_dialing _ _ Hs _ _ Hv Hd).
  - intros c Hc. destruct (sh_leak _ _ Hs c Hc) as [?|[?|[[]%elem_of_nil|?]]]; auto.
  - apply (sh_loop _ _ Hs).
  - intros h h' st st' c l l' (He & v & Hv & Hc & _) (He' & v' & Hv' & Hc' & _).
    assert (st = st') as <- by by eapply (sh_conn_one _ _ Hs). by eapply (sh_inj _ _ Hs).
  - intros Ho h st c l p Hl Hc Hp. by apply cover_said, (fl_cover _ _ _ (reachable_flow _ _ _ Ho) h st c l p).
Qed.

(** ** Pruning, exactly *)

Lemma prune_hosts_states keep pg l w dropped u w' dropped' u' : NoDup l.*1 →
  (∀ x, x ∈ l → entry w (fst x) (snd x)) → (∀ x y, x ∈ l → y ∈ l → snd x = snd y → fst x = fst y) →
  foldl (prune_host keep pg) (w, dropped, u) l = (w', dropped', u') →
  (∀ h, h ∉ l.*1 → Subscriptions (ld w') !! h = Subscriptions (ld w) !! h) ∧
  (∀ st, st ∉ l.*2 → deref (ld w') st = deref (ld w) st) ∧
  (∀ h st, (h, st) ∈ l → let kept := List.filter keep (Prefixes (deref (ld w) st)) in
    Prefixes (deref (ld w') st) = kept ∧
    Connection (deref (ld w') st) = Connection (deref (ld w) st) ∧
    Subscriptions (ld w') !! h = (if bool_decide (kept = []) then None else Some st)) ∧
  dropped' = dropped ++ (l ≫= λ x, List.filter (λ p, negb (keep p)) (Prefixes (deref (ld w) (snd x)))).
Proof.
  revert w dropped u. induction l as [|[h st] l IH]; intros w dropped u Hnd Hl Hinj; cbn -[prune_host].
  { intros [= <- <- <-]. rewrite app_nil_r. split_and!; [done..| |done]. by intros h st []%elem_of_nil. }
  apply NoDup_cons in Hnd as [Hn Hnd]. cbn in Hn. destruct (prune_host keep pg (w, dropped, u) (h, st)) as [[w1 d1] u1] eqn:Hstep.
  assert ((∀ h', h' ≠ h → Subscriptions (ld w1) !! h' = Subscriptions (ld w) !! h') ∧
    (∀ st', st' ≠ st → deref (ld w1) st' = deref (ld w) st') ∧
    Prefixes (deref (ld w1) st) = List.filter keep (Prefixes (deref (ld w) st)) ∧
    Connection (deref (ld w1) st) = Connection (deref (ld w) st) ∧
    Subscriptions (ld w1) !! h = (if bool_decide (List.filter keep (Prefixes (deref (ld w) st)) = []) then None else Some st) ∧
    d1 = dropped ++ List.filter (λ p, negb (keep p)) (Prefixes (deref (ld w) st))) as (Hsub & Hder & Hpre & Hcon & Hh & Hd).
  { pose proof (Hl (h, st) ltac:(by left)) as He. unfold entry in He. cbn in He. unfold prune_host in Hstep.
    set (v := deref (ld w) st) in *.
    assert (∀ s st', deref (set_state st s (ld w)) st' = if decide (st' = st) then s else deref (ld w) st') as Hset.
    { intros s st'. unfold deref at 1, set_state. cbn. destruct (decide (st' = st)) as [->|Hne].
      - by rewrite lookup_insert_eq.
      - by rewrite lookup_insert_ne. }
    case_bool_decide as Hnil.
    - injection Hstep as <- <- <-. unfold drop_host. cbn [fst snd ld with_ld]. rewrite Hset, decide_True by done.
      assert (∀ s st', deref (set_subs s (delete h (Subscriptions s))) st' = deref s st') as Hdd by done.
      cbn [Connection]. destruct (Connection v) eqn:Hc; cbn [ld with_ld close with_net]; setoid_rewrite Hdd; setoid_rewrite Hset;
        rewrite !decide_True by done; (split_and!; [intros; cbn; by rewrite lookup_delete_ne|intros; by rewrite decide_False|done|by rewrite ?Hc|cbn; by rewrite lookup_delete_eq|done]).
    - destruct (Dialing v) eqn:Hdi, (Connection v) eqn:Hc; try (case_bool_decide); injection Hstep as <- <- <-;
        cbn [ld with_ld next]; setoid_rewrite Hset; rewrite !decide_True by done;
        (split_and!; [done|intros; by rewrite decide_False|done|by rewrite ?Hc|done|done]). }
  intros Hrest. destruct (IH w1 d1 u1 Hnd) as (IHsub & IHder & IHkept & IHdrop).
  - intros x Hx. unfold entry. rewrite Hsub; [apply Hl; by right|]. intros Hh'. apply Hn. rewrite <- Hh'.
    apply list_elem_of_fmap. eauto.
  - intros x y Hx Hy. apply Hinj; by right.
  - exact Hrest.
  - assert (∀ x, x ∈ l → snd x ≠ st) as Hst.
    { intros x Hx Hxs. apply Hn. pose proof (Hinj (h, st) x (ltac:(by left)) (ltac:(by right)) (eq_sym Hxs)) as Hh'.
      cbn in Hh'. rewrite Hh'. apply list_elem_of_fmap. eauto. }
    split_and!.
    + intros h' [Hne Hh']%not_elem_of_cons. cbn in *. rewrite IHsub by done. by apply Hsub.
    + intros st' [Hne Hst']%not_elem_of_cons. rewrite IHder by done. by apply Hder.
    + intros h' st' [[= -> ->]|Hin]%elem_of_cons; cbn zeta.
      * rewrite IHder by (intros ([? ?] & ? & ?)%list_elem_of_fmap; subst; by eapply (Hst (_, _))).
        rewrite IHsub by done. done.
      * destruct (IHkept h' st' Hin) as (H1 & H2 & H3). rewrite H1, H2, H3.
        rewrite Hder by (by apply (Hst (h', st'))). done.
    + rewrite IHdrop, Hd, <- app_assoc. do 2 f_equal. clear -Hder Hst. induction l as [|x l IHl]; cbn; [done|].
      rewrite (Hder (snd x)) by (apply Hst; by left). f_equal. apply IHl. intros y Hy. apply Hst. by right.
Qed.

Lemma filter_nil_none {A} (P : A → bool) l : List.filter P l = [] ↔ ∀ x, x ∈ l → P x = false.
Proof.
  split; [|apply filter_none]. intros E x Hx. destruct (P x) eqn:Hp; [|done].
  assert (x ∈ List.filter P l) as Hin by by apply elem_of_filter_b. rewrite E in Hin. by apply elem_of_nil in Hin.
Qed.

(** a prune keeps of every entry the prefixes that are demanded or were
    ensured after the demand was taken, in their order, and nothing else; it
    drops the entries that are left with none, touches no connection of the
    others, and purges what it took away. *)
Theorem deleteExcess_exact FQDN homes w demand since order w' : reachable FQDN homes (λ _ _, True) w →
  deleteExcessSubscriptions demand since order w = Some w' →
  (∀ h st, entry w h st →
    let kept := List.filter (kept demand since (ld w)) (Prefixes (deref (ld w) st)) in
    Prefixes (deref (ld w') st) = kept ∧ Connection (deref (ld w') st) = Connection (deref (ld w) st) ∧
    Subscriptions (ld w') !! h = (if bool_decide (kept = []) then None else Some st)) ∧
  (∀ h, Subscriptions (ld w) !! h = None → Subscriptions (ld w') !! h = None) ∧
  (purger (ld w) = true → ∀ p, p ∈ tracked (ld w) → kept demand since (ld w) p = false → purging [] w' p).
Proof.
  intros Hr. pose proof (reachable_shape _ _ _ _ Hr) as Hs. unfold deleteExcessSubscriptions. case_decide as Hperm; [|done].
  destruct (foldl _ _ order) as [[w1 d1] u1] eqn:Hf. intros [= <-].
  apply prune_hosts_states in Hf as (Hsub & _ & Hkept & Hd).
  - split_and!.
    + intros h st He. apply (Hkept h st). rewrite Hperm. by apply elem_of_entries.
    + intros h Hh. cbn. rewrite Hsub; [done|]. rewrite Hperm. intros ([h' st] & -> & Hin)%list_elem_of_fmap.
      apply elem_of_entries in Hin. cbn in *. congruence.
    + intros Hpu p (e & He & Hp)%elem_of_tracked Hk. rewrite Hpu. exists d1, 1%nat.
      assert (p ∈ d1) as Hin.
      { rewrite Hd. cbn. apply list_elem_of_bind. exists e. split; [|by rewrite Hperm]. apply elem_of_filter_b. by rewrite Hk. }
      split; [|done]. right. exists (unused w1), (purge_action true d1 1 ++ u1). split; [cbn; by rewrite lookup_insert_eq|].
      apply elem_of_app. left. unfold purge_action. rewrite bool_decide_false by (intros E; rewrite E in Hin; by apply elem_of_nil in Hin).
      by left.
  - rewrite Hperm. apply NoDup_entries.
  - intros x. rewrite Hperm. apply elem_of_entries.
  - intros x y. rewrite Hperm, !elem_of_entries. intros Hx Hy Heq. rewrite Heq in Hx. by eapply (sh_inj _ _ Hs).
Qed.

(** ** Two executions *)

(** No other request to the same connection was prepared before. *)
Definition first_prepared (w : World) (id : nat) : bool :=
  match tasks w !! id with
  | Some (TRun (Write at_ _ u :: todo)) =>
      forallb (λ t, match snd t with
                    | TRun todo' => forallb (λ a, match a with
                        | Write at' _ u' => negb (lu_conn u' =? lu_conn u)%nat || (at_ <? at')%nat
                        | _ => true
                        end) todo'
                    | _ => true
                    end) (map_to_list (<[id := TRun todo]> (tasks w)))
  | _ => true
  end.

(** Steps that are orderly whatever the rest of the world does. *)
Definition simple (FQDN : string) (w : World) (l : Label) : bool :=
  match l with
  | LResolve _ (Ok host) _ => negb (String.eqb host FQDN)
  | LAct id ok => negb ok || first_prepared w id
  | LStore i _ => match reads (cache w) !! i with Some (_, true) => false | _ => true end
  | _ => true
  end.

Lemma orderly_simple FQDN homes w l : simple FQDN w l = true → orderly FQDN homes w l.
Proof.
  intros Hl. destruct l; split_and!; try done.
  - cbn in *. destruct answer as [host| |]; [|done..]. by destruct (String.eqb_spec host FQDN).
  - cbn in *. destruct ok; [|done]. intros at_ purges u todo Ht id' todo' at' purges' u' Ht' Hw Hc.
    unfold first_prepared in Hl. cbn in Hl. rewrite Ht, forallb_forall in Hl.
    specialize (Hl (id', TRun todo')). rewrite <- list_elem_of_In, elem_of_map_to_list in Hl. specialize (Hl Ht').
    cbn in Hl. rewrite forallb_forall in Hl. specialize (Hl (Write at' purges' u')). rewrite <- list_elem_of_In in Hl.
    specialize (Hl Hw). cbn in Hl. rewrite Hc, Nat.eqb_refl in Hl. by apply Nat.ltb_lt.
  - intros p [] Hi; [|done]. cbn in Hl. by rewrite Hi in Hl.
Qed.

Definition nowhere (p : string) : bool := false.

(** A subscription is opened; [t_listen] puts its listen request on the wire. *)
Definition t_open : list Label :=
  [LStart; LEnsure 1 ["p"]; LResolve 1 (Ok "peer") 1; LApply 1 [("peer", ["p"])] 1; LDialed 3 true].
Definition t_listen : list Label := [LAct 4 true; LAct 9 true; LAct 9 true; LAct 9 true].
Definition world (ls : list Label) : World := default wired (run "here" nowhere ls wired).

Lemma world_reachable ls : is_Some (run "here" nowhere ls wired) → reachable "here" nowhere (λ _ _, True) (world ls).
Proof. intros [w Hw]. unfold world. rewrite Hw. apply (run_reachable _ _ ls wired); [constructor|done]. Qed.

Fixpoint simple_run (ls : list Label) (w : World) : bool :=
  match ls with
  | [] => true
  | l :: ls => simple "here" w l && match exec "here" nowhere l w with Some w => simple_run ls w | None => false end
  end.

Lemma orderly_world ls : simple_run ls wired = true → reachable "here" nowhere (orderly "here" nowhere) (world ls).
Proof.
  assert (∀ ls w, reachable "here" nowhere (orderly "here" nowhere) w → simple_run ls w = true →
    ∃ w', run "here" nowhere ls w = Some w' ∧ reachable "here" nowhere (orderly "here" nowhere) w') as Hgen.
  { induction ls0 as [|l ls0 IH]; cbn; [eauto|]. intros w Hr [Ho Hrest]%andb_true_iff.
    destruct (exec "here" nowhere l w) as [w1|] eqn:He; [|done]. apply IH; [|done].
    eapply reach_step; [done|by apply orderly_simple|done]. }
  intros Ho. destruct (Hgen ls wired ltac:(constructor) Ho) as (w' & Hw & Hr). unfold world. by rewrite Hw.
Qed.

Definition is_loop (t : Task) : bool := match t with TListener _ _ _ | TRelayer _ _ _ => true | _ => false end.

(** Nothing is under way but the loops of open connections. *)
Definition quiet (w : World) : Prop :=
  map_Forall (λ _ t, is_loop t = true) (tasks w) ∧ closed (net w) = ∅.

Lemma quiet_no_purge w p : quiet w → ¬ purge_due w p.
Proof.
  intros [Hl Hc] [(id & todo & a & Ht & _)|(h & st & c & l & _ & _ & Hin & _)].
  - by specialize (Hl id _ Ht).
  - rewrite Hc in Hin. by apply elem_of_empty in Hin.
Qed.

Lemma not_served w p : map_Forall (λ _ l, p ∉ l) (serving (net w)) → ¬ served w p.
Proof. intros Hf (c & l & Hl & _ & Hp). by apply (Hf c l Hl). Qed.

(** Two ensures extend the list of an open connection; the second writes its
    request before the first. *)
Definition t_overtaken : list Label :=
  t_open ++ t_listen ++
  [LEnsure 2 ["q"]; LResolve 10 (Ok "peer") 2; LApply 10 [("peer", ["q"])] 2;
   LEnsure 3 ["r"]; LResolve 13 (Ok "peer") 3; LApply 13 [("peer", ["r"])] 3;
   LAct 15 true; LAct 15 true; LAct 15 true; LAct 12 true; LAct 12 true; LAct 12 true;
   LFetch "r"; LStore 0 ["r"]; LEvent "r"].

(** C38: listen requests are written after the lock is released, so a request
    can overtake a later one; the peer then serves the shorter list for good,
    while the leader reports the lost prefix and its cached chunk misses
    events, with no purge to come. *)
Theorem listen_overtaken : let w := world t_overtaken in
  reachable "here" nowhere (λ _ _, True) w ∧ quiet w ∧
  CurrentSubscriptions ["r"] (ld w) = ["r"] ∧ ¬ served w "r" ∧ "r" ∈ stale (cache w) ∧ ¬ purge_due w "r".
Proof.
  assert (quiet (world t_overtaken)) as Hq by (split; [|vm_compute; reflexivity]; apply (bool_decide_eq_true_1 _); vm_compute; reflexivity).
  split_and!; [|done|vm_compute; reflexivity| | |by apply quiet_no_purge].
  - apply world_reachable. vm_compute. eauto.
  - apply not_served. apply (bool_decide_eq_true_1 _). vm_compute. reflexivity.
  - apply (bool_decide_eq_true_1 _). vm_compute. reflexivity.
Qed.

(** An event arrives between the fetch of a chunk and its storing. *)
Definition t_during : list Label := t_open ++ t_listen ++ [LFetch "p"; LEvent "p"; LStore 0 ["p"]].

(** an event that arrives while a chunk is being fetched finds no cached
    chunk to enter, and the chunk stored afterwards misses it, although its
    prefix is served throughout. *)
Theorem event_during_fetch : let w := world t_during in
  reachable "here" nowhere (λ _ _, True) w ∧ quiet w ∧ served w "p" ∧ "p" ∈ stale (cache w) ∧ ¬ purge_due w "p".
Proof.
  assert (quiet (world t_during)) as Hq by (split; [|vm_compute; reflexivity]; apply (bool_decide_eq_true_1 _); vm_compute; reflexivity).
  split_and!; [|done| | |by apply quiet_no_purge].
  - apply world_reachable. vm_compute. eauto.
  - exists 5%nat, ["p"]. split_and!; [vm_compute; reflexivity|rewrite (proj2 Hq); set_solver|set_solver].
  - apply (bool_decide_eq_true_1 _). vm_compute. reflexivity.
Qed.

(** The connection is open, its listen request is not written yet: the chunk
    stored meanwhile misses an event, and its purge is due. *)
Definition t_early : list Label := t_open ++ [LFetch "p"; LStore 0 ["p"]; LEvent "p"].

(** Its request written and the purge done, a chunk stored then hears the event. *)
Definition t_calm : list Label := t_open ++ t_listen ++ [LFetch "p"; LStore 0 ["p"]; LEvent "p"].

Lemma no_stale_chunk_witness :
  ("p" ∈ stale (cache (world t_early)) ∧ purge_due (world t_early) "p") ∧
  let w := world t_calm in
  "p" ∈ cached (cache w) ∧ "p" ∉ stale (cache w) ∧ "p" ∈ CurrentSubscriptions ["p"] (ld w) ∧ (nowhere "p" = true ∨ served w "p").
Proof.
  split.
  - assert ("p" ∈ stale (cache (world t_early))) as Hp by (apply (bool_decide_eq_true_1 _); vm_compute; reflexivity).
    split; [done|]. apply (no_stale_chunk "here" nowhere (world t_early)); [|done].
    apply orderly_world. vm_compute. reflexivity.
  - intros w. assert (settled w) as Hq by (apply (bool_decide_eq_true_1 _); vm_compute; reflexivity).
    destruct (proj2 (proj2 (no_stale_chunk "here" nowhere w (orderly_world t_calm ltac:(vm_compute; reflexivity)))) Hq) as [Hs Hc].
    assert ("p" ∈ CurrentSubscriptions ["p"] (ld w)) as Hp by (apply (bool_decide_eq_true_1 _); vm_compute; reflexivity).
    split_and!; [apply (bool_decide_eq_true_1 _); vm_compute; reflexivity|apply Hs|done|by apply (Hc ["p"])].
Defined.

(** The dialled connection's first listen request waits to be written. *)
Lemma no_lost_connection_witness : let w := world t_open in
  linked w "peer" 2 5 ["p"] ∧ loops w "peer" 2 5 ∧ (subscribed w 5 "p" ∨ asked w 5 "p").
Proof.
  intros w. assert (linked w "peer" 2 5 ["p"]) as Hl.
  { split; [vm_compute; reflexivity|]. exists (mkSubState ["p"] (Some 5%nat) false). by vm_compute. }
  destruct (no_lost_connection "here" nowhere w) as (_ & _ & _ & Hloop & _ & Hcover);
    [apply world_reachable; vm_compute; eauto|].
  split_and!; [done|by apply (Hloop _ _ _ ["p"])|].
  apply (Hcover ltac:(apply orderly_world; vm_compute; reflexivity) "peer" 2%nat 5%nat ["p"]); [done| |by left].
  apply (bool_decide_eq_true_1 _). vm_compute. reflexivity.
Defined.

(** [q] was ensured after the demand was taken, [p] is demanded no more. *)
Definition t_two : list Label :=
  t_open ++ t_listen ++ [LEnsure 2 ["q"]; LResolve 10 (Ok "peer") 2; LApply 10 [("peer", ["q"])] 2].
Definition pruned : World := default wired (deleteExcessSubscriptions [] 1 [("peer", 2%nat)] (world t_two)).

Lemma deleteExcess_exact_witness :
  Prefixes (deref (ld pruned) 2) = ["q"] ∧ Subscriptions (ld pruned) !! "peer" = Some 2%nat ∧ purging [] pruned "p".
Proof.
  assert (deleteExcessSubscriptions [] 1 [("peer", 2%nat)] (world t_two) = Some pruned) as Hd by (vm_compute; reflexivity).
  assert (reachable "here" nowhere (λ _ _, True) (world t_two)) as Hr by (apply world_reachable; vm_compute; eauto).
  destruct (deleteExcess_exact "here" nowhere (world t_two) [] 1 _ pruned Hr Hd) as (Hk & _ & Hp).
  destruct (Hk "peer" 2%nat ltac:(vm_compute; reflexivity)) as (Hpre & _ & Hsub).
  rewrite Hpre, Hsub. split_and!; [vm_compute; reflexivity..|].
  apply Hp; [vm_compute; reflexivity|apply (bool_decide_eq_true_1 _); vm_compute; reflexivity|vm_compute; reflexivity].
Defined.
