(* ===== verification/Cluster.v ===== *)
(** * Cluster: which replica leads, and how the others follow

    [src/internal/infra/cluster/elector.go] polls an elector service; the
    sidecar [src/cmd/k8s-elector/main.go] implements it on a lease.  A replica
    that does not lead answers from the leader over HTTP:
    [src/internal/worker/WorkerSubscriber.go], [SubscriberManager.go] and
    [src/internal/present/rest/subscriber_coordination.go].  Times are
    nanoseconds. *)

From S2P Require Import Prelude Effects Documents JobQueue Subscriber.
From stdpp Require Import prelude strings gmap list sorting.
From Stdlib Require Import ZArith Lia Ascii.
Open Scope Z_scope.

(** ** The elector service's answer *)

Record ElectorStatus : Type := mkStatus {
  es_IsLeader : bool;
  es_LeaderURL : string;
  es_Peers : list string;
}.

(** [json] of the answer, of a list of prefixes, and of an ensure request. *)
Class ClusterJson := {
  decode_status : string → result ElectorStatus;
  decode_prefixes : string → result (list string);
  encode_prefixes : list string → string;
  decode_ensure : string → result (list string);
  encode_ensure : list string → string;
}.

(** An HTTP answer: the status code and the body. *)
Definition Answer : Type := result (Z * string).

Record httpElectorState : Type := mkElectorState { status : ElectorStatus; fetchedAt : Z }.

Definition electorPollInterval : Z := 2 * sec.
Definition electorFailureGrace : Z := 10 * sec.
Definition electorTimeout : Z := 2 * sec.

Record HTTPElector : Type := mkElector {
  endpoint : string;
  failureGrace : Z;
  state : option httpElectorState;
}.

(** [strings.TrimRight(_, "/")]. *)
Fixpoint trim_right_slash (s : string) : string :=
  match s with
  | EmptyString => EmptyString
  | String c s =>
      let s := trim_right_slash s in
      if Ascii.eqb c "/" && String.eqb s "" then "" else String c s
  end.

Definition NewHTTPElector (url : string) : HTTPElector := mkElector (trim_right_slash url) electorFailureGrace None.

Section Elector.
Context `{ClusterJson}.

(** [now] is when the answer has been read. *)
Definition fetch (now : Z) (answer : Answer) (e : HTTPElector) : result unit * HTTPElector :=
  match answer with
  | Err err => (Err err, e)
  | Panic => (Panic, e)
  | Ok (code, body) =>
      if code =? 200 then
        match decode_status body with
        | Ok s => (Ok tt, mkElector (endpoint e) (failureGrace e) (Some (mkElectorState s now)))
        | Err err => (Err err, e)
        | Panic => (Panic, e)
        end
      else (Err (GoError "unexpected status"), e)
  end.
End Elector.

Definition current (now : Z) (e : HTTPElector) : option ElectorStatus :=
  match state e with
  | None => None
  | Some s => if failureGrace e <? now - fetchedAt s then None else Some (status s)
  end.

Definition IsLeader (now : Z) (e : HTTPElector) : bool :=
  match current now e with Some s => es_IsLeader s | None => false end.

Definition LeaderURL (now : Z) (e : HTTPElector) : option string :=
  match current now e with
  | Some s => if String.eqb (es_LeaderURL s) "" then None else Some (es_LeaderURL s)
  | None => None
  end.

Definition Peers (now : Z) (e : HTTPElector) : result (list string) :=
  match current now e with Some s => Ok (es_Peers s) | None => Err (GoError "elector status unavailable") end.

(** ** The poll loop

    The term handed to the singleton workers, if any; what the loop did is a
    list of starts and stops. *)
Definition leadState : Type := option nat.

Inductive LeadEvent := LeadStart (term : nat) | LeadStop (term : nat).

Definition lead_stop (l : leadState) : leadState * list LeadEvent :=
  match l with Some term => (None, [LeadStop term]) | None => (None, []) end.

Record Loop : Type := mkLoop { elector : HTTPElector; lead : leadState; terms : nat; events : list LeadEvent }.

(** One iteration: a poll answered at [t1], then the decision at [t2]. *)
Definition poll_step `{ClusterJson} (t1 t2 : Z) (answer : Answer) (s : Loop) : Loop :=
  let e := snd (fetch t1 answer (elector s)) in
  match IsLeader t2 e, lead s with
  | true, None => mkLoop e (Some (terms s)) (S (terms s)) (events s ++ [LeadStart (terms s)])
  | false, Some _ => let '(l, ev) := lead_stop (lead s) in mkLoop e l (terms s) (events s ++ ev)
  | _, _ => mkLoop e (lead s) (terms s) (events s)
  end.

(** The loop ends with its context. *)
Definition poll_end (s : Loop) : Loop :=
  let '(l, ev) := lead_stop (lead s) in mkLoop (elector s) l (terms s) (events s ++ ev).

Fixpoint poll_run `{ClusterJson} (polls : list (Z * Z * Answer)) (s : Loop) : Loop :=
  match polls with [] => s | (t1, t2, a) :: polls => poll_run polls (poll_step t1 t2 a s) end.

(** ** The sidecar *)

Definition leaseDuration : Z := 15 * sec.
Definition renewDeadline : Z := 10 * sec.
Definition retryPeriod : Z := 2 * sec.
Definition peerResolveGrace : Z := 30 * sec.

Record Sidecar : Type := mkSidecar { lastPeers : option (list string); lastPeersAt : Z }.

(** [net.JoinHostPort]. *)
Definition JoinHostPort (host port : string) : string :=
  if Str.contains_char host ":" then "[" +:+ host +:+ "]:" +:+ port else host +:+ ":" +:+ port.

(** [GET /status]: [le] is what the election library says, if it runs; [addrs]
    the addresses of the headless service.  [None] is a 503. *)
Definition handleStatus (now : Z) (peerPort : string) (le : option (bool * string)) (addrs : result (list string)) (s : Sidecar)
    : option ElectorStatus * Sidecar :=
  let '(leads, url) := default (false, "") le in
  match addrs with
  | Ok addrs =>
      let peers := (λ a, "http://" +:+ JoinHostPort a peerPort) <$> addrs in
      (Some (mkStatus leads url peers), mkSidecar (Some peers) now)
  | _ =>
      match lastPeers s with
      | Some peers => if peerResolveGrace <? now - lastPeersAt s then (None, s) else (Some (mkStatus leads url peers), s)
      | None => (None, s)
      end
  end.

(** ** A replica that follows *)

Definition workerHTTPTimeout : Z := 2 * sec.
Definition workerDemandCacheTTL : Z := 3 * sec.

Record WorkerSubscriber : Type := mkWorker { cached : list string; cachedAt : Z; fetching : bool }.

(** [cachedAt] is the zero time at first, older than any clock by more than the
    TTL. *)
Definition NewWorkerSubscriber : WorkerSubscriber := mkWorker [] (- 2 ^ 63) false.

(** A call either answers from the cache or starts a refresh, *)
Definition worker_call (now : Z) (w : WorkerSubscriber) : option (list string) * WorkerSubscriber :=
  if (now - cachedAt w <? workerDemandCacheTTL) || fetching w then (Some (cached w), w)
  else (None, mkWorker (cached w) (cachedAt w) true).

(** which ends with the leader's answer, or with nothing. *)
Definition leader_answer `{ClusterJson} (leader : option string) (answer : Answer) : list string :=
  match leader with
  | None => []
  | Some _ =>
      match answer with
      | Ok (code, body) => if code =? 200 then match decode_prefixes body with Ok l => l | _ => [] end else []
      | _ => []
      end
  end.

Definition worker_refreshed (now : Z) (prefixes : list string) (w : WorkerSubscriber) : WorkerSubscriber :=
  mkWorker prefixes now false.

(** The request that forwards demand, if a leader is known. *)
Definition worker_ensure `{ClusterJson} (leader : option string) (prefixes : list string) : option (string * string) :=
  url ← leader; Some (url +:+ "/internal/subscriptions/ensure", encode_ensure prefixes).

(** [SubscriberManager]: who answers. *)
Inductive Delegate := ToLeader | ToWorker.
Definition delegate (now : Z) (e : HTTPElector) : Delegate := if IsLeader now e then ToLeader else ToWorker.

(** ** The replica-to-replica endpoints *)

(** [None] for the body of a refusal. *)
Definition handleDemand `{ClusterJson} (local : list string) : Z * option string := (200, Some (encode_prefixes local)).

Definition handleSubscriptions `{ClusterJson} (leads : bool) (aggregate : list string) : Z * option string :=
  if leads then (200, Some (encode_prefixes aggregate)) else (409, None).

(** The status, and the prefixes to ensure. *)
Definition handleEnsure `{ClusterJson} (leads : bool) (body : string) : Z * option (list string) :=
  if leads then match decode_ensure body with Ok prefixes => (200, Some prefixes) | _ => (400, None) end
  else (409, None).
