(* ===== verification/ClusterFacts.v ===== *)
(** * ClusterFacts: one leader, and how old a follower's answer can be

    The election's history is a list of tenures.  A tenure ends when it is not
    renewed; its holder may report leadership for [renewDeadline] more, and the
    next holder waits for [leaseDuration].  What a replica concludes from an
    answer lasts for as long as it trusts the answer. *)

From S2P Require Import Prelude Effects Documents JobQueue Subscriber Cluster.
From stdpp Require Import prelude strings gmap list sorting.
From Stdlib Require Import ZArith Lia Ascii.
Open Scope Z_scope.

(** ** Exclusive leadership *)

(** A replica, when it acquired the lease, when it last renewed it. *)
Record Tenure : Type := mkTenure { holder : string; acquired : Z; renewed : Z }.

Definition after (lease : Z) (t t' : Tenure) : Prop := renewed t + lease <= acquired t'.

(** No tenure begins before the lease of an earlier one has run out.  A lease
    that is released belongs to a process that is stopping, and is left out. *)
Definition history (lease : Z) (h : list Tenure) : Prop :=
  Forall (λ t, acquired t <= renewed t) h ∧ StronglySorted (after lease) h.

(** The sidecar of [r] reports leadership at [s]. *)
Definition reports (renew : Z) (h : list Tenure) (r : string) (s : Z) : Prop :=
  ∃ t, t ∈ h ∧ holder t = r ∧ acquired t <= s <= renewed t + renew.

(** What a replica's polls were answered came from its sidecar, which handled
    each within the client's timeout before the answer was read: it said it
    leads only when the election library did, in a state of [history]. *)
Definition answered_by `{ClusterJson} (renew : Z) (h : list Tenure) (r : string) (polls : list (Z * Z * Answer)) : Prop :=
  ∀ t1 t2 code body s, (t1, t2, Ok (code, body)) ∈ polls → decode_status body = Ok s →
  ∃ at_ port le addrs sc, t1 - electorTimeout <= at_ <= t1 ∧ fst (handleStatus at_ port le addrs sc) = Some s ∧
    ∀ url, le = Some (true, url) → reports renew h r at_.

(** The loop before its first poll. *)
Definition new_loop (e : HTTPElector) : Loop := mkLoop e None 0 [].






Section Handover.

(** The only answer says that the replica leads. *)
#[local] Instance yes : ClusterJson := {|
  decode_status _ := Ok (mkStatus true "" []);
  decode_prefixes _ := Ok [];
  encode_prefixes _ := "";
  decode_ensure _ := Ok [];
  encode_ensure _ := "";
|}.

(** The first holder cannot renew; its last poll is answered at ten seconds. *)
Definition handover : list Tenure := [mkTenure "a" 0 0; mkTenure "b" (15 * sec) (15 * sec)].
Definition poll_at (t : Z) : list (Z * Z * Answer) := [(t, t, Ok (200, "{}"))].

Lemma answered_at renew r t : reports renew handover r t → answered_by renew handover r (poll_at t).
Proof.
  intros Hr t1 t2 code body s Hin. unfold poll_at in Hin. apply list_elem_of_singleton in Hin as [= -> -> -> ->]. intros [= <-].
  exists t, "8080", (Some (true, "")), (Ok []), (mkSidecar None 0).
  split; [unfold electorTimeout, sec; lia|]. split; [reflexivity|done].
Qed.

Lemma handover_history : history leaseDuration handover.
Proof.
  split; [repeat constructor; cbn; unfold sec; lia|]. repeat constructor. unfold after, leaseDuration, sec. cbn. lia.
Qed.

Lemma first_reports : reports renewDeadline handover "a" (10 * sec).
Proof. exists (mkTenure "a" 0 0). split_and!; [by left|done|..]; unfold renewDeadline, sec; cbn; lia. Qed.

Lemma second_reports : reports renewDeadline handover "b" (16 * sec).
Proof. exists (mkTenure "b" (15 * sec) (15 * sec)). split_and!; [by right; left|done|..]; unfold renewDeadline, sec; cbn; lia. Qed.

Notation leads_at now t := (IsLeader now (elector (poll_run (poll_at t) (new_loop (NewHTTPElector ""))))).

(** Two leaders do occur: a sidecar that cannot renew says it leads until it
    gives up ten seconds later, its replica trusts that for ten more, and
    another replica has led for five.  A failure grace below the lease alone
    does not exclude it. *)
Theorem leaders_overlap :
  history leaseDuration handover ∧
  answered_by renewDeadline handover "a" (poll_at (10 * sec)) ∧ answered_by renewDeadline handover "b" (poll_at (16 * sec)) ∧
  leads_at (20 * sec) (10 * sec) = true ∧ leads_at (20 * sec) (16 * sec) = true ∧ electorFailureGrace < leaseDuration.
Proof.
  split_and!; [apply handover_history|apply answered_at, first_reports|apply answered_at, second_reports|reflexivity..].
Qed.

End Handover.

(** ** Terms *)

Definition past_terms (n : nat) : list LeadEvent := seq 0 n ≫= λ k, [LeadStart k; LeadStop k].

Lemma past_terms_S n : past_terms (S n) = past_terms n ++ [LeadStart n; LeadStop n].
Proof. unfold past_terms. by rewrite seq_S, bind_app. Qed.

(** Every term but the running one was started and stopped, in turn. *)
Definition bracketed (s : Loop) : Prop :=
  match lead s with
  | None => events s = past_terms (terms s)
  | Some k => terms s = S k ∧ events s = past_terms k ++ [LeadStart k]
  end.

Lemma poll_bracketed `{ClusterJson} t1 t2 a s : bracketed s →
  bracketed (poll_step t1 t2 a s) ∧
  (is_Some (lead (poll_step t1 t2 a s)) ↔ IsLeader t2 (elector (poll_step t1 t2 a s)) = true).
Proof.
  unfold bracketed, poll_step. set (e := snd (fetch t1 a (elector s))).
  destruct (IsLeader t2 e) eqn:Hl, (lead s) as [k|] eqn:Hk; cbn [lead_stop lead events terms elector]; rewrite ?Hk, ?Hl; intros Hb.
  - by split.
  - rewrite Hb. by split.
  - destruct Hb as [Ht ->]. rewrite Ht, past_terms_S, <- app_assoc. split; [done|]. split; [by intros []|done].
  - split; [done|]. split; [by intros []|done].
Qed.

(** the singleton workers are started for one term at a time, each stopped
    before the next; a term runs exactly while the last poll found this replica
    leading, and none does when the loop has ended. *)
Theorem one_term_at_a_time `{ClusterJson} polls t1 t2 a e :
  let s := poll_run (polls ++ [(t1, t2, a)]) (new_loop e) in
  bracketed s ∧ (is_Some (lead s) ↔ IsLeader t2 (elector s) = true) ∧
  events (poll_end s) = past_terms (terms s).
Proof.
  assert (∀ polls s, bracketed s → bracketed (poll_run polls s) ∧
    poll_run (polls ++ [(t1, t2, a)]) s = poll_step t1 t2 a (poll_run polls s)) as Hrun.
  { induction polls0 as [|[[u1 u2] b] polls0 IH]; cbn -[poll_step]; [done|]. intros s Hs. by apply IH, poll_bracketed. }
  destruct (Hrun polls (new_loop e)) as [Hb0 Happ]; [done|].
  cbn zeta. rewrite Happ. destruct (poll_bracketed t1 t2 a (poll_run polls (new_loop e)) Hb0) as [Hb Hl].
  split; [done|]. split; [done|]. clear Hl. unfold bracketed in Hb. unfold poll_end.
  destruct (lead (poll_step _ _ _ _)) as [k|]; cbn [lead_stop lead events terms elector].
  - destruct Hb as [Ht ->]. by rewrite Ht, past_terms_S, <- app_assoc.
  - by rewrite Hb, app_nil_r.
Qed.

(** ** The age of a follower's answer *)

Inductive WorkerEvent := WCall (t : Z) | WDone (t : Z) (prefixes : list string).

(** The answers given from the cache, with the time of the call and of the
    refresh they come from. *)
Fixpoint worker_run (evs : list WorkerEvent) (w : WorkerSubscriber) : list (Z * Z * list string) :=
  match evs with
  | [] => []
  | WCall t :: evs =>
      let '(r, w') := worker_call t w in
      match r with Some l => [(t, cachedAt w, l)] | None => [] end ++ worker_run evs w'
  | WDone t l :: evs => worker_run evs (worker_refreshed t l w)
  end.

(** An answer given while no refresh is under way is younger than the TTL. *)
Lemma worker_answer_fresh t w l w' : fetching w = false → worker_call t w = (Some l, w') →
  l = Cluster.cached w ∧ t - cachedAt w < workerDemandCacheTTL.
Proof. unfold worker_call. intros ->. rewrite orb_false_r. destruct (Z.ltb_spec (t - cachedAt w) workerDemandCacheTTL); naive_solver. Qed.

(** But a call that comes during a refresh gets the last answer however old it
    is: the first call in a long while starts the refresh, the second gets what
    was true then. *)
Theorem worker_answer_old age : 0 <= age →
  ∃ t, worker_run [WCall 0; WDone 0 ["p"]; WCall t; WCall t] NewWorkerSubscriber = [(t, 0, ["p"])] ∧ age <= t - 0.
Proof.
  intros Ha. exists (age + workerDemandCacheTTL).
  assert (worker_call 0 NewWorkerSubscriber = (None, mkWorker [] (- 2 ^ 63) true)) as H0 by reflexivity.
  assert (worker_call (age + workerDemandCacheTTL) (mkWorker ["p"] 0 false) = (None, mkWorker ["p"] 0 true)) as H1.
  { unfold worker_call. cbn. by destruct (Z.ltb_spec (age + workerDemandCacheTTL - 0) workerDemandCacheTTL); [lia|]. }
  assert (worker_call (age + workerDemandCacheTTL) (mkWorker ["p"] 0 true) = (Some ["p"], mkWorker ["p"] 0 true)) as H2.
  { unfold worker_call. cbn. by rewrite orb_true_r. }
  split; [|unfold workerDemandCacheTTL, sec; lia].
  cbn [worker_run]. rewrite H0. unfold worker_refreshed. rewrite H1, H2. done.
Qed.
