(* ===== verification/Sessions.v ===== *)
(** * Sessions: realtime sessions of a replica

    [src/internal/usecase/subscription/subscription.go], and the websocket
    handler [handleRealtime] of [src/internal/present/rest/handler.go].  A
    session holds the list its client sent last; the replica's demand is the
    union of its sessions. *)

From S2P Require Import Prelude Effects Documents.
From stdpp Require Import prelude strings gmap list.
From Stdlib Require Import ZArith Lia.

(** ** The use case *)

Definition set_of (l : list string) : gset string := list_to_set l.

(** Both lists have the same members: each map is built, then the other list is
    looked up in it. *)
Definition samePrefixSet (a b : list string) : bool :=
  forallb (λ p, bool_decide (p ∈ set_of a)) b && forallb (λ p, bool_decide (p ∈ set_of b)) a.

(** [nextID] is a [uint64]. *)
Record Usecase : Type := mkUsecase { nextID : N; sessions : gmap N (list string) }.

Definition New : Usecase := mkUsecase 0 ∅.

Definition CurrentSubscriptions (uc : Usecase) : list string :=
  elements (set_of ((map_to_list (sessions uc)).*2 ≫= id)).

Definition SessionCount (uc : Usecase) : nat := size (sessions uc).

Definition openSession (uc : Usecase) : N * Usecase :=
  let id := ((nextID uc + 1) `mod` 2 ^ 64)%N in (id, mkUsecase id (<[id := []]> (sessions uc))).

Definition updateSession (id : N) (prefixes : list string) (uc : Usecase) : Usecase :=
  mkUsecase (nextID uc) (<[id := prefixes]> (sessions uc)).

Definition closeSession (id : N) (uc : Usecase) : Usecase := mkUsecase (nextID uc) (delete id (sessions uc)).

(** What a session's loop keeps: the list in effect, and the redis subscription
    it has open. *)
Record Session : Type := mkSession { current : option (list string); subscription : option (list string) }.

Definition new_session : Session := mkSession None None.

(** [pubsub.Subscribe]: nothing for an empty list, and the subscription may
    fail. *)
Definition Subscribe (ok : bool) (prefixes : list string) : option (list string) :=
  if bool_decide (prefixes = []) then None else if ok then Some prefixes else None.

(** One request in [Realtime]: a list that is the same set is skipped; another
    replaces the subscription and is passed on to be ensured. *)
Definition unchanged (s : Session) (new : list string) : bool :=
  match current s with Some cur => samePrefixSet cur new | None => false end.

Definition realtime_request (ok : bool) (id : N) (new : list string) (s : Session) (uc : Usecase)
    : option (list string) * Session * Usecase :=
  if unchanged s new then (None, s, uc)
  else (Some new, mkSession (Some new) (Subscribe ok new), updateSession id new uc).

(** ** The websocket *)

Record RealtimeRequest : Type := mkRequest { rt_Type : string; rt_Prefixes : list string }.

Definition realtimeMaxPrefixes : nat := 3000.

(** The list a message asks for; the same list is acknowledged. *)
Definition read_request (req : RealtimeRequest) : option (list string) :=
  if existsb (String.eqb (rt_Type req)) ["listen"; "subscribe"; "unlisten"]
  then Some (take realtimeMaxPrefixes (rt_Prefixes req)) else None.

(** What is written for an event. *)
Definition write_event (e : Event) : Event := PublicView e.

(** ** Sessions side by side

    Sessions open, send requests and close in any order. *)
Inductive SessionEvent :=
| SOpen
| SRequest (id : N) (req : RealtimeRequest) (ok : bool)
| SClose (id : N).

Record Replica : Type := mkReplica { usecase : Usecase; loops : gmap N Session; ensured : list (list string) }.

Definition new_replica : Replica := mkReplica New ∅ [].

Definition replica_step (r : Replica) (e : SessionEvent) : Replica :=
  match e with
  | SOpen =>
      let '(id, uc) := openSession (usecase r) in mkReplica uc (<[id := new_session]> (loops r)) (ensured r)
  | SRequest id req ok =>
      match loops r !! id, read_request req with
      | Some s, Some new =>
          let '(ens, s, uc) := realtime_request ok id new s (usecase r) in
          mkReplica uc (<[id := s]> (loops r)) (ensured r ++ match ens with Some l => [l] | None => [] end)
      | _, _ => r
      end
  | SClose id =>
      match loops r !! id with
      | Some _ => mkReplica (closeSession id (usecase r)) (delete id (loops r)) (ensured r)
      | None => r
      end
  end.

(** ** Theorems *)

Lemma elem_of_set p l : p ∈ set_of l ↔ p ∈ l.
Proof. apply elem_of_list_to_set. Qed.

Lemma samePrefixSet_spec a b : samePrefixSet a b = true ↔ set_of a = set_of b.
Proof.
  unfold samePrefixSet. rewrite andb_true_iff, !forallb_forall. setoid_rewrite <- list_elem_of_In.
  setoid_rewrite bool_decide_eq_true. unfold set_of. setoid_rewrite elem_of_list_to_set. split.
  - intros [Hb Ha]. apply set_eq. intros p. rewrite !elem_of_list_to_set. naive_solver.
  - intros E. split; intros p Hp; apply (elem_of_list_to_set (C := gset string)); [rewrite E|rewrite <- E];
      by apply elem_of_list_to_set.
Qed.

(** What each open session asked for last. *)
Definition wanted_step (acc : N * gmap N (list string)) (e : SessionEvent) : N * gmap N (list string) :=
  let '(opened, wanted) := acc in
  match e with
  | SOpen => ((opened + 1)%N, <[(opened + 1)%N := []]> wanted)
  | SRequest id req _ =>
      match wanted !! id, read_request req with
      | Some _, Some new => (opened, <[id := new]> wanted)
      | _, _ => (opened, wanted)
      end
  | SClose id => (opened, delete id wanted)
  end.

(** The session's list, its entry and its subscription are what it asked for. *)
Definition follows (want : list string) (s : Session) (entry : list string) : Prop :=
  set_of entry = set_of want ∧ match current s with Some cur => cur = entry | None => want = [] ∧ entry = [] end.

Definition agrees (r : Replica) (opened : N) (wanted : gmap N (list string)) : Prop :=
  nextID (usecase r) = opened ∧ (∀ id, is_Some (wanted !! id) → (id <= opened)%N) ∧
  ∀ id, match wanted !! id with
        | Some want => ∃ s entry, loops r !! id = Some s ∧ sessions (usecase r) !! id = Some entry ∧ follows want s entry
        | None => loops r !! id = None ∧ sessions (usecase r) !! id = None
        end.

Lemma agrees_step r opened wanted e : (opened + 1 < 2 ^ 64)%N → agrees r opened wanted →
  let '(opened', wanted') := wanted_step (opened, wanted) e in agrees (replica_step r e) opened' wanted'.
Proof.
  intros Hlt (Hn & Hle & Hall). destruct e as [|id req ok|id]; cbn [wanted_step replica_step].
  - unfold openSession. rewrite Hn, N.mod_small by done. split; [done|]. split.
    + intros id [l Hl]. apply lookup_insert_Some in Hl as [[<- _]|[_ Hl]]; [lia|]. specialize (Hle id ltac:(eauto)). lia.
    + intros id. cbn. destruct (decide (id = opened + 1)%N) as [->|Hne].
      * rewrite !lookup_insert_eq. exists new_session, []. by split_and!.
      * rewrite !lookup_insert_ne by done. apply Hall.
  - pose proof (Hall id) as Hid. destruct (wanted !! id) as [want|] eqn:Hw; [|by destruct Hid as [-> _]].
    destruct Hid as (s & entry & Hs & He & Hset & Hcur). rewrite Hs.
    destruct (read_request req) as [new|]; [|done]. unfold realtime_request.
    destruct (unchanged s new) eqn:Hu; cbn.
    + split; [done|]. split; [intros id' [l Hl]; apply lookup_insert_Some in Hl as [[<- _]|[_ Hl]]; eauto|].
      intros id'. cbn. destruct (decide (id' = id)) as [->|Hne]; [|rewrite !lookup_insert_ne by done; apply Hall].
      rewrite !lookup_insert_eq. exists s, entry. split_and!; [done..|]. unfold unchanged in Hu. unfold follows.
      destruct (current s) as [cur|]; [|done]. subst cur. by apply samePrefixSet_spec in Hu.
    + split; [done|]. split; [intros id' [l Hl]; apply lookup_insert_Some in Hl as [[<- _]|[_ Hl]]; eauto|].
      intros id'. cbn. destruct (decide (id' = id)) as [->|Hne]; [|rewrite !lookup_insert_ne by done; apply Hall].
      rewrite !lookup_insert_eq. eexists _, new. by split_and!.
  - pose proof (Hall id) as Hid. destruct (wanted !! id) as [want|] eqn:Hw.
    + destruct Hid as (s & entry & Hs & _). rewrite Hs. split; [done|]. split.
      { intros id' [l Hl]. apply lookup_delete_Some in Hl as [_ Hl]. eauto. }
      intros id'. cbn. destruct (decide (id' = id)) as [->|Hne]; [by rewrite !lookup_delete_eq|].
      rewrite !lookup_delete_ne by done. apply Hall.
    + destruct Hid as [-> _]. rewrite delete_id by done. done.
Qed.

(** whatever requests the sessions of a replica send, and in whatever order
    they open and close, the demand it reports is the union of what each open
    session asked for last: a list re-sent in another order or with repetitions
    changes nothing, and a closed session leaves nothing behind. *)
Theorem demand_exact evs : (N.of_nat (length evs) + 1 < 2 ^ 64)%N →
  let r := foldl replica_step new_replica evs in let '(_, wanted) := foldl wanted_step (0%N, ∅) evs in
  (∀ p, p ∈ CurrentSubscriptions (usecase r) ↔ ∃ id want, wanted !! id = Some want ∧ p ∈ want) ∧
  SessionCount (usecase r) = size wanted.
Proof.
  intros Hlen. assert (∀ evs r opened wanted, (opened + N.of_nat (length evs) + 1 < 2 ^ 64)%N → agrees r opened wanted →
    let '(o, w) := foldl wanted_step (opened, wanted) evs in agrees (foldl replica_step r evs) o w) as Hrun.
  { clear. induction evs as [|e evs IH]; intros r opened wanted Hlt Ha; cbn -[wanted_step replica_step]; [done|].
    pose proof (agrees_step r opened wanted e) as Hstep. destruct (wanted_step (opened, wanted) e) as [o1 w1] eqn:Hw.
    apply IH; [|apply Hstep; [cbn in Hlt; lia|done]].
    assert (o1 <= opened + 1)%N; [|cbn in Hlt; lia]. unfold wanted_step in Hw.
    destruct e as [|id req ok|id]; [injection Hw as <- _; lia| |injection Hw as <- _; lia].
    destruct (wanted !! id), (read_request req); injection Hw as <- _; lia. }
  specialize (Hrun evs new_replica 0%N ∅). destruct (foldl wanted_step _ evs) as [o w]. cbn zeta.
  destruct Hrun as (_ & _ & Hall); [lia|split; [done|split; [by intros id [? ?]|by intros id]]|]. split.
  - intros p. unfold CurrentSubscriptions, set_of. rewrite elem_of_elements, elem_of_list_to_set, list_elem_of_bind. split.
    + intros (l & Hp & Hl). apply list_elem_of_fmap in Hl as ([id l'] & -> & Hl). apply elem_of_map_to_list in Hl. cbn in *.
      specialize (Hall id). destruct (w !! id) as [want|] eqn:Hw; [|by rewrite Hl in Hall; destruct Hall].
      destruct Hall as (s & entry & _ & He & Hset & _). simplify_eq. exists id, want. split; [done|].
      by rewrite <- elem_of_set, <- Hset, elem_of_set.
    + intros (id & want & Hw & Hp). specialize (Hall id). rewrite Hw in Hall. destruct Hall as (s & entry & _ & He & Hset & _).
      exists entry. split; [|apply list_elem_of_fmap; exists (id, entry); split; [done|by apply elem_of_map_to_list]].
      change (p ∈ entry). by rewrite <- elem_of_set, Hset, elem_of_set.
  - unfold SessionCount. rewrite <- !size_dom. f_equal. apply set_eq. intros id. rewrite !elem_of_dom. specialize (Hall id).
    destruct (w !! id) as [want|].
    + destruct Hall as (s & entry & _ & -> & _). by split; eauto.
    + destruct Hall as [_ ->]. done.
Qed.

Lemma demand_exact_witness :
  let evs := [SOpen; SOpen; SRequest 1 (mkRequest "listen" ["a"; "b"]) true; SRequest 2 (mkRequest "subscribe" ["b"]) true;
              SRequest 1 (mkRequest "listen" ["b"; "a"; "a"]) true; SRequest 2 (mkRequest "h" ["z"]) true; SClose 2] in
  CurrentSubscriptions (usecase (foldl replica_step new_replica evs)) ≡ₚ ["a"; "b"] ∧
  (∀ p, p ∈ CurrentSubscriptions (usecase (foldl replica_step new_replica evs)) ↔
    ∃ id want, (snd (foldl wanted_step (0%N, ∅) evs)) !! id = Some want ∧ p ∈ want).
Proof.
  intros evs. split; [vm_compute; reflexivity|]. pose proof (demand_exact evs ltac:(vm_compute; reflexivity)) as H.
  destruct (foldl wanted_step (0%N, ∅) evs) as [o w]. apply H.
Defined.
