(* ===== verification/Health.v ===== *)
(** * Health: liveness and readiness

    [src/internal/infra/health] (the watchdog of the process's loops and the
    readiness checks) and the probes of [src/internal/present/rest/probes.go].
    A heartbeat is its position in the watchdog's list. *)

From S2P Require Import Prelude Numbers Documents Usecase.
From stdpp Require Import prelude strings gmap list.
From Stdlib Require Import ZArith Lia.
Open Scope Z_scope.

(** ** The watchdog ([watchdog.go]) *)

Record Heartbeat : Type := mkHeartbeat { hb_name : string; hb_deadline : Z; hb_last : Z }.

Notation Watchdog := (list Heartbeat).
Definition NewWatchdog : Watchdog := [].

Definition Register (name : string) (deadline : Z) (w : Watchdog) : nat * Watchdog :=
  (length w, w ++ [mkHeartbeat name deadline 0]).

Definition set_last (t : Z) (h : Heartbeat) : Heartbeat := mkHeartbeat (hb_name h) (hb_deadline h) t.
Definition Beat (h : nat) (now : Z) (w : Watchdog) : Watchdog := alter (set_last now) h w.
Definition Stop (h : nat) (w : Watchdog) : Watchdog := alter (set_last 0) h w.

Inductive LoopState := Idle | Running | Stalled_.
Record Loop : Type := mkLoop { State : LoopState; Since : Z }.

#[export] Instance loop_state_dec : EqDecision LoopState.
Proof. solve_decision. Defined.

(** [Time.Sub] saturates. *)
Definition Sub (t u : Z) : Z := Z.max (- 2 ^ 63) (Z.min (2 ^ 63 - 1) (t - u)).

Definition loop_of (now : Z) (h : Heartbeat) : Loop :=
  if hb_last h =? 0 then mkLoop Idle 0
  else
    let since := Sub now (hb_last h) in
    mkLoop (if hb_deadline h <? since then Stalled_ else Running) since.

Definition Loops (now : Z) (w : Watchdog) : gmap string Loop :=
  foldl (λ m h, <[hb_name h := loop_of now h]> m) ∅ w.

Definition Stalled (now : Z) (w : Watchdog) : gmap string Z :=
  omap (λ l, if decide (State l = Stalled_) then Some (Since l) else None) (Loops now w).

(** ** Readiness ([readiness.go])

    A check answers before the sweep's timeout, or counts as the context's
    error. *)
Definition deadline_exceeded : error := GoError "context deadline exceeded".

Definition check_result (answered : option (option error)) : option error := default (Some deadline_exceeded) answered.

Definition Run (checks : list (string * option (option error))) : gmap string (option error) :=
  foldl (λ m c, <[fst c := check_result (snd c)]> m) ∅ checks.

(** ** The probes ([probes.go]) *)

Record probeReport : Type := mkReport { pb_Status : string; pb_Checks : gmap string string }.

(** [Duration.Truncate(time.Second).String()] of a positive duration. *)
Definition seconds_text (d : Z) : string :=
  let s := d / 1000000000 in
  let tail := FormatInt (s mod 60) +:+ "s" in
  if s <? 60 then tail
  else if s <? 3600 then FormatInt (s / 60) +:+ "m" +:+ tail
  else FormatInt (s / 3600) +:+ "h" +:+ FormatInt (s / 60 mod 60) +:+ "m" +:+ tail.

Definition loop_text (l : Loop) : string :=
  match State l with
  | Idle => "idle"
  | Running => "ok"
  | Stalled_ => "no heartbeat for " +:+ seconds_text (Since l)
  end.

Definition code_of (r : probeReport) : Z := if String.eqb (pb_Status r) "ok" then 200 else 503.

Definition handleHealth (now : Z) (w : Watchdog) : Z * probeReport :=
  let loops := Loops now w in
  let stalled := existsb (λ p, bool_decide (State (snd p) = Stalled_)) (map_to_list loops) in
  let report := mkReport (if stalled then "stalled" else "ok") (loop_text <$> loops) in
  (code_of report, report).

Definition handleReady (draining : bool) (checks : list (string * option (option error))) : Z * probeReport :=
  if draining then (503, mkReport "draining" ∅)
  else
    let outcome := Run checks in
    let failing := existsb (λ p, bool_decide (is_Some (snd p))) (map_to_list outcome) in
    let report := mkReport (if failing then "unavailable" else "ok")
                    ((λ r, match r with Some e => error_text e | None => "ok" end) <$> outcome) in
    (code_of report, report).

(** ** Runs

    Loops register, beat and stop in any order. *)
Inductive HealthEvent :=
| ERegister (name : string) (deadline : Z)
| EBeat (h : nat) (now : Z)
| EStop (h : nat).

Definition health_step (w : Watchdog) (e : HealthEvent) : Watchdog :=
  match e with
  | ERegister name deadline => snd (Register name deadline w)
  | EBeat h now => Beat h now w
  | EStop h => Stop h w
  end.

Definition health_run (es : list HealthEvent) : Watchdog := foldl health_step NewWatchdog es.

(** ** Theorems *)

(** What a history says of a loop: its names and deadlines in the order they
    were registered, and the last beat that was not followed by a stop. *)
Definition registered (es : list HealthEvent) : list (string * Z) :=
  omap (λ e, match e with ERegister name deadline => Some (name, deadline) | _ => None end) es.

Definition last_beat_step (h : nat) (acc : option Z) (e : HealthEvent) : option Z :=
  match e with
  | EBeat h' now => if decide (h' = h) then Some now else acc
  | EStop h' => if decide (h' = h) then None else acc
  | ERegister _ _ => acc
  end.
Definition last_beat (h : nat) (es : list HealthEvent) : option Z := foldl (last_beat_step h) None es.

(** Heartbeats are used after they are registered, and the clock is past 1970. *)
Fixpoint in_use (n : nat) (es : list HealthEvent) : Prop :=
  match es with
  | [] => True
  | ERegister _ _ :: es => in_use (S n) es
  | EBeat h now :: es => (h < n)%nat ∧ now ≠ 0 ∧ in_use n es
  | EStop h :: es => (h < n)%nat ∧ in_use n es
  end.

Definition no_dup_names (es : list HealthEvent) : Prop := NoDup (registered es).*1.

Lemma in_use_app n es e : in_use n (es ++ [e]) → in_use n es ∧ in_use (n + length (registered es)) [e].
Proof.
  revert n. induction es as [|[name d|h t|h] es IH]; intros n; cbn [app in_use].
  - cbn [registered omap list_omap length]. by rewrite Nat.add_0_r.
  - intros [? Hu]%IH. split; [done|]. replace (n + length (registered (ERegister name d :: es)))%nat with (S n + length (registered es))%nat; [done|].
    cbn. fold (registered es). lia.
  - intros (? & ? & [? ?]%IH). done.
  - intros (? & [? ?]%IH). done.
Qed.

Lemma last_beat_snoc h es e : last_beat h (es ++ [e]) = last_beat_step h (last_beat h es) e.
Proof. unfold last_beat. by rewrite foldl_app. Qed.

Lemma run_snoc es e : health_run (es ++ [e]) = health_step (health_run es) e.
Proof. unfold health_run. by rewrite foldl_app. Qed.

Lemma registered_snoc es e : registered (es ++ [e]) = registered es ++ registered [e].
Proof. unfold registered. by rewrite omap_app. Qed.

Lemma never_beat h es : in_use 0 es → (length (registered es) <= h)%nat → last_beat h es = None.
Proof.
  induction es as [|e es IH] using rev_ind; [done|]. intros [Hu He]%in_use_app. rewrite registered_snoc, length_app, last_beat_snoc.
  intros Hle. rewrite IH by (done || lia). destruct e as [n d|h' t|h']; cbn in *; [done|..]; rewrite decide_False by lia; done.
Qed.

(** The list of heartbeats is the history's summary. *)
Lemma run_state es : in_use 0 es →
  length (health_run es) = length (registered es) ∧
  ∀ h name deadline, registered es !! h = Some (name, deadline) →
    health_run es !! h = Some (mkHeartbeat name deadline (default 0 (last_beat h es))) ∧ last_beat h es ≠ Some 0.
Proof.
  induction es as [|e es IH] using rev_ind; [by intros _|]. intros [Hu He]%in_use_app. destruct (IH Hu) as [Hlen Hst]. clear IH.
  rewrite run_snoc, registered_snoc. setoid_rewrite last_beat_snoc. destruct e as [n d|h' t|h']; cbn in He |- *.
  - rewrite !length_app, Hlen. split; [done|]. intros h name deadline [Hl|[Hge Hl]]%lookup_app_Some.
    + destruct (Hst h name deadline Hl) as [Hw Hb]. split; [|done]. by apply lookup_app_l_Some.
    + apply list_lookup_singleton_Some in Hl as [Hh [= <- <-]].
      rewrite never_beat by (done || lia). split; [|done]. apply lookup_app_Some. right. split; [lia|].
      by replace (h - length (health_run es))%nat with 0%nat by lia.
  - unfold Beat. rewrite length_alter, app_nil_r. split; [done|]. intros h name deadline Hl. destruct (Hst h name deadline Hl) as [Hw Hb].
    destruct He as (_ & Ht & _). case_decide as Hh; [subst h'; rewrite list_lookup_alter_eq, Hw; by split; [|congruence]|by rewrite list_lookup_alter_ne].
  - unfold Stop. rewrite length_alter, app_nil_r. split; [done|]. intros h name deadline Hl. destruct (Hst h name deadline Hl) as [Hw Hb].
    case_decide as Hh; [subst h'; by rewrite list_lookup_alter_eq, Hw|by rewrite list_lookup_alter_ne].
Qed.

Lemma Loops_lookup now w name l : NoDup (hb_name <$> w) →
  Loops now w !! name = Some l ↔ ∃ h hb, w !! h = Some hb ∧ hb_name hb = name ∧ l = loop_of now hb.
Proof.
  induction w as [|hb w IH] using rev_ind.
  - intros _. cbn. rewrite lookup_empty. split; [done|]. by intros (h & hb & Hl & _).
  - rewrite fmap_app. intros (Hnd & Hdis & _)%NoDup_app. specialize (IH Hnd). unfold Loops. rewrite foldl_app. cbn.
    fold (Loops now w). rewrite lookup_insert_Some. split.
    + intros [[<- <-]|[Hne Hl]].
      * exists (length w), hb. by rewrite lookup_app_r, Nat.sub_diag by lia.
      * apply IH in Hl as (h & hb' & Hl & ? & ?). exists h, hb'. split_and!; [|done..]. by apply lookup_app_l_Some.
    + intros (h & hb' & [Hl|[_ Hl]]%lookup_app_Some & Hn & ->).
      * right. split; [|apply IH; eauto]. intros E. apply (Hdis (hb_name hb')); [|rewrite Hn, <- E; by left].
        apply list_elem_of_fmap_2. by eapply list_elem_of_lookup_2.
      * apply list_lookup_singleton_Some in Hl as [_ ->]. by left.
Qed.

(** the watchdog reports exactly the silent loops.  After any history in which
    the loops have distinct names, a loop is stalled when its last beat is
    further back than its deadline, unless it was stopped since or never
    started, and the liveness probe fails exactly when some loop is. *)
Theorem stalled_exact es now : in_use 0 es → no_dup_names es →
  (∀ name, is_Some (Stalled now (health_run es) !! name) ↔
    ∃ h deadline t, registered es !! h = Some (name, deadline) ∧ last_beat h es = Some t ∧ deadline < Sub now t) ∧
  (fst (handleHealth now (health_run es)) = 200 ↔ Stalled now (health_run es) = ∅).
Proof.
  intros Hu Hnd. destruct (run_state es Hu) as [Hlen Hst].
  assert (∀ h hb, health_run es !! h = Some hb → ∃ name deadline, registered es !! h = Some (name, deadline) ∧
    hb = mkHeartbeat name deadline (default 0 (last_beat h es)) ∧ last_beat h es ≠ Some 0) as Hof.
  { intros h hb Hl. pose proof (lookup_lt_Some _ _ _ Hl) as Hlt. rewrite Hlen in Hlt.
    apply lookup_lt_is_Some_2 in Hlt as [[name deadline] Hr]. exists name, deadline. destruct (Hst _ _ _ Hr) as [Hw Hb].
    split_and!; [done| |done]. congruence. }
  assert (NoDup (hb_name <$> health_run es)) as Hnd'.
  { replace (hb_name <$> health_run es) with (registered es).*1; [done|]. apply list_eq. intros h. rewrite !list_lookup_fmap.
    destruct (registered es !! h) as [[name d]|] eqn:Hr; [by destruct (Hst _ _ _ Hr) as [-> _]|].
    apply lookup_ge_None in Hr. by rewrite (proj2 (lookup_ge_None _ h)) by lia. }
  split.
  - intros name. unfold Stalled. rewrite lookup_omap. split.
    + intros [s Hs]. apply bind_Some in Hs as (l & Hl & Hs). case_decide as Hst'; [|done].
      apply Loops_lookup in Hl as (h & hb & Hw & Hn & ->); [|done]. apply Hof in Hw as (name' & deadline & Hr & -> & Hb).
      cbn in Hn. subst name'. unfold loop_of in Hst'. cbn in Hst'. exists h, deadline.
      destruct (last_beat h es) as [t|]; [|done]. cbn in Hst'. exists t. destruct (Z.eqb_spec t 0); [done|].
      cbn in Hst'. by destruct (Z.ltb_spec deadline (Sub now t)).
    + intros (h & deadline & t & Hr & Hb & Hlt). destruct (Hst _ _ _ Hr) as [Hw Hb0]. rewrite Hb in Hw. cbn in Hw.
      assert (Loops now (health_run es) !! name = Some (loop_of now (mkHeartbeat name deadline t))) as -> by (apply Loops_lookup; eauto 6).
      cbn. unfold loop_of. cbn. destruct (Z.eqb_spec t 0); [congruence|].
      destruct (Z.ltb_spec deadline (Sub now t)); [|lia]. cbn. eauto.
  - unfold handleHealth. cbn [fst]. set (loops := Loops now (health_run es)). unfold code_of. cbn [pb_Status].
    destruct (existsb _ _) eqn:He; cbn.
    + split; [done|]. intros E. exfalso. apply existsb_exists in He as ([name l] & Hin & Hs%bool_decide_eq_true).
      apply list_elem_of_In, elem_of_map_to_list in Hin. cbn in Hs. unfold Stalled in E. fold loops in E.
      assert (omap (λ l, if decide (State l = Stalled_) then Some (Since l) else None) loops !! name = Some (Since l)) as Hl.
      { rewrite lookup_omap, Hin. cbn. by rewrite decide_True. }
      rewrite E in Hl. by rewrite lookup_empty in Hl.
    + split; [|done]. intros _. apply map_empty. intros name. unfold Stalled. fold loops. rewrite lookup_omap.
      destruct (loops !! name) as [l|] eqn:Hl; [|done]. cbn. case_decide as Hs; [|done]. exfalso.
      assert (existsb (λ p : string * Loop, bool_decide (State p.2 = Stalled_)) (map_to_list loops) = true) as Ht; [|congruence].
      apply existsb_exists. exists (name, l). split; [by apply list_elem_of_In, elem_of_map_to_list|]. cbn. by apply bool_decide_eq_true.
Qed.

Definition example_history : list HealthEvent :=
  [ERegister "poll" 30; ERegister "keeper" 10; EBeat 0 5; EBeat 1 6; EStop 1; EBeat 0 7].

Lemma stalled_exact_witness :
  map_to_list (Stalled 100 (health_run example_history)) = [("poll", 93)] ∧
  (∀ name, is_Some (Stalled 100 (health_run example_history) !! name) ↔
    ∃ h deadline t, registered example_history !! h = Some (name, deadline) ∧ last_beat h example_history = Some t ∧
      deadline < Sub 100 t) ∧
  (fst (handleHealth 100 (health_run example_history)) = 200 ↔ Stalled 100 (health_run example_history) = ∅).
Proof.
  split; [vm_compute; reflexivity|].
  apply (stalled_exact example_history 100); [cbn; lia|]. apply (bool_decide_eq_true_1 _). vm_compute. reflexivity.
Defined.

(** A replica that drains, or one of whose checks did not succeed in time, is
    not ready. *)
Theorem ready_exact draining checks :
  fst (handleReady draining checks) = 200 ↔ draining = false ∧ ∀ name r, Run checks !! name = Some r → r = None.
Proof.
  unfold handleReady. destruct draining; cbn; [split; [done|by intros []]|]. unfold code_of. cbn [pb_Status].
  destruct (existsb _ _) eqn:He; cbn.
  - split; [done|]. intros [_ Hall]. apply existsb_exists in He as ([name r] & Hin & Hs%bool_decide_eq_true).
    apply list_elem_of_In, elem_of_map_to_list in Hin. apply Hall in Hin. cbn in Hs. subst r. by destruct Hs.
  - split; [|done]. intros _. split; [done|]. intros name [e|] Hr; [|done]. exfalso.
    assert (existsb (λ p : string * option error, bool_decide (is_Some p.2)) (map_to_list (Run checks)) = true) as Ht; [|congruence].
    apply existsb_exists. exists (name, Some e). split; [by apply list_elem_of_In, elem_of_map_to_list|]. reflexivity.
Qed.
