(* ===== verification/Rest.v ===== *)
(** * Rest: the HTTP handlers of the public API

    [src/internal/present/rest/handler.go] and [presenter/presenter.go], and
    the pass-through use cases [src/internal/usecase/chunkline],
    [src/internal/usecase/abuse] with [postgres/abuse.go].  A handler is a
    function of the request's parameters, its requester and the state; binding
    a body and reading the scanner's lines are arguments. *)

From S2P Require Import Prelude Effects Bytes Url Cdid Ccuri Documents Verify Jwt Client ClientFacts.
From S2P Require Import PolicyValues Store Queries Counts Tags Usecase Commit Numbers Auth Residence Server Heap Chunkline ChunkStore.
From stdpp Require Import prelude strings gmap list sorting.
From Stdlib Require Import ZArith Lia Ascii.
Open Scope Z_scope.
Open Scope uc_scope.

(** ** Answers ([presenter.go])

    A redirection's body is what was redirected, and is left out. *)
Inductive Response (T : Type) : Type :=
| JSON (code : Z) (payload : T)
| Failure (code : Z) (message errorCode : string)
| Redirection (location : string)
| Text (code : Z) (text : string)
| NoContent (code : Z).
Arguments JSON {T}. Arguments Failure {T}. Arguments Redirection {T}. Arguments Text {T}. Arguments NoContent {T}.

(** [errors.As] to the interface with [ErrorCode]: the first error that has it. *)
Fixpoint find_code (e : error) : option string :=
  match e with
  | NotFoundError _ _ code => Some code
  | Joined a b => match find_code a with Some c => Some c | None => find_code b end
  | _ => None
  end.
Definition errorCode (e : error) : string := default "" (find_code e).

Section Presenter.
Context {T : Type}.
Definition OK (payload : T) : Response T := JSON 200 payload.
Definition BadRequest (e : error) : Response T := Failure 400 (error_text e) "".
Definition BadRequestMessage (msg : string) : Response T := Failure 400 msg "".
Definition NotFound (msg : string) : Response T := Failure 404 msg "".
Definition NotFoundError_ (e : error) : Response T := Failure 404 (error_text e) (errorCode e).
Definition InternalError (e : error) : Response T := Failure 500 (error_text e) "".
Definition Forbidden (msg : string) : Response T := Failure 403 msg "".
Definition Redirect (location : string) : Response T := Redirection location.

(** What [err] is answered with; a panic stays one. *)
Definition respond {A} (ok : A → Response T) (fail : error → Response T) (r : result A) : result (Response T) :=
  match r with Ok a => Ok (ok a) | Err e => Ok (fail e) | Panic => Panic end.
End Presenter.

(** [errors.Is] with [ErrRedirect] and [ErrValidation]. *)
Fixpoint is_redirect (e : error) : bool :=
  match e with
  | RedirectError _ => true
  | Joined a b => is_redirect a || is_redirect b
  | _ => false
  end.

Fixpoint is_validation (e : error) : bool :=
  match e with
  | ValidationError _ _ => true
  | Joined a b => is_validation a || is_validation b
  | _ => false
  end.

(** [err.(domain.RedirectError)]: panics on an error that only wraps one. *)
Definition redirect_to {T} (e : error) : result (Response T) :=
  match e with RedirectError location => Ok (Redirect location) | _ => Panic end.

(** ** Parameters *)

(** [c.QueryParam]: an absent parameter is empty. *)
Definition Values : Type := gmap string string.
Definition QueryParam (q : Values) (name : string) : string := default "" (q !! name).

(** [time.Parse(time.RFC3339, s)]. *)
Class TimeParse := parse_rfc3339 : string → result Z.

Definition Atoi (s : string) : result Z := ParseInt s.

Record queryWindow : Type := mkWindow {
  w_since : option Z;
  w_until : option Z;
  w_sinceKey : option string;
  w_untilKey : option string;
  w_limit : Z;
  w_order : string;
}.

Section Handlers.
Context `{Url.NetIP} `{Json} `{Keccak} `{Secp256k1} `{StoreCodec} `{Orm} `{Env} `{PolicyEval} `{JwtJson} `{AuthConfig}.
Context `{TimeFormat} `{TimeParse} `{LogCodec} `{ClientJson} `{UriTemplate} `{ServerClient} `{Self} `{ScanCounts}.

(** [h.config.Debug]; the commits nested in one another through entities. *)
Context (config_Debug : bool) (fuel : nat).

Definition cursor_key (keyCursors : bool) (s : string) : option string :=
  if keyCursors && negb (String.eqb s "") then Some s else None.

Definition cursor_time (keyCursors : bool) (s what : string) : result (option Z) :=
  if keyCursors || String.eqb s "" then Ok None
  else match parse_rfc3339 s with
       | Ok t => Ok (Some t)
       | Err _ => Err (GoError ("invalid " +:+ what +:+ " parameter"))
       | Panic => Panic
       end.

Definition clamp_limit (n : Z) : Z := let n := if n <? 1 then 1 else n in if 100 <? n then 100 else n.

Definition parse_limit (s : string) (dflt : Z) : result Z :=
  if String.eqb s "" then Ok dflt
  else match Atoi s with Ok n => Ok n | Err _ => Err (GoError "invalid limit parameter") | Panic => Panic end.

Definition parseQueryWindow (q : Values) (keyCursors : bool) : result queryWindow :=
  let sinceStr := QueryParam q "since" in
  let untilStr := QueryParam q "until" in
  since ← cursor_time keyCursors sinceStr "since";
  until ← cursor_time keyCursors untilStr "until";
  limit ← parse_limit (QueryParam q "limit") 10;
  let order := QueryParam q "order" in
  order ← (if String.eqb order "" then Ok "desc"
           else if negb (String.eqb order "asc") && negb (String.eqb order "desc") then Err (GoError "invalid order parameter")
           else Ok order);
  Ok (mkWindow since until (cursor_key keyCursors sinceStr) (cursor_key keyCursors untilStr) (clamp_limit limit) order).

(** A handler that needs a window answers 400 without one. *)
Definition with_window {T} (q : Values) (keyCursors : bool) (k : queryWindow → result (Response T)) : result (Response T) :=
  match parseQueryWindow q keyCursors with
  | Ok w => k w
  | Err e => Ok (BadRequestMessage (error_text e))
  | Panic => Panic
  end.

(** ** Commits *)

Definition commit_failed {T} (e : error) : Response T :=
  if is_permission_denied e then Forbidden "permission denied"
  else if is_validation e then BadRequest e
  else InternalError e.

(** [c.Bind], [err != nil], and the rest of the handler. *)
Definition bound {A T} (body : result A) (k : A → M (Response T)) : M (Response T) :=
  match body with Ok a => k a | Err e => retM (BadRequest e) | Panic => panicM end.

Definition handleCommit (ctx : Ctx) (ip : string) (body : result SignedDocument) : M (Response SignedDocument) :=
  bound body (λ sd,
    let* r := tryM (Commit fuel ctx ip (StripInternalFlags sd) CommitModeExecute) in
    liftM (respond OK commit_failed r)).

(** ** Lists *)

Definition handleQuery (ctx : Ctx) (db : DB) (q : Values) : result (Response QueryResult) :=
  let prefix := QueryParam q "prefix" in
  let parent := QueryParam q "parent" in
  let orderBy := let o := QueryParam q "orderby" in if String.eqb o "" then "createdAt" else o in
  if Bool.eqb (String.eqb prefix "") (String.eqb parent "") then
    Ok (BadRequestMessage "exactly one of prefix or parent must be specified")
  else if negb (String.eqb orderBy "createdAt") && negb (String.eqb orderBy "key") then
    Ok (BadRequestMessage "invalid orderby parameter")
  else if String.eqb orderBy "key" && negb (String.eqb prefix "") then
    Ok (BadRequestMessage "orderby=key is only available with parent")
  else
    with_window q (String.eqb orderBy "key") (λ w,
      respond OK InternalError
        (Query ctx db (mkQueryParams prefix parent (QueryParam q "schema") (QueryParam q "author") orderBy
           (w_since w) (w_until w) (w_sinceKey w) (w_untilKey w) (w_limit w) (w_order w)))).

Definition handleReplication (ctx : Ctx) (db : DB) (q : Values) : result (Response QueryResult) :=
  with_window q false (λ w,
    let order := if String.eqb (QueryParam q "order") "" then "asc" else w_order w in
    respond OK InternalError (Replicate ctx db (QueryParam q "owner") (w_since w) (w_until w) (w_limit w) order)).

Definition handleAssociations (db : DB) (q : Values) : result (Response QueryResult) :=
  if String.eqb (QueryParam q "uri") "" then Ok (BadRequestMessage "uri parameter is required")
  else with_window q false (λ w,
    respond OK InternalError
      (GetAssociatedRecords db (QueryParam q "uri") (QueryParam q "schema") (QueryParam q "variant") (QueryParam q "author")
         (w_since w) (w_until w) (w_limit w) (w_order w))).

Definition handleAssociationCounts (db : DB) (q : Values) : result (Response (gmap string Z + OrderedKVMap)) :=
  let uri := QueryParam q "uri" in
  if String.eqb uri "" then Ok (BadRequestMessage "uri parameter is required")
  else if String.eqb (QueryParam q "schema") "" then Ok (OK (inl (GetAssociatedRecordCountsBySchema db uri)))
  else Ok (OK (inr (GetAssociatedRecordCountsByVariant db uri (QueryParam q "schema")))).

Definition one_side : string := "specify exactly one of the from / to parameters".

Definition handleAcknowledges (db : DB) (q : Values) : result (Response QueryResult) :=
  let from := QueryParam q "from" in
  let to_ := QueryParam q "to" in
  if Bool.eqb (String.eqb from "") (String.eqb to_ "") then Ok (BadRequestMessage one_side)
  else with_window q false (λ w,
    respond OK InternalError
      (GetAcknowledgeRecords db from to_ (QueryParam q "schema") (w_since w) (w_until w) (w_limit w) (w_order w))).

Definition handleAcknowledgeCounts (db : DB) (q : Values) : result (Response (gmap string Z)) :=
  let from := QueryParam q "from" in
  let to_ := QueryParam q "to" in
  if Bool.eqb (String.eqb from "") (String.eqb to_ "") then Ok (BadRequestMessage one_side)
  else respond OK InternalError (GetAcknowledgeRecordCounts db from to_ (QueryParam q "schema")).

(** ** Resolving *)

Inductive Resolved : Type :=
| RDocument (sd : option SignedDocument)
| RServer (server : ServerInfo)
| RManifest (manifest : Manifest).

(** The handler works on the records and on the table of servers. *)
Definition on_records {A} (m : M A) : SM (St * ServerDB) A := λ st, let '(r, s) := m (fst st) in (r, (s, snd st)).
Definition on_servers {A} (m : RM A) : SM (St * ServerDB) A := λ st, let '(r, s) := m (snd st) in (r, (fst st, s)).

Definition permissionDenied {T} : Response T :=
  if config_Debug then Forbidden "permission denied" else NotFound "resource not found".

(** [GetSigned] with the usecase's own [Commit]. *)
Definition get_signed (ctx : Ctx) (uri : string) : M (option SignedDocument) := GetSigned (Commit fuel ctx) ctx uri.

(** [chunkline.Usecase.GetChunklineManifest]; the resolver is wired. *)
Definition usecase_GetChunklineManifest (ctx : Ctx) (uri : string) : M Manifest :=
  let* uri := CanonicalizeURI (Commit fuel ctx) uri in
  readM (λ db, ChunkStore.GetChunklineManifest db uri).

Definition entity_failed (e : error) : result (Response Resolved) :=
  if is_permission_denied e then Ok permissionDenied
  else if is_not_found e then Ok (NotFound "resource not found")
  else Ok (InternalError e).

Definition blob_answer (r : result unit) : result (Response Resolved) :=
  match r with
  | Panic => Panic
  | Ok _ => Panic
  | Err e =>
      if is_redirect e then redirect_to e
      else if is_not_found e then Ok (NotFound "resource not found")
      else Ok (InternalError e)
  end.

Definition server_failed (e : error) : result (Response Resolved) :=
  if is_redirect e then redirect_to e
  else if is_permission_denied e then Ok permissionDenied
  else Ok (InternalError e).

Definition manifest_failed (e : error) : result (Response Resolved) :=
  if is_not_found e then Ok (NotFound "resource not found")
  else if is_permission_denied e then Ok permissionDenied
  else Ok (InternalError e).

Definition record_failed (e : error) : result (Response Resolved) :=
  if is_not_found e then Ok (NotFound "resource not found")
  else if is_redirect e then redirect_to e
  else if is_permission_denied e then Ok permissionDenied
  else Ok (InternalError e).

(** [err] of a call answered by one of the above. *)
Definition answer {S A} (m : SM S A) (ok : A → Resolved) (failed : error → result (Response Resolved)) : SM S (Response Resolved) :=
  let* r := tryM m in
  liftM (match r with Ok a => Ok (OK (ok a)) | Err e => failed e | Panic => Panic end).

(** [url.PathUnescape]: a path segment is decoded as a path is. *)
Definition PathUnescape (s : string) : result string := Url.unescape s Url.encodePath.

Definition invalid_uri : Response Resolved := BadRequestMessage "invalid uri".

(** The answer for a URI that parses. *)
Definition resolve_parsed (ctx : Ctx) (accept uriString uri : string) (parsed : CCURI) : SM (St * ServerDB) (Response Resolved) :=
  if String.eqb (Ccuri.Scheme parsed) "ccfs" && String.eqb (Ccuri.Type_ parsed) CCFSTypeBlob then
    let* r := tryM (on_servers (ResolveBlob parsed)) in liftM (blob_answer r)
  else if String.eqb (Ccuri.Key parsed) "" && String.eqb (Ccuri.CDID parsed) "" then
    if IsCCID (Ccuri.Owner parsed) || Str.has_prefix (Ccuri.Owner parsed) "@" then
      answer (on_records (get_signed ctx uri)) RDocument entity_failed
    else answer (on_servers (Resolve (Ccuri.Owner parsed) (Ccuri.Hint parsed))) RServer server_failed
  else if String.eqb accept "application/chunkline+json" then
    answer (on_records (usecase_GetChunklineManifest ctx uriString)) RManifest manifest_failed
  else answer (on_records (get_signed ctx uri)) RDocument record_failed.

Definition handleResolve (ctx : Ctx) (accept : string) (q : Values) : SM (St * ServerDB) (Response Resolved) :=
  match PathUnescape (QueryParam q "uri") with
  | Panic => panicM
  | Err _ => retM invalid_uri
  | Ok uriString =>
      if String.eqb uriString "" then retM (BadRequestMessage "uri parameter is required")
      else match Url.Parse uriString with
      | Panic => panicM
      | Err _ => retM invalid_uri
      | Ok uri =>
          if String.eqb (Url.Scheme uri) "http" || String.eqb (Url.Scheme uri) "https" then retM (Redirect (Url.String_ uri))
          else match ParseCCURI uriString with
          | Panic => panicM
          | Err _ => retM invalid_uri
          | Ok parsed => resolve_parsed ctx accept uriString (Url.String_ uri) parsed
          end
      end
  end.

(** ** Timelines *)

Definition with_chunk {T} (chunk : string) (k : Z → result (Response T)) : result (Response T) :=
  match ParseInt chunk with
  | Ok c => k c
  | Err _ => Ok (BadRequestMessage "invalid chunk id")
  | Panic => Panic
  end.

Definition handleChunklineItr (db : DB) (uri chunk : string) : result (Response unit) :=
  with_chunk chunk (λ chunkID,
    match LookupLocalItrs db [uri] chunkID !! uri with
    | None => Ok (NotFound "no iterator for the given uri and chunk")
    | Some itr => Ok (Text 200 (FormatInt itr))
    end).

Definition handleChunklineBody (db : DB) (uri chunk : string) : result (Response (list BodyItem)) :=
  with_chunk chunk (λ chunkID, respond OK InternalError (LoadLocalBody db uri chunkID)).

(** [kvs.SetMembers(RemovedItemsKey(uri))], when there is a store. *)
Definition RemovedItemsKey (timeline : string) : string := "removed:" +:+ timeline.

Definition GetLocalRemovedItems (kvs : option (string → result (list string))) (uri : string) : result (list string) :=
  match kvs with None => Ok [] | Some members => members (RemovedItemsKey uri) end.

Definition handleChunklineRemoved (kvs : option (string → result (list string))) (uri : string) : result (Response (list string)) :=
  respond OK InternalError (GetLocalRemovedItems kvs uri).

Section Recent.
Context {State : Type} `{ChunkResolver State} `{MapOrder} `{XXH3}.

Definition GetRecent (gateway : bool) (uris : list string) (until limit : Z) : SM State (list BodyItemWithSource) :=
  if negb gateway then failM (GoError "chunkline gateway not configured")
  else
    let* items := tryM (QueryDescending uris until limit) in
    liftM (match items with
           | Err e => Err (GoError ("failed to query descending: " +:+ error_text e))
           | r => r
           end).

Definition handleTimelineRecent (gateway : bool) (q : Values) : SM State (Response (list BodyItemWithSource)) :=
  let uriString := QueryParam q "uris" in
  if String.eqb uriString "" then retM (OK [])
  else
    let untilStr := QueryParam q "until" in
    match (if String.eqb untilStr "" then Ok now else rbind (ParseInt untilStr) (λ ms, Ok (ms * 1000000))) with
    | Panic => panicM
    | Err _ => retM (BadRequestMessage "invalid until parameter")
    | Ok until =>
        match parse_limit (QueryParam q "limit") 16 with
        | Panic => panicM
        | Err e => retM (BadRequestMessage (error_text e))
        | Ok limit =>
            let limit := if 64 <? limit then 64 else limit in
            let* r := tryM (GetRecent gateway (Str.split uriString ",") until limit) in
            liftM (respond OK InternalError r)
        end
    end.
End Recent.

(** ** Registration *)

Definition status_ok : string := "ok".

Definition registration_failed {T} (e : error) : Response T :=
  if is_permission_denied e then Forbidden (error_text e)
  else if is_not_found e then NotFoundError_ e
  else InternalError e.

Definition handleRegister (registration : string) (captcha : option bool) (ctx : Ctx) (ip : string)
    (body : result RegisterRequest) : M (Response string) :=
  bound body (λ req,
    let* r := tryM (Register fuel registration captcha ctx ip req) in
    liftM (respond (λ _, OK status_ok) InternalError r)).

Definition handleGetRegistration (ctx : Ctx) : M (Response EntityMeta) :=
  let* r := tryM (GetRegistration ctx) in liftM (respond OK registration_failed r).

Definition handleUpdateRegistration (ctx : Ctx) (body : result any_) : M (Response string) :=
  bound body (λ meta,
    let* r := tryM (UpdateRegistration ctx meta) in
    liftM (respond (λ _, OK status_ok) registration_failed r)).

Definition handleUnregister (ctx : Ctx) : M (Response string) :=
  let* r := tryM (Unregister ctx) in
  liftM (respond (λ _, OK status_ok)
           (λ e, if is_permission_denied e then Forbidden (error_text e) else InternalError e) r).

(** ** Servers, dump, import, abuse *)

Definition handleKnownServers (db : ServerDB) : Response (list WellKnown) := OK (List_ db).

Definition handleDumpRepository (ctx : Ctx) (db : DB) : result (Response unit) :=
  respond (Text 200) InternalError (DumpCommitLogs ctx db).

(** What the scanner met after the lines it read. *)
Inductive ScanEnd := AllRead | BodyTooLarge | LineTooLong | ReadFailed (e : error).

Definition maxImportBodyBytes : Z := 64 * 2 ^ 20.
Definition MaxImportLineBytes : Z := 2 ^ 20.

(** [None] is the answer of a result, [Some] that of a request that is too large. *)
Definition handleImportRepository (blank : string → bool) (r : Requester) (ip : string) (lines : list string) (fin : ScanEnd)
    : M (Response (list ImportResult)) :=
  match r with
  | Anonymous => retM (Forbidden "authentication required")
  | _ =>
      let* results := ImportCommitLogs fuel blank (context_of r) ip lines in
      retM (match fin with
            | AllRead => OK results
            | BodyTooLarge => Failure 413 ("request body exceeds " +:+ FormatInt maxImportBodyBytes +:+ " bytes") ""
            | LineTooLong => Failure 413 ("a line exceeds " +:+ FormatInt MaxImportLineBytes +:+ " bytes") ""
            | ReadFailed e => BadRequest e
            end)
  end.

Record AbuseReport : Type := mkAbuseReport { ab_IP : string; ab_Reporter : string; ab_TargetURI : string; ab_Body : string }.

Definition ReportAbuse (target body reporter reporterIP : string) : SM (list AbuseReport) unit :=
  modifyM (λ l, l ++ [mkAbuseReport reporterIP reporter target body]).

Definition handleAbuse (ctx : Ctx) (ip : string) (body : result (string * string)) : SM (list AbuseReport) (Response string) :=
  match body with
  | Panic => panicM
  | Err e => retM (BadRequest e)
  | Ok (target, text) =>
      match ctx_requester ctx with
      | None => retM (Forbidden "authentication required")
      | Some requester => ReportAbuse target text (e_ID requester) ip ;; retM (OK status_ok)
      end
  end.
End Handlers.
