(* ===== verification/Batch.v ===== *)
(** * Batch: several requests in one ([src/internal/present/rest/batch.go])

    A multipart request carries requests, each with a Content-ID.  All of them
    are parsed before any is run; then those a custom handler takes are run
    together, the others one by one, and the answers are written in the order
    of the parts.  Reading the multipart body and parsing a part are the
    standard library's; the application that serves a request is an argument. *)

From S2P Require Import Prelude Effects Bytes Url Cdid Ccuri Documents PolicyValues Store Queries Usecase Numbers.
From S2P Require Import Chunkline ChunkStore Rest.
From stdpp Require Import prelude strings gmap list sorting.
From Stdlib Require Import ZArith Lia Ascii.
Open Scope Z_scope.
Open Scope uc_scope.

(** [http.Request]; header keys are canonical. *)
Record Request : Type := mkRequest {
  rq_Method : string;
  rq_Scheme : string;
  rq_URLHost : string;
  rq_Host : string;
  rq_Path : string;
  rq_Query : Values;
  rq_Header : gmap string string;
  rq_Body : string;
}.

(** [http.Response] as far as it is written. *)
Record Reply : Type := mkReply { rp_Status : Z; rp_Header : gmap string string; rp_Body : string }.

(** What [NextPart] yields: a part with its two headers, and what
    [http.ReadRequest] makes of it; or the error the body ends with. *)
Inductive RawPart : Type :=
| PartRead (contentType contentID : string) (request : result Request)
| PartFailed.

Record batchRequestPart : Type := mkPart { contentID : string; request : Request }.

Definition maxBatchParts : nat := 1024.

(** [strings.EqualFold], of ASCII texts. *)
Definition EqualFold (a b : string) : bool := String.eqb (ToLower a) (ToLower b).

Definition newBatchTextResponse (status : Z) (body : string) : Reply :=
  mkReply status {["Content-Type" := "text/plain; charset=UTF-8"]} body.

(** [echo.NewHTTPError]. *)
Inductive Outcome : Type :=
| HTTPError (code : Z) (message : string)
| Answers (l : list (string * Reply)).

Definition bad (msg : string) : Outcome := HTTPError 400 msg.

(** The credentials of a part are removed. *)
Definition strip (rq : Request) : Request :=
  mkRequest (rq_Method rq) (rq_Scheme rq) (rq_URLHost rq) (rq_Host rq) (rq_Path rq) (rq_Query rq)
    (delete "Authorization" (delete "Captcha" (delete "Cookie" (rq_Header rq)))) (rq_Body rq).

Definition absolute (rq : Request) : bool := negb (String.eqb (rq_Scheme rq) "") || negb (String.eqb (rq_URLHost rq) "").

Definition localize (rq : Request) : Request :=
  mkRequest (rq_Method rq) "" "" (rq_URLHost rq) (rq_Path rq) (rq_Query rq) (rq_Header rq) (rq_Body rq).

Definition misdirected : Reply := newBatchTextResponse 421 "request target host does not match this server".

(** What parsing has collected. *)
Record Parsed : Type := mkParsed { parts : list batchRequestPart; seenIDs : gset string; responses : gmap string Reply }.

(** A parsed request is for another host, or for this one. *)
Definition accept_part (fqdn contentID : string) (rq : Request) (p : Parsed) : Parsed :=
  let rq := strip rq in
  if absolute rq && negb (EqualFold (rq_URLHost rq) fqdn) then
    mkParsed (parts p ++ [mkPart contentID rq]) (seenIDs p) (<[contentID := misdirected]> (responses p))
  else
    mkParsed (parts p ++ [mkPart contentID (if absolute rq then localize rq else rq)]) (seenIDs p) (responses p).

Fixpoint parse_parts (fqdn : string) (raw : list RawPart) (p : Parsed) : Parsed + Outcome :=
  match raw with
  | [] => inl p
  | PartFailed :: _ => inr (bad "failed to read multipart body")
  | PartRead contentType contentID rq :: raw =>
      if negb (EqualFold contentType "application/http") then parse_parts fqdn raw p
      else if String.eqb contentID "" then inr (bad "part is missing a Content-ID")
      else if bool_decide (contentID ∈ seenIDs p) then inr (bad ("duplicate Content-ID: " +:+ contentID))
      else
        match rq with
        | Ok rq =>
            if (maxBatchParts <=? length (parts p))%nat then inr (bad "batch exceeds the maximum of 1024 parts")
            else parse_parts fqdn raw
                   (accept_part fqdn contentID rq (mkParsed (parts p) ({[contentID]} ∪ seenIDs p) (responses p)))
        | _ => inr (bad "failed to parse part as HTTP request")
        end
  end.

Section Batch.
Context {S : Type}.

Record batchCustomHandler : Type := mkCustom {
  ch_match : Request → bool;
  ch_handle : list batchRequestPart → SM S (gmap string Reply);
}.

(** [app.ServeHTTP] under the outer request's context. *)
Context (serve : Request → SM S Reply).

(** The index of the first handler that takes a request. *)
Fixpoint taker (hs : list batchCustomHandler) (i : nat) (rq : Request) : option nat :=
  match hs with
  | [] => None
  | h :: hs => if ch_match h rq then Some i else taker hs (Datatypes.S i) rq
  end.

Definition pending (p : Parsed) : list batchRequestPart :=
  List.filter (λ part, negb (bool_decide (is_Some (responses p !! contentID part)))) (parts p).

Definition taken_by (hs : list batchCustomHandler) (i : option nat) (l : list batchRequestPart) : list batchRequestPart :=
  List.filter (λ part, bool_decide (taker hs 0 (request part) = i)) l.

(** The custom handlers in turn; their answers are added. *)
Fixpoint run_custom (hs : list batchCustomHandler) (i : nat) (all : list batchCustomHandler) (l : list batchRequestPart)
    (m : gmap string Reply) : SM S (gmap string Reply) :=
  match hs with
  | [] => retM m
  | h :: hs =>
      match taken_by all (Some i) l with
      | [] => run_custom hs (Datatypes.S i) all l m
      | ps => let* r := ch_handle h ps in run_custom hs (Datatypes.S i) all l (r ∪ m)
      end
  end.

Fixpoint run_default (l : list batchRequestPart) (m : gmap string Reply) : SM S (gmap string Reply) :=
  match l with
  | [] => retM m
  | part :: l => let* r := serve (request part) in run_default l (<[contentID part := r]> m)
  end.

Definition unanswered : Reply := newBatchTextResponse 500 "batch handler did not return a response".

Definition write_part (m : gmap string Reply) (part : batchRequestPart) : string * Reply :=
  (contentID part, default unanswered (m !! contentID part)).

(** [mediaType] and [boundary] are what [mime.ParseMediaType] found, if it did. *)
Definition batchHandler (fqdn : string) (hs : list batchCustomHandler) (media : option (string * string)) (raw : list RawPart)
    : SM S Outcome :=
  match media with
  | None => retM (bad "Content-Type must be multipart/mixed")
  | Some (mediaType, boundary) =>
      if negb (EqualFold mediaType "multipart/mixed") then retM (bad "Content-Type must be multipart/mixed")
      else if String.eqb boundary "" then retM (bad "missing boundary")
      else
        match parse_parts fqdn raw (mkParsed [] ∅ ∅) with
        | inr e => retM e
        | inl p =>
            let* m := run_custom hs 0 hs (pending p) (responses p) in
            let* m := run_default (taken_by hs None (pending p)) m in
            retM (Answers (write_part m <$> parts p))
        end
  end.
End Batch.
Arguments batchCustomHandler : clear implicits.
Arguments mkCustom {S}. Arguments ch_match {S}. Arguments ch_handle {S}.

(** ** Iterators in a batch ([chunklineItrBatchHandler] of [handler.go]) *)

Definition apiPrefix : string := "/api/v2".

Definition chunklineItrBatchChunk (path : string) : option string :=
  let prefix := apiPrefix +:+ "/chunkline/itr/" in
  if negb (Str.has_prefix path prefix) then None
  else
    let chunk := Str.trim_prefix path prefix in
    if String.eqb chunk "" || Str.contains_char chunk "/" then None else Some chunk.

Definition itr_match (rq : Request) : bool :=
  String.eqb (rq_Method rq) "GET" && bool_decide (is_Some (chunklineItrBatchChunk (rq_Path rq))).

(** The parts by their chunk; one without a chunk is answered at once. *)
Definition add_lookup (acc : gmap string Reply * gmap Z (list (string * string))) (part : batchRequestPart)
    : gmap string Reply * gmap Z (list (string * string)) :=
  let '(m, lookupsByChunk) := acc in
  match chunklineItrBatchChunk (rq_Path (request part)) with
  | None => (<[contentID part := newBatchTextResponse 404 "not found"]> m, lookupsByChunk)
  | Some chunk =>
      match ParseInt chunk with
      | Ok chunkID =>
          (m, <[chunkID := default [] (lookupsByChunk !! chunkID) ++
                  [(contentID part, QueryParam (rq_Query (request part)) "uri")]]> lookupsByChunk)
      | _ => (<[contentID part := newBatchTextResponse 400 "invalid chunk id"]> m, lookupsByChunk)
      end
  end.

Definition itr_reply (results : gmap string Z) (uri : string) : Reply :=
  match results !! uri with
  | None => newBatchTextResponse 404 "no iterator for the given uri and chunk"
  | Some itr => newBatchTextResponse 200 (FormatInt itr)
  end.

(** One query for the timelines of a chunk. *)
Definition answer_chunk (db : DB) (m : gmap string Reply) (c : Z * list (string * string)) : gmap string Reply :=
  let results := LookupLocalItrs db (snd c).*2 (fst c) in
  foldl (λ m l, <[fst l := itr_reply results (snd l)]> m) m (snd c).

Definition itr_handle (ps : list batchRequestPart) (db : DB) : gmap string Reply :=
  let '(m, lookupsByChunk) := foldl add_lookup (∅, ∅) ps in
  foldl (answer_chunk db) m (map_to_list lookupsByChunk).

Definition chunklineItrBatchHandler {S} (tables : S → DB) : batchCustomHandler S :=
  mkCustom itr_match (λ ps, getsM (λ st, itr_handle ps (tables st))).
