(* ===== verification/BatchFacts.v ===== *)
(** * BatchFacts: a batch is its requests, each answered once

    Nothing runs unless every part parses.  Then each part has one answer, in
    the order of the parts: what a custom handler says of it alone, or what the
    application answers when the remaining requests are served one after the
    other.  The iterator handler, which asks the database once per chunk, says
    of each part what the endpoint says. *)

From S2P Require Import Prelude Effects Bytes Url Cdid Ccuri Documents PolicyValues Store Queries Usecase Numbers.
From S2P Require Import Chunkline ChunkStore Rest Batch.
From stdpp Require Import prelude strings gmap list sorting.
From Stdlib Require Import ZArith Lia Ascii.
Open Scope Z_scope.
Open Scope uc_scope.

(** ** Parsing *)

Definition ids (l : list batchRequestPart) : list string := contentID <$> l.

Definition no_credentials (rq : Request) : Prop :=
  rq_Header rq !! "Authorization" = None ∧ rq_Header rq !! "Captcha" = None ∧ rq_Header rq !! "Cookie" = None.

(** The parts parsed so far: distinct, few, without credentials; the ones for
    another host, and no others, are answered. *)
Record parsed_ok (p : Parsed) : Prop := mkParsedOk {
  po_seen : ∀ id, id ∈ ids (parts p) → id ∈ seenIDs p;
  po_nodup : NoDup (ids (parts p));
  po_few : (length (parts p) <= maxBatchParts)%nat;
  po_clean : ∀ part, part ∈ parts p → no_credentials (request part);
  po_foreign : ∀ part, part ∈ parts p →
    responses p !! contentID part = if absolute (request part) then Some misdirected else None;
  po_dom : ∀ id, is_Some (responses p !! id) → id ∈ ids (parts p);
}.

Lemma strip_clean rq : no_credentials (strip rq).
Proof.
  unfold no_credentials, strip. cbn. rewrite lookup_delete_eq, !(lookup_delete_ne _ "Authorization") by done.
  by rewrite lookup_delete_eq, (lookup_delete_ne _ "Captcha"), lookup_delete_eq by done.
Qed.

Lemma accept_part_ok fqdn id rq p seen : parsed_ok (mkParsed (parts p) seen (responses p)) → id ∉ seen →
  (length (parts p) < maxBatchParts)%nat →
  parsed_ok (accept_part fqdn id rq (mkParsed (parts p) ({[id]} ∪ seen) (responses p))).
Proof.
  intros [Hseen Hnd _ Hclean Hfor Hdom] Hid Hfew. cbn in *.
  assert (id ∉ ids (parts p)) as Hnew by (intros Hin; by apply Hid, Hseen).
  assert (responses p !! id = None) as Hnone.
  { apply eq_None_not_Some. intros Hs. by apply Hnew, Hdom. }
  assert (∀ part, part ∈ parts p → contentID part ≠ id) as Hne.
  { intros part Hp <-. apply Hnew. by apply list_elem_of_fmap_2. }
  assert (∀ rq', no_credentials rq' → ∀ m, (∀ part, part ∈ parts p → m !! contentID part = responses p !! contentID part) →
    m !! id = (if absolute rq' then Some misdirected else None) →
    (∀ i, is_Some (m !! i) → i = id ∨ is_Some (responses p !! i)) →
    parsed_ok (mkParsed (parts p ++ [mkPart id rq']) ({[id]} ∪ seen) m)) as Hadd.
  { intros rq' Hc m Hold Hm Hd. constructor; cbn; unfold ids; try setoid_rewrite fmap_app; cbn.
    - intros i [Hi|Hi%list_elem_of_singleton]%elem_of_app; [apply elem_of_union; right; auto|set_solver].
    - apply NoDup_app. split; [done|]. split; [|apply NoDup_singleton]. intros i Hi Hi'%list_elem_of_singleton. by subst.
    - rewrite length_app. cbn. lia.
    - intros part [Hp|Hp%list_elem_of_singleton]%elem_of_app; [auto|by subst].
    - intros part [Hp|Hp%list_elem_of_singleton]%elem_of_app; [rewrite Hold by done; auto|by subst].
    - intros i Hi. apply elem_of_app. destruct (Hd i Hi) as [->|Hi']; [right; by left|left; auto]. }
  unfold accept_part. cbn [parts seenIDs responses].
  destruct (absolute (strip rq)) eqn:Habs; cbn [andb].
  - destruct (negb (EqualFold _ _)).
    + apply Hadd; [apply strip_clean|intros part Hp; apply lookup_insert_ne; intros ?; by eapply Hne| |].
      * by rewrite Habs, lookup_insert_eq.
      * intros i Hi. destruct (decide (i = id)) as [->|Hi']; [by left|right]. by rewrite lookup_insert_ne in Hi.
    + apply Hadd; [apply strip_clean|done|done|by right].
  - apply Hadd; [apply strip_clean|done|by rewrite Habs|by right].
Qed.

Lemma parse_parts_ok fqdn raw p p' : parsed_ok p → parse_parts fqdn raw p = inl p' → parsed_ok p'.
Proof.
  revert p. induction raw as [|[ct id rq|] raw IH]; intros p Hp; cbn -[accept_part maxBatchParts]; [by intros [= <-]| |done].
  destruct (negb (EqualFold _ _)); [by apply IH|]. destruct (String.eqb id ""); [done|].
  case_bool_decide as Hid; [done|]. destruct rq as [rq| |]; [|done..]. destruct (Nat.leb_spec maxBatchParts (length (parts p))); [done|].
  apply IH. apply accept_part_ok; [by destruct p|done|lia].
Qed.

Lemma empty_parsed : parsed_ok (mkParsed [] ∅ ∅).
Proof. constructor; cbn; [by intros ? ?%elem_of_nil|constructor|lia|by intros ? ?%elem_of_nil..|]. intros id [? Hi]. by rewrite lookup_empty in Hi. Qed.

Lemma parse_parts_code fqdn raw p e : parse_parts fqdn raw p = inr e → ∃ msg, e = bad msg.
Proof.
  revert p. induction raw as [|[ct id rq|] raw IH]; intros p; cbn -[accept_part maxBatchParts]; [done| |intros [= <-]; eauto].
  destruct (negb (EqualFold _ _)); [apply IH|]. destruct (String.eqb id ""); [intros [= <-]; eauto|].
  case_bool_decide; [intros [= <-]; eauto|]. destruct rq; [|intros [= <-]; eauto..].
  destruct (Nat.leb maxBatchParts (length (parts p))); [intros [= <-]; eauto|]. apply IH.
Qed.

(** The requests submitted: the parts of type application/http, in order. *)
Definition submitted_part (raw : RawPart) : option (string * Request) :=
  match raw with
  | PartRead ct id (Ok rq) => if EqualFold ct "application/http" then Some (id, rq) else None
  | _ => None
  end.

Definition submitted (raw : list RawPart) : list (string * Request) := omap submitted_part raw.

Definition credentials : list string := ["Authorization"; "Captcha"; "Cookie"].

Definition foreign (fqdn : string) (rq : Request) : bool := absolute rq && negb (EqualFold (rq_URLHost rq) fqdn).

(** A request as it is run: what it asks for is as it was submitted, its
    credentials are gone, and unless it is for another host it is addressed to
    the host it named by a local path. *)
Record carried (fqdn : string) (rq rq' : Request) : Prop := mkCarried {
  ca_method : rq_Method rq' = rq_Method rq;
  ca_path : rq_Path rq' = rq_Path rq;
  ca_query : rq_Query rq' = rq_Query rq;
  ca_body : rq_Body rq' = rq_Body rq;
  ca_header : ∀ k, rq_Header rq' !! k = if bool_decide (k ∈ credentials) then None else rq_Header rq !! k;
  ca_foreign : absolute rq' = foreign fqdn rq;
  ca_host : rq_Host rq' = if absolute rq && negb (foreign fqdn rq) then rq_URLHost rq else rq_Host rq;
}.

Definition carries (fqdn : string) (s : string * Request) (part : batchRequestPart) : Prop :=
  contentID part = fst s ∧ carried fqdn (snd s) (request part).

(** What makes a body acceptable, part by part. *)
Definition well_formed (raw : RawPart) : Prop :=
  match raw with
  | PartFailed => False
  | PartRead ct id rq => EqualFold ct "application/http" = true → id ≠ "" ∧ is_ok rq = true
  end.

Lemma strip_header rq k :
  rq_Header (strip rq) !! k = if bool_decide (k ∈ credentials) then None else rq_Header rq !! k.
Proof.
  unfold strip, credentials. cbn. rewrite !lookup_delete. repeat case_decide; case_bool_decide as Hk; try done; set_solver.
Qed.

Lemma accept_part_carries fqdn id rq p : ∃ part,
  parts (accept_part fqdn id rq p) = parts p ++ [part] ∧ carries fqdn (id, rq) part.
Proof.
  unfold accept_part, carries. cbv zeta. change (absolute (strip rq)) with (absolute rq). change (rq_URLHost (strip rq)) with (rq_URLHost rq).
  fold (foreign fqdn rq). destruct (foreign fqdn rq) eqn:Hf.
  - exists (mkPart id (strip rq)). split; [done|]. split; [done|]. cbn [fst snd request]. assert (absolute rq = true) as Ha by (unfold foreign in Hf; by apply andb_true_iff in Hf as [? _]).
    constructor; try done; [apply strip_header|by rewrite Hf|by rewrite Ha, Hf].
  - exists (mkPart id (if absolute rq then localize (strip rq) else strip rq)). split; [done|]. split; [done|].
    cbn [fst snd request]. destruct (absolute rq) eqn:Ha; constructor; try done; try apply strip_header; by rewrite ?Ha, ?Hf.
Qed.

(** What parsing adds is what was submitted. *)
Lemma parse_parts_carries fqdn raw p p' : parse_parts fqdn raw p = inl p' →
  Forall well_formed raw ∧ ∃ ps, parts p' = parts p ++ ps ∧ Forall2 (carries fqdn) (submitted raw) ps.
Proof.
  revert p. induction raw as [|[ct id rq|] raw IH]; intros p; cbn -[accept_part maxBatchParts]; [|destruct (EqualFold ct _) eqn:Hct; cbn -[accept_part maxBatchParts]|done].
  - intros [= <-]. split; [done|]. exists []. by rewrite app_nil_r.
  - destruct (String.eqb_spec id ""); [done|]. case_bool_decide; [done|]. destruct rq as [rq| |]; [|done..].
    destruct (Nat.leb maxBatchParts (length (parts p))); [done|].
    intros (Hwf & ps & Hps & Hc)%IH. split; [constructor; done|].
    destruct (accept_part_carries fqdn id rq (mkParsed (parts p) ({[id]} ∪ seenIDs p) (responses p))) as (part & Ha & Hpart).
    rewrite Ha in Hps. cbn [parts] in Hps. exists (part :: ps). rewrite Hps, <- app_assoc. split; [done|].
    by constructor.
  - intros (Hwf & ps & Hps & Hc)%IH. split; [constructor; [cbn; congruence|done]|]. exists ps. split; [done|].
    by destruct rq.
Qed.

(** ** Running *)

Section Run.
Context {S : Type} (serve : Request → SM S Reply).

Lemma run_default_forM l m st : NoDup (ids l) →
  run_default serve l m st =
  match forM serve (request <$> l) st with
  | (Ok rs, st') => (Ok (list_to_map (zip (ids l) rs) ∪ m), st')
  | (Err e, st') => (Err e, st')
  | (Panic, st') => (Panic, st')
  end.
Proof.
  revert m st. induction l as [|part l IH]; intros m st; cbn [ids fmap list_fmap run_default forM].
  - intros _. cbn. by rewrite (left_id_L ∅ (∪)).
  - intros [Hid Hnd]%NoDup_cons. unfold bindM. destruct (serve (request part) st) as [[r| |] st1]; [|done..].
    rewrite IH by done. destruct (forM serve (request <$> l) st1) as [[rs| |] st2]; [|done..]. cbn. f_equal. f_equal.
    rewrite <- insert_union_l, insert_union_r; [done|]. apply not_elem_of_list_to_map_1. intros Hin. apply Hid.
    unfold ids in *. clear -Hin. revert rs Hin. induction (contentID <$> l) as [|i js IHi]; intros [|r rs]; cbn; try (by intros ?%elem_of_nil).
    intros [->|Hin]%elem_of_cons; [by left|right; eauto].
Qed.

(** What a custom handler promises: asked for several parts it changes nothing
    and answers each with what it says of that request alone. *)
Class AnswersAlone (h : batchCustomHandler S) (alone : Request → S → Reply) : Prop :=
  answers_alone ps st : NoDup (ids ps) → (∀ part, part ∈ ps → ch_match h (request part) = true) →
    ∃ m, ch_handle h ps st = (Ok m, st) ∧
      (∀ id, id ∉ ids ps → m !! id = None) ∧ ∀ part, part ∈ ps → m !! contentID part = Some (alone (request part) st).

(** The answer of a part: for another host, by the handler, by the application. *)
Definition reply_to (h : batchCustomHandler S) (alone : Request → S → Reply) (served : gmap string Reply) (st : S)
    (part : batchRequestPart) : option Reply :=
  if absolute (request part) then Some misdirected
  else if ch_match h (request part) then Some (alone (request part) st)
  else served !! contentID part.

Definition remaining (h : batchCustomHandler S) (l : list batchRequestPart) : list batchRequestPart :=
  List.filter (λ part, negb (absolute (request part)) && negb (ch_match h (request part))) l.

Lemma ids_filter f l : NoDup (ids l) → NoDup (ids (List.filter f l)).
Proof.
  induction l as [|part l IH]; [done|]. cbn. intros [Hid Hnd]%NoDup_cons. destruct (f part); [|auto].
  cbn. apply NoDup_cons. split; [|auto]. intros (p & Hp & Hin)%list_elem_of_fmap. apply elem_of_filter_b in Hin as [Hin _].
  apply Hid. rewrite Hp. by apply list_elem_of_fmap_2.
Qed.

Lemma ids_inj l part part' : NoDup (ids l) → part ∈ l → part' ∈ l → contentID part = contentID part' → part = part'.
Proof.
  induction l as [|x l IH]; [by intros _ ?%elem_of_nil|]. cbn. intros [Hid Hnd]%NoDup_cons.
  assert (∀ p, p ∈ l → contentID p ≠ contentID x) as Hx by (intros p Hp E; apply Hid; rewrite <- E; by apply list_elem_of_fmap_2).
  intros [->|Hp]%elem_of_cons [->|Hp']%elem_of_cons E; [done|by destruct (Hx part')|by destruct (Hx part)|auto].
Qed.

Lemma filter_ext_in {A} (f g : A → bool) l : (∀ x, x ∈ l → f x = g x) → List.filter f l = List.filter g l.
Proof.
  induction l as [|x l IH]; [done|]. intros Hfg. cbn. rewrite (Hfg x) by by left.
  rewrite IH; [done|]. intros y Hy. apply Hfg. by right.
Qed.

Lemma filter_filter {A} (f g : A → bool) l : List.filter f (List.filter g l) = List.filter (λ x, g x && f x) l.
Proof. induction l as [|x l IH]; [done|]. cbn. destruct (g x); cbn; [destruct (f x); by rewrite IH|done]. Qed.

Lemma remaining_eq h p : parsed_ok p → taken_by [h] None (pending p) = remaining h (parts p).
Proof.
  intros Hp. unfold taken_by, pending, remaining. rewrite filter_filter. apply filter_ext_in. intros part Hin.
  rewrite (po_foreign p Hp part Hin). cbn. destruct (absolute (request part)), (ch_match h (request part)); reflexivity.
Qed.

Definition handed (h : batchCustomHandler S) (l : list batchRequestPart) : list batchRequestPart :=
  List.filter (λ part, negb (absolute (request part)) && ch_match h (request part)) l.

Lemma handed_eq h p : parsed_ok p → taken_by [h] (Some 0%nat) (pending p) = handed h (parts p).
Proof.
  intros Hp. unfold taken_by, pending, handed. rewrite filter_filter. apply filter_ext_in. intros part Hin.
  rewrite (po_foreign p Hp part Hin). cbn. destruct (absolute (request part)), (ch_match h (request part)); reflexivity.
Qed.

Lemma run_custom_one h alone p st : parsed_ok p → AnswersAlone h alone →
  ∃ m, run_custom [h] 0 [h] (pending p) (responses p) st = (Ok m, st) ∧
    ∀ part, part ∈ parts p → m !! contentID part =
      (if absolute (request part) then Some misdirected
       else if ch_match h (request part) then Some (alone (request part) st) else None).
Proof.
  intros Hp Ha. cbn [run_custom]. rewrite handed_eq by done.
  assert (∀ part, part ∈ handed h (parts p) ↔ part ∈ parts p ∧ absolute (request part) = false ∧ ch_match h (request part) = true) as Hh.
  { intros part. unfold handed. rewrite elem_of_filter_b, andb_true_iff, negb_true_iff. done. }
  assert (∀ part, part ∈ parts p → contentID part ∈ ids (handed h (parts p)) → part ∈ handed h (parts p)) as Hback.
  { intros part Hin (part' & E & Hp')%list_elem_of_fmap. pose proof (proj1 (Hh part') Hp') as [Hin' _].
    by rewrite (ids_inj (parts p) part part' (po_nodup p Hp)). }
  destruct (answers_alone (handed h (parts p)) st) as (m & Hm & Hnone & Hsome).
  { apply ids_filter, Hp. }
  { intros part Hin. by apply Hh in Hin as (_ & _ & ?). }
  exists (m ∪ responses p). split.
  - destruct (handed h (parts p)) as [|x l] eqn:E; [|by rewrite (bindM_ok _ _ _ _ _ Hm)].
    unfold retM. f_equal. f_equal. apply map_eq. intros i. rewrite lookup_union, (Hnone i); [by rewrite (left_id_L None _)|].
    by intros ?%elem_of_nil.
  - intros part Hin. rewrite lookup_union, (po_foreign p Hp part Hin).
    destruct (decide (contentID part ∈ ids (handed h (parts p)))) as [Hid|Hid].
    + apply (Hback part Hin) in Hid. rewrite (Hsome part Hid). apply Hh in Hid as (_ & -> & ->). done.
    + rewrite (Hnone _ Hid). rewrite (left_id_L None _). destruct (absolute (request part)) eqn:Ea; [done|].
      destruct (ch_match h (request part)) eqn:Em; [|done]. destruct Hid. apply list_elem_of_fmap_2. by apply Hh.
Qed.

(** The answer found for a part is the one it should have. *)
Lemma answer_of h alone p (m : gmap string Reply) rs st part : parsed_ok p → part ∈ parts p →
  (∀ part, part ∈ parts p → m !! contentID part =
     (if absolute (request part) then Some misdirected
      else if ch_match h (request part) then Some (alone (request part) st) else None)) →
  let served := list_to_map (zip (ids (remaining h (parts p))) rs) : gmap string Reply in
  (served ∪ m) !! contentID part = reply_to h alone served st part.
Proof.
  intros Hp Hin Hmp served. rewrite lookup_union, (Hmp part Hin). unfold reply_to.
  destruct (negb (absolute (request part)) && negb (ch_match h (request part))) eqn:Hr.
  - apply andb_true_iff in Hr as [->%negb_true_iff ->%negb_true_iff]. by rewrite (right_id_L None _).
  - assert (served !! contentID part = None) as ->.
    { apply not_elem_of_list_to_map_1. intros Hid. apply list_elem_of_fmap in Hid as ([i r] & E' & Hz). cbn in E'. subst i.
      apply elem_of_zip_l in Hz. apply list_elem_of_fmap in Hz as (part' & E & Hp').
      apply elem_of_filter_b in Hp' as [Hin' Hf]. apply (ids_inj (parts p) part part' (po_nodup p Hp)) in E; [|done..].
      subst part'. congruence. }
    rewrite (left_id_L None _). by destruct (absolute (request part)), (ch_match h (request part)).
Qed.

(** C20: a batch that is answered is the requests submitted.  Every part of type
    application/http could be read and has an id of its own; those parts, at
    most a thousand and twenty-four, are run as submitted (method, path, query,
    body and headers) but for their credentials, and each has one answer, under
    its id and in the order of the parts: a part for another host is refused, a
    part the handler takes is answered as the handler says of it alone, and the
    others are what the application answers to them one after the other; what
    that leaves is the state. *)
Theorem batch_answers fqdn h alone media raw st l st' : AnswersAlone h alone →
  batchHandler serve fqdn [h] media raw st = (Ok (Answers l), st') →
  Forall well_formed raw ∧
  ∃ ps replies,
    Forall2 (carries fqdn) (submitted raw) ps ∧
    NoDup (ids ps) ∧ (length ps <= maxBatchParts)%nat ∧
    (∀ part, part ∈ ps → no_credentials (request part)) ∧
    forM serve (request <$> remaining h ps) st = (Ok replies, st') ∧
    l = (λ part, (contentID part,
           default unanswered (reply_to h alone (list_to_map (zip (ids (remaining h ps)) replies)) st part))) <$> ps.
Proof.
  intros Ha. unfold batchHandler. destruct media as [[mediaType boundary]|]; [|done].
  destruct (negb _); [done|]. destruct (String.eqb boundary ""); [done|].
  destruct (parse_parts fqdn raw _) as [p|e] eqn:Hparse; [|by apply parse_parts_code in Hparse as [msg ->]].
  apply (parse_parts_ok _ _ _ _ empty_parsed) in Hparse as Hp.
  destruct (parse_parts_carries _ _ _ _ Hparse) as (Hwf & ps & Hps & Hc). cbn in Hps. subst ps.
  destruct (run_custom_one h alone p st Hp Ha) as (m & Hm & Hmp). rewrite (bindM_ok _ _ _ _ _ Hm).
  unfold bindM. rewrite remaining_eq by done. rewrite run_default_forM by apply ids_filter, Hp.
  destruct (forM serve (request <$> remaining h (parts p)) st) as [[rs| |] st1] eqn:Hrun; [|done..].
  intros [= <- <-]. split; [done|]. exists (parts p), rs. split_and!; try apply Hp; [done..|].
  apply list_fmap_ext. intros i part Hin%list_elem_of_lookup_2. unfold write_part. f_equal. f_equal.
  by apply answer_of.
Qed.

(** a batch that is refused has run nothing: the answer is a 400 and the
    state is as it was. *)
Theorem batch_refused fqdn hs media raw st code msg st' :
  batchHandler serve fqdn hs media raw st = (Ok (HTTPError code msg), st') → code = 400 ∧ st' = st.
Proof.
  unfold batchHandler. destruct media as [[mediaType boundary]|]; [|by intros [= <- _ <-]].
  destruct (negb _); [by intros [= <- _ <-]|]. destruct (String.eqb boundary ""); [by intros [= <- _ <-]|].
  destruct (parse_parts fqdn raw _) as [p|e] eqn:Hparse.
  - intros (m & st1 & _ & Hr)%bindM_inv. apply bindM_inv in Hr as (m' & st2 & _ & Hr). done.
  - apply parse_parts_code in Hparse as [msg' ->]. by intros [= <- _ <-].
Qed.
End Run.

(** ** Iterators *)

(** The endpoint's answer as a part of a batch: the batch answers in plain
    text. *)
Definition as_text (r : result (Response unit)) : Reply :=
  match r with
  | Ok (Text code text) => newBatchTextResponse code text
  | Ok (Failure code msg _) => newBatchTextResponse code msg
  | _ => unanswered
  end.

Definition itr_alone (db : DB) (rq : Request) : Reply :=
  match chunklineItrBatchChunk (rq_Path rq) with
  | Some chunk => as_text (Rest.handleChunklineItr db (QueryParam (rq_Query rq) "uri") chunk)
  | None => newBatchTextResponse 404 "not found"
  end.

Section Inserts.
Context {K A : Type} `{Countable K}.

Definition inserts (m : gmap K A) (l : list (K * A)) : gmap K A := foldl (λ m p, <[fst p := snd p]> m) m l.

Lemma inserts_lookup m l k :
  (∃ v, (k, v) ∈ l ∧ inserts m l !! k = Some v) ∨ ((∀ v, (k, v) ∉ l) ∧ inserts m l !! k = m !! k).
Proof.
  revert m. induction l as [|[k' v'] l IH]; intros m; cbn.
  - right. split; [|done]. by intros v ?%elem_of_nil.
  - destruct (IH (<[k' := v']> m)) as [(v & Hv & Hl)|[Hno Hl]].
    + left. exists v. split; [by right|done].
    + unfold inserts in Hl. destruct (decide (k = k')) as [->|Hne].
      * left. exists v'. split; [by left|]. rewrite Hl. apply lookup_insert_eq.
      * right. split; [|rewrite Hl; by apply lookup_insert_ne]. intros v [[= ? ?]|Hv]%elem_of_cons; [done|by apply (Hno v)].
Qed.
End Inserts.

(** What a part's path and query ask for. *)
Inductive Asked : Type := NotAChunk | InvalidChunk | AskedFor (chunkID : Z) (uri : string).

Definition asked (rq : Request) : Asked :=
  match chunklineItrBatchChunk (rq_Path rq) with
  | None => NotAChunk
  | Some chunk =>
      match ParseInt chunk with Ok c => AskedFor c (QueryParam (rq_Query rq) "uri") | _ => InvalidChunk end
  end.

(** The answer that needs no query. *)
Definition immediate (rq : Request) : option Reply :=
  match asked rq with
  | NotAChunk => Some (newBatchTextResponse 404 "not found")
  | InvalidChunk => Some (newBatchTextResponse 400 "invalid chunk id")
  | AskedFor _ _ => None
  end.

Definition immediate_part (part : batchRequestPart) : option (string * Reply) :=
  pair (contentID part) <$> immediate (request part).

Lemma add_lookup_eq m l part :
  add_lookup (m, l) part =
  (match immediate (request part) with Some r => <[contentID part := r]> m | None => m end,
   match asked (request part) with
   | AskedFor c uri => <[c := default [] (l !! c) ++ [(contentID part, uri)]]> l
   | _ => l
   end).
Proof.
  unfold add_lookup, immediate, asked. destruct (chunklineItrBatchChunk _) as [chunk|]; [|done].
  by destruct (ParseInt chunk).
Qed.

Lemma add_lookups_immediate ps m l :
  (foldl add_lookup (m, l) ps).1 = inserts m (omap immediate_part ps).
Proof.
  revert m l. induction ps as [|part ps IH]; intros m l; [done|].
  cbn [foldl]. rewrite add_lookup_eq, IH. cbn. unfold immediate_part at 2. by destruct (immediate (request part)).
Qed.

Lemma add_lookups_asked ps m l c id uri :
  (id, uri) ∈ default [] ((foldl add_lookup (m, l) ps).2 !! c) ↔
  (id, uri) ∈ default [] (l !! c) ∨ ∃ part, part ∈ ps ∧ contentID part = id ∧ asked (request part) = AskedFor c uri.
Proof.
  revert m l. induction ps as [|part ps IH]; intros m l.
  - cbn. split; [by left|intros [?|(part & ?%elem_of_nil & _)]; done].
  - cbn [foldl]. rewrite add_lookup_eq, IH. clear IH. setoid_rewrite elem_of_cons.
    destruct (asked (request part)) as [| |c' uri'] eqn:Ha.
    1,2: split; [naive_solver|intros [?|(p & [->|?] & ? & ?)]; [naive_solver|congruence|naive_solver]].
    destruct (decide (c' = c)) as [->|Hne].
    + rewrite lookup_insert_eq. cbn. rewrite elem_of_app, list_elem_of_singleton. split.
      * intros [[?|[= -> ->]]|(p & ? & ?)]; [by left|right; exists part; auto|right; exists p; auto].
      * intros [?|(p & [->|?] & <- & Hp)]; [by left; left|left; right; congruence|right; eauto].
    + rewrite lookup_insert_ne by done. split; [intros [?|(p & ? & ?)]; [by left|right; exists p; auto]|].
      intros [?|(p & [->|?] & <- & Hp)]; [by left|congruence|right; eauto].
Qed.

(** The answers of the queries, in the order they are put in. *)
Definition queried (db : DB) (lookups : gmap Z (list (string * string))) : list (string * Reply) :=
  map_to_list lookups ≫= λ c, (λ l, (fst l, itr_reply (LookupLocalItrs db (snd c).*2 (fst c)) (snd l))) <$> snd c.

Lemma itr_handle_eq ps db :
  let '(m, lookups) := foldl add_lookup (∅, ∅) ps in
  itr_handle ps db = inserts (inserts ∅ (omap immediate_part ps)) (queried db lookups).
Proof.
  pose proof (add_lookups_immediate ps ∅ ∅) as Hm. unfold itr_handle. destruct (foldl add_lookup (∅, ∅) ps) as [m lookups].
  cbn in Hm. subst m. generalize (inserts ∅ (omap immediate_part ps)) as m. unfold queried.
  induction (map_to_list lookups) as [|c l IH]; intros m; cbn; [done|]. unfold inserts in *. rewrite foldl_app. rewrite IH.
  f_equal. unfold answer_chunk. generalize (LookupLocalItrs db (snd c).*2 (fst c)) as results. intros results.
  clear IH. revert m. induction (snd c) as [|x xs IHx]; intros m; cbn; [done|]. apply IHx.
Qed.

Lemma elem_of_queried db lookups id r :
  (id, r) ∈ queried db lookups ↔
  ∃ c uri, (id, uri) ∈ default [] (lookups !! c) ∧ r = itr_reply (LookupLocalItrs db (default [] (lookups !! c)).*2 c) uri.
Proof.
  unfold queried. rewrite list_elem_of_bind. split.
  - intros ([c l] & Hin & Hc%elem_of_map_to_list). apply list_elem_of_fmap in Hin as ([i uri] & [= -> ->] & Hin).
    exists c, uri. by rewrite Hc.
  - intros (c & uri & Hin & ->). destruct (lookups !! c) as [l|] eqn:Hc; [|by apply elem_of_nil in Hin].
    exists (c, l). split; [|by apply elem_of_map_to_list]. apply list_elem_of_fmap. by exists (id, uri).
Qed.

(** One query for many timelines answers each as a query for it alone. *)
Lemma itr_reply_alone db uris c uri : uri ∈ uris →
  itr_reply (LookupLocalItrs db uris c) uri = itr_reply (LookupLocalItrs db [uri] c) uri.
Proof.
  intros Hin. unfold itr_reply, LookupLocalItrs. rewrite !lookup_map_of, decide_True by done.
  rewrite decide_True by (by left). done.
Qed.

Lemma ParseInt_no_panic s : ParseInt s ≠ Panic.
Proof.
  assert (∀ s acc, parse_digits acc s ≠ Panic) as Hd.
  { clear s. induction s as [|c s IH]; intros acc; cbn; [done|]. destruct (digit_of c); [apply IH|done]. }
  unfold ParseInt. destruct (match s with String _ _ => _ | _ => _ end) as [neg digits].
  destruct (String.eqb digits ""); [done|]. specialize (Hd digits 0). cbn.
  destruct (parse_digits 0 digits); cbn; [by destruct (_ && _)|done|done].
Qed.

Lemma itr_alone_eq db rq :
  itr_alone db rq = match asked rq with
                    | AskedFor c uri => itr_reply (LookupLocalItrs db [uri] c) uri
                    | _ => default unanswered (immediate rq)
                    end.
Proof.
  unfold itr_alone, immediate, asked. destruct (chunklineItrBatchChunk (rq_Path rq)) as [chunk|]; [|done].
  unfold Rest.handleChunklineItr, with_chunk, as_text, itr_reply. destruct (ParseInt chunk) eqn:Hp; [|done|].
  - by destruct (LookupLocalItrs db _ _ !! _).
  - by destruct (ParseInt_no_panic chunk).
Qed.

(** asked for the iterators of many timelines at once, the batch answers each
    part with what the endpoint answers to it alone, and changes nothing. *)
Theorem itr_batch_alone {S} (tables : S → DB) :
  AnswersAlone (chunklineItrBatchHandler tables) (λ rq st, itr_alone (tables st) rq).
Proof.
  intros ps st Hnd _. exists (itr_handle ps (tables st)). split; [done|]. generalize (tables st) as db. intros db.
  pose proof (itr_handle_eq ps db) as Heq. pose proof (λ c id uri, add_lookups_asked ps ∅ ∅ c id uri) as Hasked.
  destruct (foldl add_lookup (∅, ∅) ps) as [m lookups]. rewrite Heq. cbn in Hasked. clear Heq.
  assert (∀ c id uri, (id, uri) ∈ default [] (lookups !! c) → ∃ part, part ∈ ps ∧ contentID part = id ∧ asked (request part) = AskedFor c uri) as Hof.
  { intros c id uri Hin. apply Hasked in Hin as [Hin|?]; [rewrite lookup_empty in Hin; by apply elem_of_nil in Hin|done]. }
  assert (∀ id r, (id, r) ∈ omap immediate_part ps → ∃ part, part ∈ ps ∧ contentID part = id ∧ immediate (request part) = Some r) as Him.
  { intros id r Hin. apply list_elem_of_omap in Hin as (part & Hp & E). exists part. unfold immediate_part in E.
    destruct (immediate (request part)); cbn in E; [|done]. by injection E as -> ->. }
  split.
  - intros id Hid. destruct (inserts_lookup (inserts ∅ (omap immediate_part ps)) (queried db lookups) id) as [(r & Hr & _)|[_ ->]].
    + apply elem_of_queried in Hr as (c & uri & Hin & _). apply Hof in Hin as (part & Hp & <- & _). destruct Hid. by apply list_elem_of_fmap_2.
    + destruct (inserts_lookup ∅ (omap immediate_part ps) id) as [(r & Hr & _)|[_ ->]]; [|apply lookup_empty].
      apply Him in Hr as (part & Hp & <- & _). destruct Hid. by apply list_elem_of_fmap_2.
  - intros part Hp. rewrite itr_alone_eq.
    destruct (inserts_lookup (inserts ∅ (omap immediate_part ps)) (queried db lookups) (contentID part)) as [(r & Hr & ->)|[Hno ->]].
    + apply elem_of_queried in Hr as (c & uri & Hin & ->). pose proof (Hof _ _ _ Hin) as (part' & Hp' & E & Ha).
      apply (ids_inj ps) in E; [|done..]. subst part'. rewrite Ha. f_equal. apply itr_reply_alone.
      apply list_elem_of_fmap. by exists (contentID part, uri).
    + destruct (inserts_lookup ∅ (omap immediate_part ps) (contentID part)) as [(r & Hr & ->)|[Hno' _]].
      * apply Him in Hr as (part' & Hp' & E & Hi). apply (ids_inj ps) in E; [|done..]. subst part'.
        rewrite Hi. unfold immediate in Hi. by destruct (asked (request part)).
      * exfalso. destruct (asked (request part)) as [| |c uri] eqn:Ha.
        1,2: apply (Hno' (default unanswered (immediate (request part)))); apply list_elem_of_omap; exists part;
             (split; [done|]); unfold immediate_part, immediate; by rewrite Ha.
        apply (Hno (itr_reply (LookupLocalItrs db (default [] (lookups !! c)).*2 c) uri)). apply elem_of_queried.
        exists c, uri. split; [|done]. apply Hasked. right. by exists part.
Qed.

(** ** A batch on the busy server of [ChunkStore]

    Two iterators, a part for another host and one the application answers; the
    state counts the requests served. *)

Definition counting (rq : Request) : SM (DB * nat) Reply := λ st,
  (Ok (newBatchTextResponse 200 (rq_Path rq)), (fst st, S (snd st))).

Definition part_of (id path uri host : string) : RawPart :=
  PartRead "application/http" id (Ok (mkRequest "GET" (if String.eqb host "" then "" else "https") host "" path {["uri" := uri]}
    {["Authorization" := "Bearer token"]} "")).

Definition example_batch : list RawPart :=
  [part_of "1" "/api/v2/chunkline/itr/10" "cckv://a/home" ""; part_of "2" "/api/v2/chunkline/itr/10" "cckv://a/none" "HOST";
   part_of "3" "/api/v2/query" "" ""; part_of "4" "/api/v2/query" "" "elsewhere"].

Definition example_handler : batchCustomHandler (DB * nat) := chunklineItrBatchHandler fst.

Definition example_answers : list (string * Reply) :=
  match batchHandler counting "host" [example_handler] (Some ("multipart/mixed", "b")) example_batch (example_timelines, 0%nat) with
  | (Ok (Answers l), _) => l | _ => [] end.

Lemma batch_answers_witness :
  rp_Status <$> example_answers.*2 = [200; 404; 200; 421] ∧
  example_answers.*1 = ["1"; "2"; "3"; "4"] ∧ (submitted example_batch).*1 = ["1"; "2"; "3"; "4"] ∧
  Forall well_formed example_batch ∧
  ∃ ps replies,
    Forall2 (carries "host") (submitted example_batch) ps ∧
    NoDup (ids ps) ∧ (length ps <= maxBatchParts)%nat ∧
    (∀ part, part ∈ ps → no_credentials (request part)) ∧
    forM counting (request <$> remaining example_handler ps) (example_timelines, 0%nat) = (Ok replies, (example_timelines, 1%nat)) ∧
    example_answers = (λ part, (contentID part,
       default unanswered (reply_to example_handler (λ rq st, itr_alone (fst st) rq)
         (list_to_map (zip (ids (remaining example_handler ps)) replies)) (example_timelines, 0%nat) part))) <$> ps.
Proof.
  do 3 (split; [vm_compute; reflexivity|]).
  apply (batch_answers counting "host" example_handler (λ rq st, itr_alone (fst st) rq) (Some ("multipart/mixed", "b"))
    example_batch (example_timelines, 0%nat)); [apply itr_batch_alone|vm_compute; reflexivity].
Defined.

(** The second part has the id of the first. *)
Definition refused_batch : list RawPart := [part_of "1" "/api/v2/query" "" ""; part_of "1" "/api/v2/query" "" ""].

Lemma batch_refused_witness :
  let out := batchHandler counting "host" [example_handler] (Some ("multipart/mixed", "b")) refused_batch (example_timelines, 0%nat) in
  out = (Ok (HTTPError 400 "duplicate Content-ID: 1"), (example_timelines, 0%nat)) ∧
  400 = 400 ∧ (example_timelines, 0%nat) = (example_timelines, 0%nat).
Proof.
  intros out. split; [vm_compute; reflexivity|].
  apply (batch_refused counting "host" [example_handler] (Some ("multipart/mixed", "b")) refused_batch
    (example_timelines, 0%nat) 400 "duplicate Content-ID: 1" (example_timelines, 0%nat)). vm_compute. reflexivity.
Defined.
