(* ===== verification/Notification.v ===== *)
(** * Notification: push notifications

    The subscriptions and their counters
    ([src/internal/usecase/notification/notification.go],
    [postgres/notification.go], the counters of [src/internal/infra/kvs]), their
    endpoints in [handler.go], and the reactor that turns events into pushes
    ([src/internal/worker/NotificationReactor.go], claims of
    [src/internal/infra/pubsub/dedup.go]).  What a replica does with an event is
    a task of several steps, so that replicas and workers interleave. *)

From S2P Require Import Prelude Effects Bytes Url Cdid Ccuri Documents PolicyValues Store Queries Numbers Usecase Rest.
From stdpp Require Import prelude strings gmap list.
From Stdlib Require Import ZArith Lia Ascii.
Open Scope Z_scope.
Open Scope uc_scope.

(** [domain.NotificationSubscription] *)
Record NotificationSubscription : Type := mkSubscription {
  VendorID : string;
  ns_Owner : string;
  Schemas : list string;
  ns_Prefixes : list string;
  Subscription : string;
  CDate : Z;
  MDate : Z;
}.

#[export] Instance subscription_dec : EqDecision NotificationSubscription.
Proof. solve_decision. Defined.

(** The row GORM's [Save] leaves at a time, from the row that was there. *)
Class SaveSubscription := save_row : Z → option NotificationSubscription → NotificationSubscription → NotificationSubscription.

(** GORM's documentation: [Save] updates every field of an existing row and
    inserts one otherwise; a field with [autoUpdateTime] is set to the time of
    an update. *)
Definition saves_all (S : SaveSubscription) : Prop := ∀ now old s,
  let r := @save_row S now old s in
  VendorID r = VendorID s ∧ ns_Owner r = ns_Owner s ∧ Schemas r = Schemas s ∧ ns_Prefixes r = ns_Prefixes s ∧
  Subscription r = Subscription s ∧ (is_Some old → MDate r = now ∧ CDate r = CDate s).

(** ** The use case *)

(** Rows, counters, and the counter resets pushed to devices. *)
Record Notifications : Type := mkNotifications {
  rows : gmap (string * string) NotificationSubscription;
  counters : gmap string Z;
  resets : list NotificationSubscription;
}.

Definition set_rows r n := mkNotifications r (counters n) (resets n).
Definition set_counters c n := mkNotifications (rows n) c (resets n).

Definition NM (A : Type) : Type := SM Notifications A.

Definition notificationCounterKey (vendorID owner : string) : string :=
  "notification_counter:" +:+ vendorID +:+ ":" +:+ owner.

(** Redis: an increment past [int64] is an error, a missing key reads as 0. *)
Definition Incr (key : string) : NM Z := λ n,
  let v := default 0 (counters n !! key) + 1 in
  if v <? 2 ^ 63 then (Ok v, set_counters (<[key := v]> (counters n)) n)
  else (Err (GoError "ERR increment or decrement would overflow"), n).
Definition GetInt (key : string) : NM Z := getsM (λ n, default 0 (counters n !! key)).
Definition DeleteKey (key : string) : NM unit := modifyM (λ n, set_counters (delete key (counters n)) n).

Section Usecase.
Context `{SaveSubscription}.

Definition repo_Subscribe (now : Z) (s : NotificationSubscription) : NM NotificationSubscription := λ n,
  let key := (VendorID s, ns_Owner s) in
  let row := save_row now (rows n !! key) s in
  (Ok row, set_rows (<[key := row]> (rows n)) n).

Definition List_ : NM (list NotificationSubscription) := getsM (λ n, (map_to_list (rows n)).*2).

Definition Get (vendorID owner : string) : NM NotificationSubscription := λ n,
  (of_option (NotFoundError "notification subscription" "" "") (rows n !! (vendorID, owner)), n).

Definition repo_Delete (vendorID owner : string) : NM unit := modifyM (λ n, set_rows (delete (vendorID, owner) (rows n)) n).

Definition Delete (vendorID owner : string) : NM unit :=
  repo_Delete vendorID owner ;; DeleteKey (notificationCounterKey vendorID owner).

Definition IncrementCounter (vendorID owner : string) : NM Z := Incr (notificationCounterKey vendorID owner).
Definition GetCounter (vendorID owner : string) : NM Z := GetInt (notificationCounterKey vendorID owner).

(** [pusher]: whether web push is configured.  The push itself is best effort. *)
Definition ResetCounter (pusher : bool) (vendorID owner : string) : NM unit :=
  DeleteKey (notificationCounterKey vendorID owner) ;;
  if negb pusher then retM tt
  else
    let* sub := tryM (Get vendorID owner) in
    match sub with
    | Ok sub => modifyM (λ n, mkNotifications (rows n) (counters n) (resets n ++ [sub]))
    | Err e => if is_not_found e then retM tt else failM e
    | Panic => panicM
    end.

(** ** The endpoints *)

Definition requireNotificationOwner (ctx : Ctx) (owner : string) : result unit :=
  match ctx_requester ctx with
  | None => Err (PermissionError "authentication required")
  | Some requester => if String.eqb (e_ID requester) owner then Ok tt else Err (PermissionError "owner mismatch")
  end.

(** The two path parameters and the check every endpoint starts with. *)
Definition as_owner {T} (ctx : Ctx) (ownerParam vendorParam : string) (k : string → string → NM (Response T)) : NM (Response T) :=
  match PathUnescape ownerParam, PathUnescape vendorParam with
  | Panic, _ => panicM
  | Err _, _ => retM (BadRequestMessage "invalid owner")
  | Ok _, Panic => panicM
  | Ok _, Err _ => retM (BadRequestMessage "invalid vendor_id")
  | Ok owner, Ok vendorID =>
      match requireNotificationOwner ctx owner with
      | Ok _ => k owner vendorID
      | Err e => retM (Forbidden (error_text e))
      | Panic => panicM
      end
  end.

Definition handleSubscribeNotification (now : Z) (ctx : Ctx) (ownerParam vendorParam : string)
    (body : result NotificationSubscription) : NM (Response NotificationSubscription) :=
  as_owner ctx ownerParam vendorParam (λ owner vendorID,
    match body with
    | Panic => panicM
    | Err e => retM (BadRequest e)
    | Ok s =>
        let s := mkSubscription vendorID owner (Schemas s) (ns_Prefixes s) (Subscription s) (CDate s) (MDate s) in
        if bool_decide (ns_Prefixes s = []) then retM (BadRequestMessage "prefixes must not be empty")
        else if String.eqb (Subscription s) "" then retM (BadRequestMessage "subscription must not be empty")
        else
          let* r := tryM (repo_Subscribe now s) in
          liftM (respond (JSON 201) InternalError r)
    end).

Definition handleGetNotification (ctx : Ctx) (ownerParam vendorParam : string) : NM (Response NotificationSubscription) :=
  as_owner ctx ownerParam vendorParam (λ owner vendorID,
    let* r := tryM (Get vendorID owner) in
    liftM (respond OK (λ e, if is_not_found e then NotFound "notification subscription not found" else InternalError e) r)).

Definition handleDeleteNotification (ctx : Ctx) (ownerParam vendorParam : string) : NM (Response unit) :=
  as_owner ctx ownerParam vendorParam (λ owner vendorID,
    let* r := tryM (Delete vendorID owner) in liftM (respond (λ _, NoContent 204) InternalError r)).

Definition handleGetNotificationCounter (ctx : Ctx) (ownerParam vendorParam : string) : NM (Response Z) :=
  as_owner ctx ownerParam vendorParam (λ owner vendorID,
    let* r := tryM (GetCounter vendorID owner) in liftM (respond OK InternalError r)).

Definition handleResetNotificationCounter (pusher : bool) (ctx : Ctx) (ownerParam vendorParam : string) : NM (Response unit) :=
  as_owner ctx ownerParam vendorParam (λ owner vendorID,
    let* r := tryM (ResetCounter pusher vendorID owner) in liftM (respond (λ _, NoContent 204) InternalError r)).
End Usecase.

(** ** What an event is to a subscription *)

Section Events.
Context `{Json}.

(** The schema a subscription filters on: a reference's is its target's. *)
Definition effectiveSchema (sd : SignedDocument) : string :=
  match unmarshal_document (sd_Document sd) with
  | Ok doc =>
      if negb (String.eqb (Schema doc) ReferenceURL) then Schema doc
      else
        match unmarshal_typed decode_reference (sd_Document sd) with
        | Ok refDoc =>
            let target :=
              match References sd !! ref_Href (Value refDoc) with
              | Some refSD =>
                  match unmarshal_document (sd_Document refSD) with
                  | Ok t => if String.eqb (Schema t) "" then None else Some (Schema t)
                  | _ => None
                  end
              | None => None
              end in
            match target, ref_Schema (Value refDoc) with
            | Some s, _ => s
            | None, Some s => s
            | None, None => Schema doc
            end
        | _ => Schema doc
        end
  | _ => ""
  end.

Definition document_matches (filter_ : list string) (sd : SignedDocument) : bool :=
  match unmarshal_document (sd_Document sd) with
  | Ok doc =>
      in_list filter_ (Schema doc) ||
      (negb (String.eqb (effectiveSchema sd) (Schema doc)) && in_list filter_ (effectiveSchema sd))
  | _ => false
  end.

Definition eventMatchesSchemas (event : Event) (filter_ : list string) : bool :=
  match filter_ with
  | [] => true
  | _ => existsb (λ p, document_matches filter_ (snd p)) (map_to_list (ev_References event))
  end.

(** [concrnt.NotificationPayload] *)
Record NotificationPayload : Type := mkPayload {
  np_Type : string;
  np_URI : string;
  np_Schema : string;
  np_Author : string;
  np_CreatedAt : Z;
  np_Badge : Z;
}.

Definition NotificationTypeNotification : string := "notification".

Definition buildNotificationPayload (event : Event) : NotificationPayload :=
  let plain uri := mkPayload NotificationTypeNotification uri "" "" (ev_Timestamp event) 0 in
  match ev_Association event with
  | None => plain (ev_URI event)
  | Some association =>
      match ev_References event !! association with
      | None => plain association
      | Some sd =>
          match unmarshal_document (sd_Document sd) with
          | Ok doc =>
              mkPayload NotificationTypeNotification association (effectiveSchema sd) (Author doc)
                (if CreatedAt doc =? zero_time then ev_Timestamp event else CreatedAt doc) 0
          | _ => mkPayload NotificationTypeNotification association (effectiveSchema sd) "" (ev_Timestamp event) 0
          end
      end
  end.

Definition with_badge (p : NotificationPayload) (badge : Z) : NotificationPayload :=
  mkPayload (np_Type p) (np_URI p) (np_Schema p) (np_Author p) (np_CreatedAt p) badge.
End Events.

(** [hex.EncodeToString(sha256.Sum256(s))]. *)
Class Sha256 := sha256_hex : string → string.

Definition dedup_text (event : Event) (sub : NotificationSubscription) : string :=
  ev_Source event +:+ "|" +:+ ev_URI event +:+ "|" +:+ ev_Type event +:+ "|" +:+ default "" (ev_Association event) +:+ "|" +:+
  FormatInt (int64 (ev_Timestamp event)) +:+ "|" +:+ VendorID sub +:+ "|" +:+ ns_Owner sub.

Definition notificationDedupKey `{Sha256} (event : Event) (sub : NotificationSubscription) : string :=
  "notification_dedup:" +:+ sha256_hex (dedup_text event sub).

(** ** The workers of a leader *)

(** A worker is known by its subscription's id, with the modification time it
    was started for and the goroutine it is. *)
Record Reactor : Type := mkReactor {
  workers : gmap string (Z * nat);
  running : gmap nat NotificationSubscription;
  unused : nat;
}.

Definition no_workers : Reactor := mkReactor ∅ ∅ 0.

Definition worker_id (sub : NotificationSubscription) : string := VendorID sub +:+ ns_Owner sub.

Definition start_worker (sub : NotificationSubscription) (r : Reactor) : Reactor :=
  mkReactor (<[worker_id sub := (MDate sub, unused r)]> (workers r)) (<[unused r := sub]> (running r)) (S (unused r)).

Definition cancel_worker (id : string) (r : Reactor) : Reactor :=
  match workers r !! id with
  | Some (_, n) => mkReactor (delete id (workers r)) (delete n (running r)) (unused r)
  | None => r
  end.

Definition sync_one (r : Reactor) (sub : NotificationSubscription) : Reactor :=
  match workers r !! worker_id sub with
  | Some (mdate, _) => if mdate =? MDate sub then r else start_worker sub (cancel_worker (worker_id sub) r)
  | None => start_worker sub r
  end.

Definition prune_one (valid : list string) (r : Reactor) (id : string) : Reactor :=
  if in_list valid id then r else cancel_worker id r.

Definition syncWorkers (subscriptions : result (list NotificationSubscription)) (r : Reactor) : Reactor :=
  match subscriptions with
  | Ok subs =>
      let r := foldl sync_one r subs in
      foldl (prune_one (worker_id <$> subs)) r (map_to_list (workers r)).*1
  | _ => r
  end.

(** ** An event on its way to a device

    What is left of [runWorker]'s loop body: to claim the key, to count, to
    send - with the key that was claimed, if one was - and to release it. *)
Inductive Handling : Type :=
| HClaim (event : Event) (sub : NotificationSubscription)
| HCount (claimed : option string) (event : Event) (sub : NotificationSubscription)
| HSend (claimed : option string) (event : Event) (sub : NotificationSubscription) (payload : NotificationPayload)
| HRelease (key : string).

Inductive SendOutcome := EncodeFailed | SendFailed | Status (code : Z).
Definition httpStatusCreated : Z := 201.
Definition delivered (o : SendOutcome) : bool := match o with Status code => code =? httpStatusCreated | _ => false end.

Record Push : Type := mkPush { pu_Event : Event; pu_Sub : NotificationSubscription; pu_Payload : NotificationPayload }.

(** Claims of redis, counters, tasks of every replica, pushes delivered. *)
Record Net : Type := mkNet {
  claims : gset string;
  store : Notifications;
  tasks : gmap nat Handling;
  next_task : nat;
  pushes : list Push;
}.

Definition quiet_net (n : Notifications) : Net := mkNet ∅ n ∅ 0 [].

Definition set_task (id : nat) (h : option Handling) (w : Net) : Net :=
  mkNet (claims w) (store w) (match h with Some h => <[id := h]> (tasks w) | None => delete id (tasks w) end) (next_task w) (pushes w).
Definition set_claims (c : gset string) (w : Net) : Net := mkNet c (store w) (tasks w) (next_task w) (pushes w).
Definition set_store (n : Notifications) (w : Net) : Net := mkNet (claims w) n (tasks w) (next_task w) (pushes w).
Definition add_push (p : Push) (w : Net) : Net := mkNet (claims w) (store w) (tasks w) (next_task w) (pushes w ++ [p]).

Inductive NetLabel : Type :=
| NReceive (sub : NotificationSubscription) (event : Event)
| NClaim (id : nat) (ok : bool)
| NCount (id : nat) (ok : bool)
| NSend (id : nat) (outcome : SendOutcome)
| NRelease (id : nat) (ok : bool)
| NExpire (key : string)
| NCrash (id : nat)
| NReset (vendorID owner : string).

Section Reacting.
Context `{Json} `{Sha256}.

(** [r.dedup != nil]. *)
Context (dedup : bool).

Definition release_claim (claimed : option string) : option Handling := HRelease <$> claimed.

Definition net_step (w : Net) (l : NetLabel) : option Net :=
  match l with
  | NReceive sub event =>
      Some (if eventMatchesSchemas event (Schemas sub) then
              mkNet (claims w) (store w)
                (<[next_task w := if dedup then HClaim event sub else HCount None event sub]> (tasks w)) (S (next_task w)) (pushes w)
            else w)
  | NClaim id ok =>
      match tasks w !! id with
      | Some (HClaim event sub) =>
          let key := notificationDedupKey event sub in
          Some (if negb ok then set_task id (Some (HCount None event sub)) w
                else if bool_decide (key ∈ claims w) then set_task id None w
                else set_task id (Some (HCount (Some key) event sub)) (set_claims ({[key]} ∪ claims w) w))
      | _ => None
      end
  | NCount id ok =>
      match tasks w !! id with
      | Some (HCount claimed event sub) =>
          let payload := buildNotificationPayload event in
          Some (if negb ok then set_task id (Some (HSend claimed event sub payload)) w
                else match IncrementCounter (VendorID sub) (ns_Owner sub) (store w) with
                     | (Ok count, n) => set_task id (Some (HSend claimed event sub (with_badge payload count))) (set_store n w)
                     | (_, n) => set_task id (Some (HSend claimed event sub payload)) (set_store n w)
                     end)
      | _ => None
      end
  | NSend id outcome =>
      match tasks w !! id with
      | Some (HSend claimed event sub payload) =>
          Some (if delivered outcome then add_push (mkPush event sub payload) (set_task id None w)
                else set_task id (release_claim claimed) w)
      | _ => None
      end
  | NRelease id ok =>
      match tasks w !! id with
      | Some (HRelease key) => Some (set_task id None (if (ok : bool) then set_claims (claims w ∖ {[key]}) w else w))
      | _ => None
      end
  | NExpire key => Some (set_claims (claims w ∖ {[key]}) w)
  | NCrash id => Some (set_task id None w)
  | NReset vendorID owner => Some (set_store (snd (ResetCounter false vendorID owner (store w))) w)
  end.

Fixpoint net_run (ls : list NetLabel) (w : Net) : option Net :=
  match ls with
  | [] => Some w
  | l :: ls => match net_step w l with Some w => net_run ls w | None => None end
  end.
End Reacting.
