(* ===== verification/NotificationFacts.v ===== *)
(** * NotificationFacts: one push per notification, one worker per subscription

    A push is delivered at most once while its claim lasts, and one that is
    withheld was or is being delivered by somebody else; the workers of the
    leader are the subscriptions of the table; a counter counts since its last
    reset; an endpoint touches the requester's own subscriptions only. *)

From S2P Require Import Prelude Effects Bytes Url Cdid Ccuri Documents PolicyValues Store Queries Numbers Usecase Rest.
From S2P Require Import Notification.
From stdpp Require Import prelude strings gmap list.
From Stdlib Require Import ZArith Lia Ascii.
Open Scope Z_scope.
Open Scope uc_scope.

(** ** Pushes *)

Section Pushes.
Context `{Json} `{Sha256}.

(** The key a task has claimed. *)
Definition claim_of (h : Handling) : option string :=
  match h with
  | HClaim _ _ => None
  | HCount claimed _ _ | HSend claimed _ _ _ => claimed
  | HRelease key => Some key
  end.

(** A task that came past its claim has the key of its event. *)
Definition rightful (h : Handling) : Prop :=
  match h with
  | HClaim _ _ | HRelease _ => True
  | HCount claimed event sub | HSend claimed event sub _ => claimed = Some (notificationDedupKey event sub)
  end.

Definition holds (w : Net) (k : string) (id : nat) : Prop := ∃ h, tasks w !! id = Some h ∧ claim_of h = Some k.

Definition push_key (p : Push) : string := notificationDedupKey (pu_Event p) (pu_Sub p).
Definition pushes_of (k : string) (w : Net) : list Push := List.filter (λ p, String.eqb (push_key p) k) (pushes w).

(** What the labels of a run leave out: expiry of the key's claim and errors of
    redis at a claim; and, to be sure of delivery, crashes and errors of redis
    at a release. *)
Definition claims_last (k : string) (l : NetLabel) : Prop :=
  match l with NExpire key => key ≠ k | NClaim _ ok => ok = true | _ => True end.
Definition releases_work (l : NetLabel) : Prop :=
  match l with NCrash _ => False | NRelease _ ok => ok = true | _ => True end.

Record push_inv (k : string) (sure : Prop) (w : Net) : Prop := mkPushInv {
  pi_fresh : ∀ id, is_Some (tasks w !! id) → (id < next_task w)%nat;
  pi_rightful : ∀ id h, tasks w !! id = Some h → rightful h;
  pi_claimed : ∀ id, holds w k id → k ∈ claims w;
  pi_one : ∀ id id', holds w k id → holds w k id' → id = id';
  pi_not_both : ∀ id, holds w k id → pushes_of k w = [];
  pi_pushed : pushes_of k w ≠ [] → k ∈ claims w;
  pi_count : (length (pushes_of k w) <= 1)%nat;
  pi_sure : sure → k ∈ claims w → (∃ id, holds w k id) ∨ pushes_of k w ≠ [];
}.

Lemma quiet_inv k sure n : push_inv k sure (quiet_net n).
Proof.
  assert (∀ id h, tasks (quiet_net n) !! id ≠ Some h) as Ht by (intros id h Hl; cbn in Hl; by rewrite lookup_empty in Hl).
  assert (∀ id, ¬ holds (quiet_net n) k id) as Hno by (intros id (h & Hl & _); by apply Ht in Hl).
  constructor; try (intros id Hid; by destruct (Hno id)).
  - intros id [h Hl]. by apply Ht in Hl.
  - intros id h Hl. by apply Ht in Hl.
  - intros id id' Hid. by destruct (Hno id).
  - intros Hp. by destruct Hp.
  - cbn. lia.
  - intros _ ?%elem_of_empty. done.
Qed.

(** A task is replaced by one with the same claim, or dropped. *)
Lemma set_task_inv k (sure : Prop) w id h h' : push_inv k sure w → tasks w !! id = Some h →
  (∀ x, h' = Some x → rightful x ∧ (claim_of x = Some k ↔ claim_of h = Some k)) → (sure → h' = None → claim_of h ≠ Some k) →
  push_inv k sure (set_task id h' w).
Proof.
  intros [Hf Hr Hc H1 Hn Hp Hct Hs] Hid Hh' Hdrop.
  assert (∀ i x, tasks (set_task id h' w) !! i = Some x →
    (i = id ∧ h' = Some x) ∨ (i ≠ id ∧ tasks w !! i = Some x)) as Hlook.
  { intros i x. unfold set_task. cbn. destruct h' as [y|].
    - intros [[<- <-]|[? ?]]%lookup_insert_Some; auto.
    - intros [? ?]%lookup_delete_Some. right. auto. }
  assert (∀ i, holds (set_task id h' w) k i → holds w k i) as Hback.
  { intros i (x & Hx & Hk). apply Hlook in Hx as [[-> ->]|[_ Hx]]; [|by exists x].
    exists h. split; [done|]. by apply (proj2 (Hh' x eq_refl)). }
  constructor; cbn; try done.
  - intros i [x Hx]. apply Hlook in Hx as [[-> _]|[_ Hx]]; apply Hf; eauto.
  - intros i x Hx. apply Hlook in Hx as [[-> ->]|[_ Hx]]; [by apply Hh'|by eapply Hr].
  - intros i Hi. eapply Hc. by apply Hback.
  - intros i i' Hi Hi'. apply H1; by apply Hback.
  - intros i Hi. eapply Hn. by apply Hback.
  - intros Hsure Hk. destruct (Hs Hsure Hk) as [(i & x & Hx & Hck)|Hpu]; [|by right].
    destruct (decide (i = id)) as [->|Hne].
    + simplify_eq. destruct h' as [y|]; [|by destruct (Hdrop Hsure eq_refl)].
      left. exists id, y. unfold set_task. cbn. rewrite lookup_insert_eq. split; [done|]. by apply (proj2 (Hh' y eq_refl)).
    + left. exists i, x. split; [|done]. unfold set_task. cbn. destruct h'; [by rewrite lookup_insert_ne|by rewrite lookup_delete_ne].
Qed.

Lemma set_claims_inv k sure w c : push_inv k sure w → (k ∈ c ↔ k ∈ claims w) → push_inv k sure (set_claims c w).
Proof.
  intros [Hf Hr Hc H1 Hn Hp Hct Hs] Hk. constructor; try done; intros; apply Hk || idtac; eauto.
  apply Hs; [done|by apply Hk].
Qed.

Lemma set_store_inv k sure w n : push_inv k sure w → push_inv k sure (set_store n w).
Proof. intros [Hf Hr Hc H1 Hn Hp Hct Hs]. by constructor. Qed.

Lemma set_task_holds w id h' k i : holds (set_task id h' w) k i ↔
  (i = id ∧ (∃ x, h' = Some x ∧ claim_of x = Some k)) ∨ (i ≠ id ∧ holds w k i).
Proof.
  unfold holds, set_task. cbn. destruct (decide (i = id)) as [->|Hne].
  - destruct h' as [x|]; [rewrite lookup_insert_eq; naive_solver|rewrite lookup_delete_eq; naive_solver].
  - destruct h' as [x|]; [rewrite lookup_insert_ne by done; naive_solver|rewrite lookup_delete_ne by done; naive_solver].
Qed.

Lemma set_task_rightful w id h' : (∀ i h, tasks w !! i = Some h → rightful h) → (∀ x, h' = Some x → rightful x) →
  ∀ i h, tasks (set_task id h' w) !! i = Some h → rightful h.
Proof.
  unfold set_task. cbn. intros Hr Hx i h. destruct h' as [x|].
  - intros [[_ <-]|[_ Hl]]%lookup_insert_Some; [by apply Hx|by eapply Hr].
  - intros [_ Hl]%lookup_delete_Some. by eapply Hr.
Qed.

Lemma set_task_fresh w id h h' : (∀ i, is_Some (tasks w !! i) → (i < next_task w)%nat) → tasks w !! id = Some h →
  ∀ i, is_Some (tasks (set_task id h' w) !! i) → (i < next_task w)%nat.
Proof.
  unfold set_task. cbn. intros Hf Hid i [x Hx]. destruct (decide (i = id)) as [->|Hne]; [eauto|].
  apply Hf. exists x. destruct h'; [by rewrite lookup_insert_ne in Hx|by rewrite lookup_delete_ne in Hx].
Qed.

(** The key is claimed for the first time. *)
Lemma grant_inv k sure w id event sub : push_inv k sure w → tasks w !! id = Some (HClaim event sub) → k ∉ claims w →
  notificationDedupKey event sub = k →
  push_inv k sure (set_task id (Some (HCount (Some k) event sub)) (set_claims ({[k]} ∪ claims w) w)).
Proof.
  intros [Hf Hr Hc H1 Hn Hp Hct Hs] Hid Hk Hkey.
  assert (∀ i, ¬ holds w k i) as Hno by (intros i Hh; by apply Hk, (Hc i)).
  assert (pushes_of k w = []) as Hpu by (destruct (pushes_of k w) eqn:E; [done|]; by destruct Hk; apply Hp).
  constructor.
  - by eapply (set_task_fresh (set_claims ({[k]} ∪ claims w) w)).
  - apply set_task_rightful; [done|]. intros x [= <-]. cbn [rightful]. by rewrite Hkey.
  - intros i _. cbn. set_solver.
  - intros i i' [[-> _]|[_ Hh]]%set_task_holds [[-> _]|[_ Hh']]%set_task_holds; [done|by destruct (Hno i')|by destruct (Hno i)|by destruct (Hno i)].
  - intros i _. exact Hpu.
  - intros Hx. by destruct Hx.
  - exact Hct.
  - intros _ _. left. exists id. apply set_task_holds. left. split; [done|]. by eexists.
Qed.

(** The push of the task that holds the key is delivered. *)
Lemma deliver_inv k sure w id event sub payload : push_inv k sure w →
  tasks w !! id = Some (HSend (Some (notificationDedupKey event sub)) event sub payload) →
  push_inv k sure (add_push (mkPush event sub payload) (set_task id None w)).
Proof.
  intros [Hf Hr Hc H1 Hn Hp Hct Hs] Hid. set (p := mkPush event sub payload). set (w' := set_task id None w).
  assert (∀ i, holds (add_push p w') k i ↔ i ≠ id ∧ holds w k i) as Hh.
  { intros i. transitivity (holds w' k i); [done|]. unfold w'. rewrite set_task_holds. naive_solver. }
  assert (pushes_of k (add_push p w') = pushes_of k w ++ (if String.eqb (notificationDedupKey event sub) k then [p] else [])) as Hpo.
  { unfold pushes_of. cbn. rewrite List.filter_app. f_equal. }
  destruct (String.eqb_spec (notificationDedupKey event sub) k) as [Hkey|Hkey].
  - assert (holds w k id) as Hhold by (eexists; split; [exact Hid|cbn; by f_equal]).
    rewrite (Hn id Hhold), app_nil_l in Hpo. constructor.
    + by eapply (set_task_fresh w id _ None).
    + by apply (set_task_rightful w id None).
    + intros i [_ Hi]%Hh. by apply (Hc i).
    + intros i i' [_ Hi]%Hh [_ Hi']%Hh. by apply H1.
    + intros i [Hne Hi]%Hh. destruct Hne. by apply H1.
    + intros _. by apply (Hc id).
    + rewrite Hpo. cbn. lia.
    + intros _ _. right. by rewrite Hpo.
  - rewrite app_nil_r in Hpo.
    assert (∀ i, i = id → ¬ holds w k i) as Hnot by (intros i -> (h & Hl & Hk); rewrite Hid in Hl; injection Hl as <-; cbn [claim_of] in Hk; by injection Hk).
    constructor; try rewrite Hpo; try done.
    + by eapply (set_task_fresh w id _ None).
    + by apply (set_task_rightful w id None).
    + intros i [_ Hi]%Hh. by apply (Hc i).
    + intros i i' [_ Hi]%Hh [_ Hi']%Hh. by apply H1.
    + intros i [_ Hi]%Hh. by apply (Hn i).
    + intros Hsure Hk. destruct (Hs Hsure Hk) as [[i Hi]|Hpu]; [|by right].
      left. exists i. apply Hh. split; [|done]. intros ->. by apply (Hnot id).
Qed.

(** The claim is given back. *)
Lemma release_inv k sure w id key : push_inv k sure w → tasks w !! id = Some (HRelease key) →
  push_inv k sure (set_task id None (set_claims (claims w ∖ {[key]}) w)).
Proof.
  intros Hi Hid. destruct (decide (key = k)) as [->|Hne].
  - destruct Hi as [Hf Hr Hc H1 Hn Hp Hct Hs].
    assert (holds w k id) as Hhold by (eexists; split; [exact Hid|done]).
    assert (∀ i, ¬ holds (set_task id None (set_claims (claims w ∖ {[k]}) w)) k i) as Hno.
    { intros i [[_ (x & ? & _)]|[Hne Hh]]%set_task_holds; [done|]. apply Hne. by apply H1. }
    assert (pushes_of k w = []) as Hpu by by eapply Hn. constructor.
    + by eapply (set_task_fresh (set_claims (claims w ∖ {[k]}) w)).
    + by apply set_task_rightful.
    + intros i Hh. by destruct (Hno i).
    + intros i i' Hh. by destruct (Hno i).
    + intros i Hh. by destruct (Hno i).
    + intros Hx. by destruct Hx.
    + exact Hct.
    + cbn. set_solver.
  - eapply set_task_inv; [apply set_claims_inv; [done|set_solver]|exact Hid|done|cbn; congruence].
Qed.

Lemma net_step_inv k sure w l w' : push_inv k sure w → claims_last k l → (sure → releases_work l) →
  net_step true w l = Some w' → push_inv k sure w'.
Proof.
  intros Hi Hcl Hrl. destruct l as [sub event|id ok|id ok|id o|id ok|key|id|v o]; cbn.
  - intros [= <-]. destruct (eventMatchesSchemas event (Schemas sub)); [|done]. destruct Hi as [Hf Hr Hc H1 Hn Hp Hct Hs].
    assert (tasks w !! next_task w = None) as Hnew.
    { apply eq_None_not_Some. intros Hx. specialize (Hf _ Hx). lia. }
    assert (∀ i, holds (mkNet (claims w) (store w) (<[next_task w := HClaim event sub]> (tasks w)) (S (next_task w)) (pushes w)) k i ↔
                 holds w k i) as Hiff.
    { intros i. unfold holds. cbn. destruct (decide (i = next_task w)) as [->|Hne].
      - rewrite lookup_insert_eq, Hnew. naive_solver.
      - by rewrite lookup_insert_ne by done. }
    constructor; try done.
    + intros i [h Hl]. cbn in *. apply lookup_insert_Some in Hl as [[<- _]|[_ Hl]]; [lia|]. specialize (Hf i ltac:(eauto)). lia.
    + intros i h Hl. cbn in Hl. apply lookup_insert_Some in Hl as [[<- <-]|[_ Hl]]; [done|by eapply Hr].
    + intros i Hh%Hiff. by eapply Hc.
    + intros i i' Hh%Hiff Hh'%Hiff. by apply H1.
    + intros i Hh%Hiff. by eapply Hn.
    + intros Hsure Hk. destruct (Hs Hsure Hk) as [[i Hh]|?]; [left; exists i; by apply Hiff|by right].
  - destruct (tasks w !! id) as [[event sub| | |]|] eqn:Hl; try done. intros [= <-]. cbn in Hcl. subst ok. cbn.
    case_bool_decide as Hin; [by eapply set_task_inv|].
    destruct (decide (notificationDedupKey event sub = k)) as [Hkey|Hkey].
    + subst k. by apply grant_inv.
    + eapply set_task_inv; [apply set_claims_inv; [done|set_solver]|exact Hl| |done].
      intros x [= <-]. split; [done|]. cbn [claim_of]. split; [|done]. intros [= E]. done.
  - destruct (tasks w !! id) as [[|claimed event sub| |]|] eqn:Hl; try done. pose proof (pi_rightful _ _ _ Hi _ _ Hl) as Hri.
    intros [= <-]. destruct ok; cbn [negb]; [|eapply set_task_inv; [done|exact Hl| |done]; by intros x [= <-]].
    destruct (IncrementCounter _ _ (store w)) as [[count| |] n].
    all: eapply set_task_inv; [by apply set_store_inv|exact Hl| |done]; by intros x [= <-].
  - destruct (tasks w !! id) as [[| |claimed event sub payload|]|] eqn:Hl; try done.
    pose proof (pi_rightful _ _ _ Hi _ _ Hl) as Hri. cbn in Hri. subst claimed. intros [= <-].
    destruct (delivered o); [by apply deliver_inv|]. cbn. eapply set_task_inv; [done|exact Hl| |done]. by intros x [= <-].
  - destruct (tasks w !! id) as [[| | |key]|] eqn:Hl; try done. intros [= <-]. destruct ok; [by apply release_inv|].
    eapply set_task_inv; [done|exact Hl|done|]. intros Hsure. by specialize (Hrl Hsure).
  - intros [= <-]. apply set_claims_inv; [done|]. cbn in Hcl. set_solver.
  - intros [= <-]. destruct (tasks w !! id) as [h|] eqn:Hl.
    + eapply set_task_inv; [done|exact Hl|done|]. intros Hsure. by destruct (Hrl Hsure).
    + unfold set_task. rewrite delete_id by done. by destruct w.
  - intros [= <-]. by apply set_store_inv.
Qed.

Lemma net_run_inv k sure ls w w' : push_inv k sure w → Forall (claims_last k) ls → (sure → Forall releases_work ls) →
  net_run true ls w = Some w' → push_inv k sure w'.
Proof.
  revert w. induction ls as [|l ls IH]; intros w Hi Hc Hr; cbn; [by intros [= <-]|].
  apply Forall_cons in Hc as [Hl Hc]. destruct (net_step true w l) as [w1|] eqn:Hs; [|done].
  apply IH; [|done|intros Hsure; specialize (Hr Hsure); by apply Forall_cons in Hr as [_ ?]].
  eapply net_step_inv; [done|done| |done]. intros Hsure. specialize (Hr Hsure). by apply Forall_cons in Hr as [? _].
Qed.

(** C19: however the tasks of all replicas and workers interleave, as long as
    redis answers every claim of a notification without an error and the claim
    does not expire, the push service accepts that notification at most once,
    and while a task has the claim no other has it and nothing was delivered.
    (When redis fails at the claim the code pushes rather than lose the
    notification, so it may be pushed twice.)  If moreover no replica crashes
    and every release succeeds, a claim stands only for a delivery: what is
    withheld from one replica was delivered, or is in the hands of exactly one
    other. *)
Theorem push_once k n ls w : net_run true ls (quiet_net n) = Some w → Forall (claims_last k) ls →
  (length (pushes_of k w) <= 1)%nat ∧
  (∀ id id', holds w k id → holds w k id' → id = id' ∧ pushes_of k w = []) ∧
  (Forall releases_work ls → k ∈ claims w ↔ pushes_of k w ≠ [] ∨ ∃ id, holds w k id).
Proof.
  intros Hrun Hc. pose proof (net_run_inv k (Forall releases_work ls) ls _ w (quiet_inv k _ n) Hc id Hrun) as Hi. split_and!.
  - apply Hi.
  - intros id id' Hh Hh'. split; [by eapply pi_one|by eapply pi_not_both].
  - intros Hr. split.
    + intros Hk. destruct (pi_sure _ _ _ Hi Hr Hk); [by right|by left].
    + intros [Hp|[id Hh]]; [by apply (pi_pushed _ _ _ Hi)|by apply (pi_claimed _ _ _ Hi id)].
Qed.
End Pushes.

(** ** Workers *)

(** Every worker is the goroutine of its subscription, and the other way round. *)
Record reactor_ok (r : Reactor) : Prop := mkReactorOk {
  ro_worker : ∀ id mdate n, workers r !! id = Some (mdate, n) →
    ∃ s, running r !! n = Some s ∧ worker_id s = id ∧ MDate s = mdate;
  ro_running : ∀ n s, running r !! n = Some s → workers r !! worker_id s = Some (MDate s, n);
  ro_unused : ∀ n, is_Some (running r !! n) → (n < unused r)%nat;
}.

Definition live (r : Reactor) (s : NotificationSubscription) : Prop := ∃ n, running r !! n = Some s.

Lemma worker_started s r : reactor_ok r → workers r !! worker_id s = None →
  reactor_ok (start_worker s r) ∧ ∀ s', live (start_worker s r) s' ↔ s' = s ∨ live r s'.
Proof.
  intros [Hw Hr Hu] Hnone. assert (running r !! unused r = None) as Hnew.
  { apply eq_None_not_Some. intros Hx. specialize (Hu _ Hx). lia. }
  split.
  - constructor; cbn.
    + intros id mdate n [[<- [= <- <-]]|[Hne Hl]]%lookup_insert_Some.
      * exists s. by rewrite lookup_insert_eq.
      * destruct (Hw _ _ _ Hl) as (s' & Hs' & ? & ?). exists s'. rewrite lookup_insert_ne; [done|]. intros <-. congruence.
    + intros n s' [[<- <-]|[Hne Hl]]%lookup_insert_Some; [by rewrite lookup_insert_eq|].
      specialize (Hr _ _ Hl). rewrite lookup_insert_ne; [done|]. intros E. rewrite E in Hnone. congruence.
    + intros n [s' Hl]. destruct (decide (n = unused r)) as [->|Hne]; [lia|]. rewrite lookup_insert_ne in Hl by done.
      specialize (Hu n ltac:(eauto)). lia.
  - intros s'. unfold live. cbn. split.
    + intros (n & [[_ <-]|[_ Hl]]%lookup_insert_Some); [by left|right; by exists n].
    + intros [->|[n Hl]]; [exists (unused r); by rewrite lookup_insert_eq|]. exists n. rewrite lookup_insert_ne; [done|].
      intros <-. congruence.
Qed.

Lemma cancel_ok id r : reactor_ok r →
  reactor_ok (cancel_worker id r) ∧ workers (cancel_worker id r) !! id = None ∧
  ∀ s, live (cancel_worker id r) s ↔ live r s ∧ worker_id s ≠ id.
Proof.
  intros [Hw Hr Hu]. unfold cancel_worker. destruct (workers r !! id) as [[mdate n]|] eqn:Hid.
  - destruct (Hw _ _ _ Hid) as (s0 & Hs0 & Hid0 & _). split_and!.
    + constructor; cbn.
      * intros i m n' [Hne Hl]%lookup_delete_Some. destruct (Hw _ _ _ Hl) as (s & Hs & ? & ?). exists s.
        rewrite lookup_delete_ne; [done|]. intros <-. congruence.
      * intros n' s [Hne Hl]%lookup_delete_Some. specialize (Hr _ _ Hl). rewrite lookup_delete_ne; [done|].
        intros E. rewrite <- E, Hid in Hr. congruence.
      * intros n' [s [Hne Hl]%lookup_delete_Some]. apply Hu. eauto.
    + cbn. apply lookup_delete_eq.
    + intros s. unfold live. cbn. split.
      * intros (n' & [Hne Hl]%lookup_delete_Some). split; [by exists n'|]. intros E.
        specialize (Hr _ _ Hl). rewrite E, Hid in Hr. congruence.
      * intros [(n' & Hl) Hne]. exists n'. rewrite lookup_delete_ne; [done|]. intros E. congruence.
  - split_and!; [done..|]. intros s. split; [|by intros [? _]]. intros [n Hl]. split; [by exists n|]. intros E.
    specialize (Hr _ _ Hl). congruence.
Qed.

(** A worker that runs for the same modification of a subscription has its
    content. *)
Definition trusted (r : Reactor) (s : NotificationSubscription) : Prop :=
  ∀ s', live r s' → worker_id s' = worker_id s → MDate s' = MDate s → s' = s.

Lemma sync_one_ok r s : reactor_ok r → trusted r s →
  reactor_ok (sync_one r s) ∧ ∀ s', live (sync_one r s) s' ↔ s' = s ∨ (live r s' ∧ worker_id s' ≠ worker_id s).
Proof.
  intros Hok Ht. unfold sync_one. destruct (workers r !! worker_id s) as [[mdate n]|] eqn:Hid.
  - destruct (Z.eqb_spec mdate (MDate s)) as [->|Hne].
    + split; [done|]. destruct (ro_worker _ Hok _ _ _ Hid) as (s0 & Hs0 & Hid0 & Hm0).
      assert (live r s0) as Hlive by (by exists n). assert (s0 = s) as -> by by apply Ht.
      intros s'. split.
      * intros [n' Hl]. destruct (decide (worker_id s' = worker_id s)) as [E|E]; [left|right; split; [by exists n'|done]].
        pose proof (ro_running _ Hok _ _ Hl) as Hw. rewrite E in Hw. congruence.
      * intros [->|[? _]]; done.
    + destruct (cancel_ok (worker_id s) r Hok) as (Hok' & Hnone & Hlive).
      destruct (worker_started s _ Hok' Hnone) as [Hok'' Hlive']. split; [done|]. intros s'. rewrite Hlive', Hlive. done.
  - destruct (worker_started s r Hok Hid) as [Hok' Hlive]. split; [done|]. intros s'. rewrite Hlive. split; [|naive_solver].
    intros [->|[n Hl]]; [by left|]. right. split; [by exists n|]. intros E. pose proof (ro_running _ Hok _ _ Hl). congruence.
Qed.

Lemma sync_all_ok subs r : reactor_ok r → NoDup (worker_id <$> subs) → Forall (trusted r) subs →
  reactor_ok (foldl sync_one r subs) ∧
  ∀ s', live (foldl sync_one r subs) s' ↔ s' ∈ subs ∨ (live r s' ∧ worker_id s' ∉ worker_id <$> subs).
Proof.
  revert r. induction subs as [|s subs IH]; intros r Hok; cbn.
  - intros _ _. split; [done|]. intros s'. rewrite !elem_of_nil. split; [|by intros [|[? _]]].
    intros Hl. right. split; [done|]. by intros [].
  - intros [Hnot Hnd]%NoDup_cons [Ht Hts]%Forall_cons. destruct (sync_one_ok r s Hok Ht) as [Hok1 Hlive1].
    assert (∀ x, x ∈ subs → worker_id x ≠ worker_id s) as Hdiff by (intros x Hx E; apply Hnot; rewrite <- E; by apply list_elem_of_fmap_2).
    destruct (IH (sync_one r s) Hok1 Hnd) as [Hok2 Hlive2].
    { apply Forall_forall. intros x Hx s' Hl E Em. apply Hlive1 in Hl as [->|[Hl _]]; [by destruct (Hdiff x Hx)|].
      rewrite Forall_forall in Hts. by apply (Hts x Hx). }
    split; [done|]. intros s'. rewrite Hlive2, Hlive1, not_elem_of_cons, elem_of_cons. split.
    + intros [?|[[->|[? ?]] ?]]; auto.
    + intros [[->|?]|[? [? ?]]]; auto.
Qed.

Lemma prune_all_ok valid ids r : reactor_ok r →
  reactor_ok (foldl (prune_one valid) r ids) ∧
  ∀ s, live (foldl (prune_one valid) r ids) s ↔ live r s ∧ (worker_id s ∈ valid ∨ worker_id s ∉ ids).
Proof.
  revert r. induction ids as [|id ids IH]; intros r Hok; cbn.
  - split; [done|]. intros s. split; [|by intros [? _]]. intros Hl. split; [done|]. right. by intros ?%elem_of_nil.
  - unfold prune_one at 2 4. destruct (in_list valid id) eqn:Hin.
    + apply in_list_elem in Hin. destruct (IH r Hok) as [Hok1 Hl1]. split; [done|]. intros s. rewrite Hl1, not_elem_of_cons. split.
      * intros [? [?|?]]; [auto|]. split; [done|]. destruct (decide (worker_id s = id)) as [->|]; [by left|right; auto].
      * intros [? [?|[? ?]]]; auto.
    + destruct (cancel_ok id r Hok) as (Hok' & _ & Hl'). destruct (IH _ Hok') as [Hok1 Hl1]. split; [done|].
      intros s. rewrite Hl1, Hl', not_elem_of_cons. split.
      * intros [[? ?] [?|?]]; auto.
      * intros [? [Hv|[? ?]]]; [|auto]. split; [|by left]. split; [done|]. intros E. rewrite E in Hv.
        apply in_list_elem in Hv. congruence.
Qed.

(** the workers of the leader are the subscriptions of the table: after a
    sync every subscription has exactly one running worker, with its content,
    and there is no other; a failing listing leaves the workers as they are. *)
Theorem sync_exact subs r : reactor_ok r → NoDup (worker_id <$> subs) → Forall (trusted r) subs →
  let r' := syncWorkers (Ok subs) r in
  reactor_ok r' ∧ (∀ s, s ∈ subs ↔ live r' s) ∧
  (∀ n n' s, running r' !! n = Some s → running r' !! n' = Some s → n = n') ∧
  ∀ e, syncWorkers (Err e) r = r.
Proof.
  intros Hok Hnd Ht. cbn -[prune_one sync_one]. destruct (sync_all_ok subs r Hok Hnd Ht) as [Hok1 Hl1].
  destruct (prune_all_ok (worker_id <$> subs) (map_to_list (workers (foldl sync_one r subs))).*1 _ Hok1) as [Hok2 Hl2].
  split_and!; [done| | |done].
  - intros s. rewrite Hl2. split.
    + intros Hs. split; [apply Hl1; by left|]. left. by apply list_elem_of_fmap_2.
    + intros [Hl Hv]. assert (worker_id s ∈ (map_to_list (workers (foldl sync_one r subs))).*1) as Hin.
      { destruct Hl as [n Hl]. apply (ro_running _ Hok1) in Hl. apply list_elem_of_fmap. exists (worker_id s, (MDate s, n)).
        split; [done|]. by apply elem_of_map_to_list. }
      apply Hl1 in Hl as [?|[_ Hnot]]; [done|]. destruct Hv; done.
  - intros n n' s Hn Hn'. apply (ro_running _ Hok2) in Hn, Hn'. congruence.
Qed.

(** Owners are account identifiers, of one length, so the ids of distinct rows
    differ. *)
Lemma worker_id_inj s s' : Str.len (ns_Owner s) = Str.len (ns_Owner s') → worker_id s = worker_id s' →
  VendorID s = VendorID s' ∧ ns_Owner s = ns_Owner s'.
Proof.
  unfold worker_id, Str.len. destruct s as [v o ? ? ? ? ?], s' as [v' o' ? ? ? ? ?]. cbn. intros Hlen E.
  assert (∀ a b, String.length (a +:+ b) = (String.length a + String.length b)%nat) as Happ.
  { induction a as [|c a IH]; intros b; cbn; [done|]. by rewrite IH. }
  assert (String.length v = String.length v') as Hv by (apply (f_equal String.length) in E; rewrite !Happ in E; lia).
  clear Hlen. revert v' Hv E. induction v as [|c v IH]; intros [|c' v'] Hv E; cbn in *; try done.
  injection E as -> E. injection Hv as Hv. destruct (IH v' Hv E) as [-> ->]. done.
Qed.

(** ** Counters *)

Lemma notificationCounterKey_inj v o v' o' : lacks ":" o → lacks ":" o' →
  notificationCounterKey v o = notificationCounterKey v' o' → v = v' ∧ o = o'.
Proof.
  intros Ho Ho' E. unfold notificationCounterKey in E. change (":" +:+ ?x) with (String ":" x) in E.
  assert (∀ a b c : string, a +:+ (b +:+ c) = (a +:+ b) +:+ c) as Hassoc.
  { intros a b c. induction a as [|x a IH]; cbn; [done|]. by rewrite IH. }
  apply (f_equal (λ s, Str.cut_last s ":")) in E.
  change (":" +:+ o) with (String ":" o) in E. change (":" +:+ o') with (String ":" o') in E.
  rewrite !Hassoc, !cut_last_app in E by done. injection E as E ->. split; [|done].
  exact E.
Qed.

Inductive CounterOp := CIncrement (v o : string) | CReset (v o : string) | CDelete (v o : string).

Definition counter_step `{SaveSubscription} (n : Notifications) (op : CounterOp) : Notifications :=
  match op with
  | CIncrement v o => snd (IncrementCounter v o n)
  | CReset v o => snd (ResetCounter true v o n)
  | CDelete v o => snd (Notification.Delete v o n)
  end.

(** The increments since the last reset or deletion. *)
Definition unread_step (v o : string) (c : Z) (op : CounterOp) : Z :=
  match op with
  | CIncrement v' o' => if decide (v' = v ∧ o' = o) then c + 1 else c
  | CReset v' o' | CDelete v' o' => if decide (v' = v ∧ o' = o) then 0 else c
  end.

Definition op_owner (op : CounterOp) : string := match op with CIncrement _ o | CReset _ o | CDelete _ o => o end.

Lemma reset_counters `{SaveSubscription} b v o n :
  counters (snd (ResetCounter b v o n)) = delete (notificationCounterKey v o) (counters n).
Proof.
  unfold ResetCounter, DeleteKey. rewrite bindM_modify. destruct b; [|done]. cbn [negb].
  unfold bindM, tryM, Get. cbn. by destruct (rows n !! (v, o)).
Qed.

(** a counter is the number of pushes counted for that vendor and owner since
    the client last reset it or unsubscribed, whatever happened to others. *)
Theorem counter_exact `{SaveSubscription} ops n v o : Forall (λ op, lacks ":" (op_owner op)) ops → lacks ":" o →
  counters n = ∅ → Z.of_nat (length ops) < 2 ^ 63 - 1 →
  fst (GetCounter v o (foldl counter_step n ops)) = Ok (foldl (unread_step v o) 0 ops).
Proof.
  intros Hops Ho Hn Hlen.
  assert (default 0 (counters (foldl counter_step n ops) !! notificationCounterKey v o) = foldl (unread_step v o) 0 ops ∧
    ∀ k, default 0 (counters (foldl counter_step n ops) !! k) <= Z.of_nat (length ops)) as [Hc _]; [|unfold GetCounter, GetInt, getsM; cbn [fst]; by rewrite Hc].
  induction ops as [|op ops IH] using rev_ind; cbn; [rewrite Hn; split; [done|intros k; rewrite lookup_empty; cbn; lia]|].
  apply Forall_app in Hops as [Hops [Hop _]%Forall_cons]. rewrite length_app in *. cbn in Hlen.
  destruct IH as [Hc Hle]; [done|lia|]. rewrite !foldl_app. cbn [foldl length]. set (m := foldl counter_step n ops) in *.
  assert (∀ v' o', lacks ":" o' → notificationCounterKey v' o' = notificationCounterKey v o ↔ v' = v ∧ o' = o) as Hkey.
  { intros v' o' Ho'. split; [by apply notificationCounterKey_inj|by intros [-> ->]]. }
  assert (∀ v' o', lacks ":" o' → default 0 (delete (notificationCounterKey v' o') (counters m) !! notificationCounterKey v o) =
    (if decide (v' = v ∧ o' = o) then 0 else foldl (unread_step v o) 0 ops) ∧
    ∀ k, default 0 (delete (notificationCounterKey v' o') (counters m) !! k) <= Z.of_nat (length ops + 1)) as Hdel.
  { intros v' o' Ho'. split.
    - rewrite lookup_delete. destruct (decide (v' = v ∧ o' = o)) as [Hd|Hd].
      + by rewrite decide_True by (by apply Hkey).
      + rewrite decide_False by (by rewrite Hkey). done.
    - intros k. rewrite lookup_delete. case_decide; cbn; [lia|]. specialize (Hle k). lia. }
  destruct op as [v' o'|v' o'|v' o']; cbn [counter_step unread_step op_owner] in *.
  - unfold IncrementCounter, Incr. pose proof (Hle (notificationCounterKey v' o')) as Hb.
    destruct (Z.ltb_spec (default 0 (counters m !! notificationCounterKey v' o') + 1) (2 ^ 63)); [|lia]. cbn [snd set_counters counters]. split.
    + rewrite lookup_insert. destruct (decide (v' = v ∧ o' = o)) as [[-> ->]|Hd].
      * rewrite decide_True by done. by rewrite <- Hc.
      * rewrite decide_False by (by rewrite Hkey). done.
    + intros k. rewrite lookup_insert. case_decide; [cbn [default from_option id]; lia|]. specialize (Hle k). lia.
  - rewrite reset_counters. by apply Hdel.
  - unfold Notification.Delete, repo_Delete, DeleteKey. rewrite bindM_modify. by apply Hdel.
Qed.

(** ** Endpoints *)

Section Endpoints.
Context `{SaveSubscription}.

(** A request to one of the five endpoints, and what it leaves. *)
Inductive Endpoint := ESubscribe (now : Z) (body : result NotificationSubscription) | EGet | EDelete | ECounter | EReset (pusher : bool).

Definition served (e : Endpoint) (ctx : Ctx) (ownerParam vendorParam : string) (n : Notifications) : Notifications :=
  match e with
  | ESubscribe now body => snd (handleSubscribeNotification now ctx ownerParam vendorParam body n)
  | EGet => snd (handleGetNotification ctx ownerParam vendorParam n)
  | EDelete => snd (handleDeleteNotification ctx ownerParam vendorParam n)
  | ECounter => snd (handleGetNotificationCounter ctx ownerParam vendorParam n)
  | EReset pusher => snd (handleResetNotificationCounter pusher ctx ownerParam vendorParam n)
  end.

(** Everything of another owner is as it was. *)
Definition spares (o : string) (n n' : Notifications) : Prop :=
  (∀ v, rows n' !! (v, o) = rows n !! (v, o)) ∧
  (∀ v, counters n' !! notificationCounterKey v o = counters n !! notificationCounterKey v o).

Lemma as_owner_state {T} ctx op vp (k : string → string → NM (Response T)) n (P : Notifications → Prop) : P n →
  (∀ v r, ctx_requester ctx = Some r → P (snd (k (e_ID r) v n))) → P (snd (as_owner ctx op vp k n)).
Proof.
  intros Hn Hk. unfold as_owner, requireNotificationOwner. destruct (PathUnescape op) as [owner| |]; try done.
  all: destruct (PathUnescape vp) as [vendor| |]; try done.
  destruct (ctx_requester ctx) as [r|] eqn:Hr; [|done]. destruct (String.eqb_spec (e_ID r) owner) as [<-|]; [|done]. by apply Hk.
Qed.

Lemma spares_row o n key row : key.2 ≠ o → spares o n (set_rows (<[key := row]> (rows n)) n).
Proof. intros Hne. split; [|done]. intros v. cbn. rewrite lookup_insert_ne; [done|]. by intros ->. Qed.

Lemma spares_unsubscribed o n v' o' : o' ≠ o → lacks ":" o → lacks ":" o' → spares o n (snd (Notification.Delete v' o' n)).
Proof.
  intros Hne Ho Ho'. unfold Notification.Delete, repo_Delete, DeleteKey. rewrite bindM_modify. split; intros v; cbn -[notificationCounterKey].
  - rewrite lookup_delete_ne; [done|]. by intros [= _ ?].
  - rewrite lookup_delete_ne; [done|]. by intros [_ ?]%notificationCounterKey_inj.
Qed.

Lemma reset_rows b v o n : rows (snd (ResetCounter b v o n)) = rows n.
Proof.
  unfold ResetCounter, DeleteKey. rewrite bindM_modify. destruct b; [|done]. cbn [negb].
  unfold bindM, tryM, Get. cbn. by destruct (rows n !! (v, o)).
Qed.

Lemma spares_reset o n b v' o' : o' ≠ o → lacks ":" o → lacks ":" o' → spares o n (snd (ResetCounter b v' o' n)).
Proof.
  intros Hne Ho Ho'. split; intros v; [by rewrite reset_rows|]. rewrite reset_counters, lookup_delete_ne; [done|].
  by intros [_ ?]%notificationCounterKey_inj.
Qed.

(** an endpoint touches the requester's own: whatever the path and the body
    say, the subscriptions and counters of anybody else stay as they were, and
    a request without a requester changes nothing. *)
Theorem own_only e ctx ownerParam vendorParam n o : lacks ":" o →
  (∀ r, ctx_requester ctx = Some r → lacks ":" (e_ID r) ∧ e_ID r ≠ o) →
  spares o n (served e ctx ownerParam vendorParam n) ∧
  (ctx_requester ctx = None → served e ctx ownerParam vendorParam n = n).
Proof.
  intros Ho Hr. split; [|intros Hnone; destruct e; (apply (as_owner_state _ _ _ _ n (λ n', n' = n)); [done|intros v r Hr'; congruence])].
  assert (spares o n n) as Hn by done.
  destruct e; (apply (as_owner_state _ _ _ _ n (spares o n)); [done|]); intros v r Hctx; destruct (Hr _ Hctx) as [Hl Hne].
  - destruct body as [s| |]; [|done..]. cbn zeta; cbn [ns_Prefixes Subscription]. case_bool_decide; [done|]. destruct (String.eqb _ _); [done|]. by apply spares_row.
  - unfold bindM, tryM, Get. cbn. by destruct (rows n !! (v, e_ID r)).
  - by apply spares_unsubscribed.
  - done.
  - pose proof (spares_reset o n pusher v (e_ID r) Hne Ho Hl) as Hs. revert Hs. unfold bindM, tryM.
    by destruct (ResetCounter pusher v (e_ID r) n) as [[?| |] ?].
Qed.
End Endpoints.

(** ** Examples *)

Module Examples.
Definition phone : NotificationSubscription := mkSubscription "phone" "con1alice" [] ["cckv://a.example/"] "endpoint" 0 1.
Definition laptop : NotificationSubscription := mkSubscription "laptop" "con1alice" [] ["cckv://a.example/"] "endpoint" 0 2.
Definition laptop' : NotificationSubscription := mkSubscription "laptop" "con1alice" [] ["cckv://a.example/x"] "endpoint" 0 3.
Definition tablet : NotificationSubscription := mkSubscription "tablet" "con1bob" [] ["cckv://a.example/"] "endpoint" 0 1.

#[local] Instance saves : SaveSubscription := λ now old s,
  match old with
  | Some _ => mkSubscription (VendorID s) (ns_Owner s) (Schemas s) (ns_Prefixes s) (Subscription s) (CDate s) now
  | None => s
  end.

#[local] Instance no_documents : Json.
Proof. split; intros; exact (Err syntax_error). Defined.

#[local] Instance plain_digest : Sha256 := λ s, s.

Definition liked : Event := mkEvent "created" "a.example" "cckv://a.example/p" (Some "cckv://a.example/p/like") ∅ 5.
Definition liked_key : string := notificationDedupKey liked phone.
Definition idle : Notifications := mkNotifications {[("phone", "con1alice") := phone]} ∅ [].

(** Two replicas receive an event: the first one's push fails and it gives the
    claim back, the third task has it and delivers, the second was refused. *)
Definition interleaved : list NetLabel :=
  [NReceive phone liked; NReceive phone liked; NReceive phone liked;
   NClaim 0 true; NClaim 1 true; NCount 0 true; NSend 0 SendFailed; NRelease 0 true;
   NClaim 2 true; NCount 2 true; NSend 2 (Status 201)].

Lemma push_once_witness :
  (np_Badge ∘ pu_Payload <$> from_option (pushes_of liked_key) [] (net_run true interleaved (quiet_net idle)) = [2]) ∧
  ∃ w, net_run true interleaved (quiet_net idle) = Some w ∧ (length (pushes_of liked_key w) <= 1)%nat.
Proof.
  split; [vm_compute; reflexivity|].
  assert (from_option (λ _, true) false (net_run true interleaved (quiet_net idle)) = true) as Hsome by (vm_compute; reflexivity).
  destruct (net_run true interleaved (quiet_net idle)) as [w|] eqn:Hrun; [|discriminate Hsome].
  exists w. split; [reflexivity|].
  exact (proj1 (push_once liked_key idle interleaved w Hrun ltac:(repeat constructor))).
Defined.

(** A leader with workers of the phone and of the laptop, as it was. *)
Definition leading : Reactor := syncWorkers (Ok [phone; laptop]) no_workers.

Lemma leading_ok : reactor_ok leading.
Proof.
  split.
  - intros id mdate n Hl. change (workers leading) with ({["laptopcon1alice" := (2, 1%nat); "phonecon1alice" := (1, 0%nat)]} : gmap string (Z * nat)) in Hl.
    apply lookup_insert_Some in Hl as [[<- [= <- <-]]|[_ Hl]]; [by exists laptop|].
    apply lookup_singleton_Some in Hl as [<- [= <- <-]]. by exists phone.
  - intros n s Hl. change (running leading) with ({[1%nat := laptop; 0%nat := phone]} : gmap nat NotificationSubscription) in Hl.
    apply lookup_insert_Some in Hl as [[<- <-]|[_ Hl]]; [done|]. by apply lookup_singleton_Some in Hl as [<- <-].
  - change (unused leading) with 2%nat. intros n [s Hl]. change (running leading) with ({[1%nat := laptop; 0%nat := phone]} : gmap nat NotificationSubscription) in Hl.
    apply lookup_insert_Some in Hl as [[<- <-]|[_ Hl]]; [lia|]. apply lookup_singleton_Some in Hl as [<- <-]. lia.
Qed.

Lemma leading_live s : live leading s → s = phone ∨ s = laptop.
Proof.
  intros [n Hl]. change (running leading) with ({[1%nat := laptop; 0%nat := phone]} : gmap nat NotificationSubscription) in Hl.
  apply lookup_insert_Some in Hl as [[_ <-]|[_ Hl]]; [by right|]. apply lookup_singleton_Some in Hl as [_ <-]. by left.
Qed.

(** The laptop subscribed anew, the phone unsubscribed, a tablet came. *)
Lemma sync_exact_witness :
  (map_to_list (running (syncWorkers (Ok [laptop'; tablet]) leading))).*2 = [laptop'; tablet] ∧
  (∀ s, s ∈ [laptop'; tablet] ↔ live (syncWorkers (Ok [laptop'; tablet]) leading) s).
Proof.
  split; [vm_compute; reflexivity|].
  apply (sync_exact [laptop'; tablet] leading leading_ok).
  - apply (bool_decide_unpack _). vm_compute. exact I.
  - repeat constructor; intros s Hl; apply leading_live in Hl as [-> | ->]; vm_compute; intros E; discriminate || (intros E'; discriminate).
Defined.

Lemma counter_exact_witness :
  let ops := [CIncrement "phone" "con1alice"; CReset "phone" "con1bob"; CIncrement "phone" "con1alice"] in
  foldl (unread_step "phone" "con1alice") 0 ops = 2 ∧
  fst (GetCounter "phone" "con1alice" (foldl counter_step idle ops)) = Ok 2.
Proof.
  split; [vm_compute; reflexivity|].
  apply (counter_exact [CIncrement "phone" "con1alice"; CReset "phone" "con1bob"; CIncrement "phone" "con1alice"] idle "phone" "con1alice");
    [repeat constructor|reflexivity|reflexivity|vm_compute; reflexivity].
Defined.

(** Bob asks to delete a subscription of Alice's. *)
Definition bob : Ctx := mkCtx (Some (mkEntity "con1bob" None "b.example" "" None)) false.

Lemma own_only_witness :
  fst (handleDeleteNotification bob "con1alice" "phone" idle) = Ok (Forbidden "permission denied: owner mismatch") ∧
  spares "con1alice" idle (served EDelete bob "con1alice" "phone" idle).
Proof.
  split; [vm_compute; reflexivity|].
  refine (proj1 (own_only EDelete bob "con1alice" "phone" idle "con1alice" eq_refl _)).
  intros r [= <-]. split; [reflexivity|]. intros E. discriminate.
Defined.
End Examples.
