(* ===== verification/Authority.v ===== *)
(** * Authority: who may write where

    The policy service behind the use case's [PolicyEval] interface, and what
    its built-in policy makes of writes where the hierarchy declares nothing:
    a record is created by a local user under its own or the server's name,
    replaced and deleted by its author or owner. *)

From S2P Require Import Prelude Bytes Url KeyUri Cdid Ccuri Documents Verify PolicyValues Policy GlobalPolicy.
From S2P Require Import PolicyService Store StoreFacts StoreInv StoreRecords Queries Effects Tags Usecase Commit CommitFacts.
From stdpp Require Import prelude strings gmap list relations.
From Stdlib Require Import ZArith Lia Ascii.
Open Scope Z_scope.
Open Scope uc_scope.

(** The policy service is the policy of the use case: the requester and the
    document are passed by value, without parameters, and the text cache does
    not show. *)
Definition service_policy `{Url.NetIP} `{PolicyNetwork} (s : PolicyService) : PolicyEval :=
  λ requester self stack action key,
    fst (Eval_ s ∅ (gval_of_requester (Some requester)) (GInterface (Some (gval_of_document self)))
           ∅ stack action key).

(** ** The built-in policy alone *)

Section Alone.
Context `{Url.NetIP} `{PolicyNetwork}.

Lemma star_spec key : key_matches "*" key = Str.forallb (λ d, negb (Ascii.eqb d Policy.newline)) key.
Proof.
  apply Bool.eq_iff_eq_true. split; [|apply star_matches]. unfold key_matches. cbn [utf8_valid andb].
  intros Hk%andb_true_iff. destruct Hk as [_ Hk%glob_match_spec].
  apply (glob_prefix "") in Hk as (rest & -> & Hr); [exact Hr | done].
Qed.

(** On a key no pattern matches - one with a line break - the defaults decide. *)
Lemma global_unmatched r d fqdn caller action key :
  ¬ lacks Policy.newline key →
  ∃ reason, EvaluatePolicy GetGlobalPolicy (request r d ∅ fqdn caller) action key =
    Ok (with_default GetGlobalPolicy action UNSET, reason).
Proof.
  intros Hk. apply not_true_is_false in Hk.
  assert (List.filter (selected action key) (Statements GetGlobalPolicy) = []) as Hs.
  { cbn [Statements GetGlobalPolicy List.filter]. unfold selected. cbn [st_Key create_own create_server
      read_own update_own delete_own association_delete_own]. rewrite star_spec, Hk. by rewrite !andb_false_r. }
  destruct (conclude r d ∅ fqdn caller action key [] [] Hs ltac:(constructor)) as [reason E].
  by exists reason.
Qed.

Definition write_actions : list string := ["record:create"; "record:update"; "record:delete"; "association:delete"].

Lemma decide_one c : decide_stack [c] = c.
Proof.
  unfold decide_stack, last_set. cbn. destruct (is_strong c); [done|].
  by destruct (String.eqb_spec c UNSET).
Qed.

Lemma global_alone r d fqdn caller action key :
  action ∈ write_actions →
  ∃ c, layer_conclusion (request r d ∅ fqdn caller) action key [mkEvaluationSet GetGlobalPolicy None false] c ∧
    (permits c = true → permits (global_table fqdn r d action) = true).
Proof.
  intros Ha. destruct (decide (lacks Policy.newline key)) as [Hk|Hk].
  - exists (global_table fqdn r d action). split; [by apply global_layer | done].
  - destruct (global_unmatched r d fqdn caller action key Hk) as [reason E]. exists NG. split.
    + exists [NG]. split; [|done]. constructor; [|constructor]. unfold set_conclusion.
      cbn [es_Errored es_Params es_Policy]. rewrite E.
      unfold write_actions in Ha. by repeat (apply elem_of_cons in Ha as [-> | Ha]; [done|]); apply elem_of_nil in Ha.
    + done.
Qed.

(** Where no policy is declared, what passes is what the table permits. *)
Lemma service_alone s e d action key :
  globalPolicy s = GetGlobalPolicy → action ∈ write_actions →
  service_policy s e d [] action key = Ok tt →
  permits (global_table (globalParameters_FQDN s) (Some e) d action) = true.
Proof.
  intros Hg Ha. unfold service_policy, Eval_. cbn [resolvePolicyStack expand_virtual_parents map concat resolve_layers].
  destruct (global_alone (Some e) d (globalParameters_FQDN s) (Some ConcrntCall) action key Ha) as (c & Hc & Hp).
  unfold resolvePolicyStack. cbn [expand_virtual_parents map concat resolve_layers fst mbind result_bind rbind].
  unfold service_request. rewrite Hg.
  pose proof (EvaluateStack_decide _ _ _ _ _ (List.Forall2_cons _ _ Hc (List.Forall2_nil _))) as [reason E].
  unfold request in E. cbn [List.app] in E. rewrite E. cbn. rewrite decide_one.
  destruct (permits c); [auto | done].
Qed.

End Alone.

(** ** Writes where nothing is declared *)

(** The requester wrote the document, or owns [uri]. *)
Definition holds (e : Entity) (d : Document any_) `{Url.NetIP} (uri : string) : Prop :=
  e_ID e = Author d ∨ owner_of uri = Some (e_ID e).

Lemma author_or_owns_holds `{Url.NetIP} d k e : author_or_owns d k e = true → holds e d k.
Proof.
  unfold author_or_owns, holds. destruct (owner_of k) as [o|]; [|done].
  rewrite orb_true_iff, !String.eqb_eq. intros [?| ->]; [by left | by right].
Qed.

Lemma permits_allow_if b c : permits (allow_if b c) = true → b = true ∨ permits c = true.
Proof. destruct b; [by left | by right]. Qed.

Section Table.
Context `{Url.NetIP} (fqdn : string) (e : Entity) (d : Document any_).

Lemma table_create :
  permits (global_table fqdn (Some e) d "record:create") = true →
  e_Domain e = fqdn ∧ (owner_of (Key d) = Some (e_ID e) ∨ owner_of (Key d) = Some fqdn).
Proof.
  cbn. destruct (String.eqb_spec (e_Domain e) fqdn) as [Hd|]; [|done]. cbn [negb].
  unfold owns, owner_is. destruct (owner_of (Key d)) as [o|]; [|done].
  destruct (String.eqb_spec (e_ID e) o) as [->|]; [by split; [|left]|].
  destruct (String.eqb_spec fqdn o) as [->|]; [by split; [|right] | done].
Qed.

Lemma table_change action :
  action = "record:update" ∨ action = "record:delete" →
  permits (global_table fqdn (Some e) d action) = true → holds e d (Key d).
Proof.
  intros [-> | ->] Hp; apply permits_allow_if in Hp as [Hp|]; try done; by apply author_or_owns_holds.
Qed.

Lemma table_association_delete :
  permits (global_table fqdn (Some e) d "association:delete") = true →
  ∃ a, Associate d = Some a ∧ holds e d a.
Proof.
  intros Hp. apply permits_allow_if in Hp as [Hp|]; [|done].
  destruct (Associate d) as [a|]; [|done]. exists a. split; [done|]. by apply author_or_owns_holds.
Qed.
End Table.

Section Writes.
Context `{Url.NetIP} `{PolicyNetwork} `{Json} `{Keccak} `{Secp256k1} `{StoreCodec} `{Orm} `{Env}.
Context (s : PolicyService) (built_in : globalPolicy s = GetGlobalPolicy).

#[local] Instance the_policy : PolicyEval := service_policy s.

(** The requester's standing to remove a document. *)
Definition may_remove (requester : Entity) (d : Document any_) : Prop :=
  holds requester d (Key d) ∨ ∃ a, Associate d = Some a ∧ holds requester d a.

Lemma undeclared_delete requester d uri :
  policy_eval requester d [] (policyDeleteAction d) uri = Ok tt → may_remove requester d.
Proof.
  unfold policyDeleteAction. intros Hc.
  case_match; [right; eapply table_association_delete | left; eapply table_change; [by right|]];
    (eapply service_alone; [done| |exact Hc]); set_solver.
Qed.

(** The handler of record documents: a new key, or one that is taken. *)
Lemma undeclared_record commit ctx ip requester doc sd mode st :
  policies_of (st_db st) (Key doc) = Ok [] →
  let out := createRecord commit ctx ip requester doc sd mode st in
  refused out st ∨
  match Store.GetSignedDocument (st_db st) (Key doc) with
  | Ok held => ∃ old, unmarshal_document (sd_Document held) = Ok old ∧ holds requester old (Key old)
  | _ => e_Domain requester = globalParameters_FQDN s ∧
         (owner_of (Key doc) = Some (e_ID requester) ∨ owner_of (Key doc) = Some (globalParameters_FQDN s))
  end.
Proof.
  intros Hs out. subst out. unfold createRecord. rewrite bindM_read, Hs, bindM_read.
  unfold record_policy_self. destruct (Store.GetSignedDocument (st_db st) (Key doc)) as [held|e|] eqn:Eh.
  + destruct (unmarshal_document (sd_Document held)) as [old| |]; [|by left; split..]. cbn [rbind fst snd].
    rewrite bindM_lift. destruct (policy_eval _ _ _ _ _) as [[]| |] eqn:Ep; [|by left; split..].
    right. exists old. split; [done|]. eapply table_change; [by left|].
    eapply service_alone; [done| |exact Ep]. set_solver.
  + destruct (is_not_found e); [|by left; split]. cbn [fst snd]. rewrite bindM_lift.
    destruct (policy_eval _ _ _ _ _) as [[]| |] eqn:Ep; [|by left; split..].
    right. apply table_create. eapply service_alone; [done| |exact Ep]. set_solver.
  + by left; split.
Qed.

(** A reference record that a delete sweeps away here. *)
Lemma undeclared_sweep mode requester refKey d st d' st' :
  policies_of (st_db st) refKey = Ok [] → sweep_reference mode requester refKey d st = (Ok d', st') →
  (d' = d ∧ st' = st) ∨
  ∃ refSD refDoc, Store.GetSignedDocument (st_db st) refKey = Ok refSD ∧
    unmarshal_document (sd_Document refSD) = Ok refDoc ∧ may_remove requester refDoc.
Proof.
  intros Hs. unfold sweep_reference, bindM at 1, tryM, readM at 1.
  destruct (Store.GetSignedDocument (st_db st) refKey) as [refSD|e|]; [| |done].
  2:{ destruct (is_not_found e); [|done]. intros [= <- <-]. by left. }
  unfold parse_document. rewrite bindM_lift. destruct (unmarshal_document _) as [refDoc| |] eqn:Ed; [|done..].
  rewrite bindM_read, Hs. destruct (policy_eval _ _ _ _ _) as [[]|e|] eqn:Ep; [| |done].
  - intros _. right. exists refSD, refDoc. split_and!; [done..|]. by eapply undeclared_delete.
  - destruct (is_permission_denied e); [|done]. intros [= <- <-]. by left.
Qed.

(** C12: where the policies above a document are none, the built-in one decides
    for records, new and replaced, and for deletes.  The handler of record
    documents refuses and leaves no trace unless the requester is a user of
    this server writing a new key under its own or the server's name, or, where
    the key is taken, is the author of what is there or the owner of its key.
    The handler of deletes, on the server of the target, refuses and leaves no
    trace unless the requester is author or owner - of an association: of what
    it is attached to - of every addressed document above which no policy is
    declared; and wherever the delete is carried out, a reference record above
    which none is declared is swept away only for its author or owner. *)
Theorem undeclared_writes commit ctx ip requester doc sd mode st :
  (policies_of (st_db st) (Key doc) = Ok [] →
   let out := applyCommit commit ctx CreateRecord_ ip (Some requester) doc sd mode st in
   refused out st ∨
   match Store.GetSignedDocument (st_db st) (Key doc) with
   | Ok held => ∃ old, unmarshal_document (sd_Document held) = Ok old ∧ holds requester old (Key old)
   | _ => e_Domain requester = globalParameters_FQDN s ∧
          (owner_of (Key doc) = Some (e_ID requester) ∨ owner_of (Key doc) = Some (globalParameters_FQDN s))
   end) ∧
  (∀ deletion base includeSelf isRange,
   unmarshal_typed decode_delete (sd_Document sd) = Ok deletion →
   parseRangeDeleteTarget (Value deletion) = Ok (base, includeSelf, isRange) →
   ResolveResourceHost (Value deletion) = Ok FQDN →
   let out := applyCommit commit ctx DeleteRecord_ ip (Some requester) doc sd mode st in
   refused out st ∨
   ∃ addressed targets,
     authoritative_targets (st_db st) (Value deletion) base includeSelf isRange = Ok addressed ∧ addressed ≠ [] ∧
     traverse parse_target addressed = Ok targets ∧
     ∀ t, t ∈ targets → policies_of (st_db st) (default (dt_uri t) (Associate (dt_doc t))) = Ok [] →
       may_remove requester (dt_doc t)) ∧
  (∀ refKey d d' st', policies_of (st_db st) refKey = Ok [] →
   sweep_reference mode requester refKey d st = (Ok d', st') →
   (d' = d ∧ st' = st) ∨
   ∃ refSD refDoc, Store.GetSignedDocument (st_db st) refKey = Ok refSD ∧
     unmarshal_document (sd_Document refSD) = Ok refDoc ∧ may_remove requester refDoc).
Proof.
  split; [apply undeclared_record|]. split; [|intros refKey d d' st'; apply undeclared_sweep].
  intros deletion base includeSelf isRange Hd Hr Hh out.
  destruct (delete_checked ip requester sd mode st _ _ _ _ _ Hd eq_refl Hr Hh)
    as [Hx|(addressed & targets & Ha & Hne & Ht & Hc)]; [by left|].
  right. exists addressed, targets. split_and!; [done..|]. intros t Hin Hs.
  rewrite Forall_forall in Hc. specialize (Hc t Hin). unfold check_delete in Hc. rewrite Hs in Hc.
  by eapply undeclared_delete.
Qed.
End Writes.
