(* ===== verification/CommitWorld.v ===== *)
(** * CommitWorld: a concrete server

    One user, a codec for a handful of texts, the signature scheme of
    [Verify.World], and the policy service behind the [PolicyEval] interface.
    It carries the witnesses of the use-case theorems and two facts that hold
    of a particular run: a commit that never ends, and a record dated by the
    document it points to. *)

From S2P Require Import Prelude Bytes Url KeyUri Cdid Ccuri Documents Verify PolicyValues Policy GlobalPolicy.
From S2P Require Import PolicyService Store StoreFacts StoreInv StoreRecords Queries Effects Tags Usecase Commit CommitSafe CommitFacts CommitReplay.
From S2P Require Import Authority.
From stdpp Require Import prelude strings gmap list relations.
From Stdlib Require Import ZArith Lia Ascii.
Open Scope Z_scope.
Open Scope uc_scope.

Module Server.

#[export] Existing Instance World.netip.
#[export] Existing Instance World.keccak.
#[export] Existing Instance World.secp.
#[export] Existing Instance Net.network.
#[export] Existing Instance gorm.

Definition author : string := World.author.
Definition self_uri : string := "cckv://" +:+ author.
Definition key (k : string) : string := self_uri +:+ "/" +:+ k.

Definition record (k schema : string) (value : any_) (dists : option (list string)) : Document any_ :=
  mkDocument "record" (key k) value author schema 10 None dists None None None.

Section Far.
(** The time a reference claims for its target. *)
Context (far : Z).

Definition texts : list (string * Document any_) :=
  [("post", record "posts/a" "note" ANil None);
   ("second", record "posts/a/b" "note" ANil None);
   ("reference", record "refs/a" ReferenceURL (AStr "cckv://elsewhere/x") None);
   ("entity", mkDocument "entity" "" (AStr "host") author EntityURL 5 None None None None None);
   ("moved", mkDocument "entity" "" (AStr "evil") author EntityURL 20 None None None None None);
   ("delete", mkDocument "delete" "" (AStr (key "posts/a*")) author "" 30 None None None None None)].

Definition json : Json := {|
  unmarshal_document := λ s, of_option (GoError "invalid") (snd <$> List.find (λ p, String.eqb (fst p) s) texts);
  marshal_document := λ _, Err (GoError "unsupported");
  decode_subkey := λ _, Err (GoError "value");
  decode_reference := λ v, match v with AStr href => Ok (mkReference href None (Some far)) | _ => Err (GoError "value") end;
  decode_signed_document := λ _, Err (GoError "value");
  decode_entity := λ v, match v with AStr dom => Ok (mkEntityValue dom None None) | _ => Err (GoError "value") end;
  decode_delete := λ v, match v with AStr s => Ok s | _ => Err (GoError "value") end;
|}.
End Far.

Definition codec : StoreCodec :=
  {| marshal_proof p := Ok (pr_Type p);
     unmarshal_proof s := Ok (mkProof s None None None None None);
     unmarshal_policy s := Ok (mkPolicy [] None s) |}.

Definition by_author (text : string) : SignedDocument := signed text (World.by_key World.author_sig).

(** A post of an unknown author that inlines an unsigned entity document naming
    the server [evil]. *)
Definition lure : SignedDocument :=
  with_references (by_author "post") {[self_uri := signed "moved" zero_proof]}.

(** Asked for the author's entity, [evil] serves the post itself. *)
Definition env : Env := {|
  FQDN := "host";
  Layer := "main";
  now := 100;
  resolve_server := λ _, Ok ("main", "");
  LookupTXT := λ _, Err (GoError "no such host");
  dns_not_found := λ _, true;
  get_resource := λ _ hint, if String.eqb hint "evil" then Ok lure else Err (NotFoundError "" "" "");
  document_resolver := λ _, Err (NotFoundError "" "" "");
  ResolveResourceHost := λ _, Ok "host";
  ResolveResourceURI := λ uri, Ok uri;
  marshal_policy := λ _, Ok "";
  marshal_value := λ _, Ok "";
  xxh3_hex := λ s, s;
|}.

Definition policy : PolicyEval := service_policy Net.service.

#[export] Existing Instance codec.
#[export] Existing Instance env.
#[export] Existing Instance policy.

Definition user : Ctx := mkCtx None false.

(** A server that knows nobody, and one that knows the author. *)
Definition empty_st : St := mkSt empty_db [] ∅ ∅ [].

Definition home_db : DB :=
  mkDB {["e1" := mkCommitLog "" "entity" ProofTypeEcrecover author false 0]} ∅ ∅ 1 ∅ ∅ ∅
    {[author := mkEntityRow None "host" "" "e1" 5]}.
Definition home_st : St := mkSt home_db [] ∅ ∅ [].

End Server.
Import Server.

(** A commit of a post, and the keys it leaves. *)
Definition committed (far : Z) (text : string) (st : St) : result SignedDocument * St :=
  Commit (H0 := Server.json far) 3 Server.user "ip" (Server.by_author text) CommitModeExecute st.

Example commit_post :
  let out := committed 0 "post" Server.home_st in
  is_ok (fst out) = true ∧
  fst <$> map_to_list (record_keys (st_db (snd out))) = [Server.key "posts/a"; Server.key "posts"].
Proof. vm_compute. split; reflexivity. Qed.

(** ** A record dated by what it points to

    The bounds on [createdAt] are on the document's own field; a reference
    takes its place in time from its target. *)

(** whatever time a reference claims for its target - [now] is 100 and the
    skew allowed is twelve hours - the commit is accepted and the key is dated
    by it, so no later document of the key passes before that time. *)
Theorem reference_time_unbounded far :
  let out := committed far "reference" Server.home_st in
  is_ok (fst out) = true ∧
  ∃ k, record_keys (st_db (snd out)) !! Server.key "refs/a" = Some k ∧
    rk_RecordID k ≠ None ∧ rk_RecordCreatedAt k = Some far.
Proof.
  intros out. assert (is_ok (fst out) = true ∧
    ((λ k, (bool_decide (is_Some (rk_RecordID k)), rk_RecordCreatedAt k)) <$>
      record_keys (st_db (snd out)) !! Server.key "refs/a") = Some (true, Some far)) as [Hok Hk]
    by (vm_compute; split; reflexivity).
  split; [exact Hok|]. destruct (record_keys (st_db (snd out)) !! Server.key "refs/a") as [k|]; [|done].
  exists k. cbn in Hk. injection Hk as Hid Hc. apply bool_decide_eq_true in Hid as [d Hd].
  split_and!; congruence.
Qed.

(** ** A commit that never ends

    [GetEntity] commits whatever the hinted server returns, and that commit
    resolves its own author first. *)

(** The error of a run that was cut off. *)
Fixpoint cut_off (e : error) : bool :=
  match e with OutOfFuel => true | Joined a b => cut_off a || cut_off b | _ => false end.

Section Endless.
#[local] Existing Instance Server.json.
#[local] Instance json0 : Json := Server.json 0.

Definition moved : SignedDocument := signed "moved" zero_proof.

Lemma commit_moved fuel ip :
  ∃ e, Commit fuel Server.user ip moved CommitModeExecute Server.empty_st = (Err e, Server.empty_st).
Proof.
  destruct fuel as [|fuel]; [by eexists|]. cbn [Commit]. eexists. vm_compute. reflexivity.
Qed.

(** One level of the recursion, whatever the level below answers. *)
Lemma commit_lure_step commit ip e1 e2 :
  commit ip moved CommitModeExecute Server.empty_st = (Err e1, Server.empty_st) →
  commit "evil" Server.lure CommitModeExecute Server.empty_st = (Err e2, Server.empty_st) →
  ∃ f, commit_body commit Server.user ip Server.lure CommitModeExecute Server.empty_st =
    (Err (Joined f e2), Server.empty_st).
Proof.
  intros H1 H2. unfold commit_body, parse_document. rewrite bindM_check.
  replace (Str.len (sd_Document Server.lure) <=? MaxDocumentSize)%nat with true by (vm_compute; reflexivity).
  rewrite bindM_lift.
  replace (unmarshal_document (sd_Document Server.lure)) with
    (Ok (Server.record "posts/a" "note" ANil None)) by reflexivity.
  set (doc := Server.record "posts/a" "note" ANil None).
  rewrite bindM_lift. replace (rejectAliasOwners doc) with (@Ok unit tt) by (vm_compute; reflexivity).
  rewrite bindM_lift. destruct (CDID_ Server.lure) as [id| |] eqn:Eid;
    [|exfalso; revert Eid; vm_compute; discriminate..].
  rewrite bindM_gets. replace (HasCommitLog (st_db Server.empty_st) id) with false by reflexivity.
  unfold commit_new. rewrite bindM_check.
  replace (CreatedAt doc <=? now + MaxFutureSkew) with true by reflexivity.
  rewrite bindM_lift.
  replace (check_signed Server.user CommitModeExecute Server.lure doc) with (@Ok unit tt) by (vm_compute; reflexivity).
  assert (resolve_requester commit ip doc Server.lure Server.empty_st = (Ok (Err e2), Server.empty_st)) as Hr.
  { unfold resolve_requester. replace (String.eqb (Kind doc) "entity") with false by reflexivity.
    unfold getEntityWithReference.
    replace (References Server.lure !! ccid_uri (Author doc) None) with (Some moved) by (vm_compute; reflexivity).
    assert (inlined_entity (Author doc) moved = Some (mkDocument "entity" "" (mkEntityValue "evil" None None)
      Server.author EntityURL 20 None None None None None)) as -> by (vm_compute; reflexivity).
    unfold tryM at 1. rewrite bindM_read.
    replace (inlined_newer _ _) with (@Ok bool true) by (vm_compute; reflexivity).
    unfold bindM at 1 2, tryM at 1. rewrite H1. cbn [retM].
    unfold GetEntity, get_entity. rewrite bindM_lift.
    destruct (ParseCCURI _) as [p| |] eqn:Ep; [|exfalso; revert Ep; vm_compute; discriminate..].
    assert (Ccuri.Owner p = Server.author ∧ Hint p = Some "evil") as [Hown Hhint].
    { revert Ep. vm_compute. by intros [= <-]. }
    rewrite Hown. unfold Server.author, World.author. cbn [World.repeat_str String.append].
    unfold get_entity_by_ccid. rewrite Hown, Hhint.
    unfold bindM at 1, tryM at 1, readM.
    replace (GetEntityByCCID (st_db Server.empty_st) Server.author) with
      (@Err Entity (NotFoundError "entity" "" "")) by (vm_compute; reflexivity).
    cbn [is_not_found negb]. replace (String.eqb "evil" FQDN) with false by reflexivity.
    rewrite bindM_lift. replace (get_resource _ "evil") with (@Ok SignedDocument Server.lure) by reflexivity.
    unfold bindM. rewrite H2. reflexivity. }
  rewrite (bindM_ok _ _ _ _ _ Hr). rewrite bindM_lift. eexists. reflexivity.
Qed.

(** C40: a single post of an author the server does not know, signed by its own
    author and inlining an unsigned entity document that names a server, makes
    the commit ask that server for the entity; when the server answers with
    the post itself the commit re-enters itself without end: no amount of fuel
    is enough. *)
Theorem Commit_never_ends fuel ip :
  ∃ e, Commit fuel Server.user ip Server.lure CommitModeExecute Server.empty_st = (Err e, Server.empty_st) ∧
    cut_off e = true.
Proof.
  revert ip. induction fuel as [|fuel IH]; intros ip; [by eexists|]. cbn [Commit].
  destruct (commit_moved fuel ip) as [e1 H1]. destruct (IH "evil") as (e2 & H2 & Hc).
  destruct (commit_lure_step _ _ _ _ H1 H2) as [f Hf]. exists (Joined f e2). split; [exact Hf|].
  cbn. by rewrite Hc, orb_true_r.
Qed.
End Endless.

(** ** Witnesses *)

Section Witnesses.
#[local] Instance json1 : Json := Server.json 0.
#[local] Instance plain_time : TimeFormat := λ _, "t".

Lemma parseRangeDeleteTarget_sound_witness :
  "cckv://con1/item/*" = "cckv://con1/item" +:+ "/*" ∧ has_star "cckv://con1/item" = false ∧
  ∃ parsed, ParseCCURI "cckv://con1/item" = Ok parsed ∧ Ccuri.Scheme parsed = "cckv" ∧ Ccuri.Key parsed ≠ "".
Proof.
  apply (parseRangeDeleteTarget_sound "cckv://con1/item/*" "cckv://con1/item" false true).
  vm_compute. reflexivity.
Defined.

(** The post, then the post below it. *)
Definition posted : St := snd (committed 0 "post" Server.home_st).
Definition two_posts : St := snd (committed 0 "second" posted).

(** The post is applied once: delivered again, it changes nothing. *)
Lemma commit_once_witness :
  ∃ r, committed 0 "post" Server.home_st = (Ok r, posted) ∧ st_db posted ≠ st_db Server.home_st ∧
    ((∀ fuel2 ctx2 ip2 mode2 st2, rtc db_step (st_db posted) (st_db st2) →
        Commit (S fuel2) ctx2 ip2 (Server.by_author "post") mode2 st2 = (Ok (Server.by_author "post"), st2)) ∨
     ∃ doc h requester st1 r1 st2,
       unmarshal_document "post" = Ok doc ∧
       prepare (Commit 2 Server.user) Server.user (Server.by_author "post") "ip" doc CommitModeExecute Server.home_st
         = (Ok (h, requester), st1) ∧
       applyCommit (Commit 2 Server.user) Server.user h "ip" requester doc (Server.by_author "post") CommitModeExecute
         (set_tx st1 []) = (Ok r1, st2) ∧
       st_db posted = st_db st2 ∧
       ((ap_noop r1 = true ∧ r = ap_result r1 ∧ st_out posted = st_out st2) ∨
        (h = CreateAssociation_ ∧ st_tx st2 = []))).
Proof.
  eexists. split; [vm_compute; reflexivity|]. split; [vm_compute; discriminate|].
  apply (commit_once 2 Server.user "ip" (Server.by_author "post") CommitModeExecute Server.home_st); [reflexivity|].
  vm_compute. reflexivity.
Defined.

Definition delete_doc : Document string :=
  match unmarshal_typed decode_delete "delete" with
  | Ok d => d
  | _ => mkDocument "" "" "" "" "" 0 None None None None None
  end.

Definition the_author : Entity := PolicyValues.mkEntity Server.author None "host" "" None.

Lemma delete_all_or_nothing_witness :
  length (match authoritative_targets (st_db two_posts) (Server.key "posts/a*") (Server.key "posts/a") true true with
          | Ok l => l | _ => [] end) = 2%nat ∧
  let out := deleteRecord "ip" the_author (Server.by_author "delete") CommitModeExecute two_posts in
  refused out two_posts ∨
  ∃ addressed targets,
    authoritative_targets (st_db two_posts) (Server.key "posts/a*") (Server.key "posts/a") true true = Ok addressed ∧
    addressed ≠ [] ∧ traverse parse_target addressed = Ok targets ∧
    Forall (λ t, check_delete (st_db two_posts) the_author t = Ok tt) targets.
Proof.
  split; [vm_compute; reflexivity|].
  apply (delete_all_or_nothing "ip" the_author (Server.by_author "delete") CommitModeExecute two_posts
    (Server.key "posts/a*") delete_doc (Server.key "posts/a") true true); vm_compute; reflexivity.
Defined.

Definition stranger : Entity := PolicyValues.mkEntity "con1stranger" None "host" "" None.

(** Nobody but its author creates the post or deletes it with the one below it,
    and its author may. *)
Lemma undeclared_writes_witness :
  let doc := Server.record "posts/a" "note" ANil None in
  let create e := applyCommit (λ _ sd _, retM sd) Server.user CreateRecord_ "ip" (Some e) doc (Server.by_author "post")
                    CommitModeExecute Server.home_st in
  let remove e := applyCommit (λ _ sd _, retM sd) Server.user DeleteRecord_ "ip" (Some e) doc (Server.by_author "delete")
                    CommitModeExecute two_posts in
  (is_ok (fst (create the_author)) = true ∧ refused (create stranger) Server.home_st) ∧
  (is_ok (fst (remove the_author)) = true ∧ refused (remove stranger) two_posts).
Proof.
  intros doc create remove. split; (split; [vm_compute; reflexivity|]).
  - pose proof (proj1 (undeclared_writes Net.service eq_refl (λ _ sd _, retM sd) Server.user "ip" stranger doc
      (Server.by_author "post") CommitModeExecute Server.home_st)) as Hw.
    destruct Hw as [Hr|[_ [Ho|Ho]]]; [vm_compute; reflexivity|exact Hr|vm_compute in Ho; discriminate Ho..].
  - pose proof (proj1 (proj2 (undeclared_writes Net.service eq_refl (λ _ sd _, retM sd) Server.user "ip" stranger doc
      (Server.by_author "delete") CommitModeExecute two_posts))) as Hw.
    destruct (Hw delete_doc (Server.key "posts/a") true true) as [Hr|(addressed & targets & Ha & _ & Ht & Hall)];
      [vm_compute; reflexivity..|exact Hr|].
    exfalso. vm_compute in Ha. injection Ha as <-. vm_compute in Ht. injection Ht as <-.
    edestruct Hall as [[Ho|Ho]|(a & Ho & _)]; [left|vm_compute; reflexivity|..]; vm_compute in Ho; discriminate Ho.
Defined.

Definition list_posts : QueryParams :=
  mkQueryParams "" (Server.key "posts") "" "" "" None None None None 10 "desc".
Definition listed_posts : QueryResult :=
  match Query Server.user (st_db two_posts) list_posts with Ok r => r | _ => mkQueryResult [] None None end.

Lemma Query_readable_witness :
  length (Items listed_posts) = 1%nat ∧
  ∃ orderBy window,
    paged 10 orderBy (query_rows (st_db two_posts) list_posts orderBy) = Ok window ∧
    Prev listed_posts = Prev window ∧ Next listed_posts = Next window ∧ sublist (Items listed_posts) (Items window) ∧
    (∀ sd, sd ∈ Items listed_posts → ∃ uri, CCKV sd = Some uri ∧
       checkReadAccess Server.user (st_db two_posts) uri sd = Ok tt) ∧
    (∀ sd, sd ∈ Items window → sd ∈ Items listed_posts ∨
       ∃ uri e, CCKV sd = Some uri ∧ checkReadAccess Server.user (st_db two_posts) uri sd = Err e ∧
         is_permission_denied e = true).
Proof.
  split; [vm_compute; reflexivity|].
  apply (Query_readable Server.user (st_db two_posts) list_posts listed_posts). vm_compute. reflexivity.
Defined.

Definition post_event : Event := created_event (Server.key "posts/a") (Server.by_author "post") 10.
Definition marked_event : Event :=
  match markEventForAnonymous (st_db posted) post_event with Ok e => e | _ => post_event end.

Lemma public_events_witness :
  (∀ uri, is_Some (ev_References (PublicView marked_event) !! uri) ↔
     ∃ sd, ev_References post_event !! uri = Some sd ∧
       checkReadAccessAs (st_db posted) uri sd zero_entity = Ok tt) ∧
  (∀ uri shown nested, ev_References (PublicView marked_event) !! uri = Some shown →
     is_Some (References shown !! nested) ↔
     ∃ sd n, ev_References post_event !! uri = Some sd ∧ References sd !! nested = Some n ∧
       checkReadAccessAs (st_db posted) nested n zero_entity = Ok tt).
Proof. apply (public_events (st_db posted) post_event marked_event). vm_compute. reflexivity. Defined.

End Witnesses.
