(* ===== verification/Replication.v ===== *)
(** * Replication: following the commit log

    A follower reads the commit log page by page ([Replicate] of
    [src/internal/usecase/record/replication.go]): from each page it takes the
    [next] cursor, the receipt time of the first commit that was left out, as
    the bound of the next request, which includes it.  Followed so, the log is
    read completely - unless more commits than a page holds were received at one
    instant, which no follower gets past. *)

From S2P Require Import Prelude Bytes Url Cdid Ccuri Documents Verify PolicyValues Store StoreFacts Queries QueriesFacts.
From S2P Require Import Effects Usecase Commit CommitSafe CommitFacts CommitWorld.
From stdpp Require Import prelude strings gmap list sorting.
From Stdlib Require Import ZArith Lia Ascii.
Open Scope Z_scope.

(** ** The window of the next request

    The cursor becomes [since], or [until] on a descending listing. *)

Definition next_since (order : string) (since : option Z) (t : Z) : option Z :=
  if String.eqb order "desc" then since else Some t.
Definition next_until (order : string) (until : option Z) (t : Z) : option Z :=
  if String.eqb order "desc" then Some t else until.

(** At a time or after it, in the order of the listing. *)
Definition beyond (order : string) (t x : Z) : bool := if String.eqb order "desc" then x <=? t else t <=? x.

Lemma in_times_next order since until t x : in_times since until t = true →
  in_times (next_since order since t) (next_until order until t) x = in_times since until x && beyond order t x.
Proof.
  unfold in_times, next_since, next_until, beyond, at_least, at_most. intros Ht.
  apply eq_true_iff_eq. destruct (String.eqb order "desc"), since, until; cbn in *;
    rewrite ?andb_true_iff, ?Z.leb_le in *; intuition lia.
Qed.

Lemma beyond_refl order t : beyond order t t = true.
Proof. unfold beyond. case_match; apply Z.leb_refl. Qed.
Lemma beyond_trans order s t u : beyond order s t = true → beyond order t u = true → beyond order s u = true.
Proof. unfold beyond. case_match; rewrite !Z.leb_le; lia. Qed.
Lemma beyond_antisym order s t : beyond order s t = true → beyond order t s = true → s = t.
Proof. unfold beyond. case_match; rewrite !Z.leb_le; lia. Qed.
Lemma beyond_total order s t : beyond order s t = true ∨ beyond order t s = true.
Proof. unfold beyond. case_match; rewrite !Z.leb_le; lia. Qed.

(** ** Lists of rows in order of time *)

Definition at_time (t : Z) (l : list QueryRow) : list QueryRow := List.filter (λ row, qr_CreatedAt row =? t) l.
Definition in_order (order : string) (l : list QueryRow) : Prop :=
  StronglySorted (λ x y, beyond order (qr_CreatedAt x) (qr_CreatedAt y) = true) l.

Lemma filter_perm {A} (f : A → bool) l l' : l ≡ₚ l' → List.filter f l ≡ₚ List.filter f l'.
Proof.
  induction 1 as [|x l l' _ IH|x y l|l l' l'' _ IH1 _ IH2]; cbn; [done| | |by etransitivity].
  - destruct (f x); [by constructor|done].
  - destruct (f x), (f y); try done. constructor.
Qed.

Lemma filter_twice {A} (f g : A → bool) l : List.filter f (List.filter g l) = List.filter (λ x, g x && f x) l.
Proof. induction l as [|x l IH]; [done|]. cbn. destruct (g x); cbn; [destruct (f x); by rewrite IH|done]. Qed.

Lemma filter_every {A} (f : A → bool) l : (∀ x, x ∈ l → f x = true) → List.filter f l = l.
Proof. induction l as [|x l IH]; [done|]. intros Hf. cbn. rewrite Hf by by left. f_equal. apply IH. intros y Hy. apply Hf. by right. Qed.

(** Of what is in order, the rows before the [n]th come before it and the
    others after. *)
Lemma in_order_at order l n r : in_order order l → l !! n = Some r →
  (∀ x, x ∈ take n l → beyond order (qr_CreatedAt x) (qr_CreatedAt r) = true) ∧
  (∀ x, x ∈ drop n l → beyond order (qr_CreatedAt r) (qr_CreatedAt x) = true).
Proof.
  intros Hs Hr. unfold in_order in Hs. rewrite <- (take_drop_middle l n r Hr) in Hs. split.
  - intros x Hx. apply (StronglySorted_app_1_elem_of _ _ _ _ _ Hs Hx). by left.
  - intros x Hx. apply StronglySorted_app_1_r, StronglySorted_cons in Hs as [Hf _].
    rewrite (drop_S l r n Hr) in Hx. apply elem_of_cons in Hx as [->|Hx]; [apply beyond_refl|].
    rewrite Forall_forall in Hf. by apply Hf.
Qed.

(** When no instant has more rows than a page, the row after the page is later
    than the first. *)
Lemma page_moves order l n r x : in_order order l → (∀ t, length (at_time t l) <= n)%nat →
  l !! n = Some r → l !! 0%nat = Some x → beyond order (qr_CreatedAt r) (qr_CreatedAt x) = false.
Proof.
  intros Hs Hfew Hr Hx. apply not_true_is_false. intros Hb. specialize (Hfew (qr_CreatedAt r)).
  assert (at_time (qr_CreatedAt r) (take (S n) l) = take (S n) l) as E.
  { apply filter_every. intros y Hy. apply Z.eqb_eq. rewrite (take_S_r l n r Hr) in Hy.
    apply elem_of_app in Hy as [Hy| ->%list_elem_of_singleton]; [|done].
    apply (beyond_antisym order); [by apply (proj1 (in_order_at order l n r Hs Hr))|]. eapply beyond_trans; [exact Hb|].
    apply (proj2 (in_order_at order l 0 x Hs Hx)). rewrite drop_0, <- (take_drop n l). apply elem_of_app. by left. }
  rewrite <- (take_drop (S n) l) in Hfew. unfold at_time in *. rewrite List.filter_app, length_app, E, length_take in Hfew.
  apply lookup_lt_Some in Hr. lia.
Qed.

(** Where an instant has more rows than a page, the row after a page that
    starts before it is not beyond it. *)
Lemma page_stays order l n t : in_order order l → (n < length (at_time t l))%nat →
  ∃ r, l !! n = Some r ∧ beyond order (qr_CreatedAt r) t = true.
Proof.
  intros Hs Hmany. assert (length (at_time t l) <= length l)%nat by apply filter_length_le.
  destruct (lookup_lt_is_Some_2 l n ltac:(lia)) as [r Hr]. exists r. split; [done|].
  destruct (beyond_total order (qr_CreatedAt r) t) as [|Hb]; [done|]. apply dec_stable. intros Hn.
  rewrite <- (take_drop n l) in Hmany. unfold at_time in Hmany. rewrite List.filter_app, length_app in Hmany.
  rewrite (filter_none _ (drop n l)) in Hmany.
  - pose proof (filter_length_le (λ row, qr_CreatedAt row =? t) (take n l)). rewrite length_take in *. cbn in Hmany. lia.
  - intros x Hx. apply Z.eqb_neq. intros <-. by apply Hn, (proj2 (in_order_at order l n r Hs Hr)).
Qed.

(** ** Listings of the commit log *)

Section Logs.
Context `{StoreCodec} `{TimeFormat} (db : DB) (owner order : string).

#[local] Notation logs since until := (QueryCommitLogs db owner since until 0 order).

Definition selected (since until : option Z) : list (string * CommitLog) :=
  list_query log_asc (λ p, matches owner (cl_Owner (snd p)) && in_times since until (cl_CDate (snd p))) 0 order
    (map_to_list (commit_logs db)).

Lemma selected_perm since until : selected since until ≡ₚ
  List.filter (λ p, matches owner (cl_Owner (snd p)) && in_times since until (cl_CDate (snd p))) (map_to_list (commit_logs db)).
Proof. apply merge_sort_Permutation. Qed.

Lemma log_row_time p row : log_row p = Ok row → qr_CreatedAt row = cl_CDate (snd p).
Proof. unfold log_row. intros Hr. apply rbind_ok_inv in Hr as (proof & _ & Hr). by simplify_eq/=. Qed.

Lemma logs_rows since until full : logs since until = Ok full → Forall2 (λ p row, log_row p = Ok row) (selected since until) full.
Proof. apply traverse_ok. Qed.

Lemma logs_in_order since until full : logs since until = Ok full → in_order order full.
Proof.
  intros Hf%logs_rows. pose proof (list_query_sorted _ (dated_asc_total (λ p, cl_CDate (snd p)) fst)
    (dated_asc_trans (λ p, cl_CDate (snd p)) fst)
    (λ p, matches owner (cl_Owner (snd p)) && in_times since until (cl_CDate (snd p))) order (map_to_list (commit_logs db))) as Hs.
  change (list_query _ _ 0 order _) with (selected since until) in Hs. unfold in_order.
  induction Hf as [|p row ps rows Hp Hf IH]; [constructor|]. apply StronglySorted_cons in Hs as [Hall Hs]. constructor; [by apply IH|].
  apply Forall_forall. intros y Hy. destruct (list_elem_of_lookup_1 _ _ Hy) as [i Hi].
  destruct (Forall2_lookup_r _ _ _ _ _ Hf Hi) as (q & Hq & Hqy). apply list_elem_of_lookup_2 in Hq.
  rewrite Forall_forall in Hall. specialize (Hall q Hq). rewrite (log_row_time _ _ Hp), (log_row_time _ _ Hqy).
  unfold ordering, beyond in *. destruct (String.eqb order "desc"); apply dated_asc_spec in Hall; apply Z.leb_le; lia.
Qed.

Lemma logs_window since until full row : logs since until = Ok full → row ∈ full → in_times since until (qr_CreatedAt row) = true.
Proof.
  intros Hf%logs_rows Hr. destruct (list_elem_of_lookup_1 _ _ Hr) as [i Hi].
  destruct (Forall2_lookup_r _ _ _ _ _ Hf Hi) as (p & Hp%list_elem_of_lookup_2 & Hrow). rewrite (log_row_time _ _ Hrow).
  apply list_query_all in Hp as [_ Hp]. by apply andb_true_iff in Hp as [_ ?].
Qed.

(** The listing from a cursor: what of the listing lies beyond it. *)
Lemma logs_next since until full t : logs since until = Ok full → in_times since until t = true →
  ∃ rest, logs (next_since order since t) (next_until order until t) = Ok rest ∧
    rest ≡ₚ List.filter (λ row, beyond order t (qr_CreatedAt row)) full.
Proof.
  intros Hf%logs_rows Ht.
  assert (selected (next_since order since t) (next_until order until t) ≡ₚ
    List.filter (λ p, beyond order t (cl_CDate (snd p))) (selected since until)) as Hp.
  { rewrite selected_perm, (filter_perm _ _ _ (selected_perm since until)), filter_twice.
    match goal with |- List.filter ?f _ ≡ₚ List.filter ?g _ => rewrite (List.filter_ext f g); [done|] end.
    intros p. rewrite in_times_next by done. by rewrite andb_assoc. }
  assert (Forall2 (λ p row, log_row p = Ok row) (List.filter (λ p, beyond order t (cl_CDate (snd p))) (selected since until))
    (List.filter (λ row, beyond order t (qr_CreatedAt row)) full)) as Hf'.
  { clear Hp. induction Hf as [|p row ps rows Hpr _ IH]; cbn; [constructor|]. rewrite (log_row_time _ _ Hpr).
    destruct (beyond _ _ _); [by constructor|done]. }
  symmetry in Hp. destruct (Permutation_Forall2 Hp Hf') as (rest & Hr & Hf2). exists rest. split; [by apply traverse_Forall2|done].
Qed.
End Logs.

(** ** Following *)

Section Follow.
Context `{Url.NetIP} `{Json} `{Keccak} `{Secp256k1} `{StoreCodec} `{Env} `{PolicyEval} `{TimeFormat}.
Context (parse : string → result Z) (ctx : Ctx) (db : DB) (owner : string) (limit : Z) (order : string).

(** Page after page, until one has no cursor. *)
Fixpoint follow (fuel : nat) (since until : option Z) : result (list SignedDocument) :=
  match fuel with
  | O => Err OutOfFuel
  | S fuel =>
      rbind (Replicate ctx db owner since until limit order) (λ page,
      match Next page with
      | None => Ok (Documents.Items page)
      | Some text =>
          rbind (parse text) (λ t,
          rbind (follow fuel (next_since order since t) (next_until order until t)) (λ rest,
          Ok (Documents.Items page ++ rest)))
      end)
  end.

Context (parse_format : ∀ t, parse (format_rfc3339nano t) = Ok t) (system : ctx_system ctx = true) (limit_pos : 0 < limit).
#[local] Notation n := (Z.to_nat limit).

Lemma replicate_page since until full : QueryCommitLogs db owner since until 0 order = Ok full →
  ∃ page, Replicate ctx db owner since until limit order = Ok page ∧ Documents.Items page = Row <$> take n full ∧
    Next page = (λ row, format_rfc3339nano (qr_CreatedAt row)) <$> full !! n.
Proof.
  intros Hf. unfold Replicate, paged.
  assert (QueryCommitLogs db owner since until (limit + 1) order = Ok (take (S n) full)) as ->.
  { unfold QueryCommitLogs. rewrite list_query_limit by lia. replace (Z.to_nat (limit + 1)) with (S n) by lia. by apply traverse_take. }
  cbn [rbind]. rewrite paginateWindow_ok by lia. cbn [rbind]. rewrite system.
  eexists. split; [done|]. cbn. rewrite take_take, lookup_take_lt by lia. split; [f_equal; f_equal; lia|done].
Qed.

Lemma next_page since until full r : QueryCommitLogs db owner since until 0 order = Ok full → full !! n = Some r →
  ∃ rest, QueryCommitLogs db owner (next_since order since (qr_CreatedAt r)) (next_until order until (qr_CreatedAt r)) 0 order = Ok rest ∧
    rest ≡ₚ List.filter (λ row, beyond order (qr_CreatedAt r) (qr_CreatedAt row)) full.
Proof. intros Hf Hr. apply logs_next; [done|]. eapply logs_window; [done|]. by eapply list_elem_of_lookup_2. Qed.

(** A step of the follower: the last page, or a page and the rest. *)
Lemma follow_step fuel since until full : QueryCommitLogs db owner since until 0 order = Ok full →
  follow (S fuel) since until =
  match full !! n with
  | None => Ok (Row <$> full)
  | Some r => rbind (follow fuel (next_since order since (qr_CreatedAt r)) (next_until order until (qr_CreatedAt r)))
                (λ rest, Ok ((Row <$> take n full) ++ rest))
  end.
Proof.
  intros Hf. destruct (replicate_page _ _ _ Hf) as (page & Hp & Hi & Hn). cbn [follow]. rewrite Hp. cbn [rbind]. rewrite Hn, Hi.
  destruct (full !! n) as [r|] eqn:E; cbn; [by rewrite parse_format|]. by rewrite take_ge by by apply lookup_ge_None.
Qed.

Lemma follow_all fuel since until full : QueryCommitLogs db owner since until 0 order = Ok full →
  (∀ t, length (at_time t full) <= n)%nat → (length full < fuel)%nat →
  ∃ items, follow fuel since until = Ok items ∧ ∀ sd, sd ∈ items ↔ sd ∈ Row <$> full.
Proof.
  revert since until full. induction fuel as [|fuel IH]; intros since until full Hf Hfew Hfuel; [lia|].
  rewrite (follow_step _ _ _ _ Hf). destruct (full !! n) as [r|] eqn:Hr; [|by eexists].
  destruct (next_page _ _ _ _ Hf Hr) as (rest & Hrest & Hp). pose proof (logs_in_order _ _ _ _ _ _ Hf) as Hs.
  destruct full as [|x full']; [done|]. set (full := x :: full') in *.
  pose proof (page_moves order full n r x Hs Hfew Hr eq_refl) as Hmove.
  destruct (IH _ _ rest Hrest) as (items & Hi & Hin).
  - intros t. unfold at_time. rewrite (filter_perm _ _ _ Hp), filter_twice. specialize (Hfew t). etransitivity; [|exact Hfew].
    unfold at_time. clear. induction full as [|y l IH]; [done|]. cbn. destruct (beyond _ _ _), (qr_CreatedAt y =? t); cbn; lia.
  - rewrite Hp. cbn [full List.filter]. rewrite Hmove. pose proof (filter_length_le (λ row, beyond order (qr_CreatedAt r) (qr_CreatedAt row)) full').
    cbn in Hfuel. lia.
  - rewrite Hi. cbn [rbind]. eexists. split; [done|]. intros sd. rewrite elem_of_app, Hin.
    assert (∀ row, row ∈ full ↔ row ∈ take n full ∨ row ∈ rest) as Hsplit.
    { intros row. rewrite Hp, elem_of_filter_b. split; [|intros [Hrow|[? _]]; [|done]; rewrite <- (take_drop n full); apply elem_of_app; by left].
      rewrite <- (take_drop n full) at 1. intros [?|Hd]%elem_of_app; [by left|right]. split.
      - rewrite <- (take_drop n full). apply elem_of_app. by right.
      - by apply (proj2 (in_order_at order full n r Hs Hr)). }
    rewrite !list_elem_of_fmap. setoid_rewrite Hsplit. naive_solver.
Qed.

Lemma follow_stuck fuel since until full t : QueryCommitLogs db owner since until 0 order = Ok full →
  (n < length (at_time t full))%nat → follow fuel since until = Err OutOfFuel.
Proof.
  revert since until full. induction fuel as [|fuel IH]; intros since until full Hf Hmany; [done|].
  pose proof (logs_in_order _ _ _ _ _ _ Hf) as Hs. destruct (page_stays order full n t Hs Hmany) as (r & Hr & Hb).
  rewrite (follow_step _ _ _ _ Hf), Hr. destruct (next_page _ _ _ _ Hf Hr) as (rest & Hrest & Hp).
  rewrite (IH _ _ rest Hrest); [done|]. unfold at_time. rewrite (filter_perm _ _ _ Hp), filter_twice.
  rewrite (List.filter_ext _ (λ row, qr_CreatedAt row =? t)); [done|]. intros row.
  destruct (Z.eqb_spec (qr_CreatedAt row) t) as [->|]; [by rewrite Hb|by rewrite andb_false_r].
Qed.

(** C39: following the commit log by its cursors.  The system account reads the
    log of an owner, or all of it, between two times, in either order, in pages
    of at least one commit, taking each page's [next] cursor, which reads back
    as the time it was written from, as the bound of the next request.  If no
    more commits than a page holds were received at any one instant, this ends
    with every commit of the listing, perhaps some of them twice, and nothing
    else; if at some instant there were more, it never ends. *)
Theorem replication_pages since until full : QueryCommitLogs db owner since until 0 order = Ok full →
  ((∀ t, Z.of_nat (length (at_time t full)) <= limit) →
     ∃ items, follow (S (length full)) since until = Ok items ∧ ∀ sd, sd ∈ items ↔ sd ∈ Row <$> full) ∧
  (∀ t, limit < Z.of_nat (length (at_time t full)) → ∀ fuel, follow fuel since until = Err OutOfFuel).
Proof.
  intros Hf. split.
  - intros Hfew. apply follow_all; [done| |lia]. intros t. specialize (Hfew t). lia.
  - intros t Hmany fuel. apply (follow_stuck fuel since until full t); [done|lia].
Qed.
End Follow.

(** ** Example: three commits, two of them at one instant *)

Section Example.
#[local] Existing Instance World.netip.
#[local] Existing Instance World.keccak.
#[local] Existing Instance World.secp.
#[local] Existing Instance Server.env.
#[local] Existing Instance Server.policy.
#[local] Instance json0 : Json := Server.json 0.
#[local] Instance plain_codec : StoreCodec :=
  {| marshal_proof p := Ok (pr_Type p);
     unmarshal_proof s := Ok (mkProof s None None None None None);
     unmarshal_policy s := Ok (mkPolicy [] None s) |}.

(** Times as marks on a tally stick. *)
Fixpoint marks (k : nat) : string := match k with O => "" | S k => String "1" (marks k) end.
#[local] Instance tally : TimeFormat := λ t, (if t <? 0 then "-" else "") +:+ marks (Z.abs_nat t).
Definition count_marks (s : string) : result Z :=
  match s with
  | String "-" s => Ok (- Z.of_nat (String.length s))
  | s => Ok (Z.of_nat (String.length s))
  end.

Lemma marks_length k : String.length (marks k) = k.
Proof. induction k as [|k IH]; cbn; [done|by rewrite IH]. Qed.

Lemma count_tally t : count_marks (format_rfc3339nano t) = Ok t.
Proof.
  unfold format_rfc3339nano, tally. destruct (Z.ltb_spec t 0); cbn.
  - rewrite marks_length. f_equal. lia.
  - replace t with (Z.of_nat (Z.abs_nat t)) at 2 by lia. rewrite <- (marks_length (Z.abs_nat t)) at 2. by destruct (Z.abs_nat t).
Qed.

Definition three_logs : DB := set_commit_logs empty_db
  {["d1" := mkCommitLog "" "one" "none" "a" false 1; "d2" := mkCommitLog "" "two" "none" "a" false 2;
    "d3" := mkCommitLog "" "three" "none" "a" false 2]}.

Definition log_rows : list QueryRow :=
  match QueryCommitLogs three_logs "a" None None 0 "asc" with Ok l => l | _ => [] end.

(** Two at a time: the second page starts with the second commit again. *)
Lemma replication_pages_witness :
  (sd_Document <$> match follow count_marks (mkCtx None true) three_logs "a" 2 "asc" 4 None None with Ok l => l | _ => [] end) =
    ["one"; "two"; "two"; "three"] ∧
  ((∀ t, Z.of_nat (length (at_time t log_rows)) <= 2) →
     ∃ items, follow count_marks (mkCtx None true) three_logs "a" 2 "asc" 4 None None = Ok items ∧
       ∀ sd, sd ∈ items ↔ sd ∈ Row <$> log_rows) ∧
  (∀ t, 2 < Z.of_nat (length (at_time t log_rows)) →
     ∀ fuel, follow count_marks (mkCtx None true) three_logs "a" 2 "asc" fuel None None = Err OutOfFuel).
Proof.
  split; [vm_compute; reflexivity|].
  apply (replication_pages count_marks (mkCtx None true) three_logs "a" 2 "asc" count_tally eq_refl ltac:(lia) None None log_rows).
  vm_compute. reflexivity.
Defined.
End Example.
