(* ===== verification/RestFacts.v ===== *)
(** * RestFacts: bounds of the listings, and what a denied request shows

    A listing answers with at most the clamped limit.  A record the requester
    may not read is answered like one that does not exist, unless the server is
    in debug mode - but a reference record is answered with its target whoever
    asks.  The witnesses run on the server of [CommitWorld]. *)

From S2P Require Import Prelude Effects Bytes Url Cdid Ccuri Documents Verify Jwt Client ClientFacts.
From S2P Require Import PolicyValues Store StoreFacts Queries QueriesFacts Counts Tags Usecase Commit CommitFacts Numbers Auth Residence.
From S2P Require Import Server Heap Chunkline ChunkStore Rest CommitWorld.
From stdpp Require Import prelude strings gmap list sorting.
From Stdlib Require Import ZArith Lia Ascii.
Open Scope Z_scope.
Open Scope uc_scope.

(** ** Listings *)

Section Listings.
Context `{Url.NetIP} `{Json} `{Keccak} `{Secp256k1} `{StoreCodec} `{Orm} `{Env} `{PolicyEval} `{TimeFormat} `{TimeParse}.

Lemma clamp_limit_bounds n : 1 <= clamp_limit n <= 100.
Proof.
  unfold clamp_limit. destruct (Z.ltb_spec n 1); cbn zeta; [done|]. destruct (Z.ltb_spec 100 n); lia.
Qed.

(** What a window is, however it was asked for: a limit from 1 to 100,
    ascending or descending, with cursors of one kind. *)
Record window_ok (keyCursors : bool) (w : queryWindow) : Prop := {
  wo_limit : 1 <= w_limit w <= 100;
  wo_order : w_order w = "asc" ∨ w_order w = "desc";
  wo_times : keyCursors = true → w_since w = None ∧ w_until w = None;
  wo_keys : keyCursors = false → w_sinceKey w = None ∧ w_untilKey w = None;
}.

Lemma parse_window_ok q keyCursors w : parseQueryWindow q keyCursors = Ok w → window_ok keyCursors w.
Proof.
  unfold parseQueryWindow. intros Hw. apply rbind_ok_inv in Hw as (since & Hs & Hw).
  apply rbind_ok_inv in Hw as (until & Hu & Hw). apply rbind_ok_inv in Hw as (limit & Hl & Hw).
  apply rbind_ok_inv in Hw as (order & Ho & [= <-]). constructor; cbn.
  - apply clamp_limit_bounds.
  - destruct (String.eqb _ "") in Ho; [by injection Ho as <-; right|].
    destruct (String.eqb_spec (QueryParam q "order") "asc") as [E|]; [cbn in Ho; injection Ho as <-; by left|].
    destruct (String.eqb_spec (QueryParam q "order") "desc") as [E|]; [cbn in Ho; injection Ho as <-; by right|done].
  - intros ->. cbn in Hs, Hu. by simplify_eq.
  - by intros ->.
Qed.

Lemma respond_json {A} fail (r : result A) code a :
  respond OK fail r = Ok (JSON code a) → (∀ e code a, fail e ≠ JSON code a) → r = Ok a ∧ code = 200.
Proof. destruct r; cbn; [intros [= <- <-]; done|intros [= E] Hf; by destruct (Hf _ _ _ E)|done]. Qed.

Lemma paged_length limit orderBy rows res : 0 <= limit →
  paged limit orderBy rows = Ok res → Z.of_nat (length (Documents.Items res)) <= limit.
Proof.
  unfold paged. intros Hl Hr. apply rbind_ok_inv in Hr as (l & _ & Hr). rewrite paginateWindow_ok in Hr by done.
  injection Hr as <-. cbn [Documents.Items]. rewrite length_fmap, length_take. lia.
Qed.

Lemma Query_length ctx db p res : 0 <= qp_Limit p → Query ctx db p = Ok res → Z.of_nat (length (Documents.Items res)) <= qp_Limit p.
Proof.
  unfold Query. intros Hl. destruct (_ && _); [done|]. intros Hr. apply rbind_ok_inv in Hr as (page & Hp & Hr).
  apply rbind_ok_inv in Hr as (items & Hf & [= <-]). apply filter_readable_spec in Hf as (Hs & _).
  apply sublist_length in Hs. apply paged_length in Hp; cbn; lia.
Qed.

Lemma Replicate_length ctx db owner since until limit order res : 0 <= limit →
  Replicate ctx db owner since until limit order = Ok res → Z.of_nat (length (Documents.Items res)) <= limit.
Proof.
  unfold Replicate. intros Hl Hr. apply rbind_ok_inv in Hr as (page & Hp & Hr). apply paged_length in Hp; [|done].
  destruct (ctx_system ctx); [by injection Hr as <-|]. apply rbind_ok_inv in Hr as (items & Hf & [= <-]).
  apply filter_readable_spec in Hf as (Hs & _). apply sublist_length in Hs. cbn. lia.
Qed.

Lemma InternalError_json {T} e code (a : T) : InternalError e ≠ JSON code a.
Proof. done. Qed.

(** A listing handler that answers with a page was given a window. *)
Lemma with_window_json {T} q keyCursors (k : queryWindow → result (Response T)) code a :
  with_window q keyCursors k = Ok (JSON code a) →
  ∃ w, parseQueryWindow q keyCursors = Ok w ∧ window_ok keyCursors w ∧ k w = Ok (JSON code a).
Proof.
  unfold with_window. destruct (parseQueryWindow q keyCursors) as [w| |] eqn:Hw; [|done..].
  intros Hk. exists w. split_and!; [done|by eapply parse_window_ok|done].
Qed.

(** The pages of the four list endpoints. *)
Definition page_of (ctx : Ctx) (db : DB) (q : Values) (r : result (Response QueryResult)) : Prop :=
  r = handleQuery ctx db q ∨ r = handleReplication ctx db q ∨ r = handleAssociations db q ∨ r = handleAcknowledges db q.

(** C33: a page of any list endpoint has at most as many items as the request's
    limit allows, which is at most a hundred whatever the request says; and the
    window behind it is well formed. *)
Theorem listing_bounded ctx db q r code res : page_of ctx db q r → r = Ok (JSON code res) →
  ∃ keyCursors w, parseQueryWindow q keyCursors = Ok w ∧ window_ok keyCursors w ∧
    Z.of_nat (length (Documents.Items res)) <= w_limit w <= 100.
Proof.
  intros [->|[->|[->| ->]]] Hr.
  - unfold handleQuery in Hr. destruct (Bool.eqb _ _); [done|]. destruct (negb _ && negb _); [done|].
    destruct (_ && _); [done|].
    apply with_window_json in Hr as (w & Hw & Hok & Hr). eexists _, w. split; [done|]. split; [done|].
    apply respond_json in Hr as [Hr _]; [|apply InternalError_json]. apply Query_length in Hr; cbn in Hr; destruct Hok; cbn; lia.
  - apply with_window_json in Hr as (w & Hw & Hok & Hr). eexists _, w. split; [done|]. split; [done|].
    apply respond_json in Hr as [Hr _]; [|apply InternalError_json]. apply Replicate_length in Hr; destruct Hok; lia.
  - unfold handleAssociations in Hr. destruct (String.eqb _ ""); [done|].
    apply with_window_json in Hr as (w & Hw & Hok & Hr). eexists _, w. split; [done|]. split; [done|].
    apply respond_json in Hr as [Hr _]; [|apply InternalError_json]. apply paged_length in Hr; destruct Hok; lia.
  - unfold handleAcknowledges in Hr. destruct (Bool.eqb _ _); [done|].
    apply with_window_json in Hr as (w & Hw & Hok & Hr). eexists _, w. split; [done|]. split; [done|].
    apply respond_json in Hr as [Hr _]; [|apply InternalError_json]. apply paged_length in Hr; destruct Hok; lia.
Qed.
End Listings.

(** ** Resolving a record *)

Section Resolving.
Context `{Url.NetIP} `{Json} `{Keccak} `{Secp256k1} `{StoreCodec} `{Orm} `{Env} `{PolicyEval}.
Context `{ClientJson} `{UriTemplate} `{ServerClient} `{Self}.

(** The owner is no alias and the URI addresses a record or a stored document. *)
Definition record_uri (p : CCURI) : bool :=
  negb (String.eqb (Ccuri.Scheme p) "ccfs" && String.eqb (Ccuri.Type_ p) CCFSTypeBlob) &&
  negb (String.eqb (Ccuri.Key p) "" && String.eqb (Ccuri.CDID p) "") &&
  negb (String.eqb (Ccuri.Scheme p) "cckv" && String.eqb (Ccuri.Key p) "") && negb (Str.has_prefix (Ccuri.Owner p) "@").

(** The request's parameter is such a URI, which is written [uri]. *)
Definition names_record (q : Values) (uri : string) : bool :=
  match PathUnescape (QueryParam q "uri") with
  | Ok text =>
      match Url.Parse text, ParseCCURI text, ParseCCURI uri with
      | Ok u, Ok p, Ok p' =>
          negb (String.eqb text "") && negb (String.eqb (Url.Scheme u) "http" || String.eqb (Url.Scheme u) "https") &&
          String.eqb (Url.String_ u) uri && record_uri p && record_uri p'
      | _, _, _ => false
      end
  | _ => false
  end.

Lemma on_records_run {A} (m : M A) st : on_records m st = (fst (m (fst st)), (snd (m (fst st)), snd st)).
Proof. unfold on_records. by destruct (m (fst st)). Qed.

Lemma answer_run {S A} (m : SM S A) ok failed st :
  fst (answer m ok failed st) = match fst (m st) with Ok a => Ok (OK (ok a)) | Err e => failed e | Panic => Panic end.
Proof. unfold answer, bindM, tryM. by destruct (m st) as [[| |] ?]. Qed.

Lemma resolve_record debug fuel ctx accept q uri st :
  names_record q uri = true → accept ≠ "application/chunkline+json" →
  fst (handleResolve debug fuel ctx accept q st) =
  match fst (get_signed fuel ctx uri (fst st)) with
  | Ok sd => Ok (OK (RDocument sd)) | Err e => record_failed debug e | Panic => Panic
  end.
Proof.
  unfold names_record, handleResolve. intros Hn Ha. destruct (PathUnescape _) as [text| |]; [|done..].
  destruct (Url.Parse text) as [u| |]; [|done..]. destruct (ParseCCURI text) as [p| |]; [|done..].
  destruct (ParseCCURI uri) as [p'| |]; [|done..].
  apply andb_true_iff in Hn as [Hn _]. apply andb_true_iff in Hn as [Hn Hp]. apply andb_true_iff in Hn as [Hn Huri%String.eqb_eq].
  apply andb_true_iff in Hn as [Ht%negb_true_iff Hs%negb_true_iff]. rewrite Ht, Hs, Huri. unfold resolve_parsed.
  unfold record_uri in Hp. apply andb_true_iff in Hp as [Hp _]. apply andb_true_iff in Hp as [Hp _].
  apply andb_true_iff in Hp as [Hb%negb_true_iff Hk%negb_true_iff]. rewrite Hb, Hk.
  rewrite (proj2 (String.eqb_neq _ _) Ha). by rewrite answer_run, on_records_run.
Qed.

(** What a stored document is read as. *)
Lemma get_signed_record fuel ctx q uri st : names_record q uri = true →
  fst (get_signed fuel ctx uri st) =
  match Store.GetSignedDocument (st_db st) uri with
  | Ok sd =>
      match reference_of sd with
      | Some ref => rbind (ResolveResourceURI (ref_Href ref)) (λ location, Err (RedirectError location))
      | None => rbind (checkReadAccess ctx (st_db st) uri sd) (λ _, Ok (Some sd))
      end
  | Err e => Err e
  | Panic => Panic
  end.
Proof.
  unfold names_record. intros Hn. destruct (PathUnescape _) as [text| |]; [|done..].
  destruct (Url.Parse text); [|done..]. destruct (ParseCCURI text); [|done..].
  destruct (ParseCCURI uri) as [p'| |] eqn:Hp'; [|done..]. apply andb_true_iff in Hn as [_ Hp].
  unfold record_uri in Hp. apply andb_true_iff in Hp as [Hp Hal%negb_true_iff]. apply andb_true_iff in Hp as [_ Hck%negb_true_iff].
  unfold get_signed, GetSigned. rewrite bindM_lift, Hp'. rewrite Hck.
  assert (CanonicalizeURI (Commit.Commit fuel ctx) uri st = (Ok uri, st)) as Hcan.
  { unfold CanonicalizeURI. rewrite bindM_lift, Hp'. by rewrite Hal. }
  rewrite (bindM_ok _ _ _ _ _ Hcan), bindM_read. destruct (Store.GetSignedDocument (st_db st) uri) as [sd| |]; [|done..].
  destruct (reference_of sd).
  - rewrite bindM_lift. by destruct (ResolveResourceURI _).
  - rewrite bindM_read. by destruct (checkReadAccess _ _ _ _).
Qed.

(** a request for a record the requester may not read is answered like one
    for a record that does not exist: the answers of two servers, one that has
    the record and one that does not, are the same. *)
Theorem denied_looks_missing fuel ctx accept q uri sd e e' st st' :
  names_record q uri = true → accept ≠ "application/chunkline+json" →
  Store.GetSignedDocument (st_db (fst st)) uri = Ok sd → reference_of sd = None →
  checkReadAccess ctx (st_db (fst st)) uri sd = Err e → is_permission_denied e = true → is_redirect e = false →
  Store.GetSignedDocument (st_db (fst st')) uri = Err e' → is_not_found e' = true →
  fst (handleResolve false fuel ctx accept q st) = fst (handleResolve false fuel ctx accept q st').
Proof.
  intros Hn Ha Hsd Href Hread Hden Hred Hmiss Hnf.
  rewrite !(resolve_record false fuel ctx accept q uri) by done.
  rewrite !(get_signed_record fuel ctx q uri) by done. rewrite Hsd, Href, Hread, Hmiss. cbn.
  unfold record_failed. rewrite Hnf, Hred, Hden. by destruct (is_not_found e).
Qed.

(** A reference record is answered with a redirection to its target before any
    policy is asked: whoever may not read it learns that it exists and where it
    leads.  (The body of the answer is the record.) *)
Theorem reference_unhidden debug fuel ctx accept q uri sd ref location st :
  names_record q uri = true → accept ≠ "application/chunkline+json" →
  Store.GetSignedDocument (st_db (fst st)) uri = Ok sd → reference_of sd = Some ref →
  ResolveResourceURI (ref_Href ref) = Ok location →
  fst (handleResolve debug fuel ctx accept q st) = Ok (Redirect location).
Proof.
  intros Hn Ha Hsd Href Hloc. rewrite (resolve_record debug fuel ctx accept q uri) by done.
  rewrite (get_signed_record fuel ctx q uri) by done. rewrite Hsd, Href, Hloc. reflexivity.
Qed.
End Resolving.

(** ** A server whose policy denies every read *)

Module Hidden.
#[local] Existing Instance World.netip.
#[local] Existing Instance World.keccak.
#[local] Existing Instance World.secp.
#[local] Existing Instance Server.codec.
#[local] Existing Instance Server.env.
#[local] Existing Instance StoreFacts.gorm.
#[local] Existing Instance Remote.codecs.
#[local] Existing Instance Remote.template.
#[local] Instance json : Json := Server.json 0.
#[local] Instance denies : PolicyEval := λ _ _ _ _ _, Err (PermissionError "read").
#[local] Instance remote : ServerClient := {| remote_GetServer _ _ := Err (GoError "offline"); remote_ResolveHost _ := Ok "host" |}.
#[local] Instance self : Server.Self := {| own_FQDN := "host"; own_CSID := "ccs"; own_Layer := "main"; own_Endpoints := ∅ |}.
#[local] Instance times : TimeFormat := λ _, "now".
#[local] Instance parses : TimeParse := λ _, Ok 0.

(** The server after the author's post, and after its reference record. *)
Definition with_post : St * Server.ServerDB := (snd (committed 0 "post" Server.home_st), ∅).
Definition with_reference : St * Server.ServerDB := (snd (committed 0 "reference" Server.home_st), ∅).
Definition without : St * Server.ServerDB := (Server.home_st, ∅).
Definition ask (k : string) : Values := {["uri" := Server.key k]}.
Definition stored (st : St * Server.ServerDB) (k : string) : SignedDocument :=
  match Store.GetSignedDocument (st_db (fst st)) (Server.key k) with Ok sd => sd | _ => zero_signed_document end.

Lemma denied_looks_missing_witness :
  fst (handleResolve false 3 Server.user "" (ask "posts/a") with_post) =
  fst (handleResolve false 3 Server.user "" (ask "posts/a") without).
Proof.
  apply (denied_looks_missing 3 Server.user "" (ask "posts/a") (Server.key "posts/a") (stored with_post "posts/a")
    (PermissionError "read") (Joined (NotFoundError (Server.key "posts/a") "" "") (GoError "record not found"))); [vm_compute|done|vm_compute..]; try reflexivity.
Defined.

Lemma reference_unhidden_witness :
  checkReadAccess Server.user (st_db (fst with_reference)) (Server.key "refs/a") (stored with_reference "refs/a") =
    Err (PermissionError "read") ∧
  fst (handleResolve false 3 Server.user "" (ask "refs/a") with_reference) = Ok (Redirect "cckv://elsewhere/x").
Proof.
  split; [vm_compute; reflexivity|].
  apply (reference_unhidden false 3 Server.user "" (ask "refs/a") (Server.key "refs/a") (stored with_reference "refs/a")
    (mkReference "cckv://elsewhere/x" None (Some 0))); vm_compute; reflexivity || done.
Defined.

(** A request for a thousand commits of the author gets a window of a hundred. *)
Definition many : Values := {["owner" := Server.author; "limit" := "1000"]}.
Definition many_page : Documents.QueryResult :=
  match handleReplication (mkCtx None true) (st_db (fst with_post)) many with Ok (JSON _ p) => p | _ => mkQueryResult [] None None end.

Lemma listing_bounded_witness :
  length (Documents.Items many_page) = 2%nat ∧
  ∃ keyCursors w, parseQueryWindow many keyCursors = Ok w ∧ window_ok keyCursors w ∧
    Z.of_nat (length (Documents.Items many_page)) <= w_limit w <= 100.
Proof.
  split; [vm_compute; reflexivity|].
  apply (listing_bounded (mkCtx None true) (st_db (fst with_post)) many
    (handleReplication (mkCtx None true) (st_db (fst with_post)) many) 200); [right; left; reflexivity|vm_compute; reflexivity].
Defined.
End Hidden.
