(* ===== verification/AuthWorld.v ===== *)
(** * AuthWorld: requests to the concrete server

    The author's token, and its requests to the server of [CommitWorld]: the
    witnesses of the theorems of [Auth] and [Residence]. *)

From S2P Require Import Prelude Effects Bytes Url Cdid Ccuri Documents Verify Jwt Client ClientFacts.
From S2P Require Import PolicyValues Store StoreFacts Queries Tags Usecase Commit CommitFacts Auth Residence CommitWorld.
From stdpp Require Import prelude strings gmap list.
From Stdlib Require Import ZArith Lia Ascii.
Open Scope Z_scope.
Open Scope uc_scope.

Section Witnesses.
#[local] Instance netip : Url.NetIP := World.netip.
#[local] Instance keccak : Keccak := World.keccak.
#[local] Instance json : Json := Server.json 0.
#[local] Instance codec : StoreCodec := Server.codec.
#[local] Existing Instance World.secp.
#[local] Existing Instance Server.env.
#[local] Existing Instance Server.policy.
#[local] Existing Instance StoreFacts.gorm.
#[local] Existing Instance TokenWorld.json.
#[local] Instance csid : AuthConfig := "ccs-of-host".

Lemma client_fresh_ok : @cache_ok _ _ _ _ Remote.codec Usecase.resolver Remote.fresh.
Proof. intros key e t Hl. cbn in Hl. by rewrite lookup_empty in Hl. Qed.

#[local] Instance records : RecordClient Usecase.resolver :=
  @client_records Remote.web Remote.codecs Remote.template _ _ _ _ Remote.codec "host" Usecase.resolver Remote.fresh
    client_fresh_ok Remote.hashes_content.

Definition header_of (token : string) : string := "Bearer " +:+ token.
Definition no_commit : string → SignedDocument → CommitMode → M SignedDocument := λ _ sd _, retM sd.
Definition identified_author : result Identified * St :=
  IdentifyIdentity no_commit (header_of TokenWorld.jwt) Server.home_st.
Definition the_requester : Entity :=
  match fst identified_author with Ok (Continue (Authenticated e _)) => e | _ => zero_entity end.

(** The author's token identifies the author, and nothing else changes. *)
Lemma IdentifyIdentity_sound_witness :
  identified_author = (Ok (Continue (Authenticated the_requester (ParseTags ""))), Server.home_st) ∧
  e_ID the_requester = Server.author ∧
  identity_shown no_commit (header_of TokenWorld.jwt) Server.home_st Server.home_st
    (Authenticated the_requester (ParseTags "")).
Proof.
  split; [vm_compute; reflexivity|]. split; [vm_compute; reflexivity|].
  apply (IdentifyIdentity_sound no_commit (header_of TokenWorld.jwt) Server.home_st
    (Authenticated the_requester (ParseTags "")) Server.home_st).
  vm_compute. reflexivity.
Defined.

(** With it the author commits a post. *)
Lemma request_admitted_witness :
  let r := Authenticated the_requester (ParseTags "") in
  is_ok (fst (Commit.Commit 3 (context_of r) "ip" (Server.by_author "post") CommitModeExecute Server.home_st)) = true ∧
  identity_shown no_commit (header_of TokenWorld.jwt) Server.home_st Server.home_st r ∧
  ∃ doc, unmarshal_document "post" = Ok doc ∧
    (HasCommitLog (st_db Server.home_st) (cdid_of (Server.by_author "post") doc) = true ∨
     authorised Usecase.resolver maxVerifyDepth (Server.by_author "post") ∨
     r = ServiceAccount config_CSID "system").
Proof.
  intros r. split; [vm_compute; reflexivity|].
  apply (request_admitted 2 no_commit (header_of TokenWorld.jwt) Server.home_st
    (Authenticated the_requester (ParseTags "")) Server.home_st "ip" (Server.by_author "post") CommitModeExecute).
  - vm_compute. reflexivity.
  - vm_compute. reflexivity.
Defined.

(** JSON of the author's entity. *)
#[local] Instance entity_json : EntityJson := {|
  marshal_entity e := if decide (interop e = interop the_requester) then Ok "author" else Err (GoError "json");
  unmarshal_entity s := if String.eqb s "author" then Ok (interop the_requester) else Err (GoError "json");
|}.

(** A client that claims to be someone else reaches the services as itself. *)
Definition forged : gmap string string := {["cc-requester" := "someone"; "accept" := "json"]}.
Definition forwarded : gmap string string :=
  match forward (Authenticated the_requester (ParseTags "")) forged with Ok h => h | _ => ∅ end.

Lemma forward_receive_witness :
  forwarded !! "accept" = Some "json" ∧
  ReceiveGatewayAuthPropagation forwarded = Ok (propagated (Authenticated the_requester (ParseTags ""))) ∧
  (∀ k, k ≠ RequesterHeader → k ≠ RequesterTagHeader → forwarded !! k = forged !! k).
Proof.
  split; [vm_compute; reflexivity|].
  apply (forward_receive (Authenticated the_requester (ParseTags "")) forged forwarded).
  - intros e s. cbn. destruct (decide _) as [->|]; [|done]. by intros [= <-].
  - vm_compute. reflexivity.
Defined.

(** ** Registration *)

Definition invited : EntityMeta := mkEntityMeta Server.author (Some "inviter") "about me".
Definition resident_st : St := set_metas Server.home_st {[Server.author := invited]}.
Definition request_with (p : Proof_) : RegisterRequest := mkRegisterRequest (signed "entity" p) ANil None.
Notation registers p := (Register 3 "open" None Server.user "ip" (request_with p) resident_st).

Lemma Register_gate_witness :
  let out := registers (World.by_key World.author_sig) in
  is_ok (fst out) = true ∧
  (refused out resident_st ∨
   ∃ meta, admits "open" None (request_with (World.by_key World.author_sig)) (st_db resident_st) meta ∧
     st_metas (snd out) = <[em_ID meta := meta]> (st_metas resident_st) ∧
     rtc StoreInv.db_step (st_db resident_st) (st_db (snd out))).
Proof.
  split; [vm_compute; reflexivity|].
  exact (Register_gate 3 "open" None Server.user "ip" (request_with (World.by_key World.author_sig)) resident_st
    eq_refl).
Defined.

Definition the_entity : Document EntityValue :=
  match unmarshal_typed decode_entity "entity" with
  | Ok d => d
  | _ => mkDocument "" "" (mkEntityValue "" None None) "" "" 0 None None None None None
  end.

Lemma Register_unverified_witness :
  st_metas resident_st !! Server.author = Some invited ∧
  is_ok (fst (registers zero_proof)) = false ∧
  st_metas (snd (registers zero_proof)) !! Server.author = Some (mkEntityMeta Server.author None "") ∧
  st_db (snd (registers zero_proof)) = st_db resident_st.
Proof.
  split; [reflexivity|].
  refine (Register_unverified 2 None Server.user "ip" (request_with zero_proof) the_entity 5 "" resident_st
    _ eq_refl eq_refl _ eq_refl _ _ eq_refl _ _); [discriminate|vm_compute; first [reflexivity|discriminate]..| |].
  - intros Ha. inversion Ha; discriminate.
  - intros doc Hd. vm_compute in Hd. injection Hd as <-. vm_compute. reflexivity.
Defined.
End Witnesses.
