(* ===== verification/Account.v ===== *)
(** * Account: accounts and tokens from the command line
      ([src/cmd/conctl/create-account.go], [identity_helpers.go], [generate-token.go])

    [create-account] makes a key pair, or takes one, signs an entity document
    for this server with it and registers it through the use case, with open
    registration, no policy and nowhere to send anything.  [generate token]
    issues a token of the server's own service accounts.  What they make is
    what the server accepts. *)

From S2P Require Import Prelude Effects Bytes Base64 Numbers Url Cdid Ccuri Documents Verify Jwt Client ClientFacts.
From S2P Require Gateway.
From S2P Require Import PolicyValues Store StoreFacts StoreInv Queries Tags Usecase Commit CommitSafe CommitFacts Auth Residence CommitWorld AuthWorld.
From stdpp Require Import prelude strings gmap list relations.
From Stdlib Require Import ZArith Lia Ascii.
Open Scope Z_scope.
Open Scope uc_scope.

(** ** Hexadecimal text *)

Definition hex_char (v : Z) : ascii := default "0"%char (String.get (Z.to_nat v) "0123456789abcdef").

(** [hex.EncodeToString] *)
Fixpoint hex_encode (l : list Z) : string :=
  match l with
  | [] => ""
  | b :: l => String (hex_char (b / 16)) (String (hex_char (b mod 16)) (hex_encode l))
  end.

Lemma unhex_char d : 0 <= d < 16 → Url.unhex (hex_char d) = Some d.
Proof.
  intros Hd. assert (d ∈ seqZ 0 16) as Hin by (apply elem_of_seqZ; lia).
  assert (Forall (λ d, Url.unhex (hex_char d) = Some d) (seqZ 0 16)) as Hall by (repeat constructor).
  rewrite Forall_forall in Hall. by apply Hall.
Qed.

Lemma hex_roundtrip l : Forall (digit 256) l → hex_decode (hex_encode l) = Ok l.
Proof.
  induction 1 as [|b l Hb _ IH]; [done|]. unfold digit in Hb. cbn -[Z.mul Z.add Z.div Z.modulo Url.unhex hex_char].
  rewrite !unhex_char by (Z.to_euclidean_division_equations; lia). rewrite IH. cbn -[Z.mul Z.add Z.div Z.modulo Url.unhex hex_char].
  do 2 f_equal. Z.to_euclidean_division_equations; lia.
Qed.

(** ** Identities *)

Record generatedIdentity : Type := mkIdentity {
  gi_CCID : string;
  gi_Mnemonic : string;
  gi_PrivateKey : string;
  gi_PublicKey : string;
}.

(** Entropy, mnemonics and key derivation, of go-bip39 and cosmos-sdk; [private_key]
    is [DerivePrivateKeyForPath] of the masters of a seed. *)
Class Bip39 := {
  new_entropy : result (list Z);
  new_mnemonic : list Z → result string;
  mnemonic_seed : string → string → result (list Z);
  private_key : list Z → string → result (list Z);
}.

(** JSON of the command's values: the meta information parsed and written again,
    a raw message as a value, and an entity document. *)
Class AccountJson := {
  parse_info : string → result any_;
  write_info : any_ → result string;
  raw_message : string → any_;
  marshal_entity_document : Document EntityValue → result string;
}.

(** The use case does without a policy, a signal and a queue: every action is
    allowed, and what would be sent is dropped. *)
Definition nopPolicy : PolicyEval := λ _ _ _ _ _, Ok tt.

Section Account.
Context `{Url.NetIP} `{Json} `{Keccak} `{Secp256k1} `{StoreCodec} `{Orm} `{Env} `{JwtJson} `{AuthConfig}.
Context `{Signer} `{Bip39} `{AccountJson}.
#[local] Existing Instance nopPolicy.

Definition generateIdentityMaterial : result generatedIdentity :=
  entropy ← wrap "failed to generate entropy" new_entropy;
  mnemonic ← wrap "failed to generate mnemonic" (new_mnemonic entropy);
  seed ← wrap "failed to derive seed from mnemonic" (mnemonic_seed mnemonic "");
  priv ← wrap "failed to derive private key" (private_key seed "m/44'/118'/0'/0/0");
  let pub := privkey_pubkey priv in
  addr ← wrap "failed to encode CCID" (bech32_encode "con" (pubkey_address pub));
  Ok (mkIdentity addr mnemonic (hex_encode priv) (hex_encode pub)).

Definition identityFromPrivateKey (privKeyHex : string) : result generatedIdentity :=
  let privKeyHex := Gateway.TrimSpace privKeyHex in
  ccid ← wrap "invalid private key" (PrivKeyToAddr privKeyHex "con");
  privKeyBytes ← wrap "invalid private key" (hex_decode privKeyHex);
  Ok (mkIdentity ccid "" privKeyHex (hex_encode (privkey_pubkey privKeyBytes))).

(** ** Arguments *)

Definition normalizeCreateAccountAlias (alias : string) : option string :=
  let trimmed := Str.trim_prefix (Gateway.TrimSpace alias) "@" in
  if String.eqb trimmed "" then None else Some trimmed.

Definition normalizeCreateAccountInviter (inviter : string) : result (option string) :=
  let trimmed := Gateway.TrimSpace inviter in
  if String.eqb trimmed "" then Ok None
  else if negb (IsCCID trimmed) then Err (GoError ("inviter must be a valid CCID: " +:+ trimmed))
  else Ok (Some trimmed).

Definition normalizeCreateAccountInfo (info : string) : result string :=
  let trimmed := Gateway.TrimSpace info in
  let trimmed := if String.eqb trimmed "" then "null" else trimmed in
  parsed ← wrap "info must be valid JSON" (parse_info trimmed);
  wrap "failed to normalize info JSON" (write_info parsed).

(** ** The request *)

Definition entity_document (identity : generatedIdentity) (fqdn : string) (alias : option string) (createdAt : Z)
    : Document EntityValue :=
  mkDocument "entity" (ComposeCCURI "cckv" (gi_CCID identity) "") (mkEntityValue fqdn alias None)
    (gi_CCID identity) EntityURL createdAt None None None None None.

Definition buildCreateAccountRequest (identity : generatedIdentity) (fqdn : string) (alias : option string)
    (info : string) (createdAt : Z) : result RegisterRequest :=
  if String.eqb fqdn "" then Err (GoError "fqdn cannot be empty")
  else
    documentBytes ← wrap "failed to marshal entity document" (marshal_entity_document (entity_document identity fqdn alias createdAt));
    signatureBytes ← wrap "failed to sign entity document" (SignBytes documentBytes (gi_PrivateKey identity));
    _ ← wrap "failed to verify generated entity signature" (VerifySignature documentBytes signatureBytes (gi_CCID identity));
    Ok (mkRegisterRequest
          (signed documentBytes (mkProof ProofTypeEcrecover (Some (hex_encode signatureBytes)) None None None None))
          (raw_message info) None).

(** ** The command *)

Definition createAccount (fuel : nat) (alias info inviter privkey : string) (time : Z) : M generatedIdentity :=
  let* info := liftM (normalizeCreateAccountInfo info) in
  let alias := normalizeCreateAccountAlias alias in
  let* inviter := liftM (normalizeCreateAccountInviter inviter) in
  let* identity := liftM (if negb (String.eqb privkey "") then identityFromPrivateKey privkey else generateIdentityMaterial) in
  let* req := liftM (buildCreateAccountRequest identity FQDN alias info time) in
  Register fuel "open" None (mkCtx None false) "" req ;;
  (match inviter with
   | Some _ => SaveMeta (mkEntityMeta (gi_CCID identity) inviter info)
   | None => retM tt
   end) ;;
  retM identity.

(** [generateToken]: an error panics.  [time] is the clock in nanoseconds. *)
Definition generateToken (privateKey subject : string) (validFor time : Z) : result string :=
  let claims := mkClaims config_CSID subject config_CSID (FormatInt ((time + validFor) / 1000000000))
                  (FormatInt (time / 1000000000)) "" in
  match Create claims privateKey with
  | Ok token => Ok token
  | _ => Panic
  end.

(** ** What the server accepts *)

(** What is signed is bytes. *)
Definition signs_bytes : Prop := ∀ text key sig, SignBytes text key = Ok sig → Forall (digit 256) sig.

(** JSON of entity documents and of normalised information. *)
Definition entity_json : Prop := ∀ d s, marshal_entity_document d = Ok s → unmarshal_typed decode_entity s = Ok d.
Definition info_json : Prop := ∀ v s, write_info v = Ok s → marshal_value (raw_message s) = Ok s.

(** The request's document is signed by the account it is for. *)
Lemma built_request resolver identity fqdn alias info createdAt req : signs_bytes → entity_json →
  buildCreateAccountRequest identity fqdn alias info createdAt = Ok req →
  authorised resolver maxVerifyDepth (rr_SignedDocument req) ∧
  unmarshal_typed decode_entity (sd_Document (rr_SignedDocument req)) = Ok (entity_document identity fqdn alias createdAt) ∧
  rr_Meta req = raw_message info.
Proof.
  intros Hbytes Hjson Hr. unfold buildCreateAccountRequest in Hr. destruct (String.eqb fqdn ""); [done|].
  apply rbind_ok_inv in Hr as (text & Ht%wrap_ok & Hr). apply rbind_ok_inv in Hr as (sig & Hs%wrap_ok & Hr).
  apply rbind_ok_inv in Hr as ([] & Hv%wrap_ok & [= <-]). cbn. pose proof (Hjson _ _ Ht) as Hd. split_and!; [|done|done].
  apply unmarshal_typed_ok in Hd as (d0 & Hd0 & _ & E). eapply by_author; [done|exact Hd0|done|].
  exists sig. split; [by apply hex_roundtrip, (Hbytes _ _ _ Hs)|]. cbn.
  assert (Author d0 = gi_CCID identity) as -> by (by apply (f_equal Author) in E). done.
Qed.

(** an account that [create-account] reports has its registration row, with
    the information given and the inviter named; no other registration changed;
    the database moved by repository operations only; and its entity document is
    one every server verifies as the account's own, for this server and alias. *)
Theorem account_created fuel alias info inviter privkey time st identity st' : signs_bytes → entity_json → info_json → st_tx st = [] →
  createAccount fuel alias info inviter privkey time st = (Ok identity, st') →
  ∃ info' inviter' sd, normalizeCreateAccountInfo info = Ok info' ∧ normalizeCreateAccountInviter inviter = Ok inviter' ∧
    st_metas st' = <[gi_CCID identity := mkEntityMeta (gi_CCID identity) inviter' info']> (st_metas st) ∧
    rtc db_step (st_db st) (st_db st') ∧
    authorised Usecase.resolver maxVerifyDepth sd ∧
    unmarshal_typed decode_entity (sd_Document sd) = Ok (entity_document identity FQDN (normalizeCreateAccountAlias alias) time).
Proof.
  intros Hbytes Hjson Hinfo Htx Hr. unfold createAccount in Hr.
  apply bindM_inv in Hr as (info' & s1 & Hi & Hr). injection Hi as Hi <-.
  apply bindM_inv in Hr as (inviter' & s2 & Hv & Hr). injection Hv as Hv <-.
  apply bindM_inv in Hr as (identity' & s3 & Hg & Hr). injection Hg as Hg <-.
  apply bindM_inv in Hr as (req & s4 & Hb & Hr). injection Hb as Hb <-.
  destruct (built_request Usecase.resolver _ _ _ _ _ _ Hbytes Hjson Hb) as (Hauth & Hdoc & Hmeta).
  apply bindM_inv in Hr as ([] & s5 & Hreg & Hr). apply bindM_inv in Hr as ([] & s6 & Hsave & Hr). injection Hr as <- <-.
  exists info', inviter', (rr_SignedDocument req). split; [done|]. split; [done|].
  destruct (Register_gate fuel "open" None (mkCtx None false) "" req st Htx) as [[_ Hbad]|(meta & Hadm & Hmetas & Hsteps)].
  { rewrite Hreg in Hbad. done. }
  rewrite Hreg in Hmetas, Hsteps. cbn in Hmetas, Hsteps.
  destruct Hadm as (entity & latest & Hmay & _ & Hent & Hid & _ & _ & _ & Hinf). rewrite Hdoc in Hent. injection Hent as <-. cbn in Hid.
  assert (em_Info meta = info') as Hi'.
  { unfold normalizeCreateAccountInfo in Hi. apply rbind_ok_inv in Hi as (v & _ & Hw%wrap_ok). rewrite Hmeta, (Hinfo _ _ Hw) in Hinf. by injection Hinf. }
  assert (em_Inviter meta = None) as Hn by (destruct Hmay as [[_ ?]|[? _]]; done).
  assert (meta = mkEntityMeta (gi_CCID identity') None info') as -> by (destruct meta; cbn in *; by subst).
  destruct inviter' as [who|]; injection Hsave as <-; cbn; rewrite Hmetas, ?insert_insert_eq; done.
Qed.

(** ** Tokens *)

Lemma encoded_lacks_space b : lacks " " (Base64.EncodeToString b).
Proof.
  unfold lacks, Base64.EncodeToString. pose proof (Base64Facts.encode_sextets b) as Hs. induction Hs as [|d ds Hd _ IH]; [done|].
  cbn -[Base32.char_at Ascii.eqb]. rewrite IH, andb_true_r.
  exact (Base64Facts.digit64_forallb (λ d, negb (Ascii.eqb (Base32.char_at Base64.alphabet d) " ")) eq_refl d Hd).
Qed.

Lemma created_lacks_space claims key token : Create claims key = Ok token → lacks " " token.
Proof.
  unfold Create. intros (h & _ & Hr)%rbind_ok_inv. apply rbind_ok_inv in Hr as (p & _ & Hr). apply rbind_ok_inv in Hr as (sig & _ & [= <-]).
  pose proof encoded_lacks_space as He. unfold lacks in *. rewrite !str_forallb_app, !He. cbn -[Base64.EncodeToString]. by rewrite !He.
Qed.

Context `{!RecordClient Usecase.resolver}.

(** C6: a token of [generate token] is a service account's until it expires.
    Made with the server's own key, whose signatures verify for the server's id,
    and with headers and claims that read back as they were written, it is good
    for exactly the time it was made for: presented to this server it makes the
    request that of the account type it names, or, once its time has passed,
    anonymous - whatever else the server holds, and without a change. *)
Theorem generated_token privateKey subject validFor time token commit st : signs_for privateKey config_CSID →
  (∀ s, marshal_header own_header = Ok s → unmarshal_header s = Ok own_header) →
  (∀ claims s, marshal_claims claims = Ok s → unmarshal_claims s = Ok claims) →
  0 <= (time + validFor) / 1000000000 < 2 ^ 63 → generateToken privateKey subject validFor time = Ok token →
  IdentifyIdentity commit ("Bearer " +:+ token) st =
    (Ok (Continue (if unix <=? (time + validFor) / 1000000000 then ServiceAccount config_CSID subject else Anonymous)), st).
Proof.
  intros Hsign Hh Hc Hexp Hg. unfold generateToken in Hg. set (exp := (time + validFor) / 1000000000) in *.
  set (claims := mkClaims _ _ _ _ _ _) in Hg. destruct (Create claims privateKey) as [t| |] eqn:Ht; [|done..]. injection Hg as ->.
  destruct (Create_Validate unix claims privateKey config_CSID token Ht Hsign Hh (Hc claims)) as [Hparse Hval].
  assert (FormatInt exp ≠ "") as Hne by (intros E; pose proof (ParseInt_FormatInt exp Hexp) as Hp; rewrite E in Hp; done).
  assert (check_expiry unix claims = Verify.guard (negb (exp <? unix)) (GoError "jwt is already expired")) as Hchk.
  { unfold check_expiry. cbn [ExpirationTime claims]. apply String.eqb_neq in Hne as ->. by rewrite ParseInt_FormatInt. }
  unfold IdentifyIdentity. change (String.eqb ("Bearer " +:+ token) "") with false. cbv iota.
  assert (Str.split ("Bearer " +:+ token) " " = ["Bearer"; token]) as ->.
  { change ("Bearer " +:+ token) with ("Bearer" +:+ String " " token). rewrite split_app by done. by rewrite split_lacks by by eapply created_lacks_space. }
  cbn [negb String.eqb]. unfold identify_token. rewrite Hparse. cbn [orSkip]. cbn [Issuer claims]. rewrite String.eqb_refl.
  destruct (Z.leb_spec unix exp) as [Hle|Hlt].
  - rewrite (proj2 Hval); [done|]. apply check_expiry_alive. rewrite Hchk. by rewrite (proj2 (Z.ltb_ge exp unix) Hle).
  - unfold Validate. rewrite Hparse. cbn [mbind result_bind rbind supported Typ Algorithm own_header].
    rewrite Hchk, (proj2 (Z.ltb_lt exp unix) Hlt). done.
Qed.
End Account.

(** ** Example *)

#[export] Instance claims_eq : EqDecision Claims.
Proof. solve_decision. Defined.
#[export] Instance entity_value_eq : EqDecision EntityValue.
Proof. solve_decision. Defined.

Module Founded.
#[local] Existing Instance World.netip.
#[local] Existing Instance World.keccak.
#[local] Existing Instance Server.codec.
#[local] Existing Instance Server.env.
#[local] Existing Instance StoreFacts.gorm.
#[local] Existing Instance TokenWorld.signer.

(** Every key has the same address: the signer's. *)
#[export] Instance secp : Secp256k1 := {|
  Ecrecover := λ _ sig, Ok sig;
  compress := λ pub, Some pub;
  pubkey_address := λ _, bytes_of (World.repeat_str 39 "a");
  bech32_encode := λ hrp l, Ok (hrp +:+ string_of l);
|}.
#[export] Instance csid : AuthConfig := "ccs" +:+ World.repeat_str 39 "a".

(** A private key, and the account of the key. *)
Definition privkey : string := World.repeat_str 32 "07".
Definition identity : generatedIdentity := mkIdentity World.author "" privkey privkey.
Definition document : Document EntityValue := entity_document identity "host" None 10.

Definition none {A} (o : option A) : bool := match o with None => true | Some _ => false end.
Definition is_document (d : Document EntityValue) : bool :=
  match d with
  | mkDocument kind key value author schema created p dists assoc assoc_type on_update =>
      String.eqb kind (Kind document) && String.eqb key (Key document) && bool_decide (value = Value document) &&
      String.eqb author (Author document) && String.eqb schema (Schema document) && (created =? CreatedAt document) &&
      none p && none dists && none assoc && none assoc_type && none on_update
  end.

#[export] Instance json : Json := {|
  unmarshal_document := λ s, if String.eqb s "account" then Ok (with_value document (AStr "host")) else Err (GoError "invalid");
  marshal_document := λ _, Err (GoError "unsupported");
  decode_subkey := λ _, Err (GoError "value");
  decode_reference := λ _, Err (GoError "value");
  decode_signed_document := λ _, Err (GoError "value");
  decode_entity := λ v, match v with AStr "host" => Ok (Value document) | _ => Err (GoError "value") end;
  decode_delete := λ _, Err (GoError "value");
|}.
#[export] Instance account_json : AccountJson := {|
  parse_info s := Ok (AStr s);
  write_info _ := Ok "";
  raw_message := AStr;
  marshal_entity_document d := if is_document d then Ok "account" else Err (GoError "json");
|}.
#[export] Instance no_bip39 : Bip39 := {|
  new_entropy := Err (GoError "");
  new_mnemonic _ := Err (GoError "");
  mnemonic_seed _ _ := Err (GoError "");
  private_key _ _ := Err (GoError "");
|}.

(** The claims of a token of the system account made at 100 for 50 seconds. *)
Definition claims : Claims := mkClaims csid "system" csid "50" "0" "".
#[export] Instance token_json : JwtJson := {|
  marshal_header _ := Ok "h";
  marshal_claims c := if decide (c = claims) then Ok "p" else Err (GoError "json");
  unmarshal_header s := if String.eqb s "h" then Ok own_header else Err (GoError "json");
  unmarshal_claims s := if String.eqb s "p" then Ok claims else Err (GoError "json");
|}.

Lemma a_bytes : Forall (digit 256) (bytes_of (World.repeat_str 39 "a")).
Proof. apply bytes_of_digit. Qed.

Lemma is_document_ok d : is_document d = true → d = document.
Proof.
  destruct d as [kind key value author schema created p dists assoc assoc_type on_update]. unfold is_document.
  rewrite !andb_true_iff, !String.eqb_eq, bool_decide_eq_true, Z.eqb_eq.
  intros ((((((((((-> & ->) & ->) & ->) & ->) & ->) & Hp) & Hd) & Ha) & Ht) & Hu). by destruct p, dists, assoc, assoc_type, on_update.
Qed.

Definition create (st : St) : result generatedIdentity * St := createAccount 2 "" "" World.author privkey 10 st.
End Founded.

Section Witnesses.
#[local] Existing Instance World.netip.
#[local] Existing Instance World.keccak.
#[local] Existing Instance Server.codec.
#[local] Existing Instance Server.env.
#[local] Existing Instance StoreFacts.gorm.
#[local] Existing Instance TokenWorld.signer.
Import Founded.

Lemma account_created_witness : ∃ st', create (mkSt empty_db [] ∅ ∅ []) = (Ok identity, st') ∧
  er_Domain <$> entities (st_db st') !! World.author = Some "host" ∧
  st_metas st' = {[World.author := mkEntityMeta World.author (Some World.author) ""]}.
Proof.
  assert (fst (create (mkSt empty_db [] ∅ ∅ [])) = Ok identity ∧
    er_Domain <$> entities (st_db (snd (create (mkSt empty_db [] ∅ ∅ [])))) !! World.author = Some "host") as [Hid He].
  { vm_compute. split; reflexivity. }
  destruct (create (mkSt empty_db [] ∅ ∅ [])) as [r st'] eqn:E. cbn [fst snd] in Hid, He. subst r. exists st'. split; [reflexivity|]. split; [exact He|].
  destruct (account_created 2 "" "" World.author privkey 10 (mkSt empty_db [] ∅ ∅ []) identity st') as (info & inviter & sd & Hi & Hv & Hm & _).
  - intros text key sig Hs. vm_compute in Hs. injection Hs as <-. exact a_bytes.
  - intros d s Hs. cbn in Hs. destruct (is_document d) eqn:Ed; [|discriminate]. injection Hs as <-. apply is_document_ok in Ed as ->. reflexivity.
  - intros v s Hs. cbn in Hs. injection Hs as <-. reflexivity.
  - reflexivity.
  - exact E.
  - rewrite Hm. vm_compute in Hi, Hv. injection Hi as <-. injection Hv as <-. reflexivity.
Defined.

#[local] Instance records : RecordClient Usecase.resolver.
Proof. refine {| client_record := λ _ _, Err (GoError "no such record") |}. done. Defined.

Definition system_token : string := match generateToken privkey "system" 50000000000 100 with Ok t => t | _ => "" end.

(** Fifty seconds from the start of time: good now, and not a minute later. *)
Lemma generated_token_witness :
  IdentifyIdentity no_commit ("Bearer " +:+ system_token) Server.home_st =
    (Ok (Continue (ServiceAccount csid "system")), Server.home_st) ∧
  context_of (ServiceAccount csid "system") = mkCtx None true.
Proof.
  split; [|reflexivity].
  rewrite (generated_token privkey "system" 50000000000 100 system_token no_commit Server.home_st).
  - reflexivity.
  - intros text sig Hs. vm_compute in Hs. injection Hs as <-. split; [exact a_bytes|vm_compute; reflexivity].
  - intros s Hs. cbn in Hs. injection Hs as <-. reflexivity.
  - intros c s Hs. unfold marshal_claims, token_json in Hs. destruct (decide (c = claims)) as [->|]; [|discriminate]. injection Hs as <-. reflexivity.
  - vm_compute. split; [discriminate|reflexivity].
  - vm_compute. reflexivity.
Defined.
End Witnesses.
