(* ===== verification/Operation.v ===== *)
(** * Operation: the operator's deletions ([src/cmd/conctl])

    [gc-commitlog] deletes the commit logs that were flagged and fell out of the
    backdate window, [delete-user] everything a user owns; both with
    [ON DELETE CASCADE] on the tables that reference commit logs, in batches,
    and with a backup of what they delete unless they are told to do without
    ([gc-commitlog.go], [delete-user.go], [backup.go]).  A statement can fail;
    then the command stops and what was done stays done. *)

From S2P Require Import Prelude Effects Bytes Cdid Url Ccuri Documents PolicyValues Store Queries Usecase Notification.
From stdpp Require Import prelude strings gmap list sorting.
From Stdlib Require Import ZArith Lia Ascii.
Open Scope Z_scope.
Open Scope uc_scope.

(** ** Deleting commit logs

    The foreign keys of [models/core.go] cascade: records, acks, ackeds,
    associations and entities of the document go with it, and what goes with a
    record. *)
Definition delete_commit (db : DB) (id : string) : DB :=
  let db := delete_record db id in
  mkDB (delete id (commit_logs db)) (records db) (record_keys db) (next_key db)
    (filter (λ p, ak_DocumentID (snd p) ≠ id) (acks db)) (filter (λ p, ak_DocumentID (snd p) ≠ id) (ackeds db))
    (delete id (associations db)) (filter (λ p, er_DocumentID (snd p) ≠ id) (entities db)).

Definition delete_commits (db : DB) (ids : list string) : DB := foldl delete_commit db ids.

(** The rows of a [WHERE]. *)
Definition Where : Type := string → CommitLog → bool.
Definition matching (w : Where) (db : DB) : list (string * CommitLog) :=
  List.filter (λ p, w (fst p) (snd p)) (map_to_list (commit_logs db)).

Definition batchSize : nat := 1000.

(** [LIMIT] without an order: which rows it keeps is the database's choice. *)
Class LimitRows := {
  limit_rows : nat → list string → list string;
  limit_some n l : ∃ rest, l ≡ₚ limit_rows n l ++ rest ∧ length (limit_rows n l) = Nat.min n (length l);
}.

(** ** The site: tables, and the bucket of the backups *)

Record commitlogBackupMeta : Type := mkBackupMeta { bm_ID : string; bm_Owner : string; bm_IP : string; bm_CDate : Z }.
Record SignedDocumentWithMeta : Type := mkLine { ln_Document : string; ln_Proof : Proof_; ln_Meta : commitlogBackupMeta }.

Inductive BackupRows : Type :=
| CommitRows (l : list SignedDocumentWithMeta)
| MetaRows (l : list EntityMeta)
| SubscriptionRows (l : list NotificationSubscription).

Definition rows_of (b : BackupRows) : nat :=
  match b with CommitRows l => length l | MetaRows l => length l | SubscriptionRows l => length l end.

Record Site : Type := mkSite {
  site_db : DB;
  site_metas : gmap string EntityMeta;
  site_subscriptions : gmap (string * string) NotificationSubscription;
  bucket_objects : list (string * string * BackupRows);
}.

Definition on_db (f : DB → DB) (s : Site) : Site := mkSite (f (site_db s)) (site_metas s) (site_subscriptions s) (bucket_objects s).

Definition OM (A : Type) : Type := SM Site A.

(** The statements that can fail. *)
Inductive Statement :=
| DeleteBatch (i : nat)
| DeleteSubscriptions
| DeleteMetas
| UploadRows (suffix : string).

(** [strings.Trim(s, "/")] *)
Fixpoint trim_left (s : string) : string :=
  match s with String c s' => if Ascii.eqb c "/" then trim_left s' else s | EmptyString => "" end.
Fixpoint trim_right (s : string) : string :=
  match s with
  | EmptyString => ""
  | String c s => match trim_right s with EmptyString => if Ascii.eqb c "/" then "" else String c "" | r => String c r end
  end.

Definition no_proof : Proof_ := mkProof "" None None None None None.

Section Commands.
Context `{Url.NetIP} `{StoreCodec} `{LimitRows} (fails : Statement → bool).

(** ** Backups ([backup.go]) *)

Definition parseBackupDestination (raw subdir : string) : result (string * string) :=
  let invalid := GoError ("invalid --backup " +:+ raw +:+ ": expected s3://bucket[/prefix]") in
  match Url.Parse raw with
  | Ok u =>
      if negb (String.eqb (Url.Scheme u) "s3") || String.eqb (Url.Host u) "" then Err invalid
      else
        let prefix := trim_left (trim_right (Url.Path u)) in
        Ok (Url.Host u, (if String.eqb prefix "" then "" else prefix +:+ "/") +:+ subdir +:+ "/")
  | Err _ => Err invalid
  | Panic => Panic
  end.

Definition writeCommitLog (p : string * CommitLog) : result SignedDocumentWithMeta :=
  let '(id, cl) := p in
  match (if String.eqb (cl_Proof cl) "" then Ok no_proof else unmarshal_proof (cl_Proof cl)) with
  | Ok proof => Ok (mkLine (cl_Document cl) proof (mkBackupMeta id (cl_Owner cl) (cl_IP cl) (cl_CDate cl)))
  | Err e => Err (GoError ("failed to parse proof for commit " +:+ id +:+ ": " +:+ error_text e))
  | Panic => Panic
  end.

Definition upload (bucket key suffix : string) (rows : BackupRows) : OM unit := λ s,
  if fails (UploadRows suffix) then (Err (GoError "failed to upload backup (nothing deleted)"), s)
  else (Ok tt, mkSite (site_db s) (site_metas s) (site_subscriptions s) (bucket_objects s ++ [(bucket, key +:+ suffix, rows)])).

(** ** Deleting in batches *)

(** Until a batch is empty. *)
Fixpoint delete_batches (fuel : nat) (w : Where) (i : nat) (total : Z) : OM Z := λ s,
  match fuel with
  | O => (Err OutOfFuel, s)
  | S fuel =>
      if fails (DeleteBatch i) then (Err (GoError "failed to delete commit logs"), s)
      else
        match limit_rows batchSize (matching w (site_db s)).*1 with
        | [] => (Ok total, s)
        | ids => delete_batches fuel w (S i) (total + Z.of_nat (length ids)) (on_db (λ db, delete_commits db ids) s)
        end
  end.

Definition delete_where (w : Where) : OM Z := λ s,
  delete_batches (S (length (matching w (site_db s)))) w 0 0 s.

(** One page of the snapshot, by id after the cursor. *)
Definition page (w : Where) (db : DB) (cursor : string) : list (string * CommitLog) :=
  list_query (λ x y, String.leb (fst x) (fst y)) (λ p, String.eqb cursor "" || String.ltb cursor (fst p))
    (Z.of_nat batchSize) "" (matching w db).

(** The snapshot: every row, page by page; a proof that does not parse ends it. *)
Fixpoint snapshot (fuel : nat) (w : Where) (db : DB) (cursor : string) (acc : list SignedDocumentWithMeta)
    : result (list SignedDocumentWithMeta) :=
  match fuel with
  | O => Err OutOfFuel
  | S fuel =>
      match last (page w db cursor) with
      | None => Ok acc
      | Some p =>
          lines ← traverse writeCommitLog (page w db cursor);
          snapshot fuel w db (fst p) (acc ++ lines)
      end
  end.

Definition line_id (l : SignedDocumentWithMeta) : string := bm_ID (ln_Meta l).

Definition snapshot_of (w : Where) (db : DB) : result (list SignedDocumentWithMeta) :=
  snapshot (S (length (matching w db))) w db "" [].

(** [DELETE ... WHERE id IN batch], counting the rows that were there. *)
Definition present (db : DB) (ids : list string) : Z :=
  Z.of_nat (length (List.filter (λ id, HasCommitLog db id) ids)).

Fixpoint delete_ids (fuel : nat) (i : nat) (ids : list string) (total : Z) : OM Z := λ s,
  match fuel with
  | O => (Ok total, s)
  | S fuel =>
      match ids with
      | [] => (Ok total, s)
      | _ =>
          let batch := take batchSize ids in
          if fails (DeleteBatch i) then (Err (GoError "failed to delete commit logs"), s)
          else delete_ids fuel (S i) (drop batchSize ids) (total + present (site_db s) batch)
                 (on_db (λ db, delete_commits db batch) s)
      end
  end.

(** ** [gc-commitlog] *)

Record gcOptions : Type := mkGc { gc_DryRun : bool; gc_Retention : Z; gc_Backup : string; gc_NoBackup : bool }.

(** The smallest id of the cutoff's millisecond. *)
Definition cutoff (time : Z) (retention : Z) : string := Cdid.String (Cdid.New (zero_bytes 10) (time - retention)).

Definition gc_where (cut : string) : Where := λ id cl, cl_GcCandidate cl && String.ltb id cut.

Definition no_destination : error :=
  GoError "no backup destination: pass --backup s3://bucket/prefix, or --no-backup to delete without a backup".

(** The destination, if the flags fit. *)
Definition backup_destination (backup subdir : string) (dryRun noBackup : bool) : result (option (string * string)) :=
  if negb (String.eqb backup "") && noBackup then Err (GoError "--backup and --no-backup are mutually exclusive")
  else if negb (String.eqb backup "") then
    rbind (parseBackupDestination backup subdir) (λ d, Ok (Some d))
  else if negb dryRun && negb noBackup then Err no_destination
  else Ok None.

(** [stamp] is the name of the run in the bucket. *)
Definition gcCommitlog (time : Z) (stamp : string) (o : gcOptions) : OM Z :=
  checkM (negb (gc_Retention o <? MaxBackdate)) (GoError "retention is shorter than the backdate window") ;;
  let* destination := liftM (backup_destination (gc_Backup o) "gc-commitlog" (gc_DryRun o) (gc_NoBackup o)) in
  let w := gc_where (cutoff time (gc_Retention o)) in
  if gc_DryRun o then getsM (λ s, Z.of_nat (length (matching w (site_db s))))
  else
    match destination with
    | None => delete_where w
    | Some (bucket, prefix) =>
        let* db := getsM site_db in
        let* lines := liftM (snapshot_of w db) in
        if bool_decide (lines = []) then retM 0
        else
          upload bucket (prefix +:+ stamp) ".jsonl" (CommitRows lines) ;;
          delete_ids (length lines) 0 (line_id <$> lines) 0
    end.

(** ** [delete-user] *)

Record deleteUserStats : Type := mkStats { du_Commits : Z; du_Metas : Z; du_Subscriptions : Z }.

Definition owned (ccid : string) : Where := λ _ cl, String.eqb (cl_Owner cl) ccid.

Definition metas_of (ccid : string) (s : Site) : list EntityMeta :=
  match site_metas s !! ccid with Some m => [m] | None => [] end.

Definition subscriptions_of (ccid : string) (s : Site) : list NotificationSubscription :=
  List.filter (λ n, String.eqb (ns_Owner n) ccid) (map_to_list (site_subscriptions s)).*2.

Definition delete_subscriptions (ccid : string) : OM Z := λ s,
  if fails DeleteSubscriptions then (Err (GoError "failed to delete subscriptions"), s)
  else (Ok (Z.of_nat (length (subscriptions_of ccid s))),
        mkSite (site_db s) (site_metas s) (filter (λ p, ns_Owner (snd p) ≠ ccid) (site_subscriptions s)) (bucket_objects s)).

Definition delete_metas (ccid : string) : OM Z := λ s,
  if fails DeleteMetas then (Err (GoError "failed to delete entity meta"), s)
  else (Ok (Z.of_nat (length (metas_of ccid s))),
        mkSite (site_db s) (delete ccid (site_metas s)) (site_subscriptions s) (bucket_objects s)).

Definition upload_rows (bucket key suffix : string) (rows : BackupRows) : OM unit :=
  if (rows_of rows =? 0)%nat then retM tt else upload bucket key suffix rows.

(** The commit logs: by owner in batches, or exactly those that were backed up. *)
Definition delete_owned (ccid stamp : string) (backup : option (string * string)) (metas : list EntityMeta)
    (subs : list NotificationSubscription) : OM Z :=
  match backup with
  | None => delete_where (owned ccid)
  | Some (bucket, prefix) =>
      let* db := getsM site_db in
      let* lines := liftM (snapshot_of (owned ccid) db) in
      upload_rows bucket (prefix +:+ stamp) ".commits.jsonl" (CommitRows lines) ;;
      upload_rows bucket (prefix +:+ stamp) ".metas.jsonl" (MetaRows metas) ;;
      upload_rows bucket (prefix +:+ stamp) ".subscriptions.jsonl" (SubscriptionRows subs) ;;
      delete_ids (length lines) 0 (line_id <$> lines) 0
  end.

Definition deleteUser (ccid stamp : string) (backup : option (string * string)) (dryRun : bool) : OM deleteUserStats :=
  let* metas := getsM (metas_of ccid) in
  let* subs := getsM (subscriptions_of ccid) in
  let* commits := getsM (λ s, length (matching (owned ccid) (site_db s))) in
  if dryRun || ((commits =? 0)%nat && (length metas =? 0)%nat && (length subs =? 0)%nat) then
    retM (mkStats (Z.of_nat commits) (Z.of_nat (length metas)) (Z.of_nat (length subs)))
  else
    let* commits := delete_owned ccid stamp backup metas subs in
    let* subs := delete_subscriptions ccid in
    let* metas := delete_metas ccid in
    retM (mkStats commits metas subs).

(** The command: the flags, then the deletion. *)
Definition deleteUserCmd (ccid stamp backup : string) (dryRun noBackup : bool) : OM deleteUserStats :=
  checkM (IsCCID ccid) (GoError ("invalid ccid " +:+ ccid)) ;;
  let* destination := liftM (backup_destination backup ("delete-user/" +:+ ccid) dryRun noBackup) in
  deleteUser ccid stamp destination dryRun.
End Commands.
