(* ===== verification/OperationFacts.v ===== *)
(** * OperationFacts: what the operator's deletions delete

    Both commands leave the tables well formed and delete exactly what they
    select; what a command with a backup deletes, whatever fails, is in the
    bucket; a user's registration goes last; and a document whose tombstone was
    collected is too old to be replayed. *)

From S2P Require Import Prelude Effects Bytes Cdid Url Ccuri Documents Verify PolicyValues Store StoreFacts StoreInv.
From S2P Require Import Queries QueriesFacts Usecase Commit CommitSafe CommitFacts CommitReplay Notification Operation.
From stdpp Require Import prelude strings gmap list sorting relations.
From Stdlib Require Import ZArith Lia Ascii.
Open Scope Z_scope.
Open Scope uc_scope.

(** ** Erasing documents

    The tables without the documents of a set: the reference for the cascades. *)
Record erased (P : string → Prop) (db db' : DB) : Prop := {
  er_logs : ∀ d c, commit_logs db' !! d = Some c ↔ commit_logs db !! d = Some c ∧ ¬ P d;
  er_records : ∀ d r, records db' !! d = Some r ↔ records db !! d = Some r ∧ ¬ P d;
  er_keys : ∀ u k, record_keys db' !! u = Some k ↔ record_keys db !! u = Some k ∧ ∀ d, rk_RecordID k = Some d → ¬ P d;
  er_next : next_key db' = next_key db;
  er_acks : ∀ t r, acks db' !! t = Some r ↔ acks db !! t = Some r ∧ ¬ P (ak_DocumentID r);
  er_ackeds : ∀ t r, ackeds db' !! t = Some r ↔ ackeds db !! t = Some r ∧ ¬ P (ak_DocumentID r);
  er_assocs : ∀ d a, associations db' !! d = Some a ↔
    associations db !! d = Some a ∧ ¬ P d ∧ ∃ u k, record_keys db' !! u = Some k ∧ rk_ID k = as_TargetID a;
  er_entities : ∀ c e, entities db' !! c = Some e ↔ entities db !! c = Some e ∧ ¬ P (er_DocumentID e);
}.

Lemma erased_nothing db : wf db → erased (λ _, False) db db.
Proof.
  intros Hw. split; try done; try (intros; naive_solver).
  intros d a. split; [|naive_solver]. intros Ha. split_and!; [done|tauto|]. by eapply assoc_target; [apply Hw|].
Qed.

Lemma erased_trans P Q db db1 db2 : erased P db db1 → erased Q db1 db2 → erased (λ d, P d ∨ Q d) db db2.
Proof.
  intros [L1 R1 K1 N1 A1 B1 S1 E1] [L2 R2 K2 N2 A2 B2 S2 E2]. split.
  - intros. rewrite L2, L1. naive_solver.
  - intros. rewrite R2, R1. naive_solver.
  - intros. rewrite K2, K1. naive_solver.
  - congruence.
  - intros. rewrite A2, A1. naive_solver.
  - intros. rewrite B2, B1. naive_solver.
  - intros. rewrite S2, S1. split; [naive_solver|]. intros (Ha & Hn & u & k & Hk & Hid). split_and!; [done|tauto| |tauto|eauto].
    exists u, k. split; [|done]. by apply K2 in Hk as [? _].
  - intros. rewrite E2, E1. naive_solver.
Qed.

Lemma erased_ext P Q db db' : wf db → (∀ d, logged db d → P d ↔ Q d) → erased P db db' → erased Q db db'.
Proof.
  intros Hw Hpq [L R K N A B S E].
  assert (∀ u k, record_keys db !! u = Some k → ∀ d, rk_RecordID k = Some d → logged db d) as Hkey.
  { intros u k Hk d Hd. destruct (key_record _ _ _ (wf_keys _ Hw) u k d Hk Hd) as [r Hr]. by eapply wf_records. }
  split; try done; intros.
  - rewrite L. split; intros [Hl Hn]; (split; [done|]); intros Hq; apply Hn, (Hpq d); done || by eexists.
  - rewrite R. split; intros [Hl Hn]; (split; [done|]); intros Hq; apply Hn, (Hpq d); done || by eapply wf_records.
  - rewrite K. split; intros [Hl Hn]; (split; [done|]); intros d Hd Hq; apply (Hn d Hd), (Hpq d); done || by eapply Hkey.
  - rewrite A. split; intros [Hl Hn]; (split; [done|]); intros Hq; apply Hn, Hpq; done || by eapply (proj1 (wf_acks _ Hw)).
  - rewrite B. split; intros [Hl Hn]; (split; [done|]); intros Hq; apply Hn, Hpq; done || by eapply (proj1 (wf_ackeds _ Hw)).
  - rewrite S. split; intros (Hl & Hn & Ht); (split_and!; [done| |done]); intros Hq; apply Hn, (Hpq d); done || by eapply assoc_log; [apply Hw|].
  - rewrite E. split; intros [Hl Hn]; (split; [done|]); intros Hq; apply Hn, Hpq; done || by eapply wf_entities.
Qed.

(** A well-formed database stays one. *)
Lemma erased_wf P db db' : erased P db db' → wf db → wf db'.
Proof.
  intros [L R K N A B S E] Hw. destruct Hw as [W1 [K1 K2 K3 K4 K5] [S1 S2 S3] [A1 A2] [B1 B2] W6].
  assert (∀ d, logged db d → ¬ P d → logged db' d) as Hlog by (intros d [c Hc] Hn; exists c; by apply L).
  split.
  - intros d r [Hr Hn]%R. eauto.
  - split.
    + intros u k d [Hk Hn]%K Hd. destruct (K1 _ _ _ Hk Hd) as [r Hr]. exists r. apply R. eauto.
    + intros u u' k k' d [Hk _]%K [Hk' _]%K. by eapply K2.
    + intros u k [Hk _]%K. rewrite N. by eapply K3.
    + intros u u' k k' [Hk _]%K [Hk' _]%K. by eapply K4.
    + intros u k [Hk _]%K. by eapply K5.
  - split.
    + intros d a (Ha & Hn & _)%S. apply (Hlog d); [|done]. by eapply S1.
    + intros d a (_ & _ & Ht)%S. done.
    + intros d d' a a' (Ha & _)%S (Ha' & _)%S. by eapply S3.
  - split; [intros t r [Hr Hn]%A; by apply Hlog; [eapply A1|]|]. intros k k' r r' [Hr _]%A [Hr' _]%A. by eapply A2.
  - split; [intros t r [Hr Hn]%B; by apply Hlog; [eapply B1|]|]. intros k k' r r' [Hr _]%B [Hr' _]%B. by eapply B2.
  - intros c e [He Hn]%E. eauto.
Qed.

Lemma delete_record_keys_erased db id u k : wf db →
  record_keys (delete_record db id) !! u = Some k ↔ record_keys db !! u = Some k ∧ ∀ d, rk_RecordID k = Some d → d ≠ id.
Proof.
  intros Hw. unfold delete_record. destruct (records db !! id) as [r|] eqn:Hr; cbn.
  - rewrite map_lookup_filter_Some. cbn. naive_solver.
  - split; [|by intros [? _]]. intros Hk. split; [done|]. intros d Hd ->.
    destruct (key_record _ _ _ (wf_keys _ Hw) u k id Hk Hd) as [? ?]. congruence.
Qed.

Lemma delete_record_assocs db id d a : wf db →
  associations (delete_record db id) !! d = Some a ↔
  associations db !! d = Some a ∧ ∃ u k, record_keys (delete_record db id) !! u = Some k ∧ rk_ID k = as_TargetID a.
Proof.
  intros Hw. destruct (wf_assocs _ Hw) as [_ Ht _]. destruct (wf_keys _ Hw) as [_ _ _ Hid _].
  unfold delete_record. destruct (records db !! id) as [r|]; cbn; [|split; [|by intros [? _]]; eauto].
  rewrite map_lookup_filter_Some. cbn. split.
  - intros [Ha Hn]. split; [done|]. destruct (Ht _ _ Ha) as (u & k & Hk & Hi). exists u, k. split; [|done].
    apply map_lookup_filter_Some. split; [done|]. cbn. intros Hd. apply Hn, elem_key_ids. by eauto.
  - intros [Ha (u & k & [Hk Hn]%map_lookup_filter_Some & Hi)]. split; [done|]. intros (u' & k' & Hk' & Hd & Hi')%elem_key_ids.
    cbn in Hn. assert (u = u') as -> by (eapply Hid; [done|done|congruence]). congruence.
Qed.

Lemma delete_commit_erased db id : wf db → erased (eq id) db (delete_commit db id).
Proof.
  intros Hw. split; unfold delete_commit; cbn.
  - intros d c. rewrite delete_record_logs, lookup_delete_Some. naive_solver.
  - intros d r. unfold delete_record. destruct (records db !! id) eqn:Hr; cbn; [rewrite lookup_delete_Some|]; naive_solver.
  - intros u k. rewrite delete_record_keys_erased by done. naive_solver.
  - unfold delete_record. by destruct (records db !! id).
  - intros t r. assert (acks (delete_record db id) = acks db) as -> by (unfold delete_record; by destruct (records db !! id)).
    rewrite map_lookup_filter_Some. cbn. naive_solver.
  - intros t r. assert (ackeds (delete_record db id) = ackeds db) as -> by (unfold delete_record; by destruct (records db !! id)).
    rewrite map_lookup_filter_Some. cbn. naive_solver.
  - intros d a. rewrite lookup_delete_Some, delete_record_assocs by done. naive_solver.
  - intros c e. assert (entities (delete_record db id) = entities db) as -> by (unfold delete_record; by destruct (records db !! id)).
    rewrite map_lookup_filter_Some. cbn. naive_solver.
Qed.

Lemma delete_commits_erased ids db : wf db → erased (λ d, d ∈ ids) db (delete_commits db ids).
Proof.
  revert db. induction ids as [|id ids IH]; intros db Hw; cbn.
  - apply (erased_ext (λ _, False)); [done| |by apply erased_nothing]. intros d _. by rewrite elem_of_nil.
  - pose proof (delete_commit_erased db id Hw) as He. apply (erased_ext (λ d, id = d ∨ d ∈ ids)); [done| |].
    + intros d _. rewrite elem_of_cons. naive_solver.
    + eapply erased_trans; [done|]. apply IH. by eapply erased_wf.
Qed.

Lemma delete_commits_wf ids db : wf db → wf (delete_commits db ids).
Proof. intros Hw. eapply erased_wf; [by apply delete_commits_erased|done]. Qed.

(** ** What a condition selects *)

Definition doomed (w : Where) (db : DB) (d : string) : Prop := ∃ c, commit_logs db !! d = Some c ∧ w d c = true.

Lemma elem_of_matching w db p : p ∈ matching w db ↔ commit_logs db !! fst p = Some (snd p) ∧ w (fst p) (snd p) = true.
Proof. destruct p as [d c]. unfold matching. rewrite elem_of_filter_b, elem_of_map_to_list. done. Qed.

Lemma elem_of_doomed w db d : d ∈ (matching w db).*1 ↔ doomed w db d.
Proof.
  rewrite list_elem_of_fmap. split.
  - intros ([d' c] & -> & [? ?]%elem_of_matching). by exists c.
  - intros (c & ? & ?). exists (d, c). split; [done|]. by apply elem_of_matching.
Qed.

Lemma NoDup_matching w db : NoDup (matching w db).*1.
Proof.
  unfold matching. generalize (NoDup_fst_map_to_list (commit_logs db)). generalize (map_to_list (commit_logs db)) as l.
  induction l as [|[d c] l IH]; cbn; [done|]. intros [Hd Hl]%NoDup_cons. destruct (w d c); [|auto].
  cbn. apply NoDup_cons. split; [|auto]. intros ([d' c'] & E & [Hin _]%elem_of_filter_b)%list_elem_of_fmap. cbn in E. subst d'.
  apply Hd, list_elem_of_fmap. by exists (d, c').
Qed.

Lemma doomed_erased w P db db' d : erased P db db' → doomed w db' d ↔ doomed w db d ∧ ¬ P d.
Proof. intros He. unfold doomed. setoid_rewrite (er_logs _ _ _ He). naive_solver. Qed.

(** Nothing of the site but the tables is touched. *)
Definition only_db (s s' : Site) : Prop :=
  site_metas s' = site_metas s ∧ site_subscriptions s' = site_subscriptions s ∧ bucket_objects s' = bucket_objects s.

Lemma nothing_gone db : wf db → erased (λ d, d ∈ []) db db.
Proof. apply (delete_commits_erased []). Qed.

Lemma batchSize_pos : (0 < batchSize)%nat.
Proof. apply Nat.ltb_lt. reflexivity. Qed.

Section Batches.
Context `{LimitRows} (fails : Statement → bool) (w : Where).

(** Whatever fails, only selected rows are gone, and the schema holds. *)
Lemma delete_batches_inv fuel i total s r s' : wf (site_db s) → delete_batches fails fuel w i total s = (r, s') →
  wf (site_db s') ∧ only_db s s' ∧
  ∃ gone : list string, (∀ d, d ∈ gone → doomed w (site_db s) d) ∧ erased (λ d, d ∈ gone) (site_db s) (site_db s') ∧
       ∀ n, r = Ok n → ∀ d, ¬ doomed w (site_db s') d.
Proof.
  revert i total s. induction fuel as [|fuel IH]; intros i total s Hw; cbn.
  - intros [= <- <-]. split_and!; [done|done|]. exists []. split_and!; [by intros d ?%elem_of_nil|by apply nothing_gone|done].
  - destruct (fails (DeleteBatch i)).
    { intros [= <- <-]. split_and!; [done|done|]. exists []. split_and!; [by intros d ?%elem_of_nil|by apply nothing_gone|done]. }
    destruct (limit_some batchSize (matching w (site_db s)).*1) as (rest & Hp & Hlen).
    destruct (limit_rows batchSize (matching w (site_db s)).*1) as [|id ids] eqn:El.
    + intros [= <- <-]. split_and!; [done|done|]. exists []. split_and!; [by intros d ?%elem_of_nil|by apply nothing_gone|].
      intros n _ d Hd%elem_of_doomed. destruct (matching w (site_db s)).*1; [by apply elem_of_nil in Hd|]. done.
    + intros Hr. pose proof (delete_commits_erased (id :: ids) _ Hw) as He.
      apply IH in Hr as (Hw' & Ho & gone & HP & HeP & Hdone); [|exact (delete_commits_wf (id :: ids) _ Hw)].
      split_and!; [done|done|]. exists ((id :: ids) ++ gone). split_and!; [| |done].
      2: { apply (erased_ext (λ d, d ∈ id :: ids ∨ d ∈ gone)); [done|intros d _; by rewrite elem_of_app|by eapply erased_trans]. }
      intros d [Hd|Hd]%elem_of_app.
      * apply elem_of_doomed. rewrite Hp. apply elem_of_app. by left.
      * apply HP in Hd. by apply (doomed_erased w _ _ _ d He) in Hd as [? _].
Qed.

(** Without failures every selected row is counted and gone: the fuel of
    [delete_where] is enough. *)
Lemma delete_batches_ok fuel i total s : (∀ j, fails (DeleteBatch j) = false) → wf (site_db s) →
  (length (matching w (site_db s)) < fuel)%nat →
  ∃ s', delete_batches fails fuel w i total s = (Ok (total + Z.of_nat (length (matching w (site_db s)))), s').
Proof.
  intros Hf. revert i total s. induction fuel as [|fuel IH]; intros i total s Hw Hlt; [lia|]. cbn. rewrite Hf.
  destruct (limit_some batchSize (matching w (site_db s)).*1) as (rest & Hp & Hlen).
  destruct (limit_rows batchSize (matching w (site_db s)).*1) as [|id ids] eqn:El.
  - rewrite length_fmap in Hlen. assert (length (matching w (site_db s)) = 0%nat) as -> by (pose proof batchSize_pos; cbn [length] in Hlen; lia).
    eexists. do 2 f_equal. lia.
  - pose proof (delete_commits_erased (id :: ids) _ Hw) as He.
    assert ((matching w (delete_commits (site_db s) (id :: ids))).*1 ≡ₚ rest) as Hrest.
    { pose proof (NoDup_matching w (site_db s)) as Hnd. rewrite Hp in Hnd. apply NoDup_app in Hnd as (_ & Hdis & Hnd).
      apply NoDup_Permutation; [apply NoDup_matching|done|]. intros d. rewrite elem_of_doomed, (doomed_erased w _ _ _ d He), <- elem_of_doomed, Hp, elem_of_app.
      split; [naive_solver|]. intros Hd. split; [by right|]. intros Hin. by apply (Hdis d). }
    apply Permutation_length in Hrest. rewrite length_fmap in Hrest.
    apply (f_equal length) in El as Hl0. apply Permutation_length in Hp. rewrite length_fmap, length_app in Hp.
    destruct (IH (S i) (total + Z.of_nat (length (id :: ids))) (on_db (λ db, delete_commits db (id :: ids)) s)) as [s' Hs'].
    { exact (delete_commits_wf (id :: ids) _ Hw). }
    { cbn [on_db site_db]. rewrite Hrest. cbn in Hp. lia. }
    exists s'. etransitivity; [exact Hs'|]. do 2 f_equal. cbn [on_db site_db]. rewrite Hrest, Hp. lia.
Qed.

(** The whole deletion. *)
Lemma delete_where_ok s : (∀ j, fails (DeleteBatch j) = false) → wf (site_db s) →
  ∃ s', delete_where fails w s = (Ok (Z.of_nat (length (matching w (site_db s)))), s') ∧
    only_db s s' ∧ wf (site_db s') ∧ erased (doomed w (site_db s)) (site_db s) (site_db s').
Proof.
  intros Hf Hw. unfold delete_where.
  destruct (delete_batches_ok (S (length (matching w (site_db s)))) 0 0 s Hf Hw ltac:(lia)) as [s' Hs']. exists s'. split; [by rewrite Hs'|].
  destruct (delete_batches_inv _ _ _ _ _ _ Hw Hs') as (Hw' & Ho & gone & HP & He & Hd). split_and!; [done|done|].
  apply (erased_ext (λ d, d ∈ gone)); [done| |done]. intros d _. split; [apply HP|]. intros Hdo. destruct (decide (d ∈ (matching w (site_db s')).*1)) as [Hin|Hin].
  - by apply elem_of_doomed, (Hd _ eq_refl) in Hin.
  - rewrite elem_of_doomed, (doomed_erased w _ _ _ d He) in Hin. destruct Hdo as (c & Hc & Hwc).
    destruct (commit_logs (site_db s') !! d) as [c'|] eqn:Hc'.
    + apply (er_logs _ _ _ He) in Hc' as [Hc' Hn]. destruct Hin. split; [by exists c|done].
    + apply dec_stable. intros Hn. assert (commit_logs (site_db s') !! d = Some c) as Hx by by apply (er_logs _ _ _ He). congruence.
Qed.
End Batches.

(** ** Snapshots *)

Lemma str_ltb_iff s t : String.ltb s t = true ↔ String.leb s t = true ∧ s ≠ t.
Proof.
  unfold String.ltb, String.leb. destruct (String.compare s t) eqn:E.
  - apply String.compare_eq_iff in E. naive_solver.
  - split; [|done]. intros _. split; [done|]. intros ->. pose proof (String.compare_antisym t t) as Ha. by rewrite E in Ha.
  - naive_solver.
Qed.

Lemma str_ltb_leb s t : String.ltb s t = true → String.leb t s = true → False.
Proof. intros [Hl Hn]%str_ltb_iff Hr. by apply Hn, String.leb_antisym. Qed.

Definition after (cursor d : string) : bool := String.eqb cursor "" || String.ltb cursor d.
Definition by_id (x y : string * CommitLog) : bool := String.leb (fst x) (fst y).

Lemma by_id_total x y : by_id x y = true ∨ by_id y x = true.
Proof. apply String.leb_total. Qed.
Lemma by_id_trans x y z : by_id x y = true → by_id y z = true → by_id x z = true.
Proof. apply str_leb_trans. Qed.

Lemma NoDup_window P (rows : list (string * CommitLog)) : NoDup rows.*1 → NoDup (list_query by_id P 0 "" rows).*1.
Proof.
  unfold list_query, limited. cbn. rewrite merge_sort_Permutation. induction rows as [|y rows IH]; cbn; [done|].
  intros [Hy Hr]%NoDup_cons. destruct (P y); [|auto]. cbn. apply NoDup_cons. split; [|auto].
  intros (z & E & [Hz _]%elem_of_filter_b)%list_elem_of_fmap. apply Hy, list_elem_of_fmap. by exists z.
Qed.

(** What the rows of a page are, and what comes after its last. *)
Lemma page_spec w db cursor :
  (∀ x, x ∈ page w db cursor → x ∈ matching w db ∧ after cursor (fst x) = true) ∧
  (page w db cursor = [] → ∀ x, x ∈ matching w db → after cursor (fst x) = false) ∧
  ∀ p, last (page w db cursor) = Some p →
    ∀ x, x ∈ matching w db → after cursor (fst x) = true ↔ x ∈ page w db cursor ∨ after (fst p) (fst x) = true.
Proof.
  set (all := list_query by_id (λ x, after cursor (fst x)) 0 "" (matching w db)).
  assert (∀ x, x ∈ all ↔ x ∈ matching w db ∧ after cursor (fst x) = true) as Hall by (intros x; apply (list_query_all by_id (λ x, after cursor (fst x)))).
  assert (page w db cursor = take batchSize all) as Hpage.
  { unfold page. change (λ x y : string * CommitLog, String.leb (fst x) (fst y)) with by_id.
    rewrite list_query_limit by (pose proof batchSize_pos; lia). by rewrite Nat2Z.id. }
  pose proof (list_query_sorted by_id by_id_total by_id_trans (λ x, after cursor (fst x)) "" (matching w db)) as Hs.
  fold all in Hs. rewrite Hpage. split_and!.
  - intros x Hx. apply Hall. rewrite <- (take_drop batchSize all). apply elem_of_app. by left.
  - intros Hnil x Hx. destruct (after cursor (fst x)) eqn:E; [|done]. assert (x ∈ all) as Hin by by apply Hall.
    destruct all as [|y l]; [by apply elem_of_nil in Hin|]. by destruct batchSize eqn:Eb; [pose proof batchSize_pos; lia|].
  - intros p Hlast x Hx. apply last_Some in Hlast as [l Hl].
    assert (p ∈ all) as [Hp Hpc]%Hall by (rewrite <- (take_drop batchSize all), Hl; set_solver).
    destruct (decide (fst p = "")) as [E|Hp0].
    { rewrite E in *. unfold after in *. cbn. split; [by right|]. intros _. destruct (String.eqb_spec cursor ""); [done|].
      apply str_ltb_iff in Hpc as [Hle Hne]. by destruct cursor. }
    assert (∀ d, after (fst p) d = String.ltb (fst p) d) as Haft by (intros d; unfold after; by destruct (String.eqb_spec (fst p) "")).
    rewrite Haft. split.
    + intros Hc. assert (x ∈ all) as Hin by by apply Hall. rewrite <- (take_drop batchSize all) in Hin.
      apply elem_of_app in Hin as [?|Hin]; [by left|]. right. rewrite <- (take_drop batchSize all), Hl, <- app_assoc in Hs.
      apply StronglySorted_app_1_r in Hs. cbn in Hs. apply StronglySorted_cons in Hs as [Hf _].
      rewrite Forall_forall in Hf. specialize (Hf _ Hin). apply str_ltb_iff. split; [exact Hf|]. intros E.
      assert (NoDup all.*1) as Hnd by (apply NoDup_window, NoDup_matching).
      rewrite <- (take_drop batchSize all), fmap_app in Hnd. apply NoDup_app in Hnd as (_ & Hd & _).
      apply (Hd (fst p)); [rewrite Hl, fmap_app; set_solver|]. rewrite E. by apply list_elem_of_fmap_2.
    + intros [Hin|Hlt].
      * apply Hall. rewrite <- (take_drop batchSize all). apply elem_of_app. by left.
      * unfold after in *. apply orb_true_iff in Hpc as [->|Hpc]; [done|]. apply orb_true_iff. right.
        apply str_ltb_iff in Hpc as [H1 H2], Hlt as [H3 H4]. apply str_ltb_iff. split; [by eapply str_leb_trans|].
        intros E. apply H2. apply String.leb_antisym; [done|]. by rewrite E.
Qed.

Lemma pair_of_left {A B} (R : A → B → Prop) l k x : Forall2 R l k → x ∈ l → ∃ y, y ∈ k ∧ R x y.
Proof.
  induction 1 as [|a b l k Hab _ IH]; [by intros ?%elem_of_nil|]. intros [->|Hx]%elem_of_cons; [exists b; split; [by left|done]|].
  destruct (IH Hx) as (y & ? & ?). exists y. split; [by right|done].
Qed.

Lemma pair_of_right {A B} (R : A → B → Prop) l k y : Forall2 R l k → y ∈ k → ∃ x, x ∈ l ∧ R x y.
Proof. intros Hf Hy. apply Forall2_flip in Hf. by apply (pair_of_left _ _ _ _ Hf). Qed.

Section Snapshots.
Context `{StoreCodec} (w : Where) (db : DB).

Lemma writeCommitLog_id p l : writeCommitLog p = Ok l → line_id l = fst p.
Proof. unfold writeCommitLog. destruct p as [id cl]. by destruct (if String.eqb _ _ then _ else _); [intros [= <-]|..]. Qed.

(** A snapshot that succeeds has the line of every selected row after the cursor. *)
Lemma snapshot_spec fuel cursor acc l : snapshot fuel w db cursor acc = Ok l →
  ∃ rows lines, l = acc ++ lines ∧ Forall2 (λ p line, writeCommitLog p = Ok line) rows lines ∧
    ∀ p, p ∈ rows ↔ p ∈ matching w db ∧ after cursor (fst p) = true.
Proof.
  revert cursor acc. induction fuel as [|fuel IH]; intros cursor acc; cbn; [done|].
  destruct (page_spec w db cursor) as (Hin & Hnil & Hnext). destruct (last (page w db cursor)) as [p|] eqn:Hlast.
  - intros (lines & Hlines & Hr)%rbind_ok_inv. apply traverse_ok in Hlines. apply IH in Hr as (rows & rest & -> & Hf & Hrows).
    exists (page w db cursor ++ rows), (lines ++ rest). rewrite app_assoc. split; [done|]. split; [by apply Forall2_app|].
    intros x. rewrite elem_of_app, Hrows. specialize (Hnext p eq_refl x). split.
    + intros [Hx|[Hx Ha]]; [by apply Hin|]. split; [done|]. apply Hnext; auto.
    + intros [Hx Ha]. apply Hnext in Ha as [?|?]; auto.
  - intros [= <-]. exists [], []. rewrite app_nil_r. split; [done|]. split; [constructor|]. apply last_None in Hlast.
    intros x. split; [by intros ?%elem_of_nil|]. intros [Hx Ha]. by rewrite (Hnil Hlast x Hx) in Ha.
Qed.

(** Every selected row is in the snapshot, with its line, and nothing else is. *)
Lemma snapshot_of_spec l : snapshot_of w db = Ok l →
  (∀ d, d ∈ line_id <$> l ↔ doomed w db d) ∧
  ∀ d c, commit_logs db !! d = Some c → w d c = true → ∃ line, line ∈ l ∧ writeCommitLog (d, c) = Ok line.
Proof.
  intros (rows & lines & -> & Hf & Hrows)%snapshot_spec. cbn [app].
  assert (∀ p, p ∈ rows ↔ p ∈ matching w db) as Hm by (intros p; rewrite Hrows; unfold after; naive_solver). split.
  - intros d. rewrite <- elem_of_doomed. rewrite !list_elem_of_fmap. split.
    + intros (line & -> & Hl). destruct (pair_of_right _ _ _ _ Hf Hl) as (p & Hp & Hw). exists p. split; [|by apply Hm].
      by apply writeCommitLog_id.
    + intros (p & -> & Hp%Hm). destruct (pair_of_left _ _ _ _ Hf Hp) as (line & Hl & Hw). exists line. split; [|done].
      symmetry. by apply writeCommitLog_id.
  - intros d c Hc Hw. assert ((d, c) ∈ rows) as Hp by by apply Hm, elem_of_matching.
    by destruct (pair_of_left _ _ _ _ Hf Hp) as (line & ? & ?); exists line.
Qed.
End Snapshots.

(** ** Deleting by id *)

Section Ids.
Context (fails : Statement → bool).

(** Whatever fails, only listed rows are gone; when nothing does, all are. *)
Lemma delete_ids_inv fuel i ids total s r s' : wf (site_db s) → delete_ids fails fuel i ids total s = (r, s') →
  wf (site_db s') ∧ only_db s s' ∧
  ∃ gone : list string, (∀ d, d ∈ gone → d ∈ ids) ∧ erased (λ d, d ∈ gone) (site_db s) (site_db s') ∧
    ∀ n, r = Ok n → (length ids <= fuel)%nat → ∀ d, d ∈ ids → d ∈ gone.
Proof.
  revert i ids total s. induction fuel as [|fuel IH]; intros i ids total s Hw; cbn.
  - intros [= <- <-]. split_and!; [done|done|]. exists []. split_and!; [by intros d ?%elem_of_nil|by apply nothing_gone|].
    intros n _ Hl d Hd. destruct ids; [done|cbn in Hl; lia].
  - destruct ids as [|id ids].
    { intros [= <- <-]. split_and!; [done|done|]. exists []. split_and!; [by intros d ?%elem_of_nil|by apply nothing_gone|done]. }
    destruct (fails (DeleteBatch i)).
    { intros [= <- <-]. split_and!; [done|done|]. exists []. split_and!; [by intros d ?%elem_of_nil|by apply nothing_gone|done]. }
    set (batch := take batchSize (id :: ids)). intros Hr. pose proof (delete_commits_erased batch _ Hw) as He.
    apply IH in Hr as (Hw' & Ho & gone & Hg & HeP & Hall); [|exact (delete_commits_wf batch _ Hw)].
    assert (∀ d, d ∈ id :: ids ↔ d ∈ batch ∨ d ∈ drop batchSize (id :: ids)) as Hsplit.
    { intros d. unfold batch. rewrite <- elem_of_app. by rewrite take_drop. }
    split_and!; [done|done|]. exists (batch ++ gone). split_and!.
    + intros d [?|Hd]%elem_of_app; apply Hsplit; auto.
    + apply (erased_ext (λ d, d ∈ batch ∨ d ∈ gone)); [done|intros d _; by rewrite elem_of_app|by eapply erased_trans].
    + intros n Hn Hl d [?|Hd]%Hsplit; apply elem_of_app; [by left|right]. apply (Hall n); [done| |done].
      rewrite length_drop. pose proof batchSize_pos. cbn in Hl |- *. lia.
Qed.
End Ids.

(** ** The cutoff *)

Lemma str_ltb_asym s t : String.ltb s t = true → String.ltb t s = true → False.
Proof. intros H1 [H2 _]%str_ltb_iff. by eapply str_ltb_leb. Qed.

Lemma id_order d1 d2 t1 t2 :
  length d1 = 10%nat → length d2 = 10%nat → Forall (digit 256) d1 → Forall (digit 256) d2 →
  String.ltb (Cdid.String (Cdid.New d1 t1)) (Cdid.String (Cdid.New d2 t2)) = true →
  clamp_ms t1 < clamp_ms t2 ∨ (clamp_ms t1 = clamp_ms t2 ∧ of_digits 256 d1 < of_digits 256 d2).
Proof.
  intros L1 L2 D1 D2 Hlt. destruct (Z.lt_trichotomy (clamp_ms t1) (clamp_ms t2)) as [?|[E|Hgt]]; [by left|right|].
  2: { exfalso. apply (String_order d2 d1) in Hgt; [|done..]. by eapply str_ltb_asym. }
  split; [done|]. change (Cdid.String (Cdid.New ?d ?t)) with (Base32.EncodeToString Cdid.encoding (Bytes (Cdid.New d t))) in Hlt.
  rewrite !Bytes_New, E in Hlt. destruct (Z.lt_trichotomy (of_digits 256 d1) (of_digits 256 d2)) as [?|[Ed|Hd]]; [done|exfalso..].
  - assert (d1 = d2) as ->.
    { rewrite <- (to_of_digits 256 ltac:(lia) d1), <- (to_of_digits 256 ltac:(lia) d2) by done. by rewrite L1, L2, Ed. }
    by apply str_ltb_iff in Hlt as [_ ?].
  - apply (lex_of_digits 256) in Hd; [|lia|by rewrite L1, L2|done..].
    apply (str_ltb_asym _ _ Hlt), string_ltb_lex; [apply Base32Facts.encode_digit..|].
    pose proof (to_digits_digit 256 ltac:(lia) 6 (clamp_ms t2)) as Dt.
    apply Base32Facts.encode_lex; [by rewrite !length_app, L1, L2|by apply Forall_app..|]. by apply lex_app_prefix.
Qed.

Lemma clamp_ms_mono t t' : t <= t' → clamp_ms t <= clamp_ms t'.
Proof. intros Ht. unfold clamp_ms, unix_milli. pose proof (Z.div_le_mono t t' 1000000 ltac:(lia) Ht). lia. Qed.

(** An id below the cutoff is that of a document older than the retention. *)
Lemma before_cutoff d t time retention : length d = 10%nat → Forall (digit 256) d →
  String.ltb (Cdid.String (Cdid.New d t)) (cutoff time retention) = true → t < time - retention.
Proof.
  intros L D Hlt. unfold cutoff in Hlt. apply id_order in Hlt; [|done..|by repeat constructor].
  destruct (Z.lt_ge_cases t (time - retention)) as [?|Hge]; [done|]. pose proof (clamp_ms_mono _ _ Hge).
  destruct Hlt as [?|[_ Hz]]; [lia|]. change (of_digits 256 (zero_bytes 10)) with 0 in Hz.
  pose proof (of_digits_bound 256 ltac:(lia) d D). lia.
Qed.

(** ** What a command accounts for

    Of the rows it selects, [gone] are erased with what hangs on them - all of
    them when it finished - and, with a backup, each has its line in the bucket. *)

Definition in_bucket `{StoreCodec} (s : Site) (p : string * CommitLog) : Prop := ∃ bucket key lines line,
  (bucket, key, CommitRows lines) ∈ bucket_objects s ∧ line ∈ lines ∧ writeCommitLog p = Ok line.

Definition accounts `{StoreCodec} (w : Where) (saved finished : Prop) (s s' : Site) : Prop :=
  wf (site_db s') ∧ ∃ gone : list string,
    (∀ d, d ∈ gone → doomed w (site_db s) d) ∧ erased (λ d, d ∈ gone) (site_db s) (site_db s') ∧
    (finished → ∀ d, doomed w (site_db s) d → d ∈ gone) ∧
    (saved → ∀ d c, d ∈ gone → commit_logs (site_db s) !! d = Some c → in_bucket s' (d, c)).

Section Accounts.
Context `{Url.NetIP} `{StoreCodec} `{LimitRows} (fails : Statement → bool).

Lemma accounts_same w (saved finished : Prop) s s' : wf (site_db s) → site_db s' = site_db s →
  (finished → ∀ d, ¬ doomed w (site_db s) d) → accounts w saved finished s s'.
Proof.
  intros Hw E Hf. unfold accounts. rewrite E. split; [done|]. exists []. split_and!.
  - by intros d ?%elem_of_nil.
  - by apply nothing_gone.
  - intros Hfin d Hd. by destruct (Hf Hfin d).
  - intros _ d c ?%elem_of_nil. done.
Qed.

Lemma delete_where_accounts w s r s' : wf (site_db s) → delete_where fails w s = (r, s') →
  accounts w False (is_ok r = true) s s' ∧ only_db s s'.
Proof.
  intros Hw Hr. destruct (delete_batches_inv fails w _ _ _ _ _ _ Hw Hr) as (Hw' & Ho & gone & Hg & He & Hd). split; [|done].
  split; [done|]. exists gone. split_and!; [done|done| |done]. intros Hok d Hdo. destruct (decide (d ∈ gone)) as [|Hn]; [done|].
  apply is_ok_spec in Hok as [n ->]. destruct (Hd n eq_refl d). by apply (doomed_erased w _ _ _ d He).
Qed.

(** The rows of a snapshot are deleted after it is uploaded. *)
Lemma delete_ids_accounts w s s1 lines bucket key r s' : wf (site_db s) →
  snapshot_of w (site_db s) = Ok lines → site_db s1 = site_db s →
  (lines ≠ [] → (bucket, key, CommitRows lines) ∈ bucket_objects s1) →
  delete_ids fails (length lines) 0 (line_id <$> lines) 0 s1 = (r, s') →
  accounts w True (is_ok r = true) s s' ∧ only_db s1 s'.
Proof.
  intros Hw Hsnap E Hb Hr. rewrite <- E in Hw. apply snapshot_of_spec in Hsnap as [Hids Hlines].
  destruct (delete_ids_inv fails _ _ _ _ _ _ _ Hw Hr) as (Hw' & Ho & gone & Hg & He & Hd). rewrite E in He. split; [|done].
  split; [done|]. exists gone. split_and!.
  - intros d Hd'. by apply Hids, Hg.
  - done.
  - intros Hok d Hdo. apply is_ok_spec in Hok as [n ->]. apply (Hd n eq_refl); [by rewrite length_fmap|]. by apply Hids.
  - intros _ d c Hdg Hc. apply Hg, Hids in Hdg as (c' & Hc' & Hwc). assert (c' = c) as -> by congruence.
    destruct (Hlines d c Hc Hwc) as (line & Hl & Hwr). exists bucket, key, lines, line. split_and!; [|done|done].
    rewrite (proj2 (proj2 Ho)). apply Hb. intros ->. by apply elem_of_nil in Hl.
Qed.

Lemma destination_spec backup subdir dryRun noBackup d : backup_destination backup subdir dryRun noBackup = Ok d →
  (d = None ↔ backup = "").
Proof.
  unfold backup_destination. destruct (String.eqb_spec backup "") as [->|Hne]; cbn.
  - destruct (negb dryRun && negb noBackup); [done|]. by intros [= <-].
  - destruct noBackup; [done|]. intros (x & _ & [= <-])%rbind_ok_inv. naive_solver.
Qed.

(** A run of [gc-commitlog]. *)
Lemma gc_accounts time stamp o s r s' : wf (site_db s) →
  gcCommitlog fails time stamp o s = (r, s') →
  accounts (gc_where (cutoff time (gc_Retention o))) (gc_Backup o ≠ "") (gc_DryRun o = false ∧ is_ok r = true) s s' ∧
  (MaxBackdate <= gc_Retention o ∨ site_db s' = site_db s).
Proof.
  intros Hw. unfold gcCommitlog. rewrite bindM_check.
  destruct (Z.ltb_spec (gc_Retention o) MaxBackdate) as [Hlt|Hge]; cbn [negb].
  { intros [= <- <-]. split; [|by right]. apply accounts_same; [done|done|]. by intros [_ ?]. }
  rewrite bindM_lift. destruct (backup_destination _ _ _ _) as [dest|e|] eqn:Hdest.
  2,3: intros [= <- <-]; (split; [|by right]); apply accounts_same; [done|done|]; by intros [_ ?].
  apply destination_spec in Hdest. set (w := gc_where _). destruct (gc_DryRun o).
  { intros [= <- <-]. split; [|by right]. apply accounts_same; [done|done|]. by intros [? _]. }
  destruct dest as [[bucket prefix]|].
  - rewrite bindM_gets, bindM_lift. destruct (snapshot_of w (site_db s)) as [lines|e|] eqn:Hsnap.
    2,3: intros [= <- <-]; (split; [|by right]); apply accounts_same; [done|done|]; by intros [_ ?].
    case_bool_decide as Hnil.
    { intros [= <- <-]. split; [|by right]. apply accounts_same; [done|done|]. intros _ d Hd.
      apply (proj1 (snapshot_of_spec w _ _ Hsnap) d) in Hd. rewrite Hnil in Hd. by apply elem_of_nil in Hd. }
    unfold bindM, upload. destruct (fails _).
    { intros [= <- <-]. split; [|by right]. apply accounts_same; [done|done|]. by intros [_ ?]. }
    intros Hr. split; [|by left]. eapply (delete_ids_accounts w s) in Hr as [(Hw' & gone & Hg & He & Hf & Hb) _]; [|done|done|done|].
    2: { intros _. cbn. apply elem_of_app. right. by left. }
    split; [done|]. exists gone. split_and!; [done|done|intros [_ ?]; by apply Hf|by intros _; apply Hb].
  - intros Hr. split; [|by left]. apply delete_where_accounts in Hr as [(Hw' & gone & Hg & He & Hf & _) _]; [|done].
    split; [done|]. exists gone. split_and!; [done|done|intros [_ ?]; by apply Hf|]. intros Hb. exfalso. by apply Hb, Hdest.
Qed.
End Accounts.
