(* ===== verification/Ledger.v ===== *)
(** * Ledger: what the commit log holds

    The commit log is the ledger every table is built from, dumps are made of
    and replays are answered from.  Whatever a server goes through - commits of
    anybody's documents, those it fetches from other servers included, calls on
    the tables, the operator's deletions - a row of the ledger is a document
    filed under the digest of its own text that was admitted, and, unless the
    server's own system account brought it, one whose proof was verified. *)

From S2P Require Import Prelude Bytes Url Cdid Ccuri Documents Verify PolicyValues Store StoreFacts StoreInv.
From S2P Require Import Queries Effects Usecase Commit CommitSafe CommitFacts CommitReplay CommitWorld Operation OperationFacts.
From stdpp Require Import prelude strings gmap list relations.
From Stdlib Require Import ZArith Lia Ascii.
Open Scope Z_scope.
Open Scope uc_scope.

Section Ledger.
Context `{Url.NetIP} `{Json} `{Keccak} `{Secp256k1} `{StoreCodec} `{Orm}.

(** A document that a commit may file under an id: within the limits, and, when
    the commit is not the system account's, with a proof of an allowed type that
    verifies as the server saw the world during that commit. *)
Definition entry (E : Env) (ctx : Ctx) (id : string) (sd : SignedDocument) (doc : Document any_) : Prop :=
  unmarshal_document (sd_Document sd) = Ok doc ∧ id = document_cdid (sd_Document sd) (CreatedAt doc) ∧
  (Str.len (sd_Document sd) <= MaxDocumentSize)%nat ∧ rejectAliasOwners doc = Ok tt ∧
  (ctx_system ctx = false → authorised (@Usecase.resolver E) maxVerifyDepth sd ∧
     type_allowed (allowed_proofs (Kind doc)) sd).

(** The row of a document, under an owner it names. *)
Definition entered (E : Env) (ctx : Ctx) (id : string) (c : CommitLog) : Prop := ∃ sd doc,
  entry E ctx id sd doc ∧ cl_Document c = sd_Document sd ∧ marshal_proof (sd_Proof sd) = Ok (cl_Proof c) ∧
  named_owner doc sd (cl_Owner c).

(** A move that keeps the texts of the ledger and adds only such rows. *)
Definition files (E : Env) (ctx : Ctx) (db db' : DB) : Prop := ∀ id,
  log_text <$> commit_logs db' !! id = log_text <$> commit_logs db !! id ∨
  (commit_logs db !! id = None ∧ ∃ c, commit_logs db' !! id = Some c ∧ entered E ctx id c).

Lemma entered_text E ctx id c c' : log_text c' = log_text c → entered E ctx id c → entered E ctx id c'.
Proof.
  unfold log_text. intros Ht (sd & doc & He & Ed & Ep & Eo). exists sd, doc. injection Ht as Hd Hp Ho.
  split; [done|]. split_and!; congruence.
Qed.

Lemma text_row db db' id c' : log_text <$> commit_logs db' !! id = log_text <$> commit_logs db !! id →
  commit_logs db' !! id = Some c' → ∃ c, commit_logs db !! id = Some c ∧ log_text c = log_text c'.
Proof.
  intros Hs Hc. rewrite Hc in Hs. destruct (commit_logs db !! id) as [c|]; [|done].
  exists c. split; [done|]. symmetry. by apply (inj Some).
Qed.

Lemma no_row db db' id : log_text <$> commit_logs db' !! id = log_text <$> commit_logs db !! id →
  commit_logs db' !! id = None → commit_logs db !! id = None.
Proof. intros Hs Hn. rewrite Hn in Hs. by destruct (commit_logs db !! id). Qed.

#[export] Instance files_preorder E ctx : PreOrder (files E ctx).
Proof.
  split; [by intros db id; left|]. intros db1 db2 db3 H12 H23 id.
  destruct (H12 id) as [E12|(Hn & c & Hc & He)], (H23 id) as [E23|(Hn' & c' & Hc' & He')].
  - left. by rewrite E23.
  - right. split; [by apply (no_row _ _ _ E12)|]. by exists c'.
  - right. split; [done|]. rewrite Hc in E23. destruct (commit_logs db3 !! id) as [c'|]; [|done].
    assert (log_text c' = log_text c) as Et by by apply (inj Some). exists c'. split; [done|]. by apply (entered_text _ _ _ c).
  - congruence.
Qed.

Lemma create_files E ctx db now id ip sd doc owner db' : entry E ctx id sd doc → named_owner doc sd owner →
  CreateCommitLog db now id ip (sd_Document sd) (sd_Proof sd) owner = Ok db' → files E ctx db db'.
Proof.
  intros He Ho Hr. unfold CreateCommitLog in Hr. apply rbind_ok_inv in Hr as (proof & Hp & Hr).
  destruct (commit_logs db !! id) as [c0|] eqn:Hc0; injection Hr as <-; [by intros id'; left|].
  intros id'. cbn. destruct (decide (id' = id)) as [->|Hne]; [|left; by rewrite lookup_insert_ne].
  right. split; [done|]. rewrite lookup_insert_eq. eexists. split; [done|]. by exists sd, doc.
Qed.
End Ledger.

(** ** One commit *)

Section OneCommit.
Context `{Url.NetIP} `{Json} `{Keccak} `{Secp256k1} `{StoreCodec} `{Orm} `{E : Env} `{PolicyEval}.

#[export] Instance files_table ctx : TableSteps (files E ctx).
Proof. intros db db' Hs id. left. apply (table_step_ledger _ _ Hs). Qed.

(** What was admitted may be filed. *)
Lemma admitted_entry ctx mode sd doc id : admitted ctx mode sd doc → CDID_ sd = Ok id → entry E ctx id sd doc.
Proof.
  intros (Hdoc & Hsize & Hown & Hsigned) Hid. unfold entry, CDID_, ParsedDocument in Hid. rewrite Hdoc in Hid.
  injection Hid as <-. split_and!; [done..|]. intros Hs. apply check_signed_ok in Hsigned as [|(Ha & Ht & _)]; [congruence|done].
Qed.

Lemma Commit_files fuel ctx ip sd mode st : st_tx st = [] →
  files E ctx (st_db st) (st_db (snd (Commit fuel ctx ip sd mode st))).
Proof.
  intros Htx. assert (safe_by (files E ctx) (Commit fuel ctx ip sd mode)) as Hs.
  { apply safe_Commit_by. intros mode' sd' doc Ha db id ip' owner db' Ho Hid. apply create_files with doc; [|done].
    by apply (admitted_entry ctx mode'). }
  apply Hs. unfold tx_by. rewrite Htx. constructor.
Qed.
End OneCommit.

(** ** The life of a server *)

Section Life.
Context `{Url.NetIP} `{Json} `{Keccak} `{Secp256k1} `{StoreCodec} `{Orm}.

(** What moves the database: a commit in a context, whatever the world and the
    policies are then and whatever it returns; a call on the tables; a deletion
    of the operator's. *)
Inductive served_commit (E : Env) (ctx : Ctx) : DB → DB → Prop :=
| ByCommit (P : PolicyEval) fuel ip sd mode st : st_tx st = [] →
    served_commit E ctx (st_db st) (st_db (snd (Commit fuel ctx ip sd mode st))).

Inductive served : DB → DB → Prop :=
| Committing E ctx db db' : served_commit E ctx db db' → served db db'
| ByTable db db' : table_step db db' → served db db'
| ByErasure P db db' : erased P db db' → served db db'.

(** The row came with one of the commits of that life: there was none before,
    the commit put one there with these texts, and it was entitled to. *)
Definition recorded (db : DB) (id : string) (c : CommitLog) : Prop := ∃ E ctx db1 db2 c1,
  rtc served empty_db db1 ∧ served_commit E ctx db1 db2 ∧ rtc served db2 db ∧
  commit_logs db1 !! id = None ∧ commit_logs db2 !! id = Some c1 ∧ log_text c1 = log_text c ∧ entered E ctx id c.

Lemma recorded_step db db' id c c' : served db db' → log_text c = log_text c' → recorded db id c → recorded db' id c'.
Proof.
  intros Hs Ht (E & ctx & db1 & db2 & c1 & Hbefore & Hc & Hafter & Hn & Hr & Et & He). exists E, ctx, db1, db2, c1.
  split_and!; [done..| |done|done|by rewrite Et|]; [by eapply rtc_r|]. by apply (entered_text _ _ _ c).
Qed.

(** A row of the state after a step was there before, or the step is a commit that filed it. *)
Lemma served_row db db' id c' : served db db' → commit_logs db' !! id = Some c' →
  (∃ c, commit_logs db !! id = Some c ∧ log_text c = log_text c') ∨
  (commit_logs db !! id = None ∧ ∃ E ctx, served_commit E ctx db db' ∧ entered E ctx id c').
Proof.
  intros Hs Hc'. destruct Hs as [E ctx db db' Hs|db db' Hs|P db db' He].
  - assert (files E ctx db db') as Hf by (destruct Hs; by apply Commit_files).
    destruct (Hf id) as [Ht|(Hn & c & Hc & He)]; [left; by eapply text_row|]. right. split; [done|].
    exists E, ctx. split; [done|]. congruence.
  - left. apply (text_row _ _ _ _ (table_step_ledger _ _ Hs id) Hc').
  - apply (er_logs _ _ _ He) in Hc' as [Hc' _]. left. eauto.
Qed.

Lemma served_recorded db : rtc served empty_db db → ∀ id c, commit_logs db !! id = Some c → recorded db id c.
Proof.
  intros Hs. revert db Hs. apply (rtc_ind_r (λ db, ∀ id c, commit_logs db !! id = Some c → recorded db id c)).
  { intros id c Hc. cbn in Hc. by rewrite lookup_empty in Hc. }
  intros db1 db2 Hbefore Hs IH id c Hc.
  destruct (served_row db1 db2 id c Hs Hc) as [(c0 & Hc0 & Ht)|(Hn & E & ctx & Hs' & He)].
  - by apply (recorded_step db1 db2 id c0 c), IH.
  - by exists E, ctx, db1, db2, c.
Qed.

(** C5: in every state a server can reach, a row of the ledger was put there by
    one commit of its life, when there was none under its id, and says what it
    said then; and that commit was entitled to it: the row is a document filed
    under the digest of its own text and its creation time, no longer than the
    limit and naming no alias, stored with its proof, under an owner it names -
    its author for an entity and an ack, the owner of the key, target or base
    for a record, association or delete; and unless it was the system account
    that committed, the proof is of a type the document's kind allows and
    verified in the world as it was during that very commit - whoever delivered
    the document, whatever server it was fetched from on the way, and whatever
    failed. *)
Theorem ledger_signed db id c : rtc served empty_db db → commit_logs db !! id = Some c →
  ∃ E ctx db1 db2 c1,
    rtc served empty_db db1 ∧ served_commit E ctx db1 db2 ∧ rtc served db2 db ∧
    commit_logs db1 !! id = None ∧ commit_logs db2 !! id = Some c1 ∧ log_text c1 = log_text c ∧
    ∃ sd doc, cl_Document c = sd_Document sd ∧ marshal_proof (sd_Proof sd) = Ok (cl_Proof c) ∧
      unmarshal_document (sd_Document sd) = Ok doc ∧ id = document_cdid (sd_Document sd) (CreatedAt doc) ∧
      (Str.len (sd_Document sd) <= MaxDocumentSize)%nat ∧ rejectAliasOwners doc = Ok tt ∧
      named_owner doc sd (cl_Owner c) ∧
      (ctx_system ctx = false → authorised (@Usecase.resolver E) maxVerifyDepth sd ∧
         type_allowed (allowed_proofs (Kind doc)) sd).
Proof.
  intros Hs Hc. destruct (served_recorded db Hs id c Hc) as (E & ctx & db1 & db2 & c1 & Hbefore & Hcm & Hafter & Hn & Hr & Et & He).
  exists E, ctx, db1, db2, c1. split_and!; [done..|]. destruct He as (sd & doc & (Hd & Hi & Hl & Ho & Hv) & Ed & Ep & En).
  by exists sd, doc.
Qed.

(** What such a row says of itself. *)
Lemma served_ledger db id c : rtc served empty_db db → commit_logs db !! id = Some c →
  ∃ sd doc, unmarshal_document (sd_Document sd) = Ok doc ∧ id = document_cdid (sd_Document sd) (CreatedAt doc) ∧
    (Str.len (sd_Document sd) <= MaxDocumentSize)%nat ∧ rejectAliasOwners doc = Ok tt ∧
    cl_Document c = sd_Document sd ∧ named_owner doc sd (cl_Owner c).
Proof.
  intros Hs Hc. destruct (served_recorded db Hs id c Hc) as (E & ctx & _ & _ & _ & _ & _ & _ & _ & _ & _ & sd & doc & (? & ? & ? & ? & _) & ? & _ & ?).
  by exists sd, doc.
Qed.
End Life.

(** ** Example: an account and its first post *)

Section Example.
#[local] Existing Instance World.netip.
#[local] Existing Instance World.keccak.
#[local] Existing Instance World.secp.
#[local] Existing Instance Server.codec.
#[local] Existing Instance StoreFacts.gorm.
#[local] Instance json0 : Json := Server.json 0.

Definition registered : St := mkSt empty_db [] {[Server.author := mkEntityMeta Server.author None ""]} ∅ [].
Definition joined : St := snd (committed 0 "entity" registered).
Definition wrote : St := snd (committed 0 "post" joined).
Definition post_log : string := document_cdid "post" 10.

Lemma wrote_served : rtc served empty_db (st_db wrote).
Proof.
  apply (rtc_l _ _ (st_db joined)).
  - eapply Committing,
      (ByCommit Server.env Server.user Server.policy 3 "ip" (Server.by_author "entity") CommitModeExecute registered).
    reflexivity.
  - apply rtc_once. eapply Committing,
      (ByCommit Server.env Server.user Server.policy 3 "ip" (Server.by_author "post") CommitModeExecute joined).
    vm_compute. reflexivity.
Qed.

Lemma ledger_signed_witness : ∃ c, commit_logs (st_db wrote) !! post_log = Some c ∧
  size (commit_logs (st_db wrote)) = 2%nat ∧
  ∃ E ctx db1 db2 c1,
    rtc served empty_db db1 ∧ served_commit E ctx db1 db2 ∧ rtc served db2 (st_db wrote) ∧
    commit_logs db1 !! post_log = None ∧ commit_logs db2 !! post_log = Some c1 ∧ log_text c1 = log_text c ∧
    ∃ sd doc, cl_Document c = sd_Document sd ∧ marshal_proof (sd_Proof sd) = Ok (cl_Proof c) ∧
      unmarshal_document (sd_Document sd) = Ok doc ∧ post_log = document_cdid (sd_Document sd) (CreatedAt doc) ∧
      (Str.len (sd_Document sd) <= MaxDocumentSize)%nat ∧ rejectAliasOwners doc = Ok tt ∧
      named_owner doc sd (cl_Owner c) ∧
      (ctx_system ctx = false → authorised (@Usecase.resolver E) maxVerifyDepth sd ∧
         type_allowed (allowed_proofs (Kind doc)) sd).
Proof.
  assert (is_Some (commit_logs (st_db wrote) !! post_log)) as [c Hc] by (vm_compute; by eexists).
  exists c. split; [exact Hc|]. split; [vm_compute; reflexivity|].
  apply (ledger_signed (st_db wrote) post_log c); [exact wrote_served|exact Hc].
Defined.
End Example.
