(* ===== verification/OperationSafe.v ===== *)
(** * OperationSafe: what the operator can rely on

    A run of [gc-commitlog] that nothing interrupts deletes the flagged
    documents below the cutoff; whatever interrupts one of the commands, what
    is gone was selected and, with a backup, is in the bucket; a user's
    registration goes last; and a document whose log was collected cannot be
    replayed. *)

From S2P Require Import Prelude Effects Bytes Cdid Url Ccuri Documents Verify PolicyValues Store StoreFacts StoreInv.
From S2P Require Import Queries QueriesFacts Usecase Commit CommitSafe CommitFacts CommitReplay CommitWorld.
From S2P Require Import PolicyService Notification Operation OperationFacts.
From stdpp Require Import prelude strings gmap list sorting relations.
From Stdlib Require Import ZArith Lia Ascii.
Open Scope Z_scope.
Open Scope uc_scope.

(** ** Termination of a snapshot *)

(** The rows after the cursor: every page takes some. *)
Definition remaining (w : Where) (db : DB) (cursor : string) : nat :=
  length (List.filter (λ p, after cursor (fst p)) (matching w db)).

Lemma length_filter_lt {A} (P Q : A → bool) l x : (∀ y, y ∈ l → P y = true → Q y = true) →
  x ∈ l → Q x = true → P x = false → (length (List.filter P l) < length (List.filter Q l))%nat.
Proof.
  induction l as [|y l IH]; intros Hpq Hx Hq Hp; [by apply elem_of_nil in Hx|]. cbn.
  assert (length (List.filter P l) <= length (List.filter Q l))%nat as Hle.
  { apply length_filter_sub. intros z Hz. apply Hpq. by right. }
  apply elem_of_cons in Hx as [<-|Hx].
  - rewrite Hp, Hq. cbn. lia.
  - specialize (IH ltac:(intros; apply Hpq; [by right|done]) Hx Hq Hp).
    destruct (P y) eqn:E; [rewrite (Hpq y ltac:(by left) E); cbn; lia|]. destruct (Q y); cbn; lia.
Qed.

Section Ends.
Context `{StoreCodec} (w : Where) (db : DB).

Lemma remaining_page cursor p : commit_logs db !! "" = None → last (page w db cursor) = Some p →
  (remaining w db (fst p) < remaining w db cursor)%nat.
Proof.
  intros Hempty Hlast. destruct (page_spec w db cursor) as (Hin & _ & Hnext).
  assert (p ∈ page w db cursor) as Hp by (apply last_Some in Hlast as [l ->]; set_solver).
  destruct (Hin p Hp) as [Hm Ha]. apply length_filter_lt with p; [|done|done|].
  - intros y Hy Hay. apply (Hnext p Hlast y Hy). by right.
  - unfold after. destruct (String.eqb_spec (fst p) "") as [E|].
    { apply elem_of_matching in Hm as [Hm _]. rewrite E in Hm. congruence. }
    destruct (String.ltb (fst p) (fst p)) eqn:El; [|done]. by apply str_ltb_iff in El as [_ ?].
Qed.

Lemma snapshot_ends fuel cursor acc : commit_logs db !! "" = None → (remaining w db cursor < fuel)%nat →
  (∀ p, p ∈ matching w db → is_ok (writeCommitLog p) = true) → is_ok (snapshot fuel w db cursor acc) = true.
Proof.
  intros Hempty Hlt Hok. revert cursor acc Hlt. induction fuel as [|fuel IH]; intros cursor acc Hlt; [lia|]. cbn.
  destruct (last (page w db cursor)) as [p|] eqn:Hlast; [|done]. pose proof (remaining_page cursor p Hempty Hlast) as Hr.
  destruct (traverse_total writeCommitLog (page w db cursor)) as [lines ->].
  { intros q Hq. apply is_ok_spec, Hok. by apply page_spec in Hq as [? _]. }
  cbn. apply IH. lia.
Qed.

Lemma snapshot_of_ok : commit_logs db !! "" = None → (∀ p, p ∈ matching w db → is_ok (writeCommitLog p) = true) →
  ∃ lines, snapshot_of w db = Ok lines.
Proof.
  intros Hempty Hok. apply is_ok_spec, snapshot_ends; [done| |done].
  unfold remaining. pose proof (length_filter_le (λ p, after "" (fst p)) (matching w db)). lia.
Qed.
End Ends.

Lemma delete_ids_ok fails fuel i ids total s : (∀ x, fails x = false) → ∃ n s', delete_ids fails fuel i ids total s = (Ok n, s').
Proof.
  intros Hf. revert i ids total s. induction fuel as [|fuel IH]; intros i ids total s; cbn; [by eauto|].
  destruct ids as [|id ids]; [by eauto|]. rewrite Hf. apply IH.
Qed.

(** ** The collector *)

Section Collector.
Context `{Url.NetIP} `{StoreCodec} `{LimitRows}.

Lemma gc_runs fails time stamp o s dest : (∀ x, fails x = false) → wf (site_db s) → commit_logs (site_db s) !! "" = None →
  MaxBackdate <= gc_Retention o → backup_destination (gc_Backup o) "gc-commitlog" (gc_DryRun o) (gc_NoBackup o) = Ok dest →
  (dest ≠ None → ∀ p, p ∈ matching (gc_where (cutoff time (gc_Retention o))) (site_db s) → is_ok (writeCommitLog p) = true) →
  ∃ n s', gcCommitlog fails time stamp o s = (Ok n, s').
Proof.
  intros Hf Hw Hempty Hret Hdest Hok. unfold gcCommitlog. rewrite bindM_check.
  destruct (Z.ltb_spec (gc_Retention o) MaxBackdate) as [?|_]; [lia|]. cbn [negb]. rewrite bindM_lift, Hdest.
  destruct (gc_DryRun o); [by do 2 eexists|]. destruct dest as [[bucket prefix]|].
  - rewrite bindM_gets, bindM_lift. destruct (snapshot_of_ok _ _ Hempty (Hok ltac:(done))) as [lines ->].
    destruct (bool_decide _); [by do 2 eexists|]. unfold bindM, upload. rewrite Hf. by apply delete_ids_ok.
  - destruct (delete_where_ok fails (gc_where (cutoff time (gc_Retention o))) s) as (s' & Hs' & _); [done..|]. by do 2 eexists.
Qed.

(** A run of [gc-commitlog] that nothing interrupts ends, and deletes the
    flagged documents whose id is below the cutoff with everything that hangs
    on them, and nothing else - each of them with its line in the bucket when
    there is a backup.  Only a stored proof that does not parse can stop a
    backup before anything is deleted. *)
Theorem gc_exact fails time stamp o s dest : (∀ x, fails x = false) → wf (site_db s) → commit_logs (site_db s) !! "" = None →
  MaxBackdate <= gc_Retention o → gc_DryRun o = false →
  backup_destination (gc_Backup o) "gc-commitlog" false (gc_NoBackup o) = Ok dest →
  let w := gc_where (cutoff time (gc_Retention o)) in
  (dest ≠ None → ∀ p, p ∈ matching w (site_db s) → is_ok (writeCommitLog p) = true) →
  ∃ n s', gcCommitlog fails time stamp o s = (Ok n, s') ∧ wf (site_db s') ∧
    erased (doomed w (site_db s)) (site_db s) (site_db s') ∧
    (dest ≠ None → ∀ p, p ∈ matching w (site_db s) → in_bucket s' p).
Proof.
  intros Hf Hw Hempty Hret Hdry Hdest w Hok.
  destruct (gc_runs fails time stamp o s dest) as (n & s' & Hr); [done..|by rewrite Hdry|done|]. exists n, s'. split; [done|].
  apply gc_accounts in Hr as [(Hw' & gone & Hg & He & Hfin & Hb) _]; [|done]. fold w in Hg, Hfin. specialize (Hfin (conj Hdry eq_refl)).
  split_and!; [done| |].
  - apply (erased_ext (λ d, d ∈ gone)); [done| |done]. intros d _. split; [apply Hg|apply Hfin].
  - intros Hne [d c] Hp. apply Hb; [| |by apply elem_of_matching in Hp as [? _]].
    + intros E. apply Hne. by apply destination_spec in Hdest as [_ Hd]; apply Hd.
    + apply Hfin, elem_of_doomed, list_elem_of_fmap. by exists (d, c).
Qed.

(** Whatever fails on the way, what a run of [gc-commitlog] removes was
    flagged and older than the retention, goes with what hangs on it and leaves
    the schema intact; with [--backup] its line was in the bucket first; and a
    retention shorter than the backdate window removes nothing. *)
Theorem gc_accounted fails time stamp o s r s' : wf (site_db s) → gcCommitlog fails time stamp o s = (r, s') →
  wf (site_db s') ∧ (gc_Retention o < MaxBackdate → site_db s' = site_db s) ∧
  ∃ gone : list string, erased (λ d, d ∈ gone) (site_db s) (site_db s') ∧
    ∀ d, d ∈ gone → ∃ c, commit_logs (site_db s) !! d = Some c ∧ cl_GcCandidate c = true ∧
      String.ltb d (cutoff time (gc_Retention o)) = true ∧ (gc_Backup o ≠ "" → in_bucket s' (d, c)).
Proof.
  intros Hw Hr. apply gc_accounts in Hr as [(Hw' & gone & Hg & He & _ & Hb) Hret]; [|done]. split_and!; [done| |].
  { destruct Hret; [lia|done]. }
  exists gone. split; [done|]. intros d Hd. destruct (Hg d Hd) as (c & Hc & Hwc). apply andb_prop in Hwc as [Hgc Hlt]. exists c. split_and!; auto.
Qed.
End Collector.

(** ** Replays

    What happens to the site up to a time: the repository's operations, and
    runs of the collector, with any flags and whatever fails in them. *)
Inductive site_step `{Orm} `{StoreCodec} `{Url.NetIP} `{LimitRows} (t0 : Z) : Site → Site → Prop :=
| StepDb s db : db_step (site_db s) db → site_step t0 s (on_db (λ _, db) s)
| StepGc fails time stamp o s r s' : time <= t0 → gcCommitlog fails time stamp o s = (r, s') → site_step t0 s s'.

Section Replays.
Context `{Url.NetIP} `{Json} `{Keccak} `{Secp256k1} `{StoreCodec} `{Orm} `{Env} `{PolicyEval} `{LimitRows}.

(** The digest of [crypto.Keccak256] has 32 bytes. *)
Definition digest32 : Prop := ∀ s, length (GetHash s) = 32%nat ∧ Forall (digit 256) (GetHash s).

Lemma document_before_cutoff sd (doc : Document any_) time retention : digest32 →
  String.ltb (cdid_of sd doc) (cutoff time retention) = true → CreatedAt doc < time - retention.
Proof.
  intros Hd. destruct (Hd (sd_Document sd)) as [Hl Hb]. apply before_cutoff; [by rewrite length_take, Hl|by apply Forall_take].
Qed.

Definition remembered (t0 : Z) (sd : SignedDocument) (doc : Document any_) (s : Site) : Prop :=
  wf (site_db s) ∧ (HasCommitLog (site_db s) (cdid_of sd doc) = true ∨ CreatedAt doc < t0 - MaxBackdate).

Lemma remembered_step t0 sd doc s s' : digest32 → site_step t0 s s' → remembered t0 sd doc s → remembered t0 sd doc s'.
Proof.
  intros Hd Hs [Hw Hl]. destruct Hs as [s db Hs|fails time stamp o s r s' Ht Hr].
  - split; [by eapply db_step_wf|]. destruct Hl as [Hl|]; [left|by right]. eapply (steps_logs (site_db s)); [|done].
    by apply rtc_once.
  - apply gc_accounts in Hr as [(Hw' & gone & Hg & He & _) Hret]; [|done]. split; [done|].
    destruct Hl as [Hl|]; [|by right]. destruct Hret as [Hret| ->]; [|by left].
    destruct (decide (cdid_of sd doc ∈ gone)) as [Hin|Hn].
    + right. destruct (Hg _ Hin) as (c & _ & Hwc). apply andb_prop in Hwc as [_ Hlt]. apply document_before_cutoff in Hlt; [lia|done].
    + left. revert Hl. unfold HasCommitLog. destruct (commit_logs (site_db s) !! _) as [c|] eqn:Hc; [intros _|done].
      assert (commit_logs (site_db s') !! cdid_of sd doc = Some c) as -> by by apply (er_logs _ _ _ He). done.
Qed.

(** C11: for the commits to which the backdate window applies, collecting
    tombstones does not reopen the replay hole.  Once a document has a commit
    log, then after any operations of the repository and any runs of
    [gc-commitlog] up to now - with any flags, whatever fails in them - such a
    commit of it changes nothing: it is answered with itself because its log is
    there, or refused.  The window applies to every commit but the system
    account's, those of entities and ackeds, and a user's local replay of its
    own log; for these the hole stays open. *)
Theorem replay_window fuel ctx ip sd mode doc s0 s st : digest32 →
  unmarshal_document (sd_Document sd) = Ok doc → ctx_system ctx = false → backdate_exempt ctx mode doc = false →
  wf (site_db s0) → HasCommitLog (site_db s0) (cdid_of sd doc) = true →
  rtc (site_step now) s0 s → st_db st = site_db s →
  let out := Commit (S fuel) ctx ip sd mode st in
  out = (Ok sd, st) ∨ refused out st.
Proof.
  intros Hd Hdoc Hsys Hex Hw Hl Hs Hst out.
  assert (remembered now sd doc s) as [_ Hrem].
  { assert (remembered now sd doc s0) as Hr by by split; [|left]. clear Hst Hw Hl. induction Hs as [|s1 s2 s3 H12 _ IH]; [done|].
    apply IH. by eapply remembered_step. }
  destruct (admission fuel ctx ip sd mode st) as [Hr|[(d & _ & _ & Ho)|(d & Ha & Hnolog)]]; [by right|by left|].
  exfalso. destruct Ha as [Hd' _ _ _ Hsig]. assert (d = doc) as -> by congruence. rewrite Hst in Hnolog.
  destruct Hsig as [|(_ & _ & [|Hin])]; [congruence..|]. destruct Hrem as [|]; [congruence|lia].
Qed.
End Replays.

(** ** Deleting a user *)

Section Accounted.
Context `{StoreCodec}.

Lemma accounts_weaken w (a a' b b' : Prop) s s' : (a' → a) → (b' → b) → accounts w a b s s' → accounts w a' b' s s'.
Proof. intros Ha Hb (Hw & gone & Hg & He & Hf & Hs). split; [done|]. exists gone. split_and!; auto. Qed.

(** Accounts look at the tables and at what the bucket holds. *)
Lemma accounts_after w a b s s1 s' : site_db s' = site_db s1 → bucket_objects s' = bucket_objects s1 →
  accounts w a b s s1 → accounts w a b s s'.
Proof. intros Ed Eb. unfold accounts, in_bucket. by rewrite Ed, Eb. Qed.

Lemma accounts_clean w a b s s' : accounts w a b s s' → b → ∀ d, ¬ doomed w (site_db s') d.
Proof. intros (_ & gone & _ & He & Hf & _) Hb d Hd. apply (doomed_erased w _ _ _ d He) in Hd as [Hd Hn]. auto. Qed.
End Accounted.

(** An upload adds one object to the bucket, or none for no rows. *)
Definition uploaded (o : string * string * BackupRows) : bool := negb (rows_of (snd o) =? 0)%nat.

Lemma upload_rows_adds fails bucket key suffix rows s r s' : upload_rows fails bucket key suffix rows s = (r, s') →
  site_db s' = site_db s ∧ site_metas s' = site_metas s ∧ site_subscriptions s' = site_subscriptions s ∧
  (is_ok r = true → bucket_objects s' = bucket_objects s ++ List.filter uploaded [(bucket, key +:+ suffix, rows)]).
Proof.
  unfold upload_rows, upload, uploaded. cbn. destruct (rows_of rows =? 0)%nat; [intros [= <- <-]; by rewrite app_nil_r|].
  by destruct (fails _); intros [= <- <-].
Qed.

(** A stuck step ends the run where it is. *)
Lemma bindM_split {S A B} (m : SM S A) (k : A → SM S B) s r s' : bindM m k s = (r, s') →
  (∃ a s1, m s = (Ok a, s1) ∧ k a s1 = (r, s')) ∨ (∃ x, m s = (x, s') ∧ is_ok x = false ∧ is_ok r = false).
Proof. unfold bindM. destruct (m s) as [[a|e|] s1]; [eauto|intros [= <- <-]; right; by eexists..]. Qed.

Section Users.
Context `{Url.NetIP} `{StoreCodec} `{LimitRows} (fails : Statement → bool).

(** The files of a backup: the lines, the meta and the subscriptions. *)
Definition user_files (ccid stamp bucket prefix : string) (lines : list SignedDocumentWithMeta) (s : Site)
    : list (string * string * BackupRows) :=
  [(bucket, (prefix +:+ stamp) +:+ ".commits.jsonl", CommitRows lines);
   (bucket, (prefix +:+ stamp) +:+ ".metas.jsonl", MetaRows (metas_of ccid s));
   (bucket, (prefix +:+ stamp) +:+ ".subscriptions.jsonl", SubscriptionRows (subscriptions_of ccid s))].

(** Since [s] the run has put in the bucket, under its own name, a line for
    every commit log the user owned in [s], the registration and the
    subscriptions. *)
Definition user_saved (ccid stamp bucket prefix : string) (s s' : Site) : Prop := ∃ rows lines,
  Forall2 (λ p line, writeCommitLog p = Ok line) rows lines ∧
  (∀ d c, (d, c) ∈ rows ↔ commit_logs (site_db s) !! d = Some c ∧ cl_Owner c = ccid) ∧
  bucket_objects s' = bucket_objects s ++ List.filter uploaded (user_files ccid stamp bucket prefix lines s).

(** With a backup, the commit logs are as they were or everything is saved. *)
Definition logs_kept_or_saved (ccid stamp : string) (backup : option (string * string)) (s s' : Site) : Prop :=
  match backup with
  | None => True
  | Some (bucket, prefix) => site_db s' = site_db s ∨ user_saved ccid stamp bucket prefix s s'
  end.

Definition all_saved (ccid stamp : string) (backup : option (string * string)) (s s' : Site) : Prop :=
  match backup with None => True | Some (bucket, prefix) => user_saved ccid stamp bucket prefix s s' end.

Lemma snapshot_rows ccid db lines : snapshot_of (owned ccid) db = Ok lines → ∃ rows,
  Forall2 (λ p line, writeCommitLog p = Ok line) rows lines ∧
  ∀ d c, (d, c) ∈ rows ↔ commit_logs db !! d = Some c ∧ cl_Owner c = ccid.
Proof.
  intros (rows & l & -> & Hf & Hr)%snapshot_spec. exists rows. split; [done|]. intros d c.
  rewrite Hr, elem_of_matching. unfold owned, after. cbn. rewrite String.eqb_eq. naive_solver.
Qed.

Lemma delete_owned_accounts ccid stamp backup s r s' : wf (site_db s) →
  delete_owned fails ccid stamp backup (metas_of ccid s) (subscriptions_of ccid s) s = (r, s') →
  accounts (owned ccid) (backup ≠ None) (is_ok r = true) s s' ∧
  site_metas s' = site_metas s ∧ site_subscriptions s' = site_subscriptions s ∧
  logs_kept_or_saved ccid stamp backup s s' ∧ (is_ok r = true → all_saved ccid stamp backup s s').
Proof.
  intros Hw. unfold delete_owned. destruct backup as [[bucket prefix]|].
  2: { intros Hr. apply delete_where_accounts in Hr as [Ha (E1 & E2 & _)]; [|done]. split_and!; [|done..].
    by eapply accounts_weaken; [| |exact Ha]. }
  rewrite bindM_gets, bindM_lift. destruct (snapshot_of _ _) as [lines|e|] eqn:Hsnap.
  2,3: intros [= <- <-]; split_and!; [by apply accounts_same|done|done|by left|done].
  intros [([] & s1 & Hu1 & Hr)|(x & Hu1 & _ & Hx)]%bindM_split.
  2: { apply upload_rows_adds in Hu1 as (E1 & E2 & E3 & _). rewrite Hx. split_and!; [by apply accounts_same|done|done|by left|done]. }
  apply upload_rows_adds in Hu1 as (E1 & M1 & S1 & B1). specialize (B1 eq_refl).
  apply bindM_split in Hr as [([] & s2 & Hu2 & Hr)|(x & Hu2 & _ & Hx)].
  2: { apply upload_rows_adds in Hu2 as (E2 & M2 & S2 & _). rewrite Hx.
    split_and!; [apply accounts_same; [done|congruence|done]|congruence..|left; congruence|done]. }
  apply upload_rows_adds in Hu2 as (E2 & M2 & S2 & B2). specialize (B2 eq_refl).
  apply bindM_split in Hr as [([] & s3 & Hu3 & Hr)|(x & Hu3 & _ & Hx)].
  2: { apply upload_rows_adds in Hu3 as (E3 & M3 & S3 & _). rewrite Hx.
    split_and!; [apply accounts_same; [done|congruence|done]|congruence..|left; congruence|done]. }
  apply upload_rows_adds in Hu3 as (E3 & M3 & S3 & B3). specialize (B3 eq_refl).
  assert (bucket_objects s3 = bucket_objects s ++ List.filter uploaded (user_files ccid stamp bucket prefix lines s)) as Hb.
  { rewrite B3, B2, B1, <- !app_assoc. unfold user_files. f_equal. rewrite <- !List.filter_app. done. }
  apply (delete_ids_accounts fails (owned ccid) s) with (bucket := bucket) (key := (prefix +:+ stamp) +:+ ".commits.jsonl") in Hr
    as [Ha (M4 & S4 & B4)]; [|done|done|congruence|].
  2: { intros Hne. rewrite Hb. apply elem_of_app. right. apply elem_of_filter_b. split; [by left|]. by destruct lines. }
  assert (user_saved ccid stamp bucket prefix s s') as Hsaved.
  { destruct (snapshot_rows _ _ _ Hsnap) as (rows & Hf & Hrows). exists rows, lines. split_and!; [done|done|]. by rewrite B4. }
  split_and!; [by eapply accounts_weaken; [| |exact Ha]|congruence..|by right|done].
Qed.

Definition without_subscriptions (ccid : string) (s : Site) : Site :=
  mkSite (site_db s) (site_metas s) (filter (λ p, ns_Owner (snd p) ≠ ccid) (site_subscriptions s)) (bucket_objects s).
Definition without_meta (ccid : string) (s : Site) : Site :=
  mkSite (site_db s) (delete ccid (site_metas s)) (site_subscriptions s) (bucket_objects s).

(** How far a run got: nothing was asked for or there was nothing; the commit
    logs; the subscriptions after all of them; the registration after both. *)
Inductive user_stage (ccid stamp : string) (backup : option (string * string)) (dryRun : bool) (s : Site) : bool → Site → Prop :=
| StageNothing b : (dryRun = false → (∀ d, ¬ doomed (owned ccid) (site_db s) d) ∧ metas_of ccid s = [] ∧ subscriptions_of ccid s = []) →
    user_stage ccid stamp backup dryRun s b s
| StageCommits s1 : accounts (owned ccid) (backup ≠ None) False s s1 →
    site_metas s1 = site_metas s → site_subscriptions s1 = site_subscriptions s → logs_kept_or_saved ccid stamp backup s s1 →
    user_stage ccid stamp backup dryRun s false s1
| StageSubscriptions (b : bool) (s1 s' : Site) : accounts (owned ccid) (backup ≠ None) True s s1 →
    site_metas s1 = site_metas s → site_subscriptions s1 = site_subscriptions s → all_saved ccid stamp backup s s1 →
    s' = (if b then without_meta ccid (without_subscriptions ccid s1) else without_subscriptions ccid s1) →
    user_stage ccid stamp backup dryRun s b s'.

Lemma deleteUser_stage ccid stamp backup dryRun s r s' : wf (site_db s) →
  deleteUser fails ccid stamp backup dryRun s = (r, s') → user_stage ccid stamp backup dryRun s (is_ok r) s'.
Proof.
  intros Hw. unfold deleteUser. rewrite !bindM_gets. destruct (_ || _) eqn:E.
  { intros [= <- <-]. constructor. intros ->. cbn in E. apply andb_prop in E as [[E1 E2]%andb_prop E3].
    apply Nat.eqb_eq, nil_length_inv in E1, E2, E3. split_and!; [|done..].
    intros d Hd%elem_of_doomed. rewrite E1 in Hd. by apply elem_of_nil in Hd. }
  clear E. intros [(n & s1 & Hc & Hr)|(x & Hc & Hx & ->)]%bindM_split.
  2: { apply delete_owned_accounts in Hc as (Ha & Em & Es & Hk & _); [|done]. rewrite Hx in Ha. constructor; [|done..].
    by eapply accounts_weaken; [| |exact Ha]. }
  apply delete_owned_accounts in Hc as (Ha & Em & Es & Hk & Hsaved); [|done]. specialize (Hsaved eq_refl).
  apply (accounts_weaken _ _ (backup ≠ None) _ True) in Ha; [|done..].
  unfold bindM at 1, delete_subscriptions in Hr. destruct (fails DeleteSubscriptions).
  { injection Hr as <- <-. constructor; [|done..]. by eapply accounts_weaken; [| |exact Ha]. }
  unfold bindM, delete_metas in Hr. destruct (fails DeleteMetas); injection Hr as <- <-; by econstructor.
Qed.
End Users.

(** Nothing the site holds is the user's. *)
Definition nothing_of (ccid : string) (s : Site) : Prop :=
  (∀ d, ¬ doomed (owned ccid) (site_db s) d) ∧ subscriptions_of ccid s = [] ∧ site_metas s !! ccid = None.

Lemma no_subscriptions_of ccid s : subscriptions_of ccid (without_subscriptions ccid s) = [].
Proof.
  apply elem_of_nil_inv. intros n. unfold subscriptions_of. rewrite elem_of_filter_b, list_elem_of_fmap.
  intros [([k n'] & -> & Hin%elem_of_map_to_list%map_lookup_filter_Some) He%String.eqb_eq]. by destruct Hin as [_ Hne].
Qed.

Section UserTheorems.
Context `{Url.NetIP} `{StoreCodec} `{LimitRows}.

(** Whatever fails on the way, [delete-user] removes only what is the
    user's: commit logs the user owns, with what hangs on them and no others,
    leaving the schema intact and, with a backup, each in the bucket first; the
    registrations and the push subscriptions of everybody else stay. *)
Theorem user_accounted fails ccid stamp backup dryRun s r s' : wf (site_db s) →
  deleteUser fails ccid stamp backup dryRun s = (r, s') →
  wf (site_db s') ∧
  (∃ gone : list string, erased (λ d, d ∈ gone) (site_db s) (site_db s') ∧
    ∀ d, d ∈ gone → ∃ c, commit_logs (site_db s) !! d = Some c ∧ cl_Owner c = ccid ∧ (backup ≠ None → in_bucket s' (d, c))) ∧
  (∀ c, c ≠ ccid → site_metas s' !! c = site_metas s !! c) ∧
  (∀ k n, ns_Owner n ≠ ccid → site_subscriptions s' !! k = Some n ↔ site_subscriptions s !! k = Some n).
Proof.
  intros Hw Hr. assert (∃ b, accounts (owned ccid) (backup ≠ None) b s s') as [b (Hw' & gone & Hg & He & _ & Hb)].
  { exists False. destruct (deleteUser_stage _ _ _ _ _ _ _ _ Hw Hr) as [b|s1 Ha|b s1 s2 Ha _ _ _ ->]; [by apply accounts_same|done|].
    apply (accounts_weaken _ _ (backup ≠ None) _ False) in Ha; [|done..]. by destruct b; apply (accounts_after _ _ _ _ s1). }
  split; [done|]. split.
  { exists gone. split; [done|]. intros d Hd. destruct (Hg d Hd) as (c & Hc & Ho%String.eqb_eq). exists c. split_and!; auto. }
  destruct (deleteUser_stage _ _ _ _ _ _ _ _ Hw Hr) as [? _|s1 _ Em Es _|fin s1 s2 _ Em Es _ ->]; [done|by rewrite Em, Es|].
  rewrite <- Em, <- Es. split.
  - intros c Hc. destruct fin; cbn; [by rewrite lookup_delete_ne|done].
  - intros k n Hn. destruct fin; cbn; rewrite map_lookup_filter_Some; cbn; tauto.
Qed.

(** C28: the registration goes last.  With a backup, either nothing of the site
    but the bucket has changed, or this run has first put in the bucket, under
    its own name, a line for every commit log the user owned, the registration
    and the subscriptions.  As long as a commit log the user owns is left,
    whatever failed, the registration and the subscriptions are as they were, so
    that the user still looks registered and a second run finishes the job; and
    as long as a subscription is left, so is the registration.  A run that
    reports success, and was no dry run, leaves nothing of the user. *)
Theorem registration_last fails ccid stamp backup dryRun s r s' : wf (site_db s) →
  deleteUser fails ccid stamp backup dryRun s = (r, s') →
  (∀ bucket prefix, backup = Some (bucket, prefix) →
    (site_db s' = site_db s ∧ site_metas s' = site_metas s ∧ site_subscriptions s' = site_subscriptions s) ∨
    user_saved ccid stamp bucket prefix s s') ∧
  ((site_metas s' = site_metas s ∧ site_subscriptions s' = site_subscriptions s) ∨
   ((∀ d, ¬ doomed (owned ccid) (site_db s') d) ∧ subscriptions_of ccid s' = [] ∧
    (site_metas s' = site_metas s ∨ site_metas s' = delete ccid (site_metas s)))) ∧
  (is_ok r = true → dryRun = false → nothing_of ccid s').
Proof.
  intros Hw Hr. destruct (deleteUser_stage _ _ _ _ _ _ _ _ Hw Hr) as [b Hn|s1 Ha Em Es Hk|fin s1 s2 Ha Em Es Hb ->].
  - split_and!; [by left|by left|]. intros _ Hd. destruct (Hn Hd) as (Hc & Hm & Hs). split_and!; [done..|].
    unfold metas_of in Hm. by destruct (site_metas s !! ccid).
  - split_and!; [|by left|done]. intros bucket prefix ->. destruct Hk as [Hk|Hk]; [by left|by right].
  - assert (∀ d, ¬ doomed (owned ccid) (site_db s1) d) as Hclean by by eapply accounts_clean.
    split; [intros bucket prefix ->; right; by destruct fin|]. split; [right; split_and!|].
    + by destruct fin.
    + destruct fin; apply no_subscriptions_of.
    + destruct fin; cbn; rewrite Em; auto.
    + intros -> _. split_and!; [done|apply no_subscriptions_of|]. cbn. by rewrite lookup_delete_eq.
Qed.
End UserTheorems.

(** ** Examples

    A server that holds a post of a departed author and one of somebody else,
    and what it knows about the author. *)

Module Ops.
#[local] Existing Instance World.netip.
#[local] Existing Instance World.secp.
#[local] Existing Instance Net.network.
#[local] Existing Instance StoreFacts.gorm.
#[local] Existing Instance Server.codec.
#[local] Existing Instance Server.policy.
#[local] Instance json : Json := Server.json 0.
#[local] Instance keccak : Keccak := λ s, take 32 (bytes_of s ++ zero_bytes 32).

(** Fourteen days after the post. *)
#[local] Instance later : Env := {|
  FQDN := "host"; Layer := "main"; now := 2 * MaxBackdate;
  resolve_server _ := Ok ("main", ""); LookupTXT _ := Err (GoError "no such host"); dns_not_found _ := true;
  get_resource _ _ := Err (NotFoundError "" "" ""); document_resolver _ := Err (NotFoundError "" "" "");
  ResolveResourceHost _ := Ok "host"; ResolveResourceURI uri := Ok uri;
  marshal_policy _ := Ok ""; marshal_value _ := Ok ""; xxh3_hex s := s;
|}.

#[local] Instance first_rows : LimitRows.
Proof.
  refine {| limit_rows n l := take n l |}. intros n l. exists (drop n l). by rewrite take_drop, length_take.
Defined.

Lemma digests : digest32.
Proof.
  intros s. unfold GetHash, keccak256, keccak. split.
  - rewrite length_take, length_app. unfold zero_bytes. rewrite length_replicate. lia.
  - apply Forall_take, Forall_app. split; [|by repeat constructor].
    unfold bytes_of. apply Forall_forall. intros z (c & -> & _)%list_elem_of_fmap. apply byte_val_digit.
Qed.

Definition post : Document any_ := Server.record "posts/a" "note" ANil None.
Definition post_id : string := cdid_of (Server.by_author "post") post.

Definition log_row (id owner text : string) (db : DB) : DB :=
  match CreateCommitLog db 7 id "ip" text (World.by_key World.author_sig) owner with Ok db' => db' | _ => db end.
Definition post_row (db : DB) : DB :=
  match CreateRecord 5 db post_id (Key post) Server.author Server.author "note" None None [] None 10 with Ok (_, db') => db' | _ => db end.

(** The author has left: the post is flagged. *)
Definition departed : DB :=
  log_row "zz" "con1bob" "hello" (MarkCommitLogsGcCandidateByOwner (post_row (log_row post_id Server.author "post" empty_db)) Server.author).

Lemma log_row_wf id owner text db : wf db → wf (log_row id owner text db).
Proof. unfold log_row. destruct (CreateCommitLog _ _ _ _ _ _ _) eqn:E; [|done..]. by apply db_step_wf, (StepCommitLog _ _ _ _ _ _ _ _ E). Qed.

Lemma post_row_wf db : wf db → wf (post_row db).
Proof. unfold post_row. destruct (CreateRecord _ _ _ _ _ _ _ _ _ _ _ _) as [[b db']| |] eqn:E; [|done..]. eapply table_step_wf. by econstructor. Qed.

Lemma departed_wf : wf departed.
Proof. apply log_row_wf. eapply table_step_wf; [constructor|]. apply post_row_wf, log_row_wf, wf_empty. Qed.

Definition alice : EntityMeta := mkEntityMeta Server.author None "".
Definition hook : NotificationSubscription := mkSubscription "phone" Server.author [] [] "endpoint" 0 1.
Definition site : Site := mkSite departed {[Server.author := alice]} {[("phone", Server.author) := hook]} [].

Definition working (_ : Statement) : bool := false.
Definition no_metas (x : Statement) : bool := match x with DeleteMetas => true | _ => false end.
Definition to_bucket : gcOptions := mkGc false MaxBackdate "s3://bucket/ops" false.

(** The post is collected with its record, and backed up. *)
Lemma gc_exact_witness :
  let w := gc_where (cutoff now MaxBackdate) in
  (matching w departed).*1 = [post_id] ∧
  ∃ n s', gcCommitlog working now "t" to_bucket site = (Ok n, s') ∧ wf (site_db s') ∧
    erased (doomed w departed) departed (site_db s') ∧
    (Some ("bucket", "ops/gc-commitlog/") ≠ None → ∀ p, p ∈ matching w departed → in_bucket s' p).
Proof.
  intros w. assert ((matching w departed).*1 = [post_id]) as Hm by (vm_compute; reflexivity). split; [exact Hm|].
  apply (gc_exact working now "t" to_bucket site (Some ("bucket", "ops/gc-commitlog/"))); try (vm_compute; reflexivity).
  - apply departed_wf.
  - vm_compute. discriminate.
  - intros _. apply Forall_forall. vm_compute. repeat constructor.
Defined.

(** A run whose delete fails after the upload. *)
Definition no_deletes (x : Statement) : bool := match x with DeleteBatch _ => true | _ => false end.
Definition stopped : result Z * Site := gcCommitlog no_deletes now "t" to_bucket site.

Lemma gc_accounted_witness :
  is_ok (fst stopped) = false ∧ length (bucket_objects (snd stopped)) = 1%nat ∧
  wf (site_db (snd stopped)) ∧ (MaxBackdate < MaxBackdate → site_db (snd stopped) = departed) ∧
  ∃ gone : list string, erased (λ d, d ∈ gone) departed (site_db (snd stopped)) ∧
    ∀ d, d ∈ gone → ∃ c, commit_logs departed !! d = Some c ∧ cl_GcCandidate c = true ∧
      String.ltb d (cutoff now MaxBackdate) = true ∧ ("s3://bucket/ops" ≠ "" → in_bucket (snd stopped) (d, c)).
Proof.
  split; [vm_compute; reflexivity|]. split; [vm_compute; reflexivity|].
  apply (gc_accounted no_deletes now "t" to_bucket site (fst stopped) (snd stopped) departed_wf).
  apply surjective_pairing.
Defined.

(** The collected post, delivered again: it is no longer known, and refused. *)
Definition collected : Site := snd (gcCommitlog working now "t" to_bucket site).
Definition collected_st : St := mkSt (site_db collected) [] ∅ ∅ [].

Lemma replay_window_witness :
  HasCommitLog (site_db collected) post_id = false ∧
  let out := Commit 3 Server.user "ip" (Server.by_author "post") CommitModeExecute collected_st in
  fst out = Err (ValidationError "createdAt" "createdAt is older than the allowed backdate window") ∧
  (out = (Ok (Server.by_author "post"), collected_st) ∨ refused out collected_st).
Proof.
  split; [vm_compute; reflexivity|]. split; [vm_compute; reflexivity|].
  apply (replay_window 2 Server.user "ip" (Server.by_author "post") CommitModeExecute post site collected collected_st);
    try reflexivity; [apply digests|apply departed_wf|].
  apply rtc_once. apply (StepGc now working now "t" to_bucket site (fst (gcCommitlog working now "t" to_bucket site))); [lia|].
  apply surjective_pairing.
Defined.

(** [delete-user], cut short before the registration. *)
Definition cut_short : result deleteUserStats * Site :=
  deleteUser no_metas Server.author "t" (Some ("bucket", "ops/")) false site.

Lemma user_accounted_witness :
  length (bucket_objects (snd cut_short)) = 3%nat ∧ HasCommitLog (site_db (snd cut_short)) "zz" = true ∧
  wf (site_db (snd cut_short)) ∧
  (∃ gone : list string, erased (λ d, d ∈ gone) departed (site_db (snd cut_short)) ∧
    ∀ d, d ∈ gone → ∃ c, commit_logs departed !! d = Some c ∧ cl_Owner c = Server.author ∧
      (Some ("bucket", "ops/") ≠ None → in_bucket (snd cut_short) (d, c))) ∧
  (∀ c, c ≠ Server.author → site_metas (snd cut_short) !! c = site_metas site !! c) ∧
  (∀ k n, ns_Owner n ≠ Server.author → site_subscriptions (snd cut_short) !! k = Some n ↔ site_subscriptions site !! k = Some n).
Proof.
  split; [vm_compute; reflexivity|]. split; [vm_compute; reflexivity|].
  apply (user_accounted no_metas Server.author "t" (Some ("bucket", "ops/")) false site (fst cut_short) (snd cut_short) departed_wf).
  apply surjective_pairing.
Defined.

Lemma registration_last_witness :
  is_ok (fst cut_short) = false ∧ site_metas (snd cut_short) !! Server.author = Some alice ∧
  length (bucket_objects (snd cut_short)) = 3%nat ∧
  (∀ bucket prefix, Some ("bucket", "ops/") = Some (bucket, prefix) →
    (site_db (snd cut_short) = site_db site ∧ site_metas (snd cut_short) = site_metas site ∧
     site_subscriptions (snd cut_short) = site_subscriptions site) ∨
    user_saved Server.author "t" bucket prefix site (snd cut_short)) ∧
  ((site_metas (snd cut_short) = site_metas site ∧ site_subscriptions (snd cut_short) = site_subscriptions site) ∨
   ((∀ d, ¬ doomed (owned Server.author) (site_db (snd cut_short)) d) ∧ subscriptions_of Server.author (snd cut_short) = [] ∧
    (site_metas (snd cut_short) = site_metas site ∨ site_metas (snd cut_short) = delete Server.author (site_metas site)))) ∧
  (is_ok (fst cut_short) = true → false = false → nothing_of Server.author (snd cut_short)).
Proof.
  do 3 (split; [vm_compute; reflexivity|]).
  apply (registration_last no_metas Server.author "t" (Some ("bucket", "ops/")) false site (fst cut_short) (snd cut_short) departed_wf).
  apply surjective_pairing.
Defined.
End Ops.
