(* ===== verification/Transfer.v ===== *)
(** * Transfer: dumps of the commit log ([src/cmd/conctl])

    [dump-commitlog] writes the commit logs of a time window and the
    registrations, [filter-commitlog] keeps the lines of a dump that pass its
    flags, and [import-commitlog] replays a dump on a running server: the
    registrations, then the entities, then everything else, in batches of lines
    that the server imports as the system account ([dump-commitlog.go],
    [filter-commitlog.go], [import-commitlog.go]). *)

From S2P Require Import Prelude Effects Bytes Numbers Cdid Url Ccuri Documents Verify Store Queries Usecase Commit.
From S2P Require Gateway.
From S2P Require Import Auth Rest Operation.
From stdpp Require Import prelude strings gmap list sorting.
From Stdlib Require Import ZArith Lia Ascii.
Open Scope Z_scope.
Open Scope uc_scope.

(** ** Dump *)

Record dumpOptions : Type := mkDump {
  dp_Since : string;
  dp_SinceID : string;
  dp_Until : string;
  dp_UntilID : string;
  dp_Owner : string;
}.

Section Dump.
Context `{StoreCodec} `{LogCodec} `{TimeParse}.

Definition exclusive (flag time id : string) : result unit :=
  if negb (String.eqb time "") && negb (String.eqb id "")
  then Err (GoError ("--" +:+ flag +:+ " and --" +:+ flag +:+ "-id are mutually exclusive")) else Ok tt.

(** A bound: the id that was given, or the first or last id of a millisecond. *)
Definition dump_bound (flag time id : string) (data : list Z) : result string :=
  _ ← (if String.eqb id "" then Ok tt
       else match Cdid.Parse id with
            | Ok _ => Ok tt
            | Err _ => Err (GoError ("invalid --" +:+ flag +:+ "-id"))
            | Panic => Panic
            end);
  if String.eqb time "" then Ok id
  else match parse_rfc3339 time with
       | Ok t => Ok (Cdid.String (Cdid.New data t))
       | Err _ => Err (GoError ("invalid --" +:+ flag +:+ " (expected RFC3339)"))
       | Panic => Panic
       end.

Definition max_data : list Z := replicate 10 255.

Definition dump_bounds (o : dumpOptions) : result (string * string) :=
  _ ← exclusive "since" (dp_Since o) (dp_SinceID o);
  _ ← exclusive "until" (dp_Until o) (dp_UntilID o);
  lower ← dump_bound "since" (dp_Since o) (dp_SinceID o) (zero_bytes 10);
  upper ← dump_bound "until" (dp_Until o) (dp_UntilID o) max_data;
  Ok (lower, upper).

(** The rows up to the upper bound, of the owner. *)
Definition dumped (upper owner : string) (p : string * CommitLog) : bool :=
  (String.eqb upper "" || String.leb (fst p) upper) && matches owner (cl_Owner (snd p)).

Definition dumpPageSize : nat := 1000.

(** A page: at the cursor or after it at first, after it from then on. *)
Definition dump_page (first : bool) (cursor upper owner : string) (db : DB) : list (string * CommitLog) :=
  list_query (λ x y, String.leb (fst x) (fst y))
    (λ p, (if first then String.leb cursor (fst p) else String.ltb cursor (fst p)) && dumped upper owner p)
    (Z.of_nat dumpPageSize) "" (map_to_list (commit_logs db)).

Definition dump_line (p : string * CommitLog) : result string :=
  match unmarshal_proof (cl_Proof (snd p)) with
  | Ok proof => marshal_signed_document (signed (cl_Document (snd p)) proof)
  | Err e => Err (GoError ("failed to parse proof for commit " +:+ fst p +:+ ": " +:+ error_text e))
  | Panic => Panic
  end.

Fixpoint dump_logs (fuel : nat) (first : bool) (cursor upper owner : string) (db : DB) (acc : list string)
    : result (list string) :=
  match fuel with
  | O => Err OutOfFuel
  | S fuel =>
      match last (dump_page first cursor upper owner db) with
      | None => Ok acc
      | Some p =>
          lines ← traverse dump_line (dump_page first cursor upper owner db);
          dump_logs fuel false (fst p) upper owner db (acc ++ lines)
      end
  end.

(** The files: registrations, and the lines of the commit logs. *)
Definition dumpCommitlog (o : dumpOptions) (s : Site) : result (list EntityMeta * list string) :=
  bounds ← dump_bounds o;
  commits ← dump_logs (S (size (commit_logs (site_db s)))) true (fst bounds) (snd bounds) (dp_Owner o) (site_db s) [];
  Ok (List.filter (λ m, matches (dp_Owner o) (em_ID m)) (map_to_list (site_metas s)).*2, commits).
End Dump.

(** ** Filter *)

(** What [filter-commitlog] reads of a document. *)
Record Head : Type := mkHead {
  hd_Kind : string;
  hd_Schema : string;
  hd_Author : string;
  hd_Key : string;
  hd_Associate : option string;
}.

Class HeadCodec := { unmarshal_head : string → result Head; unmarshal_kind : string → result string }.

Record filterOptions : Type := mkFilter {
  ft_ExcludeProofs : list string;
  ft_ExcludeOwners : list string;
  ft_OnlyKinds : list string;
  ft_OnlySchemas : list string;
}.

Section Filter.
Context `{Url.NetIP} `{LogCodec} `{HeadCodec} (o : filterOptions).

Definition uri_owner (uri : string) : list string :=
  match ParseCCURI uri with Ok parsed => [Ccuri.Owner parsed] | _ => [] end.

Definition head_owners (h : Head) : list string :=
  hd_Author h :: (if String.eqb (hd_Key h) "" then [] else uri_owner (hd_Key h)) ++
  match hd_Associate h with Some a => uri_owner a | None => [] end.

Definition given (l : list string) : bool := negb (bool_decide (l = [])).

Definition head_passes (h : Head) : bool :=
  if given (ft_ExcludeOwners o) && existsb (in_list (ft_ExcludeOwners o)) (head_owners h) then false
  else if given (ft_OnlyKinds o) && negb (in_list (ft_OnlyKinds o) (hd_Kind h)) then false
  else negb (given (ft_OnlySchemas o) && negb (in_list (ft_OnlySchemas o) (hd_Schema h))).

(** Lines that do not parse are kept. *)
Definition line_passes (line : string) : bool :=
  match unmarshal_signed_document line with
  | Ok sd =>
      if in_list (ft_ExcludeProofs o) (pr_Type (sd_Proof sd)) then false
      else if given (ft_ExcludeOwners o) || given (ft_OnlyKinds o) || given (ft_OnlySchemas o) then
        match unmarshal_head (sd_Document sd) with Ok h => head_passes h | _ => true end
      else true
  | _ => true
  end.

Definition filterCommitlog (lines : list string) : list string :=
  List.filter (λ line, negb (String.eqb line "") && line_passes line) (Gateway.TrimSpace <$> lines).
End Filter.

(** ** Import *)

Record Tally : Type := mkTally { metaOK : Z; entityOK : Z; otherOK : Z; failed : Z }.

Definition no_lines : Tally := mkTally 0 0 0 0.
Definition meta_ok (t : Tally) : Tally := mkTally (metaOK t + 1) (entityOK t) (otherOK t) (failed t).
Definition failing (n : Z) (t : Tally) : Tally := mkTally (metaOK t) (entityOK t) (otherOK t) (failed t + n).

(** Accepted lines count for the kind of the phase. *)
Definition accepted (wantEntity : bool) (n : Z) (t : Tally) : Tally :=
  if wantEntity then mkTally (metaOK t) (entityOK t + n) (otherOK t) (failed t)
  else mkTally (metaOK t) (entityOK t) (otherOK t + n) (failed t).

Inductive LineClass := Blank | Unparsed | Line (entity : bool).

Class MetaCodec := unmarshal_meta : string → result EntityMeta.

Section Imports.
Context `{LogCodec} `{HeadCodec} `{MetaCodec}.
(** What the registrations and a server answer. *)
Context {S : Type} (save_meta : EntityMeta → SM S unit) (postRepository : string → SM S (list ImportResult)).
Context (dryRun : bool) (batchSize : Z).

Definition classify (line : string) : LineClass :=
  if String.eqb line "" then Blank
  else match unmarshal_signed_document line with
       | Ok sd =>
           match unmarshal_kind (sd_Document sd) with
           | Ok kind => Line (String.eqb kind "entity")
           | _ => Unparsed
           end
       | _ => Unparsed
       end.

Fixpoint import_metas (lines : list string) (t : Tally) : SM S Tally :=
  match lines with
  | [] => retM t
  | l :: lines =>
      let line := Gateway.TrimSpace l in
      if String.eqb line "" then import_metas lines t
      else
        match unmarshal_meta line with
        | Ok meta =>
            if dryRun then import_metas lines (meta_ok t)
            else
              let* r := tryM (save_meta meta) in
              import_metas lines (match r with Ok _ => meta_ok t | _ => failing 1 t end)
        | _ => import_metas lines (failing 1 t)
        end
  end.

Definition flush (wantEntity : bool) (batch : list string) (t : Tally) : SM S Tally :=
  match batch with
  | [] => retM t
  | _ =>
      let* results := postRepository (Str.join batch newline) in
      let rejected := Z.of_nat (length results) in
      retM (failing rejected (accepted wantEntity (Z.of_nat (length batch) - rejected) t))
  end.

(** One pass over the file. *)
Fixpoint import_phase (wantEntity : bool) (lines batch : list string) (t : Tally) : SM S Tally :=
  match lines with
  | [] => flush wantEntity batch t
  | l :: lines =>
      let line := Gateway.TrimSpace l in
      match classify line with
      | Blank => import_phase wantEntity lines batch t
      | Unparsed => import_phase wantEntity lines batch (if wantEntity then failing 1 t else t)
      | Line entity =>
          if negb (Bool.eqb entity wantEntity) then import_phase wantEntity lines batch t
          else if dryRun then import_phase wantEntity lines batch (accepted wantEntity 1 t)
          else
            let batch := batch ++ [line] in
            if batchSize <=? Z.of_nat (length batch) then
              let* t := flush wantEntity batch t in
              import_phase wantEntity lines [] t
            else import_phase wantEntity lines batch t
      end
  end.

(** [make] panics on a negative capacity. *)
Definition commitPhase (wantEntity : bool) (lines : list string) (t : Tally) : SM S Tally :=
  if batchSize <? 0 then panicM else import_phase wantEntity lines [] t.

Definition importCommitlog (commits : list string) (metas : option (list string)) : SM S Tally :=
  let* t := match metas with Some lines => import_metas lines no_lines | None => retM no_lines end in
  let* t := commitPhase true commits t in
  let* t := commitPhase false commits t in
  if 0 <? failed t then failM (GoError (FormatInt (failed t) +:+ " lines failed to import")) else retM t.
End Imports.

(** ** The server's side of a post *)

Section Server.
Context `{Url.NetIP} `{Json} `{Keccak} `{Secp256k1} `{StoreCodec} `{Orm} `{Env} `{PolicyEval} `{LogCodec}.

(** The lines of a body, as [bufio.ScanLines] cuts them: without the last
    newline, and without a carriage return before a newline. *)
Definition drop_cr (s : string) : string := Str.trim_suffix s (String (ascii_of_nat 13) "").
Definition raw_lines (body : string) : list string :=
  if String.eqb body "" then [] else Str.split (Str.trim_suffix body newline) (ascii_of_nat 10).

(** A line and its newline fit the scanner's buffer. *)
Definition fits (line : string) : bool := Z.of_nat (Str.len line) <? MaxImportLineBytes.
Fixpoint fitting (lines : list string) : list string :=
  match lines with [] => [] | l :: lines => if fits l then l :: fitting lines else [] end.

(** The scanner stops at the first line that does not fit, the reader at the
    end of what it lets through. *)
Definition scan (body : string) : list string * ScanEnd :=
  let raw := raw_lines (Str.take (Z.to_nat maxImportBodyBytes) body) in
  (drop_cr <$> fitting raw,
   if negb (forallb fits raw) then LineTooLong
   else if maxImportBodyBytes <? Z.of_nat (Str.len body) then BodyTooLarge else AllRead).

(** A post is answered by [handleImportRepository], for the service account
    that signed the token. *)
Definition post_system (fuel : nat) (csid ip : string) (body : string) : M (list ImportResult) :=
  let* answer := handleImportRepository fuel (λ l, String.eqb (Gateway.TrimSpace l) "") (ServiceAccount csid "system") ip
                   (fst (scan body)) (snd (scan body)) in
  match answer with
  | JSON 200 results => retM results
  | _ => failM (GoError "server returned an error")
  end.
End Server.
