(* ===== verification/TransferFacts.v ===== *)
(** * TransferFacts: what a dump holds, and what an import sends

    A dump has the lines of the window, each once, in the order of ids, and
    always ends; a window given as times is one of creation times.  An import
    sends every line of a dump once, entities first, in batches; and replaying a
    dump on the server it came from changes nothing. *)

From S2P Require Import Prelude Effects Bytes Numbers Cdid Url Ccuri Documents Verify PolicyValues Store Queries QueriesFacts.
From S2P Require Gateway.
From S2P Require Import Usecase Commit CommitFacts CommitReplay CommitWorld PolicyService Residence Auth Rest.
From S2P Require Import Notification Operation OperationFacts Ledger OperationSafe Transfer.
From stdpp Require Import prelude strings gmap list sorting.
From Stdlib Require Import ZArith Lia Ascii.
Open Scope Z_scope.
Open Scope uc_scope.

(** ** Dump *)

(** The rows a dump selects, as a condition of the table. *)
Definition in_window (lower upper owner : string) : Where := λ d c,
  String.leb lower d && dumped upper owner (d, c).

Definition id_lt (x y : string * CommitLog) : Prop := String.ltb (fst x) (fst y) = true.

Lemma list_query_where {A} (asc : A → A → bool) P Q n order (l : list A) :
  list_query asc P n order (List.filter Q l) = list_query asc (λ x, Q x && P x) n order l.
Proof. unfold list_query. by rewrite filter_filter_and. Qed.

Lemma list_query_ext {A} (asc : A → A → bool) P Q n order (l : list A) : (∀ x, x ∈ l → P x = Q x) →
  list_query asc P n order l = list_query asc Q n order l.
Proof. intros Hpq. unfold list_query. by rewrite (filter_ext_b P Q l). Qed.

Lemma str_leb_ltb_trans r s t : String.leb r s = true → String.ltb s t = true → String.leb r t = true.
Proof. intros Hr [Hs _]%str_ltb_iff. by eapply str_leb_trans. Qed.

Section Dumps.
Context `{StoreCodec} `{LogCodec} (lower upper owner : string) (db : DB).

Notation selected := (in_window lower upper owner).

(** Its pages are those of a snapshot. *)
Lemma dump_page_first : dump_page true lower upper owner db = page selected db "".
Proof.
  unfold page, dump_page, matching. rewrite list_query_where. apply list_query_ext. intros [d c] _.
  cbn. by rewrite andb_true_r.
Qed.

Lemma dump_page_next cursor : cursor ≠ "" → String.leb lower cursor = true →
  dump_page false cursor upper owner db = page selected db cursor.
Proof.
  intros Hne Hle. unfold page, dump_page, matching. rewrite list_query_where. apply list_query_ext. intros [d c] _. cbn.
  apply String.eqb_neq in Hne as ->. unfold in_window. destruct (String.ltb cursor d) eqn:E; cbn.
  - rewrite (str_leb_ltb_trans _ _ _ Hle E). by rewrite andb_true_r.
  - by rewrite andb_false_r.
Qed.

(** The rows of a page are in order. *)
Lemma page_sorted w cursor : StronglySorted id_lt (page w db cursor).
Proof.
  unfold page. change (λ x y : string * CommitLog, String.leb (fst x) (fst y)) with by_id.
  rewrite list_query_limit by (pose proof batchSize_pos; lia).
  set (all := list_query by_id _ 0 "" _).
  assert (StronglySorted id_lt all) as Hs.
  { pose proof (list_query_sorted by_id by_id_total by_id_trans (λ p, String.eqb cursor "" || String.ltb cursor (fst p)) "" (matching w db)) as Hs.
    fold all in Hs. assert (NoDup all.*1) as Hnd by (apply NoDup_window, NoDup_matching).
    clearbody all. induction Hs as [|x l _ IH Hx]; constructor.
    - apply IH. by apply NoDup_cons in Hnd as [_ ?].
    - cbn in Hnd. apply NoDup_cons in Hnd as [Hnx _]. rewrite Forall_forall in Hx |- *. intros y Hy. apply str_ltb_iff.
      split; [exact (Hx y Hy)|]. intros E. apply Hnx. rewrite E. by apply list_elem_of_fmap_2. }
  rewrite <- (take_drop (Z.to_nat (Z.of_nat batchSize)) all) in Hs. by apply StronglySorted_app_1_l in Hs.
Qed.

Lemma str_ltb_trans r s u : String.ltb r s = true → String.ltb s u = true → String.ltb r u = true.
Proof.
  intros [H1 H2]%str_ltb_iff [H3 H4]%str_ltb_iff. apply str_ltb_iff. split; [by eapply str_leb_trans|].
  intros ->. apply H2. by apply String.leb_antisym.
Qed.

Lemma page_then cursor p rows : StronglySorted id_lt rows → last (page selected db cursor) = Some p →
  fst p ≠ "" → (∀ x, x ∈ rows → after (fst p) (fst x) = true) →
  StronglySorted id_lt (page selected db cursor ++ rows).
Proof.
  intros Hs Hlast Hne Hafter. apply StronglySorted_app. split_and!; [|apply page_sorted|done].
  assert (∀ y, y ∈ rows → id_lt p y) as Hp.
  { intros y Hy. specialize (Hafter y Hy). unfold after in Hafter. apply String.eqb_neq in Hne. by rewrite Hne in Hafter. }
  intros x y Hx Hy. pose proof (page_sorted selected cursor) as Hps. apply last_Some in Hlast as [k E]. rewrite E in Hx, Hps.
  apply elem_of_app in Hx as [Hx| ->%list_elem_of_singleton]; [|by apply Hp].
  eapply str_ltb_trans; [|by apply Hp]. apply StronglySorted_app in Hps as (Hps & _ & _). apply Hps; [done|by left].
Qed.

(** The rows from a page on: the page, then what comes after its last. *)
Lemma dump_rest fuel first cursor c acc l : commit_logs db !! "" = None →
  dump_page first cursor upper owner db = page selected db c → dump_logs fuel first cursor upper owner db acc = Ok l →
  ∃ rows lines, l = acc ++ lines ∧ Forall2 (λ p line, dump_line p = Ok line) rows lines ∧ StronglySorted id_lt rows ∧
    ∀ p, p ∈ rows ↔ p ∈ matching selected db ∧ after c (fst p) = true.
Proof.
  intros Hempty. revert first cursor c acc. induction fuel as [|fuel IH]; intros first cursor c acc E; cbn; [done|].
  rewrite E. destruct (page_spec selected db c) as (Hin & Hnil & Hnext).
  destruct (last (page selected db c)) as [p|] eqn:Hlast.
  - intros (lines & Hlines & Hr)%rbind_ok_inv. apply traverse_ok in Hlines.
    assert (p ∈ page selected db c) as Hp by (apply last_Some in Hlast as [k ->]; set_solver).
    destruct (Hin p Hp) as [[Hpl Hps]%elem_of_matching _]. assert (fst p ≠ "") as Hne by (intros E'; congruence).
    apply (IH _ _ (fst p)) in Hr as (rows & rest & -> & Hf & Hs & Hrows).
    2: { apply dump_page_next; [done|]. by apply andb_prop in Hps as [? _]. }
    exists (page selected db c ++ rows), (lines ++ rest). rewrite app_assoc. split_and!; [done|by apply Forall2_app| |].
    + eapply page_then; [done|done|done|]. by intros x [_ ?]%Hrows.
    + intros x. rewrite elem_of_app, Hrows. specialize (Hnext p eq_refl x). split.
      * intros [Hx|[Hx Ha]]; [by apply Hin|]. split; [done|]. apply Hnext; auto.
      * intros [Hx Ha]. apply Hnext in Ha as [?|?]; auto.
  - intros [= <-]. exists [], []. rewrite app_nil_r. split_and!; [done|constructor|constructor|]. apply last_None in Hlast.
    intros x. split; [by intros ?%elem_of_nil|]. intros [Hx Ha]. by rewrite (Hnil Hlast x Hx) in Ha.
Qed.

(** Every page takes rows: the fuel is enough. *)
Lemma dump_logs_ends fuel first cursor c acc : commit_logs db !! "" = None →
  dump_page first cursor upper owner db = page selected db c → (remaining selected db c < fuel)%nat →
  (∀ p, p ∈ matching selected db → is_ok (dump_line p) = true) → is_ok (dump_logs fuel first cursor upper owner db acc) = true.
Proof.
  intros Hempty E Hlt Hok. revert first cursor c acc E Hlt. induction fuel as [|fuel IH]; intros first cursor c acc E Hlt; [lia|].
  cbn. rewrite E. destruct (last (page selected db c)) as [p|] eqn:Hlast; [|done].
  pose proof (remaining_page selected db c p Hempty Hlast) as Hr.
  assert (p ∈ page selected db c) as Hp by (apply last_Some in Hlast as [k ->]; set_solver).
  apply page_spec in Hp as [[Hpl Hps]%elem_of_matching _].
  destruct (traverse_total dump_line (page selected db c)) as [lines ->].
  { intros q Hq. apply is_ok_spec, Hok. by apply page_spec in Hq as [? _]. }
  cbn. apply (IH _ _ (fst p)); [|lia]. apply dump_page_next; [intros E'; congruence|]. by apply andb_prop in Hps as [? _].
Qed.
End Dumps.

(** ** Windows of time *)

Lemma leb_not_ltb s t : String.leb s t = negb (String.ltb t s).
Proof.
  destruct (String.ltb t s) eqn:E; cbn.
  - apply str_ltb_iff in E as [H1 H2]. destruct (String.leb s t) eqn:E2; [|done]. by destruct H2; apply String.leb_antisym.
  - destruct (String.leb s t) eqn:E2; [done|]. destruct (String.leb_total s t) as [|H1]; [congruence|].
    rewrite <- E. apply str_ltb_iff. split; [done|]. intros ->. congruence.
Qed.

Lemma time_id_nonempty d t : Cdid.String (Cdid.New d t) ≠ "".
Proof.
  change (Cdid.String (Cdid.New d t)) with (Base32.EncodeToString Cdid.encoding (Bytes (Cdid.New d t))). rewrite Bytes_New.
  destruct (EncodeToString_head (to_digits 256 6 (clamp_ms t) ++ d)) as (c & s & -> & _); [|done].
  intros E. apply (f_equal length) in E. rewrite length_app, length_to_digits in E. cbn in E. lia.
Qed.

(** Ids compare by millisecond, then by payload. *)
Lemma id_leb d1 d2 t1 t2 : length d1 = 10%nat → length d2 = 10%nat → Forall (digit 256) d1 → Forall (digit 256) d2 →
  String.leb (Cdid.String (Cdid.New d1 t1)) (Cdid.String (Cdid.New d2 t2)) = true →
  clamp_ms t1 <= clamp_ms t2.
Proof.
  intros L1 L2 D1 D2 Hle. destruct (Z.le_gt_cases (clamp_ms t1) (clamp_ms t2)) as [|Hgt]; [done|]. exfalso.
  apply (String_order d2 d1) in Hgt; [|done..]. by eapply str_ltb_leb.
Qed.

Lemma leb_id d1 d2 t1 t2 : length d1 = 10%nat → length d2 = 10%nat → Forall (digit 256) d1 → Forall (digit 256) d2 →
  clamp_ms t1 <= clamp_ms t2 → of_digits 256 d1 <= of_digits 256 d2 →
  String.leb (Cdid.String (Cdid.New d1 t1)) (Cdid.String (Cdid.New d2 t2)) = true.
Proof.
  intros L1 L2 D1 D2 Ht Hd. rewrite leb_not_ltb. apply negb_true_iff. destruct (String.ltb _ _) eqn:E; [|done].
  apply id_order in E; [lia|done..].
Qed.

Section DumpTheorems.
Context `{StoreCodec} `{LogCodec} `{TimeParse}.

Lemma selected_metas owner (ms : gmap string EntityMeta) m :
  m ∈ List.filter (λ m, matches owner (em_ID m)) (map_to_list ms).*2 ↔
  (∃ c, ms !! c = Some m) ∧ (owner = "" ∨ em_ID m = owner).
Proof.
  rewrite elem_of_filter_b, list_elem_of_fmap. unfold matches. rewrite orb_true_iff, !String.eqb_eq.
  split; [intros [([c m'] & -> & Hm%elem_of_map_to_list) ?]; eauto|].
  intros [[c Hc] ?]. split; [|done]. exists (c, m). split; [done|]. by apply elem_of_map_to_list.
Qed.

Lemma dumped_metas o s metas commits m : dumpCommitlog o s = Ok (metas, commits) → m ∈ metas →
  ∃ c, site_metas s !! c = Some m.
Proof.
  intros (b & _ & Hd)%rbind_ok_inv Hin. apply rbind_ok_inv in Hd as (l & _ & [= <- _]). by apply selected_metas in Hin as [? _].
Qed.

(** C22: A dump holds exactly what its flags ask for: of every commit log of
    the owner between the two ids its line, in the order of ids, each once, and
    the registrations; and it ends with one whenever the flags are accepted and
    every stored proof parses. *)
Theorem dump_exact o s lower upper : commit_logs (site_db s) !! "" = None → dump_bounds o = Ok (lower, upper) →
  (∀ p, p ∈ matching (in_window lower upper (dp_Owner o)) (site_db s) → is_ok (dump_line p) = true) →
  ∃ metas commits rows, dumpCommitlog o s = Ok (metas, commits) ∧
    Forall2 (λ p line, dump_line p = Ok line) rows commits ∧ StronglySorted id_lt rows ∧
    (∀ d c, (d, c) ∈ rows ↔ commit_logs (site_db s) !! d = Some c ∧ String.leb lower d = true ∧
       (upper = "" ∨ String.leb d upper = true) ∧ (dp_Owner o = "" ∨ cl_Owner c = dp_Owner o)) ∧
    (∀ m, m ∈ metas ↔ (∃ c, site_metas s !! c = Some m) ∧ (dp_Owner o = "" ∨ em_ID m = dp_Owner o)).
Proof.
  intros Hempty Hb Hok. set (w := in_window lower upper (dp_Owner o)) in *.
  assert (dump_page true lower upper (dp_Owner o) (site_db s) = page w (site_db s) "") as E by apply dump_page_first.
  assert (is_ok (dump_logs (S (size (commit_logs (site_db s)))) true lower upper (dp_Owner o) (site_db s) []) = true) as Hends.
  { apply (dump_logs_ends _ _ _ _ _ _ _ "" _ Hempty E); [|done]. unfold remaining.
    pose proof (length_filter_le (λ p, after "" (fst p)) (matching w (site_db s))).
    pose proof (length_filter_le (λ p, w (fst p) (snd p)) (map_to_list (commit_logs (site_db s)))).
    rewrite length_map_to_list in *. unfold matching in *. fold w. lia. }
  apply is_ok_spec in Hends as [commits Hd]. destruct (dump_rest _ _ _ _ _ _ _ _ _ _ Hempty E Hd) as (rows & lines & -> & Hf & Hs & Hr).
  do 2 eexists. exists rows. split; [unfold dumpCommitlog; rewrite Hb; cbn [mbind result_bind rbind fst snd]; by rewrite Hd|].
  split_and!; [done|done| |].
  - intros d c. rewrite Hr, elem_of_matching. unfold w, in_window, dumped, matches, after. cbn [fst snd].
    rewrite !andb_true_iff, !orb_true_iff, !String.eqb_eq. naive_solver.
  - apply selected_metas.
Qed.

(** A window given as times is one of creation times: a document created
    at an instant is in a dump of everything since one and until another exactly
    when its millisecond lies between theirs, ends included, whatever its
    digest. *)
Theorem dump_window o t1 t2 lower upper d t : dp_Since o ≠ "" → dp_Until o ≠ "" →
  parse_rfc3339 (dp_Since o) = Ok t1 → parse_rfc3339 (dp_Until o) = Ok t2 → dump_bounds o = Ok (lower, upper) →
  length d = 10%nat → Forall (digit 256) d →
  let id := Cdid.String (Cdid.New d t) in
  (String.leb lower id = true ∧ (upper = "" ∨ String.leb id upper = true)) ↔ clamp_ms t1 <= clamp_ms t <= clamp_ms t2.
Proof.
  intros Hs Hu Hp1 Hp2 Hb Hl Hd id. unfold dump_bounds, dump_bound in Hb.
  apply String.eqb_neq in Hs, Hu. apply rbind_ok_inv in Hb as ([] & _ & Hb). apply rbind_ok_inv in Hb as ([] & _ & Hb).
  apply rbind_ok_inv in Hb as (lo & Hx1 & Hb). apply rbind_ok_inv in Hx1 as ([] & _ & Hx1). rewrite Hs, Hp1 in Hx1.
  apply rbind_ok_inv in Hb as (up & Hx2 & Hb). apply rbind_ok_inv in Hx2 as ([] & _ & Hx2). rewrite Hu, Hp2 in Hx2.
  injection Hx1 as <-. injection Hx2 as <-. injection Hb as <- <-.
  assert (Forall (digit 256) (zero_bytes 10) ∧ Forall (digit 256) max_data) as [Dz Dm] by (split; apply Forall_replicate; unfold digit; lia).
  pose proof (of_digits_bound 256 ltac:(lia) d Hd) as Hbd. rewrite Hl in Hbd. split.
  - intros [Hlo [E|Hup]]; [by destruct (time_id_nonempty _ _ E)|]. apply id_leb in Hlo, Hup; [lia|done..].
  - intros [Hlo Hup]. split; [apply leb_id|right; apply leb_id]; try done.
    + change (of_digits 256 (zero_bytes 10)) with 0. lia.
    + change (of_digits 256 max_data) with (256 ^ 10 - 1). change (Z.of_nat 10) with 10 in Hbd. lia.
Qed.
End DumpTheorems.

(** ** Import: what is sent

    The reference: the lines of a kind in the order of the file, in batches, one
    post after the other. *)

Section Sends.
Context `{LogCodec} `{HeadCodec} `{MetaCodec} {S : Type}.
Context (save_meta : EntityMeta → SM S unit) (postRepository : string → SM S (list ImportResult)) (batchSize : Z).

Definition sent (entity : bool) (lines : list string) : list string :=
  List.filter (λ l, match classify l with Line e => Bool.eqb e entity | _ => false end) (Gateway.TrimSpace <$> lines).
Definition unparsed (lines : list string) : Z :=
  Z.of_nat (length (List.filter (λ l, match classify l with Unparsed => true | _ => false end) (Gateway.TrimSpace <$> lines))).

(** Batches of [n] lines; the last may be shorter. *)
Fixpoint batches_of (fuel n : nat) (l : list string) : list (list string) :=
  match fuel, l with
  | Datatypes.S fuel, _ :: _ => take n l :: batches_of fuel n (drop n l)
  | _, _ => []
  end.
Definition batches (n : nat) (l : list string) : list (list string) := batches_of (length l) n l.

(** A batch holds what was asked for, and a line even when nothing was. *)
Definition batch_lines : nat := Nat.max 1 (Z.to_nat batchSize).

Lemma batches_of_fuel fuel fuel' n l : (0 < n)%nat → (length l <= fuel)%nat → (length l <= fuel')%nat →
  batches_of fuel n l = batches_of fuel' n l.
Proof.
  intros Hn. revert fuel' l. induction fuel as [|fuel IH]; intros fuel' l Hf1 Hf2.
  - destruct l; [|cbn in Hf1; lia]. by destruct fuel'.
  - destruct l as [|x l]; [by destruct fuel'|]. destruct fuel' as [|fuel']; [cbn in Hf2; lia|]. cbn [batches_of]. f_equal.
    apply IH; rewrite length_drop; cbn [length] in *; lia.
Qed.

Lemma batches_full n b l : (0 < n)%nat → length b = n → batches n (b ++ l) = b :: batches n l.
Proof.
  intros Hn Hb. unfold batches. destruct (b ++ l) as [|x k] eqn:E.
  { apply (f_equal length) in E. rewrite length_app in E. cbn in E. lia. }
  cbn [length batches_of]. rewrite <- E, take_app_length', drop_app_length' by done. f_equal.
  apply batches_of_fuel; [done| |done]. apply (f_equal length) in E. rewrite length_app in E. cbn in E. lia.
Qed.

Lemma batches_short n b : (length b < n)%nat → batches n b = match b with [] => [] | _ => [b] end.
Proof.
  intros Hb. unfold batches. destruct b as [|x b]; [done|]. cbn [length batches_of]. rewrite take_ge, drop_ge by lia. by destruct (length b).
Qed.

(** Nothing is left out or sent twice, and no batch is empty or too long. *)
Lemma batches_spec n l : (0 < n)%nat → concat (batches n l) = l ∧ Forall (λ b, b ≠ [] ∧ (length b <= n)%nat) (batches n l).
Proof.
  intros Hn. unfold batches. assert (length l <= length l)%nat as Hl by done. revert Hl. generalize (length l) at 2 3 4 as fuel.
  intros fuel. revert l. induction fuel as [|fuel IH]; intros l Hl; [by destruct l; [|cbn in Hl; lia]|].
  destruct l as [|x l]; [done|]. cbn [batches_of concat]. destruct (IH (drop n (x :: l))) as [Hc Hf].
  { rewrite length_drop. cbn [length] in *. lia. }
  split; [by rewrite Hc, take_drop|]. constructor; [|done]. split; [|rewrite length_take; lia]. by destruct n; [lia|].
Qed.

Fixpoint send_all (entity : bool) (bodies : list (list string)) (t : Tally) : SM S Tally :=
  match bodies with
  | [] => retM t
  | b :: bodies => let* t := flush postRepository entity b t in send_all entity bodies t
  end.

(** Whenever unparsed lines are counted, the tally is the same. *)
Lemma flush_failing k entity b t st : flush postRepository entity b (failing k t) st =
  bindM (flush postRepository entity b t) (λ t, retM (failing k t)) st.
Proof.
  unfold flush. destruct b as [|x b]; [done|]. unfold bindM. destruct (postRepository _ st) as [[r| |] st']; [|done..].
  unfold retM. do 2 f_equal. destruct entity; unfold failing, accepted; cbn; f_equal; lia.
Qed.

Lemma bindM_assoc {A B C} (m : SM S A) (f : A → SM S B) (g : B → SM S C) st :
  bindM (bindM m f) g st = bindM m (λ a, bindM (f a) g) st.
Proof. unfold bindM. by destruct (m st) as [[a| |] st']. Qed.

Lemma send_failing k entity bodies t st : send_all entity bodies (failing k t) st =
  bindM (send_all entity bodies t) (λ t, retM (failing k t)) st.
Proof.
  revert t st. induction bodies as [|b bodies IH]; intros t st; [done|]. cbn [send_all]. rewrite bindM_assoc.
  unfold bindM at 1. rewrite flush_failing. unfold bindM at 1 2. destruct (flush postRepository entity b t st) as [[t'| |] st']; [|done..].
  cbn. by rewrite IH.
Qed.

Lemma sent_cons entity l lines : sent entity (l :: lines) =
  match classify (Gateway.TrimSpace l) with
  | Line e => if Bool.eqb e entity then Gateway.TrimSpace l :: sent entity lines else sent entity lines
  | _ => sent entity lines
  end.
Proof. unfold sent. cbn. by destruct (classify _). Qed.

Lemma unparsed_cons l lines : unparsed (l :: lines) =
  match classify (Gateway.TrimSpace l) with Unparsed => 1 + unparsed lines | _ => unparsed lines end.
Proof. unfold unparsed. cbn. destruct (classify _); cbn [length]; lia. Qed.

(** A pass over the file with a batch under way. *)
Lemma phase_sends entity lines batch t st : 0 <= batchSize → (length batch < batch_lines)%nat →
  import_phase postRepository false batchSize entity lines batch t st =
  bindM (send_all entity (batches batch_lines (batch ++ sent entity lines)) t)
    (λ t, retM (failing (if entity then unparsed lines else 0) t)) st.
Proof.
  intros Hsize. revert batch t st. induction lines as [|l lines IH]; intros batch t st Hb.
  - change (sent entity []) with (@nil string). rewrite app_nil_r, batches_short by done. cbn [import_phase].
    replace (if entity then unparsed [] else 0) with 0 by by destruct entity.
    assert (∀ t, failing 0 t = t) as Hz by (intros []; unfold failing; cbn; f_equal; lia).
    destruct batch as [|x b]; cbn [send_all]; unfold bindM, retM; [by rewrite Hz|].
    destruct (flush postRepository entity (x :: b) t st) as [[t'| |] st']; [by rewrite Hz|done..].
  - cbn [import_phase]. rewrite sent_cons, unparsed_cons. destruct (classify _) as [| |e] eqn:Ec.
    + by apply IH.
    + rewrite IH by done. destruct entity; [|done]. unfold bindM at 1. rewrite send_failing. unfold bindM.
      destruct (send_all true _ t st) as [[t'| |] st']; [|done..]. unfold retM, failing. cbn -[Z.add]. do 3 f_equal. lia.
    + destruct (Bool.eqb e entity) eqn:Ee; cbn [negb]; [|by apply IH].
      assert (∀ k, (batch ++ [Gateway.TrimSpace l]) ++ k = batch ++ Gateway.TrimSpace l :: k) as Happ by (intros k; by rewrite <- app_assoc).
      destruct (Z.leb_spec batchSize (Z.of_nat (length (batch ++ [Gateway.TrimSpace l])))) as [Hfull|Hshort].
      * rewrite length_app in Hfull. cbn [length] in Hfull. rewrite <- (Happ (sent entity lines)), batches_full; [|unfold batch_lines; lia|rewrite length_app; unfold batch_lines in *; cbn [length]; lia].
        cbn [send_all]. rewrite bindM_assoc. unfold bindM at 1 2. destruct (flush postRepository entity _ t st) as [[t'| |] st']; [|done..].
        rewrite (IH [] t' st') by (unfold batch_lines; cbn; lia). done.
      * rewrite length_app in Hshort. cbn [length] in Hshort. rewrite IH by (rewrite length_app; unfold batch_lines; cbn [length]; lia). by rewrite Happ.
Qed.

(** The whole import, as the reference has it. *)
Definition import_reference (commits : list string) (metas : option (list string)) : SM S Tally :=
  let* t := match metas with Some lines => import_metas save_meta false lines no_lines | None => retM no_lines end in
  let* t := send_all true (batches batch_lines (sent true commits)) t in
  let* t := send_all false (batches batch_lines (sent false commits)) (failing (unparsed commits) t) in
  if 0 <? failed t then failM (GoError (FormatInt (failed t) +:+ " lines failed to import")) else retM t.

Lemma failing_0 t : failing 0 t = t.
Proof. destruct t. unfold failing. cbn. f_equal. lia. Qed.

Lemma import_sends commits metas st : 0 <= batchSize →
  importCommitlog save_meta postRepository false batchSize commits metas st = import_reference commits metas st.
Proof.
  intros Hsize. assert (length (@nil string) < batch_lines)%nat as Hn by (unfold batch_lines; cbn; lia).
  unfold importCommitlog, import_reference, commitPhase. rewrite (proj2 (Z.ltb_ge batchSize 0)) by done.
  assert (∀ e t s (k : Tally → SM S Tally), bindM (import_phase postRepository false batchSize e commits [] t) k s =
    bindM (send_all e (batches batch_lines (sent e commits)) t) (λ t, k (failing (if e then unparsed commits else 0) t)) s) as Hphase.
  { intros e t s k. unfold bindM at 1. rewrite phase_sends by done. unfold bindM. by destruct (send_all e _ t s) as [[]?]. }
  apply bindM_ext; [done|]. intros t st1. rewrite Hphase. apply bindM_ext; [done|]. intros t1 st2. rewrite Hphase.
  apply bindM_ext; [done|]. intros t2 st3. by rewrite failing_0.
Qed.

(** What [import-commitlog] sends.  It restores the registrations, then
    posts every line whose document is an entity and then every other line, each
    kind in the order of the file, each line once, in batches none of which is
    empty or larger than asked for; lines that do not parse are counted once and
    left out. *)
Theorem import_batches commits metas st : 0 <= batchSize →
  importCommitlog save_meta postRepository false batchSize commits metas st = import_reference commits metas st ∧
  (∀ entity, concat (batches batch_lines (sent entity commits)) = sent entity commits ∧
     Forall (λ b, b ≠ [] ∧ (length b <= batch_lines)%nat) (batches batch_lines (sent entity commits))) ∧
  (length (sent true commits) + length (sent false commits) + Z.to_nat (unparsed commits) =
     length (List.filter (λ l, negb (String.eqb l "")) (Gateway.TrimSpace <$> commits)))%nat.
Proof.
  intros Hsize. split; [by apply import_sends|]. split.
  - intros entity. apply batches_spec. unfold batch_lines. lia.
  - induction commits as [|l commits IH]; [done|]. rewrite !sent_cons, unparsed_cons. cbn [fmap list_fmap List.filter].
    assert (String.eqb (Gateway.TrimSpace l) "" = match classify (Gateway.TrimSpace l) with Blank => true | _ => false end) as ->.
    { unfold classify. destruct (String.eqb _ ""); [done|]. destruct (unmarshal_signed_document _); [destruct (unmarshal_kind _)|..]; done. }
    assert (0 <= unparsed commits) by (unfold unparsed; lia).
    destruct (classify _) as [| |[]]; cbn [negb Bool.eqb length]; lia.
Qed.

(** ** What success means *)

Definition ok_of (entity : bool) (t : Tally) : Z := if entity then entityOK t else otherOK t.

Lemma send_all_counts entity bodies t st t' st' : send_all entity bodies t st = (Ok t', st') →
  failed t <= failed t' ∧ ok_of entity t' + failed t' = ok_of entity t + failed t + Z.of_nat (length (concat bodies)) ∧
  ok_of (negb entity) t' = ok_of (negb entity) t.
Proof.
  revert t st. induction bodies as [|b bodies IH]; intros t st; cbn [send_all concat].
  - intros [= <- <-]. cbn. lia.
  - intros (t1 & st1 & Hf & Hr)%bindM_inv. apply IH in Hr as (Hx1 & Hx2 & Hx3). rewrite length_app.
    enough (failed t <= failed t1 ∧ ok_of entity t1 + failed t1 = ok_of entity t + failed t + Z.of_nat (length b) ∧
      ok_of (negb entity) t1 = ok_of (negb entity) t) by lia.
    unfold flush in Hf. destruct b as [|x b]; [injection Hf as <- <-; cbn; lia|].
    apply bindM_inv in Hf as (r & st2 & _ & [= <- <-]). destruct entity; cbn -[Z.of_nat length]; cbn [length]; lia.
Qed.

Lemma import_metas_counts lines t st t' st' : import_metas save_meta false lines t st = (Ok t', st') →
  failed t <= failed t' ∧ ok_of true t' = ok_of true t ∧ ok_of false t' = ok_of false t ∧ metaOK t <= metaOK t'.
Proof.
  revert t st. induction lines as [|l lines IH]; intros t st; cbn [import_metas]; [intros [= <- <-]; lia|].
  destruct (String.eqb _ ""); [apply IH|]. destruct (unmarshal_meta _) as [m|e|].
  2,3: intros Hr%IH; destruct t; cbn in *; lia.
  intros (r & st1 & _ & Hr)%bindM_inv. apply IH in Hr. destruct r, t; cbn in *; lia.
Qed.

(** An import that reports success was accepted line by line: no line
    failed to parse or was refused by the server, and the counts it prints are
    the numbers of entities and other documents of the file. *)
Theorem import_complete commits metas st t st' : 0 <= batchSize →
  importCommitlog save_meta postRepository false batchSize commits metas st = (Ok t, st') →
  failed t = 0 ∧ unparsed commits = 0 ∧
  entityOK t = Z.of_nat (length (sent true commits)) ∧ otherOK t = Z.of_nat (length (sent false commits)).
Proof.
  intros Hsize. rewrite import_sends by done. intros (t0 & st0 & Hm & Hr)%bindM_inv.
  assert (0 <= failed t0 ∧ entityOK t0 = 0 ∧ otherOK t0 = 0) as (F0 & E0 & O0).
  { destruct metas; [apply import_metas_counts in Hm; cbn in Hm; lia|]. by injection Hm as <- <-. }
  apply bindM_inv in Hr as (t1 & st1 & Hs1 & Hr). apply send_all_counts in Hs1 as (F1 & S1 & O1).
  apply bindM_inv in Hr as (t2 & st2 & Hs2 & Hr). apply send_all_counts in Hs2 as (F2 & S2 & E2).
  destruct (Z.ltb_spec 0 (failed t2)) as [|Hle]; [done|]. injection Hr as <- <-.
  assert (0 <= unparsed commits) by (unfold unparsed; lia).
  assert (∀ l, concat (batches batch_lines l) = l) as Hc by (intros l; apply batches_spec; unfold batch_lines; lia).
  rewrite Hc in S1, S2.
  cbn [ok_of negb failing failed entityOK otherOK metaOK] in *. lia.
Qed.
End Sends.

(** ** Importing a dump where it was made *)

Section Reimport.
Context `{Url.NetIP} `{Json} `{Keccak} `{Secp256k1} `{StoreCodec} `{Orm} `{Env} `{PolicyEval}.
Context `{LogCodec} `{HeadCodec} `{MetaCodec} `{TimeParse}.

(** What the import relies on of the text of a line: it is one line without
    space around it, and reads back as its document. *)
Record json_line (document line : string) : Prop := {
  jl_reads : ∃ proof, unmarshal_signed_document line = Ok (signed document proof);
  jl_kind doc : unmarshal_document document = Ok doc → unmarshal_kind document = Ok (Kind doc);
  jl_trimmed : Gateway.TrimSpace line = line;
  jl_nonempty : line ≠ "";
  jl_one : lacks (ascii_of_nat 10) line;
  jl_cr : lacks (ascii_of_nat 13) line;
}.

(** A line whose document is in the ledger. *)
Definition known (db : DB) (line : string) : Prop := ∃ sd doc,
  json_line (sd_Document sd) line ∧ unmarshal_signed_document line = Ok sd ∧ unmarshal_document (sd_Document sd) = Ok doc ∧
  (Str.len (sd_Document sd) <= MaxDocumentSize)%nat ∧ rejectAliasOwners doc = Ok tt ∧ HasCommitLog db (cdid_of sd doc) = true.

Lemma imports_known fuel blank ctx ip lines st : Forall (known (st_db st)) lines →
  ImportCommitLogs (S fuel) blank ctx ip lines st = (Ok [], st).
Proof.
  induction lines as [|line lines IH]; intros Hk; [done|]. apply Forall_cons in Hk as [(sd & doc & _ & Hr & Hd & Hs & Ho & Hl) Hk].
  assert (import_line (S fuel) ctx ip line st = (Ok [], st)) as Hline.
  { unfold import_line. rewrite Hr. unfold bindM, tryM. by rewrite (logged_answered fuel ctx ip sd _ doc). }
  cbn [ImportCommitLogs]. unfold bindM. destruct (blank line); [|rewrite Hline]; cbn; by rewrite IH.
Qed.

Lemma trim_suffix_lacks s c : lacks c s → Str.trim_suffix s (String c "") = s.
Proof. intros Hs. unfold Str.trim_suffix. by rewrite has_suffix_lacks. Qed.

Lemma has_suffix_last a b c : b ≠ "" → Str.has_suffix (a +:+ b) (String c "") = Str.has_suffix b (String c "").
Proof.
  intros Hb. unfold Str.has_suffix. rewrite str_len_app. destruct b as [|x b]; [done|]. unfold Str.len. cbn [String.length].
  induction a as [|y a IH]; cbn [String.length Nat.add String.append]; [done|]. rewrite <- IH.
  replace (S (String.length a + S (String.length b)) - 1)%nat with (S (String.length a + S (String.length b) - 1)) by lia.
  cbn [Str.drop]. f_equal. rewrite !(proj2 (Nat.leb_le _ _)); [done|cbn; lia..].
Qed.

Lemma trim_suffix_join l c : Forall (λ s, s ≠ "" ∧ lacks c s) l →
  Str.trim_suffix (Str.join l (String c "")) (String c "") = Str.join l (String c "").
Proof.
  intros Hl. unfold Str.trim_suffix. enough (Str.has_suffix (Str.join l (String c "")) (String c "") = false) as -> by done.
  induction l as [|s l IH]; [done|]. apply Forall_cons in Hl as [[Hne Hs] Hl]. destruct l as [|s2 l].
  - by apply has_suffix_lacks.
  - change (Str.join (s :: s2 :: l) (String c "")) with (s +:+ String c (Str.join (s2 :: l) (String c ""))).
    rewrite has_suffix_last by done. change (String c (Str.join (s2 :: l) (String c ""))) with (String c "" +:+ Str.join (s2 :: l) (String c "")).
    rewrite has_suffix_last; [by apply IH|]. apply Forall_cons in Hl as [[Hne2 _] _]. destruct s2; [done|]. by destruct l.
Qed.

Lemma str_take_ge n s : (Str.len s <= n)%nat → Str.take n s = s.
Proof. revert n. induction s as [|c s IH]; intros [|n] Hn; [done..| |]; unfold Str.len in *; cbn in *; [lia|]. rewrite IH; [done|lia]. Qed.

Definition sendable (batch : list string) : Prop :=
  Z.of_nat (Str.len (Str.join batch newline)) <= maxImportBodyBytes ∧ Forall (λ l, fits l = true) batch.
#[export] Instance sendable_dec batch : Decision (sendable batch).
Proof. unfold sendable. apply _. Defined.

(** The server reads what was posted. *)
Lemma scan_known db batch : batch ≠ [] → Forall (known db) batch → sendable batch →
  scan (Str.join batch newline) = (batch, AllRead).
Proof.
  intros Hne Hk [Hlen Hfits].
  assert (Forall (λ s, s ≠ "" ∧ lacks (ascii_of_nat 10) s) batch) as Hl.
  { eapply Forall_impl; [exact Hk|]. by intros l (sd & doc & [] & _). }
  assert (Forall (lacks (ascii_of_nat 10)) batch) as Hl' by (eapply Forall_impl; [exact Hl|]; by intros l []).
  assert (raw_lines (Str.join batch newline) = batch) as Hraw.
  { unfold raw_lines, newline. rewrite trim_suffix_join, split_join_lacks by done.
    destruct (String.eqb_spec (Str.join batch (String (ascii_of_nat 10) "")) "") as [E|]; [|done].
    apply (f_equal (λ s, Str.split s (ascii_of_nat 10))) in E. rewrite split_join_lacks in E by done. subst batch.
    by apply Forall_cons in Hl as [[? _] _]. }
  unfold scan. rewrite str_take_ge by lia. rewrite Hraw.
  assert (fitting batch = batch ∧ forallb fits batch = true) as [-> ->].
  { clear -Hfits. induction Hfits as [|l batch Hl _ [IH1 IH2]]; [done|]. cbn. by rewrite Hl, IH1, IH2. }
  rewrite (proj2 (Z.ltb_ge _ _)) by done. cbn [negb]. f_equal. clear -Hk.
  induction Hk as [|l batch (sd & doc & [] & _) _ IH]; [done|]. cbn. f_equal; [by apply trim_suffix_lacks|done].
Qed.

Lemma flush_known fuel csid ip entity batch t st : Forall (known (st_db st)) batch → sendable batch →
  flush (post_system (S fuel) csid ip) entity batch t st = (Ok (accepted entity (Z.of_nat (length batch)) t), st).
Proof.
  intros Hk Hs. unfold flush. destruct batch as [|l batch]; [by destruct t, entity; cbn; rewrite !Z.add_0_r|].
  assert (post_system (S fuel) csid ip (Str.join (l :: batch) newline) st = (Ok [], st)) as Hp.
  { unfold post_system. rewrite (scan_known (st_db st)) by done. cbn [fst snd]. unfold handleImportRepository, bindM.
    by rewrite imports_known. }
  unfold bindM. rewrite Hp. unfold retM, failing, accepted. destruct entity; cbn -[Z.of_nat length]; do 3 f_equal; cbn [length]; lia.
Qed.

Lemma send_all_known fuel csid ip entity bodies t st : Forall (λ b, Forall (known (st_db st)) b ∧ sendable b) bodies →
  send_all (post_system (S fuel) csid ip) entity bodies t st = (Ok (accepted entity (Z.of_nat (length (concat bodies))) t), st).
Proof.
  intros Hb. revert t. induction Hb as [|b bodies [Hk Hs] _ IH]; intros t; cbn [send_all concat].
  - by destruct t, entity; cbn; rewrite !Z.add_0_r.
  - unfold bindM. rewrite flush_known, IH, length_app by done. destruct entity; cbn; do 3 f_equal; lia.
Qed.

(** Every line of a dump is a stored row's. *)
Lemma dumped_rows o s metas commits line : commit_logs (site_db s) !! "" = None → dumpCommitlog o s = Ok (metas, commits) →
  line ∈ commits → ∃ d c, commit_logs (site_db s) !! d = Some c ∧ dump_line (d, c) = Ok line.
Proof.
  intros Hempty (b & _ & Hd)%rbind_ok_inv Hin. apply rbind_ok_inv in Hd as (l & Hd & [= _ <-]).
  destruct (dump_rest _ _ _ _ _ _ _ "" _ _ Hempty (dump_page_first _ _ _ _) Hd) as (rows & lines & El & Hf & _ & Hrows).
  cbn in El. subst l.
  apply list_elem_of_lookup_1 in Hin as [i Hi]. destruct (Forall2_lookup_r _ _ _ _ _ Hf Hi) as ([d c] & Hp & Hl).
  exists d, c. split; [|done]. apply list_elem_of_lookup_2, Hrows in Hp as [[? _]%elem_of_matching _]. done.
Qed.

Lemma ledger_known db line d c : rtc served empty_db db → commit_logs db !! d = Some c → dump_line (d, c) = Ok line →
  json_line (cl_Document c) line → known db line.
Proof.
  intros Hs Hc Hd Hj. destruct (served_ledger db d c Hs Hc) as (sd & doc & Hdoc & -> & Hsize & Hown & Ed & _). rewrite <- Ed in *.
  destruct (jl_reads _ _ Hj) as [proof Hr]. exists (signed (cl_Document c) proof), doc. split_and!; try done.
  unfold HasCommitLog. change (cdid_of (signed (cl_Document c) proof) doc) with (document_cdid (cl_Document c) (CreatedAt doc)). by rewrite Hc.
Qed.

Lemma ledger_ids db : rtc served empty_db db → commit_logs db !! "" = None.
Proof.
  intros Hs. destruct (commit_logs db !! "") as [c|] eqn:Hc; [|done].
  destruct (served_ledger db "" c Hs Hc) as (sd & doc & _ & E & _). by destruct (time_id_nonempty _ _ (eq_sym E)).
Qed.

(** A line of a registration that is there as it is. *)
Definition meta_line (st : St) (line : string) : Prop := Gateway.TrimSpace line ≠ "" ∧
  ∃ m, unmarshal_meta (Gateway.TrimSpace line) = Ok m ∧ st_metas st !! em_ID m = Some m.

Lemma SaveMeta_same m st : st_metas st !! em_ID m = Some m → SaveMeta m st = (Ok tt, st).
Proof. intros Hm. unfold SaveMeta, modifyM. rewrite insert_id by done. by destruct st. Qed.

Lemma import_metas_known lines t st : Forall (meta_line st) lines →
  import_metas SaveMeta false lines t st =
  (Ok (mkTally (metaOK t + Z.of_nat (length lines)) (entityOK t) (otherOK t) (failed t)), st).
Proof.
  intros Hl. revert t. induction Hl as [|line lines (Hne & m & Hm & Hst) _ IH]; intros t; cbn [import_metas length].
  - destruct t. cbn. by rewrite Z.add_0_r.
  - rewrite (proj2 (String.eqb_neq _ _) Hne), Hm. unfold tryM, bindM. rewrite SaveMeta_same, IH by done. cbn. do 3 f_equal. lia.
Qed.

(** Lines of documents are sent. *)
Lemma known_sent db lines : Forall (known db) lines →
  Forall (known db) (sent true lines) ∧ Forall (known db) (sent false lines) ∧ unparsed lines = 0 ∧
  (length (sent true lines) + length (sent false lines))%nat = length lines.
Proof.
  induction 1 as [|line lines Hk _ (IH1 & IH2 & IH3 & IH4)]; [done|]. rewrite !sent_cons, unparsed_cons.
  destruct Hk as (sd & doc & Hj & Hr & Hd & Hrest). rewrite (jl_trimmed _ _ Hj).
  assert (∃ e, classify line = Line e) as [e ->].
  { unfold classify. rewrite (proj2 (String.eqb_neq _ _) (jl_nonempty _ _ Hj)), Hr, (jl_kind _ _ Hj _ Hd). eauto. }
  assert (known db line) by (exists sd, doc; done).
  destruct e; cbn [Bool.eqb]; split_and!; try done; try (by constructor); cbn [length]; lia.
Qed.

(** C21: importing what a server dumped into that server changes nothing.  Of a
    dump, whole or filtered, the lines of the commit logs in any order and any
    number of times, with or without those of the registrations: when the lines
    read back as what they were written from, and every post of the import is
    within the server's limits of a body and of a line, the import leaves the
    state as it was and reports no failure, with every line counted as accepted.
    The ledger of every server that can be reached holds each line's document
    under its own id, so each is answered from there. *)
Theorem reimport_noop fuel csid ip batchSize o s st metas dump commits meta_lines :
  rtc served empty_db (site_db s) → st_db st = site_db s → st_metas st = site_metas s →
  (∀ id m, site_metas s !! id = Some m → em_ID m = id) →
  dumpCommitlog o s = Ok (metas, dump) → commits ⊆ dump →
  (∀ d c line, commit_logs (site_db s) !! d = Some c → dump_line (d, c) = Ok line → json_line (cl_Document c) line) →
  (∀ line, line ∈ default [] meta_lines → Gateway.TrimSpace line ≠ "" ∧ ∃ m, m ∈ metas ∧ unmarshal_meta (Gateway.TrimSpace line) = Ok m) →
  0 <= batchSize → (∀ entity, Forall sendable (batches (batch_lines batchSize) (sent entity commits))) →
  ∃ e n, importCommitlog SaveMeta (post_system (S fuel) csid ip) false batchSize commits meta_lines st =
      (Ok (mkTally (Z.of_nat (length (default [] meta_lines))) e n 0), st) ∧
    e + n = Z.of_nat (length commits).
Proof.
  intros Hs Hst Hms Hkey Hd Hsub Hjson Hmeta Hsize Hsend. assert (Forall (known (st_db st)) commits) as Hk.
  { apply Forall_forall. intros line Hin%Hsub. destruct (dumped_rows _ _ _ _ _ (ledger_ids _ Hs) Hd Hin) as (d & c & Hc & Hl).
    rewrite Hst. eapply ledger_known; eauto. }
  destruct (known_sent _ _ Hk) as (Ht & Hf & Hu & Hlen).
  assert (∀ e, let bs := batches (batch_lines batchSize) (sent e commits) in
    concat bs = sent e commits ∧ Forall (λ b, Forall (known (st_db st)) b ∧ sendable b) bs) as Hb.
  { intros e. destruct (batches_spec (batch_lines batchSize) (sent e commits)) as [Hc _]; [unfold batch_lines; lia|]. split; [done|].
    apply Forall_and. split; [|by apply Hsend]. apply Forall_concat. rewrite Hc. by destruct e. }
  assert (Forall (meta_line st) (default [] meta_lines)) as Hml.
  { apply Forall_forall. intros line [Hne (m & Hin & Hm)]%Hmeta. split; [done|]. exists m. split; [done|]. rewrite Hms.
    apply (dumped_metas _ _ _ _ _ Hd) in Hin as [id Hid]. by rewrite (Hkey _ _ Hid). }
  exists (Z.of_nat (length (sent true commits))), (Z.of_nat (length (sent false commits))). split; [|lia].
  rewrite import_sends by done. unfold import_reference.
  assert (match meta_lines with Some lines => import_metas SaveMeta false lines no_lines | None => retM no_lines end st =
    (Ok (mkTally (Z.of_nat (length (default [] meta_lines))) 0 0 0), st)) as Hr.
  { destruct meta_lines as [lines|]; [|done]. by rewrite import_metas_known. }
  rewrite (bindM_ok _ _ _ _ _ Hr). unfold bindM.
  rewrite send_all_known by apply Hb. rewrite send_all_known by apply Hb. rewrite !(proj1 (Hb _)), Hu. done.
Qed.
End Reimport.

(** ** Example: the dump of a server with one post *)

Section Example.
#[local] Existing Instance World.netip.
#[local] Existing Instance World.keccak.
#[local] Existing Instance World.secp.
#[local] Existing Instance Server.codec.
#[local] Existing Instance Server.env.
#[local] Existing Instance Server.policy.
#[local] Existing Instance StoreFacts.gorm.
#[local] Existing Instance Ledger.json0.

(** A line is its document. *)
#[local] Instance lines_codec : LogCodec := {|
  marshal_signed_document sd := Ok (sd_Document sd);
  unmarshal_signed_document s := match unmarshal_document s with Ok _ => Ok (signed s (World.by_key World.author_sig)) | Err e => Err e | Panic => Panic end;
|}.
#[local] Instance heads : HeadCodec := {|
  unmarshal_head s := doc ← unmarshal_document s; Ok (mkHead (Kind doc) "" (Author doc) "" None);
  unmarshal_kind s := doc ← unmarshal_document s; Ok (Kind doc);
|}.
#[local] Instance meta_json : MetaCodec := λ s, if String.eqb s "" then Err (GoError "json") else Ok (mkEntityMeta s None "").
#[local] Instance times : TimeParse := λ s, if String.eqb s "early" then Ok 5 else Ok 20.

Definition dumped_site : Site := mkSite (st_db wrote) (st_metas wrote) ∅ [].
Definition everything : dumpOptions := mkDump "early" "" "late" "" "".

Definition the_bounds : string * string := match dump_bounds everything with Ok b => b | _ => ("", "") end.

Lemma dumped_documents d c : commit_logs (site_db dumped_site) !! d = Some c → cl_Document c ∈ ["entity"; "post"].
Proof.
  intros Hc%elem_of_map_to_list. assert (Forall (λ p, cl_Document (snd p) ∈ ["entity"; "post"]) (map_to_list (commit_logs (site_db dumped_site)))) as Hf.
  { vm_compute. repeat constructor. }
  rewrite Forall_forall in Hf. by apply (Hf (d, c)).
Qed.

(** The registration of the author, the entity and the post. *)
Lemma dump_exact_witness : ∃ metas commits rows, dumpCommitlog everything dumped_site = Ok (metas, commits) ∧
  length metas = 1%nat ∧ length commits = 2%nat ∧ Forall2 (λ p line, dump_line p = Ok line) rows commits ∧ StronglySorted id_lt rows ∧
  (∀ d c, (d, c) ∈ rows → commit_logs (st_db wrote) !! d = Some c).
Proof.
  destruct (dump_exact everything dumped_site (fst the_bounds) (snd the_bounds)) as (metas & commits & rows & Hd & Hf & Hs & Hr & _).
  - vm_compute. reflexivity.
  - vm_compute. reflexivity.
  - intros p Hp. assert (Forall (λ p, is_ok (dump_line p) = true) (matching (in_window (fst the_bounds) (snd the_bounds) "") (st_db wrote))) as Hall.
    { vm_compute. repeat constructor. }
    rewrite Forall_forall in Hall. by apply Hall.
  - exists metas, commits, rows. split; [exact Hd|].
    assert (∃ r, dumpCommitlog everything dumped_site = Ok r ∧ length (fst r) = 1%nat ∧ length (snd r) = 2%nat) as (r & Hd' & Hm & Hc) by (eexists; vm_compute; split; reflexivity || split; reflexivity).
    rewrite Hd in Hd'. injection Hd' as <-. split; [exact Hm|]. split; [exact Hc|]. split; [exact Hf|]. split; [exact Hs|].
    intros d c Hin. apply Hr in Hin as [Hin _]. exact Hin.
Defined.

(** Created at 10, between 5 and 20. *)
Lemma dump_window_witness : let id := Cdid.String (Cdid.New (replicate 10 7) 10) in
  String.leb (fst the_bounds) id = true ∧ (snd the_bounds = "" ∨ String.leb id (snd the_bounds) = true).
Proof.
  apply (dump_window everything 5 20 (fst the_bounds) (snd the_bounds) (replicate 10 7) 10); try discriminate; try reflexivity.
  - apply Forall_replicate. split; [discriminate|reflexivity].
  - split; discriminate.
Defined.

Lemma dumped_line_reads d c line : commit_logs (site_db dumped_site) !! d = Some c → dump_line (d, c) = Ok line →
  json_line (cl_Document c) line.
Proof.
  intros Hc%dumped_documents Hl. assert (line = cl_Document c) as ->.
  { unfold dump_line in Hl. cbn in Hl. by injection Hl. }
  apply elem_of_cons in Hc as [->|Hc]; [|apply list_elem_of_singleton in Hc as ->].
  all: split; [by eexists|intros doc [= <-]; reflexivity|reflexivity|done|reflexivity|reflexivity].
Qed.

(** Its dump, twice, imported into it. *)
Definition lines_of_dump : list string := match dumpCommitlog everything dumped_site with Ok (_, l) => l ++ l | _ => [] end.

Lemma reimport_noop_witness : length lines_of_dump = 4%nat ∧ ∃ e n,
  importCommitlog SaveMeta (post_system 1 "csid" "ip") false 3 lines_of_dump (Some [Server.author]) wrote =
    (Ok (mkTally 1 e n 0), wrote) ∧ e + n = 4.
Proof.
  split; [vm_compute; reflexivity|].
  destruct (dumpCommitlog everything dumped_site) as [[metas dump]| |] eqn:E; [|vm_compute in E; discriminate..].
  apply (reimport_noop 0 "csid" "ip" 3 everything dumped_site wrote metas dump lines_of_dump (Some [Server.author])).
  - exact wrote_served.
  - reflexivity.
  - reflexivity.
  - intros id m Hm%elem_of_map_to_list. assert (Forall (λ p, em_ID (snd p) = fst p) (map_to_list (site_metas dumped_site))) as Hf.
    { vm_compute. repeat constructor. }
    rewrite Forall_forall in Hf. by apply (Hf (id, m)).
  - exact E.
  - unfold lines_of_dump. rewrite E. intros line. rewrite elem_of_app. tauto.
  - exact dumped_line_reads.
  - intros line ->%list_elem_of_singleton. split; [discriminate|].
    exists (mkEntityMeta Server.author None ""). split; [|reflexivity].
    assert (match dumpCommitlog everything dumped_site with Ok r => fst r | _ => [] end = [mkEntityMeta Server.author None ""]) as Hm
      by (vm_compute; reflexivity).
    rewrite E in Hm. cbn in Hm. rewrite Hm. by left.
  - lia.
  - intros []; apply (bool_decide_unpack _); vm_compute; exact I.
Defined.
End Example.
