(* ===== verification/Repair.v ===== *)
(** * Repair: [repair-single-owner] ([src/cmd/conctl/repair-single-owner.go])

    The migration of a database to the model in which a commit log has one owner
    and an ack is held as two commits: owners of the logs that have none, times
    of the entities that have none, the holding of every ack whose target is
    local, and the removal of the acks whose author is not.  It walks each table
    in batches of 500 rows in the order of their primary keys and writes a batch
    with one statement or in one transaction.  A batch whose reads or writes
    fail ends the command; what was written stays. *)

From S2P Require Import Prelude Effects Bytes Cdid Url Ccuri Documents PolicyValues Store Queries Usecase Commit Transfer.
From stdpp Require Import prelude strings gmap list sorting.
From Stdlib Require Import ZArith Lia Ascii.
Open Scope Z_scope.
Open Scope uc_scope.

Record repairSingleOwnerStats : Type := mkRepairStats {
  Owners : nat;
  EntityTimestamps : nat;
  AckedHoldings : nat;
  DisownedRawAcks : nat;
}.
Definition no_repairs : repairSingleOwnerStats := mkRepairStats 0 0 0 0.
Definition count_owners (n : nat) (s : repairSingleOwnerStats) :=
  mkRepairStats (Owners s + n) (EntityTimestamps s) (AckedHoldings s) (DisownedRawAcks s).
Definition count_timestamps (n : nat) (s : repairSingleOwnerStats) :=
  mkRepairStats (Owners s) (EntityTimestamps s + n) (AckedHoldings s) (DisownedRawAcks s).
Definition count_acks (held disowned : nat) (s : repairSingleOwnerStats) :=
  mkRepairStats (Owners s) (EntityTimestamps s) (AckedHoldings s + held) (DisownedRawAcks s + disowned).

(** The database, what [localEntityChecker] remembers, and the counts. *)
Record RepairSt : Type := mkRepairSt {
  rp_db : DB;
  rp_cache : gmap string bool;
  rp_stats : repairSingleOwnerStats;
}.
Definition with_db (db : DB) (s : RepairSt) : RepairSt := mkRepairSt db (rp_cache s) (rp_stats s).
Definition counting (f : repairSingleOwnerStats → repairSingleOwnerStats) : SM RepairSt unit :=
  modifyM (λ s, mkRepairSt (rp_db s) (rp_cache s) (f (rp_stats s))).

Definition RM (A : Type) : Type := SM RepairSt A.

(** ** [FindInBatches] of the object-relational mapper

    Pages in the order of the primary key, each after the last of the one
    before; a page that is not full is the last.  A full page whose last key is
    the zero value cannot be continued. *)

Definition find_batch : nat := 500.

Section Batches.
Context {Row : Type} (key : Row → string) (rows : DB → list Row) (f : nat → list Row → RM unit).

Definition keyed (x y : Row) : bool := String.leb (key x) (key y).
Definition beyond (cursor : string) (r : Row) : bool := String.eqb cursor "" || String.ltb cursor (key r).

Definition batch_after (db : DB) (cursor : string) : list Row :=
  list_query keyed (beyond cursor) (Z.of_nat find_batch) "" (rows db).

Fixpoint FindInBatches (fuel i : nat) (cursor : string) : RM unit :=
  match fuel with
  | O => failM OutOfFuel
  | S fuel =>
      let* batch := getsM (λ s, batch_after (rp_db s) cursor) in
      match last batch with
      | None => retM tt
      | Some r =>
          f i batch ;;
          if (length batch <? find_batch)%nat then retM tt
          else if String.eqb (key r) "" then failM (GoError "primary key required")
          else FindInBatches fuel (S i) (key r)
      end
  end.

Definition in_batches : RM unit :=
  let* n := getsM (λ s, length (rows (rp_db s))) in FindInBatches (S n) 0 "".
End Batches.

(** What can fail: the batch [i] of a step. *)
Inductive RepairStep := BackfillOwners | BackfillTimestamps | SplitAcks.

(** An [acks] row with its key, and the [ackeds] row to write for it. *)
Record Holding : Type := mkHolding {
  hl_Key : triple;
  hl_ID : string;
  hl_Log : CommitLog;
  hl_Row : AckRow;
}.

Definition ack_from (k : triple) : string := fst (fst k).
Definition ack_to (k : triple) : string := snd (fst k).

Section Repair.
Context `{Url.NetIP} `{Json} `{Keccak} `{StoreCodec} `{Orm} `{HeadCodec}.
Context (legacy : option (list (string * string))) (fqdn : string) (dryRun : bool).
(** What fails, and the receipt time the database gives a log. *)
Context (fails : RepairStep → nat → bool) (clock : string → Z).

(** ** Locality ([local-entity.go]) *)

Definition is_local (db : DB) (ccid : string) : bool :=
  match entities db !! ccid with Some e => String.eqb (er_Domain e) fqdn | None => false end.

Definition isLocal (ccid : string) : RM bool := λ s,
  match rp_cache s !! ccid with
  | Some v => (Ok v, s)
  | None =>
      let local := is_local (rp_db s) ccid in
      (Ok local, mkRepairSt (rp_db s) (<[ccid := local]> (rp_cache s)) (rp_stats s))
  end.

(** ** Owners *)

Definition documentKindOf (document : string) : string :=
  match unmarshal_kind document with Ok kind => kind | _ => "" end.

Definition ownerOf (uri : string) : string :=
  match ParseCCURI uri with Ok parsed => Ccuri.Owner parsed | _ => "" end.

Definition commitOwnerOf (document : string) : string :=
  match unmarshal_document document with
  | Ok doc =>
      if String.eqb (Kind doc) "record" then ownerOf (Key doc)
      else if String.eqb (Kind doc) "association" || is_acked_kind (Kind doc) then
        match Associate doc with Some a => ownerOf a | None => "" end
      else if is_ack_kind (Kind doc) || String.eqb (Kind doc) "entity" then Author doc
      else if String.eqb (Kind doc) "delete" then
        match decode_delete (Value doc) with
        | Ok target => ownerOf (Str.trim_suffix (Str.trim_suffix target "*") "/")
        | _ => ""
        end
      else ""
  | _ => ""
  end.

(** The legacy table names an owner when it names exactly one. *)
Definition legacy_owner (id : string) : string :=
  match List.filter (λ r, String.eqb (fst r) id) (default [] legacy) with
  | [(_, owner)] => owner
  | _ => ""
  end.

(** The owner found for a log, given whether an ack's author is local. *)
Definition choose_owner (authorLocal : string → bool) (id document : string) : option string :=
  let settle owner :=
    let owner := if String.eqb owner "" then commitOwnerOf document else owner in
    if String.eqb owner "" then None else Some owner in
  if is_ack_kind (documentKindOf document) then
    if authorLocal (commitOwnerOf document) then settle (commitOwnerOf document) else None
  else settle (legacy_owner id).

Definition find_owner (row : string * CommitLog) : RM (option (string * string)) :=
  let '(id, log) := row in
  let document := cl_Document log in
  let* local := (if is_ack_kind (documentKindOf document) then isLocal (commitOwnerOf document) else retM false) in
  retM (pair id <$> choose_owner (λ _, local) id document).

Definition set_owner (owner : string) (c : CommitLog) : CommitLog :=
  mkCommitLog (cl_IP c) (cl_Document c) (cl_Proof c) owner (cl_GcCandidate c) (cl_CDate c).

Definition update_owner (db : DB) (r : string * string) : DB :=
  set_commit_logs db (alter (set_owner (snd r)) (fst r) (commit_logs db)).

Definition failed_batch {A} : RM A := failM (GoError "batch failed").

Definition backfill_owners (i : nat) (unowned : list (string * CommitLog)) : RM unit :=
  let* found := forM find_owner unowned in
  let rows := omap id found in
  counting (count_owners (length rows)) ;;
  if dryRun || bool_decide (rows = []) then retM tt
  else if fails BackfillOwners i then failed_batch
  else modifyM (λ s, with_db (foldl update_owner (rp_db s) rows) s).

Definition unowned_logs (db : DB) : list (string * CommitLog) :=
  List.filter (λ p, String.eqb (cl_Owner (snd p)) "") (map_to_list (commit_logs db)).

(** ** Entity times *)

Definition epoch : Z := 0.

Definition entity_time (db : DB) (row : string * EntityRow) : option (string * Z) :=
  match unmarshal_document (cl_Document (log_of db (er_DocumentID (snd row)))) with
  | Ok doc => if CreatedAt doc =? zero_time then None else Some (fst row, CreatedAt doc)
  | _ => None
  end.

Definition set_created (t : Z) (e : EntityRow) : EntityRow :=
  mkEntityRow (er_Alias e) (er_Domain e) (er_Tag e) (er_DocumentID e) t.

Definition update_created (db : DB) (r : string * Z) : DB :=
  set_entities db (alter (set_created (snd r)) (fst r) (entities db)).

Definition backfill_timestamps (i : nat) (undated : list (string * EntityRow)) : RM unit :=
  let* rows := getsM (λ s, omap (entity_time (rp_db s)) undated) in
  counting (count_timestamps (length rows)) ;;
  if dryRun || bool_decide (rows = []) then retM tt
  else if fails BackfillTimestamps i then failed_batch
  else modifyM (λ s, with_db (foldl update_created (rp_db s) rows) s).

Definition undated_entities (db : DB) : list (string * EntityRow) :=
  List.filter (λ p, er_CreatedAt (snd p) =? epoch) (map_to_list (entities db)).

(** ** Holdings and raw acks *)

(** Whether a holding at least as new is in place. *)
Definition held_already (existing : gmap triple AckRow) (e : triple * AckRow) : bool :=
  match existing !! fst e with Some held => negb (ak_CreatedAt held <? ak_CreatedAt (snd e)) | None => false end.

(** What an ack asks for: a holding, the removal of the raw copy. *)
Definition AckPlan : Type := option Holding * option string.

(** The holding an ack stands for: its commit is derived from the raw one. *)
Definition plan_holding (db : DB) (e : triple * AckRow) : result (option Holding) :=
  let '(key, ack) := e in
  let log := log_of db (ak_DocumentID ack) in
  proof ← unmarshal_proof (cl_Proof log);
  acked ← DeriveAcked (signed (cl_Document log) proof);
  ackedID ← CDID_ acked;
  if held_already (ackeds db) e then Ok None
  else
    proofBytes ← marshal_proof (sd_Proof acked);
    Ok (Some (mkHolding key ackedID
                (mkCommitLog (cl_IP log) (sd_Document acked) proofBytes (ack_to key) false (clock ackedID))
                (mkAckRow ackedID (ak_Valid ack) (ak_CreatedAt ack)))).

Definition plan_ack (db : DB) (fromLocal toLocal : bool) (e : triple * AckRow) : result AckPlan :=
  h ← (if toLocal then plan_holding db e else Ok None);
  Ok (h, if fromLocal then None else Some (ak_DocumentID (snd e))).

Definition plan_row (e : triple * AckRow) : RM AckPlan :=
  let* fromLocal := isLocal (ack_from (fst e)) in
  let* toLocal := isLocal (ack_to (fst e)) in
  let* db := getsM rp_db in
  let* p := liftM (plan_ack db fromLocal toLocal e) in
  counting (count_acks (if fst p then 1 else 0) (if snd p then 1 else 0)) ;;
  retM p.

(** [INSERT ... ON CONFLICT DO NOTHING] *)
Definition create_log (logs : gmap string CommitLog) (h : Holding) : gmap string CommitLog :=
  match logs !! hl_ID h with Some _ => logs | None => <[hl_ID h := hl_Log h]> logs end.

(** The upsert of a holding: the update takes the values of the row that was to
    be inserted, defaults included. *)
Definition upsert_holding (logs : gmap string CommitLog) (table : gmap triple AckRow) (h : Holding)
    : result (gmap triple AckRow) :=
  match upsert_row ak_CreatedAt (λ _ r, r) (table !! hl_Key h) (created_ack (hl_Row h)) with
  | None => Ok table
  | Some row =>
      if existsb (λ '(k, r), String.eqb (ak_DocumentID r) (ak_DocumentID row) && negb (bool_decide (k = hl_Key h)))
           (map_to_list table) then unique_violation
      else match logs !! ak_DocumentID row with
           | None => fk_violation
           | Some _ => Ok (<[hl_Key h := row]> table)
           end
  end.

Fixpoint upsert_holdings (logs : gmap string CommitLog) (table : gmap triple AckRow) (hs : list Holding)
    : result (gmap triple AckRow) :=
  match hs with
  | [] => Ok table
  | h :: hs => table ← upsert_holding logs table h; upsert_holdings logs table hs
  end.

Definition disown_log (c : CommitLog) : CommitLog := flag_gc (set_owner "" c).

Definition disown (logs : gmap string CommitLog) (ids : list string) : gmap string CommitLog :=
  foldl (λ logs d, alter disown_log d logs) logs ids.

(** The transaction of a batch. *)
Definition split_tx (plans : list AckPlan) (db : DB) : result DB :=
  let holdings := omap fst plans in
  let disowned := omap snd plans in
  let logs := foldl create_log (commit_logs db) holdings in
  table ← upsert_holdings logs (ackeds db) holdings;
  Ok (set_commit_logs
        (set_acks (set_ackeds db table) (filter (λ p, ak_DocumentID (snd p) ∉ disowned) (acks db)))
        (disown logs disowned)).

Definition split_acks (i : nat) (batch : list (triple * AckRow)) : RM unit :=
  let* plans := forM plan_row batch in
  if dryRun || (bool_decide (omap fst plans = []) && bool_decide (omap snd plans = [])) then retM tt
  else if fails SplitAcks i then failed_batch
  else λ s, match split_tx plans (rp_db s) with
            | Ok db => (Ok tt, with_db db s)
            | Err e => (Err e, s)
            | Panic => (Panic, s)
            end.

Definition ack_id (e : triple * AckRow) : string := ak_DocumentID (snd e).

(** ** The command *)

Definition repair : RM repairSingleOwnerStats :=
  in_batches fst unowned_logs backfill_owners ;;
  in_batches fst undated_entities backfill_timestamps ;;
  in_batches ack_id (λ db, map_to_list (acks db)) split_acks ;;
  getsM rp_stats.

Definition repairSingleOwner (db : DB) : result repairSingleOwnerStats * DB :=
  let '(r, s) := repair (mkRepairSt db ∅ no_repairs) in (r, rp_db s).
End Repair.
