(* ===== verification/RepairLoop.v ===== *)
(** * RepairLoop: walking a table in batches

    The batches of [FindInBatches] have no say in what a step does: when what a
    step does with some rows and then with others is what it does with all of
    them, and rows it was not given stay, a run of the loop has gone through the
    first rows in the order of their keys - through all of them unless something
    failed ([in_batches_gone]).  Also what updates of rows by their keys leave. *)

From S2P Require Import Prelude Effects Store StoreFacts Queries QueriesFacts Operation OperationFacts TransferFacts Repair.
From stdpp Require Import prelude strings gmap list sorting.
From Stdlib Require Import ZArith Lia Ascii.
Open Scope Z_scope.
Open Scope uc_scope.

(** A loop whose steps answer [g] in every state of [I]. *)
Lemma forM_view {S A B} (I : S → Prop) (f : A → SM S B) (g : A → result B) l s : I s →
  (∀ a s, a ∈ l → I s → ∃ s', f a s = (g a, s') ∧ I s') → ∃ s', forM f l s = (traverse g l, s') ∧ I s'.
Proof.
  revert s. induction l as [|a l IH]; intros s Hs Hf; cbn; [by exists s|].
  destruct (Hf a s ltac:(by left) Hs) as (s1 & Ha & Hs1). unfold bindM at 1. rewrite Ha.
  destruct (g a) as [b| |]; cbn; [|by exists s1..].
  destruct (IH s1 Hs1) as (s2 & Hl & Hs2); [intros a' s' Ha'; apply Hf; by right|].
  unfold bindM. rewrite Hl. exists s2. by destruct (traverse g l).
Qed.

Lemma omap_app {A B} (f : A → option B) (l k : list A) : omap f (l ++ k) = omap f l ++ omap f k.
Proof. induction l as [|x l IH]; cbn; [done|]. destruct (f x); cbn; by rewrite ?IH. Qed.

(** Selected rows of a map have different keys. *)
Lemma NoDup_selected {A} (P : string * A → bool) (m : gmap string A) : NoDup (fst <$> List.filter P (map_to_list m)).
Proof.
  pose proof (NoDup_fst_map_to_list m) as Hn. revert Hn. generalize (map_to_list m) as l.
  induction l as [|p l IH]; cbn; [done|]. intros [Hp Hl]%NoDup_cons. destruct (P p); [|auto]. cbn. apply NoDup_cons. split; [|auto].
  intros (q & E & [Hq _]%elem_of_filter_b)%list_elem_of_fmap. apply Hp. rewrite E. by apply list_elem_of_fmap_2.
Qed.

(** ** Lists in the order of a key *)

Section Sorted.
Context {Row : Type} (key : Row → string).

Definition sorted_from (rows : list Row) (c : string) : list Row := list_query (keyed key) (beyond key c) 0 "" rows.

Lemma keyed_total x y : keyed key x y = true ∨ keyed key y x = true.
Proof. apply String.leb_total. Qed.
Lemma keyed_trans x y z : keyed key x y = true → keyed key y z = true → keyed key x z = true.
Proof. apply str_leb_trans. Qed.

Lemma elem_of_sorted rows c e : e ∈ sorted_from rows c ↔ e ∈ rows ∧ beyond key c e = true.
Proof. apply (list_query_all (keyed key) (beyond key c)). Qed.

Lemma sorted_from_sorted rows c : StronglySorted (ordering (keyed key) "") (sorted_from rows c).
Proof. apply (list_query_sorted _ keyed_total keyed_trans). Qed.

Lemma NoDup_sorted rows c : NoDup (key <$> rows) → NoDup (key <$> sorted_from rows c).
Proof.
  unfold sorted_from, list_query, limited. cbn. rewrite merge_sort_Permutation. induction rows as [|y rows IH]; cbn; [done|].
  intros [Hy Hr]%NoDup_cons. destruct (beyond key c y); [|auto]. cbn. apply NoDup_cons. split; [|auto].
  intros (z & E & [Hz _]%elem_of_filter_b)%list_elem_of_fmap. apply Hy, list_elem_of_fmap. by exists z.
Qed.

(** Rows with the same keys are the same row. *)
Lemma same_key (l : list Row) x y : NoDup (key <$> l) → x ∈ l → y ∈ l → key x = key y → x = y.
Proof.
  induction l as [|z l IH]; [by intros _ ?%elem_of_nil|]. cbn. intros [Hz Hl]%NoDup_cons [->|Hx]%elem_of_cons [->|Hy]%elem_of_cons E.
  - done.
  - exfalso. apply Hz. rewrite E. by apply list_elem_of_fmap_2.
  - exfalso. apply Hz. rewrite <- E. by apply list_elem_of_fmap_2.
  - by apply IH.
Qed.

(** Two sorted lists of the same rows are the same list. *)
Lemma sorted_unique (l k : list Row) : NoDup (key <$> l) → NoDup (key <$> k) → (∀ e, e ∈ l ↔ e ∈ k) →
  StronglySorted (ordering (keyed key) "") l → StronglySorted (ordering (keyed key) "") k → l = k.
Proof.
  intros Hl Hk He Sl Sk. apply (StronglySorted_unique_strong (ordering (keyed key) "")); [|done|done|].
  - intros x y Hx Hy Hxy Hyx. apply (same_key l); [done|done|by apply He|]. by apply String.leb_antisym.
  - apply NoDup_Permutation; [by eapply NoDup_fmap_1|by eapply NoDup_fmap_1|done].
Qed.

(** What follows the first rows has greater keys. *)
Lemma sorted_before (l k : list Row) x y : NoDup (key <$> (l ++ k)) → StronglySorted (ordering (keyed key) "") (l ++ k) →
  x ∈ l → y ∈ k → String.ltb (key x) (key y) = true.
Proof.
  intros Hn Hs Hx Hy. apply StronglySorted_app in Hs as (Hlk & _ & _). specialize (Hlk x y Hx Hy). apply str_ltb_iff.
  split; [exact Hlk|]. intros E. rewrite fmap_app in Hn. apply NoDup_app in Hn as (_ & Hd & _).
  apply (Hd (key x)); [by apply list_elem_of_fmap_2|]. rewrite E. by apply list_elem_of_fmap_2.
Qed.

Lemma beyond_ne c e : c ≠ "" → beyond key c e = String.ltb c (key e).
Proof. intros Hc. unfold beyond. apply String.eqb_neq in Hc. by rewrite Hc. Qed.

Lemma sorted_keys_ne (l k : list Row) x y : NoDup (key <$> (l ++ k)) → x ∈ l → y ∈ k → key x ≠ key y.
Proof.
  intros Hn Hx Hy E. rewrite fmap_app in Hn. apply NoDup_app in Hn as (_ & Hd & _).
  apply (Hd (key x)); [by apply list_elem_of_fmap_2|]. rewrite E. by apply list_elem_of_fmap_2.
Qed.
End Sorted.

(** ** Batches

    [run] is what a step does to the database with the rows it is given; when
    nothing fails a batch does that, and a batch that fails does nothing. *)

Section Loop.
Context (fqdn : string) {Row : Type} (key : Row → string) (rows : DB → list Row) (f : nat → list Row → RM unit).
Context (run : list Row → DB → result DB) (I : DB → Prop) (sound : Prop).

Definition cached (s : RepairSt) : Prop := ∀ ccid v, rp_cache s !! ccid = Some v → v = is_local fqdn (rp_db s) ccid.

(** Some rows of the table, each once. *)
Definition taken (l : list Row) (db : DB) : Prop := (∀ e, e ∈ l → e ∈ rows db) ∧ NoDup (key <$> l).

Context (I_keys : ∀ db, I db → NoDup (key <$> rows db)).
Context (run_nil : ∀ db, run [] db = Ok db).
Context (run_app : ∀ l k db db', I db → taken (l ++ k) db →
  run (l ++ k) db = Ok db' ↔ ∃ db1, run l db = Ok db1 ∧ run k db1 = Ok db').
Context (run_I : ∀ l db db', I db → taken l db → run l db = Ok db' → I db').
Context (run_frame : ∀ l db db' e, I db → taken l db → run l db = Ok db' → key e ∉ key <$> l → e ∈ rows db' ↔ e ∈ rows db).
Context (f_spec : ∀ i l s, cached s → I (rp_db s) → taken l (rp_db s) → l ≠ [] → ∃ r s', f i l s = (r, s') ∧ cached s' ∧
  ((r = Ok tt ∧ run l (rp_db s) = Ok (rp_db s')) ∨
   (r ≠ Ok tt ∧ rp_db s' = rp_db s ∧ (sound → ∀ db', run l (rp_db s) ≠ Ok db')))).

Definition from (db : DB) (c : string) : list Row := sorted_from key (rows db) c.

Lemma from_taken l k db c : I db → from db c = l ++ k → taken (l ++ k) db.
Proof.
  intros HI E. split.
  - intros e He. rewrite <- E in He. by apply elem_of_sorted in He as [? _].
  - rewrite <- E. by apply NoDup_sorted, I_keys.
Qed.

Lemma taken_app l k db : taken (l ++ k) db → taken l db.
Proof. intros [Ht Hn]. split; [intros e He; apply Ht, elem_of_app; by left|]. rewrite fmap_app in Hn. by apply NoDup_app in Hn as [? _]. Qed.

(** The rows after the last of a batch are those that were left. *)
Lemma from_next l p k db db' c : I db → from db c = (l ++ [p]) ++ k → key p ≠ "" → run (l ++ [p]) db = Ok db' →
  from db' (key p) = k.
Proof.
  intros HI E Hp Hr. pose proof (from_taken _ _ _ _ HI E) as [Ht Hn]. pose proof (taken_app _ _ _ (conj Ht Hn)) as Htl.
  assert (StronglySorted (ordering (keyed key) "") ((l ++ [p]) ++ k)) as Hs by (rewrite <- E; apply sorted_from_sorted).
  assert (∀ x, x ∈ l ++ [p] → String.leb (key x) (key p) = true) as Hle.
  { intros x [Hx| ->%list_elem_of_singleton]%elem_of_app; [|by destruct (String.leb_total (key p) (key p))].
    apply StronglySorted_app in Hs as (_ & Hs & _). apply StronglySorted_app in Hs as (Hs & _ & _). apply (Hs x p Hx). by left. }
  assert (∀ e, beyond key (key p) e = true → key e ∉ key <$> (l ++ [p])) as Hout.
  { intros e Hb (x & Ex & Hx)%list_elem_of_fmap. rewrite beyond_ne in Hb by done. rewrite Ex in Hb. by eapply str_ltb_leb, Hle. }
  assert (p ∈ l ++ [p]) as Hin by set_solver.
  apply (sorted_unique key).
  - apply NoDup_sorted, I_keys. by eapply run_I.
  - rewrite fmap_app in Hn. by apply NoDup_app in Hn as (_ & _ & ?).
  - intros e. unfold from. rewrite elem_of_sorted. split.
    + intros [He Hb]. pose proof (Hout e Hb) as Hk. apply (run_frame _ _ _ _ HI Htl Hr) in He; [|done].
      assert (e ∈ from db c) as Hf.
      { apply elem_of_sorted. split; [done|]. unfold beyond. destruct (String.eqb_spec c ""); [done|]. cbn.
        assert (p ∈ from db c) as [_ Hpc]%elem_of_sorted by (rewrite E; set_solver).
        rewrite beyond_ne in Hpc, Hb by done. by eapply str_ltb_trans. }
      rewrite E in Hf. apply elem_of_app in Hf as [Hx|Hx]; [|done]. exfalso. by apply Hk, list_elem_of_fmap_2.
    + intros He. assert (beyond key (key p) e = true) as Hb.
      { rewrite beyond_ne by done. by apply (sorted_before key (l ++ [p]) k). }
      split; [|done]. apply (run_frame _ _ _ _ HI Htl Hr); [by apply Hout|]. apply Ht. set_solver.
  - apply sorted_from_sorted.
  - by apply StronglySorted_app in Hs as (_ & _ & ?).
Qed.

(** A full page does not end in the empty key: the others would have it too. *)
Lemma full_page l p k db c : I db → from db c = (l ++ [p]) ++ k → (1 < length (l ++ [p]))%nat → key p ≠ "".
Proof.
  intros HI E Hlen Hp. destruct l as [|x l]; [cbn in Hlen; lia|].
  assert (StronglySorted (ordering (keyed key) "") (((x :: l) ++ [p]) ++ k)) as Hs by (rewrite <- E; apply sorted_from_sorted).
  pose proof (from_taken _ _ _ _ HI E) as [_ Hn].
  apply StronglySorted_app in Hs as (_ & Hs & _). apply StronglySorted_app in Hs as (Hs & _ & _).
  specialize (Hs x p ltac:(by left) ltac:(by left)). unfold ordering, keyed in Hs. cbn in Hs. rewrite Hp in Hs.
  assert (key x = "") as Hx by (by destruct (key x)). cbn in Hn. apply NoDup_cons in Hn as [Hn _]. apply Hn.
  rewrite Hx, <- Hp, !fmap_app. set_solver.
Qed.

Lemma batch_take db c : batch_after key rows db c = take find_batch (from db c).
Proof. unfold batch_after. rewrite list_query_limit by (unfold find_batch; lia). by rewrite Nat2Z.id. Qed.

(** What a run of the loop has gone through when it returns. *)
Definition gone (c : string) (s : RepairSt) (r : result unit) (s' : RepairSt) : Prop := ∃ l1 l2,
  from (rp_db s) c = l1 ++ l2 ∧ run l1 (rp_db s) = Ok (rp_db s') ∧ cached s' ∧
  ((r = Ok tt ∧ l2 = []) ∨ (r ≠ Ok tt ∧ (sound → ∀ db', run (l1 ++ l2) (rp_db s) ≠ Ok db'))).

Lemma batches_gone fuel i c s r s' : cached s → I (rp_db s) → (length (from (rp_db s) c) < fuel)%nat →
  FindInBatches key rows f fuel i c s = (r, s') → gone c s r s'.
Proof.
  revert i c s. induction fuel as [|fuel IH]; intros i c s Hc HI Hlen; [lia|]. cbn [FindInBatches].
  rewrite bindM_gets, batch_take. destruct (last _) as [p|] eqn:Hlast.
  2: { apply last_None in Hlast. intros [= <- <-]. assert (from (rp_db s) c = []) as E by (destruct (from (rp_db s) c); done).
       exists [], []. split; [exact E|]. split; [by apply run_nil|]. split; [done|]. by left. }
  pose proof (take_drop find_batch (from (rp_db s) c)) as E. set (l := take find_batch _) in *. set (k := drop find_batch _) in *.
  symmetry in E. pose proof (from_taken _ _ _ _ HI E) as Ht. pose proof (taken_app _ _ _ Ht) as Htl.
  apply last_Some in Hlast as [l0 El].
  destruct (f_spec i l s Hc HI Htl) as (r1 & s1 & Hf & Hc1 & [[-> Hr]|(Hne & Hdb & Hno)]).
  { rewrite El. by destruct l0. }
  - rewrite (bindM_ok _ _ _ _ _ Hf). destruct (Nat.ltb_spec (length l) find_batch) as [Hshort|Hfull].
    + intros [= <- <-]. exists l, []. assert (k = []) as Hk.
      { unfold k. apply drop_ge. unfold l in Hshort. rewrite length_take in Hshort. lia. }
      split; [by rewrite E, Hk|]. split; [exact Hr|]. split; [exact Hc1|]. by left.
    + rewrite El in *. assert (key p ≠ "") as Hp by (eapply full_page; [exact HI|exact E|unfold find_batch in Hfull; lia]).
      apply String.eqb_neq in Hp as Hp'. rewrite Hp'. intros Hrun.
      pose proof (from_next _ _ _ _ _ _ HI E Hp Hr) as Hnext.
      apply IH in Hrun as (l1 & l2 & E2 & Hr2 & Hc2 & Hout); [|done|by eapply run_I|].
      2: { rewrite Hnext. rewrite E, length_app in Hlen. unfold find_batch in Hfull. lia. }
      rewrite Hnext in E2. exists ((l0 ++ [p]) ++ l1), l2.
      assert (taken ((l0 ++ [p]) ++ l1) (rp_db s)) as Ht1.
      { apply (taken_app _ l2). by rewrite <- app_assoc, <- E2. }
      split; [by rewrite E, E2, app_assoc|]. split; [apply (run_app _ _ _ _ HI Ht1); by exists (rp_db s1)|]. split; [done|]. destruct Hout as [[-> ->]|[Hne Hno]]; [by left|].
      right. split; [done|]. intros Hs db'. rewrite <- app_assoc. intros (db1 & Hr1 & Hr3)%run_app; [|done|by rewrite <- E2]. rewrite Hr in Hr1.
      injection Hr1 as <-. by apply (Hno Hs db').
  - unfold bindM. rewrite Hf. intros Hrun. assert (r ≠ Ok tt ∧ s' = s1) as [Hne' ->] by (destruct r1 as [[]| |]; by simplify_eq).
    exists [], (l ++ k). rewrite Hdb. split; [exact E|]. split; [by apply run_nil|]. split; [done|].
    right. split; [done|]. intros Hs db'. cbn [app]. intros (db1 & Hr1 & _)%run_app; [|done..]. by apply (Hno Hs db1).
Qed.

Lemma length_from db c : (length (from db c) <= length (rows db))%nat.
Proof.
  unfold from, sorted_from, list_query, limited. cbn. rewrite merge_sort_Permutation. apply length_filter_le.
Qed.

Lemma in_batches_gone s r s' : cached s → I (rp_db s) → in_batches key rows f s = (r, s') → gone "" s r s'.
Proof. intros Hc HI. unfold in_batches. rewrite bindM_gets. apply batches_gone; [done..|]. pose proof (length_from (rp_db s) ""). lia. Qed.
End Loop.

(** ** Rows updated by their keys *)

Section Updates.
Context {A V : Type} (g : V → A → A) (choice : string * A → option V).

Definition updates (m : gmap string A) (rs : list (string * V)) : gmap string A := foldl (λ m r, alter (g (snd r)) (fst r) m) m rs.
Definition chosen (l : list (string * A)) : list (string * V) := omap (λ p, pair (fst p) <$> choice p) l.
Definition update_with (k : string) (a : A) : A := match choice (k, a) with Some v => g v a | None => a end.

Lemma updates_out m rs k : k ∉ rs.*1 → updates m rs !! k = m !! k.
Proof.
  revert m. induction rs as [|r rs IH]; intros m; [done|]. cbn. intros [Hk Hr]%not_elem_of_cons. unfold updates in *. cbn.
  by rewrite IH, lookup_alter_ne.
Qed.

Lemma chosen_keys l k : k ∈ (chosen l).*1 → k ∈ l.*1.
Proof.
  unfold chosen. intros (r & -> & Hr)%list_elem_of_fmap. apply list_elem_of_omap in Hr as (p & Hp & E).
  destruct (choice p); [|done]. injection E as <-. cbn. by apply list_elem_of_fmap_2.
Qed.

Lemma updates_lookup m l k : NoDup l.*1 → (∀ p, p ∈ l → m !! fst p = Some (snd p)) →
  updates m (chosen l) !! k = (λ a, if decide (k ∈ l.*1) then update_with k a else a) <$> m !! k.
Proof.
  revert m. induction l as [|[k0 a0] l IH]; intros m Hn Hm.
  - cbn. rewrite (option_fmap_ext _ id), option_fmap_id; [done|]. intros a. by rewrite decide_False by apply not_elem_of_nil.
  - cbn in Hn. apply NoDup_cons in Hn as [Hk0 Hn]. pose proof (Hm (k0, a0) ltac:(by left)) as Hm0. cbn in Hm0.
    assert (∀ p, p ∈ l → fst p ≠ k0) as Hne by (intros p Hp E; apply Hk0; rewrite <- E; by apply list_elem_of_fmap_2).
    assert (updates m (chosen ((k0, a0) :: l)) !! k = updates (alter (update_with k0) k0 m) (chosen l) !! k) as ->.
    { unfold chosen. cbn. unfold updates, update_with. destruct (choice (k0, a0)) as [v|] eqn:E; cbn.
      - f_equal. f_equal. apply map_eq. intros j. destruct (decide (j = k0)) as [->|]; [|by rewrite !lookup_alter_ne].
        rewrite !lookup_alter_eq, Hm0. cbn. by rewrite E.
      - f_equal. f_equal. apply map_eq. intros j. destruct (decide (j = k0)) as [->|]; [|by rewrite !lookup_alter_ne].
        rewrite !lookup_alter_eq, Hm0. cbn. by rewrite E. }
    rewrite IH; [|done|].
    2: { intros p Hp. rewrite lookup_alter_ne by (by apply not_eq_sym, Hne). apply Hm. by right. }
    cbn. destruct (decide (k = k0)) as [->|Hk].
    + rewrite lookup_alter_eq, Hm0. cbn. by rewrite decide_False, decide_True by (done || by left).
    + rewrite lookup_alter_ne by done. apply option_fmap_ext. intros a.
      destruct (decide (k ∈ l.*1)) as [Hin|Hnin]; [by rewrite decide_True by by right|].
      rewrite decide_False; [done|]. by intros [?|?]%elem_of_cons.
Qed.
End Updates.
