(* ===== verification/RepairFacts.v ===== *)
(** * RepairFacts: an interrupted repair can simply be repeated

    [repair-single-owner] promises that it can be run again, after it finished
    and after it failed.  Its batches have no say in what it does: each step is
    the same as going through its rows one at a time, in the order of their
    keys, and a run that stops has gone through the first of them.  What is left
    is then what a complete run from there does, and its result is that of one
    run that never failed. *)

From S2P Require Import Prelude Effects Bytes Cdid Url Ccuri Documents Verify PolicyValues Store StoreFacts StoreInv.
From S2P Require Import Queries QueriesFacts Usecase Commit CommitSafe CommitFacts CommitReplay CommitWorld Operation OperationFacts.
From S2P Require Import Ledger Transfer TransferFacts Repair RepairLoop.
From stdpp Require Import prelude strings gmap list sorting.
From Stdlib Require Import ZArith Lia Ascii.
Open Scope Z_scope.
Open Scope uc_scope.

Section Steps.
Context `{Url.NetIP} `{Json} `{Keccak} `{StoreCodec} `{Orm} `{HeadCodec}.
Context (legacy : option (list (string * string))) (fqdn : string).
Context (fails : RepairStep → nat → bool) (clock : string → Z).

Notation local := (is_local fqdn).
Notation cached := (cached fqdn).
Definition nothing_fails : Prop := ∀ step i, fails step i = false.

(** *** Locality *)

Lemma isLocal_run ccid s : cached s → ∃ s', isLocal fqdn ccid s = (Ok (local (rp_db s) ccid), s') ∧ rp_db s' = rp_db s ∧ cached s'.
Proof.
  intros Hc. unfold isLocal. destruct (rp_cache s !! ccid) as [v|] eqn:E.
  - exists s. by rewrite <- (Hc _ _ E).
  - eexists. split; [done|]. split; [done|]. intros c v. cbn. rewrite lookup_insert_Some. intros [[<- <-]|[_ Hv]]; [done|]. by apply Hc.
Qed.

Definition same_local (db db' : DB) : Prop := ∀ ccid, local db' ccid = local db ccid.

Lemma cached_with_db db s : cached s → same_local (rp_db s) db → cached (with_db db s).
Proof. intros Hc Hs c v Hv. rewrite (Hc c v Hv). symmetry. apply Hs. Qed.

Lemma same_local_entities db db' : entities db' = entities db → same_local db db'.
Proof. intros E c. unfold is_local. by rewrite E. Qed.

(** *** Owners *)

Definition choice_of (db : DB) (p : string * CommitLog) : option string := choose_owner legacy (local db) (fst p) (cl_Document (snd p)).
Definition run_owners (l : list (string * CommitLog)) (db : DB) : DB :=
  set_commit_logs db (updates set_owner (commit_logs db) (chosen (choice_of db) l)).

Lemma update_owners_fold rs db : foldl update_owner db rs = set_commit_logs db (updates set_owner (commit_logs db) rs).
Proof.
  revert db. induction rs as [|r rs IH]; intros db; [by destruct db|]. cbn [foldl]. rewrite IH. unfold update_owner, updates. done.
Qed.

Lemma choose_owner_ext (f g : string → bool) id document : f (commitOwnerOf document) = g (commitOwnerOf document) →
  choose_owner legacy f id document = choose_owner legacy g id document.
Proof. intros E. unfold choose_owner. by rewrite E. Qed.

Lemma choose_owner_some (f : string → bool) id document owner : choose_owner legacy f id document = Some owner → owner ≠ "".
Proof.
  assert (∀ o, (let o := if String.eqb o "" then commitOwnerOf document else o in
                if String.eqb o "" then None else Some o) = Some owner → owner ≠ "") as Hs.
  { intros o. cbv zeta. destruct (String.eqb (if String.eqb o "" then _ else _) "") eqn:E; [done|]. intros [= <-]. by apply String.eqb_neq. }
  unfold choose_owner. destruct (is_ack_kind _); [destruct (f _); [|done]|]; apply Hs.
Qed.

Lemma find_owner_run p s : cached s → ∃ s', find_owner legacy fqdn p s = (Ok (pair (fst p) <$> choice_of (rp_db s) p), s') ∧
  rp_db s' = rp_db s ∧ cached s'.
Proof.
  intros Hc. destruct p as [id log]. unfold find_owner, choice_of. cbn [fst snd].
  destruct (is_ack_kind (documentKindOf (cl_Document log))) eqn:Ek.
  - destruct (isLocal_run (commitOwnerOf (cl_Document log)) s Hc) as (s' & Hr & Hd & Hc'). rewrite (bindM_ok _ _ _ _ _ Hr).
    exists s'. by rewrite (choose_owner_ext (λ _, local (rp_db s) _) (local (rp_db s))).
  - rewrite (bindM_ok _ _ _ _ _ (eq_refl : retM false s = (Ok false, s))). exists s. split_and!; [|done|done].
    unfold choose_owner. by rewrite Ek.
Qed.

Lemma traverse_pure {A B} (f : A → B) l : traverse (λ a, Ok (f a)) l = Ok (f <$> l).
Proof. induction l as [|a l IH]; cbn; [done|]. by rewrite IH. Qed.

Lemma omap_chosen {A V} (choice : string * A → option V) l : omap id ((λ p, pair (fst p) <$> choice p) <$> l) = chosen choice l.
Proof. unfold chosen. induction l as [|p l IH]; cbn; [done|]. rewrite IH. by destruct (choice p). Qed.

Lemma find_owners_run l s : cached s → ∃ s', forM (find_owner legacy fqdn) l s =
  (Ok ((λ p, pair (fst p) <$> choice_of (rp_db s) p) <$> l), s') ∧ rp_db s' = rp_db s ∧ cached s'.
Proof.
  intros Hc. destruct (forM_view (λ s', rp_db s' = rp_db s ∧ cached s') (find_owner legacy fqdn)
    (λ p, Ok (pair (fst p) <$> choice_of (rp_db s) p)) l s (conj eq_refl Hc)) as (s' & Hr & Hd & Hc').
  - intros p s1 _ [Hd1 Hc1]. destruct (find_owner_run p s1 Hc1) as (s2 & Hr & Hd2 & Hc2). exists s2. rewrite <- Hd1. by rewrite Hd2.
  - exists s'. by rewrite Hr, traverse_pure.
Qed.

Lemma backfill_owners_spec i l s : cached s → ∃ r s', backfill_owners legacy fqdn false fails i l s = (r, s') ∧ cached s' ∧
  ((r = Ok tt ∧ rp_db s' = run_owners l (rp_db s)) ∨ (r ≠ Ok tt ∧ rp_db s' = rp_db s ∧ ¬ nothing_fails)).
Proof.
  intros Hc. unfold backfill_owners. destruct (find_owners_run l s Hc) as (s1 & Hr & Hd & Hc1).
  rewrite (bindM_ok _ _ _ _ _ Hr), omap_chosen. unfold counting. rewrite bindM_modify. cbn [orb].
  case_bool_decide as Hnil.
  - eexists _, _. split; [done|]. split; [exact Hc1|]. left. split; [done|]. cbn. rewrite Hd. unfold run_owners. rewrite Hnil. by destruct (rp_db s).
  - destruct (fails BackfillOwners i) eqn:Ef.
    + eexists _, _. split; [done|]. split; [exact Hc1|]. right. split_and!; [done|done|]. intros Hn. by rewrite (Hn BackfillOwners i) in Ef.
    + eexists _, _. split; [done|]. cbn. rewrite update_owners_fold, Hd. split; [|by left].
      apply (cached_with_db _ (mkRepairSt (rp_db s1) (rp_cache s1) _)); [exact Hc1|]. by apply same_local_entities; cbn; rewrite Hd.
Qed.

Lemma taken_logs l db : taken fst unowned_logs l db → NoDup l.*1 ∧ ∀ p, p ∈ l → commit_logs db !! fst p = Some (snd p) ∧ cl_Owner (snd p) = "".
Proof.
  intros [Ht Hn]. split; [done|]. intros [d c] Hp. specialize (Ht _ Hp). unfold unowned_logs in Ht.
  apply elem_of_filter_b in Ht as [Hm Ho]. apply elem_of_map_to_list in Hm. split; [done|]. by apply String.eqb_eq in Ho.
Qed.

Definition settle (db : DB) (k : string) (c : CommitLog) : CommitLog := update_with set_owner (choice_of db) k c.

Lemma run_owners_logs l db k : taken fst unowned_logs l db →
  commit_logs (run_owners l db) !! k = (λ c, if decide (k ∈ l.*1) then settle db k c else c) <$> commit_logs db !! k.
Proof. intros [Hn Ht]%taken_logs. cbn. rewrite updates_lookup; [done|done|]. intros p Hp. by apply Ht. Qed.

Lemma elem_of_unowned db k c : (k, c) ∈ unowned_logs db ↔ commit_logs db !! k = Some c ∧ cl_Owner c = "".
Proof. unfold unowned_logs. rewrite elem_of_filter_b, elem_of_map_to_list. cbn. by rewrite String.eqb_eq. Qed.

Lemma NoDup_unowned db : NoDup (fst <$> unowned_logs db).
Proof. apply NoDup_selected. Qed.

Lemma run_owners_frame l db e : taken fst unowned_logs l db → fst e ∉ l.*1 → e ∈ unowned_logs (run_owners l db) ↔ e ∈ unowned_logs db.
Proof.
  intros Ht Hk. destruct e as [k c]. rewrite !elem_of_unowned, run_owners_logs by done. cbn in Hk. split.
  - intros [(c' & E & Hc')%fmap_Some Ho]. rewrite decide_False in Hc' by done. by subst.
  - intros [-> Ho]. cbn. by rewrite decide_False.
Qed.

Lemma run_owners_app l k db : run_owners (l ++ k) db = run_owners k (run_owners l db).
Proof. unfold run_owners, chosen, updates. by rewrite omap_app, foldl_app. Qed.

(** What a step has done when it returns: its first rows, all of them unless something failed. *)
Definition stage {Row} (key : Row → string) (rows : DB → list Row) (run : list Row → DB → DB) (s : RepairSt) (r : result unit) (s' : RepairSt) : Prop :=
  cached s' ∧ ∃ l1 l2, from key rows (rp_db s) "" = l1 ++ l2 ∧ rp_db s' = run l1 (rp_db s) ∧
    ((r = Ok tt ∧ l2 = []) ∨ (r ≠ Ok tt ∧ ¬ nothing_fails)).

Lemma gone_stage {Row} (key : Row → string) rows run s r s' :
  gone fqdn key rows (λ l db, Ok (run l db)) nothing_fails "" s r s' → stage key rows run s r s'.
Proof.
  intros (l1 & l2 & E & [= Hr] & Hc & Hout). split; [done|]. exists l1, l2. split; [done|]. split; [done|].
  destruct Hout as [?|[Hne Hno]]; [by left|]. right. split; [done|]. intros Hn. by apply (Hno Hn _ eq_refl).
Qed.

Lemma owners_stage s r s' : cached s →
  in_batches fst unowned_logs (backfill_owners legacy fqdn false fails) s = (r, s') → stage fst unowned_logs run_owners s r s'.
Proof.
  intros Hc Hr. apply gone_stage.
  apply (in_batches_gone fqdn fst unowned_logs (backfill_owners legacy fqdn false fails) (λ l db, Ok (run_owners l db)) (λ _, True) nothing_fails);
    [| | | | | |done|done|done].
  - intros db _. apply NoDup_unowned.
  - intros db. unfold run_owners. by destruct db.
  - intros l k db db' _ _. rewrite run_owners_app. naive_solver.
  - done.
  - intros l db db' e _ Ht [= <-]. by apply run_owners_frame.
  - intros i l s0 Hc0 _ _ _. destruct (backfill_owners_spec i l s0 Hc0) as (r0 & s1 & Hf & Hc1 & [[-> Hd]|(Hne & Hd & Hno)]);
      exists r0, s1 || exists (Ok tt), s1; (split; [done|]); (split; [done|]); [left; by rewrite Hd|right; done].
Qed.

(** *** Times *)

Definition created_of (db : DB) (p : string * EntityRow) : option Z :=
  match unmarshal_document (cl_Document (log_of db (er_DocumentID (snd p)))) with
  | Ok doc => if CreatedAt doc =? zero_time then None else Some (CreatedAt doc)
  | _ => None
  end.

Lemma entity_time_of db p : entity_time db p = pair (fst p) <$> created_of db p.
Proof. unfold entity_time, created_of. destruct (unmarshal_document _); [|done..]. by destruct (_ =? _). Qed.

Definition run_times (l : list (string * EntityRow)) (db : DB) : DB :=
  set_entities db (updates set_created (entities db) (chosen (created_of db) l)).

Lemma update_created_fold rs db : foldl update_created db rs = set_entities db (updates set_created (entities db) rs).
Proof.
  revert db. induction rs as [|r rs IH]; intros db; [by destruct db|]. cbn [foldl]. rewrite IH. unfold update_created, updates. done.
Qed.

Lemma updates_domain m rs c : er_Domain <$> updates set_created m rs !! c = er_Domain <$> m !! c.
Proof.
  revert m. induction rs as [|r rs IH]; intros m; [done|]. unfold updates in *. cbn. rewrite IH.
  destruct (decide (c = fst r)) as [->|]; [|by rewrite lookup_alter_ne]. rewrite lookup_alter_eq. by destruct (m !! fst r).
Qed.

Lemma run_times_local l db : same_local db (run_times l db).
Proof.
  intros c. unfold is_local. cbn. pose proof (updates_domain (entities db) (chosen (created_of db) l) c) as E.
  destruct (updates _ _ _ !! c), (entities db !! c); cbn in E; congruence.
Qed.

Lemma entity_times db l : omap (entity_time db) l = chosen (created_of db) l.
Proof. unfold chosen. apply list_omap_ext. apply Forall2_same_length_lookup_2; [done|]. intros i x y Hx Hy. rewrite Hx in Hy. injection Hy as <-. apply entity_time_of. Qed.

Lemma backfill_timestamps_spec i l s : cached s → ∃ r s', backfill_timestamps false fails i l s = (r, s') ∧ cached s' ∧
  ((r = Ok tt ∧ rp_db s' = run_times l (rp_db s)) ∨ (r ≠ Ok tt ∧ rp_db s' = rp_db s ∧ ¬ nothing_fails)).
Proof.
  intros Hc. unfold backfill_timestamps. rewrite bindM_gets, entity_times. unfold counting. rewrite bindM_modify. cbn [orb].
  case_bool_decide as Hnil.
  - eexists _, _. split; [done|]. split; [exact Hc|]. left. split; [done|]. cbn. unfold run_times. rewrite Hnil. by destruct (rp_db s).
  - destruct (fails BackfillTimestamps i) eqn:Ef.
    + eexists _, _. split; [done|]. split; [exact Hc|]. right. split_and!; [done|done|]. intros Hn. by rewrite (Hn BackfillTimestamps i) in Ef.
    + eexists _, _. split; [done|]. cbn. rewrite update_created_fold. split; [|by left].
      apply (cached_with_db _ (mkRepairSt (rp_db s) (rp_cache s) _)); [exact Hc|]. apply run_times_local.
Qed.

Lemma elem_of_undated db k e : (k, e) ∈ undated_entities db ↔ entities db !! k = Some e ∧ er_CreatedAt e = epoch.
Proof. unfold undated_entities. rewrite elem_of_filter_b, elem_of_map_to_list. cbn. by rewrite Z.eqb_eq. Qed.

Lemma NoDup_undated db : NoDup (fst <$> undated_entities db).
Proof. apply NoDup_selected. Qed.

Definition date (db : DB) (k : string) (e : EntityRow) : EntityRow := update_with set_created (created_of db) k e.

Lemma run_times_entities l db k : taken fst undated_entities l db →
  entities (run_times l db) !! k = (λ e, if decide (k ∈ l.*1) then date db k e else e) <$> entities db !! k.
Proof.
  intros [Ht Hn]. cbn. rewrite updates_lookup; [done|done|]. intros [c e] Hp. by apply Ht, elem_of_undated in Hp as [? _].
Qed.

Lemma run_times_frame l db e : taken fst undated_entities l db → fst e ∉ l.*1 → e ∈ undated_entities (run_times l db) ↔ e ∈ undated_entities db.
Proof.
  intros Ht Hk. destruct e as [k c]. rewrite !elem_of_undated, run_times_entities by done. cbn in Hk. split.
  - intros [(c' & E & Hc')%fmap_Some Ho]. rewrite decide_False in Hc' by done. by subst.
  - intros [-> Ho]. cbn. by rewrite decide_False.
Qed.

Lemma run_times_app l k db : run_times (l ++ k) db = run_times k (run_times l db).
Proof. unfold run_times, chosen, updates. by rewrite omap_app, foldl_app. Qed.

Lemma times_stage s r s' : cached s →
  in_batches fst undated_entities (backfill_timestamps false fails) s = (r, s') → stage fst undated_entities run_times s r s'.
Proof.
  intros Hc Hr. apply gone_stage.
  apply (in_batches_gone fqdn fst undated_entities (backfill_timestamps false fails) (λ l db, Ok (run_times l db)) (λ _, True) nothing_fails);
    [| | | | | |done|done|done].
  - intros db _. apply NoDup_undated.
  - intros db. unfold run_times. by destruct db.
  - intros l k db db' _ _. rewrite run_times_app. naive_solver.
  - done.
  - intros l db db' e _ Ht [= <-]. by apply run_times_frame.
  - intros i l s0 Hc0 _ _ _. destruct (backfill_timestamps_spec i l s0 Hc0) as (r0 & s1 & Hf & Hc1 & [[-> Hd]|(Hne & Hd & Hno)]);
      exists r0, s1 || exists (Ok tt), s1; (split; [done|]); (split; [done|]); [left; by rewrite Hd|right; done].
Qed.

(** *** Acks *)

Definition plan (db : DB) (e : triple * AckRow) : result AckPlan :=
  plan_ack clock db (local db (ack_from (fst e))) (local db (ack_to (fst e))) e.
Definition run_acks (l : list (triple * AckRow)) (db : DB) : result DB := rbind (traverse (plan db) l) (λ plans, split_tx plans db).

Lemma plan_row_run e s : cached s → ∃ s', plan_row fqdn clock e s = (plan (rp_db s) e, s') ∧ rp_db s' = rp_db s ∧ cached s'.
Proof.
  intros Hc. unfold plan_row, plan. destruct (isLocal_run (ack_from (fst e)) s Hc) as (s1 & Hr1 & Hd1 & Hc1).
  rewrite (bindM_ok _ _ _ _ _ Hr1). destruct (isLocal_run (ack_to (fst e)) s1 Hc1) as (s2 & Hr2 & Hd2 & Hc2).
  rewrite (bindM_ok _ _ _ _ _ Hr2), bindM_gets, bindM_lift. rewrite Hd2, Hd1. destruct (plan_ack _ _ _ _ _) as [p| |].
  - eexists. split; [done|]. cbn. split; [by rewrite Hd2|]. exact Hc2.
  - exists s2. by rewrite Hd2.
  - exists s2. by rewrite Hd2.
Qed.

Lemma plans_run l s : cached s → ∃ s', forM (plan_row fqdn clock) l s = (traverse (plan (rp_db s)) l, s') ∧ rp_db s' = rp_db s ∧ cached s'.
Proof.
  intros Hc. destruct (forM_view (λ s', rp_db s' = rp_db s ∧ cached s') (plan_row fqdn clock) (plan (rp_db s)) l s (conj eq_refl Hc)) as (s' & Hr & Hd).
  - intros e s1 _ [Hd1 Hc1]. destruct (plan_row_run e s1 Hc1) as (s2 & Hr & Hd2 & Hc2). exists s2. rewrite <- Hd1. by rewrite Hd2.
  - by exists s'.
Qed.

Lemma split_tx_nothing plans db : omap fst plans = [] → omap snd plans = [] → split_tx plans db = Ok db.
Proof.
  intros E1 E2. unfold split_tx. rewrite E1, E2. cbn. f_equal. destruct db. unfold set_commit_logs, set_acks, set_ackeds. cbn. f_equal.
  apply map_filter_id. intros; apply not_elem_of_nil.
Qed.

Lemma split_tx_entities plans db db' : split_tx plans db = Ok db' → entities db' = entities db.
Proof. unfold split_tx. by intros (t & _ & [= <-])%rbind_ok_inv. Qed.

Lemma split_acks_spec i l s : cached s → ∃ r s', split_acks fqdn false fails clock i l s = (r, s') ∧ cached s' ∧
  ((r = Ok tt ∧ run_acks l (rp_db s) = Ok (rp_db s')) ∨
   (r ≠ Ok tt ∧ rp_db s' = rp_db s ∧ (nothing_fails → ∀ db', run_acks l (rp_db s) ≠ Ok db'))).
Proof.
  intros Hc. unfold split_acks, run_acks. destruct (plans_run l s Hc) as (s1 & Hr & Hd & Hc1).
  destruct (traverse (plan (rp_db s)) l) as [plans| |] eqn:Ep.
  2,3: unfold bindM; rewrite Hr; eexists _, s1; (split; [done|]); (split; [done|]); by right.
  rewrite (bindM_ok _ _ _ _ _ Hr). cbn [orb rbind].
  destruct (bool_decide (omap fst plans = []) && bool_decide (omap snd plans = [])) eqn:En.
  - apply andb_prop in En as [E1%bool_decide_eq_true E2%bool_decide_eq_true]. exists (Ok tt), s1.
    split; [done|]. split; [done|]. left. split; [done|]. by rewrite split_tx_nothing, Hd.
  - destruct (fails SplitAcks i) eqn:Ef.
    + eexists _, s1. split; [done|]. split; [done|]. right. split_and!; [done|done|]. intros Hn. by rewrite (Hn SplitAcks i) in Ef.
    + rewrite Hd. destruct (split_tx plans (rp_db s)) as [db'| |] eqn:Et; eexists _, _; (split; [done|]).
      * split; [|by left]. apply cached_with_db; [done|]. apply same_local_entities. rewrite Hd. by eapply split_tx_entities.
      * split; [done|]. by right.
      * split; [done|]. by right.
Qed.

(** The parts of a transaction. *)
Lemma split_tx_inv plans db db' : split_tx plans db = Ok db' →
  let logs := foldl create_log (commit_logs db) (omap fst plans) in
  upsert_holdings logs (ackeds db) (omap fst plans) = Ok (ackeds db') ∧
  acks db' = filter (λ p, ak_DocumentID (snd p) ∉ omap snd plans) (acks db) ∧
  commit_logs db' = disown logs (omap snd plans) ∧
  entities db' = entities db ∧ records db' = records db ∧ record_keys db' = record_keys db ∧
  next_key db' = next_key db ∧ associations db' = associations db.
Proof. unfold split_tx. by intros (t & Hu & [= <-])%rbind_ok_inv. Qed.

Lemma create_logs_old m hs d c : m !! d = Some c → foldl create_log m hs !! d = Some c.
Proof.
  revert m. induction hs as [|h hs IH]; intros m Hm; [done|]. cbn. apply IH. unfold create_log.
  destruct (m !! hl_ID h) eqn:E; [done|]. rewrite lookup_insert_ne; [done|]. intros Ed. by rewrite Ed, Hm in E.
Qed.

Lemma create_logs_some m hs d : is_Some (foldl create_log m hs !! d) ↔ is_Some (m !! d) ∨ d ∈ hl_ID <$> hs.
Proof.
  revert m. induction hs as [|h hs IH]; intros m; cbn; [rewrite elem_of_nil; naive_solver|]. rewrite IH, elem_of_cons.
  unfold create_log. destruct (m !! hl_ID h) as [c|] eqn:E.
  - split; [naive_solver|]. intros [?|[->|?]]; [by left|left; by exists c|by right].
  - rewrite lookup_insert_is_Some'. naive_solver.
Qed.

(** A new log is that of a holding. *)
Lemma create_logs_new m hs d c : m !! d = None → foldl create_log m hs !! d = Some c → ∃ h, h ∈ hs ∧ hl_ID h = d ∧ hl_Log h = c.
Proof.
  revert m. induction hs as [|h hs IH]; intros m Hm; cbn; [congruence|]. unfold create_log at 2.
  destruct (m !! hl_ID h) as [c0|] eqn:E; [intros Hc; destruct (IH _ Hm Hc) as (h' & ? & ?); exists h'; split; [by right|done]|].
  destruct (decide (hl_ID h = d)) as [Hd|Hne].
  - intros Hc. rewrite (create_logs_old _ _ d (hl_Log h)) in Hc by (by rewrite Hd, lookup_insert_eq). injection Hc as <-.
    exists h. split; [by left|done].
  - intros Hc. destruct (IH (<[hl_ID h:=hl_Log h]> m)) as (h' & ? & ?); [by rewrite lookup_insert_ne|done|].
    exists h'. split; [by right|done].
Qed.

Lemma disown_lookup m ds d : disown m ds !! d = (λ c, if decide (d ∈ ds) then disown_log c else c) <$> m !! d.
Proof.
  unfold disown. revert m. induction ds as [|x ds IH]; intros m; cbn.
  - rewrite (option_fmap_ext _ id), option_fmap_id; [done|]. intros c. by rewrite decide_False by apply not_elem_of_nil.
  - rewrite IH. destruct (decide (d = x)) as [->|Hne].
    + rewrite lookup_alter_eq. destruct (m !! x) as [c|]; cbn; [|done]. f_equal. rewrite (decide_True (P := x ∈ x :: ds)) by by left.
      by destruct (decide (x ∈ ds)).
    + rewrite lookup_alter_ne by done. apply option_fmap_ext. intros c. destruct (decide (d ∈ ds)).
      * by rewrite decide_True by by right.
      * rewrite decide_False; [done|]. by intros [?|?]%elem_of_cons.
Qed.

Lemma disown_some m ds d : is_Some (disown m ds !! d) ↔ is_Some (m !! d).
Proof. by rewrite disown_lookup, fmap_is_Some. Qed.

Lemma disown_create m hs ds : (∀ d, d ∈ ds → is_Some (m !! d)) → disown (foldl create_log m hs) ds = foldl create_log (disown m ds) hs.
Proof.
  revert m. induction hs as [|h hs IH]; intros m Hm; cbn; [done|].
  assert (create_log (disown m ds) h = disown (create_log m h) ds) as ->.
  { unfold create_log at 1. apply map_eq. intros k. destruct (disown m ds !! hl_ID h) as [c|] eqn:E.
    - assert (is_Some (m !! hl_ID h)) as [c0 Hc0] by by apply (disown_some m ds); rewrite E.
      unfold create_log. by rewrite Hc0.
    - assert (m !! hl_ID h = None) as Hc0 by (apply eq_None_not_Some; intros Hx; apply (disown_some m ds) in Hx; rewrite E in Hx; by destruct Hx).
      unfold create_log. rewrite Hc0. destruct (decide (hl_ID h = k)) as [<-|Hne].
      + rewrite lookup_insert_eq, disown_lookup, lookup_insert_eq. cbn. rewrite decide_False; [done|].
        intros Hin. apply Hm in Hin. rewrite Hc0 in Hin. by destruct Hin.
      + by rewrite lookup_insert_ne, !disown_lookup, lookup_insert_ne by done. }
  apply IH. intros d Hd. unfold create_log. destruct (m !! hl_ID h); [by apply Hm|]. rewrite lookup_insert_is_Some'. right. by apply Hm.
Qed.

Lemma upsert_holdings_app logs t hs ks : upsert_holdings logs t (hs ++ ks) = rbind (upsert_holdings logs t hs) (λ t, upsert_holdings logs t ks).
Proof. revert t. induction hs as [|h hs IH]; intros t; cbn; [done|]. destruct (upsert_holding logs t h); cbn; [apply IH|done..]. Qed.

(** Only whether the logs exist matters. *)
Lemma upsert_holdings_ext logs logs' t hs : (∀ h, h ∈ hs → is_Some (logs !! ak_DocumentID (hl_Row h)) ↔ is_Some (logs' !! ak_DocumentID (hl_Row h))) →
  upsert_holdings logs t hs = upsert_holdings logs' t hs.
Proof.
  revert t. induction hs as [|h hs IH]; intros t Hl; cbn; [done|].
  assert (upsert_holding logs t h = upsert_holding logs' t h) as ->.
  { unfold upsert_holding, upsert_row. specialize (Hl h ltac:(by left)).
    destruct (t !! hl_Key h) as [o|]; [destruct (_ <? _); [|done]|]; (destruct (existsb _ _); [done|]); cbn.
    all: destruct (logs !! ak_DocumentID (hl_Row h)), (logs' !! ak_DocumentID (hl_Row h)); try done;
      exfalso; destruct Hl as [Hl1 Hl2]; first [by destruct (Hl1 ltac:(by eexists)) | by destruct (Hl2 ltac:(by eexists))]. }
  destruct (upsert_holding logs' t h); cbn; [|done..]. apply IH. intros h' Hh'. apply Hl. by right.
Qed.

(** A plan whose holding names its own document. *)
Definition plan_ok (p : AckPlan) : Prop := ∀ h, fst p = Some h → ak_DocumentID (hl_Row h) = hl_ID h.

Lemma split_tx_app p q db db' : (∀ d, d ∈ omap snd p → is_Some (commit_logs db !! d)) → Forall plan_ok p →
  split_tx (p ++ q) db = Ok db' ↔ ∃ db1, split_tx p db = Ok db1 ∧ split_tx q db1 = Ok db'.
Proof.
  intros Hd Hp. unfold split_tx at 1 2. rewrite !omap_app, foldl_app.
  set (hs := omap fst p). set (ks := omap fst q). set (m := foldl create_log (commit_logs db) hs).
  assert (upsert_holdings (foldl create_log m ks) (ackeds db) (hs ++ ks) =
    rbind (upsert_holdings m (ackeds db) hs) (λ t, upsert_holdings (foldl create_log (disown m (omap snd p)) ks) t ks)) as ->.
  { rewrite upsert_holdings_app. rewrite (upsert_holdings_ext (foldl create_log m ks) m).
    2: { intros h Hh. rewrite create_logs_some. split; [|tauto]. intros _. apply create_logs_some. right.
         apply list_elem_of_omap in Hh as (x & Hx & Ex). rewrite Forall_forall in Hp. rewrite (Hp x Hx h Ex).
         apply list_elem_of_fmap_2, list_elem_of_omap. by exists x. }
    destruct (upsert_holdings m (ackeds db) hs) as [t| |]; cbn; [|done..]. apply upsert_holdings_ext. intros h Hh.
    rewrite !create_logs_some, disown_some. done. }
  destruct (upsert_holdings m (ackeds db) hs) as [t| |]; cbn.
  2,3: split; [done|]; by intros (? & ? & _).
  assert (∀ d, d ∈ omap snd p → is_Some (m !! d)) as Hm by (intros d Hx; apply create_logs_some; left; by apply Hd).
  unfold disown at 1. rewrite foldl_app. fold (disown (foldl create_log m ks) (omap snd p)). rewrite disown_create by done.
  fold (disown (foldl create_log (disown m (omap snd p)) ks) (omap snd q)).
  split.
  - intros Hr. eexists. split; [done|]. unfold split_tx. cbn. fold ks.
    destruct (upsert_holdings _ t ks); cbn in *; [|done..]. injection Hr as <-. f_equal. unfold set_commit_logs, set_acks, set_ackeds. cbn. f_equal.
    rewrite map_filter_filter. apply map_filter_ext. intros k r _. cbn. rewrite elem_of_app. tauto.
  - intros (db1 & [= <-] & Hr). unfold split_tx in Hr. cbn in Hr. fold ks in Hr.
    destruct (upsert_holdings _ t ks); cbn in *; [|done..]. injection Hr as <-. f_equal. unfold set_commit_logs, set_acks, set_ackeds. cbn. f_equal.
    rewrite map_filter_filter. apply map_filter_ext. intros k r _. cbn. rewrite elem_of_app. tauto.
Qed.

(** What an ack asks for. *)
Lemma plan_inv db e p : plan db e = Ok p →
  snd p = (if local db (ack_from (fst e)) then None else Some (ack_id e)) ∧
  (∀ h, fst p = Some h → local db (ack_to (fst e)) = true ∧ held_already (ackeds db) e = false ∧ hl_Key h = fst e ∧
     ak_DocumentID (hl_Row h) = hl_ID h ∧ ak_CreatedAt (hl_Row h) = ak_CreatedAt (snd e) ∧ ak_Valid (hl_Row h) = ak_Valid (snd e) ∧
     cl_Owner (hl_Log h) = ack_to (fst e)) ∧
  (local db (ack_to (fst e)) = true → fst p = None → held_already (ackeds db) e = true).
Proof.
  unfold plan, plan_ack. intros (h & Hh & [= <-])%rbind_ok_inv. cbn [fst snd]. split; [done|].
  destruct (local db (ack_to (fst e))) eqn:El; [|split; [by injection Hh as <-|done]].
  destruct e as [key ack]. unfold plan_holding in Hh. apply rbind_ok_inv in Hh as (proof & _ & Hh).
  apply rbind_ok_inv in Hh as (acked & _ & Hh). apply rbind_ok_inv in Hh as (id & _ & Hh).
  destruct (held_already (ackeds db) (key, ack)) eqn:Eh; [injection Hh as <-; split; done|].
  apply rbind_ok_inv in Hh as (bytes & _ & [= <-]). split; [|done]. intros h [= <-]. done.
Qed.

Definition same_text (c c' : CommitLog) : Prop := cl_IP c' = cl_IP c ∧ cl_Document c' = cl_Document c ∧ cl_Proof c' = cl_Proof c.

Lemma plan_ext db db' e : same_local db db' → same_text (log_of db (ack_id e)) (log_of db' (ack_id e)) →
  ackeds db' !! fst e = ackeds db !! fst e → plan db' e = plan db e.
Proof.
  intros Hl (E1 & E2 & E3) Ea. unfold plan, plan_ack. rewrite !Hl. destruct e as [key ack]. unfold plan_holding, held_already. cbn [fst snd ack_id] in *.
  unfold ack_id in *. cbn [snd] in *. by rewrite E1, E2, E3, Ea.
Qed.

Lemma upsert_holding_inv logs t h t' : upsert_holding logs t h = Ok t' →
  (t' = t ∧ ∃ o, t !! hl_Key h = Some o ∧ ak_CreatedAt (hl_Row h) <= ak_CreatedAt o) ∨
  (t' = <[hl_Key h := created_ack (hl_Row h)]> t ∧ is_Some (logs !! ak_DocumentID (hl_Row h)) ∧
   (∀ o, t !! hl_Key h = Some o → ak_CreatedAt o < ak_CreatedAt (hl_Row h)) ∧
   ∀ k r, t !! k = Some r → ak_DocumentID r = ak_DocumentID (hl_Row h) → k = hl_Key h).
Proof using Type.
  unfold upsert_holding, upsert_row. destruct (t !! hl_Key h) as [o|] eqn:E; [destruct (Z.ltb_spec (ak_CreatedAt o) (ak_CreatedAt (created_ack (hl_Row h)))) as [Hlt|Hge]|].
  2: { intros [= <-]. left. split; [done|]. exists o. by split. }
  all: destruct (existsb _ _) eqn:Ex; [done|]; cbn; destruct (logs !! _) eqn:El; [|done]; intros [= <-]; right; split_and!; [done|by eexists|intros o' Ho'; simplify_eq; exact Hlt|].
  all: intros k r Hr Hid; apply dec_stable; intros Hne; apply not_true_iff_false in Ex; apply Ex, existsb_exists; exists (k, r).
  all: split; [by apply list_elem_of_In, elem_of_map_to_list|]; cbn; by rewrite Hid, String.eqb_refl, bool_decide_eq_false_2.
Qed.

Lemma upsert_holdings_out logs t hs t' k : upsert_holdings logs t hs = Ok t' → k ∉ hl_Key <$> hs → t' !! k = t !! k.
Proof using Type.
  revert t. induction hs as [|h hs IH]; intros t; cbn; [by intros [= <-]|]. intros (t1 & Ht1 & Hr)%rbind_ok_inv [Hk Hks]%not_elem_of_cons.
  rewrite (IH t1 Hr Hks). apply upsert_holding_inv in Ht1 as [[-> _]|[-> _]]; [done|]. by rewrite lookup_insert_ne.
Qed.

(** A row of the table is replaced by newer ones only. *)
Lemma upsert_holdings_grow logs t hs t' k r : upsert_holdings logs t hs = Ok t' → t !! k = Some r →
  ∃ r', t' !! k = Some r' ∧ ak_CreatedAt r <= ak_CreatedAt r'.
Proof using Type.
  revert t r. induction hs as [|h hs IH]; intros t r; cbn; [intros [= <-] Hr; by exists r|].
  intros (t1 & Ht1 & Hr)%rbind_ok_inv Hk. apply upsert_holding_inv in Ht1 as [[-> _]|(-> & _ & Hnew & _)]; [by eapply IH|].
  destruct (decide (k = hl_Key h)) as [->|Hne].
  - specialize (Hnew r Hk). destruct (IH _ _ Hr (lookup_insert_eq _ _ _)) as (r' & ? & Hle). exists r'. split; [done|]. cbn in Hle. lia.
  - apply (IH _ r Hr). by rewrite lookup_insert_ne.
Qed.

Lemma upsert_holdings_in logs t hs t' h : upsert_holdings logs t hs = Ok t' → h ∈ hs →
  ∃ r', t' !! hl_Key h = Some r' ∧ ak_CreatedAt (hl_Row h) <= ak_CreatedAt r'.
Proof using Type.
  revert t. induction hs as [|h' hs IH]; intros t; cbn; [by intros _ ?%elem_of_nil|].
  intros (t1 & Ht1 & Hr)%rbind_ok_inv [->|Hh]%elem_of_cons; [|by eapply IH].
  apply upsert_holding_inv in Ht1 as [[-> (o & Ho & Hle)]|(-> & _)].
  - destruct (upsert_holdings_grow _ _ _ _ _ _ Hr Ho) as (r' & ? & ?). exists r'. split; [done|]. lia.
  - destruct (upsert_holdings_grow _ _ _ _ _ _ Hr (lookup_insert_eq _ _ _)) as (r' & ? & Hle). by exists r'.
Qed.

(** *** One ack at a time *)

Definition ack_rows (db : DB) : list (triple * AckRow) := map_to_list (acks db).
Definition acks_wf (db : DB) : Prop := ack_table_wf (commit_logs db) (acks db).
Notation taken_acks := (taken ack_id ack_rows).

Lemma NoDup_acks db : acks_wf db → NoDup (ack_id <$> ack_rows db).
Proof.
  intros [_ Hu]. unfold ack_rows. pose proof (NoDup_map_to_list (acks db)) as Hn.
  assert (∀ e, e ∈ map_to_list (acks db) → acks db !! fst e = Some (snd e)) as Hl by (intros [k r] Hr; by apply elem_of_map_to_list in Hr).
  revert Hn Hl. generalize (map_to_list (acks db)) as l. induction l as [|e l IH]; cbn; [constructor|].
  intros [He Hn]%NoDup_cons Hl. apply NoDup_cons. split; [|by apply IH; [|intros e' He'; apply Hl; right]].
  intros (e' & E & He')%list_elem_of_fmap. apply He. assert (e = e') as ->; [|done].
  pose proof (Hl e ltac:(by left)) as H1'. pose proof (Hl e' ltac:(by right)) as H2'.
  destruct e as [k r], e' as [k' r']. cbn in *. pose proof (Hu _ _ _ _ H1' H2' E) as ->. congruence.
Qed.

Lemma taken_lookup l db e : taken_acks l db → e ∈ l → acks db !! fst e = Some (snd e).
Proof. intros [Ht _] He. specialize (Ht e He). destruct e as [k r]. by apply elem_of_map_to_list in Ht. Qed.

(** Acks with different documents have different keys. *)
Lemma ack_keys_ne db e e' : acks db !! fst e = Some (snd e) → acks db !! fst e' = Some (snd e') → ack_id e ≠ ack_id e' → fst e ≠ fst e'.
Proof. intros H1' H2' Hne E. apply Hne. unfold ack_id. congruence. Qed.

(** The plans of some acks are about these acks. *)
Lemma plans_about db l plans : traverse (plan db) l = Ok plans →
  Forall plan_ok plans ∧
  (∀ h, h ∈ omap fst plans → ∃ e, e ∈ l ∧ hl_Key h = fst e ∧ local db (ack_to (fst e)) = true ∧
     cl_Owner (hl_Log h) = ack_to (fst e) ∧ ak_CreatedAt (hl_Row h) = ak_CreatedAt (snd e)) ∧
  (∀ d, d ∈ omap snd plans ↔ ∃ e, e ∈ l ∧ d = ack_id e ∧ local db (ack_from (fst e)) = false).
Proof.
  intros Hf%traverse_ok. split_and!.
  - apply Forall_forall. intros p Hp. destruct (pair_of_right _ _ _ _ Hf Hp) as (e & He & Hpl). apply plan_inv in Hpl as (_ & Hh & _).
    intros h Eh. by apply (Hh h Eh).
  - intros h (p & Hp & Eh)%list_elem_of_omap. destruct (pair_of_right _ _ _ _ Hf Hp) as (e & He & Hpl). apply plan_inv in Hpl as (_ & Hh & _).
    exists e. split; [done|]. destruct (Hh h Eh) as (? & _ & ? & _ & ? & _ & ?). done.
  - intros d. rewrite list_elem_of_omap. split.
    + intros (p & Hp & Ed). destruct (pair_of_right _ _ _ _ Hf Hp) as (e & He & Hpl). apply plan_inv in Hpl as (Es & _).
      exists e. rewrite Ed in Es. destruct (local db _) eqn:El; by simplify_eq.
    + intros (e & He & -> & El). destruct (pair_of_left _ _ _ _ Hf He) as (p & Hp & Hpl). apply plan_inv in Hpl as (Es & _).
      exists p. by rewrite El in Es.
Qed.

(** What the acks leave of the tables. *)
Record split_off (l : list (triple * AckRow)) (db db' : DB) : Prop := {
  so_local : same_local db db';
  so_entities : entities db' = entities db;
  so_acks : ∀ k r, acks db' !! k = Some r ↔ acks db !! k = Some r ∧ ¬ ((k, r) ∈ l ∧ local db (ack_from k) = false);
  so_ackeds : ∀ k, k ∉ fst <$> l → ackeds db' !! k = ackeds db !! k;
  so_old : ∀ d c, commit_logs db !! d = Some c →
    commit_logs db' !! d = Some c ∨
    (commit_logs db' !! d = Some (disown_log c) ∧ ∃ e, e ∈ l ∧ d = ack_id e ∧ local db (ack_from (fst e)) = false);
  so_new : ∀ d c, commit_logs db !! d = None → commit_logs db' !! d = Some c → ∃ e, e ∈ l ∧ local db (ack_to (fst e)) = true ∧ cl_Owner c = ack_to (fst e);
}.

Lemma run_acks_split l db db' : acks_wf db → taken_acks l db → run_acks l db = Ok db' → split_off l db db'.
Proof.
  intros [Hfk Hu] Ht (plans & Hp & Hr)%rbind_ok_inv. destruct (plans_about _ _ _ Hp) as (Hok & Hhold & Hdis).
  pose proof (split_tx_inv _ _ _ Hr) as (Hups & Ha & Hl & He & _).
  assert (∀ k r, acks db !! k = Some r → ak_DocumentID r ∈ omap snd plans ↔ (k, r) ∈ l ∧ local db (ack_from k) = false) as Hgone.
  { intros k r Hk. rewrite Hdis. split.
    - intros (e & Hin & E & Hloc). pose proof (taken_lookup _ _ _ Ht Hin) as Hek. pose proof (Hu _ _ _ _ Hk Hek E) as Ekey.
      destruct e as [k' r']. cbn in *. subst k'. assert (r = r') as -> by congruence. done.
    - intros [Hin Hloc]. by exists (k, r). }
  split.
  - by apply same_local_entities.
  - done.
  - intros k r. rewrite Ha, map_lookup_filter_Some. cbn. split; intros [Hk Hn]; (split; [done|]); by rewrite (Hgone k r Hk) in *.
  - intros k Hk. eapply upsert_holdings_out; [exact Hups|]. intros (h & -> & Hh)%list_elem_of_fmap.
    destruct (Hhold h Hh) as (e & Hin & Ek & _). apply Hk. rewrite Ek. by apply list_elem_of_fmap_2.
  - intros d c Hc. rewrite Hl, disown_lookup, (create_logs_old _ _ _ _ Hc). cbn. case_decide as Hd; [|by left]. right. split; [done|].
    by apply Hdis in Hd.
  - intros d c Hnone. rewrite Hl, disown_lookup. intros (c0 & Hc0 & ->)%fmap_Some.
    destruct (create_logs_new _ _ _ _ Hnone Hc0) as (h & Hh & Hid & <-). destruct (Hhold h Hh) as (e & Hin & _ & Hto & Hown & _).
    exists e. split; [done|]. split; [done|]. rewrite decide_False; [done|]. intros (e' & Hin' & -> & _)%Hdis.
    destruct (Hfk _ _ (taken_lookup _ _ _ Ht Hin')) as [c' Hc']. unfold ack_id in Hnone. congruence.
Qed.

Lemma split_logs l db db' d c : split_off l db db' → commit_logs db !! d = Some c → ∃ c', commit_logs db' !! d = Some c' ∧ same_text c c'.
Proof.
  intros Hs Hc. destruct (so_old _ _ _ Hs _ _ Hc) as [Hc'|[Hc' _]]; eexists; (split; [done|]); done.
Qed.

Lemma run_acks_wf l db db' : acks_wf db → taken_acks l db → run_acks l db = Ok db' → acks_wf db'.
Proof.
  intros Hw Ht Hr. pose proof (run_acks_split _ _ _ Hw Ht Hr) as Hs. destruct Hw as [Hfk Hu]. split.
  - intros k r [Hk _]%(so_acks _ _ _ Hs). destruct (Hfk _ _ Hk) as [c Hc]. destruct (split_logs _ _ _ _ _ Hs Hc) as (c' & ? & _). by exists c'.
  - intros k k' r r' [Hk _]%(so_acks _ _ _ Hs) [Hk' _]%(so_acks _ _ _ Hs). by apply Hu.
Qed.

Lemma run_acks_frame l db db' e : acks_wf db → taken_acks l db → run_acks l db = Ok db' → ack_id e ∉ ack_id <$> l →
  e ∈ ack_rows db' ↔ e ∈ ack_rows db.
Proof.
  intros Hw Ht Hr Hn. pose proof (run_acks_split _ _ _ Hw Ht Hr) as Hs. destruct e as [k r]. unfold ack_rows.
  rewrite !elem_of_map_to_list, (so_acks _ _ _ Hs). split; [by intros [? _]|]. intros Hk. split; [done|]. intros [Hin _].
  apply Hn. by apply (list_elem_of_fmap_2 ack_id) in Hin.
Qed.

(** The acks left ask for the same after the first ones. *)
Lemma plan_after l k db db1 e : acks_wf db → taken_acks (l ++ k) db → split_off l db db1 → e ∈ k → plan db1 e = plan db e.
Proof.
  intros [Hfk Hu] Ht Hs He. assert (e ∈ l ++ k) as Hin by set_solver. pose proof (taken_lookup _ _ _ Ht Hin) as Hek.
  apply plan_ext; [apply (so_local _ _ _ Hs)| |].
  - destruct (Hfk _ _ Hek) as [c Hc]. destruct (split_logs _ _ _ _ _ Hs Hc) as (c' & Hc' & Htext). unfold log_of, ack_id. by rewrite Hc, Hc'.
  - apply (so_ackeds _ _ _ Hs). intros (e' & E & He')%list_elem_of_fmap. assert (e' ∈ l ++ k) as Hin' by set_solver.
    pose proof (taken_lookup _ _ _ Ht Hin') as Hek'. apply (ack_keys_ne db e e' Hek Hek'); [|done].
    intros Ei. destruct Ht as [_ Hn]. by apply (sorted_keys_ne ack_id l k e' e Hn).
Qed.

Lemma run_acks_app l k db db' : acks_wf db → taken_acks (l ++ k) db →
  run_acks (l ++ k) db = Ok db' ↔ ∃ db1, run_acks l db = Ok db1 ∧ run_acks k db1 = Ok db'.
Proof.
  intros Hw Ht. assert (taken_acks l db) as Htl by (by apply (taken_app ack_id ack_rows l k)).
  assert (∀ plans, traverse (plan db) l = Ok plans → (∀ d, d ∈ omap snd plans → is_Some (commit_logs db !! d)) ∧ Forall plan_ok plans) as Hplans.
  { intros plans Hp. destruct (plans_about _ _ _ Hp) as (Hok & _ & Hdis). split; [|done]. intros d (e & He & -> & _)%Hdis.
    apply (proj1 Hw (fst e)). by apply (taken_lookup l). }
  assert (∀ db1 plans, split_off l db db1 → traverse (plan db1) k = Ok plans ↔ traverse (plan db) k = Ok plans) as Hsame.
  { intros db1 plans Hs. split; intros Hp%traverse_ok; apply traverse_Forall2.
    all: revert Hp; assert (∀ e, e ∈ k → plan db1 e = plan db e) as Hext by (intros e; by eapply plan_after).
    all: clear -Hext; revert Hext; induction k as [|e k IH] in plans |- *; intros Hext Hp; inversion Hp; subst; constructor.
    all: first [by rewrite <- Hext by left | by rewrite Hext by left | apply IH; [|done]; intros; apply Hext; by right]. }
  split.
  - intros (plans & Hp & Hr)%rbind_ok_inv. apply traverse_ok in Hp as Hf. apply Forall2_app_inv_l in Hf as (p & q & Hfp & Hfq & ->).
    apply traverse_Forall2 in Hfp, Hfq. destruct (Hplans p Hfp) as [Hd Hok].
    apply split_tx_app in Hr as (db1 & H1' & H2'); [|done..]. exists db1.
    assert (run_acks l db = Ok db1) as Hl by (unfold run_acks; by rewrite Hfp). split; [done|].
    unfold run_acks. pose proof (run_acks_split _ _ _ Hw Htl Hl) as Hs. by rewrite (proj2 (Hsame db1 q Hs) Hfq).
  - intros (db1 & Hl & (q & Hq & H2')%rbind_ok_inv). pose proof (run_acks_split _ _ _ Hw Htl Hl) as Hs.
    apply rbind_ok_inv in Hl as (p & Hp & H1'). apply (Hsame db1 q Hs) in Hq. destruct (Hplans p Hp) as [Hd Hok].
    unfold run_acks. apply traverse_ok in Hp, Hq. pose proof (Forall2_app Hp Hq) as Hf. apply traverse_Forall2 in Hf. rewrite Hf. cbn.
    apply split_tx_app; [done..|]. by exists db1.
Qed.

Lemma acks_gone s r s' : cached s → acks_wf (rp_db s) →
  in_batches ack_id (λ db, map_to_list (acks db)) (split_acks fqdn false fails clock) s = (r, s') →
  gone fqdn ack_id ack_rows run_acks nothing_fails "" s r s'.
Proof.
  intros Hc Hw Hr.
  apply (in_batches_gone fqdn ack_id ack_rows (split_acks fqdn false fails clock) run_acks acks_wf nothing_fails); [| | | | | |done..].
  - apply NoDup_acks.
  - intros db. by apply (split_tx_nothing [] db).
  - intros l k db db'. apply run_acks_app.
  - apply run_acks_wf.
  - apply run_acks_frame.
  - intros i l s0 Hc0 _ _ _. apply split_acks_spec, Hc0.
Qed.

(** *** Gone through again *)

Lemma plan_held db db1 e p : plan db e = Ok p → same_local db db1 → same_text (log_of db (ack_id e)) (log_of db1 (ack_id e)) →
  local db (ack_from (fst e)) = true → (local db (ack_to (fst e)) = true → held_already (ackeds db1) e = true) → plan db1 e = Ok (None, None).
Proof.
  unfold plan, plan_ack. intros Hp Hl (E1 & E2 & E3) Hf Hh. rewrite !Hl. apply rbind_ok_inv in Hp as (h & Hp & _). rewrite Hf.
  destruct (local db (ack_to (fst e))); [|done]. destruct e as [key ack]. unfold ack_id, plan_holding in *. cbn [fst snd] in *.
  rewrite E2, E3. apply rbind_ok_inv in Hp as (proof & -> & Hp). cbn. apply rbind_ok_inv in Hp as (acked & Ha & Hp). rewrite Ha. cbn.
  apply rbind_ok_inv in Hp as (id & -> & _). cbn. by rewrite Hh.
Qed.

Lemma run_acks_nothing l db : (∀ e, e ∈ l → plan db e = Ok (None, None)) → run_acks l db = Ok db.
Proof.
  intros Hl. assert (∃ plans, traverse (plan db) l = Ok plans ∧ omap fst plans = [] ∧ omap snd plans = []) as (plans & Hp & E1 & E2).
  { induction l as [|e l IH]; [by exists []|]. cbn. rewrite (Hl e ltac:(by left)). destruct IH as (plans & -> & E1 & E2); [intros; apply Hl; by right|].
    by exists ((None, None) :: plans). }
  unfold run_acks. rewrite Hp. by apply split_tx_nothing.
Qed.

(** An ack a run went through has a holding at least as new, if its target is local. *)
Lemma held_after l db db1 e : run_acks l db = Ok db1 → e ∈ l → local db (ack_to (fst e)) = true → held_already (ackeds db1) e = true.
Proof.
  intros (plans & Hp & Hr)%rbind_ok_inv He Hto. apply traverse_ok in Hp. destruct (pair_of_left _ _ _ _ Hp He) as (p & Hin & Hpl).
  pose proof (split_tx_inv _ _ _ Hr) as (Hups & _). apply plan_inv in Hpl as (_ & Hsome & Hnone). unfold held_already.
  destruct (fst p) as [h|] eqn:Eh.
  - destruct (Hsome h eq_refl) as (_ & _ & Hk & _ & Hcr & _). destruct (upsert_holdings_in _ _ _ _ h Hups) as (r & Hrow & Hle).
    { apply list_elem_of_omap. by exists p. }
    rewrite <- Hk, Hrow. apply negb_true_iff, Z.ltb_ge. lia.
  - specialize (Hnone Hto eq_refl). unfold held_already in Hnone. destruct (ackeds db !! fst e) as [o|] eqn:Eo; [|done].
    destruct (upsert_holdings_grow _ _ _ _ _ _ Hups Eo) as (r & -> & Hle). apply negb_true_iff, Z.ltb_ge in Hnone. apply negb_true_iff, Z.ltb_ge. lia.
Qed.

(** The acks a run went through ask for nothing more. *)
Lemma plan_done l db db1 e : acks_wf db → taken_acks l db → run_acks l db = Ok db1 → e ∈ l → local db (ack_from (fst e)) = true →
  plan db1 e = Ok (None, None).
Proof.
  intros Hw Ht Hr He Hf. pose proof (run_acks_split _ _ _ Hw Ht Hr) as Hs. pose proof (taken_lookup _ _ _ Ht He) as Hek.
  pose proof (held_after _ _ _ _ Hr He) as Hheld. apply rbind_ok_inv in Hr as (plans & Hp & _). apply traverse_ok in Hp.
  destruct (pair_of_left _ _ _ _ Hp He) as (p & Hin & Hpl). apply (plan_held db db1 e p Hpl); [apply (so_local _ _ _ Hs)| |done|done].
  destruct (proj1 Hw _ _ Hek) as [c Hc]. destruct (split_logs _ _ _ _ _ Hs Hc) as (c' & Hc' & Htext). unfold log_of, ack_id. by rewrite Hc, Hc'.
Qed.

Definition kept_acks (db : DB) (l : list (triple * AckRow)) : list (triple * AckRow) := List.filter (λ e, local db (ack_from (fst e))) l.

Lemma acks_left l k db db1 : acks_wf db → from ack_id ack_rows db "" = l ++ k → run_acks l db = Ok db1 →
  from ack_id ack_rows db1 "" = kept_acks db l ++ k.
Proof.
  intros Hw E Hr.
  assert (taken_acks (l ++ k) db) as Ht by (apply (from_taken ack_id ack_rows acks_wf NoDup_acks l k db "" Hw E)).
  assert (taken_acks l db) as Htl by (by apply (taken_app ack_id ack_rows l k)). pose proof (run_acks_split _ _ _ Hw Htl Hr) as Hs.
  assert (StronglySorted (ordering (keyed ack_id) "") (l ++ k)) as Hsort by (rewrite <- E; apply sorted_from_sorted).
  assert (NoDup (ack_id <$> l ++ k)) as Hn by apply Ht. rewrite fmap_app in Hn. apply NoDup_app in Hn as (Hn1 & Hn2 & Hn3).
  apply (sorted_unique ack_id).
  - apply NoDup_sorted, NoDup_acks. by eapply run_acks_wf.
  - rewrite fmap_app. apply NoDup_app. split_and!; [|intros d (e & -> & [He _]%elem_of_filter_b)%list_elem_of_fmap; by apply Hn2, list_elem_of_fmap_2|done].
    clear -Hn1. unfold kept_acks. induction l as [|e l IH]; cbn in *; [constructor|]. apply NoDup_cons in Hn1 as [He Hl]. destruct (local db _); [|auto].
    cbn. apply NoDup_cons. split; [|auto]. intros (e' & E & [He' _]%elem_of_filter_b)%list_elem_of_fmap. apply He. rewrite E. by apply list_elem_of_fmap_2.
  - intros e. unfold from, kept_acks. rewrite elem_of_sorted, elem_of_app, elem_of_filter_b. unfold beyond. cbn [orb]. destruct e as [key r].
    unfold ack_rows. rewrite elem_of_map_to_list, (so_acks _ _ _ Hs). cbn [fst].
    assert ((key, r) ∈ l ++ k ↔ acks db !! key = Some r) as Hin.
    { rewrite <- E. unfold from. rewrite elem_of_sorted. unfold ack_rows, beyond. rewrite elem_of_map_to_list. naive_solver. }
    rewrite elem_of_app in Hin. destruct (local db (ack_from key)) eqn:El; split.
    + intros [[Hk _] _]. apply Hin in Hk as [?|?]; auto.
    + intros [[? _]|?]; (split; [|done]); (split; [apply Hin; auto|by intros [_ ?]]).
    + intros [[Hk Hnl] _]. apply Hin in Hk as [?|?]; [by destruct Hnl|by right].
    + intros [[_ ?]|Hk]; [done|]. split; [|done]. split; [apply Hin; by right|]. intros [Hl _].
      apply (Hn2 (ack_id (key, r))); by apply list_elem_of_fmap_2.
  - apply sorted_from_sorted.
  - apply StronglySorted_app in Hsort as (Hlk & Hsl & Hsk). apply StronglySorted_app. split_and!; [|by apply StronglySorted_filter_b|done].
    intros x y [Hx _]%elem_of_filter_b Hy. by apply Hlk.
Qed.

(** Going through the acks that are left does what was left to do. *)
Lemma run_acks_resumed l k db db1 db2 : acks_wf db → from ack_id ack_rows db "" = l ++ k → run_acks (l ++ k) db = Ok db2 →
  run_acks l db = Ok db1 → run_acks (from ack_id ack_rows db1 "") db1 = Ok db2.
Proof.
  intros Hw E H2' H1'.
  assert (taken_acks (l ++ k) db) as Ht by (apply (from_taken ack_id ack_rows acks_wf NoDup_acks l k db "" Hw E)).
  assert (taken_acks l db) as Htl by (by apply (taken_app ack_id ack_rows l k)).
  assert (acks_wf db1) as Hw1 by by eapply run_acks_wf.
  apply run_acks_app in H2' as (db1' & H1'' & H2'); [|done..]. rewrite H1' in H1''. injection H1'' as <-.
  rewrite (acks_left l k db db1) by done. apply run_acks_app; [done| |].
  - apply (from_taken ack_id ack_rows acks_wf NoDup_acks _ _ db1 "" Hw1). by apply acks_left.
  - exists db1. split; [|done]. apply run_acks_nothing. intros e [He Hf]%elem_of_filter_b. by apply (plan_done l db db1 e).
Qed.

(** *** A complete run *)

Definition all_owners (db : DB) : DB := run_owners (from fst unowned_logs db "") db.
Definition all_times (db : DB) : DB := run_times (from fst undated_entities db "") db.
Definition all_acks (db : DB) : result DB := run_acks (from ack_id ack_rows db "") db.
Definition complete (db : DB) : result DB := all_acks (all_times (all_owners db)).

Lemma owners_taken l k db : from fst unowned_logs db "" = l ++ k → taken fst unowned_logs l db.
Proof. intros E. apply (taken_app fst unowned_logs l k), (from_taken fst unowned_logs (λ _, True) (λ db _, NoDup_unowned db) l k db "" I E). Qed.

Lemma times_taken l k db : from fst undated_entities db "" = l ++ k → taken fst undated_entities l db.
Proof. intros E. apply (taken_app fst undated_entities l k), (from_taken fst undated_entities (λ _, True) (λ db _, NoDup_undated db) l k db "" I E). Qed.

Lemma all_owners_logs db k : commit_logs (all_owners db) !! k = (λ c, if String.eqb (cl_Owner c) "" then settle db k c else c) <$> commit_logs db !! k.
Proof.
  unfold all_owners. rewrite run_owners_logs by (apply (owners_taken _ []); by rewrite app_nil_r).
  destruct (commit_logs db !! k) as [c|] eqn:Hc; [|done]. cbn. f_equal.
  assert (k ∈ (from fst unowned_logs db "").*1 ↔ cl_Owner c = "") as Hk.
  { rewrite list_elem_of_fmap. split.
    - intros ([k' c'] & -> & Hin). unfold from in Hin. apply elem_of_sorted in Hin as [[Hc' Ho]%elem_of_unowned _]. cbn in *. congruence.
    - intros Ho. exists (k, c). split; [done|]. unfold from. apply elem_of_sorted. split; [by apply elem_of_unowned|done]. }
  destruct (String.eqb_spec (cl_Owner c) "") as [Ho|Ho]; [by rewrite decide_True by by apply Hk|]. rewrite decide_False; [done|]. by rewrite Hk.
Qed.

Lemma settle_cases db k c : (∃ o, choice_of db (k, c) = Some o ∧ o ≠ "" ∧ settle db k c = set_owner o c) ∨ (choice_of db (k, c) = None ∧ settle db k c = c).
Proof.
  unfold settle, update_with. destruct (choice_of db (k, c)) as [o|] eqn:E; [left|by right]. exists o. split_and!; [done| |done].
  by eapply choose_owner_some.
Qed.

Lemma owners_resumed l k db : from fst unowned_logs db "" = l ++ k → all_owners (run_owners l db) = all_owners db.
Proof.
  intros E. pose proof (owners_taken _ _ _ E) as Ht.
  assert (commit_logs (all_owners (run_owners l db)) = commit_logs (all_owners db)) as Hl.
  { apply map_eq. intros j. rewrite !all_owners_logs, run_owners_logs by done. destruct (commit_logs db !! j) as [c|] eqn:Hc; [|done]. cbn. f_equal.
    change (settle (run_owners l db)) with (settle db). case_decide as Hj; [|done].
    assert (cl_Owner c = "") as Ho.
    { apply list_elem_of_fmap in Hj as ([j' c'] & -> & Hin). apply taken_logs in Ht as [_ Ht]. destruct (Ht _ Hin) as [Hc' Ho]. cbn in *. congruence. }
    rewrite Ho. cbn. destruct (settle_cases db j c) as [(o & Hch & Hne & ->)|[Hch ->]]; cbn.
    - apply String.eqb_neq in Hne. by rewrite Hne.
    - rewrite Ho. cbn. unfold settle, update_with. by rewrite Hch. }
  unfold all_owners in *. unfold run_owners in *. unfold set_commit_logs in *. cbn in *. by rewrite Hl.
Qed.

(** Every log that has no owner is one no owner is found for. *)
Definition settled (db : DB) : Prop := ∀ k c, commit_logs db !! k = Some c → cl_Owner c = "" → choice_of db (k, c) = None.

Lemma all_owners_settled db : settled (all_owners db).
Proof.
  intros k c. rewrite all_owners_logs. intros (c0 & Hc0 & ->)%fmap_Some. change (choice_of (all_owners db)) with (choice_of db).
  destruct (String.eqb_spec (cl_Owner c0) "") as [Ho|Ho]; [|done]. destruct (settle_cases db k c0) as [(o & _ & Hne & ->)|[Hch ->]]; [done|done].
Qed.

Lemma all_owners_id db : settled db → all_owners db = db.
Proof.
  intros Hs. assert (commit_logs (all_owners db) = commit_logs db) as Hl.
  { apply map_eq. intros k. rewrite all_owners_logs. destruct (commit_logs db !! k) as [c|] eqn:Hc; [|done]. cbn. f_equal.
    destruct (String.eqb_spec (cl_Owner c) "") as [Ho|]; [|done]. unfold settle, update_with. by rewrite (Hs k c Hc Ho). }
  unfold all_owners, run_owners, set_commit_logs in *. cbn in *. rewrite Hl. by destruct db.
Qed.

Lemma all_times_entities db k : entities (all_times db) !! k = (λ e, if er_CreatedAt e =? epoch then date db k e else e) <$> entities db !! k.
Proof.
  unfold all_times. rewrite run_times_entities by (apply (times_taken _ []); by rewrite app_nil_r).
  destruct (entities db !! k) as [c|] eqn:Hc; [|done]. cbn. f_equal.
  assert (k ∈ (from fst undated_entities db "").*1 ↔ er_CreatedAt c = epoch) as Hk.
  { rewrite list_elem_of_fmap. split.
    - intros ([k' c'] & -> & Hin). unfold from in Hin. apply elem_of_sorted in Hin as [[Hc' Ho]%elem_of_undated _]. cbn in *. congruence.
    - intros Ho. exists (k, c). split; [done|]. unfold from. apply elem_of_sorted. split; [by apply elem_of_undated|done]. }
  destruct (Z.eqb_spec (er_CreatedAt c) epoch) as [Ho|Ho]; [by rewrite decide_True by by apply Hk|]. rewrite decide_False; [done|]. by rewrite Hk.
Qed.

Lemma times_resumed l k db : from fst undated_entities db "" = l ++ k → all_times (run_times l db) = all_times db.
Proof.
  intros E. pose proof (times_taken _ _ _ E) as Ht.
  assert (entities (all_times (run_times l db)) = entities (all_times db)) as Hl.
  { apply map_eq. intros j. rewrite !all_times_entities, run_times_entities by done. destruct (entities db !! j) as [e|] eqn:He; [|done]. cbn. f_equal.
    change (date (run_times l db)) with (date db). case_decide as Hj; [|done].
    assert (er_CreatedAt e = epoch) as Ho.
    { apply list_elem_of_fmap in Hj as ([j' e'] & -> & Hin). apply Ht, elem_of_undated in Hin as [He' Ho]. cbn in *. congruence. }
    rewrite Ho. cbn. unfold date, update_with. change (created_of (run_times l db)) with (created_of db).
    destruct (created_of db (j, e)) as [t|] eqn:Et; cbn; [|rewrite Ho; cbn; by rewrite Et].
    destruct (t =? epoch); [|done]. change (created_of db (j, set_created t e)) with (created_of db (j, e)). by rewrite Et. }
  unfold all_times, run_times, set_entities in *. cbn in *. by rewrite Hl.
Qed.

Definition dated (db : DB) : Prop := ∀ k e t, entities db !! k = Some e → er_CreatedAt e = epoch → created_of db (k, e) = Some t → t = epoch.

Lemma all_times_dated db : dated (all_times db).
Proof.
  intros k e t. rewrite all_times_entities. intros (e0 & He0 & ->)%fmap_Some. change (created_of (all_times db)) with (created_of db).
  destruct (Z.eqb_spec (er_CreatedAt e0) epoch) as [Ho|Ho]; [|done]. unfold date, update_with.
  destruct (created_of db (k, e0)) as [t0|] eqn:E0; cbn; [|congruence].
  change (created_of db (k, set_created t0 e0)) with (created_of db (k, e0)). congruence.
Qed.

Lemma all_times_id db : dated db → all_times db = db.
Proof.
  intros Hd. assert (entities (all_times db) = entities db) as Hl.
  { apply map_eq. intros k. rewrite all_times_entities. destruct (entities db !! k) as [e|] eqn:He; [|done]. cbn. f_equal.
    destruct (Z.eqb_spec (er_CreatedAt e) epoch) as [Ho|]; [|done]. unfold date, update_with.
    destruct (created_of db (k, e)) as [t|] eqn:Et; [|done]. rewrite (Hd k e t He Ho Et), <- Ho. by destruct e. }
  unfold all_times, run_times, set_entities in *. cbn in *. rewrite Hl. by destruct db.
Qed.

(** ** The command *)

(** What a run may have done when it returns. *)
Inductive progress (db : DB) : DB → Prop :=
| SomeOwners l k : from fst unowned_logs db "" = l ++ k → progress db (run_owners l db)
| SomeTimes l k : from fst undated_entities (all_owners db) "" = l ++ k → progress db (run_times l (all_owners db))
| SomeAcks l k db' : from ack_id ack_rows (all_times (all_owners db)) "" = l ++ k →
    run_acks l (all_times (all_owners db)) = Ok db' → progress db db'.

Lemma run_owners_wf l db : taken fst unowned_logs l db → acks_wf db → acks_wf (run_owners l db).
Proof.
  intros Ht [Hfk Hu]. split; [|done]. intros k r Hk. rewrite run_owners_logs by done. apply fmap_is_Some. by apply (Hfk k).
Qed.

Lemma all_owners_wf db : acks_wf db → acks_wf (all_owners db).
Proof. apply run_owners_wf, (owners_taken _ []). by rewrite app_nil_r. Qed.

Lemma repair_progress s r s' : cached s → acks_wf (rp_db s) → repair legacy fqdn false fails clock s = (r, s') →
  progress (rp_db s) (rp_db s') ∧
  (is_ok r = true → complete (rp_db s) = Ok (rp_db s')) ∧
  (nothing_fails → ∀ db', complete (rp_db s) = Ok db' → is_ok r = true).
Proof.
  intros Hc Hw. unfold repair. destruct (in_batches fst unowned_logs (backfill_owners legacy fqdn false fails) s) as [r1 s1] eqn:E1.
  destruct (owners_stage _ _ _ Hc E1) as (Hc1 & l1 & k1 & Ef1 & Hd1 & Hout1). destruct Hout1 as [[-> ->]|[Hne Hn]].
  2: { unfold bindM at 1. rewrite E1. destruct r1 as [[]| |]; [done| |]; intros [= <- <-]; rewrite Hd1.
       all: split; [by eapply SomeOwners|]; split; [done|by intros ?%Hn]. }
  rewrite app_nil_r in Ef1. rewrite <- Ef1 in Hd1. change (rp_db s1 = all_owners (rp_db s)) in Hd1.
  rewrite (bindM_ok _ _ _ _ _ E1).
  destruct (in_batches fst undated_entities (backfill_timestamps false fails) s1) as [r2 s2] eqn:E2.
  destruct (times_stage _ _ _ Hc1 E2) as (Hc2 & l2 & k2 & Ef2 & Hd2 & Hout2). rewrite Hd1 in Ef2, Hd2. destruct Hout2 as [[-> ->]|[Hne Hn]].
  2: { unfold bindM at 1. rewrite E2. destruct r2 as [[]| |]; [done| |]; intros [= <- <-]; rewrite Hd2.
       all: split; [by eapply SomeTimes|]; split; [done|by intros ?%Hn]. }
  rewrite app_nil_r in Ef2. rewrite <- Ef2 in Hd2. change (rp_db s2 = all_times (all_owners (rp_db s))) in Hd2.
  rewrite (bindM_ok _ _ _ _ _ E2).
  destruct (in_batches ack_id (λ db, map_to_list (acks db)) (split_acks fqdn false fails clock) s2) as [r3 s3] eqn:E3.
  assert (acks_wf (rp_db s2)) as Hw2 by (rewrite Hd2; by apply (all_owners_wf (rp_db s))).
  destruct (acks_gone _ _ _ Hc2 Hw2 E3) as (l3 & k3 & Ef3 & Hr3 & Hc3 & Hout3). rewrite Hd2 in Ef3, Hr3, Hout3. destruct Hout3 as [[-> ->]|[Hne Hn]].
  - rewrite (bindM_ok _ _ _ _ _ E3). intros [= <- <-]. split; [by eapply SomeAcks|]. split; [|done]. intros _.
    rewrite app_nil_r in Ef3. unfold complete, all_acks. by rewrite Ef3.
  - unfold bindM. rewrite E3. destruct r3 as [[]| |]; [done| |]; intros [= <- <-]; (split; [by eapply SomeAcks|]); (split; [done|]).
    all: intros Hnf db' Hcomp; destruct (Hn Hnf db'); unfold complete, all_acks in Hcomp; by rewrite Ef3 in Hcomp.
Qed.

(** A database the repair may be run on: the rows of [acks] and [entities] have
    their logs, no entity is nameless, and the row of an ack whose author is
    not local names the author of its document. *)
Record repairable (db : DB) : Prop := {
  rp_acks : acks_wf db;
  rp_entities : ∀ c e, entities db !! c = Some e → is_Some (commit_logs db !! er_DocumentID e);
  rp_named : entities db !! "" = None;
  rp_raw : ∀ k r, acks db !! k = Some r → local db (ack_from k) = false → ∃ c doc, commit_logs db !! ak_DocumentID r = Some c ∧
    unmarshal_document (cl_Document c) = Ok doc ∧ is_ack_kind (Kind doc) = true ∧ Author doc = ack_from k;
}.

(** The kind read alone is the kind of the document. *)
Definition kinds_agree : Prop := ∀ s doc, unmarshal_document s = Ok doc → unmarshal_kind s = Ok (Kind doc).

Lemma choice_ext db db' k c c' : same_local db db' → cl_Document c' = cl_Document c → choice_of db' (k, c') = choice_of db (k, c).
Proof. intros Hl E. unfold choice_of. cbn. rewrite E. apply choose_owner_ext, Hl. Qed.

(** A log that is in a later database was in the earlier one, with its text, and the other way round. *)
Definition same_logs (db db' : DB) : Prop := ∀ k, match commit_logs db !! k, commit_logs db' !! k with
  | Some c, Some c' => same_text c c'
  | None, None => True
  | _, _ => False
  end.

Lemma run_owners_same l db : taken fst unowned_logs l db → same_logs db (run_owners l db).
Proof.
  intros Ht k. rewrite run_owners_logs by done. destruct (commit_logs db !! k) as [c|]; [|done]. cbn.
  case_decide; [|done]. destruct (settle_cases db k c) as [(o & _ & _ & ->)|[_ ->]]; done.
Qed.

Lemma same_logs_some db db' k c : same_logs db db' → commit_logs db !! k = Some c → ∃ c', commit_logs db' !! k = Some c' ∧ same_text c c'.
Proof. intros Hs Hc. specialize (Hs k). rewrite Hc in Hs. destruct (commit_logs db' !! k) as [c'|]; [by exists c'|done]. Qed.

Lemma repairable_same db db' : same_logs db db' → same_local db db' → acks db' = acks db →
  (∀ c, entities db' !! c = None ↔ entities db !! c = None) →
  (∀ c e', entities db' !! c = Some e' → ∃ e, entities db !! c = Some e ∧ er_DocumentID e' = er_DocumentID e) → repairable db → repairable db'.
Proof.
  intros Hs Hl Ha Hn He [[Hfk Hu] Hent Hname Hraw]. split.
  - split; rewrite Ha; [|done]. intros k r Hk. destruct (Hfk k r Hk) as [c Hc]. destruct (same_logs_some _ _ _ _ Hs Hc) as (c' & ? & _). by exists c'.
  - intros c e' (e & He0 & ->)%He. destruct (Hent _ _ He0) as [l Hlog]. destruct (same_logs_some _ _ _ _ Hs Hlog) as (c' & ? & _). by exists c'.
  - by apply Hn.
  - intros k r. rewrite Ha, Hl. intros Hk Hloc. destruct (Hraw k r Hk Hloc) as (c & doc & Hc & Hdoc & Hkind & Hauth).
    destruct (same_logs_some _ _ _ _ Hs Hc) as (c' & Hc' & (_ & Et & _)). exists c', doc. by rewrite Et.
Qed.

Lemma repairable_owners l db : taken fst unowned_logs l db → repairable db → repairable (run_owners l db).
Proof.
  intros Ht. apply repairable_same; [by apply run_owners_same|by apply same_local_entities|done|done|]. intros c e He. by exists e.
Qed.

Lemma repairable_times l db : taken fst undated_entities l db → repairable db → repairable (run_times l db).
Proof.
  intros Ht. apply repairable_same; [intros k; by destruct (commit_logs _ !! k)|apply run_times_local|done| |].
  - intros c. rewrite run_times_entities by done. by rewrite fmap_None.
  - intros c e'. rewrite run_times_entities by done. intros (e & He & ->)%fmap_Some. exists e. split; [done|].
    case_decide; [|done]. unfold date, update_with. by destruct (created_of db (c, e)).
Qed.

Lemma raw_ack_unchosen db k c doc : kinds_agree → unmarshal_document (cl_Document c) = Ok doc → is_ack_kind (Kind doc) = true →
  local db (Author doc) = false → choice_of db (k, c) = None.
Proof.
  intros Hkinds Hdoc Hk Hloc. unfold choice_of, choose_owner, documentKindOf. cbn. rewrite (Hkinds _ _ Hdoc), Hk.
  assert (commitOwnerOf (cl_Document c) = Author doc) as ->; [|by rewrite Hloc]. unfold commitOwnerOf. rewrite Hdoc, Hk. unfold is_ack_kind in Hk.
  apply orb_prop in Hk as [->%String.eqb_eq| ->%String.eqb_eq]; done.
Qed.

Lemma settled_after_acks l db db' : kinds_agree → repairable db → settled db → taken_acks l db → run_acks l db = Ok db' → settled db'.
Proof.
  intros Hkinds [Hw Hent Hname Hraw] Hset Ht Hr k c Hc Ho. pose proof (run_acks_split _ _ _ Hw Ht Hr) as Hs.
  destruct (commit_logs db !! k) as [c0|] eqn:Hc0.
  - destruct (so_old _ _ _ Hs _ _ Hc0) as [Hc'|(Hc' & e & He & -> & Hloc)]; rewrite Hc in Hc'; injection Hc' as ->.
    + rewrite (choice_ext db db' k c0 c0); [by apply Hset|apply (so_local _ _ _ Hs)|done].
    + rewrite (choice_ext db db' _ c0); [|apply (so_local _ _ _ Hs)|done].
      destruct (Hraw _ _ (taken_lookup _ _ _ Ht He) Hloc) as (c1 & doc & Hc1 & Hdoc & Hk & Hauth). unfold ack_id in *. rewrite Hc0 in Hc1. injection Hc1 as <-.
      eapply raw_ack_unchosen; [done|done|done|]. by rewrite Hauth.
  - destruct (so_new _ _ _ Hs _ _ Hc0 Hc) as (e & _ & Hto & Howner). exfalso. unfold is_local in Hto. rewrite <- Howner, Ho in Hto. by rewrite Hname in Hto.
Qed.

Lemma dated_after_acks l db db' : repairable db → dated db → taken_acks l db → run_acks l db = Ok db' → dated db'.
Proof.
  intros [Hw Hent _ _] Hd Ht Hr k e t. pose proof (run_acks_split _ _ _ Hw Ht Hr) as Hs. rewrite (so_entities _ _ _ Hs). intros He Hz.
  assert (created_of db' (k, e) = created_of db (k, e)) as ->; [|by apply Hd]. unfold created_of, log_of. cbn.
  destruct (Hent _ _ He) as [c Hc]. destruct (split_logs _ _ _ _ _ Hs Hc) as (c' & Hc' & (_ & Et & _)). rewrite Hc, Hc'. cbn. by rewrite Et.
Qed.

(** What a complete run leaves. *)
Record repaired (db db2 : DB) : Prop := {
  rd_acks : ∀ k r, acks db2 !! k = Some r ↔ acks db !! k = Some r ∧ local db (ack_from k) = true;
  rd_held : ∀ k r, acks db !! k = Some r → local db (ack_to k) = true → ∃ h, ackeds db2 !! k = Some h ∧ ak_CreatedAt r <= ak_CreatedAt h;
  rd_ackeds : ∀ k, acks db !! k = None → ackeds db2 !! k = ackeds db !! k;
  rd_logs : ∀ d c, commit_logs db !! d = Some c → ∃ c', commit_logs db2 !! d = Some c' ∧ same_text c c' ∧
    ((∃ k r, acks db !! k = Some r ∧ ak_DocumentID r = d ∧ local db (ack_from k) = false ∧ cl_Owner c' = "" ∧ cl_GcCandidate c' = true) ∨
     (cl_GcCandidate c' = cl_GcCandidate c ∧
      cl_Owner c' = if String.eqb (cl_Owner c) "" then default "" (choice_of db (d, c)) else cl_Owner c));
  rd_new : ∀ d c, commit_logs db !! d = None → commit_logs db2 !! d = Some c → local db (cl_Owner c) = true;
}.

Lemma complete_repaired db db2 : repairable db → complete db = Ok db2 → repaired db db2.
Proof.
  intros Hrep Hc. unfold complete, all_acks in Hc. set (A := all_owners db) in *. set (B := all_times A) in *.
  assert (acks_wf B) as Hw by apply (all_owners_wf db), Hrep.
  set (l := from ack_id ack_rows B "") in *. assert (taken_acks l B) as Ht.
  { rewrite <- (app_nil_r l). apply (from_taken ack_id ack_rows acks_wf NoDup_acks l [] B "" Hw). by rewrite app_nil_r. }
  assert (same_local db B) as Hloc by apply (run_times_local _ A).
  assert (∀ k r, (k, r) ∈ l ↔ acks db !! k = Some r) as Hl.
  { intros k r. unfold l, from. rewrite elem_of_sorted. unfold ack_rows. rewrite elem_of_map_to_list. unfold beyond. cbn. naive_solver. }
  pose proof (run_acks_split _ _ _ Hw Ht Hc) as Hs. split.
  - intros k r. rewrite (so_acks _ _ _ Hs), Hl, Hloc. change (acks B) with (acks db). destruct (local db (ack_from k)); naive_solver.
  - intros k r Hk Hto. apply Hl in Hk as Hin. pose proof (held_after _ _ _ _ Hc Hin) as Hh. rewrite Hloc in Hh. specialize (Hh Hto).
    unfold held_already in Hh. cbn in Hh. destruct (ackeds db2 !! k) as [h|]; [|done]. exists h. split; [done|]. by apply negb_true_iff, Z.ltb_ge in Hh.
  - intros k Hk. apply (so_ackeds _ _ _ Hs). intros ([k' r] & -> & Hin)%list_elem_of_fmap. apply Hl in Hin. cbn in Hk. congruence.
  - intros d c Hd. pose proof (all_owners_logs db d) as HA. rewrite Hd in HA. cbn in HA. change (commit_logs (all_owners db)) with (commit_logs B) in HA.
    set (c1 := if String.eqb (cl_Owner c) "" then settle db d c else c) in *.
    assert (same_text c c1 ∧ cl_GcCandidate c1 = cl_GcCandidate c ∧
      cl_Owner c1 = if String.eqb (cl_Owner c) "" then default "" (choice_of db (d, c)) else cl_Owner c) as (Ht1 & Hg1 & Ho1).
    { unfold c1. destruct (String.eqb_spec (cl_Owner c) "") as [Ho|Ho]; [|done].
      destruct (settle_cases db d c) as [(o & -> & _ & ->)|[-> ->]]; done. }
    destruct (so_old _ _ _ Hs _ _ HA) as [Hc'|(Hc' & [k r] & He & -> & Hf)]; eexists; (split; [exact Hc'|]); (split; [exact Ht1|]).
    + by right.
    + left. exists k, r. rewrite <- Hloc. split; [by apply Hl|]. done.
  - intros d c Hd Hd2. assert (commit_logs B !! d = None) as HB by (change (commit_logs B) with (commit_logs (all_owners db)); by rewrite all_owners_logs, Hd).
    destruct (so_new _ _ _ Hs _ _ HB Hd2) as (e & _ & Hto & ->). by rewrite Hloc in Hto.
Qed.

Lemma complete_resumed db db1 db2 : kinds_agree → repairable db → complete db = Ok db2 → progress db db1 → acks_wf db1 ∧ complete db1 = Ok db2.
Proof.
  intros Hkinds Hrep Hc Hp.
  assert (taken fst unowned_logs (from fst unowned_logs db "") db) as Hto by (apply (owners_taken _ []); by rewrite app_nil_r).
  assert (repairable (all_owners db)) as HrepA by by apply repairable_owners.
  assert (taken fst undated_entities (from fst undated_entities (all_owners db) "") (all_owners db)) as Htt by (apply (times_taken _ []); by rewrite app_nil_r).
  assert (repairable (all_times (all_owners db))) as HrepB by by apply repairable_times.
  assert (settled (all_times (all_owners db))) as HsetB.
  { intros k c Hk Ho. rewrite (choice_ext (all_owners db) _ k c c); [|apply run_times_local|done]. by apply all_owners_settled. }
  destruct Hp as [l k E|l k E|l k db1 E Hr].
  - split; [by apply rp_acks, repairable_owners; [eapply owners_taken|]|]. unfold complete. by rewrite (owners_resumed l k db E).
  - pose proof (times_taken _ _ _ E) as Ht. split; [by apply rp_acks, repairable_times|]. unfold complete.
    assert (settled (run_times l (all_owners db))) as Hset.
    { intros j c Hk Ho. rewrite (choice_ext (all_owners db) _ j c c); [|apply run_times_local|done]. by apply all_owners_settled. }
    rewrite (all_owners_id _ Hset). by rewrite (times_resumed l k _ E).
  - pose proof (rp_acks _ HrepB) as Hw.
    assert (taken_acks (l ++ k) (all_times (all_owners db))) as Ht by (apply (from_taken ack_id ack_rows acks_wf NoDup_acks l k _ "" Hw E)).
    apply (taken_app ack_id ack_rows l k) in Ht. split; [by eapply run_acks_wf|]. unfold complete.
    assert (settled db1) as Hset by by eapply settled_after_acks.
    assert (dated db1) as Hdat by (eapply dated_after_acks; [exact HrepB|apply all_times_dated|done|done]).
    rewrite (all_owners_id _ Hset), (all_times_id _ Hdat). unfold all_acks. eapply run_acks_resumed; [done|done| |done].
    rewrite <- E. exact Hc.
Qed.
End Steps.

Section Command.
Context `{Url.NetIP} `{Json} `{Keccak} `{StoreCodec} `{Orm} `{HeadCodec}.
Context (legacy : option (list (string * string))) (fqdn : string) (clock : string → Z).

Definition no_failures : RepairStep → nat → bool := λ _ _, false.

(** C23: "each step is idempotent, so a partial run can simply be repeated":
    when the repair of a database succeeds, then whatever a run that failed
    along the way - at any batch of any step - has left, a run from there
    succeeds too and ends in the same database.  So does one after a run that
    finished: running it again changes nothing. *)
Theorem repair_resumes db db2 stats : kinds_agree → repairable fqdn db →
  repairSingleOwner legacy fqdn false no_failures clock db = (Ok stats, db2) →
  ∀ fails r db1, repairSingleOwner legacy fqdn false fails clock db = (r, db1) →
  ∃ stats', repairSingleOwner legacy fqdn false no_failures clock db1 = (Ok stats', db2).
Proof.
  intros Hkinds Hrep Hfull fails r db1 Hpart. unfold repairSingleOwner in *.
  assert (∀ db, cached fqdn (mkRepairSt db ∅ no_repairs)) as Hc by (intros db0 c v; cbn; by rewrite lookup_empty).
  destruct (repair legacy fqdn false no_failures clock (mkRepairSt db ∅ no_repairs)) as [r0 s0] eqn:E0. injection Hfull as -> <-.
  destruct (repair legacy fqdn false fails clock (mkRepairSt db ∅ no_repairs)) as [r1 s1] eqn:E1. injection Hpart as -> <-.
  apply repair_progress in E0 as (_ & Hcomp & _); [|done|apply Hrep]. specialize (Hcomp eq_refl).
  apply repair_progress in E1 as (Hp & _ & _); [|done|apply Hrep].
  destruct (complete_resumed _ _ _ _ _ _ Hkinds Hrep Hcomp Hp) as [Hw Hc1].
  destruct (repair legacy fqdn false no_failures clock (mkRepairSt (rp_db s1) ∅ no_repairs)) as [r2 s2] eqn:E2.
  apply repair_progress in E2 as (_ & Hok & Hsucc); [|done|done].
  pose proof (Hsucc (λ _ _, eq_refl) _ Hc1) as Hr. specialize (Hok Hr). cbn in Hok. rewrite Hc1 in Hok. injection Hok as ->.
  destruct r2 as [stats'| |]; [|done..]. by exists stats'.
Qed.

Lemma repair_done db db2 stats fails : acks_wf db → repairSingleOwner legacy fqdn false fails clock db = (Ok stats, db2) →
  complete legacy fqdn clock db = Ok db2.
Proof.
  intros Hw Hr. unfold repairSingleOwner in Hr. destruct (repair _ _ _ _ _ _) as [r s] eqn:E. injection Hr as -> <-.
  apply repair_progress in E as (_ & Hc & _); [by apply Hc|by intros c v; cbn; rewrite lookup_empty|done].
Qed.

(** a repair that ends without an error has left: of the acks, those with a
    local author; of every ack to a local target a holding at least as new; every
    log with its text - without an owner and flagged when it was the copy of an
    ack from elsewhere, else with the owner it had, or the one found for it; and
    as new logs only such of local targets. *)
Theorem repair_outcome db db2 stats fails : repairable fqdn db →
  repairSingleOwner legacy fqdn false fails clock db = (Ok stats, db2) → repaired legacy fqdn db db2.
Proof. intros Hrep Hr. eapply complete_repaired; [done|]. eapply repair_done; [apply Hrep|done]. Qed.
End Command.
