(* ===== verification/RepairOwners.v ===== *)
(** * RepairOwners: what the repair derives

    The owner [repair-single-owner] derives from a document is the one the
    server recorded for it; and what it makes of a withdrawn ack is not.  With
    the runs that show the theorems of [RepairFacts] at work. *)

From S2P Require Import Prelude Effects Bytes Cdid Url Ccuri Documents Verify PolicyValues Store StoreFacts StoreInv.
From S2P Require Import Queries QueriesFacts Usecase Commit CommitSafe CommitFacts CommitReplay CommitWorld Operation OperationFacts.
From S2P Require Import Ledger Transfer TransferFacts Repair RepairLoop RepairFacts.
From stdpp Require Import prelude strings gmap list relations sorting.
From Stdlib Require Import ZArith Lia Ascii.
Open Scope Z_scope.
Open Scope uc_scope.

(** ** Owners *)

Lemma trim_suffix_no s t : Str.has_suffix s t = false → Str.trim_suffix s t = s.
Proof. intros E. unfold Str.trim_suffix. by rewrite E. Qed.

(** Dropping the sentinel and then a slash gives the base of a delete. *)
Lemma delete_base `{Url.NetIP} target base self range : parseRangeDeleteTarget target = Ok (base, self, range) →
  Str.has_suffix target "/" = false → Str.trim_suffix (Str.trim_suffix target "*") "/" = base.
Proof.
  intros Hr Hslash. unfold parseRangeDeleteTarget in Hr. destruct (Str.has_suffix target "*") eqn:Estar; cbn [negb] in Hr.
  2: { injection Hr as <- _ _. rewrite (trim_suffix_no target "*") by done. by apply trim_suffix_no. }
  assert (∀ b s, (if has_star b then Err (value_error "'*' is only allowed as a trailing range sentinel in a delete target") else
    match ParseCCURI b with
    | Err e => Err (value_error ("invalid range delete target: " +:+ error_text e))
    | Panic => Panic
    | Ok parsed => if negb (String.eqb (Ccuri.Scheme parsed) "cckv") then Err (value_error "range delete targets must use the cckv scheme")
        else if String.eqb (Ccuri.Key parsed) "" then Err (value_error "range delete requires a non-empty key") else Ok (b, s, true)
    end) = Ok (base, self, range) → b = base) as Hb.
  { intros b s. destruct (has_star b); [done|]. destruct (ParseCCURI b) as [p| |]; [|done..]. destruct (negb _); [done|].
    destruct (String.eqb _ _); [done|]. by intros [= <-]. }
  destruct (Str.has_suffix target "/*") eqn:E; apply Hb in Hr as <-.
  - pose proof (has_suffix_trim _ _ E) as Et. set (b := Str.trim_suffix target "/*") in *. rewrite Et.
    change "/*" with ("/" +:+ "*"). by rewrite <- str_app_assoc, !trim_suffix_app.
  - pose proof (has_suffix_trim _ _ Estar) as Et. set (b := Str.trim_suffix target "*") in *. apply trim_suffix_no.
    destruct (Str.has_suffix b "/") eqn:Eb; [|done]. apply has_suffix_trim in Eb. rewrite Et, Eb, str_app_assoc in E.
    change ("/" +:+ "*") with "/*" in E. by rewrite has_suffix_app in E.
Qed.

Section Owners.
Context `{Url.NetIP} `{Json} `{Keccak} `{Secp256k1} `{StoreCodec} `{Orm}.

Lemma ownerOf_uri uri owner : owner_of_uri uri owner → ownerOf uri = owner.
Proof. intros (p & Hp & ->). unfold ownerOf. by rewrite Hp. Qed.

(** The kinds whose owner is in the document; an ack's is that of an account. *)
Definition owner_in_document (doc : Document any_) : Prop :=
  Kind doc = "entity" ∨ Kind doc = "record" ∨ Kind doc = "association" ∨
  (Kind doc = "delete" ∧ ∀ target, decode_delete (Value doc) = Ok target → Str.has_suffix target "/" = false).

Lemma commitOwnerOf_named sd doc owner : unmarshal_document (sd_Document sd) = Ok doc → owner_in_document doc →
  named_owner doc sd owner → commitOwnerOf (sd_Document sd) = owner.
Proof.
  intros Hdoc Hk Hn. unfold commitOwnerOf, named_owner in *. rewrite Hdoc. unfold owner_in_document in Hk.
  destruct Hk as [Hk|[Hk|[Hk|[Hk Hslash]]]]; rewrite Hk in *; cbn -[Str.trim_suffix] in *.
  - destruct Hn as (d & Hd & ->). unfold unmarshal_typed in Hd. rewrite Hdoc in Hd. by apply rbind_ok_inv in Hd as (v & _ & [= <-]).
  - by apply ownerOf_uri.
  - destruct Hn as (target & -> & Ho). by apply ownerOf_uri.
  - destruct Hn as (d & [[base self] range] & Hd & Hr & Ho). unfold unmarshal_typed in Hd. rewrite Hdoc in Hd.
    apply rbind_ok_inv in Hd as (target & Ht & [= <-]). rewrite Ht. cbn in Hr, Ho. rewrite (delete_base _ _ _ _ Hr (Hslash _ Ht)).
    by apply ownerOf_uri.
Qed.

(** were the owners of the logs lost, the repair would find them: from the
    document of every entity, record, association and delete of a server, in
    every state it can reach, it derives the owner the server recorded (of a
    delete without a trailing slash). *)
Theorem owner_recovered db id c doc : rtc served empty_db db → commit_logs db !! id = Some c →
  unmarshal_document (cl_Document c) = Ok doc → owner_in_document doc → commitOwnerOf (cl_Document c) = cl_Owner c.
Proof.
  intros Hs Hc Hdoc Hk. destruct (served_ledger db id c Hs Hc) as (sd & doc' & Hdoc' & _ & _ & _ & Et & Ho).
  rewrite Et in *. rewrite Hdoc in Hdoc'. injection Hdoc' as <-. by apply (commitOwnerOf_named sd doc).
Qed.
End Owners.

(** ** Withdrawn acks *)

Section Unacks.
Context `{Url.NetIP} `{Json} `{Keccak} `{StoreCodec} `{O : Orm} `{HeadCodec}.
Context (legacy : option (list (string * string))) (fqdn : string) (clock : string → Z).

Lemma upsert_holdings_fresh logs t hs t' h : upsert_holdings logs t hs = Ok t' → h ∈ hs → NoDup (hl_Key <$> hs) →
  t !! hl_Key h = None → t' !! hl_Key h = Some (created_ack (hl_Row h)).
Proof.
  intros Hr (pre & post & ->)%list_elem_of_split Hn Ht. rewrite fmap_app in Hn. cbn in Hn.
  apply NoDup_app in Hn as (_ & Hpre & Hpost). apply NoDup_cons in Hpost as [Hpost _].
  rewrite upsert_holdings_app in Hr. apply rbind_ok_inv in Hr as (t1 & Hr1 & Hr). cbn in Hr. apply rbind_ok_inv in Hr as (t2 & Hr2 & Hr).
  etransitivity; [eapply upsert_holdings_out; [exact Hr|exact Hpost]|].
  assert (t1 !! hl_Key h = None) as Ht1.
  { rewrite <- Ht. eapply upsert_holdings_out; [exact Hr1|]. intros Hin. apply (Hpre _ Hin). by left. }
  apply upsert_holding_inv in Hr2 as [[_ (o & Ho & _)]|[-> _]]; [congruence|]. by rewrite lookup_insert_eq.
Qed.

Lemma holding_keys db l plans : Forall2 (λ e p, plan fqdn clock db e = Ok p) l plans → hl_Key <$> omap fst plans `sublist_of` fst <$> l.
Proof.
  induction 1 as [|e p l plans Hp _ IH]; cbn; [constructor|]. apply plan_inv in Hp as (_ & Hsome & _).
  destruct (fst p) as [h|]; cbn; [|by constructor]. destruct (Hsome h eq_refl) as (_ & _ & -> & _). by constructor.
Qed.

(** the repair turns a withdrawn ack into an ack: the holdings are inserted
    with the column's default where the value is zero, so that of an unack,
    which was not held before, says it is valid - on the target's server only. *)
Theorem unack_revived db db2 stats k r : zero_takes_default O → repairable fqdn db →
  repairSingleOwner legacy fqdn false no_failures clock db = (Ok stats, db2) →
  acks db !! k = Some r → ak_Valid r = false → is_local fqdn db (ack_to k) = true → ackeds db !! k = None →
  ∃ h, ackeds db2 !! k = Some h ∧ ak_CreatedAt h = ak_CreatedAt r ∧ ak_Valid h = true.
Proof.
  intros HO Hrep Hr Hk Hv Hto Hnone. apply repair_done in Hr; [|apply Hrep]. unfold complete, all_acks in Hr.
  set (B := all_times (all_owners legacy fqdn db)) in *.
  assert (acks_wf B) as Hw by apply (all_owners_wf legacy fqdn db), Hrep.
  assert (is_local fqdn B (ack_to k) = true) as HtoB by (rewrite <- Hto; exact (run_times_local fqdn _ (all_owners legacy fqdn db) (ack_to k))).
  assert ((k, r) ∈ from ack_id ack_rows B "") as Hin.
  { unfold from. apply elem_of_sorted. split; [by apply elem_of_map_to_list|done]. }
  assert (NoDup (ack_id <$> from ack_id ack_rows B "")) as Hnd by by apply NoDup_sorted, NoDup_acks.
  apply rbind_ok_inv in Hr as (plans & Hp & Hr). apply traverse_ok in Hp.
  destruct (pair_of_left _ _ _ _ Hp Hin) as (p & Hpin & Hpl). pose proof (split_tx_inv _ _ _ Hr) as (Hups & _).
  apply plan_inv in Hpl as (_ & Hsome & Hno). destruct (fst p) as [h|] eqn:Eh.
  2: { specialize (Hno HtoB eq_refl). unfold held_already in Hno. cbn in Hno. by rewrite Hnone in Hno. }
  destruct (Hsome h eq_refl) as (_ & _ & Hkey & _ & Hcr & Hval & _). cbn in Hkey, Hcr, Hval. exists (created_ack (hl_Row h)).
  rewrite <- Hkey. split; [|split; [done|]].
  - eapply upsert_holdings_fresh; [exact Hups| | |by rewrite Hkey].
    + apply list_elem_of_omap. by exists p.
    + apply holding_keys in Hp; eapply sublist_NoDup; [|exact Hp]. apply NoDup_fmap_2_strong; [|by eapply NoDup_fmap_1].
      intros x y Hx Hy E. apply (same_key ack_id _ _ _ Hnd Hx Hy). unfold from in Hx, Hy.
      apply elem_of_sorted in Hx as [Hx _], Hy as [Hy _]. destruct x as [kx rx], y as [ky ry]. unfold ack_rows in Hx, Hy.
      apply elem_of_map_to_list in Hx, Hy. cbn in E. subst ky. unfold ack_id. cbn. congruence.
  - cbn. by rewrite HO, Hval, Hv.
Qed.
End Unacks.

(** ** Example: an account, an ack from elsewhere, a withdrawn ack *)

Module Legacy.
#[local] Existing Instance World.netip.
#[local] Existing Instance World.keccak.
#[local] Existing Instance Server.codec.
#[local] Existing Instance StoreFacts.gorm.

Definition ack_document (kind author : string) : Document any_ :=
  mkDocument kind "" ANil author "follow" 20 None None (Some "cckv://con1bob") None None.
Definition entity_document (author : string) : Document any_ :=
  mkDocument "entity" "" (AStr "host") author EntityURL 5 None None None None None.

Definition texts : list (string * Document any_) :=
  [("entity-con1bob", entity_document "con1bob"); ("entity-con1dave", entity_document "con1dave");
   ("ack-con1carol", ack_document "ack" "con1carol"); ("unack-con1dave", ack_document "unack" "con1dave");
   ("acked-con1carol", ack_document "acked" "con1carol"); ("unacked-con1dave", ack_document "unacked" "con1dave")].

#[export] Instance json : Json := {|
  unmarshal_document := λ s, of_option (GoError "invalid") (snd <$> List.find (λ p, String.eqb (fst p) s) texts);
  marshal_document := λ d, Ok (Kind d +:+ "-" +:+ Author d);
  decode_subkey := λ _, Err (GoError "value");
  decode_reference := λ _, Err (GoError "value");
  decode_signed_document := λ _, Err (GoError "value");
  decode_entity := λ v, match v with AStr dom => Ok (mkEntityValue dom None None) | _ => Err (GoError "value") end;
  decode_delete := λ v, match v with AStr s => Ok s | _ => Err (GoError "value") end;
|}.
#[export] Instance heads : HeadCodec := {|
  unmarshal_head s := doc ← unmarshal_document s; Ok (mkHead (Kind doc) "" (Author doc) "" None);
  unmarshal_kind s := doc ← unmarshal_document s; Ok (Kind doc);
|}.

Definition log (text : string) : CommitLog := mkCommitLog "ip" text ProofTypeEcrecover "" false 0.
Definition carol_bob : triple := ("con1carol", "con1bob", "follow").
Definition dave_bob : triple := ("con1dave", "con1bob", "follow").

(** Bob and Dave are at home here, Carol is not; nothing has an owner yet. *)
Definition db : DB :=
  mkDB {["e1" := log "entity-con1bob"; "e2" := log "entity-con1dave"; "a1" := log "ack-con1carol"; "u1" := log "unack-con1dave"]}
    ∅ ∅ 1 {[carol_bob := mkAckRow "a1" true 20; dave_bob := mkAckRow "u1" false 20]} ∅ ∅
    {["con1bob" := mkEntityRow None "host" "" "e1" 0; "con1dave" := mkEntityRow None "host" "" "e2" 0]}.

(** The legacy table knows two owners of the ack and none of the rest. *)
Definition owners : option (list (string * string)) := Some [("a1", "con1bob"); ("a1", "con1carol")].
Definition clock : string → Z := λ _, 7.
Definition run (fails : RepairStep → nat → bool) (db : DB) := repairSingleOwner owners "host" false fails clock db.

(** The transaction of the acks fails. *)
Definition interrupted (step : RepairStep) (i : nat) : bool := match step with SplitAcks => true | _ => false end.

Lemma gorm_default : zero_takes_default StoreFacts.gorm.
Proof. done. Qed.

Lemma kinds : kinds_agree.
Proof. intros s doc Hd. unfold unmarshal_kind, heads. by rewrite Hd. Qed.

Lemma repairable_db : repairable "host" db.
Proof.
  split.
  - split.
    + intros k r. unfold db. cbn -[lookup insert]. rewrite lookup_insert_Some, lookup_singleton_Some. intros [[<- <-]|(_ & <- & <-)]; vm_compute; by eexists.
    + intros k k' r r'. unfold db. cbn -[lookup insert]. rewrite !lookup_insert_Some, !lookup_singleton_Some. intros [[<- <-]|(_ & <- & <-)] [[<- <-]|(_ & <- & <-)] E; done.
  - intros c e. unfold db. cbn -[lookup insert]. rewrite lookup_insert_Some, lookup_singleton_Some. intros [[<- <-]|(_ & <- & <-)]; vm_compute; by eexists.
  - reflexivity.
  - intros k r. unfold db at 1. cbn -[lookup insert is_local]. rewrite lookup_insert_Some, lookup_singleton_Some. intros [[<- <-]|(_ & <- & <-)].
    + intros _. exists (log "ack-con1carol"), (ack_document "ack" "con1carol"). done.
    + intros Hl. vm_compute in Hl. discriminate.
Qed.
End Legacy.

Section Runs.
#[local] Existing Instance World.netip.
#[local] Existing Instance World.keccak.
#[local] Existing Instance Server.codec.
#[local] Existing Instance StoreFacts.gorm.
Import Legacy.

(** Interrupted before the acks: the owners and times are there, and going on
    from there ends where a run that went through ends - Carol's ack is gone
    from here, its commit is flagged, and Bob holds both. *)
Lemma repair_resumes_witness :
  let '(r, db1) := run interrupted db in
  is_ok r = false ∧ cl_Owner <$> commit_logs db1 !! "u1" = Some "con1dave" ∧ size (ackeds db1) = 0%nat ∧
  ∃ stats db2, run no_failures db1 = (Ok stats, db2) ∧ size (ackeds db2) = 2%nat ∧ acks db2 !! carol_bob = None ∧
    cl_GcCandidate <$> commit_logs db2 !! "a1" = Some true.
Proof.
  assert (let '(r, db1) := run interrupted db in
    is_ok r = false ∧ cl_Owner <$> commit_logs db1 !! "u1" = Some "con1dave" ∧ size (ackeds db1) = 0%nat) as Hfirst.
  { vm_compute. split; [reflexivity|]. split; reflexivity. }
  assert (let '(r, db2) := run no_failures db in
    is_ok r = true ∧ size (ackeds db2) = 2%nat ∧ acks db2 !! carol_bob = None ∧ cl_GcCandidate <$> commit_logs db2 !! "a1" = Some true) as Hlast.
  { vm_compute. split; [reflexivity|]. split; [reflexivity|]. split; reflexivity. }
  destruct (run interrupted db) as [r db1] eqn:E1. destruct (run no_failures db) as [r2 db2] eqn:E2.
  destruct Hfirst as (Hr & Ho & Hs), Hlast as (Hok & Hend). destruct r2 as [stats2| |]; [|discriminate..].
  destruct (repair_resumes owners "host" clock db db2 stats2 kinds repairable_db E2 interrupted r db1 E1) as [stats Hrun].
  split; [exact Hr|]. split; [exact Ho|]. split; [exact Hs|]. exists stats, db2. split; [exact Hrun|exact Hend].
Defined.

Lemma repair_outcome_witness : ∃ stats db2, run no_failures db = (Ok stats, db2) ∧ DisownedRawAcks stats = 1%nat ∧ repaired owners "host" db db2.
Proof.
  assert (match fst (run no_failures db) with Ok stats => DisownedRawAcks stats = 1%nat | _ => False end) as Hn by (vm_compute; reflexivity).
  destruct (run no_failures db) as [[stats| |] db2] eqn:E; [|destruct Hn..].
  exists stats, db2. split; [reflexivity|]. split; [exact Hn|]. exact (repair_outcome owners "host" clock db db2 stats no_failures repairable_db E).
Defined.

(** Dave took his ack back; Bob's server now says that it stands. *)
Lemma unack_revived_witness : ∃ h, ak_Valid <$> acks (snd (run no_failures db)) !! dave_bob = Some false ∧
  ackeds (snd (run no_failures db)) !! dave_bob = Some h ∧ ak_Valid h = true.
Proof.
  assert (is_ok (fst (run no_failures db)) = true ∧ ak_Valid <$> acks (snd (run no_failures db)) !! dave_bob = Some false) as [Hok Hk].
  { vm_compute. split; reflexivity. }
  destruct (run no_failures db) as [[stats| |] db2] eqn:E; [|discriminate..].
  destruct (unack_revived owners "host" clock db db2 stats dave_bob (mkAckRow "u1" false 20) gorm_default repairable_db E) as (h & Hh & _ & Hv);
    [reflexivity..|]. exists h. split; [exact Hk|]. split; [exact Hh|exact Hv].
Defined.
End Runs.

Section Recovered.
#[local] Existing Instance World.netip.
#[local] Existing Instance World.keccak.
#[local] Existing Instance World.secp.
#[local] Existing Instance Server.codec.
#[local] Existing Instance StoreFacts.gorm.
#[local] Existing Instance Ledger.json0.

Lemma owner_recovered_witness : ∃ c, commit_logs (st_db wrote) !! post_log = Some c ∧ cl_Owner c = Server.author ∧
  commitOwnerOf (cl_Document c) = cl_Owner c.
Proof.
  assert (∃ c, commit_logs (st_db wrote) !! post_log = Some c ∧ cl_Owner c = Server.author ∧ cl_Document c = "post") as (c & Hc & Ho & Ed)
    by (vm_compute; eexists; split; [reflexivity|]; split; reflexivity).
  exists c. split; [exact Hc|]. split; [exact Ho|].
  apply (owner_recovered (st_db wrote) post_log c (Server.record "posts/a" "note" ANil None)); [exact wrote_served|exact Hc|by rewrite Ed|by right; left].
Defined.
End Recovered.
