(* ===== verification/Migrate.v ===== *)
(** * Migrate: from version 1 to version 2 ([src/cmd/conctl/migrate-v1-to-v2.go])

    [migrate v1-to-v2] reads the commit logs of a server of version 1, converts
    each document into documents of this version, and posts them to the
    repository endpoint of the new server in pages of 512.  It remembers how far
    it got, and under which key each document was filed, in two tables of its
    own in the new database.  Statements on that database succeed here; what the
    new server answers is an argument. *)

From S2P Require Import Prelude Effects Bytes Numbers Cdid Url Ccuri Documents Store Queries Usecase Commit.
From S2P Require Import Rest.
From stdpp Require Import prelude strings gmap list sorting.
From Stdlib Require Import ZArith Lia Ascii.
Open Scope Z_scope.
Open Scope uc_scope.

(** ** Version 1 ([src/legacy]) *)

Module V1.

Definition encoding : string := "0123456789abcdefghjkmnpqrstvwxyz".

(** [SetTime] does not clamp: the milliseconds are cut to 48 bits. *)
Definition SetTime (t : Z) : list Z :=
  let m := (t / 1000000000) * 1000 + (t mod 1000000000) / 1000000 in
  [byte_trunc (Z.shiftr m 40); byte_trunc (Z.shiftr m 32); byte_trunc (Z.shiftr m 24);
   byte_trunc (Z.shiftr m 16); byte_trunc (Z.shiftr m 8); byte_trunc m].

(** [New(data, t).String()] *)
Definition cdid (data : list Z) (t : Z) : string := Base32.EncodeToString encoding (data ++ SetTime t).

(** [DocumentBase], as far as it is read. *)
Record DocumentBase : Type := mkBase {
  b_ID : string;
  b_Signer : string;
  b_Owner : string;
  b_Type : string;
  b_Schema : string;
  b_Policy : string;
  b_PolicyParams : string;
  b_PolicyDefaults : string;
  b_Body : any_;
  b_SemanticID : string;
  b_SignedAt : Z;
}.

Record MessageDocument : Type := mkMessage { m_Base : DocumentBase; m_Timelines : list string }.
Record AssociationDocument : Type := mkAssociation {
  a_Base : DocumentBase;
  a_Timelines : list string;
  a_Variant : string;
  a_Target : string;
}.
Record TimelineDocument : Type := mkTimeline { t_Base : DocumentBase; t_DomainOwned : bool }.
Record SubscribeDocument : Type := mkSubscribe { s_Base : DocumentBase; s_Subscription : string; s_Target : string }.
Record DeleteDocument : Type := mkDelete { d_Base : DocumentBase; d_Target : string }.

Record Entity : Type := mkEntity { e_Domain : string; e_CDate : Z }.
Record CommitLog : Type := mkCommitLog { c_ID : Z; c_DocumentID : string; c_Document : string }.
Record EntityMeta : Type := mkMeta { em_ID : string; em_Inviter : option string; em_Info : string }.

(** The database of version 1. *)
Record Source : Type := mkSource {
  entities : gmap string Entity;
  metas : list EntityMeta;
  commits : list CommitLog;
}.
End V1.

(** The bodies that name a message: of replies and reroutes, as messages and as
    associations. *)
Inductive RefSchema := ReplyMessage | RerouteMessage | ReplyAssociation | RerouteAssociation.

Record RefBody : Type := mkRefBody {
  rb_Id : string;
  rb_Author : string;
  rb_TargetURI : string;
  rb_Body : string;
  rb_Emojis : any_;
  rb_ProfileOverride : any_;
}.

Definition with_target (b : RefBody) (uri : string) : RefBody :=
  mkRefBody (rb_Id b) (rb_Author b) uri (rb_Body b) (rb_Emojis b) (rb_ProfileOverride b).

(** JSON of the documents of version 1 and of the values made from them. *)
Class V1Json := {
  decode_base : string → result V1.DocumentBase;
  decode_message : string → result V1.MessageDocument;
  decode_profile : string → result V1.DocumentBase;
  decode_association : string → result V1.AssociationDocument;
  decode_timeline : string → result V1.TimelineDocument;
  decode_subscription : string → result V1.DocumentBase;
  decode_subscribe : string → result V1.SubscribeDocument;
  decode_deletion : string → result V1.DeleteDocument;
  decode_ref_body : RefSchema → string → result RefBody;
  ref_body_value : RefSchema → RefBody → any_;
  reference_value : Reference → any_;
  decode_params : string → result (gmap string any_);
  decode_defaults : string → result (gmap string string);
}.

(** ** The state: what the command keeps, its tables, and the new database *)

Record Migration : Type := mkMigration {
  entityCache : gmap string V1.Entity;
  mappingCache : gmap string string;
  MigrationTable : gmap string string;
  MigrationInfo : gmap string string;
  dest_metas : gmap string EntityMeta;
  dest : DB;
}.

Definition set_entityCache (s : Migration) m := mkMigration m (mappingCache s) (MigrationTable s) (MigrationInfo s) (dest_metas s) (dest s).
Definition set_mappingCache (s : Migration) m := mkMigration (entityCache s) m (MigrationTable s) (MigrationInfo s) (dest_metas s) (dest s).
Definition set_table (s : Migration) t := mkMigration (entityCache s) (mappingCache s) t (MigrationInfo s) (dest_metas s) (dest s).
Definition set_info (s : Migration) i := mkMigration (entityCache s) (mappingCache s) (MigrationTable s) i (dest_metas s) (dest s).
Definition set_metas (s : Migration) m := mkMigration (entityCache s) (mappingCache s) (MigrationTable s) (MigrationInfo s) m (dest s).
Definition set_dest (s : Migration) db := mkMigration (entityCache s) (mappingCache s) (MigrationTable s) (MigrationInfo s) (dest_metas s) db.

Definition MM (A : Type) : Type := SM Migration A.

(** ** Names *)

Definition WritePublicPolicyURL : string := "https://policy.concrnt.world/t/write-public.json".

Definition actionMap : gmap string string := {["timeline.message.read" := "net.concrnt.core.resolve"]}.

(** [strings.Contains] *)
Fixpoint str_contains (s sub : string) : bool :=
  Str.has_prefix s sub || match s with EmptyString => false | String _ s => str_contains s sub end.

Definition ParseUint (s : string) : result Z :=
  if String.eqb s "" then Err syntax_error
  else
    n ← parse_digits 0 s;
    if n <? 2 ^ 64 then Ok n else Err (GoError "value out of range").

Section Migrate.
Context `{Url.NetIP} `{Json} `{Keccak} `{StoreCodec} `{LogCodec} `{V1Json} `{TimeParse}.
(** JSON of documents that are references. *)
Context (marshal_reference : Document Reference → result string).
(** The flags, the old database, and the answers of the new server. *)
Context (fromFQDN fromCSID destFQDN : string) (ignoreIDs : list string) (source : V1.Source).
Context (post : string → DB → result (list ImportResult) * DB).

Definition SaveMigrationTable (v1id v2id : string) : MM unit := modifyM (λ s, set_table s (<[v1id := v2id]> (MigrationTable s))).
Definition ResolveMigrationTable (v1id : string) : MM (option string) := getsM (λ s, MigrationTable s !! v1id).
Definition SaveMigrationInfo (name seeker : string) : MM unit := modifyM (λ s, set_info s (<[name := seeker]> (MigrationInfo s))).
Definition LoadMigrationInfo (name : string) : MM (option string) := getsM (λ s, MigrationInfo s !! name).

Definition main_post (author id : string) : string := "cckv://" +:+ author +:+ "/concrnt.world/profiles/main/posts/" +:+ id.

Definition resolvePostKey (author messageID : string) : MM string :=
  let* found := ResolveMigrationTable messageID in
  retM (match found with Some key => key | None => main_post author messageID end).

Definition convertDomain (domain : string) : string :=
  if String.eqb domain fromFQDN then destFQDN
  else if String.eqb domain fromCSID then destFQDN
  else domain.

Definition subhome : string := "world.concrnt.t-subhome.".

Definition convertTimeline (timeline : string) : string :=
  match Str.split timeline "@" with
  | [id; host] =>
      if String.eqb id "world.concrnt.t-home" then "cckv://" +:+ host +:+ "/concrnt.world/profiles/main/home-timeline"
      else if String.eqb id "world.concrnt.t-notify" then "cckv://" +:+ host +:+ "/concrnt.world/profiles/main/notify-timeline"
      else if String.eqb id "world.concrnt.t-assoc" then "cckv://" +:+ host +:+ "/concrnt.world/profiles/main/activity-timeline"
      else if Str.has_prefix id subhome then
        "cckv://" +:+ convertDomain host +:+ "/concrnt.world/profiles/" +:+ Str.trim_prefix id subhome +:+ "/home-timeline"
      else "cckv://" +:+ convertDomain host +:+ "/concrnt.world/communities/" +:+ id
  | _ => timeline
  end.

Definition convertTimelines (timelines : list string) : list string :=
  List.filter (λ target, negb (String.eqb target "")) (convertTimeline <$> timelines).

Fixpoint hasSubprofileTimelien (timelines : list string) : option string :=
  match timelines with
  | [] => None
  | timeline :: timelines =>
      match Str.split timeline "@" with
      | [id; _] => if Str.has_prefix id subhome then Some (Str.trim_prefix id subhome) else hasSubprofileTimelien timelines
      | _ => hasSubprofileTimelien timelines
      end
  end.

(** Parameters and defaults that do not parse are left out. *)
Definition convertPolicy (policyURL params defaults : string) : Documents.Policy :=
  let rename v := match actionMap !! v with Some action => action | None => v end in
  mkPolicy
    (if String.eqb policyURL "" then []
     else [mkPolicyEntry (Some policyURL)
             (if String.eqb params "" then None else match decode_params params with Ok p => Some p | _ => None end)
             (if String.eqb defaults "" then None
              else match decode_defaults defaults with Ok d => Some (rename <$> d) | _ => None end)
             false])
    None "".

(** ** Entities *)

Definition getEntity (id : string) : MM V1.Entity :=
  let* cached := getsM (λ s, entityCache s !! id) in
  match cached with
  | Some entity => retM entity
  | None =>
      match V1.entities source !! id with
      | Some entity => modifyM (λ s, set_entityCache s (<[id := entity]> (entityCache s))) ;; retM entity
      | None => failM (GoError "record not found")
      end
  end.

Definition isLocalEntity (entity : V1.Entity) : bool :=
  String.eqb (V1.e_Domain entity) fromFQDN || String.eqb (V1.e_Domain entity) fromCSID.

Definition keyOwnerIsLocal (key : string) : MM bool :=
  match ParseCCURI key with
  | Ok uri =>
      if String.eqb (Ccuri.Owner uri) destFQDN then retM true
      else
        let* entity := tryM (getEntity (Ccuri.Owner uri)) in
        retM (match entity with Ok entity => isLocalEntity entity | _ => false end)
  | Err _ => retM false
  | Panic => panicM
  end.

Definition unsigned (text : string) : SignedDocument := signed text (mkProof "none" None None None None None).
Definition sd_line (sd : SignedDocument) : MM string := liftM (line ← marshal_signed_document sd; Ok (line +:+ newline)).

(** A record that refers to [href], with the document it refers to inlined. *)
Definition reference_line (key href schema author : string) (signedAt : Z) (target : SignedDocument) : MM string :=
  let* text := liftM (marshal_reference (mkDocument "record" key (mkReference href (Some schema) None) author ReferenceURL
                                           signedAt None None None None None)) in
  sd_line (mkSignedDocument None None text (mkProof "document-reference" None (Some href) None None None) {[href := target]} None).

(** The references in the timelines a document was sent to, as far as they are
    the author's, the owner's or this server's. *)
Fixpoint distribute (owners : list string) (href id schema author : string) (signedAt : Z) (target : SignedDocument)
    (timelines : list string) : MM string :=
  match timelines with
  | [] => retM ""
  | timeline :: timelines =>
      let distKey := timeline +:+ "/" +:+ id in
      if negb (existsb (λ o, Str.has_prefix distKey ("cckv://" +:+ o)) owners)
      then distribute owners href id schema author signedAt target timelines
      else
        let* local := keyOwnerIsLocal distKey in
        if negb local then distribute owners href id schema author signedAt target timelines
        else
          let* line := reference_line distKey href schema author signedAt target in
          let* lines := distribute owners href id schema author signedAt target timelines in
          retM (line +:+ lines)
  end.
(** ** Documents *)

(** The body of a message or association that names a message. *)
Definition with_post_key (schema : RefSchema) (text : string) : MM any_ :=
  let* b := liftM (decode_ref_body schema text) in
  let* uri := resolvePostKey (rb_Author b) (rb_Id b) in
  retM (ref_body_value schema (with_target b uri)).

Definition message_body (b : V1.DocumentBase) (text : string) : MM any_ :=
  if String.eqb (V1.b_Schema b) "https://schema.concrnt.world/m/reply.json" then with_post_key ReplyMessage text
  else if String.eqb (V1.b_Schema b) "https://schema.concrnt.world/m/reroute.json" then with_post_key RerouteMessage text
  else retM (V1.b_Body b).

Definition association_body (b : V1.DocumentBase) (text : string) : MM any_ :=
  if String.eqb (V1.b_Schema b) "https://schema.concrnt.world/a/reply.json" then with_post_key ReplyAssociation text
  else if String.eqb (V1.b_Schema b) "https://schema.concrnt.world/a/reroute.json" then with_post_key RerouteAssociation text
  else retM (V1.b_Body b).

Definition base_policy (b : V1.DocumentBase) : Documents.Policy :=
  convertPolicy (V1.b_Policy b) (V1.b_PolicyParams b) (V1.b_PolicyDefaults b).

Definition v1_key (owner id : string) : string := "cckv://" +:+ owner +:+ "/concrnt.world/v1/" +:+ id.

Definition post_key (signer cdidBase : string) (timelines : list string) : string :=
  "cckv://" +:+ signer +:+ "/concrnt.world/profiles/" +:+ default "main" (hasSubprofileTimelien timelines) +:+ "/posts/m" +:+ cdidBase.

Definition convertMessage (text cdidBase : string) (v1Author : V1.Entity) : MM string :=
  let* v1msg := liftM (decode_message text) in
  let b := V1.m_Base v1msg in
  let signer := V1.b_Signer b in
  let key := post_key signer cdidBase (V1.m_Timelines v1msg) in
  SaveMigrationTable ("m" +:+ cdidBase) key ;;
  let distributes := convertTimelines (V1.m_Timelines v1msg) in
  let* body := message_body b text in
  let* serializedDoc := liftM (marshal_document (mkDocument "record" key body signer (V1.b_Schema b) (V1.b_SignedAt b)
                                 None (Some distributes) None None (Some (base_policy b)))) in
  let sd := unsigned serializedDoc in
  let* line := (if isLocalEntity v1Author then sd_line sd else retM "") in
  let mappingKey := v1_key signer ("m" +:+ cdidBase) in
  modifyM (λ s, set_mappingCache s (<[mappingKey := key]> (mappingCache s))) ;;
  let* mapping := (if isLocalEntity v1Author
                   then reference_line mappingKey key (V1.b_Schema b) signer (V1.b_SignedAt b) sd else retM "") in
  let* lines := distribute [signer; destFQDN] key (document_cdid serializedDoc (V1.b_SignedAt b)) (V1.b_Schema b) signer
                  (V1.b_SignedAt b) sd distributes in
  retM (line +:+ mapping +:+ lines).

(** The key the message has now: remembered, or read from the new database. *)
Definition real_key (associateKey : string) : MM string :=
  let* known := getsM (λ s, mappingCache s !! associateKey) in
  match known with
  | Some key => retM key
  | None =>
      let* db := getsM dest in
      match record_keys db !! associateKey with
      | None => failM (GoError ("failed to find record key for uri: " +:+ associateKey))
      | Some rk =>
          match rk_RecordID rk with
          | None => failM (GoError ("record key for uri: " +:+ associateKey +:+ " has no associated record"))
          | Some id =>
              let* reference := liftM (unmarshal_typed decode_reference (cl_Document (log_of db id))) in
              retM (ref_Href (Value reference))
          end
      end
  end.

Definition association_document (a : V1.AssociationDocument) (body : any_) (associate : string) : Document any_ :=
  let b := V1.a_Base a in
  mkDocument "association" "" body (V1.b_Signer b) (V1.b_Schema b) (V1.b_SignedAt b) None
    (Some (convertTimelines (V1.a_Timelines a))) (Some associate)
    (if String.eqb (V1.a_Variant a) "" then None else Some (V1.a_Variant a)) (Some (base_policy b)).

Definition convertAssociation (text cdidBase : string) : MM string :=
  let* v1ass := liftM (decode_association text) in
  let b := V1.a_Base v1ass in
  let owner := V1.b_Owner b in
  let* assOwner := getEntity owner in
  let associateKey := v1_key owner (V1.a_Target v1ass) in
  let* body := association_body b text in
  let* serializedDoc := liftM (marshal_document (association_document v1ass body associateKey)) in
  let sd := unsigned serializedDoc in
  let documentID := document_cdid serializedDoc (V1.b_SignedAt b) in
  let ccfs := ComposeCCFSURI owner CCFSTypeConcrnt documentID in
  SaveMigrationTable ("a" +:+ cdidBase) ccfs ;;
  let* own := (
    if isLocalEntity assOwner then
      let* line := sd_line sd in
      let* mappingKey := real_key associateKey in
      let* assocText := liftM (marshal_document (association_document v1ass body mappingKey)) in
      SaveMigrationTable ("a" +:+ cdidBase +:+ "#real")
        (ComposeCCFSURI owner CCFSTypeConcrnt (document_cdid assocText (V1.b_SignedAt b))) ;;
      let* real := sd_line (with_references (unsigned assocText) {[mappingKey := sd]}) in
      retM (line +:+ real)
    else retM "") in
  let* lines := distribute [V1.b_Signer b; destFQDN; owner] ccfs documentID (V1.b_Schema b) (V1.b_Signer b)
                  (V1.b_SignedAt b) sd (convertTimelines (V1.a_Timelines v1ass)) in
  retM (own +:+ lines).

(** A document that stands alone; it is not converted when its key is not of
    a local owner. *)
Definition finish (v2doc : Document any_) : MM string :=
  let* local := (if String.eqb (Key v2doc) "" then retM true else keyOwnerIsLocal (Key v2doc)) in
  if negb local then retM ""
  else liftM (text ← marshal_document v2doc; marshal_signed_document (unsigned text)).

Definition record_of (key : string) (value : any_) (author schema : string) (signedAt : Z) (pol : option Documents.Policy)
    : Document any_ := mkDocument "record" key value author schema signedAt None None None None pol.

(** The main profile is filed under its own key, and so is, in the table,
    every other one. *)
Definition convertProfile (text cdidBase : string) : MM string :=
  let* b := liftM (decode_profile text) in
  let signer := V1.b_Signer b in
  let main := "cckv://" +:+ signer +:+ "/concrnt.world/profiles/main" in
  let v1id := if negb (String.eqb (V1.b_SemanticID b) "") then V1.b_SemanticID b
              else if negb (String.eqb (V1.b_ID b) "") then V1.b_ID b
              else "p" +:+ cdidBase in
  SaveMigrationTable v1id main ;;
  let key := if negb (String.eqb (V1.b_SemanticID b) "world.concrnt.p")
             then "cckv://" +:+ signer +:+ "/concrnt.world/profiles/" +:+ v1id else main in
  finish (record_of key (V1.b_Body b) signer (V1.b_Schema b) (V1.b_SignedAt b) None).

(** The kinds below skip a document that does not parse. *)
Definition parsed {A} (r : result A) (k : A → MM string) : MM string :=
  match r with Ok a => k a | Err _ => retM "" | Panic => panicM end.

Definition timeline_id (t : V1.TimelineDocument) (cdidBase : string) : string :=
  let b := V1.t_Base t in
  let owner := if String.eqb (V1.b_Owner b) "" then V1.b_Signer b else V1.b_Owner b in
  let owner := if V1.t_DomainOwned t then destFQDN else owner in
  let tlid := if String.eqb (V1.b_ID b) "" then "t" +:+ cdidBase else V1.b_ID b in
  let tlid := if String.eqb (V1.b_SemanticID b) "" then tlid else V1.b_SemanticID b in
  if Str.contains_char tlid "@" then tlid else tlid +:+ "@" +:+ owner.

Definition profile_timeline (key : string) : bool :=
  Str.has_suffix key "/home-timeline" || Str.has_suffix key "/notify-timeline" || Str.has_suffix key "/activity-timeline".

Definition convertTimelineDocument (text cdidBase : string) : MM string :=
  parsed (decode_timeline text) (λ v1tl,
  let b := V1.t_Base v1tl in
  let tlid := timeline_id v1tl cdidBase in
  if Str.has_prefix tlid "world.concrnt.t-ap" then retM ""
  else
    let key := convertTimeline tlid in
    let pol := base_policy b in
    let pol := if str_contains key "communities"
               then mkPolicy (pol_Entries pol ++ [mkPolicyEntry (Some WritePublicPolicyURL) None None false]) None ""
               else pol in
    let schema := if profile_timeline key then "https://schema.concrnt.world/t/user.json" else V1.b_Schema b in
    SaveMigrationTable ("t" +:+ cdidBase) key ;;
    finish (record_of key (V1.b_Body b) (V1.b_Signer b) schema (V1.b_SignedAt b) (Some pol))).

Definition list_key (signer list : string) : string := "cckv://" +:+ signer +:+ "/concrnt.world/profiles/main/lists/" +:+ list.

Definition convertSubscription (text cdidBase : string) : MM string :=
  parsed (decode_subscription text) (λ b,
  let id := if String.eqb (V1.b_ID b) "" then "s" +:+ cdidBase else V1.b_ID b in
  let key := list_key (V1.b_Signer b) id in
  SaveMigrationTable id key ;;
  finish (record_of key (V1.b_Body b) (V1.b_Signer b) (V1.b_Schema b) (V1.b_SignedAt b) None)).

(** An entry of a list, named by the hash of the timeline. *)
Definition entry_key (s : V1.SubscribeDocument) : string :=
  list_key (V1.b_Signer (V1.s_Base s)) (V1.s_Subscription s) +:+ "/" +:+
  ref_segment (convertTimeline (V1.s_Target s)).

Definition convertSubscribe (text : string) : MM string :=
  parsed (decode_subscribe text) (λ v1sub,
  let b := V1.s_Base v1sub in
  let schema := if Str.has_prefix (V1.s_Target v1sub) "world" then "https://schema.concrnt.world/t/user.json"
                else "https://schema.concrnt.world/t/community.json" in
  finish (record_of (entry_key v1sub) (reference_value (mkReference (convertTimeline (V1.s_Target v1sub)) (Some schema) None))
            (V1.b_Signer b) ReferenceURL (V1.b_SignedAt b) None)).

Definition deletion (key author : string) (signedAt : Z) : Document any_ :=
  mkDocument "delete" "" (AStr key) author "" signedAt None None None None None.

Definition convertUnsubscribe (text : string) : MM string :=
  parsed (decode_subscribe text) (λ v1unsub,
  finish (deletion (entry_key v1unsub) (V1.b_Signer (V1.s_Base v1unsub)) (V1.b_SignedAt (V1.s_Base v1unsub)))).

Fixpoint delete_lines (keys : list string) (author : string) (signedAt : Z) : MM string :=
  match keys with
  | [] => retM ""
  | key :: keys =>
      let* text := liftM (marshal_document (deletion key author signedAt)) in
      let* line := sd_line (unsigned text) in
      let* lines := delete_lines keys author signedAt in
      retM (line +:+ lines)
  end.

Definition convertDelete (text : string) : MM string :=
  parsed (decode_deletion text) (λ v1del,
  let* target := ResolveMigrationTable (V1.d_Target v1del) in
  match target with
  | None => retM ""
  | Some targetKey =>
      let* real := ResolveMigrationTable (V1.d_Target v1del +:+ "#real") in
      delete_lines (targetKey :: match real with Some key => [key] | None => [] end)
        (V1.b_Signer (V1.d_Base v1del)) (V1.b_SignedAt (V1.d_Base v1del))
  end).

Definition convertRecord (commit : V1.CommitLog) : MM string :=
  let text := V1.c_Document commit in
  let* v1doc := liftM (decode_base text) in
  if in_list ignoreIDs (V1.b_Signer v1doc) then retM ""
  else
    let cdidBase := V1.cdid (take 10 (GetHash text)) (V1.b_SignedAt v1doc) in
    let* v1Author := getEntity (V1.b_Signer v1doc) in
    let ty := V1.b_Type v1doc in
    if String.eqb ty "message" then convertMessage text cdidBase v1Author
    else if String.eqb ty "profile" then convertProfile text cdidBase
    else if String.eqb ty "association" then convertAssociation text cdidBase
    else if String.eqb ty "timeline" then convertTimelineDocument text cdidBase
    else if String.eqb ty "subscription" then convertSubscription text cdidBase
    else if String.eqb ty "subscribe" then convertSubscribe text
    else if String.eqb ty "unsubscribe" then convertUnsubscribe text
    else if String.eqb ty "delete" then convertDelete text
    else retM "".
(** ** The three passes *)

(** The note, with its quotation marks. *)
Definition activation_note : string :=
  Str.map (λ c, if Ascii.eqb c "'" then ascii_of_nat 34 else c)
    "{'note':'automatically activated by v1-to-v2 migration (entity had no meta in v1)'}".

Definition activated (id : string) : EntityMeta := mkEntityMeta id None activation_note.

(** Registrations are saved over those the new server has; a local entity
    without one gets one. *)
Definition transferMetas : MM unit :=
  let copied := (λ m, mkEntityMeta (V1.em_ID m) (V1.em_Inviter m) (V1.em_Info m)) <$> V1.metas source in
  let missing := List.filter (λ p, isLocalEntity (snd p) && negb (in_list (V1.em_ID <$> V1.metas source) (fst p)) &&
                                   negb (in_list ignoreIDs (fst p))) (map_to_list (V1.entities source)) in
  let save metas (m : EntityMeta) := <[em_ID m := m]> metas in
  modifyM (λ s, set_metas s (foldl save (foldl save (dest_metas s) copied) ((λ p, activated (fst p)) <$> missing))).

(** A post is answered with the lines that failed. *)
Definition commit (body : string) : MM (list ImportResult) := λ s,
  let '(r, db) := post body (dest s) in (r, set_dest s db).

Definition entity_line (p : string * V1.Entity) : option string :=
  let '(id, entity) := p in
  let domain := convertDomain (V1.e_Domain entity) in
  if String.eqb domain destFQDN && negb (isLocalEntity entity) then None
  else match (text ← marshal_document (mkDocument "entity" ("cckv://" +:+ id) (AMap {["domain" := AStr domain]}) id EntityURL
                                         (V1.e_CDate entity) None None None None None);
              marshal_signed_document (unsigned text)) with
       | Ok line => Some (line +:+ newline)
       | _ => None
       end.

(** [time.RFC3339] has seconds. *)
Context (format_rfc3339 : Z → string).

Definition entities_since (seeker : Z) : list (string * V1.Entity) :=
  List.filter (λ p, negb (in_list ignoreIDs (fst p)) && ((seeker =? zero_time) || (seeker <=? V1.e_CDate (snd p))))
    (map_to_list (V1.entities source)).

(** [now] is the time when the entities have been posted. *)
Definition transferEntities (now : Z) : MM unit :=
  let* info := LoadMigrationInfo "entities" in
  let* seeker := (match info with
                  | None => retM zero_time
                  | Some text => match parse_rfc3339 text with Ok t => retM t | _ => panicM end
                  end) in
  let* results := commit (Str.join (omap entity_line (entities_since seeker)) "") in
  if bool_decide (results = []) then SaveMigrationInfo "entities" (format_rfc3339 now)
  else failM (GoError "entities failed to import").

Definition page_size : nat := 512.

Definition page_after (lastKey : Z) : list V1.CommitLog :=
  list_query (λ x y, V1.c_ID x <=? V1.c_ID y) (λ c, lastKey <? V1.c_ID c) (Z.of_nat page_size) "" (V1.commits source).

(** A commit log that cannot be converted is passed over. *)
Fixpoint convert_page (commits : list V1.CommitLog) : MM string :=
  match commits with
  | [] => retM ""
  | c :: commits =>
      let* lines := tryM (convertRecord c) in
      let* batch := convert_page commits in
      retM (match lines with Ok lines => lines +:+ newline +:+ batch | _ => batch end)
  end.

Definition last_key (commits : list V1.CommitLog) : Z := match last commits with Some c => V1.c_ID c | None => 0 end.

(** A page is converted, posted, and then remembered. *)
Definition transfer_page (commits : list V1.CommitLog) : MM nat :=
  let* batch := convert_page commits in
  let* results := commit batch in
  SaveMigrationInfo "records" (FormatInt (last_key commits)) ;;
  retM (length results).

(** How many lines failed to import. *)
Fixpoint transfer_pages (fuel : nat) (lastKey : Z) (total : nat) : MM nat :=
  match fuel with
  | O => failM OutOfFuel
  | S fuel =>
      match page_after lastKey with
      | [] => retM total
      | commits =>
          let* n := transfer_page commits in
          if (length commits <? page_size)%nat then retM (total + n)%nat
          else transfer_pages fuel (last_key commits) (total + n)
      end
  end.

Definition seeker_of (info : option string) : option Z :=
  match info with
  | None => Some 0
  | Some text => match ParseUint text with Ok n => Some n | _ => None end
  end.

Definition transferRecords : MM nat :=
  let* info := LoadMigrationInfo "records" in
  match seeker_of info with
  | None => panicM
  | Some lastKey => transfer_pages (S (length (V1.commits source))) lastKey O
  end.

(** The command; one document by itself with [--one-shot]. *)
Definition migrateV1toV2 (now : Z) : MM nat :=
  transferMetas ;;
  transferEntities now ;;
  transferRecords.

Definition migrateOneShot (id : string) : MM unit :=
  match List.find (λ c, String.eqb (V1.c_DocumentID c) id) (V1.commits source) with
  | None => failM (GoError ("failed to find commit with id " +:+ id))
  | Some c =>
      let* lines := convertRecord c in
      let* results := commit (lines +:+ newline) in
      if bool_decide (results = []) then retM tt else failM (GoError "failed to import document")
  end.
End Migrate.
