(* ===== verification/MigrateFacts.v ===== *)
(** * MigrateFacts: what a migration sends, and where it goes on

    The pages of commit logs are sent in order, and a run that is cut off goes
    on with the page it did not finish ([migration_resumes]).  What is sent is
    for local owners ([converted_local]).  The table of keys sends a delete to
    the message it is for ([message_deleted]), and the one of a sub-profile to
    the main profile ([subprofile_delete_hits_main]). *)

From S2P Require Import Prelude Effects Bytes Numbers Cdid Url Ccuri Documents Store Queries QueriesFacts Usecase Commit.
From S2P Require Import Rest Migrate.
From stdpp Require Import prelude strings gmap list sorting pretty.
From Stdlib Require Import ZArith Lia Ascii.
Open Scope Z_scope.

(** ** What an operation leaves alone *)

Definition unmoved {X A} (f : Migration → X) (m : MM A) : Prop := ∀ s, f (snd (m s)) = f s.

Create HintDb unmoved.

Section Keeps.
Context {X : Type} (f : Migration → X).

Lemma unmoved_ret {A} (a : A) : unmoved f (retM a).
Proof. done. Qed.
Lemma unmoved_fail {A} e : unmoved f (failM (A := A) e).
Proof. done. Qed.
Lemma unmoved_panic {A} : unmoved f (panicM (A := A)).
Proof. done. Qed.
Lemma unmoved_lift {A} (r : result A) : unmoved f (liftM r).
Proof. done. Qed.
Lemma unmoved_gets {A} (g : Migration → A) : unmoved f (getsM g).
Proof. done. Qed.
Lemma unmoved_modify g : (∀ s, f (g s) = f s) → unmoved f (modifyM g).
Proof. intros Hg s. apply Hg. Qed.
Lemma unmoved_bind {A B} (m : MM A) (k : A → MM B) : unmoved f m → (∀ a, unmoved f (k a)) → unmoved f (bindM m k).
Proof.
  intros Hm Hk s. specialize (Hm s). unfold bindM. destruct (m s) as [[a| |] s1]; cbn in *; [|done..]. by rewrite (Hk a s1).
Qed.
Lemma unmoved_try {A} (m : MM A) : unmoved f m → unmoved f (tryM m).
Proof. intros Hm s. specialize (Hm s). unfold tryM. by destruct (m s) as [[a| |] s1]. Qed.
Lemma unmoved_if {A} (b : bool) (m1 m2 : MM A) : unmoved f m1 → unmoved f m2 → unmoved f (if b then m1 else m2).
Proof. by destruct b. Qed.
End Keeps.

#[export] Hint Resolve unmoved_ret unmoved_fail unmoved_panic unmoved_lift unmoved_gets unmoved_bind unmoved_try unmoved_if : unmoved.
#[export] Hint Extern 2 (unmoved _ (modifyM _)) => (apply unmoved_modify; intros []; reflexivity) : unmoved.
#[export] Hint Extern 3 (unmoved _ (match ?x with _ => _ end)) => (destruct x) : unmoved.

(** An operation is taken apart until its steps are plain. *)
Ltac unmoved := repeat
  lazymatch goal with
  | |- unmoved _ (bindM _ _) => apply unmoved_bind
  | |- unmoved _ (if _ then _ else _) => apply unmoved_if
  | |- unmoved _ (match ?x with _ => _ end) => destruct x
  | |- unmoved _ _ => solve [eauto 3 with unmoved]
  | |- forall _, _ => intros ?
  end.

Section Facts.
Context `{Url.NetIP} `{Json} `{Keccak} `{StoreCodec} `{LogCodec} `{V1Json} `{TimeParse}.
Context (marshal_reference : Document Reference → result string).
Context (fromFQDN fromCSID destFQDN : string) (ignoreIDs : list string) (source : V1.Source).

Local Abbreviation convert := (convertRecord marshal_reference fromFQDN fromCSID destFQDN ignoreIDs source).

Section Steps.
Context {X : Type} (f : Migration → X).
Hypothesis (Hcache : ∀ s m, f (set_entityCache s m) = f s).

Lemma unmoved_getEntity id : unmoved f (getEntity source id).
Proof. unfold getEntity. apply unmoved_bind; [unmoved|]. intros [e|]; [unmoved|]. destruct (V1.entities source !! id); [|unmoved]. apply unmoved_bind; [|unmoved]. apply unmoved_modify. intros s. apply Hcache. Qed.

Lemma unmoved_local key : unmoved f (keyOwnerIsLocal fromFQDN fromCSID destFQDN source key).
Proof. unfold keyOwnerIsLocal. destruct (ParseCCURI key); [|unmoved..]. apply unmoved_if; [unmoved|]. apply unmoved_bind; [apply unmoved_try, unmoved_getEntity|unmoved]. Qed.

Lemma unmoved_reference_line key href schema author t target : unmoved f (reference_line marshal_reference key href schema author t target).
Proof. unfold reference_line, sd_line. unmoved. Qed.

Lemma unmoved_distribute owners href id schema author t target l :
  unmoved f (distribute marshal_reference fromFQDN fromCSID destFQDN source owners href id schema author t target l).
Proof.
  induction l as [|x l IH]; cbn [distribute]; [unmoved|]. apply unmoved_if; [done|]. apply unmoved_bind; [apply unmoved_local|]. intros local.
  apply unmoved_if; [done|]. apply unmoved_bind; [apply unmoved_reference_line|]. intros line. apply unmoved_bind; [done|unmoved].
Qed.

Lemma unmoved_body b text : unmoved f (message_body b text).
Proof. unfold message_body, with_post_key, resolvePostKey, ResolveMigrationTable. unmoved. Qed.
Lemma unmoved_assoc_body b text : unmoved f (association_body b text).
Proof. unfold association_body, with_post_key, resolvePostKey, ResolveMigrationTable. unmoved. Qed.

Lemma unmoved_finish d : unmoved f (finish fromFQDN fromCSID destFQDN source d).
Proof. unfold finish. apply unmoved_bind; [apply unmoved_if; [unmoved|apply unmoved_local]|]. unmoved. Qed.

Lemma unmoved_real_key k : unmoved f (real_key k).
Proof. unfold real_key. unmoved. Qed.

Lemma unmoved_delete_lines keys author t : unmoved f (delete_lines keys author t).
Proof. induction keys as [|k keys IH]; cbn [delete_lines]; unfold sd_line; unmoved. Qed.
End Steps.
(** ** The table of keys *)

Lemma table_frame s m : MigrationTable (set_entityCache s m) = MigrationTable s.
Proof. by destruct s. Qed.

Local Abbreviation save_message := (convertMessage marshal_reference fromFQDN fromCSID destFQDN source).
Local Abbreviation save_profile := (convertProfile fromFQDN fromCSID destFQDN source).

(** A delete goes where its message went: once a message was converted - even
    when its lines could not be written - the deletion of its old identifier is
    the deletion of the key it was filed under, in the profile it was posted
    from. *)
Theorem message_deleted text cdidBase author st r st1 m del d st2 :
  save_message text cdidBase author st = (r, st1) → decode_message text = Ok m →
  decode_deletion del = Ok d → V1.d_Target d = "m" +:+ cdidBase →
  MigrationTable st2 !! ("m" +:+ cdidBase) = MigrationTable st1 !! ("m" +:+ cdidBase) →
  MigrationTable st2 !! ("m" +:+ cdidBase +:+ "#real") = None →
  convertDelete del st2 = delete_lines [post_key (V1.b_Signer (V1.m_Base m)) cdidBase (V1.m_Timelines m)]
    (V1.b_Signer (V1.d_Base d)) (V1.b_SignedAt (V1.d_Base d)) st2.
Proof.
  intros Hc Hm Hd Ht Hk Hreal. assert (MigrationTable st1 = <["m" +:+ cdidBase := post_key (V1.b_Signer (V1.m_Base m)) cdidBase (V1.m_Timelines m)]> (MigrationTable st)) as Htab.
  { unfold convertMessage in Hc. rewrite Hm in Hc. rewrite bindM_lift in Hc. unfold SaveMigrationTable in Hc. rewrite bindM_modify in Hc.
    set (st0 := set_table st _) in Hc. change (MigrationTable st1) with (MigrationTable (snd (r, st1))). rewrite <- Hc.
    transitivity (MigrationTable st0); [|done]. generalize st0. apply unmoved_bind; [apply unmoved_body|]. intros body.
    apply unmoved_bind; [unmoved|]. intros doc. apply unmoved_bind; [unfold sd_line; unmoved|]. intros line. apply unmoved_bind; [unmoved|]. intros _.
    apply unmoved_bind; [apply unmoved_if; [apply unmoved_reference_line|unmoved]|]. intros mapping.
    apply unmoved_bind; [apply unmoved_distribute, table_frame|]. intros lines. unmoved. }
  unfold convertDelete, parsed. rewrite Hd. unfold ResolveMigrationTable. rewrite bindM_gets, Ht, Hk, Htab, lookup_insert_eq, bindM_gets.
  by rewrite str_app_assoc, Hreal.
Qed.

(** The identifier of a profile in version 1. *)
Definition profile_id (b : V1.DocumentBase) (cdidBase : string) : string :=
  if negb (String.eqb (V1.b_SemanticID b) "") then V1.b_SemanticID b
  else if negb (String.eqb (V1.b_ID b) "") then V1.b_ID b else "p" +:+ cdidBase.

Definition profile_key (signer id : string) : string := "cckv://" +:+ signer +:+ "/concrnt.world/profiles/" +:+ id.

(** The delete of a sub-profile hits the main profile.  A profile that is not
    the main one is filed under its own key, but the table is written before
    that key is known, with the key of the main profile; the deletion of the
    sub-profile's identifier becomes the deletion of the author's main profile,
    and the sub-profile stays. *)
Theorem subprofile_delete_hits_main text cdidBase b st r st1 del d :
  decode_profile text = Ok b → V1.b_SemanticID b ≠ "world.concrnt.p" → save_profile text cdidBase st = (r, st1) →
  decode_deletion del = Ok d → V1.d_Target d = profile_id b cdidBase → MigrationTable st !! (profile_id b cdidBase +:+ "#real") = None →
  save_profile text cdidBase st =
    finish fromFQDN fromCSID destFQDN source
      (record_of (profile_key (V1.b_Signer b) (profile_id b cdidBase)) (V1.b_Body b) (V1.b_Signer b) (V1.b_Schema b) (V1.b_SignedAt b) None)
      (set_table st (<[profile_id b cdidBase := profile_key (V1.b_Signer b) "main"]> (MigrationTable st))) ∧
  convertDelete del st1 =
    delete_lines [profile_key (V1.b_Signer b) "main"] (V1.b_Signer (V1.d_Base d)) (V1.b_SignedAt (V1.d_Base d)) st1.
Proof.
  intros Hb Hsem Hc Hd Ht Hreal.
  assert (save_profile text cdidBase st = finish fromFQDN fromCSID destFQDN source
      (record_of (profile_key (V1.b_Signer b) (profile_id b cdidBase)) (V1.b_Body b) (V1.b_Signer b) (V1.b_Schema b) (V1.b_SignedAt b) None)
      (set_table st (<[profile_id b cdidBase := profile_key (V1.b_Signer b) "main"]> (MigrationTable st)))) as Hsave.
  { unfold convertProfile. rewrite Hb, bindM_lift. unfold SaveMigrationTable. rewrite bindM_modify.
    apply String.eqb_neq in Hsem. rewrite Hsem. done. }
  split; [done|]. rewrite Hc in Hsave. pose proof (unmoved_finish MigrationTable table_frame) as Hk.
  assert (MigrationTable st1 = <[profile_id b cdidBase := profile_key (V1.b_Signer b) "main"]> (MigrationTable st)) as Htab.
  { change (MigrationTable st1) with (MigrationTable (snd (r, st1))). rewrite Hsave. apply Hk. }
  unfold convertDelete, parsed. rewrite Hd. unfold ResolveMigrationTable. rewrite bindM_gets, Ht, Htab, lookup_insert_eq, bindM_gets, Htab.
  rewrite lookup_insert_ne, Hreal; [done|]. intros E. apply (f_equal Str.len) in E. rewrite str_len_app in E. cbn in E. lia.
Qed.
(** ** Whose documents are sent *)

Definition local_id (id : string) : Prop := ∃ e, V1.entities source !! id = Some e ∧ isLocalEntity fromFQDN fromCSID e = true.

(** A key of this server or of one of its users. *)
Definition local_key (k : string) : Prop :=
  (∃ uri, ParseCCURI k = Ok uri ∧ (Ccuri.Owner uri = destFQDN ∨ local_id (Ccuri.Owner uri))) ∨
  (∃ id rest, local_id id ∧ k = "cckv://" +:+ id +:+ "/" +:+ rest).

Definition local_document (text : string) : Prop :=
  (∃ d, marshal_document d = Ok text ∧
     (Kind d = "record" ∧ local_key (Key d) ∨
      (∃ a body k, d = association_document fromFQDN fromCSID destFQDN a body k ∧ local_id (V1.b_Owner (V1.a_Base a))) ∨
      Kind d = "delete" ∧ Key d = "")) ∨
  (∃ d, marshal_reference d = Ok text ∧ local_key (Key d)).

Definition local_line (line : string) : Prop := ∃ sd, marshal_signed_document sd = Ok line ∧ local_document (sd_Document sd).

Definition lines_text (ls : list string) : string := Str.join ((λ l, l +:+ newline) <$> ls) "".

(** Lines, or one that is not ended. *)
Definition local_lines (text : string) : Prop := ∃ ls, Forall local_line ls ∧ text = lines_text ls.
Definition local_output (text : string) : Prop := local_lines text ∨ local_line text.

Lemma join_app l k : Str.join (l ++ k) "" = Str.join l "" +:+ Str.join k "".
Proof.
  induction l as [|x l IH]; [done|]. destruct l as [|y l].
  - destruct k as [|z k]; cbn; [by rewrite str_app_nil_r|done].
  - change (Str.join ((x :: y :: l) ++ k) "") with (x +:+ "" +:+ Str.join ((y :: l) ++ k) ""). rewrite IH.
    change (Str.join (x :: y :: l) "") with (x +:+ "" +:+ Str.join (y :: l) ""). by rewrite !str_app_assoc.
Qed.

Lemma local_lines_nil : local_lines "".
Proof. by exists []. Qed.

Lemma local_lines_one l : local_line l → local_lines (l +:+ newline).
Proof. intros Hl. exists [l]. split; [by constructor|]. done. Qed.

Lemma local_lines_app a b : local_lines a → local_lines b → local_lines (a +:+ b).
Proof.
  intros (la & Ha & ->) (lb & Hb & ->). exists (la ++ lb). split; [by apply Forall_app|]. unfold lines_text. by rewrite fmap_app, join_app.
Qed.

(** The cache holds what the old database holds. *)
Definition cache_ok (st : Migration) : Prop := ∀ id e, entityCache st !! id = Some e → V1.entities source !! id = Some e.

Definition yields {A} (Q : A → Prop) (m : MM A) : Prop :=
  ∀ st r st', cache_ok st → m st = (r, st') → cache_ok st' ∧ ∀ a, r = Ok a → Q a.

Lemma yields_bind {A B} (P : A → Prop) (Q : B → Prop) (m : MM A) k : yields P m → (∀ a, P a → yields Q (k a)) → yields Q (bindM m k).
Proof.
  intros Hm Hk st r st' Hst Hr. unfold bindM in Hr. destruct (m st) as [rm st1] eqn:E. apply Hm in E as [Hst1 HP]; [|done].
  destruct rm as [a|e|]; [by apply (Hk a (HP a eq_refl) st1)|by injection Hr as <- <-..].
Qed.

Lemma yields_ret {A} (Q : A → Prop) a : Q a → yields Q (retM a).
Proof. intros Ha st r st' Hst [= <- <-]. split; [done|]. by intros ? [= <-]. Qed.

Lemma yields_lift {A} (r : result A) : yields (λ a, r = Ok a) (liftM r).
Proof. intros st r' st' Hst [= <- <-]. done. Qed.

Lemma yields_unmoved {A} (m : MM A) : unmoved entityCache m → yields (λ _, True) m.
Proof.
  intros Hm st r st' Hst Hr. specialize (Hm st). rewrite Hr in Hm. cbn in Hm. split; [|done]. intros id e He. apply Hst. by rewrite <- Hm.
Qed.

Lemma yields_try {A} (Q : A → Prop) (m : MM A) : yields Q m → yields (λ r, ∀ a, r = Ok a → Q a) (tryM m).
Proof.
  intros Hm st r st' Hst Hr. unfold tryM in Hr. destruct (m st) as [rm st1] eqn:E. apply Hm in E as [Hst1 HQ]; [|done].
  destruct rm; injection Hr as <- <-; (split; [done|]); intros a' [= <-]; [|done]. intros a0 [= ->]. by apply HQ.
Qed.

Lemma yields_fail {A} (Q : A → Prop) e : yields Q (failM e).
Proof. by intros st r st' Hst [= <- <-]. Qed.

Lemma yields_panic {A} (Q : A → Prop) : yields Q panicM.
Proof. by intros st r st' Hst [= <- <-]. Qed.

Lemma yields_getEntity id : yields (λ e, V1.entities source !! id = Some e) (getEntity source id).
Proof.
  intros st r st' Hst Hr. unfold getEntity in Hr. rewrite bindM_gets in Hr. destruct (entityCache st !! id) as [e|] eqn:E.
  - injection Hr as <- <-. split; [done|]. intros ? [= <-]. by apply Hst.
  - destruct (V1.entities source !! id) as [e|] eqn:Es; [|by injection Hr as <- <-]. rewrite bindM_modify in Hr. injection Hr as <- <-.
    split; [|by intros ? [= <-]]. intros j e'. cbn. intros [[<- <-]|[_ Hj]]%lookup_insert_Some; [exact Es|by apply Hst].
Qed.

Lemma yields_local key : yields (λ b, b = true → local_key key) (keyOwnerIsLocal fromFQDN fromCSID destFQDN source key).
Proof.
  unfold keyOwnerIsLocal. destruct (ParseCCURI key) as [uri|e|] eqn:E; [|by apply yields_ret|apply yields_panic].
  destruct (String.eqb_spec (Ccuri.Owner uri) destFQDN) as [Ho|_].
  - apply yields_ret. intros _. left. exists uri. split; [done|by left].
  - eapply yields_bind; [apply yields_try, yields_getEntity|]. intros r Hr. apply yields_ret. destruct r as [e| |]; [|done..].
    intros Hl. left. exists uri. split; [done|]. right. exists e. split; [by apply Hr|done].
Qed.

Lemma yields_sd_line sd : local_document (sd_Document sd) → yields local_lines (sd_line sd).
Proof.
  intros Hd st r st' Hst Hr. unfold sd_line in Hr. injection Hr as <- <-. split; [done|]. intros text Ht.
  apply rbind_ok_inv in Ht as (line & Hl & [= <-]). apply local_lines_one. by exists sd.
Qed.

Lemma yields_reference key href schema author t target : local_key key →
  yields local_lines (reference_line marshal_reference key href schema author t target).
Proof.
  intros Hk. unfold reference_line. eapply yields_bind; [apply yields_lift|]. intros text Ht. apply yields_sd_line. right. eexists. split; [exact Ht|exact Hk].
Qed.

Lemma yields_distribute owners href id schema author t target l :
  yields local_lines (distribute marshal_reference fromFQDN fromCSID destFQDN source owners href id schema author t target l).
Proof.
  induction l as [|x l IH]; cbn [distribute]; [apply yields_ret, local_lines_nil|]. destruct (negb (existsb _ _)); [done|].
  eapply yields_bind; [apply yields_local|]. intros [|] Hl; cbn [negb]; [|done]. eapply yields_bind; [apply yields_reference; by apply Hl|].
  intros line Hline. eapply yields_bind; [exact IH|]. intros lines Hlines. by apply yields_ret, local_lines_app.
Qed.
Lemma yields_weaken {A} (P Q : A → Prop) (m : MM A) : (∀ a, P a → Q a) → yields P m → yields Q m.
Proof. intros HPQ Hm st r st' Hst Hr. apply Hm in Hr as [? HP]; [|done]. split; [done|]. intros a Ha. by apply HPQ, HP. Qed.

Lemma yields_parsed {A} (r : result A) (k : A → MM string) : (∀ a, r = Ok a → yields local_output (k a)) → yields local_output (parsed r k).
Proof.
  intros Hk. destruct r as [a|e|]; [by apply Hk|apply yields_ret; left; apply local_lines_nil|apply yields_panic].
Qed.

Lemma unsigned_line d text : marshal_document d = Ok text → (Kind d = "record" ∧ local_key (Key d) ∨ Kind d = "delete" ∧ Key d = "") →
  local_document (sd_Document (unsigned text)).
Proof. intros Hd Hk. left. exists d. split; [exact Hd|]. tauto. Qed.

Lemma yields_finish d : (Kind d = "record" ∧ Key d ≠ "") ∨ (Kind d = "delete" ∧ Key d = "") →
  yields local_output (finish fromFQDN fromCSID destFQDN source d).
Proof.
  intros Hd. unfold finish. eapply (yields_bind (λ b, b = true → Key d ≠ "" → local_key (Key d))).
  - destruct (String.eqb_spec (Key d) "") as [E|_]; [by apply yields_ret|]. eapply yields_weaken; [|apply yields_local]. auto.
  - intros [|] Hl; cbn [negb]; [|apply yields_ret; left; apply local_lines_nil]. eapply yields_weaken; [|apply yields_lift].
    intros line Hline. apply rbind_ok_inv in Hline as (text & Ht & Hline). right. eexists. split; [exact Hline|].
    eapply unsigned_line; [exact Ht|]. destruct Hd as [[Hk Hne]|?]; [left|by right]. split; [done|by apply Hl].
Qed.

Lemma yields_body b text : yields (λ _, True) (message_body b text).
Proof. apply yields_unmoved, unmoved_body. Qed.
Lemma yields_assoc_body b text : yields (λ _, True) (association_body b text).
Proof. apply yields_unmoved, unmoved_assoc_body. Qed.
Lemma yields_save k v : yields (λ _, True) (SaveMigrationTable k v).
Proof. apply yields_unmoved. unfold SaveMigrationTable. unmoved. Qed.

Lemma local_post_key signer cdidBase timelines : local_id signer → local_key (post_key signer cdidBase timelines).
Proof. intros Hs. right. unfold post_key. eexists signer, _. split; [done|]. by cbn. Qed.

Lemma yields_message text cdidBase author : (∀ m, decode_message text = Ok m → isLocalEntity fromFQDN fromCSID author = true →
    local_id (V1.b_Signer (V1.m_Base m))) → yields local_output (save_message text cdidBase author).
Proof.
  intros Ha. unfold convertMessage. eapply yields_bind; [apply yields_lift|]. intros m Hm. specialize (Ha m Hm).
  eapply yields_bind; [apply yields_save|]. intros _ _. eapply yields_bind; [apply yields_body|]. intros body _.
  eapply yields_bind; [apply yields_lift|]. intros doc Hdoc. destruct (isLocalEntity fromFQDN fromCSID author).
  - specialize (Ha eq_refl). eapply yields_bind; [apply yields_sd_line; eapply unsigned_line; [exact Hdoc|left; split; [done|by apply local_post_key]]|].
    intros line Hline. eapply yields_bind; [apply yields_unmoved; unmoved|]. intros _ _.
    eapply yields_bind; [apply yields_reference; right; unfold v1_key; eexists _, _; by split|]. intros mapping Hmap.
    eapply yields_bind; [apply yields_distribute|]. intros lines Hlines. apply yields_ret. left. auto using local_lines_app.
  - eapply yields_bind; [apply (yields_ret local_lines), local_lines_nil|]. intros line Hline. eapply yields_bind; [apply yields_unmoved; unmoved|].
    intros _ _. eapply yields_bind; [apply (yields_ret local_lines), local_lines_nil|]. intros mapping Hmap.
    eapply yields_bind; [apply yields_distribute|]. intros lines Hlines. apply yields_ret. left. auto using local_lines_app.
Qed.

Lemma yields_association text cdidBase : yields local_output (convertAssociation marshal_reference fromFQDN fromCSID destFQDN source text cdidBase).
Proof.
  unfold convertAssociation. eapply yields_bind; [apply yields_lift|]. intros a Ha. eapply yields_bind; [apply yields_getEntity|]. intros e He.
  eapply yields_bind; [apply yields_assoc_body|]. intros body _. eapply yields_bind; [apply yields_lift|]. intros doc Hdoc.
  eapply yields_bind; [apply yields_save|]. intros _ _. eapply (yields_bind local_lines).
  - destruct (isLocalEntity fromFQDN fromCSID e) eqn:El; [|apply yields_ret, local_lines_nil].
    assert (local_id (V1.b_Owner (V1.a_Base a))) as Hown by by exists e.
    assert (∀ body k text', marshal_document (association_document fromFQDN fromCSID destFQDN a body k) = Ok text' → local_document text') as Hassoc.
    { intros body' k text' Ht. left. eexists. split; [exact Ht|]. right. left. by eexists a, body', k. }
    eapply yields_bind; [apply yields_sd_line; exact (Hassoc _ _ _ Hdoc)|]. intros line Hline.
    eapply yields_bind; [apply yields_unmoved, unmoved_real_key|]. intros k _. eapply yields_bind; [apply yields_lift|]. intros real Hreal.
    eapply yields_bind; [apply yields_save|]. intros _ _. eapply yields_bind; [apply yields_sd_line; exact (Hassoc _ _ _ Hreal)|]. intros line2 Hline2.
    by apply yields_ret, local_lines_app.
  - intros own Hown. eapply yields_bind; [apply yields_distribute|]. intros lines Hlines. apply yields_ret. left. by apply local_lines_app.
Qed.

Lemma yields_delete_lines keys author t : yields local_lines (delete_lines keys author t).
Proof.
  induction keys as [|k keys IH]; cbn [delete_lines]; [apply yields_ret, local_lines_nil|]. eapply yields_bind; [apply yields_lift|]. intros text Ht.
  eapply yields_bind; [apply yields_sd_line; eapply unsigned_line; [exact Ht|by right]|]. intros line Hline.
  eapply yields_bind; [exact IH|]. intros lines Hlines. by apply yields_ret, local_lines_app.
Qed.

Lemma timeline_id_ne t cdidBase : timeline_id destFQDN t cdidBase ≠ "".
Proof.
  unfold timeline_id. cbn zeta. set (tlid := if String.eqb (V1.b_SemanticID _) "" then _ else _). destruct (Str.contains_char tlid "@") eqn:E; [by intros Ht; rewrite Ht in E|].
  intros Hn. apply (f_equal Str.len) in Hn. rewrite str_len_app in Hn. cbn in Hn. lia.
Qed.

Lemma convertTimeline_ne x : x ≠ "" → convertTimeline fromFQDN fromCSID destFQDN x ≠ "".
Proof.
  intros Hx. unfold convertTimeline. destruct (Str.split x "@") as [|id [|host [|? ?]]]; [done..| |done].
  by repeat (destruct (String.eqb id _); [done|]); destruct (Str.has_prefix id _).
Qed.
(** The decoders agree on who signed a document. *)
Definition signer_agrees : Prop := ∀ text b m, decode_base text = Ok b → decode_message text = Ok m → V1.b_Signer (V1.m_Base m) = V1.b_Signer b.

(** What the new server refuses anyway is not sent: every line made of a
    document of version 1 is a record under a key of this server or of a local
    entity, an association with a local owner, or a delete - whoever signed
    the document and whatever timelines it was sent to. *)
Theorem converted_local c st text st' : signer_agrees → cache_ok st → convert c st = (Ok text, st') → local_output text.
Proof.
  intros Hagree Hst Hc. assert (yields local_output (convert c)) as Hy; [|by apply (Hy st _ _ Hst Hc)]. clear text st' Hst Hc.
  assert (yields local_output (retM "")) as Hnone by (apply yields_ret; left; apply local_lines_nil).
  unfold convertRecord. eapply yields_bind; [apply yields_lift|]. intros b Hb. destruct (in_list _ _); [done|].
  eapply yields_bind; [apply yields_getEntity|]. intros e He.
  destruct (String.eqb (V1.b_Type b) "message").
  { apply yields_message. intros m Hm Hl. rewrite (Hagree _ _ _ Hb Hm). by exists e. }
  destruct (String.eqb (V1.b_Type b) "profile").
  { unfold convertProfile. eapply yields_bind; [apply yields_lift|]. intros p _. eapply yields_bind; [apply yields_save|]. intros _ _.
    apply yields_finish. left. split; [done|]. cbn [record_of Key]. by destruct (negb (String.eqb (V1.b_SemanticID p) "world.concrnt.p")). }
  destruct (String.eqb (V1.b_Type b) "association"); [apply yields_association|].
  destruct (String.eqb (V1.b_Type b) "timeline").
  { apply yields_parsed. intros t _. cbv beta zeta. destruct (Str.has_prefix (timeline_id destFQDN t _) _); [done|]. eapply yields_bind; [apply yields_save|]. intros _ _.
    apply yields_finish. left. split; [done|]. apply convertTimeline_ne, timeline_id_ne. }
  destruct (String.eqb (V1.b_Type b) "subscription").
  { apply yields_parsed. intros s _. eapply yields_bind; [apply yields_save|]. intros _ _. apply yields_finish. by left. }
  destruct (String.eqb (V1.b_Type b) "subscribe"); [apply yields_parsed; intros s _; apply yields_finish; by left|].
  destruct (String.eqb (V1.b_Type b) "unsubscribe"); [apply yields_parsed; intros s _; apply yields_finish; by right|].
  destruct (String.eqb (V1.b_Type b) "delete"); [|done].
  apply yields_parsed. intros d _. unfold ResolveMigrationTable. eapply yields_bind; [apply yields_unmoved; unmoved|]. intros [k|] _; [|done].
  eapply yields_bind; [apply yields_unmoved; unmoved|]. intros real _. eapply yields_weaken; [|apply yields_delete_lines]. by left.
Qed.

(** ** Registrations *)

Local Abbreviation save_metas := (transferMetas fromFQDN fromCSID ignoreIDs source).

Lemma saved_metas (ms : list EntityMeta) (m0 : gmap string EntityMeta) id :
  is_Some (foldl (λ (m : gmap string EntityMeta) x, <[em_ID x := x]> m) m0 ms !! id) ↔ id ∈ em_ID <$> ms ∨ is_Some (m0 !! id).
Proof.
  revert m0. induction ms as [|x ms IH]; intros m0; cbn; [set_solver|]. rewrite IH. cbn. rewrite lookup_insert_is_Some', elem_of_cons. naive_solver.
Qed.

(** Every local entity that is not ignored is registered before the entities
    are sent, which the new server requires; no registration is lost. *)
Theorem local_registered st st' : save_metas st = (Ok tt, st') →
  (∀ id, local_id id → in_list ignoreIDs id = false → is_Some (dest_metas st' !! id)) ∧
  (∀ id, is_Some (dest_metas st !! id) → is_Some (dest_metas st' !! id)).
Proof.
  intros [= <-]. cbn. split; intros id; rewrite !saved_metas.
  - intros (e & He & Hl) Hi. destruct (in_list (V1.em_ID <$> V1.metas source) id) eqn:Hm.
    + right. left. unfold in_list in Hm. apply existsb_exists in Hm as (x & Hx%list_elem_of_In & ->%String.eqb_eq).
      apply list_elem_of_fmap in Hx as (m & -> & Hm). apply list_elem_of_fmap. eexists. split; [|apply list_elem_of_fmap; by exists m]. done.
    + left. apply list_elem_of_fmap. exists (activated id). split; [done|]. apply list_elem_of_fmap. exists (id, e). split; [done|].
      apply elem_of_filter_b. split; [by apply elem_of_map_to_list|]. cbn [fst snd]. by rewrite Hl, Hm, Hi.
  - auto.
Qed.

(** ** The seeker *)

Context (post : string → DB → result (list ImportResult) * DB).

Lemma info_save k v : unmoved MigrationInfo (SaveMigrationTable k v).
Proof. unfold SaveMigrationTable. unmoved. Qed.

Lemma info_record c : unmoved MigrationInfo (convert c).
Proof.
  assert (∀ s m, MigrationInfo (set_entityCache s m) = MigrationInfo s) as Hf by by intros [].
  pose proof (unmoved_getEntity MigrationInfo Hf) as He. pose proof (unmoved_distribute MigrationInfo Hf) as Hd.
  pose proof (unmoved_finish MigrationInfo Hf) as Hfin. pose proof info_save as Hs.
  pose proof (unmoved_reference_line MigrationInfo) as Hr. pose proof (unmoved_body MigrationInfo) as Hb.
  pose proof (unmoved_assoc_body MigrationInfo) as Ha. pose proof (unmoved_real_key MigrationInfo) as Hk.
  pose proof (unmoved_delete_lines MigrationInfo) as Hl.
  unfold convertRecord, convertMessage, convertAssociation, convertProfile, convertTimelineDocument, convertSubscription,
    convertSubscribe, convertUnsubscribe, convertDelete, parsed, sd_line, ResolveMigrationTable.
  unmoved; auto.
Qed.

Lemma info_page l : unmoved MigrationInfo (convert_page marshal_reference fromFQDN fromCSID destFQDN ignoreIDs source l).
Proof.
  induction l as [|c l IH]; cbn [convert_page]; [unmoved|]. apply unmoved_bind; [apply unmoved_try, info_record|]. intros r.
  apply unmoved_bind; [done|]. intros b. unmoved.
Qed.

Lemma ParseUint_FormatInt n : 0 <= n < 2 ^ 64 → ParseUint (FormatInt n) = Ok n.
Proof.
  intros Hn. destruct n as [|p|p]; [reflexivity| |lia]. change (FormatInt (Z.pos p)) with (pretty_N_go (N.pos p) "").
  destruct (pretty_N_go_head (N.pos p) "" ltac:(done)) as (d & rest & _ & Hgo).
  pose proof (parse_digits_go (N.pos p) "" ltac:(done)) as Hp. unfold ParseUint. rewrite Hp, Hgo. cbn [String.eqb parse_digits rbind mbind result_bind].
  by rewrite (proj2 (Z.ltb_lt _ _)) by lia.
Qed.

(** *** The commit logs that are left *)

Definition by_id (x y : V1.CommitLog) : bool := V1.c_ID x <=? V1.c_ID y.

Definition commits_after (lastKey : Z) : list V1.CommitLog :=
  list_query by_id (λ c, lastKey <? V1.c_ID c) 0 "" (V1.commits source).

(** Serial numbers: positive, of 64 bits, and unique. *)
Definition serial : Prop := NoDup (V1.c_ID <$> V1.commits source) ∧ Forall (λ c, 0 < V1.c_ID c < 2 ^ 64) (V1.commits source).

Lemma page_take lastKey : page_after source lastKey = take page_size (commits_after lastKey).
Proof. unfold page_after. rewrite list_query_limit by (unfold page_size; lia). by rewrite Nat2Z.id. Qed.

Lemma elem_of_after lastKey c : c ∈ commits_after lastKey ↔ c ∈ V1.commits source ∧ lastKey < V1.c_ID c.
Proof. unfold commits_after. by rewrite list_query_all, Z.ltb_lt. Qed.

Lemma after_sorted lastKey : StronglySorted (λ x y, V1.c_ID x <= V1.c_ID y) (commits_after lastKey).
Proof.
  assert (∀ x y, by_id x y = true ∨ by_id y x = true) as Htotal by (intros x y; unfold by_id; rewrite !Z.leb_le; lia).
  assert (∀ x y z, by_id x y = true → by_id y z = true → by_id x z = true) as Htrans by (intros x y z; unfold by_id; rewrite !Z.leb_le; lia).
  pose proof (list_query_sorted by_id Htotal Htrans (λ c, lastKey <? V1.c_ID c) "" (V1.commits source)) as Hs.
  fold (commits_after lastKey) in Hs. induction Hs as [|x l Hs IH Hx]; [constructor|]. constructor; [done|].
  eapply Forall_impl; [exact Hx|]. intros y. unfold ordering, by_id. cbn. by rewrite Z.leb_le.
Qed.

Lemma after_distinct lastKey : serial → NoDup (V1.c_ID <$> commits_after lastKey).
Proof.
  intros [Hnd _]. unfold commits_after, list_query, limited. cbn. rewrite merge_sort_Permutation.
  induction (V1.commits source) as [|c l IH]; [done|]. cbn in Hnd |- *. apply NoDup_cons in Hnd as [Hc Hnd].
  destruct (lastKey <? V1.c_ID c); [|by apply IH]. cbn. apply NoDup_cons. split; [|by apply IH].
  intros (x & Hx & Hin)%list_elem_of_fmap. apply Hc. apply list_elem_of_fmap. exists x. split; [done|]. by apply elem_of_filter_b in Hin as [? _].
Qed.

Lemma same_serial : serial → ∀ x y, x ∈ V1.commits source → y ∈ V1.commits source → V1.c_ID x = V1.c_ID y → x = y.
Proof.
  intros [Hnd _] x y Hx Hy E. apply list_elem_of_lookup in Hx as [i Hi], Hy as [j Hj].
  assert (i = j) as ->; [|congruence]. eapply NoDup_lookup; [exact Hnd| |].
  - by rewrite list_lookup_fmap, Hi.
  - by rewrite list_lookup_fmap, Hj, E.
Qed.

(** Past the last of some that come first come the others. *)
Lemma after_next lastKey l k c : serial → commits_after lastKey = l ++ k → last l = Some c → commits_after (V1.c_ID c) = k.
Proof.
  intros Hs Hl Hc. pose proof (after_sorted lastKey) as Hsort. pose proof (after_distinct lastKey Hs) as Hnd.
  rewrite Hl in Hsort. rewrite Hl, fmap_app in Hnd. apply NoDup_app in Hnd as (Hnl & Hdis & Hnk).
  apply last_Some in Hc as (l' & ->). apply StronglySorted_app in Hsort as (Hlk & Hsl & Hsk).
  eapply StronglySorted_unique_strong; [|apply after_sorted|exact Hsk|].
  - intros x y [Hx _]%elem_of_after Hy Hle1 Hle2. assert (y ∈ commits_after lastKey) as [Hy' _]%elem_of_after by (rewrite Hl; set_solver).
    apply (same_serial Hs); [done..|lia].
  - apply NoDup_Permutation.
    + eapply NoDup_fmap_1, after_distinct, Hs.
    + by eapply NoDup_fmap_1.
    + intros x. rewrite elem_of_after. split.
      * intros [Hx Hlt]. assert (x ∈ (l' ++ [c]) ++ k) as Hin.
        { rewrite <- Hl. apply elem_of_after. split; [done|]. assert (c ∈ commits_after lastKey) as [_ ?]%elem_of_after by (rewrite Hl; set_solver). lia. }
        apply elem_of_app in Hin as [Hin|]; [|done]. exfalso. apply elem_of_app in Hin as [Hin| ->%list_elem_of_singleton]; [|lia].
        apply StronglySorted_app in Hsl as (Hlc & _). specialize (Hlc x c Hin ltac:(by left)). lia.
      * intros Hx. assert (x ∈ commits_after lastKey) as [Hx' _]%elem_of_after by (rewrite Hl; set_solver). split; [done|].
        assert (V1.c_ID c <= V1.c_ID x) by (apply Hlk; [set_solver|done]).
        assert (V1.c_ID c ≠ V1.c_ID x); [|lia]. intros E. apply (Hdis (V1.c_ID c)); [|rewrite E; by apply list_elem_of_fmap_2].
        apply list_elem_of_fmap_2. set_solver.
Qed.
(** *** The run of the pages *)

Local Abbreviation send := (transfer_page marshal_reference fromFQDN fromCSID destFQDN ignoreIDs source post).

(** Pages that were converted, posted and remembered one after the other, and
    how many lines of them the server refused. *)
Inductive sent : list (list V1.CommitLog) → nat → Migration → Migration → Prop :=
| sent_none st : sent [] 0 st st
| sent_page p ps n m st st1 st2 : send p st = (Ok n, st1) → sent ps m st1 st2 → sent (p :: ps) (n + m) st st2.

Lemma send_seeker p st r st' : send p st = (r, st') →
  MigrationInfo st' !! "records" = if is_ok r then Some (FormatInt (last_key p)) else MigrationInfo st !! "records".
Proof.
  unfold transfer_page, bindM. pose proof (info_page p st) as Hp. destruct (convert_page _ _ _ _ _ _ p st) as [[b|e|] st1]; cbn in Hp.
  2,3: intros [= <- <-]; by rewrite Hp.
  unfold Migrate.commit. destruct (post b (dest st1)) as [[l|e|] db]; intros [= <- <-]; cbn; [by rewrite lookup_insert_eq|by rewrite Hp..].
Qed.

Definition seeker (st : Migration) : option Z := seeker_of (MigrationInfo st !! "records").

(** Where a run has come: the pages [ps] are done, the commit logs [rest] are
    left and are what a run from here starts with. *)
Definition came_to (lastKey : Z) (st : Migration) (ps : list (list V1.CommitLog)) (n : nat) (rest : list V1.CommitLog) (st1 : Migration) : Prop :=
  commits_after lastKey = concat ps ++ rest ∧ Forall (λ p, (0 < length p <= page_size)%nat) ps ∧ sent ps n st st1 ∧
  ∃ k, seeker st1 = Some k ∧ commits_after k = rest.

(** A run is done, or its next page failed. *)
Definition stopped (total n : nat) (rest : list V1.CommitLog) (st1 : Migration) (r : result nat) (st' : Migration) : Prop :=
  (rest = [] ∧ r = Ok (total + n)%nat ∧ st' = st1) ∨
  (rest ≠ [] ∧ is_ok r = false ∧ send (take page_size rest) st1 = (r, st') ∧ seeker st' = seeker st1).

Lemma seeker_page p st n st' c : serial → send p st = (Ok n, st') → last p = Some c → c ∈ V1.commits source → seeker st' = Some (V1.c_ID c).
Proof.
  intros [_ Hser] Hs%send_seeker Hc Hin. unfold seeker. rewrite Hs. cbn [is_ok]. unfold last_key. rewrite Hc. unfold seeker_of.
  rewrite Forall_forall in Hser. specialize (Hser c Hin). by rewrite ParseUint_FormatInt by lia.
Qed.

Lemma take_last {A} n (l : list A) : (0 < n)%nat → l ≠ [] → ∃ c, last (take n l) = Some c ∧ c ∈ l ∧ take n l ≠ [].
Proof.
  intros Hn Hl. assert (take n l ≠ []) as Ht by (destruct n; [lia|by destruct l]). destruct (last (take n l)) as [c|] eqn:E; [|by apply last_None in E].
  exists c. split_and!; [done| |done]. apply last_Some_elem_of in E. rewrite <- (take_drop n l). set_solver.
Qed.

Lemma pages_run fuel lastKey total st r st' : serial → seeker st = Some lastKey → (length (commits_after lastKey) < fuel)%nat →
  transfer_pages marshal_reference fromFQDN fromCSID destFQDN ignoreIDs source post fuel lastKey total st = (r, st') →
  ∃ ps n rest st1, came_to lastKey st ps n rest st1 ∧ stopped total n rest st1 r st'.
Proof.
  intros Hser. revert lastKey total st. induction fuel as [|fuel IH]; intros lastKey total st Hk Hf; [lia|]. cbn [transfer_pages].
  rewrite page_take. set (all := commits_after lastKey) in *. destruct (decide (all = [])) as [Hnil|Hne].
  - rewrite Hnil. intros [= <- <-]. exists [], 0%nat, [], st. split; [|left; split_and!; [done|by rewrite Nat.add_0_r|done]].
    split_and!; [by fold all|constructor|constructor|]. by exists lastKey.
  - destruct (take_last page_size all ltac:(unfold page_size; lia) Hne) as (c & Hc & Hin & Ht). apply elem_of_after in Hin as [Hin _].
    destruct (take page_size all) as [|c0 p0] eqn:Hp; [done|]. set (p := c0 :: p0) in *.
    unfold bindM. destruct (send p st) as [rp st1] eqn:Es.
    assert (seeker st1 = if is_ok rp then Some (V1.c_ID c) else seeker st) as Hsk.
    { destruct rp; cbn; [by eapply seeker_page|unfold seeker; apply send_seeker in Es; cbn in Es; by rewrite Es|].
      unfold seeker. apply send_seeker in Es. cbn in Es. by rewrite Es. }
    assert (commits_after (V1.c_ID c) = drop page_size all) as Hrest.
    { eapply (after_next lastKey p); [done| |done]. fold all. by rewrite <- Hp, take_drop. }
    assert ((0 < length p <= page_size)%nat) as Hlen by (split; [cbn; lia|]; rewrite <- Hp; apply firstn_le_length).
    assert (all = p ++ drop page_size all) as Hall by (by rewrite <- Hp, take_drop).
    destruct rp as [n|e|]; cbn [is_ok] in Hsk.
    + destruct (length p <? page_size)%nat eqn:Hshort.
      * intros [= <- <-]. apply Nat.ltb_lt in Hshort. assert (drop page_size all = []) as Hd.
        { apply drop_ge. rewrite <- Hp in Hshort. rewrite length_take in Hshort. lia. }
        exists [p], (n + 0)%nat, [], st1. split; [|left; split_and!; [done|do 2 f_equal; lia|done]].
        split_and!; [cbn; fold all; rewrite !app_nil_r; by rewrite Hd, app_nil_r in Hall|by constructor|by econstructor; [|constructor]|].
        exists (V1.c_ID c). by rewrite Hrest.
      * assert (last_key p = V1.c_ID c) as -> by (unfold last_key; by rewrite Hc).
        intros Hrun. apply IH in Hrun as (ps & m & rest & st2 & (Hcat & Hpages & Hsent & Hend) & Hstop); [|done|].
        2: { rewrite Hrest, length_drop. fold all in Hf. destruct all; [done|]. unfold page_size. cbn [length] in *. lia. }
        exists (p :: ps), (n + m)%nat, rest, st2. split.
        -- split_and!; [|by constructor|by econstructor|done]. cbn. rewrite <- app_assoc, <- Hcat, Hrest. exact Hall.
        -- destruct Hstop as [(-> & -> & ->)|Hstop]; [left; split_and!; [done|by rewrite Nat.add_assoc|done]|by right].
    + intros [= <- <-]. exists [], 0%nat, all, st. split; [split_and!; [done|constructor|constructor|by exists lastKey]|].
      right. split_and!; [done|done|by rewrite Hp|done].
    + intros [= <- <-]. exists [], 0%nat, all, st. split; [split_and!; [done|constructor|constructor|by exists lastKey]|].
      right. split_and!; [done|done|by rewrite Hp|done].
Qed.

(** A migration can be cut off and repeated.  It sends the commit logs the old
    server has beyond the last one remembered in the order of their numbers,
    each once, in pages of at most 512, remembering a page when the server has
    answered for it.  It ends with all of them sent, or stops at the first page
    that is not answered; then the next run starts with just the commit logs
    that this page begins. *)
Theorem migration_resumes lastKey st r st' : serial → seeker st = Some lastKey →
  transferRecords marshal_reference fromFQDN fromCSID destFQDN ignoreIDs source post st = (r, st') →
  ∃ ps n rest st1, came_to lastKey st ps n rest st1 ∧ stopped 0 n rest st1 r st' ∧
    ∃ k, seeker st' = Some k ∧ commits_after k = rest.
Proof.
  intros Hser Hk Hr. unfold transferRecords, LoadMigrationInfo in Hr. rewrite bindM_gets in Hr. fold (seeker st) in Hr. rewrite Hk in Hr.
  apply pages_run in Hr as (ps & n & rest & st1 & Hcame & Hstop); [|done|done|].
  - exists ps, n, rest, st1. split_and!; [done|done|]. destruct Hcame as (_ & _ & _ & k & Hsk & Hrest). exists k. split; [|done].
    destruct Hstop as [(_ & _ & ->)|(_ & _ & _ & ->)]; done.
  - unfold commits_after, list_query, limited. cbn. rewrite merge_sort_Permutation. apply Nat.lt_succ_r, length_filter_le.
Qed.
(** ** Entities *)

Context (format_rfc3339 : Z → string).

Local Abbreviation save_entities := (transferEntities fromFQDN fromCSID destFQDN ignoreIDs source post format_rfc3339).

(** Entities are remembered by the time when they have been posted, but were
    read before: an entity made in between - its time is before what the next
    run starts from - is in no later run. *)
Theorem entity_between_lost now st st' t : save_entities now st = (Ok tt, st') → parse_rfc3339 (format_rfc3339 now) = Ok t → t ≠ zero_time →
  ∀ later id e, V1.e_CDate e < t →
  MigrationInfo st' !! "entities" = Some (format_rfc3339 now) ∧ (id, e) ∉ entities_since ignoreIDs later t.
Proof.
  intros Hs Ht Hne later id e He. split.
  - unfold transferEntities, LoadMigrationInfo in Hs. rewrite bindM_gets in Hs.
    apply bindM_inv in Hs as (s & st1 & _ & Hs). apply bindM_inv in Hs as (rs & st2 & _ & Hs). destruct (bool_decide (rs = [])); [|done].
    injection Hs as <-. apply lookup_insert_eq.
  - unfold entities_since. intros [_ Hw]%elem_of_filter_b. cbn [fst snd] in Hw. apply andb_prop in Hw as [_ Hw].
    apply orb_prop in Hw as [Hw%Z.eqb_eq|Hw%Z.leb_le]; [done|lia].
Qed.
End Facts.

(** ** A server that is moved *)

Module Moved.
#[export] Existing Instance Verify.World.netip.
#[export] Existing Instance Verify.World.keccak.
#[export] Instance json : Json := {|
  unmarshal_document _ := Err (GoError "json");
  marshal_document d := Ok (Kind d +:+ " " +:+ Key d +:+ " " +:+ match Value d with AStr s => s | _ => "" end);
  decode_subkey _ := Err (GoError "json");
  decode_reference _ := Err (GoError "json");
  decode_signed_document _ := Err (GoError "json");
  decode_entity _ := Err (GoError "json");
  decode_delete _ := Err (GoError "json") |}.
#[export] Instance codec : LogCodec := {|
  marshal_signed_document sd := Ok (sd_Document sd);
  unmarshal_signed_document _ := Err (GoError "json") |}.
#[export] Instance times : TimeParse := λ s, if String.eqb s "now" then Ok 1000 else Err (GoError "time").

Definition base (ty id : string) : V1.DocumentBase := V1.mkBase id "con1alice" "con1alice" ty "schema" "" "" "" ANil "" 5.
Definition profile : V1.DocumentBase := base "profile" "psub".
Definition message : V1.MessageDocument := V1.mkMessage (base "message" "") ["world.concrnt.t-subhome.psub@con1alice"].
Definition del (target : string) : V1.DeleteDocument := V1.mkDelete (base "delete" "") target.
Definition cdid_of (text : string) : string := V1.cdid (take 10 (GetHash text)) 5.
#[export] Instance v1 : V1Json := {|
  decode_base text := if String.eqb text "profile" then Ok profile
                      else if String.eqb text "message" then Ok (base "message" "")
                      else if String.eqb text "delete" then Ok (base "delete" "") else Err (GoError "json");
  decode_message text := if String.eqb text "message" then Ok message else Err (GoError "json");
  decode_profile text := if String.eqb text "profile" then Ok profile else Err (GoError "json");
  decode_association _ := Err (GoError "json");
  decode_timeline _ := Err (GoError "json");
  decode_subscription _ := Err (GoError "json");
  decode_subscribe _ := Err (GoError "json");
  decode_deletion text := if String.eqb text "delete" then Ok (del ("m" +:+ cdid_of "message"))
                          else if String.eqb text "unprofile" then Ok (del "psub") else Err (GoError "json");
  decode_ref_body _ _ := Err (GoError "json");
  ref_body_value _ _ := ANil;
  reference_value _ := ANil;
  decode_params _ := Err (GoError "json");
  decode_defaults _ := Err (GoError "json") |}.

Definition marshal_reference (d : Document Reference) : result string := Ok ("reference " +:+ Key d).
Definition source : V1.Source := V1.mkSource {["con1alice" := V1.mkEntity "old" 1]} []
  [V1.mkCommitLog 2 "d2" "message"; V1.mkCommitLog 1 "d1" "profile"; V1.mkCommitLog 7 "d3" "broken"].
Definition fresh : Migration := mkMigration ∅ ∅ ∅ ∅ ∅ empty_db.
(** A server that answers, and one that does not. *)
Definition up (body : string) (db : DB) : result (list ImportResult) * DB := (Ok [], db).
Definition down (body : string) (db : DB) : result (list ImportResult) * DB := (Err (GoError "unexpected status code"), db).
Definition now_text (t : Z) : string := "now".
End Moved.
Import Moved.

Local Abbreviation records := (transferRecords marshal_reference "old" "csid" "new" [] source).

Lemma source_serial : serial source.
Proof. split; [apply (bool_decide_eq_true_1 (NoDup _)); vm_compute; reflexivity|]. repeat constructor; cbn; lia. Defined.

(** The server is down: the run stops at its first page. *)
Lemma migration_resumes_witness : fst (records down fresh) = Err (GoError "unexpected status code") ∧
  ∃ ps n rest st1, came_to marshal_reference "old" "csid" "new" [] source down 0 fresh ps n rest st1 ∧
    stopped marshal_reference "old" "csid" "new" [] source down 0 n rest st1 (fst (records down fresh)) (snd (records down fresh)) ∧
    ∃ k, seeker (snd (records down fresh)) = Some k ∧ commits_after source k = rest.
Proof.
  split; [vm_compute; reflexivity|].
  apply (migration_resumes marshal_reference "old" "csid" "new" [] source down 0 fresh _ _ source_serial eq_refl).
  apply surjective_pairing.
Defined.

(** When it is up again everything is sent. *)
Example sent_when_up : fst (records up (snd (records down fresh))) = Ok 0%nat ∧
  MigrationInfo (snd (records up (snd (records down fresh)))) !! "records" = Some "7".
Proof. split; vm_compute; reflexivity. Qed.

Definition posted : result string * Migration := convertRecord marshal_reference "old" "csid" "new" [] source (V1.mkCommitLog 2 "d2" "message") fresh.

Lemma moved_signers : signer_agrees.
Proof.
  intros text b m Hb Hm. unfold decode_message, v1 in Hm. destruct (String.eqb_spec text "message") as [->|]; [|done].
  injection Hm as <-. vm_compute in Hb. by injection Hb as <-.
Defined.

Lemma converted_local_witness : is_ok (fst posted) = true ∧
  ∀ text, fst posted = Ok text → local_output marshal_reference "old" "csid" "new" source text.
Proof.
  split; [vm_compute; reflexivity|]. intros text Ht.
  apply (converted_local marshal_reference "old" "csid" "new" [] source (V1.mkCommitLog 2 "d2" "message") fresh text (snd posted) moved_signers).
  - intros id e He. vm_compute in He. discriminate.
  - rewrite <- Ht. apply surjective_pairing.
Defined.

Lemma message_deleted_witness :
  convertDelete "delete" (snd posted) =
    delete_lines ["cckv://con1alice/concrnt.world/profiles/psub/posts/m" +:+ cdid_of "message"] "con1alice" 5 (snd posted).
Proof.
  apply (message_deleted marshal_reference "old" "csid" "new" source "message" (cdid_of "message") (V1.mkEntity "old" 1)
           (set_entityCache fresh {["con1alice" := V1.mkEntity "old" 1]}) (fst posted) (snd posted) message "delete" (del ("m" +:+ cdid_of "message")));
    vm_compute; reflexivity.
Defined.

Definition filed : result string * Migration := convertProfile "old" "csid" "new" source "profile" "x" fresh.

Lemma subprofile_delete_hits_main_witness :
  fst filed = Ok "record cckv://con1alice/concrnt.world/profiles/psub " ∧
  filed = finish "old" "csid" "new" source (record_of (profile_key "con1alice" "psub") ANil "con1alice" "schema" 5 None)
            (set_table fresh {["psub" := profile_key "con1alice" "main"]}) ∧
  convertDelete "unprofile" (snd filed) = delete_lines [profile_key "con1alice" "main"] "con1alice" 5 (snd filed).
Proof.
  split; [vm_compute; reflexivity|].
  apply (subprofile_delete_hits_main "old" "csid" "new" source "profile" "x" profile fresh (fst filed) (snd filed) "unprofile" (del "psub"));
    try reflexivity; try discriminate; apply surjective_pairing.
Defined.

Lemma local_registered_witness : ∃ st', transferMetas "old" "csid" [] source fresh = (Ok tt, st') ∧
  (∀ id, local_id "old" "csid" source id → in_list [] id = false → is_Some (dest_metas st' !! id)) ∧
  (∀ id, is_Some (dest_metas fresh !! id) → is_Some (dest_metas st' !! id)).
Proof. eexists. split; [reflexivity|]. apply (local_registered "old" "csid" [] source fresh). reflexivity. Defined.

Lemma entity_between_lost_witness : ∃ st', transferEntities "old" "csid" "new" [] source up now_text 1000 fresh = (Ok tt, st') ∧
  MigrationInfo st' !! "entities" = Some "now" ∧
  ("con1bob", V1.mkEntity "old" 999) ∉ entities_since [] (V1.mkSource {["con1bob" := V1.mkEntity "old" 999]} [] []) 1000.
Proof.
  eexists. split; [reflexivity|].
  apply (entity_between_lost "old" "csid" "new" [] source up now_text 1000 fresh _ 1000 eq_refl eq_refl ltac:(discriminate)). reflexivity.
Defined.
